(* ===== verification/_CoqProject ===== *)
-Q . S2P
Prelude.v
RollingHash.v
Slice.v
Types.v
HashVal.v
Chunk.v
Node.v
NodeSearch.v
Chunker.v
Canonical.v
Leaf.v
Store.v
Cursor.v
Builder.v
Advanced.v
Objects.v
Build.v
Tree.v
TreeProps.v
Cell.v
HeadVersion.v
Worker.v
Grow.v
WorkerProps.v
History.v
CursorProps.v
KeySearch.v
ReadProps.v
CreateProps.v
ObjectProps.v
Comparator.v
Iterator.v
Levenshtein.v
Merger.v
CompareProps.v
IterateProps.v
DiffProps.v
DiffClaims.v
IteratorProps.v
IteratorClaims.v
MergeProps.v
DiffLimits.v
LstStore.v
LstProps.v
LstLoad.v
LstClaims.v
Messages.v
WorkerService.v
WorkerClient.v
RpcProps.v
RpcClaims.v
ClusterProps.v
ClientThreads.v
ObjectDB.v
ObjectDBProps.v
RocksHead.v
RocksProps.v
Recut.v
LevelCursor.v
EditChain.v
EditCommit.v
EditCursor.v
Splice.v
SpliceProps.v
EditProps.v
Text.v
Pipeline.v
PipelineProps.v
Relational.v
BlobStore.v
Dict.v
RelationalProps.v
BlobStoreProps.v
