(* ===== verification/Prelude.v ===== *)
(** * ForkBase (UStore): a verification development

    ForkBase is a storage engine with Git-like versioning.  Values are cut
    into content-defined chunks that form POS-trees (a Merkle search tree whose
    node boundaries are chosen by a rolling hash); chunks are stored under
    their hash; every version of a key is a cell that names its predecessors;
    branches point to versions.  This library models the core of the C++ code
    under [src/] as executable definitions and proves what makes it correct.

    ** Parts and files

    - [Prelude]: bytes, little-endian fields, machine widths, memory reads that
      fail out of range, [CHECK] and [LOG_FATAL], shared lemmas and tactics.
    - [RollingHash]: [buzhash.h], [rolling_hash.h/.cc].  The ring buffer of
      BuzHash, the boundary detector.
    - [Slice]: [slice.h], [orderedkey.h/.cc].  Byte strings and the order of keys.
    - [Types]: the enumerations of [type.h].
    - [HashVal]: [hash.h/.cc].  Hash values, base32; the digest is a parameter.
    - [Chunk]: [chunk.h/.cc], [segment.h/.cc].
    - [Node], [NodeSearch]: [node.h/.cc], [meta_node.cc], [blob_node.cc],
      [map_node.cc], [set_node.cc], [list_node.cc].  Entry formats, parsing a
      chunk into a node, lookups; reference searches and their equivalence.
    - [Chunker]: the five [Make] functions.  [Canonical]: the canonical tree of
      a list of entries, the specification of the builder.  [Leaf]: properties
      of encoding, chunking and parsing of one node.
    - [Store]: [chunk_store.h], [chunk_loader.cc], [chunk_writer.cc] and the
      chunk part of [cluster/].  The storage engine is the class [ChunkStore]
      with the contract [ChunkStoreSpec].
    - [Cursor]: [cursor.h/.cc].  [Builder]: [node_builder.h/.cc] (NodeBuilder).
      [Build]: simulation of the builder by the canonical tree.  [Tree]: the
      tree invariant of a store.  [TreeProps]: properties of building.
    - [Cell]: [cell_node.h/.cc], [ucell.h/.cc].
    - [HeadVersion]: [head_version.h], [simple_head_version.h/.cc]; the
      interface is the class [HeadVersion] with the contract [HeadVersionSpec].
    - [Advanced]: [node_builder.h/.cc] (AdvancedNodeBuilder): transactions of
      several edits with their cache of chunks.
    - [Objects]: [types/base.h], [ublob.cc], [ulist.cc], [umap.cc], [uset.cc] and
      [types/server/]: creating, editing and reading blobs, lists, maps, sets.
    - [Worker]: [worker.h/.cc], [value.h]: the versioned key-value store on any
      storage engine and any head table.
    - [Grow]: every operation that writes only adds chunks.  [WorkerProps]: the
      worker as a machine ([Op], [exec], [reach]), its invariant and the effect
      of its operations.  [History]: the branch operations refine a plain table
      ([table_step]); latest versions and histories ([Event], [maximal]).
    - [CursorProps], [KeySearch], [ReadProps]: cursors as zippers on the tree
      invariant, search by key, point reads.  [CreateProps], [ObjectProps]:
      creating objects, and that they read back.
    - [Comparator]: [node_comparator.h], the walk over two trees and its three
      traversers, by key and by index.  [Levenshtein]: [LevenshteinMapper].
      [Iterator]: [uiterator.h/.cc] and the iterators of the object types.
      [Merger]: [node_merger.h], [SMap::Merge], [SSet::Merge], [SList::Merge].
    - [CompareProps], [IterateProps], [DiffProps], [DiffClaims]: what the
      comparison by key computes.  [IteratorProps], [IteratorClaims]: what the
      iterators show.  [MergeProps]: the changes a merge finds and when they
      collide.  [DiffLimits]: trees on which the comparison by index, a jump of a
      cursor and a search for the empty key give wrong answers.
    - [LstStore]: [lst_store.h/.cc], [chars.h].  The default storage engine, on a
      file mapped into memory.  [LstProps]: the layout of the file as an
      invariant.  [LstLoad]: opening a file.  [LstClaims]: what the store
      promises.  Unlike the engines of the class [ChunkStore] it can terminate
      the process in [Put], when the last segment is full.
    - [Messages], [WorkerService], [WorkerClient]: [messages.proto],
      [worker_service.cc], [worker_client.cc], [client.cc].  Requests and
      responses as protobuf messages, the handlers of the service and the calls
      of the client on a cluster, which is the list of its workers.
    - [RpcProps], [RpcClaims], [ClusterProps]: remote calls are calls at the
      worker that owns the key; the cluster as one store.
    - [ClientThreads]: [Send], [WaitForResponse], [HandleResponse] as a step
      relation over client threads, network and server.
    - [ObjectDB]: [db.h], [types/client/], [object_db.cc], [object_meta.cc],
      [worker_ext.cc].  The interface of databases with its two implementations,
      client objects and their buffers.  [ObjectDBProps]: what a client relies on
      ([DBSpec], met by a worker and by a cluster), and objects that are put and
      got through it.
    - [RocksHead]: [utils/rocksdb.h/.cc], [rocks_head_version.h/.cc].  The head
      table on RocksDB, which is a parameter.  [RocksProps]: its merge operator,
      its branches, and what depends on how RocksDB groups updates.
    - [Recut], [LevelCursor], [EditChain], [EditCommit], [EditCursor], [Splice],
      [SpliceProps]: editing a tree.  Cutting a changed sequence into nodes again
      ([Recut]); cursors on one level of a canonical tree; the builders of all
      levels while entries are skipped and appended ([chain]); committing a level
      and the levels above it, which keeps the old nodes beyond the edit.  The
      result is the canonical tree of the edited sequence.  [EditProps]: what the
      objects read as after an edit.
    - [Text]: [utils.h/.cc], the string functions of [Utils].  [Pipeline]:
      [blocking_queue.h], [sync_task_line.h] and the threads of
      [ColumnStore::LoadCSV]; [PipelineProps]: that they finish and lose nothing.
    - [Relational]: [spec/relational.h/.cc], the column store.  [BlobStore]:
      [spec/blob_store.h/.cc], the datasets.  Both are programs over the interface
      [DB] in an error monad ([Op]); files are given by their text.  [Dict]: maps
      of versioned objects on a worker, the structure both layers keep, with what
      it takes to read and to change one ([dict_rep]).  [RelationalProps],
      [BlobStoreProps]: the operations on such maps.

    ** Conventions

    The build that is modelled is the default one: [DCHECK] does nothing,
    SimpleHeadVersion, Crypto++ with BLAKE2b. [None] is "the process died
    ([CHECK], [LOG(FATAL)], an exception out of [noexcept] code) or the
    behaviour is undefined", or that the fuel ran out, so a theorem that a
    function returns [Some] also says that it stays inside its buffers.
    Pointers are the bytes from their address to the end of the allocation.
    Stored integers are [Z] with their wrap-around written out ([u8] .. [u64],
    [sext]); in-memory offsets are [nat] where the checks exclude a wrap.
    Uninitialised memory is the class [Uninit]. Requests are handled one at a
    time. A builder is the list of its levels, leaf first, and so is a cursor.

    Parameters: the digest ([HashFunction], of which only its length is used;
    theorems that need it assume explicitly that the chunks at hand do not
    collide), the storage engine ([ChunkStore]), uninitialised memory ([Uninit]),
    protobuf ([Protobuf], whose parser inverts its serialiser), [std::sort]
    ([StdSort]) and the string algorithms of boost ([Boost], with their documented
    behaviour in [BoostSpec]).  Witnesses instantiate them with [plain_hash],
    [map_store], [zeroed], [bit_protobuf], [merge_std_sort], [plain_boost].  The
    objects read a store directly; the cache of [ChunkLoader], which also keeps
    failed lookups, is modelled by itself ([ldr_Load], [loader_cache]).

    ** Fuel

    Loops over data recurse on the data.  Fuel is used where the recursion
    follows hashes or levels: descending a tree (bounded by its height),
    [RecursiveCommit] (one unit per level; [build_correct] shows that one per
    entry is enough if meta entries are shorter than the window of the inner
    levels, [build_diverges] that for huge keys every round ends normally and
    asks for another one, so that no amount is enough),
    the entry loops of the cursor, the walks of comparator and iterators (the
    theorems give the number of steps in terms of the entries) and the lists of
    segments of a log file ([link_steps], [load_steps]: as many as a file of the
    maximal size can hold).

    ** What the theorems show

    - [buz_is_window_hash], [TryHashBytes_history_independent],
      [TryHashBytes_chunk_size], [buz_default_shift_by_32]: the rolling hash is
      the hash of the last window; boundaries depend only on what follows the
      previous boundary and bound the chunk sizes; the shift count of the
      default window is out of range.
    - [OrderedKey_slice_order], [base32_roundtrip], [FromBase32_malformed]: keys
      are totally ordered; base32 round trips and its errors.
    - [map_leaf_roundtrip], [encode_rejects], [meta_descent_by_index]: map leaves
      round trip, encoders reject unordered input, inner nodes find the right
      child.
    - [cluster_read_your_writes], [loader_cache]: reads through a partitioned
      cluster; the loader's cache.
    - [build_correct], [build_segmentation_independent], [build_diverges]:
      building a tree from entries with short keys terminates, is canonical and
      readable; with keys that fill a chunk it runs forever.
    - [cell_roundtrip], [cell_large_data_lost], [head_version_persist]: cells and
      head tables round trip; the data lengths that do not.
    - [splice_operands_invariant]: the operands of a transaction stay sorted and
      disjoint.
    - [worker_invariant], [failed_operation_frame], [versions_immutable]:
      invariant of the worker over all sequences of operations; failed operations
      change no table; versions stay, which follows from the contract of storage.
    - [put_then_get], [merge_then_get]: what Put and Merge of strings, with data and
      context below 2^15 bytes, do to branches, versions and latest versions, and
      that the result reads back.
    - [branch_refinement]: the branch operations refine operations on a table of
      heads.
    - [latest_versions_maximal], [restart_restores_latest], [reput_resurrects]:
      latest versions are the maximal versions of the history, also after a
      restart; re-putting old content breaks causality and brings a superseded
      version back.
    - [cursor_scan], [key_search_lower_bound]: cursors enumerate a tree, searches
      find the lower bound of a key.
    - [blob_create_read], [list_create_get], [map_create_get], [set_create_get]:
      an object reads as the content it was created from.
    - [key_diff_intersect], [map_diff_items], [object_scan]: diff and intersection
      by key classify exactly the right entries if the left keys are greater than
      the key of one zero byte; the iterators show exactly the items in question,
      in order, for left trees of at most two levels.
    - [merge_changes], [merge_conflicts]: the changed ranges a merge computes; two
      changes of overlapping ranges collide if their ranges or their numbers of
      entries differ, but two different changes of the same range with equally many
      entries never collide (the comparison of contents compares one side with
      itself), and the second of them is dropped.
    - [lst_put_get], [lst_reopen], [lst_iterate], [lst_run_invariant]: the
      log-structured store returns what was put, also after the file is opened
      again, and keeps the layout of its file under every sequence of operations,
      as long as chunks fit into an empty segment, which the code does not check.
    - [rpc_transparent], [cluster_refines_workers], [cluster_keys],
      [remote_put_then_get], [value_on_the_wire], [stream_put]: a cluster behaves
      like its workers, each with its own keys; what a client puts every client
      gets; the deletions that do not fit a message, and streams on top of a
      version, are the exceptions.
    - [clients_get_their_responses]: every interleaving of client, network and
      server steps leads to all calls returning with their own responses.
    - [object_db_map], [object_db_blob]: an object that is put through [ObjectDB]
      is read back through it, chunk by chunk over the network.
    - [rocks_merge_operator], [rocks_branch_refinement], [rocks_latest_chain],
      [rocks_regrouping], [rocks_list_branches]: the RocksDB head table computes
      what its contract says for branches and for keys with one line of versions;
      with several branches a version can get lost, and branches with names below
      "*" are not listed.
    - [splice_is_rebuild]: editing a canonical tree gives the tree, and the root
      hash, that building the edited sequence from scratch gives.  The limits are
      those of building ([can_edit]: meta entries shorter than the window of the
      inner levels, keys of about 218 bytes by default), and the edit must keep the
      end of the sequence ([keeps_end]).  [cut_at_leaf_start]: an edit that cuts the
      end off where a leaf begins, and does not give the canonical tree.
    - [blob_splice_read], [list_splice_get], [map_set_get], [map_remove_get]: what
      an object reads as after such an edit, and that the version before it stays.
    - [put_column_refines], [insert_row_refines], [update_row_refines],
      [delete_row_refines]: the operations of the relational layer do on a finite
      map of columns what they are named after, and refuse rows that do not fit the
      schema; [update_row_not_atomic]: an error can leave a part of a row changed.
    - [csv_load_complete], [csv_roundtrip], [task_line_sync], [csv_load_hangs],
      [csv_one_column]: the two threads that load a file neither wait forever nor
      lose a row, and what is dumped is loaded, as long as writes succeed; after a
      failed write the loader can hang, and tables with one column cannot be
      loaded.
    - [put_entry_refines], [delete_entry_refines], [entry_names_distinct]: the
      dataset layer on a finite map of contents; names of several attributes are
      told apart.

    ** Not modelled

    The LevelDB and RocksDB engines (third-party libraries), network transport,
    command line, HTTP server, benchmarks, examples, logging and progress bars;
    the file system; [created_segs_], which only keeps memory alive.  Of the log-structured store: the system calls
    behind the mapped file, its periodic [msync], and the interleavings of the
    enlarging thread inside its critical section; the thread is one step.  The
    theorems on iterators are for trees of at most two levels of nodes, beyond
    which [AdvanceSteps] is wrong ([jump_over_inner_nodes]).  *)

From Stdlib Require Export ZArith Lia Strings.Byte.
From stdpp Require Export base tactics option list gmap countable strings sorting.

#[export] Set Default Goal Selector "!".

(** ** Notation scope and hint databases of the development *)

Declare Scope ustore_scope.
Delimit Scope ustore_scope with ustore.

(** [ustore] holds resolution hints (bounds, invariants); [ubytes] holds the
    rewriting rules that normalise lengths of byte strings. *)
Create HintDb ustore.
Create Rewrite HintDb ubytes.

(** ** Bytes ([byte_t] is [unsigned char]) *)

Abbreviation byte := Byte.byte.
Abbreviation bytes := (list Byte.byte).

#[export] Instance byte_eq_decision : EqDecision Byte.byte := Byte.byte_eq_dec.

Lemma byte_decode_encode (b : Byte.byte) :
  decode (encode (Byte.to_N b)) ≫= Byte.of_N = Some b.
Proof. rewrite decode_encode. simpl. apply Byte.of_to_N. Qed.

#[export] Instance byte_countable : Countable Byte.byte :=
  {| encode b := encode (Byte.to_N b); decode p := decode p ≫= Byte.of_N;
     decode_encode := byte_decode_encode |}.

(** Numeric value of a byte, and the conversion to [byte_t] of an unsigned
    integer (reduction modulo 256). *)
Definition b2z (b : byte) : Z := Z.of_N (Byte.to_N b).

Definition z2b (z : Z) : byte :=
  default Byte.x00 (Byte.of_N (Z.to_N (z mod 256)%Z)).

Lemma b2z_range b : (0 <= b2z b < 256)%Z.
Proof. unfold b2z. pose proof (Byte.to_N_bounded b). lia. Qed.

Lemma b2z_z2b z : b2z (z2b z) = (z mod 256)%Z.
Proof.
  unfold b2z, z2b.
  pose proof (Z.mod_pos_bound z 256 ltac:(lia)) as Hb.
  destruct (Byte.of_N (Z.to_N (z mod 256))) as [b|] eqn:E; simpl.
  - apply Byte.to_of_N in E. rewrite E. lia.
  - apply Byte.of_N_None_iff in E. lia.
Qed.

Lemma b2z_inj b1 b2 : b2z b1 = b2z b2 -> b1 = b2.
Proof.
  unfold b2z. intros H. apply N2Z.inj in H.
  pose proof (Byte.of_to_N b1). pose proof (Byte.of_to_N b2). congruence.
Qed.

Lemma z2b_b2z b : z2b (b2z b) = b.
Proof.
  apply b2z_inj. rewrite b2z_z2b. apply Z.mod_small, b2z_range.
Qed.

(** ** Unsigned integers in memory (little-endian, as on the target) *)

Fixpoint le_encode (n : nat) (z : Z) : bytes :=
  match n with
  | O => []
  | S n' => z2b z :: le_encode n' (z / 256)%Z
  end.

Fixpoint le_decode (l : bytes) : Z :=
  match l with
  | [] => 0%Z
  | b :: l' => (b2z b + 256 * le_decode l')%Z
  end.

Lemma length_le_encode n z : length (le_encode n z) = n.
Proof. revert z. induction n; intros z; simpl; auto. Qed.

Lemma le_decode_encode n z :
  le_decode (le_encode n z) = (z mod 256 ^ Z.of_nat n)%Z.
Proof.
  revert z. induction n as [|n IH]; intros z.
  - simpl. by rewrite Z.mod_1_r.
  - cbn [le_encode le_decode]. rewrite IH, b2z_z2b, Nat2Z.inj_succ, Z.pow_succ_r by lia.
    rewrite Z.rem_mul_r by lia. lia.
Qed.

Lemma le_decode_encode_small n z :
  (0 <= z < 256 ^ Z.of_nat n)%Z -> le_decode (le_encode n z) = z.
Proof. intros. rewrite le_decode_encode. by apply Z.mod_small. Qed.

Lemma le_decode_range l : (0 <= le_decode l < 256 ^ Z.of_nat (length l))%Z.
Proof.
  induction l as [|b l IH]; cbn [le_decode length].
  - simpl. lia.
  - pose proof (b2z_range b). rewrite Nat2Z.inj_succ, Z.pow_succ_r by lia. lia.
Qed.

Lemma le_encode_decode l : le_encode (length l) (le_decode l) = l.
Proof.
  induction l as [|b l IH]; cbn [le_decode le_encode length]; [done|].
  pose proof (b2z_range b). f_equal.
  - apply b2z_inj. rewrite b2z_z2b.
    rewrite Z.mul_comm, Z_mod_plus_full. by apply Z.mod_small.
  - rewrite Z.mul_comm, Z.div_add by lia.
    by rewrite Z.div_small, Z.add_0_l by lia.
Qed.

Arguments le_encode : simpl never.
Arguments le_decode : simpl never.

(** Machine widths: an unsigned value stored in [w] bits, and the signed
    reading of the same bits (two's complement). *)
Definition wrap (w : Z) (z : Z) : Z := (z mod 2 ^ w)%Z.

Definition sext (w : Z) (z : Z) : Z :=
  (if z <? 2 ^ (w - 1) then z else z - 2 ^ w)%Z.

Abbreviation u8 := (wrap 8).
Abbreviation u16 := (wrap 16).
Abbreviation u32 := (wrap 32).
Abbreviation u64 := (wrap 64).

(** Conversion to [int32_t] and [int64_t]. *)
Definition i32 (z : Z) : Z := sext 32 (u32 z).
Definition i64 (z : Z) : Z := sext 64 (u64 z).

Lemma wrap_range w z : (0 <= w -> 0 <= wrap w z < 2 ^ w)%Z.
Proof. intros. apply Z.mod_pos_bound. lia. Qed.

Lemma wrap_small w z : (0 <= z < 2 ^ w)%Z -> wrap w z = z.
Proof. intros. by apply Z.mod_small. Qed.

Lemma i32_small z : (0 <= z < 2 ^ 31)%Z -> i32 z = z.
Proof.
  intros Hz. unfold i32, sext. rewrite (wrap_small 32) by lia.
  replace (32 - 1)%Z with 31%Z by lia. by rewrite (proj2 (Z.ltb_lt _ _)) by lia.
Qed.

(** ** Reading memory

    A pointer into a buffer is the list of the bytes from that address to the
    end of the allocation.  A read past the end is undefined behaviour in C++;
    the model gives it no result ([None]), so that a theorem that a function
    returns [Some] also says that it stays inside its buffers. *)
Definition read_bytes (off n : nat) (mem : bytes) : option bytes :=
  if decide (off + n <= length mem) then Some (take n (drop off mem)) else None.

Definition read_u (w off : nat) (mem : bytes) : option Z :=
  le_decode <$> read_bytes off w mem.

Abbreviation read_u8 := (read_u 1).
Abbreviation read_u16 := (read_u 2).
Abbreviation read_u32 := (read_u 4).
Abbreviation read_u64 := (read_u 8).

Lemma read_bytes_app off n pre mid post :
  length pre = off -> length mid = n ->
  read_bytes off n (pre ++ mid ++ post) = Some mid.
Proof.
  intros <- <-. unfold read_bytes. rewrite !length_app.
  rewrite decide_True by lia.
  by rewrite drop_app_length, take_app_length.
Qed.

Lemma read_bytes_app_l off n l l' :
  off + n <= length l -> read_bytes off n (l ++ l') = read_bytes off n l.
Proof.
  intros. unfold read_bytes. rewrite length_app, !decide_True by lia.
  rewrite drop_app_le by lia. by rewrite take_app_le by (rewrite length_drop; lia).
Qed.

Lemma read_bytes_drop off k n l :
  k <= length l -> read_bytes off n (drop k l) = read_bytes (k + off) n l.
Proof.
  intros. unfold read_bytes. rewrite length_drop, drop_drop.
  destruct (decide (off + n <= length l - k)), (decide (k + off + n <= length l));
    [done|lia|lia|done].
Qed.

Lemma read_bytes_all l : read_bytes 0 (length l) l = Some l.
Proof.
  unfold read_bytes. rewrite decide_True by lia. by rewrite drop_0, firstn_all.
Qed.

Lemma read_u_app w off pre z post :
  length pre = off ->
  read_u w off (pre ++ le_encode w z ++ post) = Some (z mod 256 ^ Z.of_nat w)%Z.
Proof.
  intros. unfold read_u.
  rewrite read_bytes_app by (by rewrite ?length_le_encode). simpl.
  by rewrite le_decode_encode.
Qed.

Lemma read_u_here w z post :
  read_u w 0 (le_encode w z ++ post) = Some (z mod 256 ^ Z.of_nat w)%Z.
Proof. apply (read_u_app w 0 []). done. Qed.

Lemma read_u_app_l w off l l' :
  off + w <= length l -> read_u w off (l ++ l') = read_u w off l.
Proof. intros. unfold read_u. by rewrite read_bytes_app_l. Qed.

Lemma read_u_drop w off k l :
  k <= length l -> read_u w off (drop k l) = read_u w (k + off) l.
Proof. intros. unfold read_u. by rewrite read_bytes_drop. Qed.

Arguments read_bytes : simpl never.
Arguments read_u : simpl never.
Arguments wrap : simpl never.

(** ** Process termination

    [CHECK(c)] and [LOG(FATAL)] terminate the process.  Code that can do so
    returns an [option]; [None] is "no result: the process died (or the
    behaviour is undefined)".  [DCHECK] does nothing in the default build. *)
Definition CHECK (c : bool) : option unit := if c then Some tt else None.

Definition LOG_FATAL {A} : option A := None.

Lemma CHECK_Some c (u : unit) : CHECK c = Some u <-> c = true.
Proof. destruct c, u; simpl; split; congruence. Qed.

(** ** Generic list lemmas *)

Fixpoint sum_with {A} (f : A -> Z) (l : list A) : Z :=
  match l with
  | [] => 0%Z
  | x :: l' => (f x + sum_with f l')%Z
  end.

Lemma sum_with_app {A} (f : A -> Z) l1 l2 :
  sum_with f (l1 ++ l2) = (sum_with f l1 + sum_with f l2)%Z.
Proof. induction l1; simpl; lia. Qed.

Lemma sum_with_nonneg {A} (f : A -> Z) l :
  (forall x, 0 <= f x)%Z -> (0 <= sum_with f l)%Z.
Proof. intros H. induction l as [|x l IH]; simpl; [lia|]. specialize (H x). lia. Qed.

(** Offsets of consecutive blocks laid out from [base]. *)
Fixpoint offsets_from (base : nat) (ls : list bytes) : list nat :=
  match ls with
  | [] => []
  | l :: ls' => base :: offsets_from (base + length l) ls'
  end.

Lemma length_offsets_from base ls : length (offsets_from base ls) = length ls.
Proof. revert base. induction ls; intros; simpl; auto. Qed.

Lemma offsets_from_app base l1 l2 :
  offsets_from base (l1 ++ l2) =
  offsets_from base l1 ++ offsets_from (base + length (concat l1)) l2.
Proof.
  revert base. induction l1 as [|x l1 IH]; intros base; simpl.
  - by rewrite Nat.add_0_r.
  - rewrite IH, length_app. do 2 f_equal. f_equal. lia.
Qed.

Lemma offsets_from_lookup base ls i off :
  offsets_from base ls !! i = Some off ->
  off = base + length (concat (take i ls)).
Proof.
  revert base i. induction ls as [|l ls IH]; intros base i; simpl; [done|].
  destruct i as [|i]; simpl.
  - intros [= <-]. lia.
  - intros ->%IH. rewrite length_app. lia.
Qed.

Lemma offsets_from_lookup_lt base ls i :
  i < length ls ->
  offsets_from base ls !! i = Some (base + length (concat (take i ls))).
Proof.
  intros Hi.
  destruct (lookup_lt_is_Some_2 (offsets_from base ls) i) as [off Hoff].
  { by rewrite length_offsets_from. }
  rewrite Hoff. f_equal. by apply offsets_from_lookup in Hoff.
Qed.

Lemma concat_take_drop {A} (ls : list (list A)) i :
  concat ls = concat (take i ls) ++ concat (drop i ls).
Proof. by rewrite <- concat_app, take_drop. Qed.

Lemma concat_lookup_split {A} (ls : list (list A)) i l :
  ls !! i = Some l ->
  concat ls = concat (take i ls) ++ l ++ concat (drop (S i) ls).
Proof.
  intros H. rewrite <- (take_drop_middle ls i l H) at 1.
  by rewrite concat_app.
Qed.

#[export] Hint Rewrite @length_app @length_take @length_drop length_le_encode
  @length_replicate @length_fmap @length_cons length_offsets_from : ubytes.

(** Normalise lengths, then close with linear arithmetic. *)
Ltac blen := autorewrite with ubytes in *; simpl in *; lia.

(** A traversal whose steps all succeed. *)
Lemma mapM_total {A B} (f : A -> option B) (g : A -> B) l :
  (forall x, x ∈ l -> f x = Some (g x)) -> mapM f l = Some (g <$> l).
Proof.
  induction l as [|x l IH]; intros Hf; [done|]. cbn [mapM]. rewrite Hf by (by left). simpl.
  rewrite IH; [done|]. intros y Hy. apply Hf. by right.
Qed.

(** Elements of a sorted list. *)
Lemma sorted_lookup {A} (R : A -> A -> Prop) l i j x y :
  StronglySorted R l -> i < j -> l !! i = Some x -> l !! j = Some y -> R x y.
Proof.
  intros Hs. revert i j. induction Hs as [|a l Hs IH Ha]; intros i j Hij Hi Hj; [done|].
  destruct j as [|j]; [lia|]. destruct i as [|i]; simpl in *.
  - simplify_eq. rewrite Forall_forall in Ha. apply Ha. by eapply list_elem_of_lookup_2.
  - eapply IH; [|done..]. lia.
Qed.

Lemma sorted_of_lookup {A} (R : A -> A -> Prop) l :
  (forall i j x y, i < j -> l !! i = Some x -> l !! j = Some y -> R x y) -> StronglySorted R l.
Proof.
  induction l as [|a l IH]; intros HR; constructor.
  - apply IH. intros i j x y Hij Hi Hj. apply (HR (S i) (S j)); [lia|done|done].
  - apply Forall_forall. intros x [i Hi]%list_elem_of_lookup. apply (HR 0 (S i)); [lia|done|done].
Qed.

(** Reduce binds and checks whose argument is a value, and nothing else. *)
Ltac osimpl :=
  cbn [mbind option_bind fmap option_fmap option_map mret option_ret CHECK default from_option id].
Tactic Notation "osimpl" "in" hyp(H) :=
  cbn [mbind option_bind fmap option_fmap option_map mret option_ret CHECK default from_option id] in H.

(** Case analysis on the guards of a monadic definition: split every bind,
    check and decidable test of a hypothesis that says it returned. *)
Ltac unbind H :=
  repeat match type of H with
  | context [_ ≫= _] =>
      apply bind_Some in H; destruct H as (? & ? & H)
  | context [CHECK ?c] => let E := fresh "Hck" in destruct c eqn:E; simpl in H; [|discriminate H]
  end.

(** Replace the boolean tests in the context by propositions. *)
Ltac tobool :=
  repeat match goal with
  | H : bool_decide _ = true |- _ => apply bool_decide_eq_true in H
  | H : bool_decide _ = false |- _ => apply bool_decide_eq_false in H
  | H : (_ && _) = true |- _ => apply andb_true_iff in H; destruct H
  | H : negb _ = true |- _ => apply negb_true_iff in H
  | H : negb _ = false |- _ => apply negb_false_iff in H
  | H : (_ <? _)%Z = true |- _ => apply Z.ltb_lt in H
  | H : (_ <? _)%Z = false |- _ => apply Z.ltb_ge in H
  | H : (_ <=? _)%Z = true |- _ => apply Z.leb_le in H
  | H : (_ <=? _)%Z = false |- _ => apply Z.leb_gt in H
  | H : (_ =? _)%Z = true |- _ => apply Z.eqb_eq in H
  | H : (_ =? _)%Z = false |- _ => apply Z.eqb_neq in H
  | H : (_ <? _) = true |- _ => apply Nat.ltb_lt in H
  | H : (_ <? _) = false |- _ => apply Nat.ltb_ge in H
  | H : (_ <=? _) = true |- _ => apply Nat.leb_le in H
  | H : (_ <=? _) = false |- _ => apply Nat.leb_gt in H
  | H : (_ =? _) = true |- _ => apply Nat.eqb_eq in H
  | H : (_ =? _) = false |- _ => apply Nat.eqb_neq in H
  end.
