(* ===== verification/RollingHash.v ===== *)
(** * Rolling hash: [include/hash/buzhash.h], [include/node/rolling_hash.h],
      [src/node/rolling_hash.cc]

    The cyclic-polynomial hash [BuzHash] over a ring buffer, and the
    [RollingHasher] that turns it into chunk boundaries.  The theorems relate
    the incremental state to a reference definition of the window hash, and
    show that a boundary depends only on the bytes since the last boundary. *)

From S2P Require Import Prelude.
Local Open Scope Z_scope.

(** ** Shifts of [uint32_t]

    C++ leaves a shift by 32 or more undefined.  [BuzHash] executes such a
    shift whenever its window is a multiple of 32 ([bshiftm_] is then 32); the
    target's shift instructions use the count modulo 32, which is what the
    model does.  [shr32_alt] is the other plausible reading, in which all
    bits are shifted out. *)
Definition shl32 (x k : Z) : Z := u32 (Z.shiftl x (k mod 32)).
Definition shr32 (x k : Z) : Z := Z.shiftr x (k mod 32).
Definition shr32_alt (x k : Z) : Z := Z.shiftr x k.

(** ** The byte table *)

Definition bytehash : list Z :=
  [
    0x12bd9527; 0xf4140cea; 0x987bd6e1; 0x79079850; 0xafbfd539; 0xd350ce0a;
    0x82973931; 0x9fc32b9c; 0x28003b88; 0xc30c13aa; 0x6b678c34; 0x5844ef1d;
    0xaa552c18; 0x4a77d3e8; 0xd1f62ea0; 0x6599417c; 0xfbe30e7a; 0xf9e2d5ee;
    0xa1fca42e; 0x41548969; 0x116d5b59; 0xaeda1e1a; 0xc5191c17; 0x54b9a3cb;
    0x727e492a; 0x5c432f91; 0x31a50bce; 0xc2696af6; 0x217c8020; 0x1262aefc;
    0xace75924; 0x9876a04f; 0xaf300bc2; 0x3ffce3f6; 0xd6680fb5; 0xd0b1ced8;
    0x6651f842; 0x736fadef; 0xbc2d3429; 0xb03d2904; 0x7e634ba4; 0xdfd87d8c;
    0x7988d63a; 0x4be4d933; 0x6a8d0382; 0x9e132d62; 0x3ee9c95f; 0xfec05b97;
    0x6907ad34; 0x8616cfcc; 0xa6aabf24; 0x8ad1c92e; 0x4f2affc0; 0xb87519db;
    0x6576eaf6; 0x15dbe00a; 0x63e1dd82; 0xa36b6a81; 0xeead99b3; 0xbc6a4309;
    0x3478d1a7; 0x2182bcc0; 0xdd50cfce; 0x7cb25580; 0x73075483; 0x503b7f42;
    0x4cd50d63; 0x3f4d94c9; 0x385fcbb7; 0x90daf16c; 0xece10b8e; 0x11c1cb04;
    0x816a899b; 0x69a29d06; 0xfb090b37; 0xf98ef13c; 0x07653435; 0x9f15dc42;
    0x3b43abdf; 0x1334283f; 0x93f3d9af; 0x0cbdfe71; 0xa788a614; 0x4f54d2f0;
    0xd4374fc7; 0x70557ce7; 0xf741fce8; 0xe4b6f661; 0xc630cb98; 0x387a6366;
    0x72f428fd; 0x539009db; 0xc53e3810; 0x1e1a52e5; 0x7d6816b0; 0x040f9b81;
    0x9c99c9fb; 0x9f3af3d2; 0x774d1061; 0xd5c840ea; 0x8e1480fe; 0x6ee4023c;
    0x2fbda535; 0xd88eff7a; 0xd8632a2a; 0x43c4e024; 0x3ef27971; 0xc72866fd;
    0xe35cc630; 0x46d96220; 0x437a8384; 0xe92caf0c; 0x6290a47e; 0xa7bb9238;
    0x0e1000f9; 0x49e76bdc; 0x3acfb4b8; 0x03582b8e; 0x6ea2de4e; 0x2ec1008d;
    0xfcc8df69; 0x91c2fe0a; 0xb471c7d9; 0x778be812; 0x70d29ad1; 0x76411cbf;
    0xc302e81c; 0x4e445194; 0x22e3aa72; 0xb65762e9; 0xa280db05; 0x827aa70e;
    0x4c531a9d; 0x7a60bf4a; 0x8fd95a44; 0x2289aef0; 0xcd50ddc4; 0x639aae69;
    0x5fe85ed6; 0x4ed724ff; 0x00f04f7d; 0x95a5fcb0; 0x88255d15; 0xa603d2c9;
    0xf6956a5b; 0x53ea7f3e; 0xb570f225; 0x2b3be203; 0xa181e40e; 0xc413cdce;
    0xa7cb1ebb; 0xcf258b1f; 0x516eb016; 0xca204586; 0xd1e69894; 0xe85a73d3;
    0x7db2d382; 0xae73b463; 0x3598d643; 0x5087c864; 0xd91f30b6; 0xe1d4d1e7;
    0x73b3b337; 0xceac1233; 0x8edf7845; 0xa69c45c9; 0xdb5db3ab; 0x28cfade8;
    0xebfa49e7; 0xcbc2a659; 0x59cce971; 0x959a01af; 0x8ee9aae7; 0xfb2f01c6;
    0x5a752836; 0x9ed12981; 0x618d05b6; 0x93ec12b3; 0x4590c779; 0xed1317a2;
    0x03fe5835; 0x7ad3c6f7; 0xd4aad5b5; 0x1a995ed7; 0x247bfaa4; 0x69c2c799;
    0x745fa405; 0xc5b9f239; 0xc3d9aebc; 0xa6f60e0b; 0xdf1e91d7; 0xab8e041c;
    0xee3188c6; 0x37377a9e; 0xc0e1a3bf; 0x19a5a9e4; 0x56cb9556; 0xc4d33d3f;
    0xfb1eb03e; 0xf9557057; 0x1be31d37; 0xd1fa65f1; 0xf518d714; 0x570ac722;
    0xf26cf66a; 0x24794d47; 0x8ba2e402; 0x3f5137e6; 0x35be1453; 0x43350478;
    0x9f05ee88; 0x364cf9cf; 0x39a23ee7; 0xa4db8d49; 0xc2ebb3d2; 0xc6fb99d5;
    0xe014dfb0; 0x7156d425; 0xe090a87a; 0x4cc12f78; 0x1b30f503; 0x06694a7a;
    0x68198cd1; 0x2f8345bd; 0x9d79198e; 0xd871943f; 0x22ef6cf4; 0xe81b1c15;
    0x067b61d8; 0xfc4ea4f5; 0xfe6dab57; 0x1bf744ba; 0xa70b6a25; 0xafe6e412;
    0xc6c1a05c; 0x8ffbe3ce; 0xc4270af1; 0xf3f36373; 0xc4507dd8; 0x5e6fd1e2;
    0x58cd9739; 0x47d3c5b5; 0xe1d5a343; 0x3d4dea4a; 0x893d91ae; 0xbb2a5e2a;
    0x0d57b800; 0x652a7cc9; 0x6a68ccfd; 0x62529f0b; 0xec5f36d6; 0x766cceda;
    0x96ca63ef; 0xa0499838; 0xd9030f59; 0x8185f4d2
  ].

Definition bytehash_at (b : byte) : Z := nth (Z.to_nat (b2z b)) bytehash 0.

(** ** [class BuzHash] *)

Record BuzHash := mkBuz {
  state_ : Z;            (* uint32_t *)
  n_ : nat;              (* window size, unsigned int *)
  bshiftn_ : Z;
  bshiftm_ : Z;
  bufpos_ : nat;
  buf_ : bytes;          (* ring buffer of n_ bytes *)
  overflow_ : bool
}.

(** [BuzHash::Reset]. *)
Definition buz_Reset (h : BuzHash) : BuzHash :=
  mkBuz 0 (n_ h) (bshiftn_ h) (bshiftm_ h) 0 (buf_ h) false.

(** [BuzHash::BuzHash(n)]; [mem] is the (uninitialised) content of the array
    that [new uint8_t[n]] returns. *)
Definition buz_new (n : nat) (mem : bytes) : BuzHash :=
  let shn := Z.of_nat n mod 32 in
  buz_Reset (mkBuz 0 n shn (32 - shn) 0 mem false).

(** [BuzHash::Sum32]. *)
Definition buz_Sum32 (h : BuzHash) : Z := state_ h.

(** [BuzHash::HashByte]. *)
Definition buz_HashByte (h : BuzHash) (b : byte) : BuzHash :=
  let wrapped := bool_decide (bufpos_ h = n_ h) in
  let overflow := wrapped || overflow_ h in
  let pos := if wrapped then 0%nat else bufpos_ h in
  let state := state_ h in
  let state := Z.lor (shl32 state 1) (shr32 state 31) in
  let state :=
    if overflow then
      let toshift := bytehash_at (default Byte.x00 (buf_ h !! pos)) in
      Z.lxor state (Z.lor (shl32 toshift (bshiftn_ h)) (shr32 toshift (bshiftm_ h)))
    else state in
  mkBuz (Z.lxor state (bytehash_at b)) (n_ h) (bshiftn_ h) (bshiftm_ h)
        (S pos) (<[pos := b]> (buf_ h)) overflow.

(** ** [class RollingHasher] *)

Record RollingHasher := mkRH {
  chunk_pattern_ : Z;     (* uint32_t *)
  window_size_ : nat;
  max_size_ : nat;
  byte_hashed_ : nat;
  crossed_boundary_ : bool;
  buz_ : BuzHash
}.

(** [RollingHasher::RollingHasher(chunk_pattern, window_size, max_size)]. *)
Definition rh_new (chunk_pattern : Z) (window_size max_size : nat) (mem : bytes) :
  RollingHasher :=
  mkRH chunk_pattern window_size max_size 0 false
       (buz_new (Z.to_nat (u32 (Z.of_nat window_size))) mem).

(** [RollingHasher::HashByte]. *)
Definition rh_HashByte (h : RollingHasher) (b : byte) : RollingHasher :=
  let byte_hashed := S (byte_hashed_ h) in
  let buz := buz_HashByte (buz_ h) b in
  let crossed :=
    bool_decide (window_size_ h <= byte_hashed)%nat &&
    (crossed_boundary_ h
     || (Z.land (buz_Sum32 buz) (chunk_pattern_ h) =? chunk_pattern_ h)
     || bool_decide (byte_hashed = max_size_ h)) in
  mkRH (chunk_pattern_ h) (window_size_ h) (max_size_ h) byte_hashed crossed buz.

(** [RollingHasher::HashBytes]. *)
Fixpoint rh_HashBytes (h : RollingHasher) (data : bytes) : RollingHasher :=
  match data with
  | [] => h
  | b :: data' => rh_HashBytes (rh_HashByte h b) data'
  end.

(** [RollingHasher::TryHashBytes]: the loop, with its counter [i]; the result
    is the position of the byte that crossed a boundary, or the length. *)
Fixpoint rh_TryHashBytes_from (h : RollingHasher) (i : nat) (data : bytes) :
  RollingHasher * nat :=
  match data with
  | [] => (h, i)
  | b :: data' =>
      let h' := rh_HashByte h b in
      if crossed_boundary_ h' then (h', i)
      else rh_TryHashBytes_from h' (S i) data'
  end.

Definition rh_TryHashBytes (h : RollingHasher) (data : bytes) : RollingHasher * nat :=
  rh_TryHashBytes_from h 0 data.

(** [RollingHasher::ClearLastBoundary]: note that [buz_] keeps its state. *)
Definition rh_ClearLastBoundary (h : RollingHasher) : RollingHasher :=
  mkRH (chunk_pattern_ h) (window_size_ h) (max_size_ h) 0 false (buz_ h).

(** [RollingHasher::ResetBoundary]. *)
Definition rh_ResetBoundary (h : RollingHasher) : RollingHasher :=
  mkRH (chunk_pattern_ h) (window_size_ h) (max_size_ h) (byte_hashed_ h) false (buz_ h).

Definition rh_CrossedBoundary (h : RollingHasher) : bool := crossed_boundary_ h.

(** ** Rotations

    [rotl k x] is what [(x << k) | (x >> (32 - k))] computes. *)
Definition rotl (k x : Z) : Z := Z.lor (shl32 x k) (shr32 x (32 - k)).

Definition is_u32 (x : Z) : Prop := 0 <= x < 2 ^ 32.

Lemma is_u32_bits x i : is_u32 x -> 32 <= i -> Z.testbit x i = false.
Proof.
  intros [H1 H2] Hi. rewrite <- (Z.mod_small x (2 ^ 32)) by lia.
  apply Z.mod_pow2_bits_high. lia.
Qed.

Lemma is_u32_of_bits x :
  0 <= x -> (forall i, 32 <= i -> Z.testbit x i = false) -> is_u32 x.
Proof.
  intros Hx Hb. split; [done|].
  destruct (Z.eq_dec x 0) as [->|Hx0]; [lia|].
  apply Z.log2_lt_pow2; [lia|].
  destruct (Z.lt_ge_cases (Z.log2 x) 32) as [|Hl]; [done|].
  specialize (Hb _ Hl). rewrite Z.bit_log2 in Hb by lia. done.
Qed.

Lemma is_u32_lxor x y : is_u32 x -> is_u32 y -> is_u32 (Z.lxor x y).
Proof.
  intros Hx Hy. apply is_u32_of_bits.
  - apply Z.lxor_nonneg. unfold is_u32 in *. lia.
  - intros i Hi. by rewrite Z.lxor_spec, !is_u32_bits.
Qed.

Lemma rotl_testbit k x i :
  is_u32 x -> 0 <= i ->
  Z.testbit (rotl k x) i = (i <? 32) && Z.testbit x ((i - k) mod 32).
Proof.
  intros Hx Hi. unfold rotl, shl32, shr32, wrap.
  pose proof (Z.mod_pos_bound k 32 ltac:(lia)) as Hk.
  assert (Hm : (32 - k) mod 32 = if k mod 32 =? 0 then 0 else 32 - k mod 32).
  { destruct (Z.eqb_spec (k mod 32) 0) as [E|E].
    - rewrite Zminus_mod, E. reflexivity.
    - rewrite Zminus_mod. change (32 mod 32) with 0.
      rewrite <- (Z_mod_plus_full (0 - k mod 32) 1 32).
      rewrite Z.mod_small by lia. lia. }
  assert (Hik : (i - k) mod 32 = (i - k mod 32) mod 32).
  { by rewrite Zminus_mod_idemp_r. }
  rewrite Z.lor_spec, Hm, Hik.
  generalize dependent (k mod 32). intros j Hj _ _.
  rewrite Z.shiftr_spec by lia.
  destruct (Z.ltb_spec i 32) as [H32|H32]; simpl.
  - rewrite Z.mod_pow2_bits_low, Z.shiftl_spec by lia.
    destruct (Z.le_gt_cases j i).
    + rewrite (Z.mod_small (i - j)) by lia.
      destruct (Z.eqb_spec j 0) as [->|].
      * rewrite Z.add_0_r, Z.sub_0_r. apply orb_diag.
      * rewrite (is_u32_bits x (i + (32 - j))) by (done || lia).
        apply orb_false_r.
    + rewrite (Z.testbit_neg_r _ (i - j)) by lia. simpl.
      destruct (Z.eqb_spec j 0); [lia|].
      rewrite <- (Z_mod_plus_full (i - j) 1 32).
      rewrite Z.mod_small by lia. f_equal. lia.
  - rewrite Z.mod_pow2_bits_high by lia. simpl.
    destruct (Z.eqb_spec j 0); apply is_u32_bits; done || lia.
Qed.

Lemma rotl_is_u32 k x : is_u32 x -> is_u32 (rotl k x).
Proof.
  intros Hx. apply is_u32_of_bits.
  - unfold rotl, shl32, shr32. apply Z.lor_nonneg. split.
    + apply wrap_range. lia.
    + apply Z.shiftr_nonneg. unfold is_u32 in *. lia.
  - intros i Hi. rewrite rotl_testbit by (done || lia).
    destruct (Z.ltb_spec i 32); [lia|done].
Qed.

Lemma rotl_lxor k x y :
  is_u32 x -> is_u32 y -> rotl k (Z.lxor x y) = Z.lxor (rotl k x) (rotl k y).
Proof.
  intros Hx Hy. apply Z.bits_inj'. intros i Hi.
  rewrite Z.lxor_spec, !rotl_testbit by auto using is_u32_lxor.
  rewrite Z.lxor_spec. by destruct (i <? 32).
Qed.

Lemma rotl_rotl j k x : is_u32 x -> rotl j (rotl k x) = rotl (j + k) x.
Proof.
  intros Hx. apply Z.bits_inj'. intros i Hi.
  rewrite !rotl_testbit by (auto using rotl_is_u32; apply Z.mod_pos_bound; lia).
  pose proof (Z.mod_pos_bound (i - j) 32 ltac:(lia)).
  destruct (Z.ltb_spec i 32); simpl; [|done].
  destruct (Z.ltb_spec ((i - j) mod 32) 32); [simpl|lia].
  f_equal. rewrite Zminus_mod_idemp_l. f_equal. lia.
Qed.

Lemma rotl_mod k x : rotl (k mod 32) x = rotl k x.
Proof.
  unfold rotl, shl32, shr32. rewrite Z.mod_mod by lia.
  by rewrite Zminus_mod_idemp_r.
Qed.

Lemma rotl_0 x : is_u32 x -> rotl 0 x = x.
Proof.
  intros Hx. apply Z.bits_inj'. intros i Hi.
  rewrite rotl_testbit by done. rewrite Z.sub_0_r.
  destruct (Z.ltb_spec i 32); simpl.
  - by rewrite Z.mod_small by lia.
  - symmetry. by apply is_u32_bits.
Qed.

Lemma rotl_zero k : rotl k 0 = 0.
Proof. unfold rotl, shl32, shr32. by rewrite Z.shiftl_0_l, Z.shiftr_0_l. Qed.

Lemma bytehash_u32 : Forall (fun z => is_u32 z) bytehash.
Proof.
  apply List.Forall_forall. intros z Hz.
  assert (H : forallb (fun z => (0 <=? z) && (z <? 2 ^ 32)) bytehash = true)
    by (vm_compute; reflexivity).
  rewrite forallb_forall in H. specialize (H z Hz). unfold is_u32. lia.
Qed.

Lemma bytehash_at_u32 b : is_u32 (bytehash_at b).
Proof.
  unfold bytehash_at.
  pose proof bytehash_u32 as H. rewrite List.Forall_forall in H.
  apply H, nth_In. change (length bytehash) with 256%nat.
  pose proof (b2z_range b). lia.
Qed.

#[export] Hint Resolve is_u32_lxor rotl_is_u32 bytehash_at_u32 : ustore.

(** ** Reference definition of the window hash

    The hash of a window (oldest byte first): every byte's table entry,
    rotated once for each byte that follows it, combined by exclusive or. *)
Fixpoint window_hash (w : bytes) : Z :=
  match w with
  | [] => 0
  | b :: w' => Z.lxor (rotl (Z.of_nat (length w')) (bytehash_at b)) (window_hash w')
  end.

(** The last [n] elements of a list. *)
Definition lastn {A} (n : nat) (l : list A) : list A := drop (length l - n) l.

Lemma length_lastn {A} n (l : list A) : length (lastn n l) = Nat.min n (length l).
Proof. unfold lastn. rewrite length_drop. lia. Qed.

Lemma lastn_all {A} n (l : list A) : (length l <= n)%nat -> lastn n l = l.
Proof. intros. unfold lastn. by replace (length l - n)%nat with 0%nat by lia. Qed.

Lemma lastn_app_ge {A} n (l1 l2 : list A) :
  (n <= length l2)%nat -> lastn n (l1 ++ l2) = lastn n l2.
Proof.
  intros. unfold lastn. rewrite length_app.
  rewrite drop_app_ge by lia. f_equal. lia.
Qed.

Lemma lastn_lastn_app {A} n (l1 l2 : list A) :
  lastn n (lastn n l1 ++ l2) = lastn n (l1 ++ l2).
Proof.
  destruct (decide (length l1 <= n)%nat) as [Hl|Hl].
  - by rewrite (lastn_all n l1).
  - rewrite <- (take_drop (length l1 - n) l1) at 2. fold (lastn n l1).
    rewrite <- app_assoc, (lastn_app_ge _ (take _ _)); [done|].
    rewrite length_app, length_lastn. lia.
Qed.

#[export] Hint Rewrite @length_lastn : ubytes.

Lemma window_hash_u32 w : is_u32 (window_hash w).
Proof.
  induction w; cbn [window_hash]; eauto with ustore. unfold is_u32. lia.
Qed.

#[export] Hint Resolve window_hash_u32 : ustore.

Lemma window_hash_snoc w b :
  window_hash (w ++ [b]) = Z.lxor (rotl 1 (window_hash w)) (bytehash_at b).
Proof.
  induction w as [|c w IH]; cbn [window_hash app length].
  - rewrite rotl_zero, Z.lxor_0_l, Z.lxor_0_r. apply rotl_0. auto with ustore.
  - rewrite IH, rotl_lxor, rotl_rotl by auto with ustore.
    rewrite Z.lxor_assoc. f_equal. f_equal. rewrite length_app. simpl. lia.
Qed.

(** Sliding a full window: the oldest byte leaves, the new one enters. *)
Lemma window_hash_slide a w b :
  window_hash (w ++ [b]) =
  Z.lxor (Z.lxor (rotl 1 (window_hash (a :: w)))
                 (rotl (Z.of_nat (S (length w))) (bytehash_at a)))
         (bytehash_at b).
Proof.
  rewrite window_hash_snoc. f_equal. cbn [window_hash].
  rewrite rotl_lxor, rotl_rotl by auto with ustore.
  replace (1 + Z.of_nat (length w)) with (Z.of_nat (S (length w))) by lia.
  rewrite (Z.lxor_comm (rotl _ (bytehash_at a))), Z.lxor_assoc.
  by rewrite Z.lxor_nilpotent, Z.lxor_0_r.
Qed.

(** ** The ring buffer invariant

    [buz_rep h w]: [h] is a hasher whose current window is [w]. *)
Definition ring_window (h : BuzHash) : bytes :=
  if overflow_ h then drop (bufpos_ h) (buf_ h) ++ take (bufpos_ h) (buf_ h)
  else take (bufpos_ h) (buf_ h).

Record buz_rep (h : BuzHash) (w : bytes) : Prop := {
  br_n : (0 < n_ h)%nat;
  br_shn : bshiftn_ h = Z.of_nat (n_ h) mod 32;
  br_shm : bshiftm_ h = 32 - bshiftn_ h;
  br_buf : length (buf_ h) = n_ h;
  br_pos : (bufpos_ h <= n_ h)%nat;
  br_win : w = ring_window h;
  br_state : state_ h = window_hash w
}.

Lemma buz_rep_new n mem :
  (0 < n)%nat -> length mem = n -> buz_rep (buz_new n mem) [].
Proof.
  intros. constructor; simpl; try done. lia.
Qed.

Lemma buz_rep_length h w :
  buz_rep h w ->
  length w = if overflow_ h then n_ h else bufpos_ h.
Proof.
  intros [? ? ? Hb Hp -> ?]. unfold ring_window.
  destruct (overflow_ h); blen.
Qed.

Lemma buz_out_shift h a :
  bshiftn_ h = Z.of_nat (n_ h) mod 32 -> bshiftm_ h = 32 - bshiftn_ h ->
  Z.lor (shl32 a (bshiftn_ h)) (shr32 a (bshiftm_ h)) = rotl (Z.of_nat (n_ h)) a.
Proof. intros -> ->. fold (rotl (Z.of_nat (n_ h) mod 32) a). apply rotl_mod. Qed.

(** The two places at which [HashByte] writes: filling the buffer, and
    overwriting the oldest byte of a full one. *)
Lemma ring_fill (buf : bytes) pos b :
  (pos < length buf)%nat -> take (S pos) (<[pos:=b]> buf) = take pos buf ++ [b].
Proof.
  intros H. rewrite (take_S_r _ _ b) by (by apply list_lookup_insert_eq).
  by rewrite take_insert_ge.
Qed.

Lemma ring_slide (buf : bytes) pos b a :
  buf !! pos = Some a ->
  drop pos buf ++ take pos buf = a :: drop (S pos) buf ++ take pos buf /\
  drop (S pos) (<[pos:=b]> buf) ++ take (S pos) (<[pos:=b]> buf)
  = (drop (S pos) buf ++ take pos buf) ++ [b].
Proof.
  intros H. pose proof (lookup_lt_Some _ _ _ H). split.
  - by rewrite (drop_S _ _ _ H).
  - rewrite ring_fill by done. rewrite drop_insert_lt by lia. by rewrite app_assoc.
Qed.

Lemma buz_rep_HashByte h w b :
  buz_rep h w -> buz_rep (buz_HashByte h b) (lastn (n_ h) (w ++ [b])).
Proof.
  intros Hr. pose proof (buz_rep_length _ _ Hr) as Hlen.
  destruct Hr as [Hn Hsn Hsm Hb Hp Hw Hs].
  unfold buz_HashByte.
  set (wrapped := bool_decide (bufpos_ h = n_ h)).
  set (pos := if wrapped then 0%nat else bufpos_ h).
  assert (Hpos : (pos < n_ h)%nat).
  { subst pos wrapped. case_bool_decide; lia. }
  destruct (lookup_lt_is_Some_2 (buf_ h) pos) as [a Ha]; [lia|].
  rewrite Ha. cbn [default]. rewrite buz_out_shift by done.
  destruct (ring_slide _ _ b _ Ha) as [Hold Hnew].
  fold (rotl 1 (state_ h)). rewrite Hs.
  destruct (wrapped || overflow_ h) eqn:Ho.
  - (* the window was full: its oldest byte is at [pos] *)
    assert (Hwin : w = a :: drop (S pos) (buf_ h) ++ take pos (buf_ h)).
    { rewrite Hw. unfold ring_window. subst pos wrapped.
      case_bool_decide as E.
      - rewrite <- Hold. transitivity (buf_ h).
        + destruct (overflow_ h); rewrite E, ?drop_ge, take_ge by lia; done.
        + by rewrite take_0, app_nil_r.
      - simpl in Ho. by rewrite Ho. }
    assert (Hl : lastn (n_ h) (w ++ [b]) = (drop (S pos) (buf_ h) ++ take pos (buf_ h)) ++ [b]).
    { rewrite Hwin. change (a :: ?l) with ([a] ++ l). rewrite <- app_assoc.
      rewrite lastn_app_ge by blen.
      apply lastn_all. blen. }
    constructor; simpl; try done.
    + by rewrite length_insert.
    + rewrite Hl. unfold ring_window. simpl. done.
    + rewrite Hl, (window_hash_slide a), Hwin. f_equal. f_equal. f_equal. blen.
  - (* the buffer is not full yet *)
    apply orb_false_iff in Ho as [Hwr Hov]. rewrite Hov in Hlen.
    subst pos. rewrite Hwr in *.
    assert (Hl : lastn (n_ h) (w ++ [b]) = w ++ [b]).
    { apply lastn_all. blen. }
    rewrite Hl. constructor; simpl; try done.
    + by rewrite length_insert.
    + unfold ring_window. simpl. rewrite ring_fill by lia.
      by rewrite Hw; unfold ring_window; rewrite Hov.
    + by rewrite window_hash_snoc.
Qed.

Fixpoint buz_HashBytes (h : BuzHash) (data : bytes) : BuzHash :=
  match data with
  | [] => h
  | b :: data' => buz_HashBytes (buz_HashByte h b) data'
  end.

Lemma buz_n_HashByte h b : n_ (buz_HashByte h b) = n_ h.
Proof. done. Qed.

Lemma buz_rep_HashBytes h w data :
  buz_rep h w -> buz_rep (buz_HashBytes h data) (lastn (n_ h) (w ++ data)).
Proof.
  revert h w. induction data as [|b data IH]; intros h w Hr; simpl.
  - rewrite app_nil_r. pose proof (buz_rep_length _ _ Hr).
    rewrite lastn_all; [done|]. destruct Hr. destruct (overflow_ h); lia.
  - apply (buz_rep_HashByte _ _ b) in Hr. apply IH in Hr.
    rewrite buz_n_HashByte, lastn_lastn_app, <- app_assoc in Hr. done.
Qed.

(** ** Boundaries as a function of the bytes since the last boundary *)

(** The rolling hash parameters that a [Chunker] holds
    ([Chunker::SetRHasherParams]). *)
Record ChunkerParams := mkParams {
  cp_pattern : Z;
  cp_window : nat;
  cp_max : nat
}.

(** The defaults of [include/chunk/chunker.h]. *)
Definition default_params : ChunkerParams := mkParams (2 ^ 12 - 1) 256 (2 ^ 15).

(** [Chunker::GetRHasher]. *)
Definition GetRHasher (p : ChunkerParams) (mem : bytes) : RollingHasher :=
  rh_new (cp_pattern p) (cp_window p) (cp_max p) mem.

Definition params_ok (p : ChunkerParams) : Prop :=
  (0 < cp_window p)%nat /\ Z.of_nat (cp_window p) < 2 ^ 32.

(** [hits p l]: hashing the last byte of [l], after the bytes before it,
    crosses a boundary. *)
Definition hits (p : ChunkerParams) (l : bytes) : bool :=
  bool_decide (cp_window p <= length l)%nat &&
  ((Z.land (window_hash (lastn (cp_window p) l)) (cp_pattern p) =? cp_pattern p)
   || bool_decide (length l = cp_max p)).

(** Position in [d] of the first byte that crosses a boundary, when the bytes
    [since] were hashed since the last one. *)
Fixpoint find_boundary (p : ChunkerParams) (since d : bytes) : option nat :=
  match d with
  | [] => None
  | b :: d' =>
      if hits p (since ++ [b]) then Some 0%nat
      else S <$> find_boundary p (since ++ [b]) d'
  end.

Record rh_ok (p : ChunkerParams) (h : RollingHasher) : Prop := {
  ro_pattern : chunk_pattern_ h = cp_pattern p;
  ro_window : window_size_ h = cp_window p;
  ro_max : max_size_ h = cp_max p;
  ro_n : n_ (buz_ h) = cp_window p
}.

(** [rh_rep p h since]: [h] has hashed [since] after the last boundary, with
    whatever history before it, and has not crossed a new boundary. *)
Record rh_rep (p : ChunkerParams) (h : RollingHasher) (since : bytes) : Prop := {
  rr_ok : rh_ok p h;
  rr_count : byte_hashed_ h = length since;
  rr_crossed : crossed_boundary_ h = false;
  rr_buz : exists hist, buz_rep (buz_ h) (lastn (cp_window p) (hist ++ since))
}.

Lemma rh_rep_new p mem :
  params_ok p -> length mem = cp_window p -> rh_rep p (GetRHasher p mem) [].
Proof.
  intros [Hw Hs] Hm. unfold GetRHasher, rh_new.
  rewrite (wrap_small 32) by lia. rewrite Nat2Z.id.
  constructor; simpl; try done.
  exists []. simpl. rewrite lastn_all by (simpl; lia). by apply buz_rep_new.
Qed.

Lemma rh_rep_step p h since b :
  rh_rep p h since ->
  let h' := rh_HashByte h b in
  crossed_boundary_ h' = hits p (since ++ [b]) /\
  (crossed_boundary_ h' = false -> rh_rep p h' (since ++ [b])) /\
  rh_rep p (rh_ClearLastBoundary h') [].
Proof.
  intros [[Hp Hw Hm Hn] Hc Hx [hist Hb]] h'.
  assert (Hb' : buz_rep (buz_HashByte (buz_ h) b)
                        (lastn (cp_window p) (hist ++ (since ++ [b])))).
  { apply (buz_rep_HashByte _ _ b) in Hb.
    rewrite Hn, lastn_lastn_app in Hb. by rewrite <- app_assoc in Hb. }
  assert (Hcross : crossed_boundary_ h' = hits p (since ++ [b])).
  { subst h'. unfold rh_HashByte, hits, buz_Sum32. cbn [crossed_boundary_].
    rewrite Hx, Hw, Hp, Hm, Hc, length_app, (br_state _ _ Hb'). cbn [length].
    rewrite Nat.add_1_r.
    destruct (bool_decide (cp_window p <= S (length since))%nat) eqn:E; [|done].
    apply bool_decide_eq_true in E. rewrite lastn_app_ge by blen. done. }
  split; [done|]. split.
  - intros Hf. constructor; simpl; try done.
    + rewrite Hc. blen.
    + eauto.
  - constructor; simpl; try done.
    exists (lastn (cp_window p) (hist ++ (since ++ [b]))).
    rewrite app_nil_r, (lastn_all _ (lastn _ _)); [done|]. rewrite length_lastn. lia.
Qed.

(** What [TryHashBytes] does, in terms of [find_boundary]. *)
Lemma rh_TryHashBytes_from_spec p h since d i :
  rh_rep p h since ->
  match find_boundary p since d with
  | Some k =>
      exists h', rh_TryHashBytes_from h i d = (h', (i + k)%nat) /\
        crossed_boundary_ h' = true /\ rh_rep p (rh_ClearLastBoundary h') []
  | None =>
      exists h', rh_TryHashBytes_from h i d = (h', (i + length d)%nat) /\
        rh_rep p h' (since ++ d)
  end.
Proof.
  revert h since i. induction d as [|b d IH]; intros h since i Hr;
    cbn [find_boundary rh_TryHashBytes_from].
  - cbn [length]. rewrite Nat.add_0_r, app_nil_r. eauto.
  - destruct (rh_rep_step _ _ _ b Hr) as (Hx & Hf & Ht). rewrite Hx in *.
    destruct (hits p (since ++ [b])) eqn:Hh.
    + eexists. rewrite Nat.add_0_r. eauto.
    + specialize (IH _ _ (S i) (Hf eq_refl)).
      destruct (find_boundary p (since ++ [b]) d) as [k|]; simpl in *.
      * destruct IH as (h' & E & ?). exists h'. split; [|done]. rewrite E. f_equal. lia.
      * destruct IH as (h' & E & ?). exists h'. rewrite <- app_assoc in *. split; [|done].
        rewrite E. f_equal. lia.
Qed.

Lemma rh_TryHashBytes_spec p h since d :
  rh_rep p h since ->
  match find_boundary p since d with
  | Some k =>
      exists h', rh_TryHashBytes h d = (h', k) /\
        crossed_boundary_ h' = true /\ rh_rep p (rh_ClearLastBoundary h') []
  | None =>
      exists h', rh_TryHashBytes h d = (h', length d) /\ rh_rep p h' (since ++ d)
  end.
Proof. intros Hr. by apply (rh_TryHashBytes_from_spec p h since d 0) in Hr. Qed.

Lemma find_boundary_Some p since d k :
  find_boundary p since d = Some k ->
  (k < length d)%nat /\ hits p (since ++ take (S k) d) = true /\
  forall j, (j < k)%nat -> hits p (since ++ take (S j) d) = false.
Proof.
  revert since k. induction d as [|b d IH]; intros since k; simpl; [done|].
  destruct (hits p (since ++ [b])) eqn:Hh.
  - intros [= <-]. split_and!; [lia|done|lia].
  - intros (k' & (Hlt & Hk & Hj)%IH & ->)%fmap_Some.
    rewrite <- app_assoc in Hk. split_and!; [lia|done|].
    intros [|j] Hlt'; [done|]. specialize (Hj j ltac:(lia)).
    by rewrite <- app_assoc in Hj.
Qed.

Lemma find_boundary_None p since d :
  find_boundary p since d = None ->
  forall j, (j < length d)%nat -> hits p (since ++ take (S j) d) = false.
Proof.
  revert since. induction d as [|b d IH]; intros since; simpl; [lia|].
  destruct (hits p (since ++ [b])) eqn:Hh; [done|].
  intros Hn%fmap_None. intros [|j] Hlt; [done|].
  specialize (IH _ Hn j ltac:(lia)). by rewrite <- app_assoc in IH.
Qed.

Lemma find_boundary_app p since d1 d2 :
  find_boundary p since (d1 ++ d2) =
  match find_boundary p since d1 with
  | Some k => Some k
  | None => Nat.add (length d1) <$> find_boundary p (since ++ d1) d2
  end.
Proof.
  revert since. induction d1 as [|b d1 IH]; intros since; simpl.
  - rewrite app_nil_r. by destruct (find_boundary p since d2).
  - destruct (hits p (since ++ [b])); [done|].
    rewrite IH, <- app_assoc. simpl.
    destruct (find_boundary p (since ++ [b]) d1); [done|]. simpl.
    by destruct (find_boundary p (since ++ b :: d1) d2).
Qed.

Lemma hits_min p l : hits p l = true -> (cp_window p <= length l)%nat.
Proof. unfold hits. intros H. tobool. done. Qed.

Lemma hits_max p l :
  (cp_window p <= cp_max p)%nat -> length l = cp_max p -> hits p l = true.
Proof.
  intros Hw Hl. unfold hits. rewrite bool_decide_true by lia.
  rewrite (bool_decide_true (length l = _)) by done. by rewrite orb_true_r.
Qed.

(** A boundary is found at the latest when [max_size] bytes were hashed. *)
Lemma find_boundary_max p since d :
  (cp_window p <= cp_max p)%nat ->
  (length since < cp_max p)%nat -> (cp_max p <= length since + length d)%nat ->
  exists k, find_boundary p since d = Some k /\ (length since + S k <= cp_max p)%nat.
Proof.
  intros Hw Hs Hd.
  destruct (find_boundary p since d) as [k|] eqn:E.
  - exists k. split; [done|]. apply find_boundary_Some in E as (Hk & _ & Hj).
    destruct (decide (length since + S k <= cp_max p)%nat) as [|Hgt]; [done|].
    specialize (Hj (cp_max p - length since - 1)%nat ltac:(lia)).
    rewrite hits_max in Hj; [done|done|]. rewrite length_app, length_take. lia.
  - pose proof (find_boundary_None _ _ _ E (cp_max p - length since - 1)%nat ltac:(lia)) as Hj.
    rewrite hits_max in Hj; [done|done|]. rewrite length_app, length_take. lia.
Qed.

(** A hasher with the chunker's parameters and any history. *)
Definition rh_live (p : ChunkerParams) (h : RollingHasher) : Prop :=
  rh_ok p h /\ exists w, buz_rep (buz_ h) w.

Lemma rh_live_new p mem :
  params_ok p -> length mem = cp_window p -> rh_live p (GetRHasher p mem).
Proof.
  intros Hp Hm. destruct (rh_rep_new _ _ Hp Hm) as [? ? ? [? ?]]. split; eauto.
Qed.

Lemma rh_live_HashBytes p h d : rh_live p h -> rh_live p (rh_HashBytes h d).
Proof.
  revert h. induction d as [|b d IH]; intros h Hl; [done|].
  cbn [rh_HashBytes]. apply IH. destruct Hl as [[? ? ? ?] [w Hw]].
  split; [by constructor|]. cbn [buz_ rh_HashByte]. eauto using buz_rep_HashByte.
Qed.

Lemma rh_live_clear p h : rh_live p h -> rh_rep p (rh_ClearLastBoundary h) [].
Proof.
  intros [[? ? ? Hn] [w Hw]]. constructor; simpl; try done.
  exists w. rewrite app_nil_r, lastn_all; [done|].
  pose proof (buz_rep_length _ _ Hw). destruct Hw. destruct (overflow_ (buz_ h)); lia.
Qed.

(** ** Properties *)

(** C32.  [BuzHash] is a correct rolling hash: whatever bytes were hashed and
    whatever garbage the ring buffer was allocated with, the state is the
    reference hash of the last [n] bytes (all of them while fewer than [n]
    were hashed). *)
Theorem buz_is_window_hash n mem data :
  (0 < n)%nat -> length mem = n ->
  buz_Sum32 (buz_HashBytes (buz_new n mem) data) = window_hash (lastn n data).
Proof.
  intros Hn Hm. pose proof (buz_rep_HashBytes _ _ data (buz_rep_new n mem Hn Hm)) as H.
  apply br_state in H. exact H.
Qed.

Lemma buz_is_window_hash_witness :
  buz_Sum32 (buz_HashBytes (buz_new 3 [x05; x06; x07]) [x01; x02; x03; x04])
  = window_hash [x02; x03; x04].
Proof.
  apply (buz_is_window_hash 3 [x05; x06; x07] [x01; x02; x03; x04]);
    [lia | reflexivity].
Defined.

(** C31.  History independence of boundaries: after [ClearLastBoundary], which
    does not reset the ring buffer, the result of [TryHashBytes] is a function
    of the bytes hashed alone, the same for every earlier history and for a
    fresh hasher; so a chunk's end depends only on the chunk's content. *)
Theorem TryHashBytes_history_independent p mem hist d :
  params_ok p -> length mem = cp_window p ->
  let h := rh_ClearLastBoundary (rh_HashBytes (GetRHasher p mem) hist) in
  snd (rh_TryHashBytes h d) = default (length d) (find_boundary p [] d) /\
  rh_CrossedBoundary (fst (rh_TryHashBytes h d)) = bool_decide (is_Some (find_boundary p [] d)).
Proof.
  intros Hp Hm h.
  assert (Hr : rh_rep p h []).
  { apply rh_live_clear, rh_live_HashBytes, rh_live_new; done. }
  pose proof (rh_TryHashBytes_spec _ _ _ d Hr) as H. unfold rh_CrossedBoundary.
  destruct (find_boundary p [] d) as [k|].
  - destruct H as (h' & -> & Hx & _). cbn [fst snd]. rewrite Hx. by rewrite bool_decide_true by eauto.
  - destruct H as (h' & -> & [_ _ Hx _]). cbn [fst snd]. rewrite Hx.
    by rewrite bool_decide_false by (intros [? ?]; done).
Qed.

Definition small_params : ChunkerParams := mkParams 1 2 5.

Lemma TryHashBytes_history_independent_witness :
  let h := rh_ClearLastBoundary
             (rh_HashBytes (GetRHasher small_params [x00; x00]) [x09; x08; x07]) in
  let d := [x01; x02; x03; x04] in
  snd (rh_TryHashBytes h d) = default (length d) (find_boundary small_params [] d) /\
  rh_CrossedBoundary (fst (rh_TryHashBytes h d))
  = bool_decide (is_Some (find_boundary small_params [] d)).
Proof.
  apply (TryHashBytes_history_independent small_params [x00; x00] [x09; x08; x07]);
    [split; simpl; lia | reflexivity].
Defined.

(** Chunk size bounds: from a cleared hasher, a boundary is reported no
    earlier than the window size and no later than the maximum chunk size, and
    if none is reported the data is shorter than the maximum chunk size. *)
Theorem TryHashBytes_chunk_size p mem hist d :
  params_ok p -> length mem = cp_window p -> (cp_window p <= cp_max p)%nat ->
  let r := rh_TryHashBytes (rh_ClearLastBoundary (rh_HashBytes (GetRHasher p mem) hist)) d in
  if rh_CrossedBoundary (fst r)
  then (cp_window p <= S (snd r) <= cp_max p)%nat /\ (snd r < length d)%nat
  else snd r = length d /\ (length d < cp_max p)%nat.
Proof.
  intros Hp Hm Hwm r. subst r.
  assert (Hr : rh_rep p (rh_ClearLastBoundary (rh_HashBytes (GetRHasher p mem) hist)) []).
  { apply rh_live_clear, rh_live_HashBytes, rh_live_new; done. }
  pose proof (rh_TryHashBytes_spec _ _ _ d Hr) as H. unfold rh_CrossedBoundary.
  pose proof (proj1 Hp).
  destruct (find_boundary p [] d) as [k|] eqn:E.
  - destruct H as (h' & -> & Hx & _). cbn [fst snd]. rewrite Hx.
    pose proof E as (Hk & Hh & _)%find_boundary_Some. apply hits_min in Hh.
    rewrite app_nil_l, length_take in Hh.
    destruct (decide (cp_max p <= length d)%nat) as [Hd|].
    + destruct (find_boundary_max p [] d) as (k' & Hk' & Hle); simpl; try lia.
      rewrite E in Hk'. injection Hk' as <-. simpl in Hle. lia.
    + lia.
  - destruct H as (h' & -> & [_ _ Hx _]). cbn [fst snd]. rewrite Hx. split; [done|].
    destruct (decide (cp_max p <= length d)%nat) as [Hd|]; [|lia].
    destruct (find_boundary_max p [] d) as (k' & Hk' & _); simpl; try lia. congruence.
Qed.

Lemma TryHashBytes_chunk_size_witness :
  let r := rh_TryHashBytes
             (rh_ClearLastBoundary (rh_HashBytes (GetRHasher small_params [x00; x00]) []))
             [x01; x02; x03; x04; x05; x06] in
  if rh_CrossedBoundary (fst r)
  then (2 <= S (snd r) <= 5)%nat /\ (snd r < 6)%nat
  else snd r = 6%nat /\ (6 < 5)%nat.
Proof.
  apply (TryHashBytes_chunk_size small_params [x00; x00] [] [x01; x02; x03; x04; x05; x06]);
    [split; simpl; lia | reflexivity | simpl; lia].
Defined.

(** With the default chunker parameters [BuzHash] shifts a [uint32_t] by
    32, which C++ leaves undefined; the two results a target gives for that
    shift (count modulo 32, or all bits shifted out) lead to the same value of
    the expression in which it occurs. *)
Theorem buz_default_shift_by_32 mem :
  bshiftm_ (buz_ (GetRHasher default_params mem)) = 32 /\
  bshiftn_ (buz_ (GetRHasher default_params mem)) = 0 /\
  forall b, let t := bytehash_at b in
    Z.lor (shl32 t 0) (shr32 t 32) = t /\ Z.lor (shl32 t 0) (shr32_alt t 32) = t.
Proof.
  split; [reflexivity|]. split; [reflexivity|]. intros b t.
  assert (Ht : is_u32 t) by apply bytehash_at_u32. split.
  - apply (rotl_0 t Ht).
  - unfold shl32, shr32_alt. rewrite Z.shiftl_0_r, (wrap_small 32) by exact Ht.
    apply Z.bits_inj'. intros i Hi. rewrite Z.lor_spec, Z.shiftr_spec by lia.
    rewrite (is_u32_bits t (i + 32)) by (done || lia). apply orb_false_r.
Qed.
