(* ===== verification/Slice.v ===== *)
(** * Slices and ordered keys: [include/spec/slice.h],
      [include/node/orderedkey.h], [src/node/orderedkey.cc]

    A [Slice] is a pointer and a length; the model is the byte string it
    denotes.  [OrderedKey] is the key by which map and set entries, and the
    entries of inner nodes, are ordered.  The theorems show that both orders
    are strict total orders, which the sortedness checks of the nodes and the
    key search rely on. *)

From S2P Require Import Prelude.

(** ** Strict total orders as boolean functions: what the node code requires
    of the order of its keys. *)
Class StrictTotal {A} (ltb : A -> A -> bool) : Prop := {
  st_irrefl : forall a, ltb a a = false;
  st_trans : forall a b c, ltb a b = true -> ltb b c = true -> ltb a c = true;
  st_total : forall a b, ltb a b = false -> ltb b a = false -> a = b
}.

Lemma st_asym {A} ltb `{!StrictTotal ltb} (a b : A) : ltb a b = true -> ltb b a = false.
Proof.
  intros H. destruct (ltb b a) eqn:E; [|done].
  by rewrite <- (st_irrefl (ltb := ltb) a), (st_trans _ _ _ H E).
Qed.

(** ** [class Slice] *)

Abbreviation Slice := bytes.

Definition len (s : Slice) : nat := length s.

Definition slice_empty (s : Slice) : bool := bool_decide (len s = 0).

(** [std::memcmp(a, b, n)]: the sign of the first difference. *)
Fixpoint memcmp (a b : bytes) (n : nat) : comparison :=
  match n with
  | O => Eq
  | S n' =>
      match a, b with
      | x :: a', y :: b' =>
          match Z.compare (b2z x) (b2z y) with
          | Eq => memcmp a' b' n'
          | c => c
          end
      | _, _ => Eq
      end
  end.

(** [Slice::operator<]. *)
Definition slice_lt (a b : Slice) : bool :=
  let min_len := Nat.min (len a) (len b) in
  match memcmp a b min_len with
  | Lt => true
  | Gt => false
  | Eq => len a <? len b
  end.

(** [Slice::operator>]. *)
Definition slice_gt (a b : Slice) : bool :=
  let min_len := Nat.min (len a) (len b) in
  match memcmp a b min_len with
  | Gt => true
  | Lt => false
  | Eq => len b <? len a
  end.

(** [Slice::operator==]. *)
Definition slice_eq (a b : Slice) : bool :=
  if negb (len a =? len b) then false
  else match memcmp a b (len a) with Eq => true | _ => false end.

(** Reference: the lexicographic order, a proper prefix being smaller. *)
Fixpoint lex (a b : bytes) : comparison :=
  match a, b with
  | [], [] => Eq
  | [], _ :: _ => Lt
  | _ :: _, [] => Gt
  | x :: a', y :: b' =>
      match Z.compare (b2z x) (b2z y) with
      | Eq => lex a' b'
      | c => c
      end
  end.

Lemma slice_lt_lex a b : slice_lt a b = match lex a b with Lt => true | _ => false end.
Proof.
  unfold slice_lt, len. revert b.
  induction a as [|x a IH]; intros [|y b]; simpl; try done.
  destruct (b2z x ?= b2z y)%Z; [|done|done].
  rewrite <- IH. by destruct (memcmp a b _).
Qed.

Lemma slice_gt_lex a b : slice_gt a b = match lex a b with Gt => true | _ => false end.
Proof.
  unfold slice_gt, len. revert b.
  induction a as [|x a IH]; intros [|y b]; simpl; try done.
  destruct (b2z x ?= b2z y)%Z; [|done|done].
  rewrite <- IH. by destruct (memcmp a b _).
Qed.

Lemma lex_refl a : lex a a = Eq.
Proof. induction a; simpl; [done|]. by rewrite Z.compare_refl. Qed.

Lemma lex_eq a b : lex a b = Eq -> a = b.
Proof.
  revert b. induction a as [|x a IH]; intros [|y b]; simpl; try done.
  destruct (Z.compare_spec (b2z x) (b2z y)) as [E| |]; try done.
  intros ->%IH. f_equal. by apply b2z_inj.
Qed.

Lemma lex_antisym a b : lex b a = CompOpp (lex a b).
Proof.
  revert b. induction a as [|x a IH]; intros [|y b]; simpl; try done.
  rewrite (Z.compare_antisym (b2z x) (b2z y)).
  destruct (b2z x ?= b2z y)%Z; simpl; auto.
Qed.

Lemma lex_lt_trans a b c : lex a b = Lt -> lex b c = Lt -> lex a c = Lt.
Proof.
  revert b c. induction a as [|x a IH]; intros [|y b] [|z c]; simpl; try done.
  destruct (Z.compare_spec (b2z x) (b2z y)) as [->|Hxy|]; try done.
  - destruct (b2z y ?= b2z z)%Z; eauto.
  - destruct (Z.compare_spec (b2z y) (b2z z)) as [<-|Hyz|]; intros; try done.
    + by rewrite (proj2 (Z.compare_lt_iff _ _) Hxy).
    + by rewrite (proj2 (Z.compare_lt_iff (b2z x) (b2z z)) ltac:(lia)).
Qed.

Lemma slice_eq_spec a b : slice_eq a b = bool_decide (a = b).
Proof.
  unfold slice_eq, len.
  assert (H : length a = length b -> memcmp a b (length a) = lex a b).
  { revert b. induction a as [|x a IH]; intros [|y b]; simpl; try done.
    intros [= E]. by rewrite IH. }
  destruct (Nat.eqb_spec (length a) (length b)) as [E|E]; simpl.
  - rewrite H by done. destruct (lex a b) eqn:L.
    + apply lex_eq in L as ->. by rewrite bool_decide_true.
    + rewrite bool_decide_false; [done|]. intros ->. by rewrite lex_refl in L.
    + rewrite bool_decide_false; [done|]. intros ->. by rewrite lex_refl in L.
  - rewrite bool_decide_false; [done|]. congruence.
Qed.

Lemma slice_gt_swap a b : slice_gt a b = slice_lt b a.
Proof.
  rewrite slice_gt_lex, slice_lt_lex, (lex_antisym a b). by destruct (lex a b).
Qed.

#[export] Instance slice_lt_total : StrictTotal slice_lt.
Proof.
  split.
  - intros a. by rewrite slice_lt_lex, lex_refl.
  - intros a b c. rewrite !slice_lt_lex.
    destruct (lex a b) eqn:E1; [done| |done]. destruct (lex b c) eqn:E2; [done| |done].
    by rewrite (lex_lt_trans _ _ _ E1 E2).
  - intros a b. rewrite !slice_lt_lex, (lex_antisym a b).
    destruct (lex a b) eqn:E; simpl; try done. intros _ _. by apply lex_eq.
Qed.

(** The order for sorting: not greater. *)
Definition slice_le (a b : Slice) : Prop := slice_lt b a = false.

#[export] Instance slice_le_dec a b : Decision (slice_le a b).
Proof. unfold slice_le. apply _. Defined.

#[export] Instance slice_le_total : Total slice_le.
Proof.
  intros a b. unfold slice_le. destruct (slice_lt b a) eqn:E; [right|by left].
  by apply (st_asym slice_lt).
Qed.

#[export] Instance slice_le_trans : Transitive slice_le.
Proof.
  intros a b c. unfold slice_le. intros H1 H2. destruct (slice_lt c a) eqn:E; [|done].
  destruct (slice_lt b a) eqn:E'; [done|]. destruct (slice_lt a b) eqn:E2.
  - by rewrite <- H2, (st_trans (ltb := slice_lt) _ _ _ E E2).
  - rewrite (st_total _ _ E2 E') in E. congruence.
Qed.

Lemma sorted_strict l :
  NoDup l -> StronglySorted slice_le l -> StronglySorted (fun x y => slice_lt x y = true) l.
Proof.
  intros Hn Hs. induction Hs as [|x l Hs IH Hx]; [constructor|].
  apply NoDup_cons in Hn as [Hni Hn]. constructor; [auto|].
  rewrite Forall_forall in *. intros y Hy. specialize (Hx y Hy). unfold slice_le in Hx.
  destruct (slice_lt x y) eqn:E; [done|]. rewrite (st_total _ _ E Hx) in Hni. done.
Qed.

(** ** [class OrderedKey] *)

Record OrderedKey := mkKey {
  by_value_ : bool;
  value_ : Z;          (* uint64_t *)
  slice_ : Slice
}.

(** [OrderedKey() = default]: [by_value_] and [value_] are indeterminate; the
    parameters stand for what the memory happens to hold. *)
Definition OrderedKey_default (bv : bool) (v : Z) : OrderedKey := mkKey bv v [].

(** [OrderedKey(uint64_t)]. *)
Definition OrderedKey_value (value : Z) : OrderedKey := mkKey true (u64 value) [].

(** [OrderedKey(by_value, data, num_bytes)]; a key by value reads eight bytes
    at [data]; a key that is not by value leaves [value_] indeterminate
    (no operation reads it; the model uses 0). *)
Definition OrderedKey_make (by_value : bool) (data : bytes) (num_bytes : nat) :
  option OrderedKey :=
  s ← read_bytes 0 num_bytes data;
  if by_value then v ← read_u64 0 data; Some (mkKey true v s)
  else Some (mkKey false 0 s).

Definition FromSlice (key : Slice) : OrderedKey := mkKey false 0 key.

(** [OrderedKey::numBytes]. *)
Definition key_numBytes (k : OrderedKey) : nat :=
  if by_value_ k then 8 else len (slice_ k).

(** [OrderedKey::Encode]: the bytes written to the buffer. *)
Definition key_Encode (k : OrderedKey) : bytes :=
  if by_value_ k then le_encode 8 (value_ k) else slice_ k.

(** The comparison operators terminate the process when the kinds differ. *)
Definition key_gt (a b : OrderedKey) : option bool :=
  CHECK (Bool.eqb (by_value_ a) (by_value_ b));;
  Some (if by_value_ a then (value_ b <? value_ a)%Z else slice_gt (slice_ a) (slice_ b)).

Definition key_lt (a b : OrderedKey) : option bool :=
  CHECK (Bool.eqb (by_value_ a) (by_value_ b));;
  Some (if by_value_ a then (value_ a <? value_ b)%Z else slice_lt (slice_ a) (slice_ b)).

Definition key_eq (a b : OrderedKey) : option bool :=
  CHECK (Bool.eqb (by_value_ a) (by_value_ b));;
  Some (if by_value_ a then (value_ a =? value_ b)%Z else slice_eq (slice_ a) (slice_ b)).

Definition key_le (a b : OrderedKey) : option bool :=
  l ← key_lt a b; if l : bool then Some true else key_eq a b.

Definition key_ge (a b : OrderedKey) : option bool :=
  g ← key_gt a b; if g : bool then Some true else key_eq a b.

(** Keys made from slices compare as their slices. *)
Lemma key_lt_slices a b : key_lt (FromSlice a) (FromSlice b) = Some (slice_lt a b).
Proof. done. Qed.

Lemma key_eq_slices a b : key_eq (FromSlice a) (FromSlice b) = Some (bool_decide (a = b)).
Proof. unfold key_eq. simpl. by rewrite slice_eq_spec. Qed.

Lemma key_gt_slices a b : key_gt (FromSlice a) (FromSlice b) = Some (slice_lt b a).
Proof. unfold key_gt. simpl. by rewrite slice_gt_swap. Qed.

Lemma key_le_slices a b : key_le (FromSlice a) (FromSlice b) = Some (negb (slice_lt b a)).
Proof.
  unfold key_le. rewrite key_lt_slices. simpl.
  destruct (slice_lt a b) eqn:E.
  - by rewrite (st_asym slice_lt _ _ E).
  - rewrite key_eq_slices. f_equal. destruct (slice_lt b a) eqn:E'; simpl.
    + apply bool_decide_false. intros ->. by rewrite st_irrefl in E'.
    + apply bool_decide_true. by apply (st_total (ltb := slice_lt)).
Qed.

Lemma OrderedKey_make_slice data n s post :
  data = s ++ post -> length s = n ->
  OrderedKey_make false data n = Some (FromSlice s).
Proof.
  intros -> <-. unfold OrderedKey_make.
  rewrite read_bytes_app_l, read_bytes_all by lia. done.
Qed.

(** A key that fits its representation: an integer key holds a [uint64_t]. *)
Definition key_ok (k : OrderedKey) : Prop :=
  if by_value_ k then (0 <= value_ k < 2 ^ 64)%Z /\ slice_ k = le_encode 8 (value_ k)
  else value_ k = 0%Z.

Lemma length_key_Encode k : length (key_Encode k) = key_numBytes k.
Proof.
  unfold key_Encode, key_numBytes. destruct (by_value_ k); [apply length_le_encode|done].
Qed.

#[export] Hint Rewrite length_key_Encode : ubytes.

(** Decoding what [Encode] wrote gives back a key with the same order
    behaviour: the same kind, the same value and, for slices, the same bytes. *)
Lemma key_decode_encode k post :
  (by_value_ k = true -> (0 <= value_ k < 2 ^ 64)%Z) ->
  exists k', OrderedKey_make (by_value_ k) (key_Encode k ++ post) (key_numBytes k) = Some k' /\
    by_value_ k' = by_value_ k /\ key_Encode k' = key_Encode k /\
    (if by_value_ k then value_ k' = value_ k else slice_ k' = slice_ k).
Proof.
  intros Hv. unfold OrderedKey_make, key_numBytes, key_Encode.
  destruct (by_value_ k) eqn:E.
  - rewrite read_bytes_app_l by blen.
    pose proof (read_bytes_all (le_encode 8 (value_ k))) as R.
    rewrite length_le_encode in R. rewrite R. osimpl.
    rewrite read_u_here. osimpl. eexists. split; [done|].
    rewrite Z.mod_small by (apply Hv; done). done.
  - unfold len. rewrite read_bytes_app_l, read_bytes_all by lia. simpl.
    eexists. split; [done|]. done.
Qed.

(** ** Properties *)

(** The comparison operators of [OrderedKey] on slice keys decide the
    lexicographic strict total order: exactly one of [<], [==], [>] holds, and
    [<] is irreflexive and transitive. *)
Theorem OrderedKey_slice_order a b c :
  let k := FromSlice in
  (key_lt (k a) (k b) = Some true <-> lex a b = Lt) /\
  (key_eq (k a) (k b) = Some true <-> a = b) /\
  (key_gt (k a) (k b) = Some true <-> lex b a = Lt) /\
  key_lt (k a) (k a) = Some false /\
  (key_lt (k a) (k b) = Some true -> key_lt (k b) (k c) = Some true ->
   key_lt (k a) (k c) = Some true).
Proof.
  cbv zeta. rewrite !key_lt_slices, key_eq_slices, key_gt_slices, !slice_lt_lex.
  split_and!.
  - destruct (lex a b); naive_solver.
  - split; [intros [= H]; by apply bool_decide_eq_true in H|].
    intros ->. by rewrite bool_decide_true.
  - destruct (lex b a); naive_solver.
  - by rewrite lex_refl.
  - destruct (lex a b) eqn:E1; try done. destruct (lex b c) eqn:E2; try done.
    intros _ _. by rewrite (lex_lt_trans _ _ _ E1 E2).
Qed.

Lemma OrderedKey_slice_order_witness :
  key_lt (FromSlice [x01]) (FromSlice [x01; x00]) = Some true /\
  lex [x01] [x01; x00] = Lt.
Proof.
  split; [|reflexivity].
  apply (OrderedKey_slice_order [x01] [x01; x00] []). reflexivity.
Defined.
