(* ===== verification/Types.v ===== *)
(** * Enumerations of [include/types/type.h] *)

From S2P Require Import Prelude.

(** [enum class UType]. *)
Inductive UType :=
  | UUnknown | UBool | UNum | UString | UBlob | UList | USet | UMap.

#[export] Instance UType_eq_dec : EqDecision UType.
Proof. solve_decision. Defined.

Definition utype_code (t : UType) : Z :=
  match t with
  | UUnknown => 0 | UBool => 1 | UNum => 2 | UString => 3
  | UBlob => 4 | UList => 5 | USet => 6 | UMap => 7
  end.

(** Reading a [UType] field: values outside the enumeration stay outside. *)
Definition utype_of_code (z : Z) : option UType :=
  match z with
  | 0 => Some UUnknown | 1 => Some UBool | 2 => Some UNum | 3 => Some UString
  | 4 => Some UBlob | 5 => Some UList | 6 => Some USet | 7 => Some UMap
  | _ => None
  end%Z.

Lemma utype_of_code_code t : utype_of_code (utype_code t) = Some t.
Proof. by destruct t. Qed.

Lemma utype_code_range t : (0 <= utype_code t < 256)%Z.
Proof. destruct t; simpl; lia. Qed.

(** [enum class ChunkType]. *)
Inductive ChunkType :=
  | kNull | kCell | kMeta | kBlob | kMap | kList | kSet | kInvalid.

#[export] Instance ChunkType_eq_dec : EqDecision ChunkType.
Proof. solve_decision. Defined.

Definition chunktype_code (t : ChunkType) : Z :=
  match t with
  | kNull => 0 | kCell => 1 | kMeta => 2 | kBlob => 3
  | kMap => 4 | kList => 5 | kSet => 6 | kInvalid => 99
  end.

Definition chunktype_of_code (z : Z) : option ChunkType :=
  match z with
  | 0 => Some kNull | 1 => Some kCell | 2 => Some kMeta | 3 => Some kBlob
  | 4 => Some kMap | 5 => Some kList | 6 => Some kSet | 99 => Some kInvalid
  | _ => None
  end%Z.

Lemma chunktype_of_code_code t : chunktype_of_code (chunktype_code t) = Some t.
Proof. by destruct t. Qed.

Lemma chunktype_code_range t : (0 <= chunktype_code t < 256)%Z.
Proof. destruct t; simpl; lia. Qed.

(** [IsChunkValid]: the values that are one of the enumerators. *)
Definition IsChunkValid (z : Z) : bool :=
  ((z =? chunktype_code kNull) || (z =? chunktype_code kCell)
   || (z =? chunktype_code kMeta) || (z =? chunktype_code kBlob)
   || (z =? chunktype_code kMap) || (z =? chunktype_code kSet)
   || (z =? chunktype_code kList) || (z =? chunktype_code kInvalid))%Z.

Lemma IsChunkValid_spec z :
  IsChunkValid z = true <-> is_Some (chunktype_of_code z).
Proof.
  split.
  - unfold IsChunkValid. intros H.
    repeat (apply orb_true_iff in H; destruct H as [H|H]);
      apply Z.eqb_eq in H as ->; eexists; apply chunktype_of_code_code.
  - intros [t Ht]. unfold chunktype_of_code in Ht.
    repeat case_match; simplify_eq; done.
Qed.

(** [enum class ErrorCode]. *)
Inductive ErrorCode :=
  | kOK | kUnknownOp | kIOFault | kInvalidPath
  | kKeyNotExists | kKeyExists | kInvalidRange | kBranchExists
  | kBranchNotExists | kReferringVersionNotExist | kInconsistentKey
  | kInvalidValue | kTypeUnsupported | kUCellNotExists | kFailedCreateUCell
  | kFailedCreateSBlob | kFailedCreateSString | kFailedCreateSList
  | kFailedCreateSMap | kFailedCreateSSet | kFailedModifySBlob
  | kFailedModifySList | kFailedModifySMap | kFailedModifySSet
  | kIndexOutOfRange | kObjectMetaError | kObjectMetaNotExists
  | kObjectMetaIndicesMismatch | kInvalidBase32String
  | kChunkNotExists | kFailedCreateChunk | kStoreInfoUnavailable
  | kTypeMismatch | kTableNotExists | kEmptyTable | kNotEmptyTable
  | kColumnNotExists | kRowNotExists | kRowExists
  | kFailedOpenFile | kInvalidCommandArgument | kUnknownCommand
  | kInvalidSchema | kInconsistentType | kInvalidParameter
  | kMapKeyNotExists | kMapKeyExists | kElementExists | kUnexpectedSuccess
  | kDatasetNotExists | kDataEntryNotExists | kDatasetSchemaMismatch
  | kDatasetSchemaNotFound | kIllegalDataEntryNameAttr
  | kDataEntryNameIndicesUnknown | kDataEntryNameIndicesMismatch.

#[export] Instance ErrorCode_eq_dec : EqDecision ErrorCode.
Proof. solve_decision. Defined.

Definition error_code (e : ErrorCode) : Z :=
  match e with
  | kOK => 0 | kUnknownOp => 1 | kIOFault => 2 | kInvalidPath => 3
  | kKeyNotExists => 10 | kKeyExists => 11 | kInvalidRange => 12
  | kBranchExists => 13 | kBranchNotExists => 14
  | kReferringVersionNotExist => 15 | kInconsistentKey => 16
  | kInvalidValue => 20 | kTypeUnsupported => 21 | kUCellNotExists => 22
  | kFailedCreateUCell => 23 | kFailedCreateSBlob => 24
  | kFailedCreateSString => 25 | kFailedCreateSList => 26
  | kFailedCreateSMap => 27 | kFailedCreateSSet => 28
  | kFailedModifySBlob => 29 | kFailedModifySList => 30
  | kFailedModifySMap => 31 | kFailedModifySSet => 32
  | kIndexOutOfRange => 33 | kObjectMetaError => 34
  | kObjectMetaNotExists => 35 | kObjectMetaIndicesMismatch => 36
  | kInvalidBase32String => 37
  | kChunkNotExists => 40 | kFailedCreateChunk => 41
  | kStoreInfoUnavailable => 42
  | kTypeMismatch => 50 | kTableNotExists => 51 | kEmptyTable => 52
  | kNotEmptyTable => 53 | kColumnNotExists => 54 | kRowNotExists => 55
  | kRowExists => 56
  | kFailedOpenFile => 60 | kInvalidCommandArgument => 61
  | kUnknownCommand => 62 | kInvalidSchema => 63 | kInconsistentType => 64
  | kInvalidParameter => 65 | kMapKeyNotExists => 66 | kMapKeyExists => 66
  | kElementExists => 67 | kUnexpectedSuccess => 68
  | kDatasetNotExists => 70 | kDataEntryNotExists => 71
  | kDatasetSchemaMismatch => 72 | kDatasetSchemaNotFound => 73
  | kIllegalDataEntryNameAttr => 74 | kDataEntryNameIndicesUnknown => 75
  | kDataEntryNameIndicesMismatch => 76
  end.

(** Error codes identify errors, except that "map key exists" and "map key
    does not exist" share one code and cannot be told apart. *)
Lemma error_code_collision e1 e2 :
  error_code e1 = error_code e2 <->
  e1 = e2 \/ (e1 = kMapKeyNotExists /\ e2 = kMapKeyExists)
          \/ (e1 = kMapKeyExists /\ e2 = kMapKeyNotExists).
Proof.
  split; [|by intros [->|[[-> ->]|[-> ->]]]].
  destruct e1, e2; simpl; intros H; try discriminate H; auto.
Qed.
