(* ===== verification/HashVal.v ===== *)
(** * Hash values: [include/hash/hash.h], [src/hash/hash.cc]

    A [Hash] is a pointer to 20 bytes, possibly null ([Hash()]); the model is
    an optional byte string.  Base32 text conversion is translated loop by
    loop; the digest function is a parameter ([HashFunction]): the default
    build takes it from the Crypto++ library. *)

From S2P Require Import Prelude Types Slice.
Local Open Scope Z_scope.

Definition kByteLength : nat := 20.
Definition kBase32Length : nat := 32.

(** [class Hash]: [None] is the empty hash, whose [value_] is [nullptr]. *)
Abbreviation Hash := (option bytes).

(** [Hash::kNull], which is not the empty hash: it points to 20 zero bytes. *)
Definition hash_kNull : Hash := Some (replicate kByteLength x00).

Definition hash_empty (h : Hash) : bool := bool_decide (h = None).

Definition hash_wf (h : Hash) : Prop := forall v, h = Some v -> length v = kByteLength.

(** The comparison operators; a null pointer is below every other pointer. *)
Definition hash_lt (a b : Hash) : bool :=
  match a, b with
  | Some x, Some y => match memcmp x y kByteLength with Lt => true | _ => false end
  | None, Some _ => true
  | _, None => false
  end.

Definition hash_eq (a b : Hash) : bool :=
  match a, b with
  | Some x, Some y => match memcmp x y kByteLength with Eq => true | _ => false end
  | None, None => true
  | _, _ => false
  end.

(** [Hash::Clone]: a copy of the 20 bytes. *)
Definition hash_Clone (h : Hash) : Hash := take kByteLength <$> h.

Lemma memcmp_lex a b n :
  length a = n -> length b = n -> memcmp a b n = lex a b.
Proof.
  revert a b. induction n as [|n IH]; intros [|x a] [|y b]; simpl; try done.
  intros [= Ha] [= Hb]. by rewrite IH.
Qed.

Lemma hash_eq_spec a b : hash_wf a -> hash_wf b -> hash_eq a b = bool_decide (a = b).
Proof.
  intros Ha Hb. destruct a as [x|], b as [y|]; simpl; try done.
  rewrite memcmp_lex by auto. destruct (lex x y) eqn:E.
  - apply lex_eq in E as ->. by rewrite bool_decide_true.
  - rewrite bool_decide_false; [done|]. intros [= ->]. by rewrite lex_refl in E.
  - rewrite bool_decide_false; [done|]. intros [= ->]. by rewrite lex_refl in E.
Qed.

Lemma hash_Clone_wf h : hash_wf h -> hash_Clone h = h.
Proof.
  intros H. destruct h as [v|]; [|done]. unfold hash_Clone. osimpl.
  rewrite take_ge; [done|]. rewrite (H v eq_refl). done.
Qed.

(** ** The digest function

    [Hash::ComputeFrom] keeps the first 20 bytes of a digest computed by the
    hash library (BLAKE2b in the default configuration, SHA-256 otherwise),
    whose digests are longer than that. *)
Class HashFunction := {
  digest : bytes -> bytes;
  digest_length : forall data, (kByteLength <= length (digest data))%nat
}.

Definition ComputeFrom `{HashFunction} (data : bytes) : bytes :=
  take kByteLength (digest data).

Lemma length_ComputeFrom `{HashFunction} data : length (ComputeFrom data) = kByteLength.
Proof. unfold ComputeFrom. rewrite length_take. pose proof (digest_length data). lia. Qed.

#[export] Hint Rewrite @length_ComputeFrom : ubytes.

(** A concrete digest for the witnesses of theorems that take the parameter:
    the data as a number in base 257, modulo 2^160. *)
Definition plain_digest (data : bytes) : bytes :=
  le_encode kByteLength (fold_left (fun acc b => (acc * 257 + b2z b + 1) mod 2 ^ 160) data 0).

Lemma plain_digest_length data : (kByteLength <= length (plain_digest data))%nat.
Proof. unfold plain_digest. by rewrite length_le_encode. Qed.

Definition plain_hash : HashFunction :=
  {| digest := plain_digest; digest_length := plain_digest_length |}.

(** ** Base32 *)

(** [base32alphabet]. *)
Definition base32alphabet : bytes :=
  [x41; x42; x43; x44; x45; x46; x47; x48; x49; x4a; x4b; x4c; x4d;
   x4e; x4f; x50; x51; x52; x53; x54; x55; x56; x57; x58; x59; x5a;
   x32; x33; x34; x35; x36; x37].

(** [base32dict], as the list of its initialiser. *)
Definition base32dict : list (byte * Z) :=
  [(x41, 0); (x42, 1); (x43, 2); (x44, 3); (x45, 4); (x46, 5); (x47, 6);
   (x48, 7); (x49, 8); (x4a, 9); (x4b, 10); (x4c, 11); (x4d, 12); (x4e, 13);
   (x4f, 14); (x50, 15); (x51, 16); (x52, 17); (x53, 18); (x54, 19);
   (x55, 20); (x56, 21); (x57, 22); (x58, 23); (x59, 24); (x5a, 25);
   (x32, 26); (x33, 27); (x34, 28); (x35, 29); (x36, 30); (x37, 31)].

(** [base32dict.at(c)]; [None] is the [std::out_of_range] exception. *)
Definition base32_at (c : byte) : option Z :=
  (fun r => snd (snd r)) <$> list_find (fun p => fst p = c) base32dict.

(** [Hash::ToBase32], inner loops: five bytes into [tmp], then eight
    characters ([k] is [8 - j]). *)
Definition pack5 (v : bytes) : Z :=
  fold_left (fun tmp b => u64 (u64 (Z.shiftl tmp 8) + b2z b)) v 0.

Fixpoint b32_chars (k : nat) (tmp : Z) : bytes :=
  match k with
  | O => []
  | S k' =>
      let shift := 5 * Z.of_nat k' in
      nth (Z.to_nat (u8 (Z.shiftr tmp shift))) base32alphabet x00
      :: b32_chars k' (Z.land tmp (2 ^ shift - 1))
  end.

(** The outer loop over the groups of five bytes. *)
Fixpoint to_groups (n : nat) (v : bytes) : bytes :=
  match n with
  | O => []
  | S n' => b32_chars 8 (pack5 (take 5 v)) ++ to_groups n' (drop 5 v)
  end.

Definition ToBase32 (h : Hash) : bytes :=
  match h with
  | None => []
  | Some v => to_groups 4 v
  end.

(** [Hash::FromBase32], inner loops: eight characters into [tmp], then five
    bytes from the last to the first. *)
Fixpoint pack8 (tmp : Z) (s : bytes) : option Z :=
  match s with
  | [] => Some tmp
  | c :: s' => d ← base32_at c; pack8 (u64 (u64 (Z.shiftl tmp 5) + d)) s'
  end.

Fixpoint unpack5 (n : nat) (tmp : Z) : bytes :=
  match n with
  | O => []
  | S n' => unpack5 n' (Z.shiftr tmp 8) ++ [z2b (Z.land tmp (2 ^ 8 - 1))]
  end.

Fixpoint from_groups (n : nat) (s : bytes) : option bytes :=
  match n with
  | O => Some []
  | S n' =>
      tmp ← pack8 0 (take 8 s);
      rest ← from_groups n' (drop 8 s);
      Some (unpack5 5 tmp ++ rest)
  end.

(** Outcome of a call that may also throw a C++ exception. *)
Inductive outcome (A : Type) :=
  | Returns (a : A)
  | Throws
  | Aborts.
Arguments Returns {A} a.
Arguments Throws {A}.
Arguments Aborts {A}.

(** [Hash::FromBase32(base32)]: the length is a [CHECK]. *)
Definition FromBase32 (base32 : bytes) : outcome Hash :=
  if negb (length base32 =? kBase32Length)%nat then Aborts
  else match from_groups 4 base32 with
       | Some v => Returns (Some v)
       | None => Throws
       end.

(** [Hash::FromBase32(base32, hash)]: catches the exception. *)
Definition FromBase32_code (base32 : bytes) (hash : Hash) : outcome (ErrorCode * Hash) :=
  match FromBase32 base32 with
  | Returns h => Returns (kOK, h)
  | Throws => Returns (kInvalidBase32String, hash)
  | Aborts => Aborts
  end.

(** ** Base32: lemmas *)

Lemma base32_at_char d :
  0 <= d < 32 -> base32_at (nth (Z.to_nat d) base32alphabet x00) = Some d.
Proof.
  intros Hd.
  assert (Hall : forallb (fun i => bool_decide (base32_at (nth i base32alphabet x00)
                                                = Some (Z.of_nat i))) (seq 0 32) = true)
    by (vm_compute; reflexivity).
  rewrite forallb_forall in Hall. specialize (Hall (Z.to_nat d)).
  rewrite bool_decide_eq_true in Hall. rewrite Hall; [f_equal; lia|].
  apply in_seq. lia.
Qed.

Lemma base32_at_Some c d :
  base32_at c = Some d -> 0 <= d < 32 /\ nth (Z.to_nat d) base32alphabet x00 = c.
Proof.
  unfold base32_at. intros ([i [c' d']] & Hf & ->)%fmap_Some. simpl.
  apply list_find_Some in Hf as (Hl & <- & _). simpl.
  assert (Hall : Forall (fun p => 0 <= snd p < 32 /\
             nth (Z.to_nat (snd p)) base32alphabet x00 = fst p) base32dict).
  { repeat (constructor; [split; [simpl; lia | reflexivity]|]). constructor. }
  exact (Forall_lookup_1 _ _ _ _ Hall Hl).
Qed.

Lemma length_b32_chars k tmp : length (b32_chars k tmp) = k.
Proof. revert tmp. induction k; intros; simpl; auto. Qed.

Lemma length_unpack5 n tmp : length (unpack5 n tmp) = n.
Proof. revert tmp. induction n as [|n IH]; intros; simpl; [done|]. rewrite length_app, IH. simpl. lia. Qed.

#[local] Hint Rewrite length_b32_chars length_unpack5 : ubytes.

Lemma land_mask x k : 0 <= k -> Z.land x (2 ^ k - 1) = x mod 2 ^ k.
Proof. intros. rewrite <- Z.land_ones by done. f_equal. rewrite Z.ones_equiv. lia. Qed.

(** Reading eight characters produced from a 40-bit number. *)
Lemma pack8_b32_chars k acc tmp rest :
  0 <= acc -> 0 <= tmp < 32 ^ Z.of_nat k -> (acc + 1) * 32 ^ Z.of_nat k <= 2 ^ 64 ->
  pack8 acc (b32_chars k tmp ++ rest) = pack8 (acc * 32 ^ Z.of_nat k + tmp) rest.
Proof.
  revert acc tmp. induction k as [|k IH]; intros acc tmp Ha Ht Hacc.
  { cbn [b32_chars app]. f_equal. simpl in *. lia. }
  cbn [b32_chars app pack8].
  rewrite Nat2Z.inj_succ, Z.pow_succ_r in * by lia.
  set (P := 32 ^ Z.of_nat k) in *.
  assert (HP : 2 ^ (5 * Z.of_nat k) = P) by (by rewrite Z.pow_mul_r by lia).
  assert (0 < P) by (apply Z.pow_pos_nonneg; lia).
  rewrite Z.shiftr_div_pow2, land_mask, HP by lia.
  assert (Hd : 0 <= tmp / P < 32).
  { split; [apply Z.div_pos; lia | apply Z.div_lt_upper_bound; lia]. }
  rewrite (wrap_small 8) by lia. rewrite base32_at_char by done. osimpl.
  rewrite Z.shiftl_mul_pow2 by lia. change (2 ^ 5) with 32.
  pose proof (Z.mod_pos_bound tmp P ltac:(lia)).
  assert (HB : (acc + 1) * 32 <= 2 ^ 64) by nia.
  rewrite (wrap_small 64 (acc * 32)), (wrap_small 64) by lia.
  rewrite IH by (lia || nia).
  f_equal. pose proof (Z.div_mod tmp P ltac:(lia)). nia.
Qed.

(** Writing out the characters that were read. *)
Lemma b32_chars_pack8 s acc tmp :
  0 <= acc -> (acc + 1) * 32 ^ Z.of_nat (length s) <= 2 ^ 64 ->
  pack8 acc s = Some tmp ->
  tmp / 32 ^ Z.of_nat (length s) = acc /\ 0 <= tmp /\
  b32_chars (length s) (tmp mod 32 ^ Z.of_nat (length s)) = s.
Proof.
  revert acc. induction s as [|c s IH]; intros acc Ha Hacc; cbn [length] in *.
  { cbn [pack8 length]. intros [= <-]. by rewrite Z.div_1_r. }
  cbn [pack8 length]. intros (d & [Hd Hc]%base32_at_Some & Hp)%bind_Some.
  rewrite Nat2Z.inj_succ, Z.pow_succ_r in * by lia.
  set (P := 32 ^ Z.of_nat (length s)) in *.
  assert (HP : 2 ^ (5 * Z.of_nat (length s)) = P) by (by rewrite Z.pow_mul_r by lia).
  assert (0 < P) by (apply Z.pow_pos_nonneg; lia).
  rewrite Z.shiftl_mul_pow2 in Hp by lia. change (2 ^ 5) with 32 in Hp.
  assert (HB : (acc + 1) * 32 <= 2 ^ 64).
  { transitivity ((acc + 1) * (32 * P)); [|done]. apply Z.mul_le_mono_nonneg_l; lia. }
  rewrite (wrap_small 64 (acc * 32)), (wrap_small 64) in Hp by lia.
  apply IH in Hp as (Hq & Htmp & Hs); [|lia|nia].
  assert (Hmod : tmp mod (32 * P) = d * P + tmp mod P).
  { rewrite Z.mul_comm, Z.rem_mul_r by lia. rewrite Hq.
    rewrite (Z.add_comm (acc * 32) d), Z.mod_add, (Z.mod_small d) by lia. lia. }
  split_and!.
  - rewrite Z.mul_comm, <- Z.div_div, Hq by lia.
    rewrite Z.div_add_l by lia. rewrite (Z.div_small d 32) by done. lia.
  - done.
  - cbn [b32_chars]. rewrite Z.shiftr_div_pow2, land_mask, HP, Hmod by lia.
    pose proof (Z.mod_pos_bound tmp P ltac:(lia)).
    rewrite Z.div_add_l, (Z.div_small (tmp mod P)), Z.add_0_r by lia.
    rewrite (wrap_small 8), Hc by lia. f_equal.
    rewrite Z.add_comm, Z.mod_add, Z.mod_mod by lia. done.
Qed.

Lemma pack5_snoc v b : pack5 (v ++ [b]) = u64 (u64 (Z.shiftl (pack5 v) 8) + b2z b).
Proof. unfold pack5. by rewrite fold_left_app. Qed.

Lemma pack5_range v : (length v <= 7)%nat -> 0 <= pack5 v < 256 ^ Z.of_nat (length v).
Proof.
  induction v as [|b v IH] using rev_ind; [done|]. rewrite length_app, pack5_snoc. simpl.
  rewrite Nat.add_1_r, Nat2Z.inj_succ, Z.pow_succ_r by lia. intros Hl.
  specialize (IH ltac:(lia)). pose proof (b2z_range b).
  assert (256 ^ Z.of_nat (length v) <= 256 ^ 6) by (apply Z.pow_le_mono_r; lia).
  rewrite Z.shiftl_mul_pow2 by lia.
  assert (E : 2 ^ 64 = 256 ^ 6 * 65536) by reflexivity.
  rewrite (wrap_small 64 (pack5 v * _)), (wrap_small 64) by lia. lia.
Qed.

Lemma unpack5_pack5 v : (length v <= 7)%nat -> unpack5 (length v) (pack5 v) = v.
Proof.
  induction v as [|b v IH] using rev_ind; [done|]. rewrite length_app. simpl.
  rewrite Nat.add_1_r. intros Hl. cbn [unpack5]. rewrite pack5_snoc.
  pose proof (pack5_range v ltac:(lia)) as Hr. pose proof (b2z_range b).
  assert (256 ^ Z.of_nat (length v) <= 256 ^ 6) by (apply Z.pow_le_mono_r; lia).
  assert (E : 2 ^ 64 = 256 ^ 6 * 65536) by reflexivity.
  rewrite Z.shiftl_mul_pow2 by lia.
  rewrite (wrap_small 64 (pack5 v * _)), (wrap_small 64) by lia.
  rewrite Z.shiftr_div_pow2, land_mask by lia. change (2 ^ 8) with 256.
  rewrite Z.div_add_l, Z.div_small, Z.add_0_r, IH by lia. f_equal.
  rewrite Z.add_comm, Z.mod_add, Z.mod_small by lia. by rewrite z2b_b2z.
Qed.

Lemma pack5_unpack5 n tmp :
  (n <= 7)%nat -> 0 <= tmp < 256 ^ Z.of_nat n -> pack5 (unpack5 n tmp) = tmp.
Proof.
  revert tmp. induction n as [|n IH]; intros tmp Hn Ht; [simpl in *; unfold pack5; simpl; lia|].
  cbn [unpack5]. rewrite pack5_snoc, b2z_z2b, land_mask by lia.
  rewrite Nat2Z.inj_succ, Z.pow_succ_r in Ht by lia.
  assert (256 ^ Z.of_nat n <= 256 ^ 6) by (apply Z.pow_le_mono_r; lia).
  assert (E : 2 ^ 64 = 256 ^ 6 * 65536) by reflexivity.
  rewrite Z.shiftr_div_pow2, IH by (lia || (change (2 ^ 8) with 256; split;
    [apply Z.div_pos; lia | apply Z.div_lt_upper_bound; lia])).
  change (2 ^ 8) with 256. rewrite Z.mod_mod, Z.shiftl_mul_pow2 by lia.
  change (2 ^ 8) with 256.
  pose proof (Z.div_mod tmp 256 ltac:(lia)). pose proof (Z.mod_pos_bound tmp 256 ltac:(lia)).
  rewrite (wrap_small 64 (_ * _)), (wrap_small 64) by lia. lia.
Qed.

Lemma from_to_groups n v :
  length v = (5 * n)%nat -> from_groups n (to_groups n v) = Some v.
Proof.
  revert v. induction n as [|n IH]; intros v Hl.
  { by destruct v. }
  cbn [to_groups from_groups].
  assert (H5 : length (take 5 v) = 5%nat) by (rewrite length_take; lia).
  pose proof (pack5_range (take 5 v) ltac:(lia)) as Hr. rewrite H5 in Hr.
  assert (Hc : length (b32_chars 8 (pack5 (take 5 v))) = 8%nat) by apply length_b32_chars.
  rewrite take_app_le, drop_app_ge, Hc, take_ge, Nat.sub_diag, drop_0 by lia.
  pose proof (pack8_b32_chars 8 0 (pack5 (take 5 v)) []) as Hp.
  rewrite app_nil_r in Hp. rewrite Hp; [|lia|exact Hr|simpl; lia].
  cbn [pack8]. osimpl. rewrite IH by (rewrite length_drop; lia). osimpl.
  rewrite Z.mul_0_l, Z.add_0_l. rewrite <- H5 at 1.
  rewrite unpack5_pack5 by lia. by rewrite take_drop.
Qed.

Lemma to_from_groups n s v :
  length s = (8 * n)%nat -> from_groups n s = Some v ->
  length v = (5 * n)%nat /\ to_groups n v = s.
Proof.
  revert s v. induction n as [|n IH]; intros s v Hl.
  { destruct s; [|done]. by intros [= <-]. }
  cbn [to_groups from_groups].
  intros (tmp & Hp & (rest & Hrest & Hv)%bind_Some)%bind_Some.
  apply (inj Some) in Hv as <-.
  apply IH in Hrest as [Hlr Htr]; [|rewrite length_drop; lia].
  assert (H8 : length (take 8 s) = 8%nat) by (rewrite length_take; lia).
  apply b32_chars_pack8 in Hp as (Hq & Ht & Hs); [|lia|rewrite H8; simpl; lia].
  rewrite H8 in *.
  assert (Htmp : tmp < 32 ^ 8).
  { pose proof (Z.div_mod tmp (32 ^ 8) ltac:(lia)) as Hdm. change (Z.of_nat 8) with 8 in *.
    rewrite Hq in Hdm. pose proof (Z.mod_pos_bound tmp (32 ^ 8) ltac:(lia)). lia. }
  assert (Hu : length (unpack5 5 tmp) = 5%nat) by apply length_unpack5.
  rewrite length_app, Hu, Hlr. split; [lia|].
  rewrite take_app_le, drop_app_ge, Hu, take_ge, Nat.sub_diag, drop_0 by lia.
  rewrite pack5_unpack5 by (lia || (split; [done|exact Htmp])).
  rewrite Z.mod_small in Hs by (split; [done|exact Htmp]).
  by rewrite Hs, Htr, take_drop.
Qed.

(** ** Properties *)

(** C37.  Base32 round trip: decoding the text of any 20-byte hash gives the
    hash back, and every text that decodes is the text of its hash (so the
    text form is canonical). *)
Theorem base32_roundtrip :
  (forall v, length v = kByteLength -> FromBase32 (ToBase32 (Some v)) = Returns (Some v)) /\
  (forall s h, FromBase32 s = Returns h -> hash_wf h /\ ToBase32 h = s).
Proof.
  split.
  - intros v Hv. unfold FromBase32, ToBase32.
    assert (Hl : length (to_groups 4 v) = kBase32Length).
    { cbn [to_groups]. by rewrite !length_app, !length_b32_chars. }
    rewrite Hl. simpl negb. cbn iota. by rewrite from_to_groups by done.
  - intros s h. unfold FromBase32, ToBase32.
    destruct (Nat.eqb_spec (length s) kBase32Length) as [E|]; simpl negb; cbn iota; [|done].
    destruct (from_groups 4 s) as [v|] eqn:Hf; [|done]. intros [= <-].
    apply to_from_groups in Hf as [Hlv Ht]; [|exact E]. split; [|done].
    by intros v' [= <-].
Qed.

Lemma base32_roundtrip_witness :
  FromBase32 (ToBase32 hash_kNull) = Returns hash_kNull.
Proof. apply base32_roundtrip. reflexivity. Defined.

(** A text of the wrong length terminates the process in both variants
    of [FromBase32], although the second one reports malformed input by an
    error code: a bad character yields [kInvalidBase32String]. *)
Theorem FromBase32_malformed s h :
  (length s <> kBase32Length -> FromBase32 s = Aborts /\ FromBase32_code s h = Aborts) /\
  (length s = kBase32Length -> from_groups 4 s = None ->
   FromBase32 s = Throws /\ FromBase32_code s h = Returns (kInvalidBase32String, h)).
Proof.
  unfold FromBase32_code, FromBase32.
  destruct (Nat.eqb_spec (length s) kBase32Length) as [E|E]; simpl negb; cbn iota.
  - split; [done|]. intros _ ->. done.
  - split; done.
Qed.

Lemma FromBase32_malformed_witness :
  FromBase32 [x41] = Aborts /\
  FromBase32_code (replicate 32 x31) None = Returns (kInvalidBase32String, None).
Proof.
  split.
  - apply (FromBase32_malformed [x41] None). discriminate.
  - apply (FromBase32_malformed (replicate 32 x31) None); reflexivity.
Defined.
