(* ===== verification/Chunk.v ===== *)
(** * Chunks and segments: [include/chunk/chunk.h], [src/chunk/chunk.cc],
      [include/chunk/segment.h], [src/chunk/segment.cc]

    A chunk is a byte array with a five-byte header; a segment is a window on
    a byte array that holds consecutive entries of fixed or variable length.
    [seg_rep s es] says that segment [s] denotes the list of entries [es]; the
    lemmas give every operation of a segment in terms of that list, and are
    what the nodes and the builder use. *)

From S2P Require Import Prelude Types HashVal.

(** ** [class Chunk] *)

Definition kNumBytesOffset : nat := 0.
Definition kChunkTypeOffset : nat := kNumBytesOffset + 4.
Definition kMetaLength : nat := kChunkTypeOffset + 1.

(** [head_] is [None] for the null pointer, otherwise the memory from the
    chunk's address on; [hash_] is the cached hash, empty if not computed. *)
Record Chunk := mkChunk {
  head_ : option bytes;
  hash_ : Hash
}.

(** [Chunk()] and [Chunk(head)]. *)
Definition chunk_null : Chunk := mkChunk None None.
Definition chunk_of_head (head : bytes) : Chunk := mkChunk (Some head) None.

(** [Chunk(type, capacity)]: [mem] is the uninitialised payload. *)
Definition chunk_new (type : ChunkType) (capacity : nat) (mem : bytes) : Chunk :=
  mkChunk (Some (le_encode 4 (Z.of_nat (kMetaLength + capacity))
                 ++ [z2b (chunktype_code type)] ++ mem)) None.

Definition chunk_empty (c : Chunk) : bool := bool_decide (head_ c = None).

(** [Chunk::numBytes]. *)
Definition chunk_numBytes (c : Chunk) : option Z :=
  h ← head_ c; read_u32 kNumBytesOffset h.

(** [Chunk::type]. *)
Definition chunk_type (c : Chunk) : option ChunkType :=
  h ← head_ c; z ← read_u8 kChunkTypeOffset h; chunktype_of_code z.

(** [Chunk::capacity]: the difference is truncated to [uint32_t]. *)
Definition chunk_capacity (c : Chunk) : option nat :=
  n ← chunk_numBytes c; Some (Z.to_nat (u32 (n - Z.of_nat kMetaLength))).

(** [Chunk::data]. *)
Definition chunk_data (c : Chunk) : option bytes :=
  drop kMetaLength <$> head_ c.

(** [Chunk::forceHash] and [Chunk::hash]. *)
Definition chunk_forceHash `{HashFunction} (c : Chunk) : option Hash :=
  h ← head_ c; n ← chunk_numBytes c;
  body ← read_bytes 0 (Z.to_nat n) h; Some (Some (ComputeFrom body)).

Definition chunk_hash `{HashFunction} (c : Chunk) : option Hash :=
  if hash_empty (hash_ c) then chunk_forceHash c else Some (hash_ c).

(** [std::memcpy(buffer + off, src, n)] into a buffer of known size. *)
Definition memcpy_at (off : nat) (src buf : bytes) : option bytes :=
  if decide (off + length src <= length buf)
  then Some (take off buf ++ src ++ drop (off + length src) buf) else None.

(** Writing through [Chunk::m_data() + off]. *)
Definition chunk_write (off : nat) (src : bytes) (c : Chunk) : option Chunk :=
  h ← head_ c; h' ← memcpy_at (kMetaLength + off) src h;
  Some (mkChunk (Some h') (hash_ c)).

(** The bytes of a chunk of a given type and payload. *)
Definition chunk_bytes (type : ChunkType) (payload : bytes) : bytes :=
  le_encode 4 (Z.of_nat (kMetaLength + length payload))
  ++ [z2b (chunktype_code type)] ++ payload.

Definition chunk_make (type : ChunkType) (payload : bytes) : Chunk :=
  chunk_of_head (chunk_bytes type payload).

(** A payload whose chunk has a size that fits the [uint32_t] header. *)
Definition payload_ok (payload : bytes) : Prop :=
  (Z.of_nat (kMetaLength + length payload) < 2 ^ 32)%Z.

Lemma length_chunk_bytes t p : length (chunk_bytes t p) = kMetaLength + length p.
Proof. unfold chunk_bytes, kMetaLength, kChunkTypeOffset, kNumBytesOffset. blen. Qed.

Lemma chunk_new_make t p : chunk_new t (length p) p = chunk_make t p.
Proof. done. Qed.

(** [chunk_rep c t p]: [c] points to the bytes of a chunk of type [t] with
    payload [p] (more memory may follow), and its cached hash, if any, is the
    hash of those bytes. *)
Record chunk_rep `{HashFunction} (c : Chunk) (t : ChunkType) (p : bytes) : Prop := {
  cr_head : exists rest, head_ c = Some (chunk_bytes t p ++ rest);
  cr_size : payload_ok p;
  cr_hash : hash_ c = None \/ hash_ c = Some (ComputeFrom (chunk_bytes t p))
}.

Section ChunkRep.
Context `{HashFunction}.

Lemma chunk_rep_make t p : payload_ok p -> chunk_rep (chunk_make t p) t p.
Proof. intros Hp. constructor; [exists []; by rewrite app_nil_r|done|by left]. Qed.

Lemma chunk_rep_data c t p :
  chunk_rep c t p -> exists rest, chunk_data c = Some (p ++ rest).
Proof.
  intros [[rest Hh] _ _]. exists rest. unfold chunk_data. rewrite Hh. reflexivity.
Qed.

Lemma chunk_rep_type c t p : chunk_rep c t p -> chunk_type c = Some t.
Proof.
  intros [[rest Hh] _ _]. unfold chunk_type. rewrite Hh. osimpl. unfold chunk_bytes.
  rewrite <- !app_assoc.
  change [z2b (chunktype_code t)] with (le_encode 1 (chunktype_code t)).
  rewrite (read_u_app 1 4) by apply length_le_encode. osimpl.
  rewrite Z.mod_small by apply chunktype_code_range. apply chunktype_of_code_code.
Qed.

Lemma chunk_rep_numBytes c t p :
  chunk_rep c t p -> chunk_numBytes c = Some (Z.of_nat (kMetaLength + length p)).
Proof.
  intros [[rest Hh] Hp _]. unfold chunk_numBytes. rewrite Hh. osimpl. unfold chunk_bytes.
  rewrite <- !app_assoc. unfold kNumBytesOffset. rewrite read_u_here.
  rewrite Z.mod_small; [done|]. unfold payload_ok in Hp. split; [lia|exact Hp].
Qed.

Lemma chunk_rep_capacity c t p : chunk_rep c t p -> chunk_capacity c = Some (length p).
Proof.
  intros Hc. unfold chunk_capacity. rewrite (chunk_rep_numBytes _ _ _ Hc). osimpl.
  destruct Hc as [_ Hp _]. unfold payload_ok in Hp.
  rewrite (wrap_small 32) by lia. f_equal. lia.
Qed.

Lemma chunk_rep_hash c t p :
  chunk_rep c t p -> chunk_hash c = Some (Some (ComputeFrom (chunk_bytes t p))).
Proof.
  intros Hc. unfold chunk_hash.
  destruct (cr_hash _ _ _ Hc) as [E|E]; rewrite E; [|done].
  simpl hash_empty. cbn iota. unfold chunk_forceHash.
  rewrite (chunk_rep_numBytes _ _ _ Hc). destruct (cr_head _ _ _ Hc) as [rest Hh].
  rewrite Hh. osimpl. rewrite Nat2Z.id, <- (length_chunk_bytes t p).
  by rewrite read_bytes_app_l, read_bytes_all by lia.
Qed.

End ChunkRep.

(** Filling the payload of a new chunk from the front. *)
Lemma memcpy_at_next hd pre src mem :
  length pre + length src <= length mem ->
  memcpy_at (length hd + length pre) src (hd ++ pre ++ drop (length pre) mem)
  = Some (hd ++ (pre ++ src) ++ drop (length (pre ++ src)) mem).
Proof.
  intros Hl. unfold memcpy_at.
  rewrite decide_True by (rewrite !length_app, length_drop; lia). f_equal.
  rewrite <- length_app, (app_assoc hd pre), take_app_length.
  rewrite <- !app_assoc. do 3 f_equal.
  rewrite (app_assoc hd pre), drop_app_ge by (rewrite length_app; lia).
  rewrite drop_drop. f_equal. rewrite !length_app. lia.
Qed.

Lemma chunk_write_next t cap pre src mem :
  length pre + length src <= length mem ->
  chunk_write (length pre) src (chunk_new t cap (pre ++ drop (length pre) mem))
  = Some (chunk_new t cap ((pre ++ src) ++ drop (length (pre ++ src)) mem)).
Proof.
  intros Hl. unfold chunk_write, chunk_new. cbn [head_ hash_]. osimpl.
  rewrite !(app_assoc (le_encode _ _) [_]).
  assert (Hhd : length (le_encode 4 (Z.of_nat (kMetaLength + cap)) ++ [z2b (chunktype_code t)])
                = kMetaLength) by (by rewrite length_app, length_le_encode).
  rewrite <- Hhd at 1. by rewrite memcpy_at_next.
Qed.

(** ** [class Segment], [FixedSegment], [VarSegment] *)

Inductive SegKind :=
  | FixedSegment (bytes_per_entry_ : nat)
  | VarSegment (entry_offsets_ : list nat).

(** [data_] is the memory from the segment's pointer on ([] for null). *)
Record Segment := mkSeg {
  data_ : bytes;
  num_bytes_ : nat;
  seg_kind : SegKind
}.

Definition seg_numEntries (s : Segment) : nat :=
  match seg_kind s with
  | FixedSegment k => num_bytes_ s / k
  | VarSegment offs => length offs
  end.

Definition seg_empty (s : Segment) : bool := seg_numEntries s =? 0.

(** [entry(idx)]: the pointer, as the memory from it on. *)
Definition seg_entry (s : Segment) (idx : nat) : option bytes :=
  CHECK (idx <? seg_numEntries s);;
  match seg_kind s with
  | FixedSegment k => Some (drop (idx * k) (data_ s))
  | VarSegment offs => off ← offs !! idx; Some (drop off (data_ s))
  end.

Definition seg_prolong (s : Segment) (entry_num_bytes : nat) : option Segment :=
  match seg_kind s with
  | FixedSegment k =>
      CHECK (entry_num_bytes mod k =? 0);;
      Some (mkSeg (data_ s) (num_bytes_ s + entry_num_bytes) (seg_kind s))
  | VarSegment offs =>
      Some (mkSeg (data_ s) (num_bytes_ s + entry_num_bytes)
                  (VarSegment (offs ++ [num_bytes_ s])))
  end.

Definition seg_entryNumBytes (s : Segment) (idx : nat) : option nat :=
  CHECK (idx <? seg_numEntries s);;
  match seg_kind s with
  | FixedSegment k => Some k
  | VarSegment offs =>
      off ← offs !! idx;
      next ← (if idx =? seg_numEntries s - 1 then Some (num_bytes_ s) else offs !! S idx);
      Some (next - off)
  end.

(** [std::upper_bound(offs, pos)] on a sorted vector: the position of the
    first element greater than [pos]. *)
Fixpoint upper_bound (offs : list nat) (pos : nat) : nat :=
  match offs with
  | [] => 0
  | o :: offs' => if pos <? o then 0 else S (upper_bound offs' pos)
  end.

(** [PosToIdx]: the result is a [size_t]; it wraps when the segment has no
    entry at or before [pos]. *)
Definition seg_PosToIdx (s : Segment) (pos : nat) : option Z :=
  CHECK (pos <=? num_bytes_ s);;
  match seg_kind s with
  | FixedSegment k => Some (Z.of_nat (pos / k))
  | VarSegment offs => Some (u64 (Z.of_nat (upper_bound offs pos) - 1))
  end.

Definition seg_Split (s : Segment) (idx : nat) : option (Segment * Segment) :=
  CHECK (negb (seg_empty s));;
  CHECK (idx <=? seg_numEntries s);;
  preData ← seg_entry s 0;
  postData ← (if idx <? seg_numEntries s then seg_entry s idx else Some []);
  match seg_kind s with
  | FixedSegment k =>
      let preSegBytes := k * idx in
      let postSegBytes := num_bytes_ s - preSegBytes in
      Some (mkSeg preData preSegBytes (FixedSegment k),
            mkSeg postData postSegBytes (FixedSegment k))
  | VarSegment offs =>
      preSegBytes ← (if idx <? seg_numEntries s then offs !! idx else Some (num_bytes_ s));
      let postSegBytes := num_bytes_ s - preSegBytes in
      Some (mkSeg preData preSegBytes (VarSegment (take idx offs)),
            mkSeg postData postSegBytes
                  (VarSegment ((fun o => o - preSegBytes) <$> drop idx offs)))
  end.

(** The bytes that [AppendForChunk] copies. *)
Definition seg_bytes (s : Segment) : option bytes := read_bytes 0 (num_bytes_ s) (data_ s).

(** [Segment::AppendForChunk(chunk.m_data() + seg_offset)]. *)
Definition seg_AppendForChunk (s : Segment) (seg_offset : nat) (c : Chunk) : option Chunk :=
  src ← seg_bytes s; chunk_write seg_offset src c.

(** ** The entries a segment denotes *)

Definition kind_rep (k : SegKind) (es : list bytes) : Prop :=
  match k with
  | FixedSegment n => 0 < n /\ Forall (fun e => length e = n) es
  | VarSegment offs => offs = offsets_from 0 es
  end.

Record seg_rep (s : Segment) (es : list bytes) : Prop := {
  sr_data : exists rest, data_ s = concat es ++ rest;
  sr_num : num_bytes_ s = length (concat es);
  sr_kind : kind_rep (seg_kind s) es;
  sr_ne : Forall (fun e => e <> []) es
}.

Lemma concat_fixed n es :
  Forall (fun e : bytes => length e = n) es -> length (concat es) = n * length es.
Proof. induction 1 as [|e es He _ IH]; simpl; [lia|]. rewrite length_app, IH, He. lia. Qed.

Lemma seg_rep_numEntries s es : seg_rep s es -> seg_numEntries s = length es.
Proof.
  intros [_ Hn Hk _]. unfold seg_numEntries. rewrite Hn.
  destruct (seg_kind s) as [n|offs]; simpl in Hk.
  - destruct Hk as [? Hk]. rewrite (concat_fixed _ _ Hk), Nat.mul_comm.
    apply Nat.div_mul. lia.
  - subst offs. apply length_offsets_from.
Qed.

Lemma seg_rep_empty s es : seg_rep s es -> seg_empty s = bool_decide (es = []).
Proof.
  intros H. unfold seg_empty. rewrite (seg_rep_numEntries _ _ H).
  by destruct es.
Qed.

Lemma seg_rep_bytes s es : seg_rep s es -> seg_bytes s = Some (concat es).
Proof.
  intros [[rest Hd] Hn _ _]. unfold seg_bytes. rewrite Hd, Hn.
  rewrite read_bytes_app_l, read_bytes_all by lia. done.
Qed.

(** Offset of the [idx]-th entry in either representation. *)
Lemma seg_rep_entry s es idx e :
  seg_rep s es -> es !! idx = Some e ->
  exists rest, seg_entry s idx = Some (e ++ concat (drop (S idx) es) ++ rest).
Proof.
  intros Hr He. pose proof (lookup_lt_Some _ _ _ He) as Hlt.
  pose proof Hr as [[rest Hd] Hn Hk _]. exists rest.
  unfold seg_entry. rewrite (seg_rep_numEntries _ _ Hr).
  rewrite (proj2 (Nat.ltb_lt _ _)) by lia. osimpl.
  assert (Hdrop : drop (length (concat (take idx es))) (data_ s)
                  = e ++ concat (drop (S idx) es) ++ rest).
  { rewrite Hd, (concat_lookup_split _ _ _ He), <- app_assoc, drop_app_length.
    by rewrite <- app_assoc. }
  destruct (seg_kind s) as [n|offs]; simpl in Hk.
  - destruct Hk as [? Hk]. rewrite <- Hdrop. do 2 f_equal.
    rewrite (concat_fixed n) by (by apply Forall_take). rewrite length_take. lia.
  - subst offs. rewrite offsets_from_lookup_lt by lia. osimpl. by rewrite <- Hdrop.
Qed.

Lemma offsets_from_sub k base es :
  k <= base ->
  (fun o => o - k) <$> offsets_from base es = offsets_from (base - k) es.
Proof.
  revert base. induction es as [|e es IH]; intros base Hk; [done|].
  cbn [offsets_from]. rewrite fmap_cons, IH by lia. do 2 f_equal. lia.
Qed.

Lemma offsets_from_take i base es :
  take i (offsets_from base es) = offsets_from base (take i es).
Proof.
  revert i base. induction es as [|e es IH]; intros [|i] base; simpl; [done..|].
  by rewrite IH.
Qed.

Lemma offsets_from_drop i base es :
  drop i (offsets_from base es) = offsets_from (base + length (concat (take i es))) (drop i es).
Proof.
  revert i base. induction es as [|e es IH]; intros [|i] base; simpl; try done.
  - by rewrite Nat.add_0_r.
  - rewrite IH, length_app. f_equal. lia.
Qed.

(** Splitting a segment splits its entries. *)
Lemma seg_rep_Split s es idx :
  seg_rep s es -> es <> [] -> idx <= length es ->
  exists s1 s2, seg_Split s idx = Some (s1, s2) /\
    seg_rep s1 (take idx es) /\ seg_rep s2 (drop idx es).
Proof.
  intros Hr Hne Hidx. pose proof Hr as [[rest Hd] Hn Hk Hnn].
  unfold seg_Split. rewrite (seg_rep_empty _ _ Hr), (seg_rep_numEntries _ _ Hr).
  rewrite bool_decide_false by done. rewrite (proj2 (Nat.leb_le _ _)) by lia. osimpl.
  assert (H0 : exists r0, seg_entry s 0 = Some (concat (take idx es) ++ r0)).
  { destruct es as [|e es']; [done|].
    destruct (seg_rep_entry _ _ 0 e Hr eq_refl) as [r E]. rewrite E. cbn [drop].
    rewrite app_assoc. change (e ++ concat (drop 0 es')) with (concat (e :: es')).
    exists (concat (drop idx (e :: es')) ++ r). f_equal.
    by rewrite app_assoc, <- concat_take_drop. }
  destruct H0 as [r0 ->]. osimpl.
  assert (H1 : exists r1, (if idx <? length es then seg_entry s idx else Some [])
                          = Some (concat (drop idx es) ++ r1)).
  { destruct (Nat.ltb_spec idx (length es)) as [Hlt|Hge].
    - destruct (lookup_lt_is_Some_2 es idx Hlt) as [e He].
      destruct (seg_rep_entry _ _ _ _ Hr He) as [r ->]. exists r.
      by rewrite (drop_S _ _ _ He), app_assoc.
    - rewrite drop_ge by lia. by exists []. }
  destruct H1 as [r1 ->]. osimpl.
  assert (Hlen : length (concat es) - length (concat (take idx es)) = length (concat (drop idx es))).
  { rewrite (concat_take_drop es idx) at 1. rewrite length_app. lia. }
  destruct (seg_kind s) as [n|offs]; simpl in Hk.
  - destruct Hk as [Hn0 Hk]. do 2 eexists. split; [done|].
    assert (Hpre : n * idx = length (concat (take idx es))).
    { rewrite (concat_fixed n) by (by apply Forall_take). by rewrite length_take, Nat.min_l by lia. }
    split; (constructor; [by eexists | simpl; rewrite ?Hn, ?Hpre; done | split; [done|] | ]);
      by (apply Forall_take || apply Forall_drop).
  - subst offs.
    assert (Hpre : (if idx <? length es then offsets_from 0 es !! idx else Some (num_bytes_ s))
                   = Some (length (concat (take idx es)))).
    { destruct (Nat.ltb_spec idx (length es)).
      - by rewrite offsets_from_lookup_lt by lia.
      - rewrite Hn, take_ge by lia. done. }
    rewrite Hpre. osimpl. do 2 eexists. split; [done|]. split; constructor; simpl.
    + by eexists.
    + done.
    + by rewrite offsets_from_take.
    + by apply Forall_take.
    + by eexists.
    + by rewrite Hn.
    + rewrite offsets_from_drop, offsets_from_sub by lia. f_equal. lia.
    + by apply Forall_drop.
Qed.

(** Prolonging a variable-length segment adds the entry that follows it. *)
Lemma seg_rep_prolong_var s es e rest :
  seg_rep s es -> (exists offs, seg_kind s = VarSegment offs) -> e <> [] ->
  data_ s = concat es ++ e ++ rest ->
  exists s', seg_prolong s (length e) = Some s' /\ seg_rep s' (es ++ [e]) /\
    data_ s' = data_ s /\ (exists offs, seg_kind s' = VarSegment offs).
Proof.
  intros [_ Hn Hk Hnn] [offs Ho] He Hd. unfold seg_prolong. rewrite Ho in *. simpl in Hk. subst offs.
  eexists. split; [done|]. split; [constructor; simpl|eauto].
  - exists rest. rewrite Hd, concat_app. simpl. by rewrite app_nil_r, <- app_assoc.
  - rewrite concat_app, length_app, Hn. simpl. rewrite app_nil_r. done.
  - rewrite offsets_from_app. simpl. by rewrite Hn.
  - apply Forall_app. auto.
Qed.

Lemma seg_rep_prolong_fixed s es es' n rest :
  seg_rep s es -> seg_kind s = FixedSegment n -> Forall (fun e => length e = n) es' ->
  data_ s = concat es ++ concat es' ++ rest ->
  exists s', seg_prolong s (length (concat es')) = Some s' /\ seg_rep s' (es ++ es') /\
    data_ s' = data_ s /\ seg_kind s' = FixedSegment n.
Proof.
  intros [_ Hn Hk Hnn] Ho Hes Hd. unfold seg_prolong. rewrite Ho in *.
  destruct Hk as [Hn0 Hk].
  rewrite (concat_fixed _ _ Hes), Nat.mul_comm, Nat.Div0.mod_mul. osimpl.
  eexists. split; [done|]. split; [constructor; simpl|eauto].
  - exists rest. rewrite Hd, concat_app. by rewrite <- app_assoc.
  - rewrite concat_app, length_app, Hn, (concat_fixed _ _ Hes). lia.
  - split; [done|]. by apply Forall_app.
  - apply Forall_app. split; [done|]. eapply Forall_impl; [exact Hes|].
    intros e He ->. simpl in He. lia.
Qed.

(** ** Positions *)

(** Index of the entry that contains byte [pos] of the concatenation. *)
Fixpoint entry_at (es : list bytes) (pos : nat) : nat :=
  match es with
  | [] => 0
  | e :: es' => if pos <? length e then 0 else S (entry_at es' (pos - length e))
  end.

Lemma entry_at_lt es pos : pos < length (concat es) -> entry_at es pos < length es.
Proof.
  revert pos. induction es as [|e es IH]; intros pos; simpl; [lia|].
  rewrite length_app. intros H. destruct (Nat.ltb_spec pos (length e)); [lia|].
  specialize (IH (pos - length e) ltac:(lia)). lia.
Qed.

Lemma entry_at_bounds es pos :
  pos < length (concat es) ->
  length (concat (take (entry_at es pos) es)) <= pos
  < length (concat (take (S (entry_at es pos)) es)).
Proof.
  revert pos. induction es as [|e es IH]; intros pos; simpl; [lia|].
  rewrite length_app. intros H. destruct (Nat.ltb_spec pos (length e)).
  - simpl. rewrite app_nil_r. lia.
  - specialize (IH (pos - length e) ltac:(lia)). simpl in *. rewrite !length_app. lia.
Qed.

Lemma upper_bound_offsets es base pos :
  Forall (fun e => e <> []) es -> base <= pos < base + length (concat es) ->
  upper_bound (offsets_from base es) pos = S (entry_at es (pos - base)).
Proof.
  revert base. induction es as [|e es IH]; intros base Hne Hp; simpl in *; [lia|].
  rewrite length_app in Hp. apply Forall_cons in Hne as [He Hne].
  destruct (Nat.ltb_spec pos base); [lia|]. f_equal.
  destruct (Nat.ltb_spec (pos - base) (length e)) as [Hlt|Hge].
  - destruct es as [|e' es']; simpl; [done|].
    by rewrite (proj2 (Nat.ltb_lt _ _)) by lia.
  - rewrite IH by (done || lia). do 2 f_equal. lia.
Qed.

Lemma seg_rep_PosToIdx s es pos :
  seg_rep s es -> pos < num_bytes_ s -> (Z.of_nat (length es) < 2 ^ 64)%Z ->
  seg_PosToIdx s pos = Some (Z.of_nat (entry_at es pos)).
Proof.
  intros Hr Hp Hes. pose proof Hr as [_ Hn Hk Hne]. rewrite Hn in Hp.
  unfold seg_PosToIdx. rewrite (proj2 (Nat.leb_le _ _)) by lia. osimpl.
  pose proof (entry_at_lt _ _ Hp) as Hlt.
  destruct (seg_kind s) as [n|offs]; simpl in Hk.
  - destruct Hk as [Hn0 Hk]. do 2 f_equal.
    pose proof (entry_at_bounds _ _ Hp) as Hb.
    rewrite !(concat_fixed n), !length_take in Hb by (by apply Forall_take).
    symmetry. apply (Nat.div_unique pos n _ (pos - n * entry_at es pos)); nia.
  - subst offs. rewrite upper_bound_offsets by (done || lia).
    rewrite Nat.sub_0_r, (wrap_small 64) by lia. f_equal. lia.
Qed.
