(* ===== verification/Node.v ===== *)
(** * Tree nodes: [include/node/node.h], [src/node/node.cc] and
      [src/node/{blob,list,map,set,meta}_node.cc]

    The byte layouts of the nodes of a POS-tree (pattern-oriented-split tree)
    and the accessors that the rest of the system reads them with.  All node
    kinds but blobs share one layout: a [uint32_t] count followed by entries
    that start with their own size; [node_rep] relates a parsed node to its
    list of entries. *)

From S2P Require Import Prelude Types Slice HashVal Chunk.

(** ** Indeterminate memory

    What [new byte_t[n]] and default-initialised members hold is unspecified;
    the definitions that allocate take it as a parameter. *)
Class Uninit := {
  fresh : nat -> bytes;
  fresh_length : forall n, length (fresh n) = n;
  junk_flag : bool;
  junk_u64 : Z;
  junk_u64_range : (0 <= junk_u64 < 2 ^ 64)%Z
}.

#[export] Hint Rewrite @fresh_length : ubytes.

(** Zeroed memory, for witnesses. *)
Definition zeroed : Uninit :=
  {| fresh n := replicate n x00; fresh_length n := length_replicate n x00;
     junk_flag := false; junk_u64 := 0; junk_u64_range := ltac:(lia) |}.

(** ** [class MetaEntry] *)

Definition kNumLeavesOffset : nat := 4.
Definition kNumElementsOffset : nat := 8.
Definition kHashOffset : nat := 16.
Definition kKeyOffset : nat := kHashOffset + kByteLength.

(** [MetaEntry::Encode]: the size is a [uint32_t]; a key for which it would
    overflow makes the writes leave the buffer, hence no result. *)
Definition me_Encode (num_leaves num_elements : Z) (data_hash : Hash) (key : OrderedKey) :
  option bytes :=
  let num_bytes := kKeyOffset + 1 + key_numBytes key in
  if decide (Z.of_nat num_bytes < 2 ^ 32)%Z then
    v ← data_hash; h ← read_bytes 0 kByteLength v;
    Some (le_encode 4 (Z.of_nat num_bytes) ++ le_encode 4 num_leaves
          ++ le_encode 8 num_elements ++ h
          ++ [if by_value_ key then x01 else x00] ++ key_Encode key)
  else None.

Definition me_numBytes (d : bytes) : option nat := Z.to_nat <$> read_u32 0 d.
Definition me_numLeaves (d : bytes) : option Z := read_u32 kNumLeavesOffset d.
Definition me_numElements (d : bytes) : option Z := read_u64 kNumElementsOffset d.
Definition me_targetHash (d : bytes) : option Hash :=
  Some <$> read_bytes kHashOffset kByteLength d.

(** [MetaEntry::orderedKey]: the bytes after the [by_value] flag.  If the entry says
    that it is shorter, the length of the key wraps around and reaches beyond the
    chunk. *)
Definition me_orderedKey (d : bytes) : option OrderedKey :=
  n ← me_numBytes d;
  flag ← read_u8 kKeyOffset d;
  if n <? kKeyOffset + 1 then None else
  OrderedKey_make (negb (flag =? 0)%Z) (drop (kKeyOffset + 1) d) (n - kKeyOffset - 1).

(** What one meta entry denotes. *)
Record MetaInfo := mkMI {
  mi_leaves : Z;
  mi_elements : Z;
  mi_hash : bytes;
  mi_key : OrderedKey
}.

Definition mi_ok (m : MetaInfo) : Prop :=
  (0 <= mi_leaves m < 2 ^ 32)%Z /\ (0 <= mi_elements m < 2 ^ 64)%Z /\
  length (mi_hash m) = kByteLength /\
  (by_value_ (mi_key m) = true -> (0 <= value_ (mi_key m) < 2 ^ 64)%Z) /\
  (Z.of_nat (kKeyOffset + 1 + key_numBytes (mi_key m)) < 2 ^ 32)%Z.

Definition mi_bytes (m : MetaInfo) : bytes :=
  le_encode 4 (Z.of_nat (kKeyOffset + 1 + key_numBytes (mi_key m)))
  ++ le_encode 4 (mi_leaves m) ++ le_encode 8 (mi_elements m) ++ mi_hash m
  ++ [if by_value_ (mi_key m) then x01 else x00] ++ key_Encode (mi_key m).

(** Two keys that no comparison tells apart. *)
Definition key_sim (k k' : OrderedKey) : Prop :=
  by_value_ k' = by_value_ k /\ key_Encode k' = key_Encode k /\
  (if by_value_ k then value_ k' = value_ k else slice_ k' = slice_ k).

Lemma key_sim_lt a a' b b' :
  key_sim a a' -> key_sim b b' -> key_lt a' b' = key_lt a b.
Proof.
  intros (Ha & _ & Ha') (Hb & _ & Hb'). unfold key_lt. rewrite Ha, Hb.
  destruct (by_value_ a), (by_value_ b); simpl; congruence.
Qed.

Lemma key_sim_eq a a' b b' :
  key_sim a a' -> key_sim b b' -> key_eq a' b' = key_eq a b.
Proof.
  intros (Ha & _ & Ha') (Hb & _ & Hb'). unfold key_eq. rewrite Ha, Hb.
  destruct (by_value_ a), (by_value_ b); simpl; congruence.
Qed.

Lemma key_sim_le a a' b b' :
  key_sim a a' -> key_sim b b' -> key_le a' b' = key_le a b.
Proof.
  intros Ha Hb. unfold key_le. by rewrite (key_sim_lt _ _ _ _ Ha Hb), (key_sim_eq _ _ _ _ Ha Hb).
Qed.

Lemma key_sim_refl k : key_sim k k.
Proof. unfold key_sim. by destruct (by_value_ k). Qed.

Lemma key_sim_trans a b c : key_sim a b -> key_sim b c -> key_sim a c.
Proof.
  unfold key_sim. intros (H1 & H2 & H3) (H4 & H5 & H6). rewrite H1 in *.
  split_and!; [congruence..|]. destruct (by_value_ a); congruence.
Qed.

Lemma length_mi_bytes m :
  length (mi_hash m) = kByteLength ->
  length (mi_bytes m) = kKeyOffset + 1 + key_numBytes (mi_key m).
Proof.
  intros Hh. unfold mi_bytes, kKeyOffset, kHashOffset.
  rewrite !length_app, !length_le_encode, length_key_Encode, Hh. simpl. lia.
Qed.

Lemma me_Encode_bytes m :
  mi_ok m ->
  me_Encode (mi_leaves m) (mi_elements m) (Some (mi_hash m)) (mi_key m) = Some (mi_bytes m).
Proof.
  intros (_ & _ & Hh & _ & Hn). unfold me_Encode. rewrite decide_True by done. osimpl.
  rewrite <- Hh, read_bytes_all. done.
Qed.

(** Decoding a meta entry that is followed by other data. *)
Lemma mi_decode m rest :
  mi_ok m ->
  let d := mi_bytes m ++ rest in
  me_numBytes d = Some (length (mi_bytes m)) /\
  me_numLeaves d = Some (mi_leaves m) /\
  me_numElements d = Some (mi_elements m) /\
  me_targetHash d = Some (Some (mi_hash m)) /\
  exists k, me_orderedKey d = Some k /\ key_sim (mi_key m) k.
Proof.
  intros (Hl & He & Hh & Hk & Hn) d.
  set (n := Z.of_nat (kKeyOffset + 1 + key_numBytes (mi_key m))) in *.
  assert (Hnb : me_numBytes d = Some (length (mi_bytes m))).
  { unfold me_numBytes, d, mi_bytes. rewrite <- app_assoc, read_u_here. osimpl.
    fold n. rewrite Z.mod_small by (split; [lia|exact Hn]). subst n.
    fold (mi_bytes m). rewrite length_mi_bytes by done. f_equal. lia. }
  split_and!; [done|..].
  - unfold me_numLeaves, d, mi_bytes. rewrite <- !app_assoc.
    rewrite (read_u_app 4) by apply length_le_encode. f_equal. by apply Z.mod_small.
  - unfold me_numElements, d, mi_bytes. rewrite <- !app_assoc.
    rewrite (app_assoc (le_encode 4 _)), (read_u_app 8)
      by (by rewrite length_app, !length_le_encode). f_equal. by apply Z.mod_small.
  - unfold me_targetHash, d, mi_bytes. rewrite <- !app_assoc.
    rewrite (app_assoc (le_encode 4 _)), (app_assoc (le_encode 4 _ ++ _)).
    rewrite read_bytes_app; [done|by rewrite !length_app, !length_le_encode|done].
  - unfold me_orderedKey. rewrite Hnb. osimpl.
    set (pre := le_encode 4 n ++ le_encode 4 (mi_leaves m)
                ++ le_encode 8 (mi_elements m) ++ mi_hash m).
    assert (Hpre : length pre = kKeyOffset).
    { subst pre. rewrite !length_app, !length_le_encode, Hh. done. }
    assert (Hd : d = pre ++ le_encode 1 (if by_value_ (mi_key m) then 1 else 0)
                       ++ key_Encode (mi_key m) ++ rest).
    { subst d pre. unfold mi_bytes. fold n. rewrite <- !app_assoc. do 4 f_equal.
      by destruct (by_value_ (mi_key m)). }
    rewrite Hd, read_u_app by done. osimpl.
    rewrite (app_assoc pre), drop_app_ge by (rewrite length_app, Hpre; reflexivity).
    rewrite length_app, Hpre. cbn [length]. rewrite length_le_encode, Nat.sub_diag, drop_0.
    rewrite length_mi_bytes by done. rewrite (proj2 (Nat.ltb_ge _ _)) by lia.
    replace (kKeyOffset + 1 + key_numBytes (mi_key m) - kKeyOffset - 1)
      with (key_numBytes (mi_key m)) by lia.
    destruct (key_decode_encode (mi_key m) rest Hk) as (k & Hmk & Hsim).
    exists k. split; [|exact Hsim]. rewrite <- Hmk. f_equal.
    by destruct (by_value_ (mi_key m)).
Qed.

(** ** Entry layouts of the leaf nodes *)

(** An entry with its size in front. *)
Definition sized (body : bytes) : bytes :=
  le_encode 4 (Z.of_nat (4 + length body)) ++ body.

Record KVItem := mkKV { kv_key : Slice; kv_val : Slice }.

(** [MapNode::key], [MapNode::value]: the pointer and the size. *)
Definition map_key (entry : bytes) : option (bytes * nat) :=
  key_size ← read_u32 4 entry;
  Some (drop 8 entry, Z.to_nat key_size).

Definition map_value (entry : bytes) : option (bytes * nat) :=
  entry_size ← read_u32 0 entry;
  key_size ← read_u32 4 entry;
  let value_offset := (8 + key_size)%Z in
  Some (drop (Z.to_nat value_offset) entry, Z.to_nat (u64 (entry_size - value_offset))).

(** [MapNode::kvitem]: the item, as two pointers with their sizes, and
    [item_num_bytes]. *)
Definition map_kvitem (entry : bytes) : option ((bytes * nat) * (bytes * nat) * nat) :=
  k ← map_key entry;
  v ← map_value entry;
  Some (k, v, Z.to_nat (u64 (Z.of_nat (4 + 4 + snd k + snd v)))).

Definition map_orderedKey (entry : bytes) : option OrderedKey :=
  k ← map_key entry; OrderedKey_make false (fst k) (snd k).

(** [MapNode::Encode(buffer, kv_item)]: the bytes written. *)
Definition map_EncodeNumBytes (kv : KVItem) : nat := 4 + 4 + len (kv_key kv) + len (kv_val kv).

Definition map_Encode1 (kv : KVItem) : bytes :=
  le_encode 4 (Z.of_nat (map_EncodeNumBytes kv))
  ++ le_encode 4 (Z.of_nat (len (kv_key kv))) ++ kv_key kv ++ kv_val kv.

(** [SetNode::key], [SetNode::item], [SetNode::orderedKey]. *)
Definition set_key (entry : bytes) : option (bytes * nat) :=
  n ← read_u32 0 entry;
  Some (drop 4 entry, Z.to_nat (u64 (n - 4))).

Definition set_item (entry : bytes) : option ((bytes * nat) * nat) :=
  k ← set_key entry; Some (k, Z.to_nat (u64 (Z.of_nat (4 + snd k)))).

Definition set_orderedKey (entry : bytes) : option OrderedKey :=
  k ← set_key entry; OrderedKey_make false (fst k) (snd k).

Definition set_EncodeNumBytes (item : Slice) : nat := 4 + len item.

Definition set_Encode1 (item : Slice) : bytes :=
  le_encode 4 (Z.of_nat (set_EncodeNumBytes item)) ++ item.

(** [ListNode::Decode]. *)
Definition list_Decode (data : bytes) : option Slice :=
  n ← read_u32 0 data; read_bytes 4 (Z.to_nat (u64 (n - 4))) data.

(** The checks [preKey < currKey] of [MapNode::Encode] and [SetNode::Encode]
    over the items after the first. *)
Fixpoint check_increasing (preKey : OrderedKey) (keys : list Slice) : option unit :=
  match keys with
  | [] => Some tt
  | k :: keys' =>
      lt ← key_lt preKey (FromSlice k);
      CHECK lt;;
      check_increasing (FromSlice k) keys'
  end.

(** The segment made of a list of encoded entries in a fresh buffer. *)
Definition segment_of (es : list bytes) : Segment :=
  mkSeg (concat es) (length (concat es)) (VarSegment (offsets_from 0 es)).

(** [MapNode::Encode(items)]: the items must be strictly increasing. *)
Definition map_Encode (items : list KVItem) : option Segment :=
  match items with
  | [] => LOG_FATAL
  | it :: items' =>
      check_increasing (FromSlice (kv_key it)) (kv_key <$> items');;
      Some (segment_of (map_Encode1 <$> items))
  end.

(** [SetNode::Encode(items)]. *)
Definition set_Encode (items : list Slice) : option Segment :=
  match items with
  | [] => LOG_FATAL
  | it :: items' =>
      check_increasing (FromSlice it) items';;
      Some (segment_of (set_Encode1 <$> items))
  end.

(** [ListNode::Encode(elements)]. *)
Definition list_Encode1 (element : Slice) : bytes :=
  le_encode 4 (Z.of_nat (len element + 4)) ++ element.

Definition list_Encode (elements : list Slice) : Segment :=
  segment_of (list_Encode1 <$> elements).

(** ** [class SeqNode] and its subclasses *)

Inductive NodeKind := KMeta | KBlob | KMap | KSet | KList.

#[export] Instance NodeKind_eq_dec : EqDecision NodeKind.
Proof. solve_decision. Defined.

Record SeqNode := mkNode {
  node_kind : NodeKind;
  chunk_ : Chunk;
  offsets_ : list nat       (* not used by blobs *)
}.

Definition kind_type (k : NodeKind) : ChunkType :=
  match k with
  | KMeta => kMeta
  | KBlob => kBlob
  | KMap => kMap
  | KSet => kSet
  | KList => kList
  end.

(** *** Construction: [PrecomputeOffsets] of each class

    [walk n off d size] pushes the offset of [n] entries, each [size] bytes
    after the previous one. *)
Fixpoint walk (n off : nat) (d : bytes) (size : bytes -> option nat) : option (list nat) :=
  match n with
  | O => Some []
  | S n' =>
      sz ← size (drop off d);
      rest ← walk n' (off + sz) d size;
      Some (off :: rest)
  end.

(** The same walk with the check that keys increase ([MapNode], [SetNode]). *)
Fixpoint walk_ordered (n off : nat) (d : bytes) (size : bytes -> option nat)
    (okey : bytes -> option OrderedKey) (preKey : option OrderedKey) : option (list nat) :=
  match n with
  | O => Some []
  | S n' =>
      sz ← size (drop off d);
      currKey ← okey (drop off d);
      match preKey with
      | None => Some tt
      | Some pre => lt ← key_lt pre currKey; CHECK lt
      end;;
      rest ← walk_ordered n' (off + sz) d size okey (Some currKey);
      Some (off :: rest)
  end.

(** [numEntries] of the four classes with a count in front. *)
Definition sized_numEntries (c : Chunk) : option nat :=
  d ← chunk_data c; Z.to_nat <$> read_u32 0 d.

Definition MetaNode_PrecomputeOffset (c : Chunk) : option (list nat) :=
  d ← chunk_data c; n ← sized_numEntries c; walk n 4 d me_numBytes.

Definition ListNode_PrecomputeOffsets (c : Chunk) : option (list nat) :=
  d ← chunk_data c; n ← sized_numEntries c;
  walk n 4 d (fun e => Z.to_nat <$> read_u32 0 e).

Definition MapNode_PrecomputeOffsets (c : Chunk) : option (list nat) :=
  d ← chunk_data c; n ← sized_numEntries c;
  walk_ordered n 4 d (fun e => snd <$> map_kvitem e) map_orderedKey None.

Definition SetNode_PrecomputeOffsets (c : Chunk) : option (list nat) :=
  d ← chunk_data c; n ← sized_numEntries c;
  walk_ordered n 4 d (fun e => snd <$> set_item e) set_orderedKey None.

(** [SeqNode::CreateFromChunk]. *)
Definition CreateFromChunk (c : Chunk) : option SeqNode :=
  t ← chunk_type c;
  match t with
  | kMeta => o ← MetaNode_PrecomputeOffset c; Some (mkNode KMeta c o)
  | kBlob => Some (mkNode KBlob c [])
  | kMap => o ← MapNode_PrecomputeOffsets c; Some (mkNode KMap c o)
  | kSet => o ← SetNode_PrecomputeOffsets c; Some (mkNode KSet c o)
  | kList => o ← ListNode_PrecomputeOffsets c; Some (mkNode KList c o)
  | _ => LOG_FATAL
  end.

Definition isLeaf (n : SeqNode) : bool := negb (bool_decide (node_kind n = KMeta)).

Definition numEntries (n : SeqNode) : option nat :=
  match node_kind n with
  | KBlob => chunk_capacity (chunk_ n)
  | _ => sized_numEntries (chunk_ n)
  end.

(** *** Access to one entry *)

(** [MetaNode::entryOffset] and the offset lookup of [MapNode::data],
    [SetNode::data] and [ListNode::data]. *)
Definition entryOffset (n : SeqNode) (idx : nat) : option nat :=
  ne ← sized_numEntries (chunk_ n);
  CHECK (idx <? ne);;
  offsets_ n !! idx.

(** [data(idx)]: the pointer, as the memory from it on. *)
Definition node_data (n : SeqNode) (idx : nat) : option bytes :=
  d ← chunk_data (chunk_ n);
  match node_kind n with
  | KBlob => Some (drop idx d)
  | _ => off ← entryOffset n idx; Some (drop off d)
  end.

Definition MetaNode_len (n : SeqNode) (idx : nat) : option nat :=
  d ← chunk_data (chunk_ n);
  off ← entryOffset n idx;
  me_numBytes (drop off d).

(** [len] of [MapNode], [SetNode] and [ListNode]: the distance to the next
    offset, or to the end of the chunk for the last entry. *)
Definition LeafNode_len (n : SeqNode) (idx : nat) : option nat :=
  ne ← sized_numEntries (chunk_ n);
  preOffset ← (if idx =? ne - 1 then chunk_capacity (chunk_ n) else offsets_ n !! S idx);
  off ← offsets_ n !! idx;
  Some (Z.to_nat (u64 (Z.of_nat preOffset - Z.of_nat off))).

Definition MapNode_len (n : SeqNode) (idx : nat) : option nat := LeafNode_len n idx.
Definition SetNode_len (n : SeqNode) (idx : nat) : option nat := LeafNode_len n idx.
Definition ListNode_len (n : SeqNode) (idx : nat) : option nat := LeafNode_len n idx.

Definition node_len (n : SeqNode) (idx : nat) : option nat :=
  match node_kind n with
  | KMeta => MetaNode_len n idx
  | KBlob => Some 1
  | KMap => MapNode_len n idx
  | KSet => SetNode_len n idx
  | KList => ListNode_len n idx
  end.

(** The key of an entry, by the kind of node that holds it. *)
Definition entry_key (k : NodeKind) (entry : bytes) : option OrderedKey :=
  match k with
  | KMeta => me_orderedKey entry
  | KMap => map_orderedKey entry
  | KSet => set_orderedKey entry
  | KBlob | KList => LOG_FATAL
  end.

(** [key(idx)]. *)
Definition node_key (n : SeqNode) (idx : nat) : option OrderedKey :=
  match node_kind n with
  | KBlob | KList => LOG_FATAL
  | k => d ← node_data n idx; entry_key k d
  end.

(** *** [GetSegment] *)

(** The loop that collects the lengths of [cnt] entries. *)
Fixpoint seg_offsets (n : SeqNode) (i cnt num_bytes : nat) : option (list nat * nat) :=
  match cnt with
  | O => Some ([], num_bytes)
  | S cnt' =>
      l ← node_len n i;
      r ← seg_offsets n (S i) cnt' (num_bytes + l);
      Some (num_bytes :: fst r, snd r)
  end.

Definition BlobNode_GetSegment (n : SeqNode) (start num_elements : nat) : option Segment :=
  ne ← numEntries n;
  CHECK (start + num_elements <=? ne);;
  d ← node_data n start;
  Some (mkSeg d num_elements (FixedSegment 1)).

(** The four classes with entries of variable length have the same code, each
    with its own [len] and [data]. *)
Definition VarNode_GetSegment (n : SeqNode) (start num_elements : nat) : option Segment :=
  ne ← numEntries n;
  CHECK (start <? ne);;
  d ← node_data n start;
  if num_elements =? 0 then Some (mkSeg d 0 (VarSegment []))
  else
    CHECK (start + num_elements <=? ne);;
    r ← seg_offsets n start num_elements 0;
    Some (mkSeg d (snd r) (VarSegment (fst r))).

Definition MetaNode_GetSegment (n : SeqNode) (start num_elements : nat) : option Segment :=
  VarNode_GetSegment n start num_elements.
Definition MapNode_GetSegment (n : SeqNode) (start num_elements : nat) : option Segment :=
  VarNode_GetSegment n start num_elements.
Definition SetNode_GetSegment (n : SeqNode) (start num_elements : nat) : option Segment :=
  VarNode_GetSegment n start num_elements.
Definition ListNode_GetSegment (n : SeqNode) (start num_elements : nat) : option Segment :=
  VarNode_GetSegment n start num_elements.

Definition GetSegment (n : SeqNode) (start num_elements : nat) : option Segment :=
  match node_kind n with
  | KBlob => BlobNode_GetSegment n start num_elements
  | KMeta => MetaNode_GetSegment n start num_elements
  | KMap => MapNode_GetSegment n start num_elements
  | KSet => SetNode_GetSegment n start num_elements
  | KList => ListNode_GetSegment n start num_elements
  end.

(** *** [MetaNode] *)

(** [numElementsUntilEntry]: walks the entries by their sizes; the sum is a
    [uint64_t]. *)
Fixpoint sum_elements (n off : nat) (d : bytes) (total : Z) : option Z :=
  match n with
  | O => Some total
  | S n' =>
      e ← me_numElements (drop off d);
      sz ← me_numBytes (drop off d);
      sum_elements n' (off + sz) d (u64 (total + e))
  end.

Definition numElementsUntilEntry (n : SeqNode) (entry_idx : nat) : option Z :=
  ne ← numEntries n;
  CHECK (entry_idx <=? ne);;
  d ← chunk_data (chunk_ n);
  sum_elements entry_idx 4 d 0%Z.

Definition numElements (n : SeqNode) : option Z :=
  ne ← numEntries n;
  if isLeaf n then Some (Z.of_nat ne) else numElementsUntilEntry n ne.

(** [MetaNode::numLeaves]: a [uint32_t] sum. *)
Fixpoint sum_leaves (d : bytes) (offs : list nat) (total : Z) : option Z :=
  match offs with
  | [] => Some total
  | off :: offs' =>
      l ← me_numLeaves (drop off d);
      sum_leaves d offs' (u32 (total + l))
  end.

Definition numLeaves (n : SeqNode) : option Z :=
  if isLeaf n then Some 1%Z
  else
    ne ← numEntries n;
    d ← chunk_data (chunk_ n);
    offs ← mapM (entryOffset n) (seq 0 ne);
    sum_leaves d offs 0%Z.

(** [GetChildHashByIndex]: the hash and [*entry_idx]. *)
Fixpoint child_by_index (fuel i off : nat) (d : bytes) (total element_idx : Z) :
  option (Hash * nat) :=
  match fuel with
  | O => Some (None, i)
  | S fuel' =>
      e ← me_numElements (drop off d);
      let total' := u64 (total + e) in
      if (element_idx <? total')%Z then h ← me_targetHash (drop off d); Some (h, i)
      else
        sz ← me_numBytes (drop off d);
        child_by_index fuel' (S i) (off + sz) d total' element_idx
  end.

Definition GetChildHashByIndex (n : SeqNode) (element_idx : Z) : option (Hash * nat) :=
  ne ← numEntries n;
  CHECK (0 <? ne);;
  d ← chunk_data (chunk_ n);
  child_by_index ne 0 4 d 0%Z element_idx.

Definition GetChildHashByEntry (n : SeqNode) (entry_idx : nat) : option Hash :=
  ne ← numEntries n;
  CHECK (entry_idx <? ne);;
  d ← chunk_data (chunk_ n);
  off ← entryOffset n entry_idx;
  me_targetHash (drop off d).

(** [GetChildHashByKey]. *)
Fixpoint child_by_key (fuel i off : nat) (d : bytes) (key : OrderedKey) :
  option (Hash * nat) :=
  match fuel with
  | O => Some (None, i)
  | S fuel' =>
      k ← me_orderedKey (drop off d);
      le ← key_le key k;
      if le : bool then h ← me_targetHash (drop off d); Some (h, i)
      else
        sz ← me_numBytes (drop off d);
        child_by_key fuel' (S i) (off + sz) d key
  end.

Definition GetChildHashByKey (n : SeqNode) (key : OrderedKey) : option (Hash * nat) :=
  ne ← numEntries n;
  CHECK (0 <? ne);;
  d ← chunk_data (chunk_ n);
  child_by_key ne 0 4 d key.

(** [FindIndexForKey] of [MapNode] and [SetNode]. *)
Fixpoint find_key (offs : list nat) (d : bytes) (okey : bytes -> option OrderedKey)
    (key : OrderedKey) (idx : nat) : option nat :=
  match offs with
  | [] => Some idx
  | off :: offs' =>
      currKey ← okey (drop off d);
      eq ← key_eq currKey key;
      if eq : bool then Some idx
      else
        gt ← key_gt currKey key;
        if gt : bool then Some idx else find_key offs' d okey key (S idx)
  end.

Definition MapNode_FindIndexForKey (n : SeqNode) (key : OrderedKey) : option nat :=
  d ← chunk_data (chunk_ n);
  find_key (offsets_ n) d map_orderedKey key 0.

Definition SetNode_FindIndexForKey (n : SeqNode) (key : OrderedKey) : option nat :=
  d ← chunk_data (chunk_ n);
  find_key (offsets_ n) d set_orderedKey key 0.

Definition LeafNode_FindIndexForKey (n : SeqNode) (key : OrderedKey) : option nat :=
  match node_kind n with
  | KMap => MapNode_FindIndexForKey n key
  | KSet => SetNode_FindIndexForKey n key
  | _ => LOG_FATAL
  end.

(** [BlobNode::Copy]: the bytes copied to the buffer. *)
Definition BlobNode_Copy (n : SeqNode) (start num_bytes : nat) : option bytes :=
  ne ← numElements n;
  d ← chunk_data (chunk_ n);
  let len := if decide (ne < Z.of_nat (start + num_bytes))%Z
             then Z.to_nat (u64 (ne - Z.of_nat start)) else num_bytes in
  read_bytes start len d.

(** ** What a node denotes: the list of its entries *)

Definition entry_ok (k : NodeKind) (e : bytes) : Prop :=
  match k with
  | KMeta => exists m, mi_ok m /\ e = mi_bytes m
  | KBlob => length e = 1
  | KMap => exists kv, e = map_Encode1 kv /\ (Z.of_nat (map_EncodeNumBytes kv) < 2 ^ 32)%Z
  | KSet => exists s, e = set_Encode1 s /\ (Z.of_nat (set_EncodeNumBytes s) < 2 ^ 32)%Z
  | KList => exists s, e = list_Encode1 s /\ (Z.of_nat (len s + 4) < 2 ^ 32)%Z
  end.

Definition node_payload (k : NodeKind) (es : list bytes) : bytes :=
  match k with
  | KBlob => concat es
  | _ => le_encode 4 (Z.of_nat (length es)) ++ concat es
  end.

(** Consecutive entries have keys related by [rel]. *)
Fixpoint ordered_from (rel : OrderedKey -> OrderedKey -> option bool)
    (okey : bytes -> option OrderedKey) (pre : option OrderedKey) (es : list bytes) : Prop :=
  match es with
  | [] => True
  | e :: es' =>
      exists key, okey e = Some key /\
        match pre with None => True | Some p => rel p key = Some true end /\
        ordered_from rel okey (Some key) es'
  end.

(** The order of the entries that each kind of node requires. *)
Definition entries_ordered (k : NodeKind) (pre : option OrderedKey) (es : list bytes) : Prop :=
  match k with
  | KMeta => ordered_from key_le me_orderedKey pre es
  | KMap => ordered_from key_lt map_orderedKey pre es
  | KSet => ordered_from key_lt set_orderedKey pre es
  | KBlob | KList => True
  end.

Record entries_ok (k : NodeKind) (es : list bytes) : Prop := {
  eo_entries : Forall (entry_ok k) es;
  eo_ordered : entries_ordered k None es
}.

Record node_rep `{HashFunction} (n : SeqNode) (k : NodeKind) (es : list bytes) : Prop := {
  nr_kind : node_kind n = k;
  nr_chunk : chunk_rep (chunk_ n) (kind_type k) (node_payload k es);
  nr_entries : Forall (entry_ok k) es;
  nr_offs : offsets_ n = match k with KBlob => [] | _ => offsets_from 4 es end
}.

(** *** Entries *)

Lemma length_map_Encode1 kv : length (map_Encode1 kv) = map_EncodeNumBytes kv.
Proof. unfold map_Encode1, map_EncodeNumBytes, len. rewrite !length_app, !length_le_encode. lia. Qed.

Lemma length_set_Encode1 s : length (set_Encode1 s) = set_EncodeNumBytes s.
Proof. unfold set_Encode1, set_EncodeNumBytes, len. rewrite length_app, length_le_encode. lia. Qed.

Lemma length_list_Encode1 s : length (list_Encode1 s) = len s + 4.
Proof. unfold list_Encode1, len. rewrite length_app, length_le_encode. lia. Qed.

(** Every entry but a blob's starts with its own size. *)
Lemma entry_sized k e :
  k <> KBlob -> entry_ok k e ->
  exists body, e = le_encode 4 (Z.of_nat (length e)) ++ body /\ (Z.of_nat (length e) < 2 ^ 32)%Z.
Proof.
  intros Hk He. destruct k; simpl in He; try done.
  - destruct He as (m & Hm & ->). pose proof Hm as (_ & _ & Hh & _ & Hn).
    rewrite length_mi_bytes by done. unfold mi_bytes. eauto.
  - destruct He as (kv & -> & Hn). rewrite length_map_Encode1. unfold map_Encode1. eauto.
  - destruct He as (s & -> & Hn). rewrite length_set_Encode1. unfold set_Encode1. eauto.
  - destruct He as (s & -> & Hn). rewrite length_list_Encode1. unfold list_Encode1. eauto.
Qed.

Lemma entry_ok_length k e : entry_ok k e -> 0 < length e.
Proof.
  intros He. destruct (decide (k = KBlob)) as [->|Hk]; [simpl in He; lia|].
  destruct (entry_sized _ _ Hk He) as (body & E & _). rewrite E.
  rewrite length_app, length_le_encode. lia.
Qed.

Lemma entries_ne k es : Forall (entry_ok k) es -> Forall (fun e => e <> []) es.
Proof.
  intros H. eapply Forall_impl; [exact H|]. intros e He%entry_ok_length ->. simpl in He. lia.
Qed.

Lemma length_le_concat k es : Forall (entry_ok k) es -> length es <= length (concat es).
Proof.
  induction 1 as [|e es He _ IH]; simpl; [lia|]. apply entry_ok_length in He.
  rewrite length_app. lia.
Qed.

Lemma entry_size k e rest :
  k <> KBlob -> entry_ok k e -> read_u32 0 (e ++ rest) = Some (Z.of_nat (length e)).
Proof.
  intros Hk He. destruct (entry_sized _ _ Hk He) as (body & E & Hn).
  rewrite E at 1. rewrite <- app_assoc, read_u_here. f_equal. apply Z.mod_small. split; [lia|exact Hn].
Qed.

Lemma map_entry_decode kv rest :
  (Z.of_nat (map_EncodeNumBytes kv) < 2 ^ 32)%Z ->
  map_key (map_Encode1 kv ++ rest) = Some (kv_key kv ++ kv_val kv ++ rest, len (kv_key kv)) /\
  map_value (map_Encode1 kv ++ rest) = Some (kv_val kv ++ rest, len (kv_val kv)).
Proof.
  intros Hn. unfold map_EncodeNumBytes in Hn.
  set (hd := le_encode 4 (Z.of_nat (map_EncodeNumBytes kv))).
  set (hk := le_encode 4 (Z.of_nat (len (kv_key kv)))).
  assert (E : map_Encode1 kv ++ rest = hd ++ hk ++ kv_key kv ++ kv_val kv ++ rest).
  { unfold map_Encode1. by rewrite <- !app_assoc. }
  assert (Hhd : length hd = 4) by apply length_le_encode.
  assert (Hhk : length hk = 4) by apply length_le_encode.
  assert (Hk4 : read_u32 4 (map_Encode1 kv ++ rest) = Some (Z.of_nat (len (kv_key kv)))).
  { rewrite E. subst hk. rewrite read_u_app by done. f_equal. apply Z.mod_small.
    split; [lia|]. change (256 ^ Z.of_nat 4)%Z with (2 ^ 32)%Z. lia. }
  split.
  - unfold map_key. rewrite Hk4. osimpl. rewrite Nat2Z.id, E, app_assoc.
    by rewrite drop_app_ge, length_app, Hhd, Hhk by (rewrite length_app; lia).
  - unfold map_value. rewrite Hk4, (entry_size KMap) by (done || by exists kv). osimpl.
    rewrite length_map_Encode1. unfold map_EncodeNumBytes. f_equal. f_equal.
    + rewrite E, (app_assoc hd), (app_assoc (hd ++ hk)).
      rewrite drop_app_ge by (rewrite !length_app; unfold len in *; lia).
      rewrite !length_app, Hhd, Hhk. unfold len.
      replace (_ - _) with 0 by lia. done.
    + rewrite (wrap_small 64); [lia|]. change (2 ^ 64)%Z with (2 ^ 32 * 2 ^ 32)%Z. lia.
Qed.

Lemma map_orderedKey_entry kv rest :
  (Z.of_nat (map_EncodeNumBytes kv) < 2 ^ 32)%Z ->
  map_orderedKey (map_Encode1 kv ++ rest) = Some (FromSlice (kv_key kv)).
Proof.
  intros Hn. unfold map_orderedKey. rewrite (proj1 (map_entry_decode kv rest Hn)). osimpl.
  by eapply OrderedKey_make_slice.
Qed.

Lemma map_kvitem_size kv rest :
  (Z.of_nat (map_EncodeNumBytes kv) < 2 ^ 32)%Z ->
  snd <$> map_kvitem (map_Encode1 kv ++ rest) = Some (length (map_Encode1 kv)).
Proof.
  intros Hn. unfold map_kvitem. destruct (map_entry_decode kv rest Hn) as [-> ->]. osimpl.
  cbn [snd]. rewrite length_map_Encode1. unfold map_EncodeNumBytes in *. f_equal.
  rewrite (wrap_small 64); [lia|]. change (2 ^ 64)%Z with (2 ^ 32 * 2 ^ 32)%Z. lia.
Qed.

Lemma set_key_entry s rest :
  (Z.of_nat (set_EncodeNumBytes s) < 2 ^ 32)%Z ->
  set_key (set_Encode1 s ++ rest) = Some (s ++ rest, len s).
Proof.
  intros Hn. unfold set_key. rewrite (entry_size KSet) by (done || by exists s). osimpl.
  rewrite length_set_Encode1. unfold set_EncodeNumBytes in *. f_equal. f_equal.
  rewrite (wrap_small 64); [lia|]. change (2 ^ 64)%Z with (2 ^ 32 * 2 ^ 32)%Z. lia.
Qed.

Lemma set_orderedKey_entry s rest :
  (Z.of_nat (set_EncodeNumBytes s) < 2 ^ 32)%Z ->
  set_orderedKey (set_Encode1 s ++ rest) = Some (FromSlice s).
Proof.
  intros Hn. unfold set_orderedKey. rewrite set_key_entry by done. osimpl.
  by eapply OrderedKey_make_slice.
Qed.

Lemma set_item_size s rest :
  (Z.of_nat (set_EncodeNumBytes s) < 2 ^ 32)%Z ->
  snd <$> set_item (set_Encode1 s ++ rest) = Some (length (set_Encode1 s)).
Proof.
  intros Hn. unfold set_item. rewrite set_key_entry by done. osimpl. cbn [snd].
  rewrite length_set_Encode1. unfold set_EncodeNumBytes in *. f_equal.
  rewrite (wrap_small 64); [lia|]. change (2 ^ 64)%Z with (2 ^ 32 * 2 ^ 32)%Z. lia.
Qed.

Lemma list_Decode_entry s rest :
  (Z.of_nat (len s + 4) < 2 ^ 32)%Z -> list_Decode (list_Encode1 s ++ rest) = Some s.
Proof.
  intros Hn. unfold list_Decode. rewrite (entry_size KList) by (done || by exists s). osimpl.
  rewrite length_list_Encode1. rewrite (wrap_small 64);
    [|change (2 ^ 64)%Z with (2 ^ 32 * 2 ^ 32)%Z; lia].
  unfold list_Encode1. rewrite <- app_assoc.
  apply read_bytes_app; [apply length_le_encode|unfold len; lia].
Qed.

(** The key of an entry does not depend on what follows it. *)
Lemma entry_key_app k e rest :
  entry_ok k e -> entry_key k (e ++ rest) = entry_key k e.
Proof.
  intros He. destruct k; simpl in *; try done.
  - destruct He as (m & Hm & ->). pose proof Hm as (Hl & Hel & Hh & Hk & Hn).
    unfold me_orderedKey, me_numBytes.
    pose proof (length_mi_bytes m Hh) as Hlen.
    assert (Hlk : kKeyOffset = 36) by done.
    rewrite (read_u_app_l 4) by lia. destruct (read_u 4 0 (mi_bytes m)) as [n|] eqn:En; [|done].
    osimpl. rewrite (read_u_app_l 1) by lia.
    destruct (read_u 1 kKeyOffset (mi_bytes m)) as [f|] eqn:Ef; [|done]. osimpl.
    assert (Hnn : Z.to_nat n = length (mi_bytes m)).
    { assert (H4 : entry_ok KMeta (mi_bytes m)) by (by exists m).
      pose proof (entry_size KMeta _ [] ltac:(done) H4) as R. rewrite app_nil_r, En in R.
      simplify_eq. lia. }
    rewrite Hnn, Hlen. case_match; [done|]. rewrite drop_app_le by lia.
    unfold OrderedKey_make. rewrite read_bytes_app_l by (rewrite length_drop; lia).
    destruct (read_bytes 0 _ _); [|done]. osimpl.
    destruct (negb (f =? 0)%Z) eqn:Ebv; [|done].
    enough (Hv : by_value_ (mi_key m) = true).
    { unfold key_numBytes in Hlen. rewrite Hv in Hlen.
      rewrite read_u_app_l; [done|]. rewrite length_drop. lia. }
    destruct (by_value_ (mi_key m)) eqn:E; [done|].
    unfold mi_bytes in Ef. rewrite E in Ef. change [x00] with (le_encode 1 0) in Ef.
    rewrite !app_assoc, <- (app_assoc _ (le_encode 1 0)) in Ef. rewrite read_u_app in Ef
      by (rewrite !length_app, !length_le_encode, Hh; done).
    simplify_eq.
  - destruct He as (kv & -> & Hn).
    rewrite map_orderedKey_entry by done. rewrite <- (app_nil_r (map_Encode1 kv)).
    by rewrite map_orderedKey_entry.
  - destruct He as (s & -> & Hn).
    rewrite set_orderedKey_entry by done. rewrite <- (app_nil_r (set_Encode1 s)).
    by rewrite set_orderedKey_entry.
Qed.

(** *** Walking the entries *)

Lemma walk_rep size es pre rest :
  (forall e r, e ∈ es -> size (e ++ r) = Some (length e)) ->
  walk (length es) (length pre) (pre ++ concat es ++ rest) size
  = Some (offsets_from (length pre) es).
Proof.
  revert pre. induction es as [|e es IH]; intros pre Hs; simpl; [done|].
  rewrite drop_app_length, <- app_assoc, Hs by left. osimpl.
  specialize (IH (pre ++ e)). rewrite length_app, <- app_assoc in IH.
  rewrite IH; [done|]. intros. apply Hs. by right.
Qed.

Lemma walk_ordered_rep size okey es pre rest p :
  (forall e r, e ∈ es -> size (e ++ r) = Some (length e)) ->
  (forall e r, e ∈ es -> okey (e ++ r) = okey e) ->
  ordered_from key_lt okey p es ->
  walk_ordered (length es) (length pre) (pre ++ concat es ++ rest) size okey p
  = Some (offsets_from (length pre) es).
Proof.
  revert pre p. induction es as [|e es IH]; intros pre p Hs Hk Ho; simpl; [done|].
  destruct Ho as (key & Hkey & Hp & Ho).
  rewrite drop_app_length, <- app_assoc, Hs by left. osimpl.
  rewrite Hk, Hkey by left. osimpl.
  assert (Hc : match p with None => Some tt | Some pk => lt ← key_lt pk key; CHECK lt end
               = Some tt).
  { destruct p; [|done]. by rewrite Hp. }
  rewrite Hc. osimpl. specialize (IH (pre ++ e) (Some key)).
  rewrite length_app, <- app_assoc in IH.
  rewrite IH; [done|..|done]; intros; [apply Hs|apply Hk]; by right.
Qed.

(** *** Accessors in terms of the entries *)

Section NodeRep.
Context `{HashFunction}.

Lemma payload_ok_count k es :
  Forall (entry_ok k) es -> payload_ok (node_payload k es) ->
  (Z.of_nat (length es) < 2 ^ 32)%Z.
Proof.
  intros He Hp. pose proof (length_le_concat _ _ He). unfold payload_ok in Hp.
  assert (length (concat es) <= length (node_payload k es)).
  { destruct k; simpl; rewrite ?length_app; lia. }
  lia.
Qed.

Lemma nr_count n k es : node_rep n k es -> (Z.of_nat (length es) < 2 ^ 32)%Z.
Proof.
  intros [_ Hc He _]. eapply payload_ok_count; [done|]. apply (cr_size _ _ _ Hc).
Qed.

Lemma nr_bytes n k es : node_rep n k es -> (Z.of_nat (length (concat es)) < 2 ^ 32)%Z.
Proof.
  intros [_ Hc He _]. pose proof (cr_size _ _ _ Hc) as Hp. unfold payload_ok in Hp.
  assert (length (concat es) <= length (node_payload k es)).
  { destruct k; simpl; rewrite ?length_app; lia. }
  lia.
Qed.

Lemma sized_numEntries_rep c k es :
  k <> KBlob -> chunk_rep c (kind_type k) (node_payload k es) ->
  (Z.of_nat (length es) < 2 ^ 32)%Z -> sized_numEntries c = Some (length es).
Proof.
  intros Hk Hc Hl. destruct (chunk_rep_data _ _ _ Hc) as [rest Hd].
  unfold sized_numEntries. rewrite Hd. osimpl.
  assert (E : node_payload k es = le_encode 4 (Z.of_nat (length es)) ++ concat es)
    by (by destruct k).
  rewrite E, <- app_assoc, read_u_here. osimpl. f_equal.
  rewrite Z.mod_small by (split; [lia|exact Hl]). lia.
Qed.

Lemma concat_ones es : Forall (entry_ok KBlob) es -> length (concat es) = length es.
Proof. intros He. rewrite (concat_fixed 1) by done. lia. Qed.

Lemma numEntries_rep n k es : node_rep n k es -> numEntries n = Some (length es).
Proof.
  intros Hn. pose proof (nr_count _ _ _ Hn) as Hl. destruct Hn as [Hk Hc He _].
  unfold numEntries. rewrite Hk. destruct (decide (k = KBlob)) as [->|Hb].
  - rewrite (chunk_rep_capacity _ _ _ Hc). f_equal. by apply concat_ones.
  - assert (E : sized_numEntries (chunk_ n) = Some (length es))
      by (by eapply sized_numEntries_rep). by destruct k.
Qed.

(** The memory of a node from an entry on. *)
Lemma node_mem n k es i :
  node_rep n k es -> k <> KBlob -> i <= length es ->
  exists d rest, chunk_data (chunk_ n) = Some d /\
    drop (4 + length (concat (take i es))) d = concat (drop i es) ++ rest.
Proof.
  intros [_ Hc _ _] Hk Hi. destruct (chunk_rep_data _ _ _ Hc) as [rest Hd].
  exists (node_payload k es ++ rest), rest. split; [done|].
  assert (E : node_payload k es = le_encode 4 (Z.of_nat (length es)) ++ concat es)
    by (by destruct k).
  rewrite E, (concat_take_drop es i) at 1. rewrite <- !app_assoc, app_assoc.
  by rewrite drop_app_ge, length_app, length_le_encode, Nat.sub_diag
    by (rewrite length_app, length_le_encode; lia).
Qed.

Lemma entryOffset_rep n k es i :
  node_rep n k es -> k <> KBlob -> i < length es ->
  entryOffset n i = Some (4 + length (concat (take i es))).
Proof.
  intros Hn Hk Hi. pose proof (nr_count _ _ _ Hn) as Hl.
  destruct Hn as [Hkd Hc He Ho]. unfold entryOffset.
  rewrite (sized_numEntries_rep _ k es) by done. osimpl.
  rewrite (proj2 (Nat.ltb_lt _ _)) by lia. osimpl. rewrite Ho.
  destruct k; try done; by apply offsets_from_lookup_lt.
Qed.

(** The offsets vector, entry by entry, for the classes that search it. *)
Lemma node_data_rep n k es i e :
  node_rep n k es -> es !! i = Some e ->
  exists rest, node_data n i = Some (e ++ concat (drop (S i) es) ++ rest).
Proof.
  intros Hn Hi. pose proof (lookup_lt_Some _ _ _ Hi) as Hlt.
  unfold node_data. rewrite (nr_kind _ _ _ Hn).
  destruct (decide (k = KBlob)) as [->|Hb].
  - destruct Hn as [_ Hc He _]. destruct (chunk_rep_data _ _ _ Hc) as [rest Hd].
    rewrite Hd. osimpl. exists rest. f_equal. simpl.
    rewrite (concat_lookup_split _ _ _ Hi), <- !app_assoc.
    rewrite drop_app_ge by (rewrite (concat_fixed 1), length_take; [lia|by apply Forall_take]).
    rewrite (concat_fixed 1), length_take by (by apply Forall_take).
    by replace (i - 1 * _) with 0 by lia.
  - destruct (node_mem _ _ _ i Hn Hb ltac:(lia)) as (d & rest & Hd & Hdrop).
    exists rest. rewrite Hd. osimpl. rewrite (entryOffset_rep _ _ _ _ Hn Hb Hlt). osimpl.
    rewrite Hdrop, (drop_S _ _ _ Hi). simpl. rewrite <- app_assoc. by destruct k.
Qed.

Lemma LeafNode_len_rep n k es i e :
  node_rep n k es -> k <> KBlob -> es !! i = Some e -> LeafNode_len n i = Some (length e).
Proof.
  intros Hn Hk Hi. pose proof (lookup_lt_Some _ _ _ Hi) as Hlt.
  pose proof (nr_count _ _ _ Hn) as Hl. pose proof (nr_bytes _ _ _ Hn) as Hb.
  destruct Hn as [Hkd Hc He Ho]. unfold LeafNode_len.
  rewrite (sized_numEntries_rep _ k es) by done. osimpl.
  assert (Hoff : offsets_ n = offsets_from 4 es) by (by destruct k).
  assert (Hpre : (if i =? length es - 1 then chunk_capacity (chunk_ n) else offsets_ n !! S i)
                 = Some (4 + length (concat (take (S i) es)))).
  { destruct (Nat.eqb_spec i (length es - 1)) as [->|Hne].
    - rewrite (chunk_rep_capacity _ _ _ Hc), take_ge by lia. f_equal.
      destruct k; try done; simpl; by rewrite length_app, length_le_encode.
    - rewrite Hoff. apply offsets_from_lookup_lt. lia. }
  rewrite Hpre. osimpl. rewrite Hoff, offsets_from_lookup_lt by lia. osimpl. f_equal.
  rewrite (take_S_r _ _ _ Hi), concat_app, length_app. simpl. rewrite app_nil_r.
  rewrite (wrap_small 64); [lia|].
  rewrite (concat_lookup_split _ _ _ Hi), !length_app in Hb.
  change (2 ^ 64)%Z with (2 ^ 32 * 2 ^ 32)%Z. lia.
Qed.

Lemma me_numBytes_entry e rest :
  entry_ok KMeta e -> me_numBytes (e ++ rest) = Some (length e).
Proof.
  intros He. unfold me_numBytes. rewrite (entry_size KMeta) by done. osimpl. f_equal. lia.
Qed.

Lemma node_len_rep n k es i e :
  node_rep n k es -> es !! i = Some e -> node_len n i = Some (length e).
Proof.
  intros Hn Hi. pose proof (lookup_lt_Some _ _ _ Hi) as Hlt.
  unfold node_len. rewrite (nr_kind _ _ _ Hn).
  pose proof (Forall_lookup_1 _ _ _ _ (nr_entries _ _ _ Hn) Hi) as He.
  destruct k; try by eapply LeafNode_len_rep.
  - unfold MetaNode_len.
    destruct (node_mem _ _ _ i Hn ltac:(done) ltac:(lia)) as (d & rest & Hd & Hdrop).
    rewrite Hd. osimpl. rewrite (entryOffset_rep _ _ _ _ Hn) by done. osimpl.
    rewrite Hdrop, (drop_S _ _ _ Hi). cbn [concat]. rewrite <- app_assoc.
    by apply me_numBytes_entry.
  - simpl in He. by rewrite He.
Qed.

Lemma node_key_rep n k es i e :
  node_rep n k es -> es !! i = Some e -> k <> KBlob -> k <> KList ->
  node_key n i = entry_key k e.
Proof.
  intros Hn Hi Hb Hl. unfold node_key. rewrite (nr_kind _ _ _ Hn).
  destruct (node_data_rep _ _ _ _ _ Hn Hi) as [rest ->].
  pose proof (Forall_lookup_1 _ _ _ _ (nr_entries _ _ _ Hn) Hi) as He.
  destruct k; try done; osimpl; by apply entry_key_app.
Qed.

(** Parsing a chunk whose payload is a list of well-formed entries. *)
Lemma CreateFromChunk_rep c k es :
  chunk_rep c (kind_type k) (node_payload k es) -> entries_ok k es ->
  exists n, CreateFromChunk c = Some n /\ chunk_ n = c /\ node_rep n k es.
Proof.
  intros Hc [He Ho].
  pose proof (payload_ok_count _ _ He (cr_size _ _ _ Hc)) as Hl.
  unfold CreateFromChunk. rewrite (chunk_rep_type _ _ _ Hc). osimpl.
  assert (Hn : k <> KBlob -> sized_numEntries c = Some (length es))
    by (intros; by eapply sized_numEntries_rep).
  destruct (chunk_rep_data _ _ _ Hc) as [rest Hd].
  rewrite Forall_forall in He.
  assert (Hw : forall size, k <> KBlob ->
    (forall e r, e ∈ es -> size (e ++ r) = Some (length e)) ->
    walk (length es) 4 (node_payload k es ++ rest) size = Some (offsets_from 4 es)).
  { intros size Hk Hs. pose proof (walk_rep size es (le_encode 4 (Z.of_nat (length es))) rest Hs) as W.
    rewrite length_le_encode in W. rewrite <- W. f_equal. destruct k; try done;
      simpl; by rewrite <- app_assoc. }
  assert (Hwo : forall size okey, k <> KBlob ->
    (forall e r, e ∈ es -> size (e ++ r) = Some (length e)) ->
    (forall e r, e ∈ es -> okey (e ++ r) = okey e) -> ordered_from key_lt okey None es ->
    walk_ordered (length es) 4 (node_payload k es ++ rest) size okey None
    = Some (offsets_from 4 es)).
  { intros size okey Hk Hs Hok Hord.
    pose proof (walk_ordered_rep size okey es (le_encode 4 (Z.of_nat (length es))) rest None
                  Hs Hok Hord) as W.
    rewrite length_le_encode in W. rewrite <- W. f_equal. destruct k; try done;
      simpl; by rewrite <- app_assoc. }
  assert (Hrep : forall o, o = match k with KBlob => [] | _ => offsets_from 4 es end ->
    node_rep (mkNode k c o) k es).
  { intros o ->. constructor; try done. by apply Forall_forall. }
  destruct k; cbn [kind_type]; cbn iota.
  - unfold MetaNode_PrecomputeOffset. rewrite Hd. osimpl. rewrite Hn by done. osimpl.
    rewrite Hw; [osimpl; eauto|done|]. intros e r ?. apply me_numBytes_entry. by apply He.
  - eauto.
  - unfold MapNode_PrecomputeOffsets. rewrite Hd. osimpl. rewrite Hn by done. osimpl.
    rewrite Hwo; [osimpl; eauto|done|..|done].
    + intros e r Hin. destruct (He e Hin) as (kv & -> & ?). by apply map_kvitem_size.
    + intros e r Hin. by apply (entry_key_app KMap), He.
  - unfold SetNode_PrecomputeOffsets. rewrite Hd. osimpl. rewrite Hn by done. osimpl.
    rewrite Hwo; [osimpl; eauto|done|..|done].
    + intros e r Hin. destruct (He e Hin) as (s & -> & ?). by apply set_item_size.
    + intros e r Hin. by apply (entry_key_app KSet), He.
  - unfold ListNode_PrecomputeOffsets. rewrite Hd. osimpl. rewrite Hn by done. osimpl.
    rewrite Hw; [osimpl; eauto|done|]. intros e r Hin.
    rewrite (entry_size KList) by (done || by apply He). osimpl. f_equal. lia.
Qed.

(** *** Segments of a node *)

Lemma seg_offsets_rep n k es i cnt nb :
  node_rep n k es -> i + cnt <= length es ->
  seg_offsets n i cnt nb =
    Some (offsets_from nb (take cnt (drop i es)), nb + length (concat (take cnt (drop i es)))).
Proof.
  intros Hn. revert i nb. induction cnt as [|cnt IH]; intros i nb Hi; simpl.
  - by rewrite Nat.add_0_r.
  - destruct (lookup_lt_is_Some_2 es i ltac:(lia)) as [e He].
    rewrite (node_len_rep _ _ _ _ _ Hn He). osimpl. rewrite IH by lia. osimpl. cbn [fst snd].
    rewrite (drop_S _ _ _ He). cbn [firstn offsets_from concat]. rewrite length_app.
    do 2 f_equal. lia.
Qed.

Definition seg_class (k : NodeKind) (s : Segment) : Prop :=
  match k with
  | KBlob => seg_kind s = FixedSegment 1
  | _ => exists offs, seg_kind s = VarSegment offs
  end.

Lemma GetSegment_rep n k es start cnt :
  node_rep n k es -> start < length es -> start + cnt <= length es ->
  exists s, GetSegment n start cnt = Some s /\ seg_rep s (take cnt (drop start es)) /\ seg_class k s.
Proof.
  intros Hn Hs Hc. destruct (lookup_lt_is_Some_2 es start Hs) as [e He].
  destruct (node_data_rep _ _ _ _ _ Hn He) as [rest Hd].
  pose proof (entries_ne _ _ (nr_entries _ _ _ Hn)) as Hne.
  assert (Hmem : e ++ concat (drop (S start) es) ++ rest
    = concat (take cnt (drop start es)) ++ concat (drop cnt (drop start es)) ++ rest).
  { rewrite (app_assoc (concat (take cnt _))), <- (concat_take_drop (drop start es) cnt).
    by rewrite (drop_S _ _ _ He), app_assoc. }
  unfold GetSegment. rewrite (nr_kind _ _ _ Hn).
  assert (Hvar : k <> KBlob -> exists s, VarNode_GetSegment n start cnt = Some s /\ seg_rep s (take cnt (drop start es)) /\ (exists offs, seg_kind s = VarSegment offs)).
  { intros Hk. unfold VarNode_GetSegment. rewrite (numEntries_rep _ _ _ Hn). osimpl.
    rewrite (proj2 (Nat.ltb_lt _ _)) by lia. osimpl. rewrite Hd. osimpl.
    destruct (Nat.eqb_spec cnt 0) as [->|Hcnt].
    - eexists. split; [done|]. split; [|eauto].
      constructor; simpl; [by eexists|done..].
    - rewrite (proj2 (Nat.leb_le _ _)) by lia. osimpl.
      rewrite (seg_offsets_rep _ _ _ _ _ _ Hn) by lia. osimpl.
      eexists. split; [done|]. split; [|eauto]. cbn [fst snd].
      constructor; simpl; [rewrite Hmem; by eexists|done..|].
      by apply Forall_take, Forall_drop. }
  destruct k; try by (apply Hvar).
  unfold BlobNode_GetSegment. rewrite (numEntries_rep _ _ _ Hn). osimpl.
  rewrite (proj2 (Nat.leb_le _ _)) by lia. osimpl. rewrite Hd. osimpl.
  assert (Hones : Forall (entry_ok KBlob) (take cnt (drop start es)))
    by (apply Forall_take, Forall_drop, (nr_entries _ _ _ Hn)).
  eexists. split; [done|]. split; [|done].
  constructor; simpl; [rewrite Hmem; by eexists|..|split; [lia|done]|].
  - rewrite concat_ones, length_take, length_drop by done. lia.
  - by apply Forall_take, Forall_drop.
Qed.

End NodeRep.
