(* ===== verification/NodeSearch.v ===== *)
(** * Searching nodes: [MetaNode::GetChildHashBy*], [numElementsUntilEntry],
      [MapNode::FindIndexForKey], [SetNode::FindIndexForKey]

    The loops over the encoded entries of a node compute what the obvious
    functions compute on the list of the decoded entries. *)

From S2P Require Import Prelude Types Slice HashVal Chunk Node.

(** ** Reference functions on decoded entries *)

(** Number of elements below the first [i] entries. *)
Definition elements_below (ms : list MetaInfo) : Z := sum_with mi_elements ms.

(** The child that holds element [x], and its position. *)
Fixpoint child_of_index (ms : list MetaInfo) (x : Z) (i : nat) : Hash * nat :=
  match ms with
  | [] => (None, i)
  | m :: ms' =>
      if (x <? mi_elements m)%Z then (Some (mi_hash m), i)
      else child_of_index ms' (x - mi_elements m)%Z (S i)
  end.

(** The first child whose key is not smaller than [key]. *)
Fixpoint child_of_key (ms : list MetaInfo) (key : OrderedKey) (i : nat) : option (Hash * nat) :=
  match ms with
  | [] => Some (None, i)
  | m :: ms' =>
      le ← key_le key (mi_key m);
      if le : bool then Some (Some (mi_hash m), i) else child_of_key ms' key (S i)
  end.

(** Position of the first key that is not smaller than [key]. *)
Fixpoint lower_bound (keys : list Slice) (key : Slice) : nat :=
  match keys with
  | [] => 0
  | k :: keys' => if slice_lt k key then S (lower_bound keys' key) else 0
  end.

(** ** The loops *)

Lemma mi_entries_ok ms : Forall mi_ok ms -> Forall (entry_ok KMeta) (mi_bytes <$> ms).
Proof. induction 1; simpl; constructor; [by eexists|done]. Qed.

Lemma sum_elements_rep ms pre rest total :
  Forall mi_ok ms -> (0 <= total)%Z -> (total + elements_below ms < 2 ^ 64)%Z ->
  sum_elements (length ms) (length pre) (pre ++ concat (mi_bytes <$> ms) ++ rest) total
  = Some (total + elements_below ms)%Z.
Proof.
  intros Hms. revert pre total. unfold elements_below.
  induction Hms as [|m ms Hm Hms IH]; intros pre total H0 Hb.
  - simpl in *. f_equal. lia.
  - rewrite fmap_cons. cbn [concat length sum_elements sum_with] in *. rewrite drop_app_length, <- app_assoc.
    destruct (mi_decode m (concat (mi_bytes <$> ms) ++ rest) Hm) as (En & _ & Ee & _).
    rewrite Ee. osimpl. rewrite En. osimpl.
    assert (0 <= mi_elements m)%Z by (destruct Hm; lia).
    assert (0 <= sum_with mi_elements ms)%Z.
    { clear -Hms. induction Hms as [|m' ms' Hm' _ IH]; simpl; [lia|].
      destruct Hm' as (_ & ? & _). lia. }
    rewrite (wrap_small 64) by lia.
    specialize (IH (pre ++ mi_bytes m) (total + mi_elements m)%Z).
    rewrite length_app, <- app_assoc in IH. rewrite IH by lia. f_equal. lia.
Qed.

Lemma elements_below_nonneg ms : Forall mi_ok ms -> (0 <= elements_below ms)%Z.
Proof.
  unfold elements_below. induction 1 as [|m ms (_ & ? & _) _ IH]; simpl; lia.
Qed.

Lemma child_by_index_rep ms pre rest total x i :
  Forall mi_ok ms -> (0 <= total)%Z -> (total + elements_below ms < 2 ^ 64)%Z ->
  child_by_index (length ms) i (length pre) (pre ++ concat (mi_bytes <$> ms) ++ rest) total x
  = Some (child_of_index ms (x - total)%Z i).
Proof.
  intros Hms. revert pre total i.
  induction Hms as [|m ms Hm Hms IH]; intros pre total i H0 Hb; [done|].
  rewrite fmap_cons. cbn [concat length child_by_index child_of_index].
  rewrite drop_app_length, <- app_assoc.
  destruct (mi_decode m (concat (mi_bytes <$> ms) ++ rest) Hm) as (En & _ & Ee & Eh & _).
  rewrite Ee. osimpl. pose proof (elements_below_nonneg ms Hms) as Hnn.
  unfold elements_below in *. simpl in Hb.
  assert (0 <= mi_elements m)%Z by (destruct Hm; lia).
  rewrite (wrap_small 64) by lia.
  replace (x <? total + mi_elements m)%Z with (x - total <? mi_elements m)%Z
    by (apply eq_true_iff_eq; rewrite !Z.ltb_lt; lia).
  destruct (x - total <? mi_elements m)%Z.
  - by rewrite Eh.
  - rewrite En. osimpl. specialize (IH (pre ++ mi_bytes m) (total + mi_elements m)%Z (S i)).
    rewrite length_app, <- app_assoc in IH. rewrite IH by lia. do 2 f_equal. lia.
Qed.

Lemma child_by_key_rep ms pre rest key i :
  Forall mi_ok ms ->
  child_by_key (length ms) i (length pre) (pre ++ concat (mi_bytes <$> ms) ++ rest) key
  = child_of_key ms key i.
Proof.
  intros Hms. revert pre i.
  induction Hms as [|m ms Hm Hms IH]; intros pre i; [done|].
  rewrite fmap_cons. cbn [concat length child_by_key child_of_key].
  rewrite drop_app_length, <- app_assoc.
  destruct (mi_decode m (concat (mi_bytes <$> ms) ++ rest) Hm)
    as (En & _ & _ & Eh & k & Ek & Hsim).
  rewrite Ek. osimpl. rewrite (key_sim_le key key (mi_key m) k (key_sim_refl key) Hsim).
  destruct (key_le key (mi_key m)) as [[]|]; osimpl; [by rewrite Eh| |done].
  rewrite En. osimpl. specialize (IH (pre ++ mi_bytes m) (S i)).
  rewrite length_app, <- app_assoc in IH. by rewrite IH.
Qed.

Lemma find_key_rep (okey : bytes -> option OrderedKey) es (keys : list Slice) pre rest key idx :
  Forall2 (fun e k => forall r, okey (e ++ r) = Some (FromSlice k)) es keys ->
  find_key (offsets_from (length pre) es) (pre ++ concat es ++ rest) okey (FromSlice key) idx
  = Some (idx + lower_bound keys key).
Proof.
  intros Hk. revert pre idx. induction Hk as [|e k es keys He _ IH]; intros pre idx.
  - simpl. f_equal. lia.
  - simpl. rewrite drop_app_length, <- app_assoc, He. osimpl.
    rewrite key_eq_slices, key_gt_slices. osimpl.
    destruct (decide (k = key)) as [->|Hne].
    + rewrite bool_decide_true by done. rewrite st_irrefl. f_equal. lia.
    + rewrite bool_decide_false by done. destruct (slice_lt key k) eqn:E.
      * rewrite (st_asym slice_lt _ _ E). f_equal. lia.
      * destruct (slice_lt k key) eqn:E'.
        -- specialize (IH (pre ++ e) (S idx)). rewrite length_app, <- app_assoc in IH.
           rewrite IH. f_equal. lia.
        -- by destruct Hne; apply (st_total (ltb := slice_lt)).
Qed.

(** The position found by [FindIndexForKey] separates the smaller keys from
    the others. *)
Lemma lower_bound_le keys key : lower_bound keys key <= length keys.
Proof. induction keys as [|k keys IH]; simpl; [lia|]. destruct (slice_lt k key); lia. Qed.

Lemma lower_bound_before keys key i k :
  i < lower_bound keys key -> keys !! i = Some k -> slice_lt k key = true.
Proof.
  revert i. induction keys as [|k' keys IH]; intros i Hi Hk; [done|].
  simpl in Hi. destruct (slice_lt k' key) eqn:E; [|lia].
  destruct i as [|i]; simpl in Hk; [by simplify_eq|]. apply (IH i); [lia|done].
Qed.

Lemma lower_bound_at keys key k :
  keys !! lower_bound keys key = Some k -> slice_lt k key = false.
Proof.
  induction keys as [|k' keys IH]; [done|]. simpl.
  destruct (slice_lt k' key) eqn:E; simpl; [done|]. by intros [= <-].
Qed.

(** The child found by index is the one whose elements include the index. *)
Lemma child_of_index_spec ms x i :
  Forall mi_ok ms -> (0 <= x)%Z ->
  (exists j m, ms !! j = Some m /\ child_of_index ms x i = (Some (mi_hash m), i + j) /\
     (elements_below (take j ms) <= x < elements_below (take j ms) + mi_elements m)%Z)
  \/ ((elements_below ms <= x)%Z /\ child_of_index ms x i = (None, i + length ms)).
Proof.
  unfold elements_below.
  intros Hms. revert x i. induction Hms as [|m ms Hm _ IH]; intros x i Hx; simpl.
  - right. split; [done|]. f_equal. lia.
  - destruct (Z.ltb_spec x (mi_elements m)) as [Hlt|Hge].
    + left. exists 0, m. simpl. rewrite Nat.add_0_r. split_and!; [done..|lia|lia].
    + destruct (IH (x - mi_elements m)%Z (S i) ltac:(lia)) as [(j & m' & Hj & E & Hr)|[Hr E]].
      * left. exists (S j), m'. simpl. rewrite E. split_and!; [done|f_equal; lia|lia|lia].
      * right. rewrite E. simpl. split; [lia|f_equal; lia].
Qed.

(** ** The accessors of [MetaNode] *)

Section MetaNode.
Context `{HashFunction}.
Context (n : SeqNode) (ms : list MetaInfo).
Context (Hn : node_rep n KMeta (mi_bytes <$> ms)) (Hms : Forall mi_ok ms).

Lemma meta_numEntries : numEntries n = Some (length ms).
Proof. by rewrite (numEntries_rep _ _ _ Hn), length_fmap. Qed.

Lemma meta_data :
  exists rest, chunk_data (chunk_ n)
    = Some (le_encode 4 (Z.of_nat (length ms)) ++ concat (mi_bytes <$> ms) ++ rest).
Proof.
  destruct (chunk_rep_data _ _ _ (nr_chunk _ _ _ Hn)) as [rest ->]. exists rest.
  unfold node_payload. by rewrite length_fmap, <- app_assoc.
Qed.

Lemma meta_numElementsUntilEntry i :
  i <= length ms -> (elements_below ms < 2 ^ 64)%Z ->
  numElementsUntilEntry n i = Some (elements_below (take i ms)).
Proof.
  intros Hi Hb. unfold numElementsUntilEntry. rewrite meta_numEntries. osimpl.
  rewrite (proj2 (Nat.leb_le _ _)) by lia. osimpl. destruct meta_data as [rest ->]. osimpl.
  pose proof (elements_below_nonneg (drop i ms) ltac:(by apply Forall_drop)) as H0.
  unfold elements_below in *. rewrite <- (take_drop i ms), sum_with_app in Hb.
  rewrite (concat_take_drop (mi_bytes <$> ms) i), <- fmap_take, <- fmap_drop, <- app_assoc.
  pose proof (sum_elements_rep (take i ms) (le_encode 4 (Z.of_nat (length ms)))
    (concat (mi_bytes <$> drop i ms) ++ rest) 0) as S.
  rewrite length_le_encode, length_take, Nat.min_l in S by lia. rewrite S.
  - done.
  - by apply Forall_take.
  - lia.
  - unfold elements_below. lia.
Qed.

Lemma meta_numElements :
  (elements_below ms < 2 ^ 64)%Z -> numElements n = Some (elements_below ms).
Proof.
  intros Hb. unfold numElements. rewrite meta_numEntries. osimpl.
  unfold isLeaf. rewrite (nr_kind _ _ _ Hn). simpl negb. cbn iota.
  rewrite meta_numElementsUntilEntry by done. by rewrite firstn_all.
Qed.

Lemma meta_GetChildHashByIndex x :
  ms <> [] -> (elements_below ms < 2 ^ 64)%Z ->
  GetChildHashByIndex n x = Some (child_of_index ms x 0).
Proof.
  intros Hne Hb. unfold GetChildHashByIndex. rewrite meta_numEntries. osimpl.
  rewrite (proj2 (Nat.ltb_lt _ _)) by (destruct ms; [done|simpl; lia]). osimpl.
  destruct meta_data as [rest ->]. osimpl.
  pose proof (child_by_index_rep ms (le_encode 4 (Z.of_nat (length ms))) rest 0 x 0 Hms) as C.
  rewrite length_le_encode in C. rewrite C by lia. by rewrite Z.sub_0_r.
Qed.

Lemma meta_GetChildHashByKey key :
  ms <> [] -> GetChildHashByKey n key = child_of_key ms key 0.
Proof.
  intros Hne. unfold GetChildHashByKey. rewrite meta_numEntries. osimpl.
  rewrite (proj2 (Nat.ltb_lt _ _)) by (destruct ms; [done|simpl; lia]). osimpl.
  destruct meta_data as [rest ->]. osimpl.
  pose proof (child_by_key_rep ms (le_encode 4 (Z.of_nat (length ms))) rest key 0 Hms) as C.
  by rewrite length_le_encode in C.
Qed.

Lemma meta_entry_mem i m :
  ms !! i = Some m ->
  exists d rest, chunk_data (chunk_ n) = Some d /\
    drop (4 + length (concat (take i (mi_bytes <$> ms)))) d = mi_bytes m ++ rest.
Proof.
  intros Hi. pose proof (lookup_lt_Some _ _ _ Hi).
  destruct (node_mem _ _ _ i Hn ltac:(done)) as (d & rest & Hd & Hdrop).
  { rewrite length_fmap. lia. }
  assert (He : (mi_bytes <$> ms) !! i = Some (mi_bytes m)) by (by rewrite list_lookup_fmap, Hi).
  exists d. rewrite (drop_S _ _ _ He) in Hdrop. cbn [concat] in Hdrop.
  rewrite <- app_assoc in Hdrop. eauto.
Qed.

Lemma meta_GetChildHashByEntry i m :
  ms !! i = Some m -> GetChildHashByEntry n i = Some (Some (mi_hash m)).
Proof.
  intros Hi. pose proof (lookup_lt_Some _ _ _ Hi).
  unfold GetChildHashByEntry. rewrite meta_numEntries. osimpl.
  rewrite (proj2 (Nat.ltb_lt _ _)) by lia. osimpl.
  destruct (meta_entry_mem _ _ Hi) as (d & rest & -> & Hdrop). osimpl.
  rewrite (entryOffset_rep _ _ _ _ Hn) by (done || by rewrite length_fmap). osimpl.
  rewrite Hdrop. destruct (mi_decode m rest) as (_ & _ & _ & E & _); [|done].
  by eapply Forall_lookup_1.
Qed.

End MetaNode.
