(* ===== verification/Chunker.v ===== *)
(** * Chunkers: [include/chunk/chunker.h] and [*Chunker::Make] of
      [src/node/{blob,list,map,set,meta}_node.cc]

    [Make] turns a list of segments into a chunk and the meta entry that the
    parent level stores for it.  [Make_rep]: on well-formed, ordered entries
    it returns (no check fails), the chunk's payload is the encoding of the
    concatenation of the entries, and the meta entry is [meta_of], a function
    of the entries alone. *)

From S2P Require Import Prelude Types Slice HashVal Chunk RollingHash Node NodeSearch.

(** [struct ChunkInfo]. *)
Record ChunkInfo := mkCI { ci_chunk : Chunk; ci_meta_seg : Segment }.

(** The kinds of [Chunker] are those of the nodes they make. *)
Definition isFixedEntryLen (k : NodeKind) : bool := bool_decide (k = KBlob).

(** ** [Make] *)

Definition total_bytes (segments : list Segment) : nat := list_sum (num_bytes_ <$> segments).
Definition total_entries (segments : list Segment) : nat :=
  list_sum (seg_numEntries <$> segments).

(** The segment that holds one meta entry. *)
Definition meta_segment (meta_data : bytes) : Segment :=
  mkSeg meta_data (length meta_data) (VarSegment [0]).

(** [for (seg : segments) seg->AppendForChunk(...)]. *)
Fixpoint append_segments (segments : list Segment) (seg_offset : nat) (c : Chunk) :
  option Chunk :=
  match segments with
  | [] => Some c
  | seg :: segments' =>
      c' ← seg_AppendForChunk seg seg_offset c;
      append_segments segments' (seg_offset + num_bytes_ seg) c'
  end.

(** The loop over the entries of one segment that checks the order of keys:
    [rel] must hold between the previous key and the current one. *)
Fixpoint check_segment (rel : OrderedKey -> OrderedKey -> option bool)
    (okey : bytes -> option OrderedKey) (seg : Segment) (idx cnt : nat)
    (preKey : option OrderedKey) : option (option OrderedKey) :=
  match cnt with
  | O => Some preKey
  | S cnt' =>
      e ← seg_entry seg idx;
      currKey ← okey e;
      match preKey with
      | None => Some tt
      | Some pre => r ← rel pre currKey; CHECK r
      end;;
      check_segment rel okey seg (S idx) cnt' (Some currKey)
  end.

(** The loop of [MapChunker::Make] and [SetChunker::Make]. *)
Fixpoint append_ordered (okey : bytes -> option OrderedKey) (segments : list Segment)
    (seg_offset : nat) (preKey : option OrderedKey) (c : Chunk) :
  option (option OrderedKey * Chunk) :=
  match segments with
  | [] => Some (preKey, c)
  | seg :: segments' =>
      preKey' ← check_segment key_lt okey seg 0 (seg_numEntries seg) preKey;
      c' ← seg_AppendForChunk seg seg_offset c;
      append_ordered okey segments' (seg_offset + num_bytes_ seg) preKey' c'
  end.

(** The loop of [MetaChunker::Make]: also adds up leaves ([uint32_t]) and
    elements ([uint64_t]). *)
Fixpoint sum_segment (seg : Segment) (idx cnt : nat) (leaves elements : Z) : option (Z * Z) :=
  match cnt with
  | O => Some (leaves, elements)
  | S cnt' =>
      e ← seg_entry seg idx;
      ne ← me_numElements e;
      nl ← me_numLeaves e;
      sum_segment seg (S idx) cnt' (u32 (leaves + nl)) (u64 (elements + ne))
  end.

Fixpoint append_meta (segments : list Segment) (seg_offset : nat) (preKey : option OrderedKey)
    (leaves elements : Z) (c : Chunk) : option (option OrderedKey * Z * Z * Chunk) :=
  match segments with
  | [] => Some (preKey, leaves, elements, c)
  | seg :: segments' =>
      preKey' ← check_segment key_le me_orderedKey seg 0 (seg_numEntries seg) preKey;
      sums ← sum_segment seg 0 (seg_numEntries seg) leaves elements;
      c' ← seg_AppendForChunk seg seg_offset c;
      append_meta segments' (seg_offset + num_bytes_ seg) preKey' (fst sums) (snd sums) c'
  end.

Section Make.
Context `{HashFunction} `{Uninit}.

(** The last part of every [Make]. *)
Definition finish_chunk (c : Chunk) (num_leaves num_elements : Z) (key : OrderedKey) :
  option ChunkInfo :=
  h ← chunk_hash c;
  meta_data ← me_Encode num_leaves num_elements h key;
  Some (mkCI (mkChunk (head_ c) h) (meta_segment meta_data)).

Definition BlobChunker_Make (segments : list Segment) : option ChunkInfo :=
  let chunk_num_bytes := total_bytes segments in
  let num_entries := total_entries segments in
  c ← append_segments segments 0 (chunk_new kBlob chunk_num_bytes (fresh chunk_num_bytes));
  finish_chunk c 1 (Z.of_nat num_entries) (OrderedKey_value 0).

(** A new chunk with the number of entries in front. *)
Definition counted_chunk (t : ChunkType) (segments : list Segment) : option Chunk :=
  let chunk_num_bytes := 4 + total_bytes segments in
  chunk_write 0 (le_encode 4 (Z.of_nat (total_entries segments)))
              (chunk_new t chunk_num_bytes (fresh chunk_num_bytes)).

Definition ListChunker_Make (segments : list Segment) : option ChunkInfo :=
  CHECK (forallb (fun s => negb (seg_empty s)) segments);;
  c ← counted_chunk kList segments;
  c' ← append_segments segments 4 c;
  finish_chunk c' 1 (Z.of_nat (total_entries segments)) (OrderedKey_value 0).

(** Without entries [preKey] is the default-constructed key. *)
Definition MapChunker_Make (segments : list Segment) : option ChunkInfo :=
  CHECK (forallb (fun s => negb (seg_empty s)) segments);;
  c ← counted_chunk kMap segments;
  r ← append_ordered map_orderedKey segments 4 None c;
  finish_chunk (snd r) 1 (Z.of_nat (total_entries segments))
    (default (OrderedKey_default junk_flag junk_u64) (fst r)).

Definition SetChunker_Make (segments : list Segment) : option ChunkInfo :=
  CHECK (forallb (fun s => negb (seg_empty s)) segments);;
  c ← counted_chunk kSet segments;
  r ← append_ordered set_orderedKey segments 4 None c;
  finish_chunk (snd r) 1 (Z.of_nat (total_entries segments))
    (default (OrderedKey_default junk_flag junk_u64) (fst r)).

(** [pre_me] is dereferenced after the loop: without entries it is null. *)
Definition MetaChunker_Make (segments : list Segment) : option ChunkInfo :=
  c ← counted_chunk kMeta segments;
  r ← append_meta segments 4 None 0 0 c;
  match r with
  | (Some key, leaves, elements, c') => finish_chunk c' leaves elements key
  | (None, _, _, _) => None
  end.

Definition Make (k : NodeKind) (segments : list Segment) : option ChunkInfo :=
  match k with
  | KBlob => BlobChunker_Make segments
  | KList => ListChunker_Make segments
  | KMap => MapChunker_Make segments
  | KSet => SetChunker_Make segments
  | KMeta => MetaChunker_Make segments
  end.

(** ** What [Make] makes *)

Definition last_key (k : NodeKind) (es : list bytes) : option OrderedKey :=
  e ← last es; entry_key k e.

(** Sums over encoded meta entries. *)
Definition e_leaves (e : bytes) : Z := default 0%Z (me_numLeaves e).
Definition e_elements (e : bytes) : Z := default 0%Z (me_numElements e).

(** The meta entry for a node with entries [es]. *)
Definition meta_of (k : NodeKind) (es : list bytes) : MetaInfo :=
  let hash := ComputeFrom (chunk_bytes (kind_type k) (node_payload k es)) in
  match k with
  | KBlob | KList => mkMI 1 (Z.of_nat (length es)) hash (OrderedKey_value 0)
  | KMap | KSet =>
      mkMI 1 (Z.of_nat (length es)) hash
           (default (OrderedKey_default junk_flag junk_u64) (last_key k es))
  | KMeta =>
      mkMI (u32 (sum_with e_leaves es)) (u64 (sum_with e_elements es)) hash
           (default (OrderedKey_default junk_flag junk_u64) (last_key k es))
  end.

(** The chunk that holds a node with entries [es], with its hash computed. *)
Definition node_bytes (k : NodeKind) (es : list bytes) : bytes :=
  chunk_bytes (kind_type k) (node_payload k es).

Definition node_chunk (k : NodeKind) (es : list bytes) : Chunk :=
  mkChunk (Some (node_bytes k es)) (Some (ComputeFrom (node_bytes k es))).

(** Segments whose entries, in order, are [ess]. *)
Definition segs_rep (segments : list Segment) (ess : list (list bytes)) : Prop :=
  Forall2 seg_rep segments ess.

Lemma total_bytes_rep segments ess :
  segs_rep segments ess -> total_bytes segments = length (concat (concat ess)).
Proof.
  unfold total_bytes. induction 1 as [|s es segs ess Hs _ IH]; simpl; [done|].
  rewrite concat_app, length_app, <- IH, (sr_num _ _ Hs). done.
Qed.

Lemma total_entries_rep segments ess :
  segs_rep segments ess -> total_entries segments = length (concat ess).
Proof.
  unfold total_entries. induction 1 as [|s es segs ess Hs _ IH]; simpl; [done|].
  by rewrite length_app, <- IH, (seg_rep_numEntries _ _ Hs).
Qed.

(** Copying segments one after the other into the payload. *)
Lemma append_segments_rep segments ess t cap pre mem :
  segs_rep segments ess -> length pre + length (concat (concat ess)) = length mem ->
  append_segments segments (length pre) (chunk_new t cap (pre ++ drop (length pre) mem))
  = Some (chunk_new t cap (pre ++ concat (concat ess))).
Proof.
  intros Hs. revert pre. induction Hs as [|s es segs ess Hs _ IH]; intros pre Hl.
  - simpl in *. rewrite drop_ge by lia. done.
  - cbn [append_segments]. unfold seg_AppendForChunk.
    cbn [concat] in *. rewrite concat_app, length_app in Hl.
    rewrite (seg_rep_bytes _ _ Hs). osimpl.
    rewrite chunk_write_next by lia. osimpl.
    rewrite (sr_num _ _ Hs), <- (length_app pre), IH by (rewrite length_app; lia).
    by rewrite concat_app, <- app_assoc.
Qed.

(** *** Order checks *)

Definition key_after (okey : bytes -> option OrderedKey) (pre : option OrderedKey)
    (es : list bytes) : option OrderedKey :=
  match last es with None => pre | Some e => okey e end.

Lemma ordered_from_app rel okey pre a b :
  ordered_from rel okey pre (a ++ b) <->
  ordered_from rel okey pre a /\ ordered_from rel okey (key_after okey pre a) b.
Proof.
  revert pre. induction a as [|e a IH]; intros pre; simpl; [tauto|].
  assert (Hk : forall key, okey e = Some key ->
    key_after okey (Some key) a = key_after okey pre (e :: a)).
  { intros key Hkey. unfold key_after. destruct a as [|e' a]; [done|].
    by rewrite (last_cons e (e' :: a)), last_cons; destruct (last a). }
  split.
  - intros (key & Hkey & Hp & Ho). apply IH in Ho as [Ho1 Ho2]. rewrite (Hk _ Hkey) in Ho2.
    split; [by exists key|done].
  - intros [(key & Hkey & Hp & Ho1) Ho2]. exists key. split_and!; [done..|].
    apply IH. rewrite (Hk _ Hkey). done.
Qed.

Lemma ordered_from_weaken rel okey pre es :
  ordered_from rel okey pre es -> ordered_from rel okey None es.
Proof. destruct es as [|e es]; simpl; [done|]. intros (k & ? & _ & ?). by exists k. Qed.

Lemma check_segment_rep rel okey s es pre :
  seg_rep s es -> (forall e r, e ∈ es -> okey (e ++ r) = okey e) ->
  ordered_from rel okey pre es ->
  check_segment rel okey s 0 (seg_numEntries s) pre = Some (key_after okey pre es).
Proof.
  intros Hs Hk Ho. rewrite (seg_rep_numEntries _ _ Hs).
  enough (G : forall done todo p, es = done ++ todo -> ordered_from rel okey p todo ->
    check_segment rel okey s (length done) (length todo) p = Some (key_after okey p todo))
    by (by apply (G [] es)).
  intros dn todo. revert dn. induction todo as [|e todo IH]; intros dn p E Hp; [done|].
  cbn [length check_segment].
  assert (Hlk : es !! length dn = Some e) by (by rewrite E, list_lookup_middle).
  destruct (seg_rep_entry _ _ _ _ Hs Hlk) as [r ->]. osimpl.
  destruct Hp as (key & Hkey & Hrel & Hp).
  rewrite Hk, Hkey by (by eapply list_elem_of_lookup_2). osimpl.
  assert (Hc : match p with None => Some tt | Some pk => r ← rel pk key; CHECK r end = Some tt).
  { destruct p; [|done]. by rewrite Hrel. }
  rewrite Hc. osimpl. specialize (IH (dn ++ [e]) (Some key)).
  rewrite length_app in IH. simpl in IH. rewrite Nat.add_1_r in IH. rewrite IH.
  - unfold key_after. destruct todo as [|e' todo]; [by rewrite <- Hkey|].
    by rewrite (last_cons e (e' :: todo)), last_cons; destruct (last todo).
  - by rewrite <- app_assoc.
  - done.
Qed.

Lemma sum_segment_rep s es l n :
  seg_rep s es -> Forall (entry_ok KMeta) es -> (0 <= l < 2 ^ 32)%Z -> (0 <= n < 2 ^ 64)%Z ->
  sum_segment s 0 (seg_numEntries s) l n
  = Some (u32 (l + sum_with e_leaves es), u64 (n + sum_with e_elements es)).
Proof.
  intros Hs He Hl Hn. rewrite (seg_rep_numEntries _ _ Hs).
  enough (G : forall done todo l n, es = done ++ todo ->
    sum_segment s (length done) (length todo) (u32 l) (u64 n)
    = Some (u32 (l + sum_with e_leaves todo), u64 (n + sum_with e_elements todo))).
  { specialize (G [] es l n eq_refl). by rewrite (wrap_small 32 l), (wrap_small 64 n) in G. }
  clear l n Hl Hn. intros dn todo. revert dn.
  induction todo as [|e todo IH]; intros dn l n E; cbn [length sum_segment sum_with].
  - by rewrite !Z.add_0_r.
  - assert (Hlk : es !! length dn = Some e) by (by rewrite E, list_lookup_middle).
    destruct (seg_rep_entry _ _ _ _ Hs Hlk) as [r ->]. osimpl.
    pose proof (Forall_lookup_1 _ _ _ _ He Hlk) as (m & Hm & ->).
    destruct (mi_decode m (concat (drop (S (length dn)) es) ++ r) Hm) as (_ & -> & -> & _).
    osimpl. specialize (IH (dn ++ [mi_bytes m]) (l + mi_leaves m)%Z (n + mi_elements m)%Z).
    rewrite length_app in IH. simpl in IH. rewrite Nat.add_1_r in IH.
    destruct (mi_decode m [] Hm) as (_ & Hl & Hn & _). rewrite app_nil_r in Hl, Hn.
    unfold e_leaves at 1, e_elements at 1. rewrite Hl, Hn. osimpl.
    assert (W : forall w a b, (0 < w)%Z -> wrap w (wrap w a + b) = wrap w (a + b)).
    { intros w a b Hw. unfold wrap. apply Zplus_mod_idemp_l. }
    rewrite !W by lia. rewrite IH by (by rewrite <- app_assoc). do 2 f_equal; f_equal; lia.
Qed.

Lemma key_after_app okey pre a b :
  key_after okey (key_after okey pre a) b = key_after okey pre (a ++ b).
Proof.
  unfold key_after. rewrite last_app. by destruct (last b).
Qed.

Lemma append_ordered_rep okey segments ess t cap pre mem p :
  segs_rep segments ess -> (forall e r, e ∈ concat ess -> okey (e ++ r) = okey e) ->
  ordered_from key_lt okey p (concat ess) ->
  length pre + length (concat (concat ess)) = length mem ->
  append_ordered okey segments (length pre) p (chunk_new t cap (pre ++ drop (length pre) mem))
  = Some (key_after okey p (concat ess), chunk_new t cap (pre ++ concat (concat ess))).
Proof.
  intros Hs. revert pre p. induction Hs as [|s es segs ess Hs _ IH]; intros pre p Hk Ho Hl.
  - simpl in *. rewrite drop_ge by lia. done.
  - cbn [append_ordered]. unfold seg_AppendForChunk.
    cbn [concat] in *. rewrite concat_app, length_app in Hl.
    apply ordered_from_app in Ho as [Ho1 Ho2].
    rewrite (check_segment_rep _ _ _ es);
      [|done|intros; apply Hk, elem_of_app; by left|done].
    osimpl. rewrite (seg_rep_bytes _ _ Hs). osimpl.
    rewrite chunk_write_next by lia. osimpl.
    rewrite (sr_num _ _ Hs), <- (length_app pre), IH;
      [|intros; apply Hk, elem_of_app; by right|done|rewrite length_app; lia].
    by rewrite key_after_app, concat_app, <- app_assoc.
Qed.

Lemma append_meta_rep segments ess t cap pre mem p l n :
  segs_rep segments ess -> Forall (entry_ok KMeta) (concat ess) ->
  ordered_from key_le me_orderedKey p (concat ess) ->
  (0 <= l < 2 ^ 32)%Z -> (0 <= n < 2 ^ 64)%Z ->
  length pre + length (concat (concat ess)) = length mem ->
  append_meta segments (length pre) p l n (chunk_new t cap (pre ++ drop (length pre) mem))
  = Some (key_after me_orderedKey p (concat ess), u32 (l + sum_with e_leaves (concat ess)),
          u64 (n + sum_with e_elements (concat ess)),
          chunk_new t cap (pre ++ concat (concat ess))).
Proof.
  intros Hs. revert pre p l n. induction Hs as [|s es segs ess Hs _ IH];
    intros pre p l n He Ho Hbl Hbn Hl.
  - simpl in *. rewrite drop_ge by lia. by rewrite !Z.add_0_r, (wrap_small 32), (wrap_small 64).
  - cbn [append_meta]. unfold seg_AppendForChunk.
    cbn [concat] in *. rewrite concat_app, length_app in Hl.
    apply ordered_from_app in Ho as [Ho1 Ho2]. apply Forall_app in He as [He1 He2].
    rewrite (check_segment_rep _ _ _ es); [|done| |done].
    2: { intros e r Hin. apply (entry_key_app KMeta). by eapply Forall_forall in He1. }
    osimpl. rewrite (sum_segment_rep _ es) by done. osimpl.
    rewrite (seg_rep_bytes _ _ Hs). osimpl.
    rewrite chunk_write_next by lia. osimpl. cbn [fst snd].
    rewrite (sr_num _ _ Hs), <- (length_app pre), IH;
      [|done|done|apply wrap_range; lia|apply wrap_range; lia|rewrite length_app; lia].
    rewrite key_after_app, concat_app, <- app_assoc, !sum_with_app.
    unfold wrap. rewrite !Zplus_mod_idemp_l, !Z.add_assoc. done.
Qed.

(** *** The result *)

(** Room for the headers in the 32-bit size fields. *)
Definition size_ok (es : list bytes) : Prop := (Z.of_nat (length (concat es)) + 64 < 2 ^ 32)%Z.

Lemma size_ok_payload k es : size_ok es -> payload_ok (node_payload k es).
Proof.
  unfold size_ok, payload_ok. intros Hs.
  assert (length (node_payload k es) <= 4 + length (concat es)).
  { destruct k; simpl; rewrite ?length_app, ?length_le_encode; lia. }
  unfold kMetaLength, kChunkTypeOffset, kNumBytesOffset. lia.
Qed.

Lemma entry_key_wf k e key :
  entry_ok k e -> entry_key k e = Some key ->
  (by_value_ key = true -> (0 <= value_ key < 2 ^ 64)%Z) /\
  (by_value_ key = false -> key_numBytes key <= length e).
Proof.
  intros He Hkey. destruct k; simpl in *; try done.
  - destruct He as (m & Hm & ->).
    destruct (mi_decode m [] Hm) as (_ & _ & _ & _ & k & Hk & Hbv & Henc & Hval).
    rewrite app_nil_r in Hk. simplify_eq. destruct Hm as (_ & _ & Hh & Hv & _).
    split; intros Hb; rewrite Hbv in Hb.
    + rewrite Hb in Hval. rewrite Hval. auto.
    + rewrite <- length_key_Encode, Henc, length_key_Encode, length_mi_bytes by done. lia.
  - destruct He as (kv & -> & Hn). rewrite <- (app_nil_r (map_Encode1 kv)) in Hkey.
    rewrite map_orderedKey_entry in Hkey by done. apply (inj Some) in Hkey as <-.
    split; [done|]. intros _. rewrite length_map_Encode1.
    unfold key_numBytes, map_EncodeNumBytes. simpl. lia.
  - destruct He as (s & -> & Hn). rewrite <- (app_nil_r (set_Encode1 s)) in Hkey.
    rewrite set_orderedKey_entry in Hkey by done. apply (inj Some) in Hkey as <-.
    split; [done|]. intros _. rewrite length_set_Encode1.
    unfold key_numBytes, set_EncodeNumBytes. simpl. lia.
Qed.

Lemma last_key_wf k es :
  Forall (entry_ok k) es -> size_ok es ->
  let key := default (OrderedKey_default junk_flag junk_u64) (last_key k es) in
  (by_value_ key = true -> (0 <= value_ key < 2 ^ 64)%Z) /\
  (Z.of_nat (kKeyOffset + 1 + key_numBytes key) < 2 ^ 32)%Z.
Proof.
  intros He Hs key. change kKeyOffset with 36. unfold size_ok in Hs.
  assert (Hd : key = OrderedKey_default junk_flag junk_u64 \/
               exists e, e ∈ es /\ entry_key k e = Some key).
  { subst key. unfold last_key. destruct (last es) as [e|] eqn:El; simpl; [|by left].
    destruct (entry_key k e) eqn:Ek; simpl; [|by left]. right. exists e. split; [|done].
    apply last_Some in El as [l ->]. apply elem_of_app. right. by left. }
  destruct Hd as [->|(e & Hin & Hk)].
  - pose proof junk_u64_range. simpl. split; [done|]. unfold key_numBytes. simpl.
    destruct junk_flag; simpl; lia.
  - pose proof (proj1 (Forall_forall _ _) He e Hin) as Hok.
    destruct (entry_key_wf _ _ _ Hok Hk) as [Hv Hn]. split; [done|].
    apply list_elem_of_lookup in Hin as [i Hi].
    rewrite (concat_lookup_split _ _ _ Hi), !length_app in Hs.
    unfold key_numBytes in *. destruct (by_value_ key); [lia|]. specialize (Hn eq_refl). lia.
Qed.

Lemma meta_of_ok k es : Forall (entry_ok k) es -> size_ok es -> mi_ok (meta_of k es).
Proof.
  intros He Hs. pose proof (payload_ok_count _ _ He (size_ok_payload k es Hs)) as Hc.
  destruct (last_key_wf _ _ He Hs) as [Hv Hn].
  assert (Hh : length (ComputeFrom (chunk_bytes (kind_type k) (node_payload k es))) = kByteLength)
    by apply length_ComputeFrom.
  pose proof (wrap_range 32 (sum_with e_leaves es) ltac:(lia)).
  pose proof (wrap_range 64 (sum_with e_elements es) ltac:(lia)).
  destruct k; (split_and!; [simpl; lia..|exact Hh| |]); try done; simpl; lia.
Qed.

Lemma meta_of_hash k es : mi_hash (meta_of k es) = ComputeFrom (node_bytes k es).
Proof. by destruct k. Qed.

Lemma node_chunk_rep k es :
  size_ok es -> chunk_rep (node_chunk k es) (kind_type k) (node_payload k es).
Proof.
  intros Hs. constructor; [|by apply size_ok_payload|by right].
  exists []. by rewrite app_nil_r.
Qed.

Lemma finish_chunk_rep k es :
  size_ok es -> mi_ok (meta_of k es) ->
  finish_chunk (chunk_make (kind_type k) (node_payload k es))
    (mi_leaves (meta_of k es)) (mi_elements (meta_of k es)) (mi_key (meta_of k es))
  = Some (mkCI (node_chunk k es) (meta_segment (mi_bytes (meta_of k es)))).
Proof.
  intros Hs Hm. unfold finish_chunk.
  rewrite (chunk_rep_hash _ (kind_type k) (node_payload k es))
    by (by apply chunk_rep_make, size_ok_payload). osimpl.
  fold (node_bytes k es). rewrite <- meta_of_hash. rewrite me_Encode_bytes by done. osimpl.
  unfold node_chunk. by rewrite meta_of_hash.
Qed.

Lemma counted_chunk_rep t segments ess :
  segs_rep segments ess ->
  let es := concat ess in
  let pre := le_encode 4 (Z.of_nat (length es)) in
  let mem := fresh (4 + length (concat es)) in
  counted_chunk t segments
  = Some (chunk_new t (length mem) (pre ++ drop (length pre) mem)).
Proof.
  intros Hs es pre mem. unfold counted_chunk.
  rewrite (total_bytes_rep _ _ Hs), (total_entries_rep _ _ Hs). fold es. fold mem.
  assert (Hmem : length mem = 4 + length (concat es)) by apply fresh_length.
  rewrite <- Hmem. pose proof (chunk_write_next t (length mem) [] pre mem) as W.
  rewrite app_nil_l in W. apply W. subst pre. rewrite length_le_encode. simpl. lia.
Qed.

Lemma segs_nonempty segments ess :
  segs_rep segments ess -> Forall (fun es => es <> []) ess ->
  forallb (fun s => negb (seg_empty s)) segments = true.
Proof.
  induction 1 as [|s es segs ess Hs _ IH]; intros Hne; simpl; [done|].
  apply Forall_cons in Hne as [? ?].
  by rewrite (seg_rep_empty _ _ Hs), bool_decide_false, IH.
Qed.

(** [Make] on the segments of ordered entries. *)
Lemma Make_rep k segments ess :
  segs_rep segments ess -> entries_ok k (concat ess) -> size_ok (concat ess) ->
  match k with
  | KBlob => True
  | KMeta => concat ess <> []
  | _ => Forall (fun es => es <> []) ess
  end ->
  Make k segments
  = Some (mkCI (node_chunk k (concat ess)) (meta_segment (mi_bytes (meta_of k (concat ess))))).
Proof.
  intros Hs [He Ho] Hsz Hne. set (es := concat ess) in *.
  pose proof (meta_of_ok _ _ He Hsz) as Hm.
  pose proof (finish_chunk_rep k es Hsz Hm) as Hf.
  set (pre := le_encode 4 (Z.of_nat (length es))).
  assert (Hpre : length pre = 4) by apply length_le_encode.
  assert (Hmem : forall n, length (fresh n) = n) by apply fresh_length.
  assert (Hcap : forall t, chunk_new t (length (fresh (4 + length (concat es)))) (pre ++ concat es)
                 = chunk_make t (pre ++ concat es)).
  { intros t. rewrite Hmem, <- Hpre, <- length_app. apply chunk_new_make. }
  assert (Hkeys : forall e r, e ∈ es -> entry_key k (e ++ r) = entry_key k e).
  { intros e r Hin. apply entry_key_app. by eapply Forall_forall in He. }
  assert (Hka : k <> KBlob -> k <> KList -> key_after (entry_key k) None es = last_key k es).
  { intros. unfold key_after, last_key. by destruct (last es). }
  unfold Make. destruct k.
  - unfold MetaChunker_Make. rewrite (counted_chunk_rep _ _ _ Hs). fold es. fold pre. osimpl.
    replace (append_meta segments 4) with (append_meta segments (length pre)) by (by rewrite Hpre).
    rewrite (append_meta_rep _ ess) by (done || lia || by rewrite Hmem, Hpre). fold es. osimpl.
    change me_orderedKey with (entry_key KMeta). rewrite Hka, Hcap by done.
    destruct (last_key KMeta es) as [key|] eqn:Ek.
    + assert (Hkm : mi_key (meta_of KMeta es) = key) by (cbn [meta_of mi_key]; by rewrite Ek).
      rewrite Hkm in Hf. exact Hf.
    + exfalso. unfold last_key in Ek. destruct (last es) as [e|] eqn:El.
      * apply last_Some in El as [l El]. simpl in Ho. rewrite El in Ho.
        apply ordered_from_app in Ho as [_ (key & Hk & _)]. simpl in Ek. congruence.
      * by apply last_None in El.
  - unfold BlobChunker_Make. rewrite (total_bytes_rep _ _ Hs), (total_entries_rep _ _ Hs).
    fold es. pose proof (append_segments_rep _ ess kBlob (length (concat es)) []
      (fresh (length (concat es))) Hs) as A. cbn [length app] in A. rewrite drop_0 in A. rewrite A by (by rewrite Hmem).
    osimpl. exact Hf.
  - unfold MapChunker_Make. rewrite (segs_nonempty _ _ Hs Hne). osimpl.
    rewrite (counted_chunk_rep _ _ _ Hs). fold es. fold pre. osimpl.
    replace (append_ordered map_orderedKey segments 4)
      with (append_ordered map_orderedKey segments (length pre)) by (by rewrite Hpre).
    rewrite (append_ordered_rep _ _ ess) by (done || by rewrite Hmem, Hpre). fold es. osimpl.
    cbn [fst snd]. change map_orderedKey with (entry_key KMap).
    rewrite Hka, Hcap, (total_entries_rep _ _ Hs) by done. exact Hf.
  - unfold SetChunker_Make. rewrite (segs_nonempty _ _ Hs Hne). osimpl.
    rewrite (counted_chunk_rep _ _ _ Hs). fold es. fold pre. osimpl.
    replace (append_ordered set_orderedKey segments 4)
      with (append_ordered set_orderedKey segments (length pre)) by (by rewrite Hpre).
    rewrite (append_ordered_rep _ _ ess) by (done || by rewrite Hmem, Hpre). fold es. osimpl.
    cbn [fst snd]. change set_orderedKey with (entry_key KSet).
    rewrite Hka, Hcap, (total_entries_rep _ _ Hs) by done. exact Hf.
  - unfold ListChunker_Make. rewrite (segs_nonempty _ _ Hs Hne). osimpl.
    rewrite (counted_chunk_rep _ _ _ Hs). fold es. fold pre. osimpl.
    replace (append_segments segments 4)
      with (append_segments segments (length pre)) by (by rewrite Hpre).
    rewrite (append_segments_rep _ ess) by (done || by rewrite Hmem, Hpre). fold es. osimpl.
    rewrite Hcap, (total_entries_rep _ _ Hs). exact Hf.
Qed.

End Make.
