(* ===== verification/Canonical.v ===== *)
(** * The canonical tree of a sequence of entries

    What [NodeBuilder] builds, as a function of the entries alone: cut the
    sequence after every entry in which a boundary is found, make a node of
    every group, and do the same with the meta entries of the nodes until one
    node is left.  [Build.v] proves that the builder computes this function. *)

From S2P Require Import Prelude Types Slice HashVal Chunk RollingHash Node NodeSearch Chunker.

(** ** Cutting a sequence of entries *)

(** The closed groups, and the entries after the last boundary. *)
Fixpoint split_from (fuel : nat) (p : ChunkerParams) (es : list bytes) :
  list (list bytes) * list bytes :=
  match fuel with
  | O => ([], es)
  | S fuel' =>
      match find_boundary p [] (concat es) with
      | None => ([], es)
      | Some pos =>
          let j := S (entry_at es pos) in
          let r := split_from fuel' p (drop j es) in
          (take j es :: fst r, snd r)
      end
  end.

Definition split (p : ChunkerParams) (es : list bytes) : list (list bytes) * list bytes :=
  split_from (length es) p es.

(** The groups of a level; a level without entries has one empty group. *)
Definition close (r : list (list bytes) * list bytes) : list (list bytes) :=
  match r with
  | (gs, []) => gs
  | (gs, lo) => gs ++ [lo]
  end.

Definition groups (p : ChunkerParams) (es : list bytes) : list (list bytes) := close (split p es).

Definition level_groups (p : ChunkerParams) (es : list bytes) : list (list bytes) :=
  match groups p es with [] => [[]] | gs => gs end.

(** ** The tree *)

Section Canonical.
Context `{HashFunction} `{Uninit}.

(** The entries of the next level. *)
Definition metas (k : NodeKind) (gs : list (list bytes)) : list bytes :=
  (fun g => mi_bytes (meta_of k g)) <$> gs.

(** The hash of the root; [mp] are the parameters of the inner levels. *)
Fixpoint tree_root (fuel : nat) (mp : ChunkerParams) (k : NodeKind) (p : ChunkerParams)
    (es : list bytes) : option bytes :=
  match fuel with
  | O => None
  | S fuel' =>
      match level_groups p es with
      | [g] => Some (mi_hash (meta_of k g))
      | gs => tree_root fuel' mp KMeta mp (metas k gs)
      end
  end.

(** The nodes of the tree. *)
Fixpoint tree_nodes (fuel : nat) (mp : ChunkerParams) (k : NodeKind) (p : ChunkerParams)
    (es : list bytes) : list (NodeKind * list bytes) :=
  match fuel with
  | O => []
  | S fuel' =>
      let gs := level_groups p es in
      (pair k <$> gs) ++
      match gs with
      | [_] => []
      | _ => tree_nodes fuel' mp KMeta mp (metas k gs)
      end
  end.

End Canonical.

(** ** Lemmas on cutting *)

Lemma split_from_fuel f p es : length es <= f -> split_from f p es = split p es.
Proof.
  unfold split. generalize (le_n (length es)).
  generalize (length es) at 2 4 as n. intros n. revert f es.
  induction n as [|n IH]; intros f es Hn Hf.
  - destruct es; [|simpl in *; lia]. by destruct f.
  - destruct (decide (length es = 0)) as [H0|H0].
    + destruct es; [|done]. by destruct f.
    + destruct f as [|f]; [lia|]. cbn [split_from].
      destruct (find_boundary p [] (concat es)) as [pos|]; [|done].
      rewrite !(IH f) by (rewrite length_drop; lia). done.
Qed.

Lemma split_eq p es :
  split p es =
  match find_boundary p [] (concat es) with
  | None => ([], es)
  | Some pos =>
      let j := S (entry_at es pos) in
      let r := split p (drop j es) in
      (take j es :: fst r, snd r)
  end.
Proof.
  rewrite <- (split_from_fuel (S (length es))) by lia. cbn [split_from].
  destruct (find_boundary p [] (concat es)) as [pos|]; [|done].
  by rewrite split_from_fuel by (rewrite length_drop; lia).
Qed.

Lemma entry_at_app a b k :
  entry_at (a ++ b) (length (concat a) + k) = length a + entry_at b k.
Proof.
  revert k. induction a as [|e a IH]; intros k; simpl; [done|].
  rewrite length_app. destruct (Nat.ltb_spec (length e + length (concat a) + k) (length e)); [lia|].
  f_equal. rewrite <- IH. f_equal. lia.
Qed.

Lemma entry_at_app_l a b k : k < length (concat a) -> entry_at (a ++ b) k = entry_at a k.
Proof.
  revert k. induction a as [|e a IH]; intros k; simpl; [lia|].
  rewrite length_app. intros Hk. destruct (Nat.ltb_spec k (length e)); [done|].
  f_equal. apply IH. lia.
Qed.

(** The first boundary falls into the entries [es1] that follow [pend]. *)
Lemma split_boundary p pend es1 es2 k :
  find_boundary p [] (concat pend) = None ->
  find_boundary p (concat pend) (concat es1) = Some k ->
  let j := S (entry_at es1 k) in
  let r := split p (drop j es1 ++ es2) in
  split p (pend ++ es1 ++ es2) = ((pend ++ take j es1) :: fst r, snd r).
Proof.
  intros Hp Hk j r.
  assert (Hlt : k < length (concat es1)) by (by apply find_boundary_Some in Hk as [? _]).
  pose proof (entry_at_lt _ _ Hlt) as Hel.
  assert (Hb : find_boundary p [] (concat (pend ++ es1 ++ es2)) = Some (length (concat pend) + k)).
  { rewrite !concat_app, find_boundary_app, Hp. simpl. by rewrite find_boundary_app, Hk. }
  rewrite split_eq, Hb. cbv zeta. rewrite entry_at_app, entry_at_app_l by done.
  rewrite <- Nat.add_succ_r. fold j.
  rewrite drop_app_ge, take_app_ge by lia. rewrite !Nat.add_sub_swap, Nat.sub_diag by lia.
  simpl (0 + j). rewrite drop_app_le, take_app_le by (subst j; lia). done.
Qed.

Lemma split_none p es : find_boundary p [] (concat es) = None -> split p es = ([], es).
Proof. intros Hn. by rewrite split_eq, Hn. Qed.

(** Properties of all groups, by induction on the cuts. *)
Lemma split_ind (P : list bytes -> list (list bytes) * list bytes -> Prop) p :
  (forall es, find_boundary p [] (concat es) = None -> P es ([], es)) ->
  (forall es pos, find_boundary p [] (concat es) = Some pos ->
     let j := S (entry_at es pos) in
     j <= length es -> P (drop j es) (split p (drop j es)) ->
     P es (take j es :: fst (split p (drop j es)), snd (split p (drop j es)))) ->
  forall es, P es (split p es).
Proof.
  intros Hn Hs es. remember (length es) as n eqn:Hlen. revert es Hlen.
  induction (lt_wf n) as [n _ IH]; intros es ->. rewrite split_eq.
  destruct (find_boundary p [] (concat es)) as [pos|] eqn:E; [|by apply Hn].
  assert (Hlt : pos < length (concat es)) by (by apply find_boundary_Some in E as [? _]).
  pose proof (entry_at_lt _ _ Hlt) as Hel. cbv zeta. apply Hs; [done|lia|].
  eapply IH; [|done]. rewrite length_drop. lia.
Qed.

Lemma split_concat p es : concat (fst (split p es)) ++ snd (split p es) = es.
Proof.
  apply (split_ind (fun es r => concat (fst r) ++ snd r = es)); [done|].
  intros es' pos _ j _ IH. simpl. rewrite <- app_assoc, IH. apply take_drop.
Qed.

Lemma concat_close gs lo : concat (close (gs, lo)) = concat gs ++ lo.
Proof.
  destruct lo as [|e lo]; simpl; [by rewrite app_nil_r|].
  rewrite concat_app. simpl. by rewrite app_nil_r.
Qed.

Lemma groups_concat p es : concat (groups p es) = es.
Proof.
  unfold groups. rewrite (surjective_pairing (split p es)), concat_close. apply split_concat.
Qed.

Lemma level_groups_concat p es : concat (level_groups p es) = es.
Proof.
  unfold level_groups. rewrite <- (groups_concat p es) at 2. by destruct (groups p es).
Qed.

Lemma groups_nonempty p es : Forall (fun g => g <> []) (groups p es).
Proof.
  assert (G : Forall (fun g => g <> []) (fst (split p es))).
  { apply (split_ind (fun es r => Forall (fun g => g <> []) (fst r))); [done|].
    intros es' pos _ j Hj IH. simpl. constructor; [|done].
    destruct es'; simpl in *; [lia|done]. }
  unfold groups. destruct (split p es) as [gs [|e lo]]; simpl in *; [done|].
  apply Forall_app. split; [done|]. by constructor.
Qed.

Lemma groups_nil p es : groups p es = [] <-> es = [].
Proof.
  split.
  - intros E. rewrite <- (groups_concat p es), E. done.
  - intros ->. done.
Qed.

Lemma level_groups_ne p es : level_groups p es <> [].
Proof. unfold level_groups. by destruct (groups p es). Qed.

Lemma level_groups_nonempty p es :
  es <> [] -> level_groups p es = groups p es /\ Forall (fun g => g <> []) (level_groups p es).
Proof.
  intros Hne. unfold level_groups. destruct (groups p es) as [|g gs] eqn:E.
  - by apply groups_nil in E.
  - rewrite <- E. split; [done|apply groups_nonempty].
Qed.

(** A group's size is bounded by the maximum chunk size and one entry. *)
Lemma group_size p es B :
  cp_window p <= cp_max p -> 0 < cp_max p -> Forall (fun e => length e <= B) es ->
  Forall (fun g => length (concat g) < cp_max p + B) (groups p es).
Proof.
  intros Hw Hm HB.
  enough (G : Forall (fun g => length (concat g) < cp_max p + B) (fst (split p es)) /\
              length (concat (snd (split p es))) < cp_max p + B).
  { destruct G as [G1 G2]. unfold groups.
    destruct (split p es) as [gs [|e lo]]; simpl in *; [done|].
    apply Forall_app. split; [done|]. by constructor. }
  revert HB. apply (split_ind (fun es r => Forall (fun e => length e <= B) es ->
    Forall (fun g => length (concat g) < cp_max p + B) (fst r) /\
    length (concat (snd r)) < cp_max p + B)).
  - intros es' Hn _. simpl. split; [done|].
    destruct (decide (cp_max p <= length (concat es'))); [|lia].
    destruct (find_boundary_max p [] (concat es')) as (k & Hk & _); simpl; [lia..|congruence].
  - intros es' pos Hpos j Hj IH HB. simpl.
    destruct (IH ltac:(by apply Forall_drop)) as [IH1 IH2]. split; [|done].
    constructor; [|done].
    assert (Hlt : pos < length (concat es')) by (by apply find_boundary_Some in Hpos as [? _]).
    pose proof (entry_at_bounds _ _ Hlt) as Hb. pose proof (entry_at_lt _ _ Hlt) as Hel.
    destruct (lookup_lt_is_Some_2 es' (entry_at es' pos) Hel) as [e He].
    pose proof (Forall_lookup_1 _ _ _ _ HB He) as Hle. simpl in Hle.
    subst j. rewrite (take_S_r _ _ _ He), concat_app, length_app. simpl. rewrite app_nil_r.
    assert (pos < cp_max p); [|lia].
    destruct (decide (cp_max p <= length (concat es'))); [|lia].
    destruct (find_boundary_max p [] (concat es')) as (k & Hk & Hkm); simpl; [lia..|].
    simpl in Hkm. rewrite Hpos in Hk. simplify_eq. lia.
Qed.

(** When every entry is shorter than the window, a closed group has at least
    two entries, so a level has at most half as many nodes as entries. *)
Lemma groups_halve p es :
  Forall (fun e => length e < cp_window p) es -> 2 * length (groups p es) <= S (length es).
Proof.
  intros Hw.
  enough (G : 2 * length (fst (split p es)) + length (snd (split p es)) <= length es).
  { unfold groups. destruct (split p es) as [gs [|e lo]]; simpl in *; [lia|].
    rewrite length_app. simpl. lia. }
  revert Hw. apply (split_ind (fun es r => Forall (fun e => length e < cp_window p) es ->
    2 * length (fst r) + length (snd r) <= length es)); [simpl; lia|].
  intros es' pos Hpos j Hj IH Hw. simpl.
  specialize (IH ltac:(by apply Forall_drop)). rewrite length_drop in IH.
  enough (2 <= j) by lia. subst j.
  apply find_boundary_Some in Hpos as (Hlt & Hh & _).
  apply hits_min in Hh. rewrite app_nil_l, length_take in Hh.
  destruct es' as [|e es']; [simpl in Hlt; lia|].
  apply Forall_cons in Hw as [He _]. simpl.
  destruct (Nat.ltb_spec pos (length e)); lia.
Qed.

(** ** Order of the meta entries *)

Lemma key_le_spec a b :
  key_le a b = Some true <->
  by_value_ a = by_value_ b /\
  if by_value_ a then (value_ a <= value_ b)%Z else slice_lt (slice_ b) (slice_ a) = false.
Proof.
  unfold key_le, key_lt, key_eq.
  destruct (by_value_ a), (by_value_ b); simpl; try naive_solver.
  - destruct (Z.ltb_spec (value_ a) (value_ b)), (Z.eqb_spec (value_ a) (value_ b));
      naive_solver lia.
  - rewrite slice_eq_spec. destruct (slice_lt (slice_ a) (slice_ b)) eqn:E.
    + rewrite (st_asym slice_lt _ _ E). naive_solver.
    + destruct (slice_lt (slice_ b) (slice_ a)) eqn:E'.
      * rewrite bool_decide_false by (intros Heq; rewrite Heq, st_irrefl in E'; done). naive_solver.
      * rewrite bool_decide_true by (by apply (st_total (ltb := slice_lt))). naive_solver.
Qed.

Lemma key_le_trans a b c :
  key_le a b = Some true -> key_le b c = Some true -> key_le a c = Some true.
Proof.
  rewrite !key_le_spec. intros [E1 H1] [E2 H2]. rewrite <- E1 in H2. split; [congruence|].
  destruct (by_value_ a); [lia|].
  destruct (slice_lt (slice_ c) (slice_ a)) eqn:E; [|done].
  destruct (slice_lt (slice_ a) (slice_ b)) eqn:Eab.
  - rewrite (st_trans _ _ _ E Eab) in H2. done.
  - rewrite (st_total (ltb := slice_lt) _ _ Eab H1) in E. congruence.
Qed.

Lemma key_lt_le a b : key_lt a b = Some true -> key_le a b = Some true.
Proof. intros E. unfold key_le. by rewrite E. Qed.

Lemma ordered_from_mono (rel rel' : OrderedKey -> OrderedKey -> option bool) okey pre es :
  (forall a b, rel a b = Some true -> rel' a b = Some true) ->
  ordered_from rel okey pre es -> ordered_from rel' okey pre es.
Proof.
  intros Hr. revert pre. induction es as [|e es IH]; intros pre; simpl; [done|].
  intros (key & Hk & Hp & Ho). exists key. split_and!; [done| |by apply IH].
  destruct pre; auto.
Qed.

(** The kinds whose entries have keys. *)
Definition keyed (k : NodeKind) : Prop := k = KMeta \/ k = KMap \/ k = KSet.

Lemma entries_ordered_le k pre es :
  keyed k -> entries_ordered k pre es -> ordered_from key_le (entry_key k) pre es.
Proof.
  intros [->|[->| ->]]; simpl; [done|..]; apply ordered_from_mono, key_lt_le.
Qed.

Lemma ordered_from_last okey pre es :
  es <> [] -> ordered_from key_le okey pre es ->
  exists kl, key_after okey pre es = Some kl /\
    match pre with None => True | Some p => key_le p kl = Some true end.
Proof.
  revert pre. induction es as [|e es IH]; intros pre Hne; [done|].
  intros (key & Hk & Hp & Ho). destruct (decide (es = [])) as [->|Hes].
  - exists key. unfold key_after. by rewrite last_singleton.
  - destruct (IH (Some key) Hes Ho) as (kl & Hkl & Hle). exists kl. split.
    + rewrite <- Hkl. unfold key_after. rewrite last_cons.
      destruct (last es) eqn:El; [done|]. by apply last_None in El.
    + destruct pre; [|done]. by eapply key_le_trans.
Qed.

Lemma entries_ok_app k a b : entries_ok k (a ++ b) -> entries_ok k a /\ entries_ok k b.
Proof.
  intros [[He1 He2]%Forall_app Ho].
  assert (G : entries_ordered k None a /\ entries_ordered k None b).
  { destruct k; simpl in *; try done; apply ordered_from_app in Ho as [? ?%ordered_from_weaken];
      done. }
  destruct G. split; by constructor.
Qed.

Lemma entries_ok_concat k gs : entries_ok k (concat gs) -> Forall (entries_ok k) gs.
Proof.
  induction gs as [|g gs IH]; simpl; [done|]. intros [? ?]%entries_ok_app. auto.
Qed.

Section MetaOrder.
Context `{HashFunction} `{Uninit}.

Lemma meta_key_sim k g :
  mi_ok (meta_of k g) ->
  exists key, me_orderedKey (mi_bytes (meta_of k g)) = Some key /\
    key_sim (mi_key (meta_of k g)) key.
Proof.
  intros Hm. destruct (mi_decode _ [] Hm) as (_ & _ & _ & _ & key & Hk & Hs).
  rewrite app_nil_r in Hk. eauto.
Qed.

Lemma metas_ordered_keyed k gs pre pre' :
  keyed k -> Forall (fun g => g <> []) gs -> Forall (fun g => mi_ok (meta_of k g)) gs ->
  ordered_from key_le (entry_key k) pre (concat gs) ->
  match pre, pre' with
  | None, None => True | Some p, Some p' => key_sim p p' | _, _ => False end ->
  ordered_from key_le me_orderedKey pre' (metas k gs).
Proof.
  intros Hk Hne Hm. revert pre pre'. induction gs as [|g gs IH]; intros pre pre' Ho Hp; [done|].
  apply Forall_cons in Hne as [Hg Hne]. apply Forall_cons in Hm as [Hmg Hm].
  cbn [concat] in Ho. apply ordered_from_app in Ho as [Ho1 Ho2].
  destruct (ordered_from_last _ _ _ Hg Ho1) as (kl & Hkl & Hle).
  destruct (meta_key_sim _ _ Hmg) as (key & Hkey & Hsim).
  assert (E : mi_key (meta_of k g) = kl).
  { unfold key_after in Hkl. destruct (last g) as [e|] eqn:El; [|by apply last_None in El].
    destruct Hk as [->|[->| ->]]; cbn [meta_of mi_key]; unfold last_key; rewrite El; osimpl;
      by rewrite Hkl. }
  rewrite E in Hsim. unfold metas. rewrite fmap_cons. exists key. split_and!; [done| |].
  - destruct pre as [p|], pre' as [p'|]; try done. by rewrite (key_sim_le p p' kl key).
  - rewrite Hkl in Ho2. by apply (IH Hne Hm (Some kl) (Some key)).
Qed.

Lemma metas_ordered_value k gs pre' :
  k = KBlob \/ k = KList -> Forall (fun g => mi_ok (meta_of k g)) gs ->
  match pre' with None => True | Some p' => key_sim (OrderedKey_value 0) p' end ->
  ordered_from key_le me_orderedKey pre' (metas k gs).
Proof.
  intros Hk Hm. revert pre'. induction Hm as [|g gs Hmg Hm IH]; intros pre' Hp; [done|].
  destruct (meta_key_sim _ _ Hmg) as (key & Hkey & Hsim).
  assert (E : mi_key (meta_of k g) = OrderedKey_value 0) by (by destruct Hk as [->| ->]).
  rewrite E in Hsim. unfold metas. rewrite fmap_cons. exists key. split_and!; [done| |].
  - destruct pre' as [p'|]; [|done]. by rewrite (key_sim_le _ _ _ _ Hp Hsim).
  - by apply IH.
Qed.

(** The meta entries of the groups of a level are the entries of a level. *)
Lemma metas_ok k gs :
  entries_ok k (concat gs) -> Forall (fun g => g <> []) gs -> Forall size_ok gs ->
  entries_ok KMeta (metas k gs).
Proof.
  intros Hok Hne Hsz.
  assert (Hm : Forall (fun g => mi_ok (meta_of k g)) gs).
  { apply entries_ok_concat in Hok. rewrite Forall_forall in *. intros g Hg.
    apply meta_of_ok; [by apply eo_entries, Hok|by apply Hsz]. }
  constructor.
  - unfold metas. apply Forall_fmap. eapply Forall_impl; [exact Hm|]. intros g Hg. simpl. by exists (meta_of k g).
  - simpl. destruct (decide (k = KBlob \/ k = KList)) as [Hk|Hk].
    + by apply metas_ordered_value.
    + assert (Hkk : keyed k) by (unfold keyed; destruct k; naive_solver).
      apply (metas_ordered_keyed k gs None None); [done..| |done].
      apply entries_ordered_le; [done|]. apply Hok.
Qed.

(** A bound on the size of keys, which all levels inherit. *)
Definition key_room (K : nat) (k : NodeKind) (es : list bytes) : Prop :=
  8 <= K /\ forall e key, e ∈ es -> entry_key k e = Some key -> key_numBytes key <= K.

Lemma meta_of_room K k g :
  key_room K k g -> key_numBytes (mi_key (meta_of k g)) <= K.
Proof.
  intros [H8 Hk].
  assert (Hd : key_numBytes (OrderedKey_default junk_flag junk_u64) <= 8).
  { unfold key_numBytes. simpl. destruct junk_flag; simpl; lia. }
  assert (Hl : key_numBytes (default (OrderedKey_default junk_flag junk_u64) (last_key k g)) <= K).
  { unfold last_key. destruct (last g) as [e|] eqn:El; simpl; [|lia].
    destruct (entry_key k e) as [key|] eqn:Ek; simpl; [|lia].
    eapply Hk; [|done]. apply last_Some in El as [l ->]. apply elem_of_app. right. by left. }
  destruct k; simpl; unfold key_numBytes in *; simpl; lia.
Qed.

(** Size of a meta entry without its key: 36 bytes and a flag. *)
Definition meta_head : nat := kKeyOffset + 1.

Lemma metas_room K k gs :
  key_room K k (concat gs) -> Forall (fun g => mi_ok (meta_of k g)) gs ->
  key_room K KMeta (metas k gs) /\
  Forall (fun e => length e <= meta_head + K) (metas k gs).
Proof.
  intros [H8 Hk] Hm. rewrite Forall_forall in Hm.
  assert (Hr : forall g, g ∈ gs -> key_numBytes (mi_key (meta_of k g)) <= K).
  { intros g Hg. apply meta_of_room. split; [done|]. intros e key He. apply Hk.
    apply list_elem_of_In, in_concat. exists g. by rewrite <- !list_elem_of_In. }
  split.
  - split; [done|]. intros e key (g & -> & Hg)%list_elem_of_fmap Hkey.
    destruct (meta_key_sim k g (Hm g Hg)) as (key' & Hk' & _ & Henc & _).
    simpl in Hkey. simplify_eq. rewrite <- length_key_Encode, Henc, length_key_Encode. auto.
  - apply Forall_fmap, Forall_forall. intros g Hg.
    change (length (mi_bytes (meta_of k g)) <= meta_head + K).
    rewrite length_mi_bytes by apply (Hm g Hg). specialize (Hr g Hg). unfold meta_head. lia.
Qed.

(** A level that can be cut into nodes: [B] bounds its entries, [K] its keys. *)
Record level_ok (B K : nat) (k : NodeKind) (p : ChunkerParams) (es : list bytes) : Prop := {
  lo_entries : entries_ok k es;
  lo_bound : Forall (fun e => length e <= B) es;
  lo_params : params_ok p /\ cp_window p <= cp_max p;
  lo_sizes : (Z.of_nat (cp_max p + B) + 64 < 2 ^ 32)%Z;
  lo_count : (Z.of_nat (length es) < 2 ^ 63)%Z;
  lo_keys : key_room K k es
}.

Lemma level_sizes B K k p es :
  level_ok B K k p es -> Forall size_ok (groups p es) /\ Forall size_ok (level_groups p es).
Proof.
  intros [Hok HB [Hp Hw] Hsz _ _].
  assert (G : Forall size_ok (groups p es)).
  { eapply Forall_impl; [apply (group_size p es B); [done|destruct Hp; lia|done]|].
    intros g Hg. unfold size_ok. simpl in Hg. lia. }
  split; [done|]. unfold level_groups. destruct (groups p es); [|done].
  constructor; [|done]. unfold size_ok. simpl. lia.
Qed.

Lemma groups_length p es : length (groups p es) <= length es.
Proof.
  rewrite <- (groups_concat p es) at 2. pose proof (groups_nonempty p es) as Hne.
  induction Hne as [|g gs Hg _ IH]; simpl; [lia|]. rewrite length_app.
  destruct g; [done|]. simpl. lia.
Qed.

(** The level above is again one that can be cut. *)
Lemma level_ok_next B K k p mp es :
  level_ok B K k p es -> es <> [] ->
  params_ok mp /\ cp_window mp <= cp_max mp ->
  (Z.of_nat (cp_max mp + (meta_head + K)) + 64 < 2 ^ 32)%Z ->
  level_ok (meta_head + K) K KMeta mp (metas k (groups p es)).
Proof.
  intros Hl Hne Hmp Hsz. pose proof (level_sizes _ _ _ _ _ Hl) as [Hs _].
  destruct Hl as [Hok HB Hp _ Hc Hk].
  assert (Hm : Forall (fun g => mi_ok (meta_of k g)) (groups p es)).
  { rewrite <- (groups_concat p es) in Hok. apply entries_ok_concat in Hok.
    rewrite Forall_forall in *. intros g Hg.
    apply meta_of_ok; [by apply eo_entries, Hok|by apply Hs]. }
  rewrite <- (groups_concat p es) in Hk.
  destruct (metas_room K k (groups p es) Hk Hm) as [Hk' Hl'].
  constructor; [|done..| |done].
  - apply metas_ok; [by rewrite groups_concat|apply groups_nonempty|done].
  - unfold metas. rewrite length_fmap. pose proof (groups_length p es). lia.
Qed.

End MetaOrder.
