(* ===== verification/Leaf.v ===== *)
(** * Leaf nodes end to end: [MapNode::Encode], [SetNode::Encode],
      [ListNode::Encode], their chunkers and their parsers

    Encoding a sorted list of items, making a chunk of it, parsing the chunk
    and reading the entries back gives the items; what the encoders reject. *)

From S2P Require Import Prelude Types Slice HashVal Chunk RollingHash Node NodeSearch Chunker.

Definition key_sorted (keys : list Slice) : Prop :=
  Sorted (fun a b => slice_lt a b = true) keys.

Lemma check_increasing_spec k keys :
  check_increasing (FromSlice k) keys = Some tt <-> key_sorted (k :: keys).
Proof.
  unfold key_sorted. revert k. induction keys as [|k' keys IH]; intros k;
    cbn [check_increasing].
  - split; [|done]. intros _. repeat constructor.
  - rewrite key_lt_slices. osimpl. split.
    + intros E. destruct (slice_lt k k') eqn:El; [|done]. constructor; [by apply IH|].
      by constructor.
    + intros Hs. inversion Hs as [|? ? Hs' Hd]; subst. inversion Hd as [|? ? Hlt]; subst.
      rewrite Hlt. osimpl. by apply IH.
Qed.

Lemma ordered_from_sorted (okey : bytes -> option OrderedKey) {A} (enc : A -> bytes)
    (key : A -> Slice) (items : list A) pre :
  Forall (fun it => okey (enc it) = Some (FromSlice (key it))) items ->
  key_sorted (match pre with None => key <$> items | Some p => p :: (key <$> items) end) ->
  ordered_from key_lt okey (FromSlice <$> pre) (enc <$> items).
Proof.
  unfold key_sorted. revert pre. induction items as [|it items IH]; intros pre Hk Hs; simpl; [done|].
  apply Forall_cons in Hk as [Hk Hks]. exists (FromSlice (key it)). split; [done|].
  destruct pre as [p|]; simpl in *.
  - inversion Hs as [|? ? Hs' Hd]; subst. inversion Hd as [|? ? Hlt]; subst.
    split; [by rewrite key_lt_slices, Hlt|]. by apply (IH (Some (key it))).
  - split; [done|]. by apply (IH (Some (key it))).
Qed.

Lemma segment_of_rep es : Forall (fun e => e <> []) es -> seg_rep (segment_of es) es.
Proof.
  intros Hne. constructor; simpl; [exists []; by rewrite app_nil_r|done..].
Qed.

(** ** Maps *)

Definition item_ok (kv : KVItem) : Prop := (Z.of_nat (map_EncodeNumBytes kv) < 2 ^ 32)%Z.

Lemma map_entries_ok items :
  Forall item_ok items -> key_sorted (kv_key <$> items) ->
  entries_ok KMap (map_Encode1 <$> items).
Proof.
  intros Hi Hs. constructor.
  - apply Forall_fmap. eapply Forall_impl; [exact Hi|]. intros kv Hkv. by exists kv.
  - apply (ordered_from_sorted map_orderedKey map_Encode1 kv_key items None); [|done].
    eapply Forall_impl; [exact Hi|]. intros kv Hkv. simpl.
    rewrite <- (app_nil_r (map_Encode1 kv)). by apply map_orderedKey_entry.
Qed.

Lemma map_Encode_rep items :
  items <> [] -> Forall item_ok items -> key_sorted (kv_key <$> items) ->
  map_Encode items = Some (segment_of (map_Encode1 <$> items)) /\
  seg_rep (segment_of (map_Encode1 <$> items)) (map_Encode1 <$> items).
Proof.
  intros Hne Hi Hs. destruct items as [|it items]; [done|]. split.
  - unfold map_Encode. rewrite (proj2 (check_increasing_spec _ _)); [done|exact Hs].
  - apply segment_of_rep. eapply entries_ne, (eo_entries KMap), map_entries_ok; done.
Qed.

Lemma size_ok_items items : size_ok (map_Encode1 <$> items) -> Forall item_ok items.
Proof.
  intros Hs. apply Forall_forall. intros it (i & Hi)%list_elem_of_lookup.
  assert (He : (map_Encode1 <$> items) !! i = Some (map_Encode1 it))
    by (by rewrite list_lookup_fmap, Hi).
  unfold size_ok in Hs. rewrite (concat_lookup_split _ _ _ He), !length_app in Hs.
  unfold item_ok. rewrite <- length_map_Encode1. lia.
Qed.

(** In a sorted list, the lower bound of a key of the list is its position. *)
Lemma lower_bound_sorted keys i k :
  key_sorted keys -> keys !! i = Some k -> lower_bound keys k = i.
Proof.
  intros Hs. apply Sorted_StronglySorted in Hs.
  2: { intros a b c. apply (st_trans (ltb := slice_lt)). }
  revert i. induction Hs as [|k' keys Hs IH Hf]; intros [|i] Hk; simpl in *; try done.
  - simplify_eq. by rewrite st_irrefl.
  - rewrite (proj1 (Forall_forall _ _) Hf k); [|by eapply list_elem_of_lookup_2].
    by rewrite (IH i).
Qed.

(** ** Sets *)

Definition elem_ok (s : Slice) : Prop := (Z.of_nat (set_EncodeNumBytes s) < 2 ^ 32)%Z.

Lemma set_entries_ok items :
  Forall elem_ok items -> key_sorted items -> entries_ok KSet (set_Encode1 <$> items).
Proof.
  intros Hi Hs. constructor.
  - apply Forall_fmap. eapply Forall_impl; [exact Hi|]. intros kv Hkv. by exists kv.
  - apply (ordered_from_sorted set_orderedKey set_Encode1 id items None).
    + eapply Forall_impl; [exact Hi|]. intros kv Hkv. simpl.
      rewrite <- (app_nil_r (set_Encode1 kv)). by apply set_orderedKey_entry.
    + by rewrite list_fmap_id.
Qed.

(** ** Lists *)

Lemma list_entries_ok items :
  Forall (fun s => Z.of_nat (len s + 4) < 2 ^ 32)%Z items ->
  entries_ok KList (list_Encode1 <$> items).
Proof.
  intros Hi. constructor; [|done].
  apply Forall_fmap. eapply Forall_impl; [exact Hi|]. intros s Hs. by exists s.
Qed.

(** ** Blobs: every byte is an entry *)

Definition blob_entries (b : bytes) : list bytes := (fun x => [x]) <$> b.

(** [FixedSegment(data, num_bytes, 1)]. *)
Definition blob_segment (b : bytes) : Segment := mkSeg b (length b) (FixedSegment 1).

Lemma concat_blob_entries b : concat (blob_entries b) = b.
Proof.
  unfold blob_entries. induction b as [|x b IH]; [done|].
  rewrite fmap_cons. cbn [concat app]. by rewrite IH.
Qed.

Lemma blob_entries_ones b : Forall (fun e => length e = 1) (blob_entries b).
Proof. unfold blob_entries. apply Forall_fmap, Forall_forall. done. Qed.

Lemma blob_entries_ok b : entries_ok KBlob (blob_entries b).
Proof. constructor; [apply blob_entries_ones|done]. Qed.

Lemma blob_segment_rep b : seg_rep (blob_segment b) (blob_entries b).
Proof.
  constructor; simpl.
  - exists []. by rewrite concat_blob_entries, app_nil_r.
  - by rewrite concat_blob_entries.
  - split; [lia|apply blob_entries_ones].
  - apply (entries_ne KBlob), blob_entries_ones.
Qed.

Section Leaf.
Context `{HashFunction} `{Uninit}.

(** One chunk made of one segment of entries, parsed again. *)
Lemma make_and_parse k es :
  es <> [] -> entries_ok k es -> size_ok es ->
  exists ci n, Make k [segment_of es] = Some ci /\
    CreateFromChunk (ci_chunk ci) = Some n /\ node_rep n k es /\
    ci_meta_seg ci = meta_segment (mi_bytes (meta_of k es)).
Proof.
  intros Hne Hok Hsz.
  assert (Hs : segs_rep [segment_of es] [es]).
  { constructor; [|constructor]. apply segment_of_rep, (entries_ne k), Hok. }
  assert (Hm : Make k [segment_of es]
    = Some (mkCI (node_chunk k es) (meta_segment (mi_bytes (meta_of k es))))).
  { rewrite (Make_rep k _ [es] Hs); simpl; rewrite ?app_nil_r; [done..|].
    destruct k; done || by constructor. }
  destruct (CreateFromChunk_rep _ _ _ (node_chunk_rep k es Hsz) Hok) as (n & Hn & _ & Hr).
  eauto 10.
Qed.

(** The item at a position of a map node, as the iterators read it. *)
Definition node_kv (n : SeqNode) (i : nat) : option KVItem :=
  e ← node_data n i;
  it ← map_kvitem e;
  k ← read_bytes 0 (snd (fst (fst it))) (fst (fst (fst it)));
  v ← read_bytes 0 (snd (snd (fst it))) (fst (snd (fst it)));
  Some (mkKV k v).

Lemma node_kv_rep n items i it :
  node_rep n KMap (map_Encode1 <$> items) -> Forall item_ok items ->
  items !! i = Some it -> node_kv n i = Some it.
Proof.
  intros Hn Hi Hlk. unfold node_kv.
  destruct (node_data_rep _ _ _ i (map_Encode1 it) Hn) as [rest ->];
    [by rewrite list_lookup_fmap, Hlk|]. osimpl.
  pose proof (Forall_lookup_1 _ _ _ _ Hi Hlk) as Hok.
  unfold map_kvitem.
  destruct (map_entry_decode it (concat (drop (S i) (map_Encode1 <$> items)) ++ rest) Hok)
    as [-> ->].
  osimpl. cbn [fst snd]. unfold len.
  rewrite !read_bytes_app_l, !read_bytes_all by lia. osimpl. by destruct it.
Qed.

(** [FindIndexForKey] on a map node. *)
Lemma map_FindIndexForKey n items key :
  node_rep n KMap (map_Encode1 <$> items) -> Forall item_ok items ->
  LeafNode_FindIndexForKey n (FromSlice key) = Some (lower_bound (kv_key <$> items) key).
Proof.
  intros Hn Hi. unfold LeafNode_FindIndexForKey. rewrite (nr_kind _ _ _ Hn). unfold MapNode_FindIndexForKey.
  destruct (chunk_rep_data _ _ _ (nr_chunk _ _ _ Hn)) as [rest ->]. osimpl.
  rewrite (nr_offs _ _ _ Hn). unfold node_payload. rewrite <- app_assoc.
  pose proof (find_key_rep map_orderedKey (map_Encode1 <$> items) (kv_key <$> items)
    (le_encode 4 (Z.of_nat (length (map_Encode1 <$> items)))) rest key 0) as F.
  rewrite length_le_encode in F. rewrite F; [done|].
  apply Forall2_fmap, Forall_Forall2_diag.
  eapply Forall_impl; [exact Hi|]. intros kv Hkv r. by apply map_orderedKey_entry.
Qed.

(** ** Properties *)

(** Map leaves round trip: for items with strictly increasing keys that
    fit the size fields, [MapNode::Encode], [MapChunker::Make] and the parser
    [CreateFromChunk] all succeed, the parsed node has exactly these items in
    this order, and [FindIndexForKey] finds each of them by its key. *)
Theorem map_leaf_roundtrip items :
  items <> [] -> key_sorted (kv_key <$> items) -> size_ok (map_Encode1 <$> items) ->
  exists seg ci n, map_Encode items = Some seg /\ Make KMap [seg] = Some ci /\
    CreateFromChunk (ci_chunk ci) = Some n /\ numEntries n = Some (length items) /\
    forall i it, items !! i = Some it ->
      node_kv n i = Some it /\ LeafNode_FindIndexForKey n (FromSlice (kv_key it)) = Some i.
Proof.
  intros Hne Hs Hsz. pose proof (size_ok_items _ Hsz) as Hi.
  destruct (map_Encode_rep _ Hne Hi Hs) as [He _].
  destruct (make_and_parse KMap (map_Encode1 <$> items)) as (ci & n & Hm & Hp & Hr & _);
    [by destruct items|by apply map_entries_ok|done|].
  exists (segment_of (map_Encode1 <$> items)), ci, n. split_and!; [done..| |].
  - by rewrite (numEntries_rep _ _ _ Hr), length_fmap.
  - intros i it Hlk. split; [by eapply node_kv_rep|].
    rewrite (map_FindIndexForKey _ items) by done. f_equal.
    apply lower_bound_sorted; [done|]. by rewrite list_lookup_fmap, Hlk.
Qed.

End Leaf.

Definition two_items : list KVItem := [mkKV [x61] [x01; x02]; mkKV [x62; x00] []].

Lemma map_leaf_roundtrip_witness :
  exists seg ci n, map_Encode two_items = Some seg /\
    @Make plain_hash zeroed KMap [seg] = Some ci /\
    CreateFromChunk (ci_chunk ci) = Some n /\ numEntries n = Some 2 /\
    forall i it, two_items !! i = Some it ->
      node_kv n i = Some it /\ LeafNode_FindIndexForKey n (FromSlice (kv_key it)) = Some i.
Proof.
  apply (@map_leaf_roundtrip plain_hash zeroed two_items);
    [done | repeat constructor | vm_compute; reflexivity].
Defined.

(** What the encoders reject: [MapNode::Encode] and [SetNode::Encode]
    return exactly when their argument is not empty and strictly increasing;
    otherwise (an empty list, a duplicate or a misplaced key) a [CHECK] ends
    the process. *)
Theorem encode_rejects items elems :
  (is_Some (map_Encode items) <-> items <> [] /\ key_sorted (kv_key <$> items)) /\
  (is_Some (set_Encode elems) <-> elems <> [] /\ key_sorted elems).
Proof.
  assert (G : forall k keys B (b : B), is_Some (check_increasing (FromSlice k) keys;; Some b)
              <-> key_sorted (k :: keys)).
  { intros k keys B b. rewrite <- check_increasing_spec.
    destruct (check_increasing (FromSlice k) keys) as [[]|]; osimpl; split;
      intros; eauto; by apply is_Some_None in H || done. }
  split.
  - destruct items as [|it items]; simpl.
    + split; [by intros ?%is_Some_None|by intros [? _]].
    + rewrite G. split; [done|by intros [_ ?]].
  - destruct elems as [|it elems]; simpl.
    + split; [by intros ?%is_Some_None|by intros [? _]].
    + rewrite G. split; [done|by intros [_ ?]].
Qed.

(** Descent in an inner node: on a parsed meta node whose entries decode
    to [ms], [GetChildHashByIndex] returns the child that contains element [x]
    (the sum of the elements of the children before it is at most [x], and
    with it exceeds [x]), or the empty hash and [numEntries] when there is no
    such element; [numElementsUntilEntry] is that sum. *)
Theorem meta_descent_by_index `{HashFunction} n ms x :
  node_rep n KMeta (mi_bytes <$> ms) -> Forall mi_ok ms -> ms <> [] ->
  (elements_below ms < 2 ^ 64)%Z -> (0 <= x)%Z ->
  (exists i m, ms !! i = Some m /\ GetChildHashByIndex n x = Some (Some (mi_hash m), i) /\
     numElementsUntilEntry n i = Some (elements_below (take i ms)) /\
     (elements_below (take i ms) <= x < elements_below (take i ms) + mi_elements m)%Z)
  \/ ((elements_below ms <= x)%Z /\ GetChildHashByIndex n x = Some (None, length ms)).
Proof.
  intros Hn Hms Hne Hb Hx. rewrite (meta_GetChildHashByIndex _ _ Hn Hms) by done.
  destruct (child_of_index_spec ms x 0 Hms Hx) as [(i & m & Hi & -> & Hr)|(Hr & ->)].
  - left. exists i, m. split_and!; [done..| |lia|lia].
    apply (meta_numElementsUntilEntry _ _ Hn Hms); [|done].
    apply lookup_lt_Some in Hi. lia.
  - right. done.
Qed.

Definition two_metas : list MetaInfo :=
  [mkMI 1 3 (replicate 20 x0a) (OrderedKey_value 0);
   mkMI 1 4 (replicate 20 x0b) (OrderedKey_value 0)].

Definition two_meta_node : SeqNode :=
  mkNode KMeta (chunk_make kMeta (node_payload KMeta (mi_bytes <$> two_metas)))
         (offsets_from 4 (mi_bytes <$> two_metas)).

Lemma two_metas_ok : Forall mi_ok two_metas.
Proof.
  unfold two_metas.
  repeat (constructor; [split_and!; (by vm_compute) || (intros _; by vm_compute)|]).
  constructor.
Qed.

Lemma two_meta_node_rep : @node_rep plain_hash two_meta_node KMeta (mi_bytes <$> two_metas).
Proof.
  constructor; [done|apply chunk_rep_make; by vm_compute|apply mi_entries_ok, two_metas_ok|done].
Qed.

Lemma meta_descent_by_index_witness :
  GetChildHashByIndex two_meta_node 5 = Some (Some (replicate 20 x0b), 1) /\
  ((exists i m, two_metas !! i = Some m /\
     GetChildHashByIndex two_meta_node 5 = Some (Some (mi_hash m), i) /\
     numElementsUntilEntry two_meta_node i = Some (elements_below (take i two_metas)) /\
     (elements_below (take i two_metas) <= 5 < elements_below (take i two_metas) + mi_elements m)%Z)
   \/ ((elements_below two_metas <= 5)%Z /\
       GetChildHashByIndex two_meta_node 5 = Some (None, length two_metas))).
Proof.
  split; [vm_compute; reflexivity|].
  apply (@meta_descent_by_index plain_hash two_meta_node two_metas 5);
    [apply two_meta_node_rep|apply two_metas_ok|done|by vm_compute|lia].
Defined.
