(* ===== verification/Store.v ===== *)
(** * Chunk storage: [include/store/chunk_store.h],
      [src/chunk/chunk_loader.cc], [src/chunk/chunk_writer.cc],
      [include/cluster/partitioner.h], [src/cluster/chunk_client.cc],
      [src/cluster/chunk_service.cc]

    [ChunkStore] is the interface of the storage engines; [ChunkStoreSpec] is
    its contract: a partial map from hashes to chunks, [map_store] an instance.  On top of it: the
    caching loader, and the loader and writer that spread chunks over the
    nodes of a cluster by hash.  Requests are handled one at a time. *)

From S2P Require Import Prelude Types Slice HashVal Chunk.

(** ** The storage engine interface *)

Class ChunkStore (St : Type) := {
  cs_Get : St -> Hash -> Chunk;
  cs_Put : St -> Hash -> Chunk -> bool * St;
  cs_Exists : St -> Hash -> bool
}.

(** The contract: a map from hashes to chunks; [Put] of a hash that is present
    keeps the chunk that is there. *)
Class ChunkStoreSpec (St : Type) `{ChunkStore St} := {
  contents : St -> gmap Hash Chunk;
  Get_spec : forall s h, cs_Get s h = default chunk_null (contents s !! h);
  Exists_spec : forall s h, cs_Exists s h = bool_decide (is_Some (contents s !! h));
  Put_spec : forall s h c s', cs_Put s h c = (true, s') ->
    contents s' = (if decide (is_Some (contents s !! h)) then contents s
                   else <[h := c]> (contents s));
  Put_false : forall s h c s', cs_Put s h c = (false, s') -> contents s' = contents s
}.

(** A store that is such a map, for witnesses and as the reference. *)
Definition map_store : ChunkStore (gmap Hash Chunk) :=
  {| cs_Get s h := default chunk_null (s !! h);
     cs_Put s h c := (true, if decide (is_Some (s !! h)) then s else <[h := c]> s);
     cs_Exists s h := bool_decide (is_Some (s !! h)) |}.

Definition map_store_spec : @ChunkStoreSpec (gmap Hash Chunk) map_store.
Proof.
  refine {| contents := (fun s : gmap Hash Chunk => s) : gmap Hash Chunk -> gmap Hash Chunk |}.
  - done.
  - done.
  - intros s h c s'. simpl. by intros [= <-].
  - intros s h c s'. simpl. by intros [=].
Defined.

Lemma Put_Get {St} `{ChunkStoreSpec St} s h c s' :
  cs_Put s h c = (true, s') ->
  cs_Get s' h = default c (contents s !! h).
Proof.
  intros HP. rewrite Get_spec, (Put_spec _ _ _ _ HP).
  case_decide as Hd.
  - by destruct Hd as [c0 ->].
  - rewrite lookup_insert_eq. apply eq_None_not_Some in Hd. by rewrite Hd.
Qed.

(** No write of the storage engine fails. *)
Definition puts_succeed {St} `{ChunkStore St} : Prop :=
  forall (s : St) h c, fst (cs_Put s h c) = true.

Lemma put_contents {St} `{ChunkStoreSpec St} (st : St) h c :
  puts_succeed (St := St) ->
  contents (snd (cs_Put st h c))
  = (if decide (is_Some (contents st !! h)) then contents st else <[h := c]> (contents st)).
Proof.
  intros Hp. specialize (Hp st h c). destruct (cs_Put st h c) as [ok st'] eqn:E.
  simpl in Hp. subst ok. by apply Put_spec in E.
Qed.

(** ** [ChunkLoader] *)

(** [cache_]. *)
Abbreviation LoaderCache := (gmap Hash Chunk).

(** [ChunkLoader::Load]; [get] is the subclass's [GetChunk]. *)
Definition ldr_Load (get : Hash -> option Chunk) (cache : LoaderCache) (key : Hash) :
  option (Chunk * LoaderCache) :=
  CHECK (negb (hash_empty key));;
  match cache !! key with
  | Some c => Some (c, cache)
  | None =>
      c ← get key;
      Some (c, <[key := c]> cache)
  end.

Section Local.
Context {St : Type} `{ChunkStore St}.

(** [LocalChunkLoader::GetChunk] and [LocalChunkWriter::Write]. *)
Definition local_GetChunk (s : St) (key : Hash) : option Chunk := Some (cs_Get s key).

Definition local_Write (s : St) (key : Hash) (c : Chunk) : bool * St := cs_Put s key c.

End Local.

(** A cache that agrees with the storage behind it. *)
Definition cache_ok (get : Hash -> option Chunk) (cache : LoaderCache) : Prop :=
  forall k c, cache !! k = Some c -> get k = Some c.

Lemma Load_ok get cache key c cache' :
  cache_ok get cache -> ldr_Load get cache key = Some (c, cache') ->
  get key = Some c /\ cache_ok get cache'.
Proof.
  intros Hok. unfold ldr_Load. destruct (hash_empty key); [done|]. osimpl.
  destruct (cache !! key) as [c0|] eqn:E.
  - intros [= <- <-]. auto.
  - destruct (get key) as [c0|] eqn:Eg; [|done]. osimpl. intros [= <- <-].
    split; [done|]. intros k c. destruct (decide (k = key)) as [->|Hne].
    + rewrite lookup_insert_eq. congruence.
    + rewrite lookup_insert_ne by done. apply Hok.
Qed.

(** ** The cluster: [Partitioner], [ChunkClient], [ChunkService] *)

(** [Partitioner::GetDestId]: eight bytes of the hash, from the tenth on,
    modulo the number of nodes. *)
Definition GetDestId (num_dests : nat) (hash : Hash) : option nat :=
  if num_dests =? 1 then Some 0
  else
    v ← hash; idx ← read_u64 9 v;
    if decide (num_dests = 0) then None
    else Some (Z.to_nat (idx mod Z.of_nat num_dests)).

(** [Partitioner::GetDestId(key)] for keys. *)
Definition GetDestId_key `{HashFunction} (num_dests : nat) (key : Slice) : option nat :=
  GetDestId num_dests (Some (ComputeFrom key)).

Lemma GetDestId_total n v :
  0 < n -> length v = kByteLength -> exists d, GetDestId n (Some v) = Some d /\ d < n.
Proof.
  intros Hn Hv. unfold GetDestId. destruct (Nat.eqb_spec n 1) as [->|Hn1]; [eauto with lia|].
  osimpl. unfold read_u, read_bytes. rewrite decide_True by (rewrite Hv; unfold kByteLength; lia).
  osimpl. rewrite decide_False by lia. eexists. split; [done|].
  pose proof (Z.mod_pos_bound (le_decode (take 8 (drop 9 v))) (Z.of_nat n)). lia.
Qed.

Section Cluster.
Context {St : Type} `{ChunkStore St}.

(** A cluster is the list of the stores of its nodes, by id. *)

(** [ChunkService::Handle*Request] on the node that received the message; a
    chunk travels as its bytes, without the cached hash. *)
Definition resend (c : Chunk) : option Chunk :=
  h ← head_ c; n ← chunk_numBytes c;
  b ← read_bytes 0 (Z.to_nat n) h; Some (chunk_of_head b).

Definition HandlePutChunkRequest (s : St) (hash : Hash) (c : Chunk) : ErrorCode * St :=
  let '(ok, s') := cs_Put s hash c in
  (if ok : bool then kOK else kFailedCreateChunk, s').

Definition HandleGetChunkRequest (s : St) (hash : Hash) : option (ErrorCode * Chunk) :=
  let c := cs_Get s hash in
  if chunk_empty c then Some (kChunkNotExists, chunk_null)
  else c' ← resend c; Some (kOK, c').

Definition HandleExistChunkRequest (s : St) (hash : Hash) : ErrorCode * bool :=
  (kOK, cs_Exists s hash).

(** [ChunkClient::Get], [Put], [Exists]: the request goes to the node the
    partitioner names, and the response is the handler's. *)
Definition client_Get (cl : list St) (hash : Hash) : option (ErrorCode * Chunk) :=
  d ← GetDestId (length cl) hash;
  s ← cl !! d;
  HandleGetChunkRequest s hash.

Definition client_Put (cl : list St) (hash : Hash) (c : Chunk) : option (ErrorCode * list St) :=
  d ← GetDestId (length cl) hash;
  s ← cl !! d;
  c' ← resend c;
  let '(code, s') := HandlePutChunkRequest s hash c' in
  Some (code, <[d := s']> cl).

Definition client_Exists (cl : list St) (hash : Hash) : option (ErrorCode * bool) :=
  d ← GetDestId (length cl) hash;
  s ← cl !! d;
  Some (HandleExistChunkRequest s hash).

(** [PartitionedChunkLoader::GetChunk] on node [id]. *)
Definition part_GetChunk (id : nat) (cl : list St) (key : Hash) : option Chunk :=
  d ← GetDestId (length cl) key;
  if d =? id then s ← cl !! id; Some (cs_Get s key)
  else
    r ← client_Get cl key;
    CHECK (bool_decide (fst r = kOK));;
    Some (snd r).

(** [PartitionedChunkWriter::Write] on node [id]. *)
Definition part_Write (id : nat) (cl : list St) (key : Hash) (c : Chunk) : option (bool * list St) :=
  d ← GetDestId (length cl) key;
  if d =? id then
    s ← cl !! id;
    let '(ok, s') := cs_Put s key c in Some (ok, <[id := s']> cl)
  else
    r ← client_Put cl key c;
    CHECK (bool_decide (fst r = kOK));;
    Some (true, snd r).

End Cluster.

Lemma resend_rep `{HashFunction} c t p :
  chunk_rep c t p -> resend c = Some (chunk_make t p).
Proof.
  intros Hc. unfold resend. rewrite (chunk_rep_numBytes _ _ _ Hc).
  destruct (cr_head _ _ _ Hc) as [rest Hh]. rewrite Hh. osimpl.
  rewrite Nat2Z.id, <- (length_chunk_bytes t p).
  by rewrite read_bytes_app_l, read_bytes_all by lia.
Qed.

Lemma chunk_rep_nonempty `{HashFunction} c t p : chunk_rep c t p -> chunk_empty c = false.
Proof. intros [[rest Hh] _ _]. unfold chunk_empty. by rewrite Hh. Qed.

(** ** Properties *)

(** C30.  A chunk written through the partitioned writer of any node of the
    cluster is what the partitioned loader of any other node returns, whether
    the destination is local or remote on either side; the only assumption on
    what was stored before is that no other chunk has the same hash. *)
Theorem cluster_read_your_writes `{HashFunction} {St} `{ChunkStoreSpec St}
    (cl cl' : list St) i j v c t p :
  length v = kByteLength -> chunk_rep c t p -> i < length cl -> j < length cl ->
  (forall s c0, s ∈ cl -> contents s !! Some v = Some c0 -> chunk_rep c0 t p) ->
  part_Write i cl (Some v) c = Some (true, cl') ->
  exists c', part_GetChunk j cl' (Some v) = Some c' /\ chunk_rep c' t p.
Proof.
  intros Hv Hc Hi Hj Hsame HW.
  destruct (GetDestId_total (length cl) v ltac:(lia) Hv) as (d & Hd & Hdl).
  destruct (lookup_lt_is_Some_2 cl d Hdl) as [s Hs].
  (* whichever way the write went, the destination now answers with the chunk *)
  assert (HC : exists s' c1, cl' = <[d := s']> cl /\ cs_Get s' (Some v) = c1 /\ chunk_rep c1 t p).
  { unfold part_Write in HW. rewrite Hd in HW. osimpl in HW.
    assert (Hold : forall c0, chunk_rep c0 t p ->
      chunk_rep (default c0 (contents s !! Some v)) t p).
    { intros c0 Hc0. destruct (contents s !! Some v) as [c1|] eqn:E; [|done].
      eapply Hsame; [|done]. by eapply list_elem_of_lookup_2. }
    destruct (Nat.eqb_spec d i) as [<-|Hne].
    - rewrite Hs in HW. osimpl in HW. destruct (cs_Put s (Some v) c) as [ok s'] eqn:EP.
      simplify_eq. exists s', (cs_Get s' (Some v)). split_and!; [done..|].
      rewrite (Put_Get _ _ _ _ EP). by apply Hold.
    - unfold client_Put in HW. rewrite Hd in HW. osimpl in HW. rewrite Hs in HW. osimpl in HW.
      rewrite (resend_rep _ _ _ Hc) in HW. osimpl in HW. unfold HandlePutChunkRequest in HW.
      destruct (cs_Put s (Some v) (chunk_make t p)) as [ok s'] eqn:EP.
      destruct ok; simpl in HW; [|done]. simplify_eq.
      exists s', (cs_Get s' (Some v)). split_and!; [done..|].
      rewrite (Put_Get _ _ _ _ EP). apply Hold, chunk_rep_make, (cr_size _ _ _ Hc). }
  destruct HC as (s' & c1 & -> & Hget & Hc1).
  assert (Hs' : <[d := s']> cl !! d = Some s') by (by apply list_lookup_insert_eq).
  unfold part_GetChunk, client_Get. rewrite length_insert, Hd. osimpl.
  rewrite Hs'. destruct (Nat.eqb_spec d j) as [<-|Hne].
  - rewrite Hs'. osimpl. rewrite Hget. eauto.
  - osimpl. unfold HandleGetChunkRequest.
    rewrite Hget, (chunk_rep_nonempty _ _ _ Hc1), (resend_rep _ _ _ Hc1). osimpl. simpl.
    eexists. split; [done|]. apply chunk_rep_make, (cr_size _ _ _ Hc).
Qed.

Definition sample_chunk : Chunk := chunk_make kBlob [x01; x02; x03].
Definition sample_hash : bytes := replicate 20 x07.

Definition sample_cluster : list (gmap Hash Chunk) :=
  [∅; ∅; <[ Some sample_hash := sample_chunk ]> ∅].

Lemma sample_write :
  @part_Write _ map_store 0 [∅; ∅; ∅] (Some sample_hash) sample_chunk
  = Some (true, sample_cluster).
Proof.
  assert (Hd : GetDestId 3 (Some sample_hash) = Some 2) by (vm_compute; reflexivity).
  assert (Hr : resend sample_chunk = Some sample_chunk).
  { apply (@resend_rep plain_hash), chunk_rep_make. by vm_compute. }
  unfold part_Write, client_Put. cbn [length]. rewrite Hd. osimpl. cbn [Nat.eqb].
  change ([∅; ∅; ∅] !! 2) with (Some (∅ : gmap Hash Chunk)). osimpl. rewrite Hr. osimpl.
  unfold HandlePutChunkRequest. cbn [cs_Put map_store].
  rewrite decide_False by (by rewrite lookup_empty; intros [? ?]). done.
Qed.

Lemma cluster_read_your_writes_witness :
  exists cl' c', @part_Write _ map_store 0 [∅; ∅; ∅] (Some sample_hash) sample_chunk
                 = Some (true, cl') /\
    @part_GetChunk _ map_store 2 cl' (Some sample_hash) = Some c' /\
    @chunk_rep plain_hash c' kBlob [x01; x02; x03].
Proof.
  exists sample_cluster.
  destruct (@cluster_read_your_writes plain_hash _ map_store map_store_spec
    [∅; ∅; ∅] sample_cluster 0 2 sample_hash sample_chunk kBlob [x01; x02; x03])
    as (c' & Hc' & Hr).
  - reflexivity.
  - apply (@chunk_rep_make plain_hash). by vm_compute.
  - simpl. lia.
  - simpl. lia.
  - intros s c0 Hin. rewrite !elem_of_cons, elem_of_nil in Hin.
    destruct Hin as [->|[->|[->|[]]]]; simpl; by rewrite lookup_empty.
  - exact sample_write.
  - exists c'. split; [exact sample_write|]. split; [exact Hc'|exact Hr].
Defined.

(** The loader's cache is transparent over a fixed store: every [Load]
    returns the stored chunk (or the empty chunk when there is none) and
    leaves a cache of which the same holds.  It caches absence too: once a
    missing hash was looked up, the loader keeps returning the empty chunk
    after the chunk has been stored. *)
Theorem loader_cache {St} `{ChunkStoreSpec St} (s : St) cache v :
  cache_ok (local_GetChunk s) cache ->
  exists cache', ldr_Load (local_GetChunk s) cache (Some v)
    = Some (default chunk_null (contents s !! Some v), cache') /\
    cache_ok (local_GetChunk s) cache' /\
    (contents s !! Some v = None ->
     forall c s', cs_Put s (Some v) c = (true, s') ->
       cs_Get s' (Some v) = c /\
       ldr_Load (local_GetChunk s') cache' (Some v) = Some (chunk_null, cache')).
Proof.
  intros Hok.
  destruct (ldr_Load (local_GetChunk s) cache (Some v)) as [[c0 cache']|] eqn:E.
  - exists cache'. destruct (Load_ok _ _ _ _ _ Hok E) as [Hg Hok'].
    unfold local_GetChunk in Hg. rewrite Get_spec in Hg. simplify_eq.
    split_and!; [done..|]. intros Hnone c s' HP. split.
    + by rewrite (Put_Get _ _ _ _ HP), Hnone.
    + assert (Hin : cache' !! Some v = Some chunk_null).
      { unfold ldr_Load, local_GetChunk in E. rewrite Get_spec, Hnone in E. simpl in E.
        destruct (cache !! Some v) as [c1|] eqn:Ec; injection E; intros <-; [congruence|].
        apply lookup_insert_eq. }
      unfold ldr_Load. simpl. by rewrite Hin.
  - exfalso. unfold ldr_Load in E. simpl in E. by destruct (cache !! Some v).
Qed.

Lemma loader_cache_witness :
  exists cache', @ldr_Load (@local_GetChunk _ map_store ∅) ∅ (Some sample_hash)
    = Some (chunk_null, cache') /\
    @ldr_Load (@local_GetChunk _ map_store {[ Some sample_hash := sample_chunk ]}) cache'
      (Some sample_hash) = Some (chunk_null, cache').
Proof.
  destruct (@loader_cache _ map_store map_store_spec ∅ ∅ sample_hash) as (cache' & E & _ & Hneg).
  - intros k c. by rewrite lookup_empty.
  - exists cache'. split; [exact E|].
    destruct (Hneg eq_refl sample_chunk {[ Some sample_hash := sample_chunk ]}) as [_ Hl];
      [reflexivity|exact Hl].
Defined.
