(* ===== verification/Cursor.v ===== *)
(** * Cursors: [include/node/cursor.h], [src/node/cursor.cc]

    A [NodeCursor] is a node, an index in it and a parent cursor; the model is
    the list of these levels, the cursor's own level first.  [load] is
    [ChunkLoader::Load] followed by nothing else: the memory of the chunk. *)

From S2P Require Import Prelude Types Slice HashVal Chunk RollingHash Node NodeSearch Chunker.

(** ** [struct IndexRange] *)

Record IndexRange := mkIR { start_idx : Z; num_subsequent : Z }.

#[export] Instance IndexRange_eq_dec : EqDecision IndexRange.
Proof. solve_decision. Defined.

(** [IndexRange::Compact(ranges)], the loop: [curr] is [curr_cr]. *)
Fixpoint compact_loop (curr : IndexRange) (pre_upper : Z) (ranges : list IndexRange) :
  option (list IndexRange) :=
  match ranges with
  | [] => Some [curr]
  | r :: ranges' =>
      CHECK (negb (num_subsequent r =? 0)%Z);;
      let upper := u64 (start_idx r + num_subsequent r) in
      if (pre_upper <? start_idx r)%Z then
        rest ← compact_loop r upper ranges'; Some (curr :: rest)
      else if (pre_upper =? start_idx r)%Z then
        compact_loop (mkIR (start_idx curr) (u64 (num_subsequent curr + num_subsequent r)))
                     upper ranges'
      else LOG_FATAL
  end.

Definition Compact (ranges : list IndexRange) : option (list IndexRange) :=
  match ranges with
  | [] => Some []
  | r :: ranges' => compact_loop r (u64 (start_idx r + num_subsequent r)) ranges'
  end.

(** [IndexRange::Compact(range_maps)]; its checks are [DCHECK]s. *)
Fixpoint compact_maps_loop (curr : IndexRange * IndexRange) (ranges : list (IndexRange * IndexRange)) :
  option (list (IndexRange * IndexRange)) :=
  match ranges with
  | [] => Some [curr]
  | r :: ranges' =>
      let '(cl, cr) := curr in
      let '(l, r') := r in
      let pre_lhs := u64 (start_idx cl + num_subsequent cl) in
      let pre_rhs := u64 (start_idx cr + num_subsequent cr) in
      if ((pre_lhs <? start_idx l) || (pre_rhs <? start_idx r'))%Z then
        rest ← compact_maps_loop (l, r') ranges'; Some (curr :: rest)
      else if ((pre_lhs =? start_idx l) && (pre_rhs =? start_idx r'))%Z then
        compact_maps_loop
          (mkIR (start_idx cl) (u64 (num_subsequent cl + num_subsequent l)),
           mkIR (start_idx cr) (u64 (num_subsequent cr + num_subsequent r'))) ranges'
      else LOG_FATAL
  end.

Definition Compact_maps (ranges : list (IndexRange * IndexRange)) :
  option (list (IndexRange * IndexRange)) :=
  match ranges with
  | [] => Some []
  | r :: ranges' => compact_maps_loop r ranges'
  end.

(** ** [class NodeCursor] *)

Record CurLevel := mkCur { seq_node_ : SeqNode; idx_ : Z }.

Abbreviation NodeCursor := (list CurLevel).

(** [int32_t(seq_node_->numEntries())]. *)
Definition nentries (l : CurLevel) : option Z :=
  (fun n => i32 (Z.of_nat n)) <$> numEntries (seq_node_ l).

Definition set_idx (l : CurLevel) (i : Z) : CurLevel := mkCur (seq_node_ l) i.

Definition isEnd (l : CurLevel) : option bool :=
  ne ← nentries l; Some (idx_ l =? ne)%Z.

Definition isBegin (l : CurLevel) : bool := (idx_ l =? -1)%Z.

(** [seek]. *)
Definition seek (l : CurLevel) (idx : Z) : option CurLevel :=
  CHECK (0 <=? idx)%Z;;
  ne ← nentries l;
  CHECK (idx <=? ne)%Z;;
  Some (set_idx l idx).

(** [current]: at the sequence start the result is the null pointer, which no
    caller may read ([None]); at the end it is the byte after the last entry. *)
Definition current (l : CurLevel) : option bytes :=
  if (idx_ l =? -1)%Z then None
  else
    ne ← nentries l;
    if (idx_ l =? ne)%Z then
      d ← node_data (seq_node_ l) (Z.to_nat (idx_ l - 1));
      n ← node_len (seq_node_ l) (Z.to_nat (idx_ l - 1));
      Some (drop n d)
    else node_data (seq_node_ l) (Z.to_nat (idx_ l)).

Definition numCurrentBytes (l : CurLevel) : option nat :=
  if (idx_ l =? -1)%Z then Some 0
  else
    ne ← nentries l;
    if (idx_ l =? ne)%Z then Some 0 else node_len (seq_node_ l) (Z.to_nat (idx_ l)).

(** An index before the first entry fails the check in [key]. *)
Definition currentKey (l : CurLevel) : option OrderedKey :=
  if (idx_ l <? 0)%Z then None else node_key (seq_node_ l) (Z.to_nat (idx_ l)).

(** [operator==]: hashes of the nodes and indices, on every level. *)
Fixpoint cursor_eq `{HashFunction} (a b : NodeCursor) : option bool :=
  match a, b with
  | [], [] => Some true
  | x :: a', y :: b' =>
      if negb (idx_ x =? idx_ y)%Z then Some false
      else
        hx ← chunk_hash (chunk_ (seq_node_ x));
        hy ← chunk_hash (chunk_ (seq_node_ y));
        if negb (bool_decide (hx = hy)) then Some false else cursor_eq a' b'
  | _, _ => Some false
  end.

Section Cursor.
Variable load : Hash -> option Chunk.

(** [SeqNode::CreateFromChunk(loader->Load(hash))]. *)
Definition load_node (h : Hash) : option SeqNode := c ← load h; CreateFromChunk c.

(** [MetaNode::FindIndexForKey] and the leaves' versions; [fuel] bounds the
    height of the tree. *)
Fixpoint FindIndexForKey (fuel : nat) (n : SeqNode) (key : OrderedKey) : option Z :=
  match fuel with
  | O => None
  | S fuel' =>
      if isLeaf n then Z.of_nat <$> LeafNode_FindIndexForKey n key
      else
        d ← chunk_data (chunk_ n);
        (fix loop (offs : list nat) (num_elements_sum : Z) : option Z :=
           match offs with
           | [] => Some num_elements_sum
           | off :: offs' =>
               k ← me_orderedKey (drop off d);
               le ← key_le key k;
               if le : bool then
                 h ← me_targetHash (drop off d);
                 child ← load_node h;
                 i ← FindIndexForKey fuel' child key;
                 Some (u64 (num_elements_sum + i))
               else
                 e ← me_numElements (drop off d);
                 loop offs' (u64 (num_elements_sum + e))
           end) (offsets_ n) 0%Z
  end.

(** The descent of [NodeCursor(hash, idx, loader)]. *)
Fixpoint descend_index (fuel : nat) (n : SeqNode) (element_idx : Z) (parents : NodeCursor) :
  option NodeCursor :=
  match fuel with
  | O => None
  | S fuel' =>
      ne ← numEntries n;
      if isLeaf n then
        let entry_idx := if (Z.of_nat ne <? element_idx)%Z then Z.of_nat ne else element_idx in
        Some (mkCur n (i32 entry_idx) :: parents)
      else
        r ← GetChildHashByIndex n element_idx;
        r' ← (if hash_empty (fst r) then
                CHECK (snd r =? ne);;
                h ← GetChildHashByEntry n (ne - 1); Some (h, ne - 1)
              else Some r);
        below ← numElementsUntilEntry n (snd r');
        child ← load_node (fst r');
        descend_index fuel' child (u64 (element_idx - below))
                      (mkCur n (i32 (Z.of_nat (snd r'))) :: parents)
  end.

(** [NodeCursor(hash, idx, loader)]: [Some None] is the cursor left without a
    node because [idx] exceeds the number of elements. *)
Definition cursor_by_index (fuel : nat) (hash : Hash) (idx : Z) : option (option NodeCursor) :=
  n ← load_node hash;
  total ← numElements n;
  if (idx <=? total)%Z then Some <$> descend_index fuel n idx [] else Some None.

(** [NodeCursor(hash, key, loader)]. *)
Fixpoint descend_key (fuel : nat) (n : SeqNode) (key : OrderedKey) (parents : NodeCursor) :
  option NodeCursor :=
  match fuel with
  | O => None
  | S fuel' =>
      if isLeaf n then
        i ← LeafNode_FindIndexForKey n key;
        Some (mkCur n (i32 (Z.of_nat i)) :: parents)
      else
        ne ← numEntries n;
        r ← GetChildHashByKey n key;
        r' ← (if hash_empty (fst r) then
                CHECK (snd r =? ne);;
                h ← GetChildHashByEntry n (ne - 1); Some (h, ne - 1)
              else Some r);
        child ← load_node (fst r');
        descend_key fuel' child key (mkCur n (i32 (Z.of_nat (snd r'))) :: parents)
  end.

Definition cursor_by_key (fuel : nat) (hash : Hash) (key : OrderedKey) : option NodeCursor :=
  n ← load_node hash; descend_key fuel n key [].

(** The node that the entry at a parent cursor points to. *)
Definition child_node (parent : CurLevel) : option SeqNode :=
  d ← current parent; h ← me_targetHash d; load_node h.

(** [Advance(false)] and [Retreat(false)] touch the cursor's own level. *)
Definition advance_here (l : CurLevel) : option (bool * CurLevel) :=
  ne ← nentries l;
  let i := if ((idx_ l =? -1) || (idx_ l <? ne))%Z then (idx_ l + 1)%Z else idx_ l in
  Some ((i <? ne)%Z, set_idx l i).

Definition retreat_here (l : CurLevel) : bool * CurLevel :=
  let i := if (0 <=? idx_ l)%Z then (idx_ l - 1)%Z else idx_ l in
  ((0 <=? i)%Z, set_idx l i).

(** [Advance(cross_boundary)]. *)
Fixpoint Advance (cross_boundary : bool) (c : NodeCursor) : option (bool * NodeCursor) :=
  match c with
  | [] => None
  | l :: ps =>
      r ← advance_here l;
      let '(ok, l') := r in
      if ok : bool then Some (true, l' :: ps)
      else if negb cross_boundary then Some (false, l' :: ps)
      else
        match ps with
        | [] => Some (false, [l'])
        | _ :: _ =>
            rp ← Advance true ps;
            match snd rp with
            | [] => None
            | p :: ps' =>
                if fst rp : bool then
                  n ← child_node p; Some (true, mkCur n 0 :: p :: ps')
                else Some (false, l' :: snd (retreat_here p) :: ps')
            end
        end
  end.

(** [Retreat(cross_boundary)]. *)
Fixpoint Retreat (cross_boundary : bool) (c : NodeCursor) : option (bool * NodeCursor) :=
  match c with
  | [] => None
  | l :: ps =>
      let '(ok, l') := retreat_here l in
      if ok : bool then Some (true, l' :: ps)
      else if negb cross_boundary then Some (false, l' :: ps)
      else
        match ps with
        | [] => Some (false, [l'])
        | _ :: _ =>
            rp ← Retreat true ps;
            match snd rp with
            | [] => None
            | p :: ps' =>
                if fst rp : bool then
                  n ← child_node p; ne ← numEntries n;
                  Some (true, mkCur n (i32 (Z.of_nat ne - 1)) :: p :: ps')
                else ra ← advance_here p; Some (false, l' :: snd ra :: ps')
            end
        end
  end.

(** [AdvanceEntry]: the loop; the result is the number of entries that remain
    to be advanced and the cursor. *)
Fixpoint advance_entries (fuel : nat) (node_remain remain : Z) (c : NodeCursor) :
  option (Z * NodeCursor) :=
  match fuel, c with
  | S fuel', l :: ps =>
      if (node_remain <=? remain)%Z then
        r ← Advance true (set_idx l (i32 (idx_ l + i32 node_remain - 1)) :: ps);
        let remain' := (remain - node_remain)%Z in
        if fst r : bool then
          l' ← head (snd r);
          CHECK (idx_ l' =? 0)%Z;;
          ne ← numEntries (seq_node_ l');
          if (0 <? remain')%Z then advance_entries fuel' (Z.of_nat ne) remain' (snd r)
          else Some (remain', snd r)
        else Some (remain', snd r)
      else
        let l' := set_idx l (i32 (idx_ l + i32 remain)) in
        ne ← nentries l';
        CHECK (idx_ l' <? ne)%Z;;
        Some (0%Z, l' :: ps)
  | _, _ => None
  end.

Definition AdvanceEntry (num_advanced_entry : Z) (c : NodeCursor) : option (Z * NodeCursor) :=
  l ← head c;
  e ← isEnd l;
  r ← (if e : bool then Advance true c else Some (true, c));
  if fst r : bool then
    l' ← head (snd r);
    ne ← numEntries (seq_node_ l');
    let node_remain := u64 (i32 (Z.of_nat ne) - idx_ l') in
    res ← advance_entries (S (Z.to_nat num_advanced_entry)) node_remain num_advanced_entry (snd r);
    Some ((num_advanced_entry - fst res)%Z, snd res)
  else Some (0%Z, snd r).

(** [RetreatEntry]. *)
Fixpoint retreat_entries (fuel : nat) (node_remain remain : Z) (c : NodeCursor) :
  option (Z * NodeCursor) :=
  match fuel, c with
  | S fuel', l :: ps =>
      if (node_remain <? remain)%Z then
        r ← Retreat true (set_idx l 0 :: ps);
        let remain' := (remain - (node_remain + 1))%Z in
        if fst r : bool then
          l' ← head (snd r);
          ne ← numEntries (seq_node_ l');
          CHECK (u64 (Z.of_nat ne - 1) =? u64 (idx_ l'))%Z;;
          if (0 <? remain')%Z then retreat_entries fuel' (Z.of_nat ne - 1) remain' (snd r)
          else Some (remain', snd r)
        else Some (remain', snd r)
      else
        let l' := set_idx l (i32 (idx_ l - i32 remain)) in
        CHECK (0 <=? idx_ l')%Z;;
        Some (0%Z, l' :: ps)
  | _, _ => None
  end.

Definition RetreatEntry (num_retreat_entry : Z) (c : NodeCursor) : option (Z * NodeCursor) :=
  l ← head c;
  r ← (if isBegin l then Retreat true c else Some (true, c));
  if fst r : bool then
    l' ← head (snd r);
    res ← retreat_entries (S (Z.to_nat num_retreat_entry)) (u64 (idx_ l')) num_retreat_entry (snd r);
    Some ((num_retreat_entry - fst res)%Z, snd res)
  else Some (0%Z, snd r).

(** [AdvanceSteps], the loops over meta entries of phases 1 and 3. *)
Fixpoint adv_meta (fuel : nat) (l : CurLevel) (remain1 acc1 last_entry : Z) :
  option (CurLevel * Z * Z) :=
  match fuel with
  | O => None
  | S fuel' =>
      if (remain1 <=? 0)%Z then Some (l, acc1, remain1)
      else
        let l' := set_idx l (idx_ l + 1) in
        let acc1' := u64 (acc1 + last_entry) in
        e ← isEnd l';
        if e : bool then Some (l', acc1', remain1)
        else
          d ← current l'; n ← me_numElements d;
          adv_meta fuel' l' (i64 (remain1 - i64 n)) acc1' n
  end.

Fixpoint adv_meta3 (fuel : nat) (l : CurLevel) (acc3 remain3 : Z) : option (CurLevel * Z) :=
  match fuel with
  | O => None
  | S fuel' =>
      e ← isEnd l;
      if e : bool then Some (l, acc3)
      else
        d ← current l; n ← me_numElements d;
        if (remain3 <? u64 (acc3 + n))%Z then Some (l, acc3)
        else adv_meta3 fuel' (set_idx l (idx_ l + 1)) (u64 (acc3 + n)) remain3
  end.

(** Phase 1: [inl] when the cursor's own node has the target. *)
Definition adv_phase1 (step : Z) (l : CurLevel) (initial_end : bool) :
  option ((Z * CurLevel) + (Z * CurLevel)) :=
  if initial_end then Some (inr (0%Z, l))
  else
    ne ← numEntries (seq_node_ l);
    if isLeaf (seq_node_ l) then
      let step2last := u64 (Z.of_nat ne - 1 - idx_ l) in
      if (step <=? step2last)%Z
      then Some (inl (step, set_idx l (i32 (idx_ l + i32 step))))
      else Some (inr (step2last, set_idx l (i32 (Z.of_nat ne))))
    else
      r ← adv_meta (S (S (S ne))) l (i64 step) 0 0;
      let '(l', acc1, remain1) := r in
      Some (if (remain1 <=? 0)%Z then inl (acc1, l') else inr (acc1, l')).

Fixpoint AdvanceSteps (step : Z) (c : NodeCursor) : option (Z * NodeCursor) :=
  match c with
  | [] => None
  | l :: ps =>
      initial_end ← isEnd l;
      p1 ← adv_phase1 step l initial_end;
      match p1 with
      | inl (s, l') => Some (s, l' :: ps)
      | inr (acc1, l') =>
          match ps with
          | [] => Some (u64 (acc1 + (if initial_end : bool then 0 else 1)), [l'])
          | _ :: _ =>
              rp ← AdvanceSteps (u64 (step - acc1)) ps;
              match snd rp with
              | [] => None
              | p :: ps' =>
                  endParent ← isEnd p;
                  let p' := if endParent : bool then snd (retreat_here p) else p in
                  n ← child_node p';
                  ne ← numEntries n;
                  if endParent : bool then
                    Some (u64 (acc1 + fst rp), mkCur n (i32 (Z.of_nat ne)) :: p' :: ps')
                  else
                    let remain3 := u64 (step - acc1 - fst rp) in
                    if isLeaf n then
                      Some (u64 (acc1 + fst rp + remain3),
                            mkCur n (i32 (remain3 - 1)) :: p' :: ps')
                    else
                      r3 ← adv_meta3 (S (S ne)) (mkCur n 0) 0 remain3;
                      Some (u64 (acc1 + fst rp + snd r3), fst r3 :: p' :: ps')
              end
          end
      end
  end.

(** [RetreatSteps]. *)
Fixpoint ret_meta (fuel : nat) (l : CurLevel) (remain1 acc1 prev_entry : Z) :
  option (CurLevel * Z * Z) :=
  match fuel with
  | O => None
  | S fuel' =>
      if (remain1 <=? 0)%Z then Some (l, acc1, remain1)
      else
        let l' := set_idx l (idx_ l - 1) in
        let acc1' := u64 (acc1 + prev_entry) in
        if isBegin l' then Some (l', acc1', remain1)
        else
          d ← current l'; n ← me_numElements d;
          ret_meta fuel' l' (i64 (remain1 - i64 n)) acc1' n
  end.

Fixpoint ret_meta3 (fuel : nat) (l : CurLevel) (acc3 remain3 : Z) : option (CurLevel * Z) :=
  match fuel with
  | O => None
  | S fuel' =>
      if isBegin l then Some (l, acc3)
      else
        d ← current l; n ← me_numElements d;
        if (remain3 <? u64 (acc3 + n))%Z then Some (l, acc3)
        else ret_meta3 fuel' (set_idx l (idx_ l - 1)) (u64 (acc3 + n)) remain3
  end.

Definition ret_phase1 (step : Z) (l : CurLevel) : option ((Z * CurLevel) + (Z * CurLevel)) :=
  if isBegin l then Some (inr (0%Z, l))
  else
    ne ← numEntries (seq_node_ l);
    if isLeaf (seq_node_ l) then
      let step2first := u64 (idx_ l) in
      if (step <=? step2first)%Z
      then Some (inl (step, set_idx l (i32 (idx_ l - i32 step))))
      else Some (inr (step2first, set_idx l (-1)))
    else
      r ← ret_meta (S (S (S ne))) l (i64 step) 0 0;
      let '(l', acc1, remain1) := r in
      Some (if (remain1 <=? 0)%Z then inl (acc1, l') else inr (acc1, l')).

Fixpoint RetreatSteps (step : Z) (c : NodeCursor) : option (Z * NodeCursor) :=
  match c with
  | [] => None
  | l :: ps =>
      p1 ← ret_phase1 step l;
      match p1 with
      | inl (s, l') => Some (s, l' :: ps)
      | inr (acc1, l') =>
          match ps with
          | [] => Some (u64 (acc1 + (if isBegin l then 0 else 1)), [l'])
          | _ :: _ =>
              rp ← RetreatSteps (u64 (step - acc1)) ps;
              match snd rp with
              | [] => None
              | p :: ps' =>
                  let headParent := isBegin p in
                  ra ← advance_here p;
                  let p' := if headParent then snd ra else p in
                  n ← child_node p';
                  ne ← numEntries n;
                  if headParent then Some (u64 (acc1 + fst rp), mkCur n (-1) :: p' :: ps')
                  else
                    let remain3 := u64 (step - acc1 - fst rp) in
                    if isLeaf n then
                      Some (u64 (acc1 + fst rp + remain3),
                            mkCur n (i32 (i32 (Z.of_nat ne) - i32 remain3)) :: p' :: ps')
                    else
                      r3 ← ret_meta3 (S (S ne)) (mkCur n (i32 (Z.of_nat ne) - 1)) 0 remain3;
                      Some (u64 (acc1 + fst rp + snd r3), fst r3 :: p' :: ps')
              end
          end
      end
  end.

End Cursor.
