(* ===== verification/Builder.v ===== *)
(** * [NodeBuilder]: [include/node/node_builder.h], [src/node/node_builder.cc]

    A builder edits one level of a POS-tree; its parents edit the levels
    above.  The model of a [NodeBuilder] is the chain of builders from it to
    the topmost parent that exists, as a list.  Chunks are written to a chunk
    store and read back from it; [created_segs_] only keeps memory alive and
    is not modelled.  [fuel] bounds the number of levels and the number of
    nodes that the second loop of [RecursiveCommit] reads. *)

From S2P Require Import Prelude Types Slice HashVal Chunk RollingHash Node NodeSearch Chunker.
From S2P Require Import Store Cursor.

Record Builder := mkNB {
  cursor_ : option NodeCursor;
  appended_segs_ : list (option Segment);   (* [None]: a null pointer *)
  pre_cursor_seg_ : option Segment;
  rhasher_ : RollingHasher;
  commited_ : bool;
  num_skip_entries_ : nat
}.

Definition set_cursor (b : Builder) (c : NodeCursor) : Builder :=
  mkNB (Some c) (appended_segs_ b) (pre_cursor_seg_ b) (rhasher_ b) (commited_ b)
       (num_skip_entries_ b).
Definition set_pre (b : Builder) (s : Segment) : Builder :=
  mkNB (cursor_ b) (appended_segs_ b) (Some s) (rhasher_ b) (commited_ b) (num_skip_entries_ b).
Definition set_rhasher (b : Builder) (h : RollingHasher) : Builder :=
  mkNB (cursor_ b) (appended_segs_ b) (pre_cursor_seg_ b) h (commited_ b) (num_skip_entries_ b).
Definition set_uncommited (b : Builder) : Builder :=
  mkNB (cursor_ b) (appended_segs_ b) (pre_cursor_seg_ b) (rhasher_ b) false (num_skip_entries_ b).
Definition add_skip (b : Builder) (n : nat) : Builder :=
  mkNB (cursor_ b) (appended_segs_ b) (pre_cursor_seg_ b) (rhasher_ b) (commited_ b)
       (num_skip_entries_ b + n).
Definition append_segs (b : Builder) (segs : list (option Segment)) : Builder :=
  mkNB (cursor_ b) (appended_segs_ b ++ segs) (pre_cursor_seg_ b) (rhasher_ b) (commited_ b)
       (num_skip_entries_ b).

(** [AppendSegmentEntries]. *)
Definition AppendSegmentEntries (b : Builder) (seg : option Segment) : Builder :=
  append_segs (set_uncommited b) [seg].

Section Builder.
Context `{HashFunction} `{Uninit} {St : Type} `{ChunkStore St}.

(** The leaf chunker's kind, and the rolling hash parameters of the leaf and
    of the parent chunker. *)
Variable (kind : NodeKind) (leaf_params meta_params : ChunkerParams).

(** The chunker of a level. *)
Definition lvl_kind (leaf : bool) : NodeKind := if leaf then kind else KMeta.
Definition lvl_params (leaf : bool) : ChunkerParams := if leaf then leaf_params else meta_params.

(** [chunker_->GetRHasher()]. *)
Definition lvl_rhasher (leaf : bool) : RollingHasher :=
  GetRHasher (lvl_params leaf) (fresh (cp_window (lvl_params leaf))).

(** [NodeBuilder(level, ...)]: a builder that works on no existing tree. *)
Definition new_builder (leaf : bool) : Builder :=
  mkNB None [] None (lvl_rhasher leaf) true 0.

(** [parent_builder()]: the parents of a builder, made to exist. *)
Definition parent_builder (ps : list Builder) : list Builder :=
  match ps with [] => [new_builder false] | _ => ps end.

(** [Load] of the chunk that a store holds. *)
Definition st_load (st : St) (h : Hash) : option Chunk :=
  CHECK (negb (hash_empty h));; Some (cs_Get st h).

(** *** [Resume] *)

Fixpoint resume_var (todo : nat) (c : NodeCursor) (seg : Segment) : option (NodeCursor * Segment) :=
  match todo, c with
  | O, _ => Some (c, seg)
  | S todo', l :: ps =>
      n ← numCurrentBytes l;
      seg' ← seg_prolong seg n;
      r ← advance_here l;
      resume_var todo' (snd r :: ps) seg'
  | _, [] => None
  end.

(** The cursor goes back to the start of its node, and the segment of the
    entries before its position is collected. *)
Definition Resume (leaf : bool) (b : Builder) : option Builder :=
  c ← cursor_ b;
  match c with
  | [] => None
  | l :: ps =>
      let original_idx := idx_ l in
      l0 ← seek l 0;
      addr ← current l0;
      if isFixedEntryLen (lvl_kind leaf) then
        n ← numCurrentBytes l0;
        l1 ← seek l0 original_idx;
        cur ← current l1;
        seg ← seg_prolong (mkSeg addr 0 (FixedSegment n)) (length addr - length cur);
        Some (set_pre (set_cursor b (l1 :: ps)) seg)
      else
        r ← resume_var (Z.to_nat original_idx) (l0 :: ps) (mkSeg addr 0 (VarSegment []));
        Some (set_pre (set_cursor b (fst r)) (snd r))
  end.

(** [NodeBuilder(cursor, level, ...)]: one builder per level of the cursor. *)
Fixpoint builder_of_cursor (leaf : bool) (c : NodeCursor) : option (list Builder) :=
  match c with
  | [] => Some []
  | l :: ps =>
      parents ← builder_of_cursor false ps;
      let b := mkNB (Some c) [] None (lvl_rhasher leaf) true 0 in
      ne ← numEntries (seq_node_ l);
      b' ← (if 0 <? ne then Resume leaf b else Some b);
      Some (b' :: parents)
  end.

(** *** [SkipEntries] *)

(** [fuel] bounds the depth of the calls on parents. *)
Fixpoint SkipEntries (fuel : nat) (st : St) (num_elements : nat) (bs : list Builder) :
  option (nat * list Builder) :=
  match fuel, bs with
  | S fuel', b :: ps =>
      let b := set_uncommited b in
      match cursor_ b with
      | None => Some (0, b :: ps)
      | Some c =>
          l ← head c; e ← isEnd l;
          if e : bool then Some (0, b :: ps)
          else
            (fix loop (todo i : nat) (c : NodeCursor) (ps : list Builder) :
               option (nat * list Builder) :=
               match todo, c with
               | O, _ => Some (num_elements, add_skip (set_cursor b c) num_elements :: ps)
               | S todo', l :: cps =>
                   r ← advance_here l;
                   let c' := snd r :: cps in
                   if fst r : bool then loop todo' (S i) c' ps
                   else
                     rp ← match ps with
                          | [] => Some (true, [])
                          | _ :: _ =>
                              q ← SkipEntries fuel' st 1 ps;
                              p ← head (snd q);
                              pc ← cursor_ p;
                              pl ← head pc;
                              pe ← isEnd pl;
                              Some (pe, snd q)
                          end;
                     if fst rp : bool then
                       e ← isEnd (snd r);
                       CHECK e;;
                       Some (i, add_skip (set_cursor b c') i :: snd rp)
                     else
                       ra ← Advance (st_load st) true c';
                       CHECK (fst ra);;
                       loop todo' (S i) (snd ra) (snd rp)
               | _, [] => None
               end) num_elements 1 c ps
      end
  | _, _ => None
  end.

(** [parent_builder()->SkipEntries(1)]. *)
Definition skip_parent (st : St) (ps : list Builder) : option (list Builder) :=
  let ps := parent_builder ps in
  snd <$> SkipEntries (length ps) st 1 ps.

(** *** [HandleBoundary] *)

(** The state that [RecursiveCommit] works on: the builder, its parents, the
    store, and the last chunk made. *)
Record CommitState := mkCS {
  cs_builder : Builder;
  cs_parents : list Builder;
  cs_store : St;
  cs_last : option Chunk
}.

Definition HandleBoundary (leaf : bool) (s : CommitState) (segments : list Segment) :
  option CommitState :=
  ci ← Make (lvl_kind leaf) segments;
  h ← chunk_hash (ci_chunk ci);
  let st' := snd (cs_Put (cs_store s) h (ci_chunk ci)) in
  match parent_builder (cs_parents s) with
  | [] => None
  | p :: ps =>
      Some (mkCS (set_rhasher (cs_builder s) (rh_ClearLastBoundary (rhasher_ (cs_builder s))))
                 (AppendSegmentEntries p (Some (ci_meta_seg ci)) :: ps) st' (Some (ci_chunk ci)))
  end.

(** *** [RecursiveCommit] *)

(** The loop over [pre_cursor_seg_] and the appended segments. *)
Fixpoint commit_appended (fuel : nat) (leaf : bool) (s : CommitState) (chunk_segs : list Segment)
    (cur_seg : option Segment) (queue : list (option Segment)) :
  option (CommitState * list Segment) :=
  match fuel with
  | O => None
  | S fuel' =>
      match cur_seg with
      | None => Some (s, chunk_segs)
      | Some seg =>
          d ← seg_bytes seg;
          let '(rh, boundary_pos) := rh_TryHashBytes (rhasher_ (cs_builder s)) d in
          let s := mkCS (set_rhasher (cs_builder s) rh) (cs_parents s) (cs_store s) (cs_last s) in
          entryIdx ← seg_PosToIdx seg boundary_pos;
          r ← (if rh_CrossedBoundary rh then
                 sp ← seg_Split seg (Z.to_nat (u64 (entryIdx + 1)));
                 s' ← HandleBoundary leaf s (chunk_segs ++ [fst sp]);
                 Some (true, s', [], snd sp)
               else Some (false, s, chunk_segs, seg));
          let '(hasBoundary, s', chunk_segs', seg') := r in
          if hasBoundary && negb (seg_empty seg')
          then commit_appended fuel' leaf s' chunk_segs' (Some seg') queue
          else
            let chunk_segs'' := if seg_empty seg' then chunk_segs' else chunk_segs' ++ [seg'] in
            match queue with
            | [] => Some (s', chunk_segs'')
            | next :: queue' => commit_appended fuel' leaf s' chunk_segs'' next queue'
            end
      end
  end.

(** The loop over the entries from the cursor on, until the chunks of the new
    tree and of the old one end at the same place. *)
Fixpoint commit_cursor (fuel : nat) (leaf : bool) (s : CommitState) (chunk_segs : list Segment)
    (node_seg : Segment) : option (CommitState * list Segment) :=
  match fuel with
  | O => None
  | S fuel' =>
      d ← seg_bytes node_seg;
      let '(rh, boundary_pos) := rh_TryHashBytes (rhasher_ (cs_builder s)) d in
      let s := mkCS (set_rhasher (cs_builder s) rh) (cs_parents s) (cs_store s) (cs_last s) in
      if boundary_pos =? num_bytes_ node_seg then
        CHECK (negb (rh_CrossedBoundary rh));;
        ps ← skip_parent (cs_store s) (cs_parents s);
        let chunk_segs' := chunk_segs ++ [node_seg] in
        c ← cursor_ (cs_builder s);
        l ← head c;
        ne ← numEntries (seq_node_ l);
        ra ← AdvanceEntry (st_load (cs_store s)) (u64 (Z.of_nat ne - idx_ l)) c;
        let c' := snd ra in
        l' ← head c';
        e ← isEnd l';
        let s' := mkCS (set_cursor (cs_builder s) c') ps (cs_store s) (cs_last s) in
        if e : bool then Some (s', chunk_segs')
        else
          ne' ← numEntries (seq_node_ l');
          seg' ← GetSegment (seq_node_ l') (Z.to_nat (idx_ l')) ne';
          commit_cursor fuel' leaf s' chunk_segs' seg'
      else
        entryIdx ← seg_PosToIdx node_seg boundary_pos;
        CHECK (entryIdx <? Z.of_nat (seg_numEntries node_seg))%Z;;
        sp ← seg_Split node_seg (Z.to_nat (u64 (entryIdx + 1)));
        s' ← HandleBoundary leaf s (chunk_segs ++ [fst sp]);
        if (entryIdx =? Z.of_nat (seg_numEntries node_seg) - 1)%Z then Some (s', [])
        else commit_cursor fuel' leaf s' [] (snd sp)
  end.

(** Enough iterations for the first loop: every one of them either takes an
    entry or moves on to the next segment. *)
Definition appended_fuel (segs : list (option Segment)) : nat :=
  S (list_sum ((fun o => S (from_option seg_numEntries 0 o)) <$> segs)).

(** The three ways to make chunks, in order: the state after the last chunk of
    this level. *)
Definition commit_level (fuel : nat) (leaf : bool) (b : Builder) (ps : list Builder) (st : St) :
  option CommitState :=
  CHECK (negb (commited_ b));;
  ps ← skip_parent st ps;
  let segs := match pre_cursor_seg_ b with
              | Some s => Some s :: appended_segs_ b
              | None => appended_segs_ b
              end in
  let '(cur, queue) := match segs with [] => (None, []) | s :: q => (s, q) end in
  r1 ← commit_appended (appended_fuel segs) leaf (mkCS b ps st None) [] cur queue;
  let '(s1, chunk_segs) := r1 in
  r2 ← match cursor_ (cs_builder s1) with
       | None => Some (s1, chunk_segs)
       | Some c =>
           l ← head c; e ← isEnd l;
           if e : bool then Some (s1, chunk_segs)
           else
             CHECK (0 <=? idx_ l)%Z;;
             ne ← numEntries (seq_node_ l);
             seg ← GetSegment (seq_node_ l) (Z.to_nat (idx_ l)) (ne - Z.to_nat (idx_ l));
             commit_cursor fuel leaf s1 chunk_segs seg
       end;
  let '(s2, chunk_segs) := r2 in
  s3 ← (if 0 <? length chunk_segs then
          s2' ← match cursor_ (cs_builder s2) with
                | None => Some s2
                | Some c =>
                    l ← head c; e ← isEnd l; CHECK e;;
                    ra ← Advance (st_load (cs_store s2)) true c;
                    CHECK (negb (fst ra));;
                    Some (mkCS (set_cursor (cs_builder s2) (snd ra)) (cs_parents s2)
                               (cs_store s2) (cs_last s2))
                end;
          HandleBoundary leaf s2' chunk_segs
        else Some s2);
  match cs_last s3 with
  | Some _ => Some s3
  | None => HandleBoundary leaf s3 []
  end.

Fixpoint RecursiveCommit (fuel : nat) (leaf : bool) (b : Builder) (ps : list Builder) (st : St) :
  option (Hash * St) :=
  match fuel with
  | O => None
  | S fuel' =>
      s ← commit_level fuel' leaf b ps st;
      last ← cs_last s;
      root_hash ← chunk_hash last;
      match parent_builder (cs_parents s) with
      | [] => None
      | p :: ps' =>
          if bool_decide (is_Some (cursor_ p)) || (1 <? length (appended_segs_ p))
          then RecursiveCommit fuel' false p ps' (cs_store s)
          else Some (root_hash, cs_store s)
      end
  end.

(** One round of [RecursiveCommit]: it ends with the root, or goes on at the level
    above; [None] is a failed check. *)
Record Level := mkLevel {
  lv_leaf : bool;
  lv_builder : Builder;
  lv_parents : list Builder;
  lv_store : St
}.

Definition commit_round (fuel : nat) (l : Level) : option (Level + Hash * St) :=
  s ← commit_level fuel (lv_leaf l) (lv_builder l) (lv_parents l) (lv_store l);
  last ← cs_last s;
  root_hash ← chunk_hash last;
  match parent_builder (cs_parents s) with
  | [] => None
  | p :: ps' =>
      Some (if bool_decide (is_Some (cursor_ p)) || (1 <? length (appended_segs_ p))
            then inl (mkLevel false p ps' (cs_store s))
            else inr (root_hash, cs_store s))
  end.

Lemma RecursiveCommit_rounds fuel leaf b ps st :
  RecursiveCommit (S fuel) leaf b ps st
  = (r ← commit_round fuel (mkLevel leaf b ps st);
     match r with
     | inl l => RecursiveCommit fuel (lv_leaf l) (lv_builder l) (lv_parents l) (lv_store l)
     | inr root => Some root
     end).
Proof.
  cbn [RecursiveCommit]. unfold commit_round. cbn [lv_leaf lv_builder lv_parents lv_store].
  destruct (commit_level _ _ _ _ _) as [s|]; [|done]. osimpl. destruct (cs_last s) as [last|]; [|done]. osimpl.
  destruct (chunk_hash last); [|done]. osimpl. destruct (parent_builder (cs_parents s)); [done|]. osimpl.
  by destruct (_ || _).
Qed.

(** *** The public operations *)

(** [Commit]'s loop that prunes roots with a single entry. *)
Fixpoint prune_root (fuel : nat) (st : St) (root : Hash) : option Hash :=
  match fuel with
  | O => None
  | S fuel' =>
      n ← load_node (st_load st) root;
      if isLeaf n then Some root
      else
        ne ← numEntries n;
        if ne =? 1 then h ← GetChildHashByEntry n 0; prune_root fuel' st h
        else Some root
  end.

Definition Commit (fuel : nat) (bs : list Builder) (st : St) : option (Hash * St) :=
  match bs with
  | [] => None
  | b :: ps =>
      r ← RecursiveCommit fuel true b ps st;
      let '(root, st') := r in
      match cursor_ b with
      | None => Some (root, st')
      | Some _ => h ← prune_root fuel st' root; Some (h, st')
      end
  end.

(** [SpliceElements(num_delete, element_segs)]. *)
Definition SpliceElements (st : St) (num_delete : nat) (element_segs : list (option Segment))
    (bs : list Builder) : option (list Builder) :=
  match bs with
  | [] => None
  | b :: _ =>
      if negb (commited_ b) then LOG_FATAL
      else
        r ← SkipEntries (length bs) st num_delete bs;
        match snd r with
        | [] => None
        | b' :: ps' => Some (append_segs (set_uncommited b') element_segs :: ps')
        end
  end.

(** [NodeBuilder(root_hash, idx, ...)] and [NodeBuilder(root_hash, key, ...)]. *)
Definition builder_at_index (fuel : nat) (st : St) (root : Hash) (idx : Z) : option (list Builder) :=
  c ← cursor_by_index (st_load st) fuel root idx;
  match c with
  | Some c => builder_of_cursor true c
  | None => None    (* a cursor without a node is dereferenced *)
  end.

Definition builder_at_key (fuel : nat) (st : St) (root : Hash) (key : OrderedKey) :
  option (list Builder) :=
  c ← cursor_by_key (st_load st) fuel root key; builder_of_cursor true c.

(** A tree built from scratch out of segments, the way [SMap], [SSet],
    [SList] and [SBlob] create theirs. *)
Definition build (fuel : nat) (st : St) (segs : list (option Segment)) : option (Hash * St) :=
  bs ← SpliceElements st 0 segs [new_builder true];
  Commit fuel bs st.

(** Editing an existing tree. *)
Definition splice (fuel : nat) (st : St) (root : Hash) (idx : Z) (num_delete : nat)
    (segs : list (option Segment)) : option (Hash * St) :=
  bs ← builder_at_index fuel st root idx;
  bs' ← SpliceElements st num_delete segs bs;
  Commit fuel bs' st.

End Builder.

Arguments CommitState : clear implicits.
Arguments Level : clear implicits.
Arguments mkLevel {St}.
