(* ===== verification/Advanced.v ===== *)
(** * Several edits in one transaction: [AdvancedNodeBuilder] of
      [include/node/node_builder.h], [src/node/node_builder.cc]

    Edits are collected as operands, sorted by position and disjoint; [Commit]
    applies them from the last to the first on chunks that are buffered in a
    [ChunkCacher], and finally writes the chunks of the last tree only.  The
    wrapper [PersistentChunker] keeps memory alive and changes nothing else, so
    the chunkers are used directly. *)

From S2P Require Import Prelude Types Slice HashVal Chunk RollingHash Node Chunker.
From S2P Require Import Store Cursor Builder.

(** ** [SpliceOperand] *)

Record SpliceOperand := mkOp {
  op_start : Z;
  op_delete : Z;
  op_segs : list Segment
}.

(** The end of the working interval, a [uint64_t]. *)
Definition op_end (o : SpliceOperand) : Z := u64 (op_start o + op_delete o).

(** [std::lower_bound] and [std::upper_bound] on the sorted operands. *)
Fixpoint operand_after_tail (ops : list SpliceOperand) (pos : Z) : nat :=
  match ops with
  | [] => 0
  | o :: ops' => if (op_start o <? pos)%Z then S (operand_after_tail ops' pos) else 0
  end.

Fixpoint operand_after_head (ops : list SpliceOperand) (pos : Z) : nat :=
  match ops with
  | [] => 0
  | o :: ops' => if (pos <? op_end o)%Z then 0 else S (operand_after_head ops' pos)
  end.

Definition insert_at {A} (i : nat) (x : A) (l : list A) : list A := take i l ++ x :: drop i l.

(** [Splice] on the operands, for a tree with [total_num_elements] elements.
    Going back from the first operand is undefined behaviour. *)
Definition splice_operands (total_num_elements : Z) (ops : list SpliceOperand)
    (start_idx num_delete : Z) (segs : list Segment) : option (list SpliceOperand) :=
  if (total_num_elements <? start_idx)%Z then LOG_FATAL
  else
    let num_delete :=
      if (total_num_elements <? u64 (start_idx + num_delete))%Z
      then (total_num_elements - start_idx)%Z else num_delete in
    let operand_segs := filter (fun s => seg_empty s = false) segs in
    let tail := operand_after_tail ops (u64 (start_idx + num_delete)) in
    let head := operand_after_head ops start_idx in
    if head =? tail then
      Some (insert_at tail (mkOp start_idx num_delete operand_segs) ops)
    else
      match head with
      | O => None
      | S head' =>
          if head' =? tail then
            CHECK (num_delete =? 0)%Z;;
            o ← ops !! tail;
            CHECK (op_delete o =? 0)%Z;;
            Some (<[tail := mkOp (op_start o) (op_delete o) (op_segs o ++ operand_segs)]> ops)
          else LOG_FATAL
      end.

(** ** [ChunkCacher] *)

Record ChunkCacher (St : Type) := mkCacher {
  cc_cache : gmap Hash Chunk;
  cc_base : St
}.
Arguments mkCacher {St}.
Arguments cc_cache {St}.
Arguments cc_base {St}.

Section Cacher.
Context {St : Type} `{ChunkStore St}.

(** [GetChunk]: from the write cache, otherwise from the loader; the chunk is
    rebuilt from its bytes. *)
Definition cacher_GetChunk (s : ChunkCacher St) (key : Hash) : Chunk :=
  match cc_cache s !! key with
  | Some c => mkChunk (head_ c) None
  | None => mkChunk (head_ (cs_Get (cc_base s) key)) None
  end.

Definition cacher_Write (s : ChunkCacher St) (key : Hash) (c : Chunk) : bool * ChunkCacher St :=
  (true, mkCacher (<[hash_Clone key := c]> (cc_cache s)) (cc_base s)).

Definition ExistInCache (s : ChunkCacher St) (key : Hash) : bool :=
  bool_decide (is_Some (cc_cache s !! key)).

Definition DumpCacheChunk (s : ChunkCacher St) (key : Hash) : bool * ChunkCacher St :=
  match cc_cache s !! key with
  | Some c => let '(ok, b) := cs_Put (cc_base s) key (mkChunk (head_ c) None) in
              (ok, mkCacher (cc_cache s) b)
  | None => (false, s)
  end.

Definition cacher_store : ChunkStore (ChunkCacher St) :=
  {| cs_Get := cacher_GetChunk; cs_Put := cacher_Write; cs_Exists := ExistInCache |}.

(** [PreorderDump]: [fuel] bounds the height of the tree. *)
Fixpoint dump_entries (dump : Hash -> ChunkCacher St -> option (bool * ChunkCacher St))
    (n : SeqNode) (i cnt : nat) (r : bool) (s : ChunkCacher St) : option (bool * ChunkCacher St) :=
  match cnt with
  | O => Some (r, s)
  | S cnt' =>
      h ← GetChildHashByEntry n i;
      d ← dump h s;
      dump_entries dump n (S i) cnt' (r && fst d) (snd d)
  end.

Fixpoint PreorderDump (fuel : nat) (root : Hash) (s : ChunkCacher St) :
  option (bool * ChunkCacher St) :=
  match fuel with
  | O => None
  | S fuel' =>
      if ExistInCache s root then
        let '(result, s1) := DumpCacheChunk s root in
        n ← CreateFromChunk (cacher_GetChunk s1 root);
        if isLeaf n then Some (result, s1)
        else ne ← numEntries n; dump_entries (PreorderDump fuel') n 0 ne result s1
      else Some (true, s)
  end.

End Cacher.

(** ** [AdvancedNodeBuilder] *)

Section Advanced.
Context `{HashFunction} `{Uninit} {St : Type} `{ChunkStore St}.
Variable (kind : NodeKind) (leaf_params meta_params : ChunkerParams).

(** [Splice(start_idx, num_delete, segs)]. *)
Definition adv_Splice (st : St) (root : Hash) (ops : list SpliceOperand)
    (start_idx num_delete : Z) (segs : list Segment) : option (list SpliceOperand) :=
  total ← (if hash_empty root then Some 0%Z
           else n ← load_node (st_load st) root; numElements n);
  splice_operands total ops start_idx num_delete segs.

(** The edits, applied from the last operand to the first. *)
Fixpoint apply_operands (fuel : nat) (ops : list SpliceOperand) (root : Hash)
    (s : ChunkCacher St) : option (Hash * ChunkCacher St) :=
  match ops with
  | [] => Some (root, s)
  | o :: ops' =>
      r ← apply_operands fuel ops' root s;
      @splice _ _ _ cacher_store kind leaf_params meta_params fuel (snd r) (fst r)
        (op_start o) (Z.to_nat (op_delete o)) (Some <$> op_segs o)
  end.

(** [Commit].  Without a tree, [SpliceElements(0, {})] picks the overload for
    one segment, with a null pointer. *)
Definition adv_Commit (fuel : nat) (st : St) (root : Hash) (ops : list SpliceOperand) :
  option (Hash * St) :=
  if hash_empty root then
    match ops with
    | [] => build kind leaf_params meta_params fuel st [None]
    | [o] =>
        bs ← SpliceElements st (Z.to_nat (op_delete o)) (Some <$> op_segs o)
               [new_builder leaf_params meta_params true];
        Commit kind leaf_params meta_params fuel bs st
    | _ => Some (root, st)
    end
  else
    r ← apply_operands fuel ops root (mkCacher ∅ st);
    d ← PreorderDump fuel (fst r) (snd r);
    Some (fst r, cc_base (snd d)).

End Advanced.

(** ** The operands stay sorted and disjoint *)

(** Working intervals from [pre] on, within a tree of [total] elements. *)
Fixpoint ops_from (pre total : Z) (ops : list SpliceOperand) : Prop :=
  match ops with
  | [] => (pre <= total)%Z
  | o :: ops' =>
      (pre <= op_start o)%Z /\ (0 <= op_delete o)%Z /\
      ops_from (op_start o + op_delete o) total ops'
  end.

Lemma ops_from_total pre total ops : ops_from pre total ops -> (pre <= total)%Z.
Proof. revert pre. induction ops as [|o ops IH]; intros pre; simpl; [done|]. intros (? & ? & H%IH). lia. Qed.

Lemma ops_from_weaken pre pre' total ops :
  (pre' <= pre)%Z -> ops_from pre total ops -> ops_from pre' total ops.
Proof. destruct ops; simpl; intros; [lia|]. destruct_and!. split_and!; [lia|done..]. Qed.

Lemma op_end_small pre total o ops :
  (0 <= pre)%Z -> (total < 2 ^ 64)%Z -> ops_from pre total (o :: ops) ->
  op_end o = (op_start o + op_delete o)%Z.
Proof.
  simpl. intros ? ? (? & ? & H%ops_from_total). unfold op_end. apply wrap_small. lia.
Qed.

Lemma insert_operand_ok total s d segs : forall ops pre,
  (0 <= pre)%Z -> (total < 2 ^ 64)%Z -> ops_from pre total ops ->
  (pre <= s)%Z -> (0 <= d)%Z -> (s + d <= total)%Z ->
  operand_after_head ops s = operand_after_tail ops (s + d) ->
  ops_from pre total (insert_at (operand_after_tail ops (s + d)) (mkOp s d segs) ops).
Proof.
  induction ops as [|o ops IH]; intros pre Hp Ht Ho Hs Hd Hle; simpl.
  - intros _. done.
  - rewrite (op_end_small _ _ _ _ Hp Ht Ho). destruct Ho as (Ho1 & Ho2 & Ho3).
    destruct (Z.ltb_spec s (op_start o + op_delete o)), (Z.ltb_spec (op_start o) (s + d));
      intros E; try discriminate; unfold insert_at; simpl.
    + split_and!; done.
    + injection E as E. split_and!; [done|done|]. apply (IH (op_start o + op_delete o)%Z); lia || done.
Qed.

Lemma merge_operand_ok total ops : forall pre i o segs,
  ops_from pre total ops -> ops !! i = Some o ->
  ops_from pre total (<[i := mkOp (op_start o) (op_delete o) segs]> ops).
Proof.
  induction ops as [|o' ops IH]; intros pre [|i] o segs; simpl; try done.
  - intros (? & ? & ?) [= ->]. done.
  - intros (? & ? & ?) Hi. split_and!; [done|done|]. by apply IH.
Qed.

(** The operands of an [AdvancedNodeBuilder] are the disjoint intervals
    of one edit script: whenever [Splice] accepts an edit, the operands remain
    sorted, pairwise disjoint and inside the tree (the condition that the code
    checks only in debug builds). *)
Theorem splice_operands_invariant total ops start_idx num_delete segs ops' :
  (0 <= total < 2 ^ 64)%Z -> (0 <= start_idx)%Z -> (0 <= num_delete)%Z ->
  (start_idx + num_delete < 2 ^ 64)%Z -> ops_from 0 total ops ->
  splice_operands total ops start_idx num_delete segs = Some ops' -> ops_from 0 total ops'.
Proof.
  intros Ht Hs Hd Hsd Hok. unfold splice_operands.
  destruct (Z.ltb_spec total start_idx); [done|].
  rewrite (wrap_small 64 (start_idx + num_delete)) by lia.
  set (nd := if (total <? start_idx + num_delete)%Z then _ else _).
  assert (Hnd : (0 <= nd)%Z /\ (start_idx + nd <= total)%Z).
  { subst nd. destruct (Z.ltb_spec total (start_idx + num_delete)); lia. }
  clearbody nd. rewrite (wrap_small 64 (start_idx + nd)) by lia.
  destruct (Nat.eqb_spec (operand_after_head ops start_idx) (operand_after_tail ops (start_idx + nd)))
    as [E|E].
  - intros [= <-]. apply insert_operand_ok; lia || done.
  - destruct (operand_after_head ops start_idx) as [|h]; [done|].
    destruct (h =? _); [|done]. destruct (nd =? 0)%Z; [|done]. osimpl.
    destruct (ops !! _) as [o|] eqn:Eo; [|done]. osimpl.
    destruct (op_delete o =? 0)%Z; [|done]. osimpl. intros [= <-]. by apply merge_operand_ok.
Qed.

Lemma splice_operands_invariant_witness :
  exists ops', splice_operands 10 [mkOp 1 2 []; mkOp 5 0 []] 3 2 [] = Some ops' /\
    ops_from 0 10 ops'.
Proof.
  eexists. split; [reflexivity|].
  apply (splice_operands_invariant 10 [mkOp 1 2 []; mkOp 5 0 []] 3 2 []); try lia.
  - simpl. lia.
  - reflexivity.
Defined.
