(* ===== verification/Objects.v ===== *)
(** * The chunkable types: [src/types/server/sblob.cc], [slist.cc], [smap.cc],
      [sset.cc], [src/types/ublob.cc], [ulist.cc], [umap.cc], [uset.cc],
      [include/types/base.h]

    A blob, list, map or set object is a handle on the root node of its tree.
    Creating one builds a tree; changing one splices the tree and returns the
    hash of the new root.  The objects of a worker without partitioner are
    modelled: they load from and write to the local store. *)

From S2P Require Import Prelude Types Slice HashVal Chunk RollingHash Node Chunker.
From S2P Require Import Store Cursor Builder Advanced.

(** ** Sorting indices: [Utils::SortIndexes]

    [std::sort] is not stable: which of two equal keys comes first is not
    specified, so the sorting function is a parameter with its guarantee. *)
Class StdSort := {
  SortIndexes : list Slice -> list nat;
  sort_perm : forall v, SortIndexes v ≡ₚ seq 0 (length v);
  sort_sorted : forall v i j x y,
    i < j -> SortIndexes v !! i = Some x -> SortIndexes v !! j = Some y ->
    forall a b, v !! x = Some a -> v !! y = Some b -> slice_lt b a = false
}.

(** Sorting by merging, for witnesses. *)
Definition index_le (v : list Slice) (i j : nat) : Prop :=
  slice_le (default [] (v !! i)) (default [] (v !! j)).

#[export] Instance index_le_dec v i j : Decision (index_le v i j).
Proof. unfold index_le. apply _. Defined.

#[export] Instance index_le_total v : Total (index_le v).
Proof. intros i j. apply (total slice_le). Qed.

#[export] Instance index_le_trans v : Transitive (index_le v).
Proof. intros i j k. unfold index_le. apply transitivity. Qed.

Definition merge_std_sort : StdSort.
Proof.
  refine {| SortIndexes v := merge_sort (index_le v) (seq 0 (length v)) |}.
  - intros v. apply merge_sort_Permutation.
  - intros v i j x y Hij Hx Hy a b Ha Hb.
    pose proof (sorted_lookup (index_le v) _ i j x y
      (StronglySorted_merge_sort (index_le v) (seq 0 (length v))) Hij Hx Hy) as HR.
    unfold index_le, slice_le in HR. by rewrite Ha, Hb in HR.
Defined.

Section Objects.
Context `{HashFunction} `{Uninit} `{StdSort} {St : Type} `{ChunkStore St}.

(** The rolling hash parameters of each chunker, and a bound for the heights of
    the trees. *)
Variable (params : NodeKind -> ChunkerParams) (fuel : nat).

(** [root_node_]: [None] for the empty object. *)
Abbreviation Object := (option SeqNode).

(** [ChunkableType::hash]. *)
Definition obj_hash (o : Object) : option Hash :=
  match o with
  | None => Some hash_kNull
  | Some n => chunk_hash (chunk_ n)
  end.

(** [ChunkableType::numElements]. *)
Definition obj_numElements (o : Object) : option Z := n ← o; numElements n.

(** ** [SetNodeForHash]

    A chunk that is not in the store has no type to look at. *)
Definition UBlob_SetNodeForHash (st : St) (root_hash : Hash) : option Object :=
  c ← st_load st root_hash; t ← chunk_type c;
  match t with
  | kMeta => o ← MetaNode_PrecomputeOffset c; Some (Some (mkNode KMeta c o))
  | kBlob => Some (Some (mkNode KBlob c []))
  | _ => LOG_FATAL
  end.

Definition UList_SetNodeForHash (st : St) (root_hash : Hash) : option Object :=
  c ← st_load st root_hash; t ← chunk_type c;
  match t with
  | kMeta => o ← MetaNode_PrecomputeOffset c; Some (Some (mkNode KMeta c o))
  | kList => o ← ListNode_PrecomputeOffsets c; Some (Some (mkNode KList c o))
  | _ => LOG_FATAL
  end.

Definition UMap_SetNodeForHash (st : St) (root_hash : Hash) : option Object :=
  c ← st_load st root_hash; t ← chunk_type c;
  match t with
  | kMeta => o ← MetaNode_PrecomputeOffset c; Some (Some (mkNode KMeta c o))
  | kMap => o ← MapNode_PrecomputeOffsets c; Some (Some (mkNode KMap c o))
  | _ => Some None
  end.

Definition USet_SetNodeForHash (st : St) (root_hash : Hash) : option Object :=
  c ← st_load st root_hash; t ← chunk_type c;
  match t with
  | kMeta => o ← MetaNode_PrecomputeOffset c; Some (Some (mkNode KMeta c o))
  | kSet => o ← SetNode_PrecomputeOffsets c; Some (Some (mkNode KSet c o))
  | _ => Some None
  end.

(** ** Creating and changing trees *)

(** The chunk of an object without elements, written to the store. *)
Definition write_empty (k : NodeKind) (st : St) : option (Hash * St) :=
  ci ← Make k [];
  h ← chunk_hash (ci_chunk ci);
  Some (h, snd (cs_Put st h (ci_chunk ci))).

(** A tree built from one segment. *)
Definition build_one (k : NodeKind) (st : St) (seg : Segment) : option (Hash * St) :=
  build k (params k) (params KMeta) fuel st [Some seg].

(** [NodeBuilder nb(hash, idx or key, ...); nb.SpliceElements(num_delete, seg)]. *)
Definition splice_one (k : NodeKind) (st : St) (root : Hash) (idx : Z) (num_delete : nat)
    (seg : Segment) : option (Hash * St) :=
  splice k (params k) (params KMeta) fuel st root idx num_delete [Some seg].

Definition splice_key (k : NodeKind) (st : St) (root : Hash) (key : OrderedKey) (num_delete : nat)
    (seg : Segment) : option (Hash * St) :=
  bs ← builder_at_key k (params k) (params KMeta) fuel st root key;
  bs' ← SpliceElements st num_delete [Some seg] bs;
  Commit k (params k) (params KMeta) fuel bs' st.

(** [!cursor.isEnd() && orderedKey == cursor.currentKey()], with the cursor. *)
Definition find_cursor (st : St) (root : Hash) (key : OrderedKey) : option (bool * CurLevel) :=
  c ← cursor_by_key (st_load st) fuel root key;
  match c with
  | [] => None
  | l :: _ =>
      e ← isEnd l;
      if e : bool then Some (false, l)
      else k ← currentKey l; eq ← key_eq key k; Some (eq : bool, l)
  end.

(** *** [SBlob] *)

Definition SBlob_load (st : St) (root_hash : Hash) : option Object := UBlob_SetNodeForHash st root_hash.

Definition SBlob_new (st : St) (data : Slice) : option (Object * St) :=
  r ← (if slice_empty data then write_empty KBlob st
       else build_one KBlob st (mkSeg data (len data) (FixedSegment 1)));
  o ← UBlob_SetNodeForHash (snd r) (fst r); Some (o, snd r).

Definition SBlob_Splice (st : St) (o : Object) (pos : Z) (num_delete : nat) (data : Slice) :
  option (Hash * St) :=
  n ← o; root ← chunk_hash (chunk_ n);
  splice_one KBlob st root pos num_delete (mkSeg data (len data) (FixedSegment 1)).

(** [UBlob::Insert], [Delete] and [Append]. *)
Definition UBlob_Insert (st : St) (o : Object) (pos : Z) (data : Slice) : option (Hash * St) :=
  SBlob_Splice st o pos 0 data.

Definition UBlob_Delete (st : St) (o : Object) (pos : Z) (num_delete : nat) : option (Hash * St) :=
  SBlob_Splice st o pos num_delete [].

Definition UBlob_Append (st : St) (o : Object) (data : Slice) : option (Hash * St) :=
  size ← obj_numElements o; SBlob_Splice st o size 0 data.

(** [UBlob::Read]: the inner loop advances inside one chunk and counts its
    bytes; the outer loop copies them and goes to the next chunk; both stop when
    [len] bytes have been counted.  The size of the blob bounds both. *)
Fixpoint read_chunk (steps : nat) (len : nat) (l : CurLevel) (total chunk_copy : nat) :
  option (CurLevel * nat * nat) :=
  match steps with
  | O => None
  | S steps' =>
      n ← numCurrentBytes l;
      let total' := total + n in
      let chunk' := chunk_copy + n in
      if total' =? len then Some (l, total', chunk')
      else
        r ← advance_here l;
        if fst r : bool then read_chunk steps' len (snd r) total' chunk'
        else Some (snd r, total', chunk')
  end.

Fixpoint read_chunks (steps size : nat) (st : St) (len : nat) (c : NodeCursor) (total : nat) :
  option bytes :=
  match steps, c with
  | S steps', l :: ps =>
      chunk_copy_start ← current l;
      r ← read_chunk size len l total 0;
      let '(l', total', chunk_copy) := r in
      b ← read_bytes 0 chunk_copy chunk_copy_start;
      if total' =? len then Some b
      else
        a ← Advance (st_load st) true (l' :: ps);
        if fst a : bool then rest ← read_chunks steps' size st len (snd a) total'; Some (b ++ rest)
        else Some b
  | _, _ => None
  end.

Definition UBlob_Read (st : St) (o : Object) (pos : Z) (len : nat) : option bytes :=
  n ← o; size ← numElements n;
  if (size <=? pos)%Z then Some []
  else
    root ← chunk_hash (chunk_ n);
    c ← cursor_by_index (st_load st) fuel root pos;
    c' ← c;
    let steps := S (Z.to_nat size) in
    read_chunks steps steps st len c' 0.

(** *** [SList] *)

Definition SList_load (st : St) (root_hash : Hash) : option Object := UList_SetNodeForHash st root_hash.

Definition SList_new (st : St) (elements : list Slice) : option (Object * St) :=
  r ← (if length elements =? 0 then write_empty KList st
       else build_one KList st (list_Encode elements));
  o ← UList_SetNodeForHash (snd r) (fst r); Some (o, snd r).

Definition SList_Splice (st : St) (o : Object) (start_idx : Z) (num_to_delete : nat)
    (entries : list Slice) : option (Hash * St) :=
  n ← o; root ← chunk_hash (chunk_ n);
  splice_one KList st root start_idx num_to_delete (list_Encode entries).

Definition UList_Delete (st : St) (o : Object) (start_idx : Z) (num_to_delete : nat) :=
  SList_Splice st o start_idx num_to_delete [].

Definition UList_Insert (st : St) (o : Object) (start_idx : Z) (entries : list Slice) :=
  SList_Splice st o start_idx 0 entries.

Definition UList_Append (st : St) (o : Object) (entries : list Slice) : option (Hash * St) :=
  size ← obj_numElements o; SList_Splice st o size 0 entries.

(** A cursor beyond the end has no node; the empty slice is returned then. *)
Definition UList_Get (st : St) (o : Object) (idx : Z) : option Slice :=
  n ← o; root ← chunk_hash (chunk_ n);
  c ← cursor_by_index (st_load st) fuel root idx;
  match c with
  | None => Some []
  | Some [] => None
  | Some (l :: _) =>
      e ← isEnd l;
      if e : bool then Some [] else d ← current l; list_Decode d
  end.

(** *** [SMap] *)

Definition SMap_load (st : St) (root_hash : Hash) : option Object := UMap_SetNodeForHash st root_hash.

(** The loop over the sorted indices that drops all but the last of equal keys. *)
Fixpoint unique_indexes (keys : list Slice) (idx : list nat) : option (list nat) :=
  match idx with
  | [] => Some []
  | i :: idx' =>
      rest ← unique_indexes keys idx';
      match idx' with
      | [] => Some (i :: rest)
      | j :: _ =>
          a ← keys !! i; b ← keys !! j;
          if slice_lt a b then Some (i :: rest)
          else if slice_eq a b then Some rest
          else LOG_FATAL
      end
  end.

Definition item_at (keys vals : list Slice) (i : nat) : option KVItem :=
  k ← keys !! i; v ← vals !! i; Some (mkKV k v).

Definition SMap_new (st : St) (keys vals : list Slice) : option (Object * St) :=
  CHECK (length vals =? length keys);;
  r ← (if length keys =? 0 then write_empty KMap st
       else
         idx ← unique_indexes keys (SortIndexes keys);
         kv_items ← mapM (item_at keys vals) idx;
         seg ← map_Encode kv_items;
         build_one KMap st seg);
  o ← UMap_SetNodeForHash (snd r) (fst r); Some (o, snd r).

(** [Set(key, val)]: an item with the same key is replaced. *)
Definition SMap_Set (st : St) (o : Object) (key val : Slice) : option (Hash * St) :=
  n ← o; root ← chunk_hash (chunk_ n);
  let orderedKey := FromSlice key in
  f ← find_cursor st root orderedKey;
  seg ← map_Encode [mkKV key val];
  splice_key KMap st root orderedKey (if fst f : bool then 1 else 0) seg.

(** [Set(keys, vals)] collects the edits in an [AdvancedNodeBuilder]. *)
Fixpoint set_operands (st : St) (n : SeqNode) (root : Hash) (keys vals : list Slice)
    (idx : list nat) (ops : list SpliceOperand) : option (list SpliceOperand) :=
  match idx with
  | [] => Some ops
  | i :: idx' =>
      it ← item_at keys vals i;
      let orderKey := FromSlice (kv_key it) in
      f ← find_cursor st root orderKey;
      idxForKey ← FindIndexForKey (st_load st) fuel n orderKey;
      seg ← map_Encode [it];
      ops' ← adv_Splice st root ops idxForKey (if fst f : bool then 1 else 0)%Z [seg];
      set_operands st n root keys vals idx' ops'
  end.

Definition SMap_SetMany (st : St) (o : Object) (keys vals : list Slice) : option (Hash * St) :=
  n ← o; root ← chunk_hash (chunk_ n);
  idx ← unique_indexes keys (SortIndexes keys);
  ops ← set_operands st n root keys vals idx [];
  adv_Commit KMap (params KMap) (params KMeta) fuel st root ops.

(** [Remove(key)]: a key that does not exist leaves the map as it is. *)
Definition SMap_Remove (st : St) (o : Object) (key : Slice) : option (Hash * St) :=
  n ← o; root ← chunk_hash (chunk_ n);
  let orderedKey := FromSlice key in
  f ← find_cursor st root orderedKey;
  if fst f : bool then splice_key KMap st root orderedKey 1 (mkSeg [] 0 (VarSegment []))
  else Some (root, st).

(** [UMap::Get]: the empty slice if the key does not exist. *)
Definition UMap_Get (st : St) (o : Object) (key : Slice) : option Slice :=
  n ← o; root ← chunk_hash (chunk_ n);
  f ← find_cursor st root (FromSlice key);
  if fst f : bool then
    d ← current (snd f); v ← map_value d; read_bytes 0 (snd v) (fst v)
  else Some [].

(** *** [SSet] *)

Definition SSet_load (st : St) (root_hash : Hash) : option Object := USet_SetNodeForHash st root_hash.

(** Equal keys are not dropped. *)
Definition SSet_new (st : St) (keys : list Slice) : option (Object * St) :=
  r ← (if length keys =? 0 then write_empty KSet st
       else
         items ← mapM (fun i => keys !! i) (SortIndexes keys);
         seg ← set_Encode items;
         build_one KSet st seg);
  o ← USet_SetNodeForHash (snd r) (fst r); Some (o, snd r).

Definition SSet_Set (st : St) (o : Object) (key : Slice) : option (Hash * St) :=
  n ← o; root ← chunk_hash (chunk_ n);
  let orderedKey := FromSlice key in
  f ← find_cursor st root orderedKey;
  if fst f : bool then Some (hash_Clone root, st)
  else seg ← set_Encode [key]; splice_key KSet st root orderedKey 0 seg.

Definition SSet_Remove (st : St) (o : Object) (key : Slice) : option (Hash * St) :=
  n ← o; root ← chunk_hash (chunk_ n);
  let orderedKey := FromSlice key in
  f ← find_cursor st root orderedKey;
  if fst f : bool then splice_key KSet st root orderedKey 1 (mkSeg [] 0 (VarSegment []))
  else Some (root, st).

(** [USet::Get]. *)
Definition USet_Get (st : St) (o : Object) (key : Slice) : option Slice :=
  n ← o; root ← chunk_hash (chunk_ n);
  f ← find_cursor st root (FromSlice key);
  if fst f : bool then Some key else Some [].

End Objects.
