(* ===== verification/Build.v ===== *)
(** * Building a tree from scratch

    [NodeBuilder] on no existing tree computes the canonical tree of
    [Canonical.v]: the root hash is [tree_root], whatever the segmentation of
    the input, and the store afterwards holds every node of the tree.  It
    terminates when keys are shorter than the window of the inner levels, and
    does not when they exceed the maximum chunk size. *)

From S2P Require Import Prelude Types Slice HashVal Chunk RollingHash Node NodeSearch Chunker.
From S2P Require Import Canonical Leaf Store Cursor Builder.

Section Build.
Context `{HashFunction} `{Uninit} {St : Type} `{ChunkStore St}.
Variable (kind : NodeKind) (leaf_params meta_params : ChunkerParams).

Abbreviation knd := (lvl_kind kind).
Abbreviation prm := (lvl_params leaf_params meta_params).

(** ** Effects of the chunks made on one level *)

Definition put_node (k : NodeKind) (st : St) (g : list bytes) : St :=
  snd (cs_Put st (Some (ComputeFrom (node_bytes k g))) (node_chunk k g)).

Definition put_nodes (k : NodeKind) (st : St) (gs : list (list bytes)) : St :=
  fold_left (put_node k) gs st.

Definition meta_segs (k : NodeKind) (gs : list (list bytes)) : list (option Segment) :=
  (fun e => Some (meta_segment e)) <$> metas k gs.

Definition last_chunk (k : NodeKind) (gs : list (list bytes)) (d : option Chunk) : option Chunk :=
  match last gs with None => d | Some g => Some (node_chunk k g) end.

(** The commit state after making the nodes [gs]. *)
Definition after (leaf : bool) (s : CommitState St) (rh : RollingHasher) (gs : list (list bytes)) :
  CommitState St :=
  mkCS (set_rhasher (cs_builder s) rh)
       (match cs_parents s with
        | [] => []
        | p :: ps => append_segs p (meta_segs (knd leaf) gs) :: ps
        end)
       (put_nodes (knd leaf) (cs_store s) gs)
       (last_chunk (knd leaf) gs (cs_last s)).

(** A level whose parent exists and is marked as having work to commit. *)
Definition ready (s : CommitState St) : Prop :=
  exists p ps, cs_parents s = p :: ps /\ commited_ p = false.

Lemma append_segs_nil b : append_segs b [] = b.
Proof. destruct b. unfold append_segs. simpl. by rewrite app_nil_r. Qed.

Lemma append_segs_app b l1 l2 : append_segs (append_segs b l1) l2 = append_segs b (l1 ++ l2).
Proof. unfold append_segs. simpl. by rewrite app_assoc. Qed.

Lemma set_uncommited_id b : commited_ b = false -> set_uncommited b = b.
Proof. destruct b. simpl. by intros ->. Qed.

Lemma after_ready leaf s rh gs : ready s -> ready (after leaf s rh gs).
Proof. intros (p & ps & E & Hc). unfold ready. simpl. rewrite E. eauto. Qed.

Lemma after_app leaf s rh rh' g gs :
  after leaf (after leaf s rh [g]) rh' gs = after leaf s rh' (g :: gs).
Proof.
  unfold after. cbn [cs_builder cs_parents cs_store cs_last]. f_equal.
  - destruct (cs_parents s); [done|]. by rewrite append_segs_app.
  - unfold last_chunk. rewrite (last_cons g gs). by destruct (last gs).
Qed.

Lemma after_nil leaf s rh : after leaf s rh [] =
  mkCS (set_rhasher (cs_builder s) rh) (cs_parents s) (cs_store s) (cs_last s).
Proof.
  unfold after. simpl. f_equal. destruct (cs_parents s); [done|]. by rewrite append_segs_nil.
Qed.

(** Segments that together hold the entries [es], none of them empty. *)
Definition pending (segs : list Segment) (es : list bytes) : Prop :=
  exists ess, segs_rep segs ess /\ concat ess = es /\ Forall (fun x => x <> []) ess.

Lemma pending_nil : pending [] [].
Proof. exists []. repeat split; constructor. Qed.

Lemma pending_snoc segs es s e :
  pending segs es -> seg_rep s e -> e <> [] -> pending (segs ++ [s]) (es ++ e).
Proof.
  intros (ess & Hs & <- & Hne) Hr He. exists (ess ++ [e]). split_and!.
  - apply Forall2_app; [done|]. constructor; [done|constructor].
  - rewrite concat_app. simpl. by rewrite app_nil_r.
  - apply Forall_app. split; [done|]. by repeat constructor.
Qed.

Lemma HandleBoundary_rep leaf s segs g :
  ready s -> pending segs g -> entries_ok (knd leaf) g -> size_ok g ->
  (knd leaf = KMeta -> g <> []) ->
  HandleBoundary kind leaf_params meta_params leaf s segs
  = Some (after leaf s (rh_ClearLastBoundary (rhasher_ (cs_builder s))) [g]).
Proof.
  intros (p & ps & Ep & Hc) (ess & Hs & <- & Hne) Hok Hsz Hm. unfold HandleBoundary.
  rewrite (Make_rep (knd leaf) segs ess); [|done..|].
  2: { destruct (knd leaf); auto. }
  osimpl. cbn [ci_chunk ci_meta_seg].
  rewrite (chunk_rep_hash _ (kind_type (knd leaf)) (node_payload (knd leaf) (concat ess)))
    by (by apply node_chunk_rep). osimpl.
  rewrite Ep. unfold parent_builder, after, AppendSegmentEntries. rewrite Ep.
  by rewrite set_uncommited_id.
Qed.

(** ** The first loop of [RecursiveCommit] *)

Definition loop_fuel (es : list bytes) (ess : list (list bytes)) : nat :=
  S (length es + list_sum ((fun x => S (length x)) <$> ess)).

Lemma loop_fuel_cons es es' ess :
  loop_fuel es (es' :: ess) = S (length es + loop_fuel es' ess).
Proof.
  unfold loop_fuel. rewrite fmap_cons.
  cbn [list_sum fold_right]. unfold list_sum. lia.
Qed.

Lemma groups_boundary p pend es1 es2 k :
  find_boundary p [] (concat pend) = None ->
  find_boundary p (concat pend) (concat es1) = Some k ->
  groups p (pend ++ es1 ++ es2)
  = (pend ++ take (S (entry_at es1 k)) es1) :: groups p (drop (S (entry_at es1 k)) es1 ++ es2).
Proof.
  intros Hp Hk. unfold groups. rewrite (split_boundary _ _ _ _ _ Hp Hk).
  destruct (split p (drop (S (entry_at es1 k)) es1 ++ es2)) as [gs [|e lo]]; done.
Qed.

Lemma seg_PosToIdx_defined s es pos :
  seg_rep s es -> pos <= num_bytes_ s -> is_Some (seg_PosToIdx s pos).
Proof.
  intros Hr Hp. unfold seg_PosToIdx. rewrite (proj2 (Nat.leb_le _ _)) by done. osimpl.
  destruct (seg_kind s); eauto.
Qed.

(** What the loop is to do with the entries [es]: make the closed groups and
    leave the rest pending. *)
Definition loop_result (leaf : bool) (s : CommitState St) (es : list bytes)
    (r : option (CommitState St * list Segment)) : Prop :=
  exists segs' rh, r = Some (after leaf s rh (fst (split (prm leaf) es)), segs') /\
    pending segs' (snd (split (prm leaf) es)) /\
    rh_rep (prm leaf) rh (concat (snd (split (prm leaf) es))).

Lemma loop_result_next leaf s rh g es es' r :
  loop_result leaf (after leaf s rh [g]) es r ->
  split (prm leaf) es' = (g :: fst (split (prm leaf) es), snd (split (prm leaf) es)) ->
  loop_result leaf s es' r.
Proof.
  intros (segs' & rh' & -> & Hp & Hr) E. exists segs', rh'. rewrite E. cbn [fst snd].
  split; [by rewrite after_app|done].
Qed.

Lemma loop_result_skip leaf s rh es r :
  loop_result leaf (mkCS (set_rhasher (cs_builder s) rh) (cs_parents s) (cs_store s) (cs_last s)) es r ->
  loop_result leaf s es r.
Proof. done. Qed.

Lemma commit_appended_rep leaf fuel : forall s segs pend seg es1 qsegs ess,
  (* the builder has hashed the pending entries, and found no boundary *)
  ready s -> rh_rep (prm leaf) (rhasher_ (cs_builder s)) (concat pend) ->
  pending segs pend -> find_boundary (prm leaf) [] (concat pend) = None ->
  seg_rep seg es1 -> segs_rep qsegs ess ->
  let es := pend ++ es1 ++ concat ess in
  entries_ok (knd leaf) es -> Forall size_ok (groups (prm leaf) es) ->
  (Z.of_nat (length es) < 2 ^ 63)%Z -> loop_fuel es1 ess <= fuel ->
  loop_result leaf s es
    (commit_appended kind leaf_params meta_params fuel leaf s segs (Some seg) (Some <$> qsegs)).
Proof.
  induction fuel as [|fuel IH]; intros s segs pend seg es1 qsegs ess Hrd Hrh Hpd Hnb Hs Hq es
    Hok Hsz Hbig Hf; [unfold loop_fuel in Hf; lia|].
  subst es. rewrite !length_app in Hbig.
  cbn [commit_appended]. rewrite (seg_rep_bytes _ _ Hs). osimpl.
  pose proof (rh_TryHashBytes_spec _ _ _ (concat es1) Hrh) as HT.
  (* taking the next segment of the queue *)
  assert (Hnext : forall s' segs' pend', ready s' ->
    rh_rep (prm leaf) (rhasher_ (cs_builder s')) (concat pend') -> pending segs' pend' ->
    find_boundary (prm leaf) [] (concat pend') = None ->
    length pend' + length (concat ess) <= length pend + (length es1 + length (concat ess)) ->
    entries_ok (knd leaf) (pend' ++ concat ess) ->
    Forall size_ok (groups (prm leaf) (pend' ++ concat ess)) ->
    loop_result leaf s' (pend' ++ concat ess)
      match Some <$> qsegs with
      | [] => Some (s', segs')
      | next :: queue' =>
          commit_appended kind leaf_params meta_params fuel leaf s' segs' next queue'
      end).
  { intros s' segs' pend' Hrd' Hrh' Hpd' Hnb' Hl' Hok' Hsz'.
    destruct qsegs as [|q qsegs];
      [apply Forall2_nil_inv_l in Hq as ->
      |apply Forall2_cons_inv_l in Hq as (qes & ess' & Hq1 & Hq & ->)];
      cbn [concat] in *; rewrite ?fmap_nil, ?fmap_cons.
    - rewrite app_nil_r. exists segs', (rhasher_ (cs_builder s')).
      rewrite split_none by done. cbn [fst snd]. split; [|done].
      rewrite after_nil. by destruct s' as [[] ? ? ?].
    - apply (IH s' segs' pend' q qes qsegs ess'); try done.
      + rewrite !length_app in *. lia.
      + rewrite loop_fuel_cons in Hf. lia. }
  destruct (find_boundary (prm leaf) (concat pend) (concat es1)) as [k|] eqn:Hfb.
  - (* a boundary in this segment *)
    destruct HT as (rh & -> & Hcr & Hclr). cbv beta iota zeta.
    pose proof Hfb as (Hk & _)%find_boundary_Some.
    pose proof (entry_at_lt _ _ Hk) as Hel.
    set (j := S (entry_at es1 k)).
    rewrite (seg_rep_PosToIdx _ es1) by (done || (rewrite (sr_num _ _ Hs); done) || lia). osimpl.
    unfold rh_CrossedBoundary. rewrite Hcr.
    rewrite (wrap_small 64) by lia.
    replace (Z.to_nat (Z.of_nat (entry_at es1 k) + 1)) with j by lia.
    destruct (seg_rep_Split seg es1 j Hs) as (s1 & s2 & -> & Hs1 & Hs2);
      [intros ->; simpl in Hel; lia|lia|]. osimpl. cbn [fst snd].
    pose proof (split_boundary _ pend es1 (concat ess) k Hnb Hfb) as Hsplit.
    cbv zeta in Hsplit. fold j in Hsplit.
    rewrite (groups_boundary _ _ _ _ _ Hnb Hfb) in Hsz. fold j in Hsz.
    apply Forall_cons in Hsz as [Hszg Hsz].
    assert (Hes : pend ++ es1 ++ concat ess
      = (pend ++ take j es1) ++ (drop j es1 ++ concat ess)).
    { rewrite <- app_assoc, (app_assoc (take _ _)), take_drop. done. }
    rewrite Hes in Hok. apply entries_ok_app in Hok as [Hokg Hok].
    assert (Htk : take j es1 <> []) by (destruct es1; [simpl in Hel; lia|done]).
    rewrite (HandleBoundary_rep leaf _ _ (pend ++ take j es1)); [|done|by apply pending_snoc|done..|].
    2: { intros _ E. apply app_eq_nil in E as [_ ?]. done. }
    osimpl. cbv beta iota zeta. rewrite (seg_rep_empty _ _ Hs2).
    eapply (loop_result_next leaf s _ _ (drop j es1 ++ concat ess)); [|exact Hsplit].
    destruct (decide (drop j es1 = [])) as [Hd|Hd].
    + rewrite bool_decide_true by done. cbn [andb negb].
      rewrite Hd in *. apply (Hnext _ [] []); try done.
      * apply after_ready. done.
      * apply pending_nil.
      * simpl. lia.
    + rewrite bool_decide_false by done. cbn [andb negb].
      apply (IH _ [] [] s2 (drop j es1) qsegs ess); try done.
      * apply after_ready. done.
      * apply pending_nil.
      * simpl. rewrite length_app, length_drop. lia.
      * unfold loop_fuel in *. rewrite length_drop. lia.
  - (* no boundary in this segment *)
    destruct HT as (rh & -> & Hrh'). cbv beta iota zeta.
    destruct (seg_PosToIdx_defined _ _ (length (concat es1)) Hs) as [i ->];
      [by rewrite (sr_num _ _ Hs)|]. osimpl.
    unfold rh_CrossedBoundary. rewrite (rr_crossed _ _ _ Hrh'). cbv beta iota zeta. cbn [andb].
    rewrite app_assoc. apply (loop_result_skip leaf s rh).
    rewrite app_assoc in Hok, Hsz.
    apply Hnext; try done.
    + simpl. by rewrite concat_app.
    + rewrite (seg_rep_empty _ _ Hs). destruct (decide (es1 = [])) as [->|Hne].
      * by rewrite bool_decide_true, app_nil_r by done.
      * rewrite bool_decide_false by done. by apply pending_snoc.
    + rewrite concat_app, find_boundary_app, Hnb. simpl. by rewrite Hfb.
    + rewrite length_app. lia.
Qed.

(** ** One level *)

Lemma after_after leaf s rh rh' gs gs' :
  after leaf (after leaf s rh gs) rh' gs' = after leaf s rh' (gs ++ gs').
Proof.
  revert s rh. induction gs as [|g gs IH]; intros s rh.
  - rewrite after_nil. done.
  - cbn [app]. rewrite <- (after_app leaf s rh rh g gs), IH, after_app. done.
Qed.

Lemma pending_length segs es : pending segs es -> (length segs = 0 <-> es = []).
Proof.
  intros (ess & Hs & <- & Hne). rewrite (Forall2_length _ _ _ Hs). destruct Hne as [|e ess He]; [done|].
  simpl. split; [done|]. intros E. apply app_eq_nil in E as [? _]. done.
Qed.

(** The parent of a level built from scratch when the level is committed. *)
Definition fresh_parent : Builder := set_uncommited (new_builder leaf_params meta_params false).

Lemma skip_parent_scratch st : skip_parent leaf_params meta_params st [] = Some [fresh_parent].
Proof. done. Qed.

(** A builder on no existing tree with segments to commit. *)
Definition scratch (leaf : bool) (rh : RollingHasher) (n : nat) (qsegs : list Segment) : Builder :=
  mkNB None (Some <$> qsegs) None rh false n.

Lemma appended_fuel_ok q qes qsegs ess :
  seg_rep q qes -> segs_rep qsegs ess ->
  loop_fuel qes ess <= appended_fuel (Some <$> (q :: qsegs)).
Proof.
  intros Hq Hs. unfold loop_fuel, appended_fuel. rewrite fmap_cons, fmap_cons.
  cbn [from_option]. rewrite (seg_rep_numEntries _ _ Hq).
  assert (E : list_sum ((fun o => S (from_option seg_numEntries 0 o)) <$> (Some <$> qsegs))
              = list_sum ((fun x => S (length x)) <$> ess)).
  { induction Hs as [|s es ss ess' Hse _ IH]; [done|]. rewrite !fmap_cons.
    cbn [list_sum fold_right from_option]. unfold list_sum in IH. rewrite IH.
    by rewrite (seg_rep_numEntries _ _ Hse). }
  cbn [list_sum fold_right]. unfold list_sum in E. unfold list_sum. rewrite E. lia.
Qed.

Lemma commit_appended_scratch leaf rh n qsegs ess st B K :
  rh_rep (prm leaf) rh [] -> segs_rep qsegs ess ->
  level_ok B K (knd leaf) (prm leaf) (concat ess) ->
  let s := mkCS (scratch leaf rh n qsegs) [fresh_parent] st None in
  let '(cur, queue) := match Some <$> qsegs with [] => (None, []) | s :: q => (s, q) end in
  loop_result leaf s (concat ess)
    (commit_appended kind leaf_params meta_params (appended_fuel (Some <$> qsegs)) leaf s [] cur queue).
Proof.
  intros Hrh Hs Hl s. destruct (level_sizes _ _ _ _ _ Hl) as [Hsz _].
  destruct Hs as [|q qes qsegs ess Hq Hs].
  - exists [], rh. split; [simpl; by rewrite after_nil|]. split; [apply pending_nil|done].
  - rewrite fmap_cons. cbv beta iota zeta.
    apply (commit_appended_rep leaf _ s [] [] q qes qsegs ess); try done.
    + by exists fresh_parent, [].
    + apply pending_nil.
    + apply Hl.
    + apply Hl.
    + rewrite <- fmap_cons. by apply appended_fuel_ok.
Qed.

Lemma commit_level_scratch fuel leaf rh n qsegs ess st B K :
  rh_rep (prm leaf) rh [] -> segs_rep qsegs ess ->
  level_ok B K (knd leaf) (prm leaf) (concat ess) ->
  (knd leaf = KMeta -> concat ess <> []) ->
  let s := mkCS (scratch leaf rh n qsegs) [fresh_parent] st None in
  exists rh', commit_level kind leaf_params meta_params fuel leaf (scratch leaf rh n qsegs) [] st
    = Some (after leaf s rh' (level_groups (prm leaf) (concat ess))).
Proof.
  intros Hrh Hs Hl Hm s. set (es := concat ess) in *.
  pose proof (level_sizes _ _ _ _ _ Hl) as [Hsz Hsz'].
  pose proof (commit_appended_scratch leaf rh n qsegs ess st B K Hrh Hs Hl) as HL.
  unfold commit_level. rewrite skip_parent_scratch. osimpl.
  cbn [commited_ scratch negb pre_cursor_seg_ appended_segs_]. osimpl.
  fold (scratch leaf rh n qsegs).
  destruct (match Some <$> qsegs with [] => (None, []) | s :: q => (s, q) end) as [cur queue].
  cbv zeta in HL. fold s in HL. fold s. destruct HL as (segs' & rh1 & -> & Hpd & _). osimpl.
  set (p := prm leaf) in *. fold es in Hpd. fold es.
  assert (Hrdy : forall gs r, ready (after leaf s r gs)).
  { intros gs r. apply after_ready. by exists fresh_parent, []. }
  assert (Hcur : forall r gs, cursor_ (cs_builder (after leaf s r gs)) = None) by done.
  rewrite Hcur. osimpl. rewrite Hcur. osimpl.
  (* close the last group *)
  assert (Hclose : exists rh2,
    (if 0 <? length segs'
     then s2' ← Some (after leaf s rh1 (fst (split p es)));
          HandleBoundary kind leaf_params meta_params leaf s2' segs'
     else Some (after leaf s rh1 (fst (split p es))))
    = Some (after leaf s rh2 (groups p es))).
  { pose proof (pending_length _ _ Hpd) as Hpl. unfold groups in *.
    destruct (split p es) as [gs lo] eqn:Esp. cbn [fst snd] in *.
    destruct lo as [|e lo].
    - rewrite (proj2 Hpl) by done. simpl. eauto.
    - destruct (Nat.ltb_spec 0 (length segs')) as [Hlt|Hge].
      2: { assert (length segs' = 0) as E%Hpl by lia. done. }
      osimpl. cbn [close] in Hsz. apply Forall_app in Hsz as [_ Hszl].
      apply Forall_cons in Hszl as [Hszl _].
      rewrite (HandleBoundary_rep leaf _ _ (e :: lo)); [|done..| |done|done].
      + rewrite after_after. eauto.
      + pose proof (split_concat p es) as Hcat. rewrite Esp in Hcat. cbn [fst snd] in Hcat.
        pose proof (lo_entries _ _ _ _ _ Hl) as Hok. rewrite <- Hcat in Hok.
        by apply entries_ok_app in Hok as [_ ?]. }
  destruct Hclose as (rh2 & Hclose). osimpl in Hclose. rewrite Hclose. osimpl.
  unfold level_groups. cbn [cs_last after]. unfold last_chunk.
  destruct (groups p es) as [|g gs] eqn:Eg.
  - (* no entries: one empty node *)
    cbn [last]. apply groups_nil in Eg. cbn [cs_last s].
    rewrite (HandleBoundary_rep leaf _ [] []).
    + rewrite after_after. eauto.
    + apply Hrdy.
    + apply pending_nil.
    + rewrite <- Eg. apply Hl.
    + unfold size_ok. simpl. lia.
    + intros E. by destruct (Hm E).
  - destruct (last (g :: gs)) as [x|] eqn:El; [eauto|]. by apply last_None in El.
Qed.

(** ** All levels *)

Definition put_all (st : St) (nodes : list (NodeKind * list bytes)) : St :=
  fold_left (fun st kg => put_node (fst kg) st (snd kg)) nodes st.

Lemma put_all_app st l1 l2 : put_all st (l1 ++ l2) = put_all (put_all st l1) l2.
Proof. apply fold_left_app. Qed.

Lemma put_all_level st k gs : put_all st (pair k <$> gs) = put_nodes k st gs.
Proof.
  unfold put_all, put_nodes. revert st. induction gs as [|g gs IH]; intros st; simpl; [done|].
  apply IH.
Qed.

Lemma seg_rep_meta e : e <> [] -> seg_rep (meta_segment e) [e].
Proof.
  intros He. constructor; simpl.
  - exists []. by rewrite !app_nil_r.
  - by rewrite app_nil_r.
  - done.
  - by repeat constructor.
Qed.

Lemma meta_segs_rep es :
  Forall (fun e => e <> []) es ->
  segs_rep (meta_segment <$> es) ((fun e => [e]) <$> es) /\ concat ((fun e => [e]) <$> es) = es.
Proof.
  induction 1 as [|e es He _ [IH1 IH2]]; [split; [constructor|done]|].
  rewrite !fmap_cons. split; [constructor; [by apply seg_rep_meta|done]|].
  cbn [concat app]. by rewrite IH2.
Qed.

Lemma meta_segs_some k gs : meta_segs k gs = Some <$> (meta_segment <$> metas k gs).
Proof. unfold meta_segs. by rewrite <- list_fmap_compose. Qed.

Lemma append_fresh_parent k gs :
  append_segs fresh_parent (meta_segs k gs)
  = scratch false (lvl_rhasher leaf_params meta_params false) 0 (meta_segment <$> metas k gs).
Proof. unfold append_segs, scratch. by rewrite meta_segs_some. Qed.

Lemma fresh_rhasher leaf :
  params_ok (prm leaf) -> rh_rep (prm leaf) (lvl_rhasher leaf_params meta_params leaf) [].
Proof. intros Hp. apply rh_rep_new; [done|apply fresh_length]. Qed.

Lemma last_node_hash leaf s rh gs :
  gs <> [] -> Forall size_ok gs ->
  exists c g, cs_last (after leaf s rh gs) = Some c /\ last gs = Some g /\
    chunk_hash c = Some (Some (mi_hash (meta_of (knd leaf) g))).
Proof.
  intros Hne Hsz. cbn [cs_last after]. unfold last_chunk.
  destruct (last gs) as [g|] eqn:El; [|by apply last_None in El].
  exists (node_chunk (knd leaf) g), g. split_and!; [done..|].
  by rewrite meta_of_hash.
Qed.

(** [RecursiveCommit] is [tree_root], and writes [tree_nodes]; [K] bounds the
    keys. *)
Lemma RecursiveCommit_scratch K fuel : forall leaf rh n qsegs ess st B,
  rh_rep (prm leaf) rh [] -> segs_rep qsegs ess ->
  level_ok B K (knd leaf) (prm leaf) (concat ess) ->
  (knd leaf = KMeta -> concat ess <> []) ->
  params_ok meta_params -> cp_window meta_params <= cp_max meta_params ->
  (Z.of_nat (cp_max meta_params + (meta_head + K)) + 64 < 2 ^ 32)%Z ->
  RecursiveCommit kind leaf_params meta_params fuel leaf (scratch leaf rh n qsegs) [] st
  = (fun h => (Some h, put_all st (tree_nodes fuel meta_params (knd leaf) (prm leaf) (concat ess))))
    <$> tree_root fuel meta_params (knd leaf) (prm leaf) (concat ess).
Proof.
  induction fuel as [|fuel IH]; intros leaf rh n qsegs ess st B Hrh Hs Hl Hm Hp Hw Hsz; [done|].
  set (es := concat ess) in *. set (gs := level_groups (prm leaf) es).
  pose proof (level_sizes _ _ _ _ _ Hl) as [_ Hgs]. fold gs in Hgs.
  pose proof (level_groups_ne (prm leaf) es) as Hgne. fold gs in Hgne.
  cbn [RecursiveCommit tree_root tree_nodes].
  destruct (commit_level_scratch fuel leaf rh n qsegs ess st B K Hrh Hs Hl Hm) as [rh' ->].
  osimpl. fold es gs.
  set (s := mkCS (scratch leaf rh n qsegs) [fresh_parent] st None).
  destruct (last_node_hash leaf s rh' gs Hgne Hgs) as (c & g & -> & Hlast & Hch).
  osimpl. rewrite Hch. osimpl.
  cbn [cs_parents after s parent_builder]. rewrite append_fresh_parent.
  cbn [cursor_ scratch appended_segs_]. rewrite bool_decide_false by (intros [? ?]; done).
  cbn [orb]. rewrite !length_fmap. unfold metas at 1. rewrite length_fmap.
  cbn [cs_store after s]. rewrite put_all_app, put_all_level.
  destruct (Nat.ltb_spec 1 (length gs)) as [Hlt|Hle].
  - (* more than one node *)
    assert (Hes : es <> []).
    { intros E. unfold gs, level_groups in Hlt.
      by rewrite (proj2 (groups_nil (prm leaf) es) E) in Hlt; simpl in Hlt; lia. }
    destruct (level_groups_nonempty (prm leaf) es Hes) as [Egs _]. fold gs in Egs.
    pose proof (level_ok_next _ _ _ _ meta_params _ Hl Hes (conj Hp Hw) Hsz) as Hnext.
    rewrite <- Egs in Hnext.
    assert (Hne : Forall (fun e => e <> []) (metas (knd leaf) gs)).
    { eapply entries_ne, eo_entries, lo_entries, Hnext. }
    destruct (meta_segs_rep _ Hne) as [Hsegs Hcat].
    fold (scratch false (lvl_rhasher leaf_params meta_params false) 0
            (meta_segment <$> metas (knd leaf) gs)).
    rewrite (IH false _ 0 _ ((fun e => [e]) <$> metas (knd leaf) gs) _ (meta_head + K));
      rewrite ?Hcat; try done.
    + cbn [lvl_kind lvl_params]. destruct gs as [|g1 [|g2 gs]]; simpl in Hlt; [lia|lia|done].
    + by apply (fresh_rhasher false).
    + intros _ E. apply fmap_nil_inv in E. by rewrite E in Hlt; simpl in Hlt; lia.
  - destruct gs as [|g1 [|g2 gs]]; simpl in Hle; [done| |lia].
    simpl in Hlast. simplify_eq. done.
Qed.

(** A round that makes more than one node goes on with their meta entries. *)
Lemma commit_round_scratch fuel leaf rh n qsegs ess st B K :
  rh_rep (prm leaf) rh [] -> segs_rep qsegs ess ->
  level_ok B K (knd leaf) (prm leaf) (concat ess) -> (knd leaf = KMeta -> concat ess <> []) ->
  let gs := level_groups (prm leaf) (concat ess) in
  1 < length gs ->
  commit_round kind leaf_params meta_params fuel (mkLevel leaf (scratch leaf rh n qsegs) [] st)
  = Some (inl (mkLevel false
      (scratch false (lvl_rhasher leaf_params meta_params false) 0 (meta_segment <$> metas (knd leaf) gs)) []
      (put_all st (pair (knd leaf) <$> gs)))).
Proof.
  intros Hrh Hs Hl Hm gs Hlt. pose proof (level_sizes _ _ _ _ _ Hl) as [_ Hgs]. fold gs in Hgs.
  pose proof (level_groups_ne (prm leaf) (concat ess)) as Hgne. fold gs in Hgne.
  unfold commit_round. cbn [lv_leaf lv_builder lv_parents lv_store].
  destruct (commit_level_scratch fuel leaf rh n qsegs ess st B K Hrh Hs Hl Hm) as [rh' ->]. osimpl. fold gs.
  set (s := mkCS (scratch leaf rh n qsegs) [fresh_parent] st None).
  destruct (last_node_hash leaf s rh' gs Hgne Hgs) as (c & g & -> & _ & Hch). osimpl. rewrite Hch. osimpl.
  cbn [cs_parents after s parent_builder]. rewrite append_fresh_parent.
  cbn [cursor_ scratch appended_segs_]. rewrite bool_decide_false by (intros [? ?]; done).
  cbn [orb]. rewrite !length_fmap. unfold metas at 1. rewrite length_fmap, (proj2 (Nat.ltb_lt _ _)) by done.
  cbn [cs_store after s]. by rewrite put_all_level.
Qed.

(** ** Termination *)

(** The number of levels is at most the number of entries, when a meta entry
    is shorter than the window. *)
Lemma tree_root_total K fuel : forall k p es B,
  level_ok B K k p es -> params_ok meta_params -> cp_window meta_params <= cp_max meta_params ->
  (Z.of_nat (cp_max meta_params + (meta_head + K)) + 64 < 2 ^ 32)%Z ->
  meta_head + K < cp_window meta_params ->
  length (level_groups p es) <= fuel -> is_Some (tree_root fuel meta_params k p es).
Proof.
  induction fuel as [|fuel IH]; intros k p es B Hl Hp Hw Hsz HK Hf.
  { pose proof (level_groups_ne p es). destruct (level_groups p es); [done|simpl in Hf; lia]. }
  cbn [tree_root].
  destruct (level_groups p es) as [|g1 [|g2 gs]] eqn:Egs;
    [by destruct (level_groups_ne p es)|by eexists|].
  assert (Hes : es <> []).
  { intros ->. discriminate Egs. }
  destruct (level_groups_nonempty p es Hes) as [E _]. rewrite E in Egs.
  pose proof (level_ok_next _ _ _ _ meta_params _ Hl Hes (conj Hp Hw) Hsz) as Hnext.
  rewrite Egs in Hnext. apply (IH _ _ _ _ Hnext Hp Hw Hsz HK).
  assert (Hwin : Forall (fun e => length e < cp_window meta_params) (metas k (g1 :: g2 :: gs))).
  { eapply Forall_impl; [apply (lo_bound _ _ _ _ _ Hnext)|]. intros e He. cbv beta in He. lia. }
  assert (Hmne : metas k (g1 :: g2 :: gs) <> []) by done.
  destruct (level_groups_nonempty meta_params _ Hmne) as [-> _].
  pose proof (groups_halve meta_params _ Hwin) as Hh.
  assert (E2 : length (metas k (g1 :: g2 :: gs)) = S (S (length gs)))
    by (unfold metas; by rewrite length_fmap).
  rewrite E2 in Hh. cbn [length] in Hf. lia.
Qed.

(** [build] on segments. *)
Lemma build_scratch fuel st qsegs :
  build kind leaf_params meta_params fuel st (Some <$> qsegs)
  = RecursiveCommit kind leaf_params meta_params fuel true
      (scratch true (lvl_rhasher leaf_params meta_params true) 0 qsegs) [] st.
Proof.
  unfold build.
  assert (E : SpliceElements st 0 (Some <$> qsegs) [new_builder leaf_params meta_params true]
    = Some [scratch true (lvl_rhasher leaf_params meta_params true) 0 qsegs]) by done.
  rewrite E. osimpl. unfold Commit.
  by destruct (RecursiveCommit _ _ _ _ _ _ _ _) as [[h st']|].
Qed.

End Build.
