(* ===== verification/Tree.v ===== *)
(** * POS-trees in a chunk store

    [tree get ht k h es]: below the hash [h] there is a tree of height [ht]
    whose leaves, of kind [k], hold the entries [es], and every node is stored
    under its hash.  This is the invariant
    that the readers rely on.  [Build.v]'s canonical tree satisfies it once
    its nodes are stored, so what was built can be read. *)

From S2P Require Import Prelude Types Slice HashVal Chunk RollingHash Node NodeSearch Chunker.
From S2P Require Import Canonical Leaf Store Cursor Builder Build.

Section Tree.
Context `{HashFunction} `{Uninit}.
Variable get : Hash -> option Chunk.

(** The meta entry [m] of a child with entries [es]. *)
Record child_ok (k : NodeKind) (m : MetaInfo) (es : list bytes) : Prop := {
  ch_ok : mi_ok m;
  ch_elements : mi_elements m = Z.of_nat (length es);
  ch_key : keyed k -> exists kl, last_key k es = Some kl /\ key_sim kl (mi_key m)
}.

Fixpoint tree (ht : nat) (k : NodeKind) (h : bytes) (es : list bytes) : Prop :=
  match ht with
  | O =>
      k <> KMeta /\ entries_ok k es /\ h = ComputeFrom (node_bytes k es) /\
      exists c, get (Some h) = Some c /\ chunk_rep c (kind_type k) (node_payload k es)
  | S ht' =>
      exists c ms ess,
        get (Some h) = Some c /\ chunk_rep c kMeta (node_payload KMeta (mi_bytes <$> ms)) /\
        entries_ok KMeta (mi_bytes <$> ms) /\ h = ComputeFrom (node_bytes KMeta (mi_bytes <$> ms)) /\
        ms <> [] /\ es = concat ess /\
        Forall2 (fun m es' => child_ok k m es' /\ es' <> [] /\ tree ht' k (mi_hash m) es') ms ess
  end.

Definition stored (kg : NodeKind * list bytes) : Prop :=
  exists c, get (Some (ComputeFrom (node_bytes (fst kg) (snd kg)))) = Some c /\
    chunk_rep c (kind_type (fst kg)) (node_payload (fst kg) (snd kg)).

(** ** The canonical tree is a tree *)

(** Cutting a list of pairs along the groups of its encodings. *)
Lemma regroup {A B} (f : A -> bytes) (R : A -> B -> Prop) (gs : list (list bytes)) :
  forall (ms : list A) (ess : list B), concat gs = f <$> ms -> Forall2 R ms ess ->
  exists (msg : list (list A)) (essg : list (list B)),
    gs = (fun l : list A => f <$> l) <$> msg /\ concat msg = ms /\ concat essg = ess /\
    Forall2 (Forall2 R) msg essg.
Proof.
  induction gs as [|g gs IH]; intros ms ess Hc HR; simpl in Hc.
  - symmetry in Hc. apply fmap_nil_inv in Hc as ->. apply Forall2_nil_inv_l in HR as ->.
    exists [], []. repeat split; constructor.
  - set (n := length g).
    assert (Hg : g = f <$> take n ms).
    { rewrite fmap_take, <- Hc. subst n. by rewrite take_app_length. }
    assert (Hgs : concat gs = f <$> drop n ms).
    { rewrite fmap_drop, <- Hc. subst n. by rewrite drop_app_length. }
    destruct (IH (drop n ms) (drop n ess) Hgs ltac:(by apply Forall2_drop))
      as (msg & essg & -> & Hm & He & HF).
    exists (take n ms :: msg), (take n ess :: essg). split_and!.
    + rewrite fmap_cons. by rewrite <- Hg.
    + simpl. by rewrite Hm, take_drop.
    + simpl. by rewrite He, take_drop.
    + constructor; [by apply Forall2_take|done].
Qed.

Lemma e_elements_mi m : mi_ok m -> e_elements (mi_bytes m) = mi_elements m.
Proof.
  intros Hm. destruct (mi_decode m [] Hm) as (_ & _ & E & _). rewrite app_nil_r in E.
  unfold e_elements. by rewrite E.
Qed.

Lemma sum_elements_children k ms ess :
  Forall2 (child_ok k) ms ess ->
  sum_with e_elements (mi_bytes <$> ms) = Z.of_nat (length (concat ess)).
Proof.
  induction 1 as [|m es ms ess Hc _ IH]; [done|]. rewrite fmap_cons. cbn [sum_with concat].
  rewrite length_app, IH, e_elements_mi, (ch_elements _ _ _ Hc) by apply Hc. lia.
Qed.

Lemma last_concat_ne {A} (ls : list (list A)) l :
  last ls = Some l -> l <> [] -> last (concat ls) = last l.
Proof.
  intros [ls' ->]%last_Some Hne. rewrite concat_app. simpl. rewrite app_nil_r, last_app.
  destruct (last l) eqn:E; [done|]. by apply last_None in E.
Qed.

(** The node made of a group of children is a child of the next level. *)
Lemma meta_child_ok k ms ess :
  Forall2 (fun m es => child_ok k m es /\ es <> []) ms ess -> ms <> [] ->
  mi_ok (meta_of KMeta (mi_bytes <$> ms)) -> (Z.of_nat (length (concat ess)) < 2 ^ 64)%Z ->
  child_ok k (meta_of KMeta (mi_bytes <$> ms)) (concat ess).
Proof.
  intros HF Hne Hok Hb. constructor; [done|..].
  - cbn [meta_of mi_elements]. rewrite (sum_elements_children k ms ess).
    + apply wrap_small. lia.
    + eapply Forall2_impl; [exact HF|]. by intros ? ? [? _].
  - intros Hk. cbn [meta_of mi_key]. unfold last_key at 2. rewrite fmap_last.
    destruct (last ms) as [m|] eqn:El; [|by apply last_None in El]. osimpl.
    assert (Hlast : exists es, last ess = Some es /\ child_ok k m es /\ es <> []).
    { apply last_Some in El as [ms' ->]. apply Forall2_app_inv_l in HF as (e1 & e2 & _ & HF & ->).
      apply Forall2_cons_inv_l in HF as (es & nil & Hes & Hnil & ->).
      apply Forall2_nil_inv_l in Hnil as ->. exists es. by rewrite last_snoc. }
    destruct Hlast as (es & Hes & Hc & Hesne).
    destruct (ch_key _ _ _ Hc Hk) as (kl & Hkl & Hsim).
    destruct (mi_decode m [] (ch_ok _ _ _ Hc)) as (_ & _ & _ & _ & km & Hkm & Hsim').
    rewrite app_nil_r in Hkm. cbn [entry_key]. rewrite Hkm. osimpl.
    exists kl. split.
    + unfold last_key in *. by rewrite (last_concat_ne _ _ Hes Hesne).
    + by apply (key_sim_trans _ _ _ Hsim).
Qed.

(** What is known of each child of a level. *)
Definition sub_tree (ht : nat) (k : NodeKind) (m : MetaInfo) (es : list bytes) : Prop :=
  child_ok k m es /\ es <> [] /\ tree ht k (mi_hash m) es.

Lemma sub_tree_children ht k ms ess :
  Forall2 (sub_tree ht k) ms ess -> Forall2 (fun m es => child_ok k m es /\ es <> []) ms ess.
Proof. intros HF. eapply Forall2_impl; [exact HF|]. by intros ? ? (? & ? & _). Qed.

Lemma group_sub_tree ht k ms ess :
  Forall2 (sub_tree ht k) ms ess -> ms <> [] -> entries_ok KMeta (mi_bytes <$> ms) ->
  size_ok (mi_bytes <$> ms) -> (Z.of_nat (length (concat ess)) < 2 ^ 64)%Z ->
  stored (KMeta, mi_bytes <$> ms) ->
  sub_tree (S ht) k (meta_of KMeta (mi_bytes <$> ms)) (concat ess).
Proof.
  intros HF Hne Hok Hsz Hb (c & Hget & Hc). split_and!.
  - apply meta_child_ok; [by eapply sub_tree_children|done| |done].
    apply meta_of_ok; [apply Hok|done].
  - destruct HF as [|m es ms ess (_ & Hes & _) _]; [done|]. simpl.
    intros E. by apply app_eq_nil in E as [? _].
  - rewrite meta_of_hash. exists c, ms, ess. split_and!; done.
Qed.

Lemma concat_fmap_concat {A} (ls : list (list (list A))) :
  concat (@concat _ <$> ls) = concat (concat ls).
Proof.
  induction ls as [|l ls IH]; [done|]. rewrite fmap_cons. cbn [concat]. by rewrite concat_app, IH.
Qed.

(** Cutting the children of a level into the nodes of the level. *)
Lemma level_sub_trees ht k mp ms ess B K :
  Forall2 (sub_tree ht k) ms ess -> ms <> [] ->
  level_ok B K KMeta mp (mi_bytes <$> ms) ->
  (Z.of_nat (length (concat ess)) < 2 ^ 64)%Z ->
  Forall stored (pair KMeta <$> level_groups mp (mi_bytes <$> ms)) ->
  exists essg, Forall2 (sub_tree (S ht) k) (meta_of KMeta <$> level_groups mp (mi_bytes <$> ms)) essg
    /\ concat essg = concat ess.
Proof.
  intros HF Hne Hl Hb Hst.
  assert (Hne' : mi_bytes <$> ms <> []) by (by destruct ms).
  destruct (level_groups_nonempty mp _ Hne') as [Eg Hgne].
  pose proof (level_sizes _ _ _ _ _ Hl) as [_ Hsz].
  pose proof (lo_entries _ _ _ _ _ Hl) as Hok.
  set (gs := level_groups mp (mi_bytes <$> ms)) in *.
  assert (Hcat : concat gs = mi_bytes <$> ms) by apply level_groups_concat.
  rewrite <- Hcat in Hok. apply entries_ok_concat in Hok.
  destruct (regroup mi_bytes (sub_tree ht k) gs ms ess Hcat HF) as (msg & essg & Hgs & Hm & He & HFF).
  exists (@concat _ <$> essg). split; [|by rewrite concat_fmap_concat, He].
  rewrite <- He in Hb. rewrite Hgs in *. clear Hgs Hcat Eg gs Hm He.
  induction HFF as [|x y msg essg Hxy HFF IH]; [constructor|].
  rewrite !fmap_cons in *. cbn [concat] in Hb. rewrite concat_app, length_app in Hb.
  apply Forall_cons in Hst as [Hst1 Hst]. apply Forall_cons in Hok as [Hok1 Hok].
  apply Forall_cons in Hsz as [Hsz1 Hsz]. apply Forall_cons in Hgne as [Hg1 Hgne].
  constructor; [|apply IH; done || lia].
  apply group_sub_tree; [done|by destruct x|done|done|lia|done].
Qed.

Lemma meta_levels mp k K fuel : forall ht ms ess B h,
  Forall2 (sub_tree ht k) ms ess -> ms <> [] ->
  level_ok B K KMeta mp (mi_bytes <$> ms) ->
  (Z.of_nat (cp_max mp + (meta_head + K)) + 64 < 2 ^ 32)%Z ->
  (Z.of_nat (length (concat ess)) < 2 ^ 64)%Z ->
  Forall stored (tree_nodes fuel mp KMeta mp (mi_bytes <$> ms)) ->
  tree_root fuel mp KMeta mp (mi_bytes <$> ms) = Some h ->
  exists ht', ht' <= ht + fuel /\ tree ht' k h (concat ess).
Proof.
  induction fuel as [|fuel IH]; intros ht ms ess B h HF Hne Hl Hsz Hb Hst Hr; [done|].
  cbn [tree_root tree_nodes] in *. apply Forall_app in Hst as [Hst1 Hst2].
  destruct (level_sub_trees ht k mp ms ess B K HF Hne Hl Hb Hst1) as (essg & HF' & Hcat).
  assert (Hne' : mi_bytes <$> ms <> []) by (by destruct ms).
  pose proof (level_ok_next _ _ _ _ mp _ Hl Hne' (lo_params _ _ _ _ _ Hl) Hsz) as Hnext.
  destruct (level_groups_nonempty mp _ Hne') as [Eg _]. rewrite <- Eg in Hnext. clear Eg.
  set (gs := level_groups mp (mi_bytes <$> ms)) in *.
  destruct gs as [|g1 [|g2 gs]].
  - apply Forall2_nil_inv_l in HF' as ->. simpl in Hcat.
    destruct HF as [|m es ms' ess' (_ & Hes & _) _]; [done|].
    simpl in Hcat. symmetry in Hcat. by apply app_eq_nil in Hcat as [? _].
  - apply Forall2_cons_inv_l in HF' as (es1 & essg' & (_ & _ & Ht) & Hnil & ->).
    apply Forall2_nil_inv_l in Hnil as ->. simplify_eq.
    exists (S ht). split; [lia|]. rewrite <- Hcat. simpl. rewrite app_nil_r. exact Ht.
  - rewrite <- Hcat.
    assert (Hms : metas KMeta (g1 :: g2 :: gs) = mi_bytes <$> (meta_of KMeta <$> (g1 :: g2 :: gs)))
      by (unfold metas; by rewrite <- list_fmap_compose).
    rewrite Hms in Hst2, Hr, Hnext.
    rewrite <- Hcat in Hb.
    destruct (IH (S ht) _ essg _ h HF' ltac:(done) Hnext Hsz Hb Hst2 Hr) as (ht' & Hle & Ht').
    exists ht'. split; [lia|done].
Qed.

Lemma leaf_child_ok k g :
  k <> KMeta -> g <> [] -> entries_ok k g -> size_ok g -> child_ok k (meta_of k g) g.
Proof.
  intros Hk Hne Hok Hsz. constructor.
  - apply meta_of_ok; [apply Hok|done].
  - by destruct k.
  - intros Hkey. destruct Hok as [_ Ho].
    destruct (ordered_from_last _ _ _ Hne (entries_ordered_le _ _ _ Hkey Ho)) as (kl & Hkl & _).
    assert (E : last_key k g = Some kl).
    { unfold key_after in Hkl. unfold last_key.
      destruct (last g) as [e|] eqn:El; [done|]. by apply last_None in El. }
    exists kl. split; [done|].
    assert (Em : mi_key (meta_of k g) = kl).
    { destruct Hkey as [->|[->| ->]]; cbn [meta_of mi_key]; by rewrite E. }
    rewrite Em. apply key_sim_refl.
Qed.

(** The canonical tree, once its nodes are stored. *)
Lemma canonical_tree mp k p K fuel es B h :
  k <> KMeta -> level_ok B K k p es ->
  params_ok mp -> cp_window mp <= cp_max mp ->
  (Z.of_nat (cp_max mp + (meta_head + K)) + 64 < 2 ^ 32)%Z ->
  Forall stored (tree_nodes fuel mp k p es) -> tree_root fuel mp k p es = Some h ->
  exists ht, ht < fuel /\ tree ht k h es.
Proof.
  intros Hk Hl Hmp Hw Hsz Hst Hr. destruct fuel as [|fuel]; [done|].
  cbn [tree_root tree_nodes] in *. apply Forall_app in Hst as [Hst1 Hst2].
  pose proof (lo_entries _ _ _ _ _ Hl) as Hok.
  pose proof (level_sizes _ _ _ _ _ Hl) as [_ Hgsz].
  pose proof (level_groups_concat p es) as Hcat.
  destruct (decide (es = [])) as [->|Hne].
  - (* one empty leaf *)
    change (level_groups p []) with [@nil bytes] in *. cbv iota beta in Hr. simplify_eq.
    apply Forall_cons in Hst1 as [(c & Hget & Hc) _]. exists 0. rewrite meta_of_hash.
    split; [lia|]. split_and!; [done..|]. by exists c.
  - destruct (level_groups_nonempty p es Hne) as [Eg Hgne].
    pose proof (level_ok_next _ _ _ _ mp _ Hl Hne (conj Hmp Hw) Hsz) as Hnext. rewrite <- Eg in Hnext.
    set (gs := level_groups p es) in *. clear Eg.
    assert (HF : Forall2 (sub_tree 0 k) (meta_of k <$> gs) gs).
    { pose proof (lo_count _ _ _ _ _ Hl) as Hc. rewrite <- Hcat in Hok. apply entries_ok_concat in Hok.
      clear -Hk Hok Hgsz Hgne Hst1. induction gs as [|g gs IH]; [constructor|].
      rewrite fmap_cons in *. apply Forall_cons in Hok as [Hok1 Hok].
      apply Forall_cons in Hgsz as [Hs1 Hs]. apply Forall_cons in Hgne as [Hg1 Hg].
      apply Forall_cons in Hst1 as [(c & Hget & Hc) Hst1].
      constructor; [|by apply IH]. split_and!; [by apply leaf_child_ok|done|].
      rewrite meta_of_hash. split_and!; [done..|]. by exists c. }
    destruct gs as [|g1 [|g2 gs]].
    + rewrite <- Hcat in Hne. done.
    + apply Forall2_cons_inv_l in HF as (es1 & nil & (_ & _ & Ht) & Hnil & E).
      simplify_eq. simpl. rewrite app_nil_r. exists 0. split; [lia|done].
    + assert (Hms : metas k (g1 :: g2 :: gs) = mi_bytes <$> (meta_of k <$> (g1 :: g2 :: gs)))
        by (unfold metas; by rewrite <- list_fmap_compose).
      rewrite Hms in Hst2, Hr, Hnext. rewrite <- Hcat.
      assert (Hb : (Z.of_nat (length (concat (g1 :: g2 :: gs))) < 2 ^ 64)%Z)
        by (rewrite Hcat; pose proof (lo_count _ _ _ _ _ Hl); lia).
      destruct (meta_levels mp k K fuel 0 _ (g1 :: g2 :: gs) _ h HF ltac:(done) Hnext Hsz Hb Hst2 Hr)
        as (ht & Hle & Ht). exists ht. split; [lia|done].
Qed.

End Tree.
