(* ===== verification/TreeProps.v ===== *)
(** * Properties of building and reading trees *)

From S2P Require Import Prelude Types Slice HashVal Chunk RollingHash Node NodeSearch Chunker.
From S2P Require Import Canonical Leaf Store Cursor Builder Build Tree.

(** ** What a sequence of writes stores *)

Section Stored.
Context `{HashFunction} `{Uninit} {St : Type} `{ChunkStoreSpec St}.

Definition node_hash (kg : NodeKind * list bytes) : bytes :=
  ComputeFrom (node_bytes (fst kg) (snd kg)).

(** The hash function does not confuse the nodes that are written with each
    other, nor with what the store already has. *)
Definition no_collisions (st : St) (nodes : list (NodeKind * list bytes)) : Prop :=
  (forall x y, x ∈ nodes -> y ∈ nodes -> node_hash x = node_hash y ->
     node_bytes (fst x) (snd x) = node_bytes (fst y) (snd y)) /\
  (forall x c, x ∈ nodes -> contents st !! Some (node_hash x) = Some c ->
     chunk_rep c (kind_type (fst x)) (node_payload (fst x) (snd x))).

Lemma chunk_rep_bytes c t p t' p' :
  chunk_bytes t p = chunk_bytes t' p' -> chunk_rep c t p -> chunk_rep c t' p'.
Proof.
  intros E [[rest Hh] Hs Hx]. constructor.
  - exists rest. by rewrite <- E.
  - unfold payload_ok in *. rewrite <- length_chunk_bytes with (t := t) in Hs.
    rewrite <- length_chunk_bytes with (t := t'). by rewrite <- E.
  - by rewrite <- E.
Qed.

(** Writing the nodes of [todo] keeps the store free of collisions with all
    the nodes, and keeps what it has. *)
Lemma put_all_stored st nodes todo :
  puts_succeed -> Forall (fun kg => size_ok (snd kg)) nodes ->
  no_collisions st nodes -> (forall x, x ∈ todo -> x ∈ nodes) ->
  no_collisions (put_all st todo) nodes /\
  (forall h c, contents st !! h = Some c -> contents (put_all st todo) !! h = Some c) /\
  (forall x, x ∈ todo -> is_Some (contents (put_all st todo) !! Some (node_hash x))).
Proof.
  intros Hp Hsz. revert st. induction todo as [|x todo IH]; intros st Hnc Hin.
  - split_and!; [done..|]. by intros x ?%elem_of_nil.
  - cbn [put_all fold_left]. fold (put_all (put_node (fst x) st (snd x)) todo).
    assert (Hx : x ∈ nodes) by (apply Hin; left).
    pose proof (put_contents st (Some (node_hash x)) (node_chunk (fst x) (snd x)) Hp) as Hc.
    change (snd (cs_Put st (Some (node_hash x)) (node_chunk (fst x) (snd x))))
      with (put_node (fst x) st (snd x)) in Hc.
    assert (Hkeep : forall h c, contents st !! h = Some c ->
      contents (put_node (fst x) st (snd x)) !! h = Some c).
    { intros h c E. rewrite Hc. case_decide as Hd; [done|].
      rewrite lookup_insert_ne; [done|]. intros <-. apply Hd. eauto. }
    destruct (IH (put_node (fst x) st (snd x))) as (IH1 & IH2 & IH3).
    + destruct Hnc as [Hnc1 Hnc2]. split; [done|]. intros y c Hy E. rewrite Hc in E.
      case_decide as Hd; [by apply Hnc2|].
      destruct (decide (node_hash x = node_hash y)) as [Exy|Nxy].
      * rewrite Exy, lookup_insert_eq in E. simplify_eq.
        eapply chunk_rep_bytes; [apply (Hnc1 x y Hx Hy Exy)|].
        apply node_chunk_rep. by eapply Forall_forall in Hsz.
      * rewrite lookup_insert_ne in E by congruence. by apply Hnc2.
    + intros y Hy. apply Hin. by right.
    + split_and!; [done|by eauto|]. intros y [->|Hy]%elem_of_cons; [|by apply IH3].
      destruct (contents st !! Some (node_hash x)) as [c|] eqn:E.
      * exists c. by apply IH2, Hkeep.
      * exists (node_chunk (fst x) (snd x)). apply IH2. rewrite Hc, decide_False.
        -- apply lookup_insert_eq.
        -- by intros [? ?].
Qed.

Lemma nodes_stored st nodes :
  puts_succeed -> Forall (fun kg => size_ok (snd kg)) nodes -> no_collisions st nodes ->
  Forall (stored (st_load (put_all st nodes))) nodes.
Proof.
  intros Hp Hsz Hnc. apply Forall_forall. intros x Hx.
  destruct (put_all_stored st nodes nodes Hp Hsz Hnc) as ((_ & Hc) & _ & Hin); [done|].
  destruct (Hin x Hx) as [c Ec]. exists c. split; [|by apply Hc].
  unfold st_load. simpl. rewrite Get_spec. fold (node_hash x). by rewrite Ec.
Qed.

Lemma tree_nodes_size mp k p K fuel : forall es B,
  level_ok B K k p es -> params_ok mp -> cp_window mp <= cp_max mp ->
  (Z.of_nat (cp_max mp + (meta_head + K)) + 64 < 2 ^ 32)%Z ->
  Forall (fun kg => size_ok (snd kg)) (tree_nodes fuel mp k p es).
Proof.
  revert k p. induction fuel as [|fuel IH]; intros k p es B Hl Hp Hw Hsz; [constructor|].
  cbn [tree_nodes]. pose proof (level_sizes _ _ _ _ _ Hl) as [_ Hs].
  apply Forall_app. split; [by apply Forall_fmap|].
  destruct (decide (es = [])) as [->|Hne]; [constructor|].
  destruct (level_groups_nonempty p es Hne) as [E _].
  pose proof (level_ok_next _ _ _ _ mp _ Hl Hne (conj Hp Hw) Hsz) as Hnext. rewrite <- E in Hnext.
  destruct (level_groups p es) as [|g1 [|g2 gs]]; [|constructor|]; by eapply IH.
Qed.

End Stored.

(** ** Trees without end *)

Section Diverge.
Context `{HashFunction} `{Uninit}.

(** Entries that are all as large as the largest chunk: one per node. *)
Lemma groups_large p es :
  0 < cp_max p -> cp_window p <= cp_max p -> Forall (fun e => cp_max p <= length e) es ->
  groups p es = (fun e => [e]) <$> es.
Proof.
  intros Hm Hw HB. unfold groups. revert HB.
  apply (split_ind (fun es r => Forall (fun e => cp_max p <= length e) es ->
    close r = (fun e => [e]) <$> es)).
  - intros es' Hn HB. destruct es' as [|e es']; [done|]. exfalso.
    apply Forall_cons in HB as [He _].
    destruct (find_boundary_max p [] (concat (e :: es'))) as (k & Hk & _);
      simpl; rewrite ?length_app; [lia..|]. rewrite Hn in Hk. done.
  - intros es' pos Hpos j Hj IH HB. destruct es' as [|e es']; [simpl in Hj; lia|].
    apply Forall_cons in HB as [He HB].
    assert (Hlt : pos < length e).
    { destruct (find_boundary_max p [] (concat (e :: es'))) as (k & Hk & Hle);
        simpl; rewrite ?length_app; [lia..|]. rewrite Hpos in Hk. simpl in Hle. simplify_eq. lia. }
    assert (Hj1 : j = 1) by (subst j; simpl; by rewrite (proj2 (Nat.ltb_lt _ _))).
    clearbody j. subst j. cbn [drop firstn] in *. rewrite !drop_0 in *. specialize (IH HB).
    destruct (split p es') as [gs lo]. cbn [fst snd] in *. rewrite fmap_cons, <- IH.
    by destruct lo.
Qed.

(** Every key makes a meta entry as large as the largest chunk. *)
Definition keys_large (mp : ChunkerParams) (k : NodeKind) (es : list bytes) : Prop :=
  Forall (fun e => exists key, entry_key k e = Some key /\ cp_max mp <= meta_head + key_numBytes key) es.

Lemma metas_large mp k gs :
  keyed k -> Forall (fun g => g <> [] /\ keys_large mp k g) gs -> Forall (fun g => mi_ok (meta_of k g)) gs ->
  keys_large mp KMeta (metas k gs) /\ Forall (fun e => cp_max mp <= length e) (metas k gs).
Proof.
  intros Hk HL Hm. unfold keys_large, metas in *.
  induction HL as [|g gs [Hne Hg] _ IH]; [split; constructor|].
  rewrite !fmap_cons in *. apply Forall_cons in Hm as [Hm1 Hm]. destruct (IH Hm) as [IH1 IH2].
  destruct (last g) as [e|] eqn:El; [|by apply last_None in El].
  assert (exists key, entry_key k e = Some key /\ cp_max mp <= meta_head + key_numBytes key) as (key & Hkey & Hle).
  { rewrite Forall_forall in Hg. apply Hg. rewrite last_lookup in El. by eapply list_elem_of_lookup_2. }
  assert (E : mi_key (meta_of k g) = key).
  { destruct Hk as [->|[->| ->]]; cbn [meta_of mi_key]; unfold last_key; rewrite El; osimpl; by rewrite Hkey. }
  destruct (meta_key_sim k g Hm1) as (key' & Hkey' & _ & Henc & _). rewrite E in Henc.
  split; (constructor; [|done]).
  - exists key'. split; [done|]. by rewrite <- length_key_Encode, Henc, length_key_Encode.
  - rewrite length_mi_bytes by apply Hm1. rewrite E. done.
Qed.

(** The level above a level with large keys: as many nodes as entries. *)
Lemma next_level_large mp K k p es B :
  keyed k -> level_ok B K k p es -> params_ok mp -> cp_window mp <= cp_max mp ->
  (Z.of_nat (cp_max mp + (meta_head + K)) + 64 < 2 ^ 32)%Z ->
  1 < length (level_groups p es) -> keys_large mp k es ->
  let ms := metas k (level_groups p es) in
  level_ok (meta_head + K) K KMeta mp ms /\ keys_large mp KMeta ms /\ 1 < length (level_groups mp ms).
Proof.
  intros Hk Hl Hp Hw Hsz Hlt HL ms.
  assert (Hne : es <> []).
  { intros ->. change (level_groups p []) with [@nil bytes] in Hlt. simpl in Hlt. lia. }
  destruct (level_groups_nonempty p es Hne) as [E Hgn].
  pose proof (level_ok_next _ _ _ _ mp _ Hl Hne (conj Hp Hw) Hsz) as Hnext. rewrite <- E in Hnext. fold ms in Hnext.
  assert (Hcat : concat (level_groups p es) = es) by apply level_groups_concat.
  assert (Hm : Forall (fun g => mi_ok (meta_of k g)) (level_groups p es)).
  { pose proof (level_sizes _ _ _ _ _ Hl) as [_ Hs]. pose proof (lo_entries _ _ _ _ _ Hl) as [He _].
    rewrite <- Hcat, Forall_concat in He. rewrite Forall_forall in *.
    intros g Hg. apply meta_of_ok; auto. }
  assert (Hg : Forall (fun g => g <> [] /\ keys_large mp k g) (level_groups p es)).
  { unfold keys_large in HL. rewrite <- Hcat, Forall_concat in HL.
    rewrite Forall_forall in *. intros g Hg. split; [by apply Hgn|by apply HL]. }
  destruct (metas_large mp k _ Hk Hg Hm) as [HL' HB']. split_and!; [done|done|].
  destruct (lo_params _ _ _ _ _ Hnext) as [[? ?] ?].
  assert (Hn : ms <> []) by (intros En; unfold ms, metas in En; apply fmap_nil_inv in En; rewrite En in Hlt; simpl in Hlt; lia).
  destruct (level_groups_nonempty mp ms Hn) as [-> _]. rewrite groups_large by (done || lia).
  rewrite length_fmap. unfold ms, metas. by rewrite length_fmap.
Qed.

(** A round of [RecursiveCommit] that ends normally and asks for another one,
    whatever the fuel. *)
Definition goes_on {St} `{ChunkStore St} (k : NodeKind) (lp mp : ChunkerParams) (l l' : Level St) : Prop :=
  forall fuel, commit_round (St := St) k lp mp fuel l = Some (inl l').

Lemma goes_on_None {St} `{ChunkStore St} k lp mp n (l l' : Level St) :
  nsteps (goes_on k lp mp) n l l' ->
  RecursiveCommit k lp mp n (lv_leaf l) (lv_builder l) (lv_parents l) (lv_store l) = None.
Proof.
  induction 1 as [l|n l l1 l2 Hgo _ IH]; [done|]. destruct l as [leaf b ps st]. cbn [lv_leaf lv_builder lv_parents lv_store].
  rewrite RecursiveCommit_rounds, Hgo. osimpl. exact IH.
Qed.

(** Levels with large keys go on for any number of rounds. *)
Lemma rounds_go_on {St} `{ChunkStore St} k lp mp K n : forall leaf rh m qsegs ess (st : St) B,
  keyed (lvl_kind k leaf) -> rh_rep (lvl_params lp mp leaf) rh [] -> segs_rep qsegs ess ->
  level_ok B K (lvl_kind k leaf) (lvl_params lp mp leaf) (concat ess) ->
  params_ok mp -> cp_window mp <= cp_max mp ->
  (Z.of_nat (cp_max mp + (meta_head + K)) + 64 < 2 ^ 32)%Z ->
  1 < length (level_groups (lvl_params lp mp leaf) (concat ess)) ->
  keys_large mp (lvl_kind k leaf) (concat ess) ->
  exists l, nsteps (goes_on k lp mp) n (mkLevel leaf (scratch leaf rh m qsegs) [] st) l.
Proof.
  induction n as [|n IH]; intros leaf rh m qsegs ess st B Hk Hrh Hs Hl Hp Hw Hsz Hlt HL; [eexists; constructor|].
  destruct (next_level_large mp K _ _ _ B Hk Hl Hp Hw Hsz Hlt HL) as (Hl' & HL' & Hlt').
  set (gs := level_groups (lvl_params lp mp leaf) (concat ess)) in *.
  set (ms := metas (lvl_kind k leaf) gs) in *.
  assert (Hne : Forall (fun e => e <> []) ms) by eapply entries_ne, eo_entries, lo_entries, Hl'.
  destruct (meta_segs_rep _ Hne) as [Hsegs Hcat]. rewrite <- Hcat in Hl', HL', Hlt'.
  destruct (IH false (lvl_rhasher lp mp false) 0 (meta_segment <$> ms) ((fun e => [e]) <$> ms)
    (put_all st (pair (lvl_kind k leaf) <$> gs)) (meta_head + K)) as [l Hst];
    [by left|by apply (fresh_rhasher lp mp false)|done..|].
  exists l. econstructor; [|exact Hst]. intros fuel.
  eapply commit_round_scratch; try done. intros _ E. unfold gs in Hlt; rewrite E in Hlt; simpl in Hlt; lia.
Qed.

End Diverge.

(** ** Building *)

Section BuildTree.
Context `{HashFunction} `{Uninit} {St : Type} `{ChunkStoreSpec St}.

(** The root of a canonical tree whose nodes are stored. *)
Lemma root_stored get mp fuel : forall k p es h,
  Forall (stored get) (tree_nodes fuel mp k p es) -> tree_root fuel mp k p es = Some h ->
  exists c, get (Some h) = Some c /\ chunk_hash c = Some (Some h).
Proof.
  induction fuel as [|fuel IH]; intros k p es h Hst Hr; [done|]. cbn [tree_root tree_nodes] in *.
  apply Forall_app in Hst as [Hst1 Hst2].
  destruct (level_groups p es) as [|g [|g2 gs]]; [by eapply IH| |by eapply IH].
  apply Forall_cons in Hst1 as [(c & Hg & Hc) _]. injection Hr as <-. rewrite meta_of_hash.
  exists c. split; [done|]. by rewrite (chunk_rep_hash _ _ _ Hc).
Qed.

Lemma build_tree k lp mp (st : St) qsegs ess B K fuel :
  let es := concat ess in
  k <> KMeta -> segs_rep qsegs ess -> level_ok B K k lp es ->
  params_ok mp -> cp_window mp <= cp_max mp ->
  (Z.of_nat (cp_max mp + (meta_head + K)) + 64 < 2 ^ 32)%Z ->
  meta_head + K < cp_window mp ->
  length es < fuel -> puts_succeed (St := St) -> no_collisions st (tree_nodes fuel mp k lp es) ->
  exists h st', build k lp mp fuel st (Some <$> qsegs) = Some (Some h, st') /\
    tree_root fuel mp k lp es = Some h /\ (exists ht, ht < fuel /\ tree (st_load st') ht k h es) /\
    exists c, st_load st' (Some h) = Some c /\ chunk_hash c = Some (Some h).
Proof.
  intros es Hk Hs Hl Hp Hw Hsz HK Hf Hput Hnc.
  destruct (tree_root_total mp K fuel k lp es B Hl Hp Hw Hsz HK) as [h Hh].
  { unfold level_groups. pose proof (groups_length lp es). destruct (groups lp es); simpl in *; lia. }
  assert (Hst : Forall (stored (st_load (put_all st (tree_nodes fuel mp k lp es)))) (tree_nodes fuel mp k lp es)).
  { apply nodes_stored; [done| |done]. by eapply tree_nodes_size. }
  exists h, (put_all st (tree_nodes fuel mp k lp es)). split_and!; [|done|..].
  - rewrite build_scratch.
    rewrite (RecursiveCommit_scratch k lp mp K fuel true _ 0 qsegs ess st B); try done.
    + cbn [lvl_kind lvl_params]. fold es. by rewrite Hh.
    + apply (fresh_rhasher lp mp true). apply Hl.
  - by eapply canonical_tree.
  - by eapply root_stored.
Qed.

End BuildTree.

(** ** Properties *)

(** C1.  Building a tree from scratch is correct. The entries are well formed,
    in order and of bounded size, and their keys are so short that a meta entry
    with such a key is shorter than the window of the inner levels (keys of up
    to about 218 bytes with the default window of 256; list and blob entries
    always qualify); chunk sizes and counts stay below the machine limits. Then
    [NodeBuilder] terminates (with one level per entry as the bound), no check
    fails, the root hash is that of the canonical tree, and afterwards the
    store holds, below that hash, a tree with exactly these entries; assuming
    that writes succeed and that the hash function does not confuse the nodes
    of this tree with other chunks. *)
Theorem build_correct `{HashFunction} `{Uninit} {St} `{ChunkStoreSpec St}
    k lp mp (st : St) qsegs ess B K fuel :
  let es := concat ess in
  k <> KMeta -> segs_rep qsegs ess -> level_ok B K k lp es ->
  params_ok mp -> cp_window mp <= cp_max mp ->
  (Z.of_nat (cp_max mp + (meta_head + K)) + 64 < 2 ^ 32)%Z ->
  meta_head + K < cp_window mp ->
  length es < fuel -> puts_succeed (St := St) -> no_collisions st (tree_nodes fuel mp k lp es) ->
  exists h st', build k lp mp fuel st (Some <$> qsegs) = Some (Some h, st') /\
    tree_root fuel mp k lp es = Some h /\ exists ht, tree (st_load st') ht k h es.
Proof.
  intros es Hk Hs Hl Hp Hw Hsz HK Hf Hput Hnc.
  destruct (build_tree k lp mp st qsegs ess B K fuel Hk Hs Hl Hp Hw Hsz HK Hf Hput Hnc)
    as (h & st' & E & Hr & (ht & _ & Ht) & _). eauto 10.
Qed.

(** *** A small blob, for witnesses *)

Definition small_meta_params : ChunkerParams := mkParams 1 60 128.
Definition blob_a : bytes := [x01; x02; x03; x04].
Definition blob_b : bytes := [x05; x06; x07; x08; x09].

Lemma blob_level_ok b :
  (Z.of_nat (length b) < 2 ^ 63)%Z -> level_ok 1 8 KBlob small_params (blob_entries b).
Proof.
  intros Hb. constructor.
  - apply blob_entries_ok.
  - eapply Forall_impl; [apply blob_entries_ones|]. intros e He. simpl in He. lia.
  - split; [split|]; simpl; lia.
  - simpl. lia.
  - unfold blob_entries. by rewrite length_fmap.
  - split; [lia|]. done.
Qed.

Lemma blob_ab_segs :
  segs_rep [blob_segment blob_a; blob_segment blob_b] [blob_entries blob_a; blob_entries blob_b].
Proof. repeat (constructor; [apply blob_segment_rep|]). constructor. Qed.

Definition collision_free `{HashFunction} (nodes : list (NodeKind * list bytes)) : bool :=
  let hb := (fun x => (node_hash x, node_bytes (fst x) (snd x))) <$> nodes in
  forallb (fun x => forallb (fun y =>
    negb (bool_decide (fst x = fst y)) || bool_decide (snd x = snd y)) hb) hb.

Lemma collision_free_spec `{HashFunction} {St} `{ChunkStoreSpec St} (st : St) nodes :
  collision_free nodes = true -> contents st = ∅ -> no_collisions st nodes.
Proof.
  intros Hc Hst. split.
  - intros x y Hx Hy E. unfold collision_free in Hc. rewrite forallb_forall in Hc.
    apply (list_elem_of_fmap_2 (fun x => (node_hash x, node_bytes (fst x) (snd x)))) in Hx, Hy.
    specialize (Hc _ (proj1 (list_elem_of_In _ _) Hx)). rewrite forallb_forall in Hc.
    specialize (Hc _ (proj1 (list_elem_of_In _ _) Hy)). cbn [fst snd] in Hc.
    rewrite (bool_decide_true (node_hash x = node_hash y)) in Hc by done.
    by apply bool_decide_eq_true in Hc.
  - intros x c _ E. by rewrite Hst, lookup_empty in E.
Qed.

Lemma build_correct_witness :
  exists h st', @build plain_hash zeroed _ map_store KBlob small_params small_meta_params 20 ∅
      (Some <$> [blob_segment blob_a; blob_segment blob_b]) = Some (Some h, st') /\
    @tree_root plain_hash zeroed 20 small_meta_params KBlob small_params
      (blob_entries (blob_a ++ blob_b)) = Some h /\
    exists ht, @tree plain_hash (@st_load _ map_store st') ht KBlob h
      (blob_entries (blob_a ++ blob_b)).
Proof.
  apply (@build_correct plain_hash zeroed _ map_store map_store_spec KBlob small_params
    small_meta_params ∅ [blob_segment blob_a; blob_segment blob_b]
    [blob_entries blob_a; blob_entries blob_b] 1 8 20).
  - done.
  - apply blob_ab_segs.
  - apply (blob_level_ok (blob_a ++ blob_b)). by vm_compute.
  - split; simpl; lia.
  - simpl. lia.
  - by vm_compute.
  - by vm_compute; lia.
  - simpl. lia.
  - done.
  - apply collision_free_spec; [vm_compute; reflexivity|done].
Defined.

(** C3.  The tree is canonical: for every fuel, two builders that are given
    the same entries cut into different segments, over any two stores, return
    the same root hash (or both run out of fuel). *)
Theorem build_segmentation_independent `{HashFunction} `{Uninit} {St1 St2}
    `{ChunkStore St1} `{ChunkStore St2} k lp mp (st1 : St1) (st2 : St2) segs1 ess1 segs2 ess2 B K fuel :
  k <> KMeta -> segs_rep segs1 ess1 -> segs_rep segs2 ess2 -> concat ess1 = concat ess2 ->
  level_ok B K k lp (concat ess1) -> params_ok mp -> cp_window mp <= cp_max mp ->
  (Z.of_nat (cp_max mp + (meta_head + K)) + 64 < 2 ^ 32)%Z ->
  fst <$> build k lp mp fuel st1 (Some <$> segs1) = fst <$> build k lp mp fuel st2 (Some <$> segs2).
Proof.
  intros Hk Hs1 Hs2 E Hl Hp Hw Hsz. rewrite !build_scratch.
  pose proof (fresh_rhasher lp mp true (proj1 (lo_params _ _ _ _ _ Hl))) as Hr.
  rewrite (RecursiveCommit_scratch k lp mp K fuel true _ 0 segs1 ess1 st1 B) by done.
  rewrite E in Hl.
  rewrite (RecursiveCommit_scratch k lp mp K fuel true _ 0 segs2 ess2 st2 B) by done.
  rewrite <- !option_fmap_compose, E. done.
Qed.

Lemma build_segmentation_independent_witness :
  fst <$> @build plain_hash zeroed _ map_store KBlob small_params small_meta_params 20 ∅
      (Some <$> [blob_segment blob_a; blob_segment blob_b]) =
  fst <$> @build plain_hash zeroed _ map_store KBlob small_params small_meta_params 20 ∅
      (Some <$> [blob_segment (blob_a ++ blob_b)]).
Proof.
  apply (@build_segmentation_independent plain_hash zeroed _ _ map_store map_store KBlob
    small_params small_meta_params ∅ ∅ [blob_segment blob_a; blob_segment blob_b]
    [blob_entries blob_a; blob_entries blob_b] [blob_segment (blob_a ++ blob_b)]
    [blob_entries (blob_a ++ blob_b)] 1 8 20).
  - done.
  - apply blob_ab_segs.
  - constructor; [apply blob_segment_rep|constructor].
  - done.
  - apply (blob_level_ok (blob_a ++ blob_b)). by vm_compute.
  - split; simpl; lia.
  - simpl. lia.
  - by vm_compute.
Defined.

(** C38.  Building a map or set does not terminate when its entries fill two
    or more leaves and every key is so large that a meta entry that names it
    reaches the maximum chunk size of the inner levels (32 KB by default).
    The new builder takes the entries, and from there [RecursiveCommit] runs
    any number of rounds, each of which passes all its checks, writes its
    level and asks for a level above: every meta entry gets a node of its own,
    so each level has as many nodes as the one below.  So [build] returns for
    no fuel. *)
Theorem build_diverges `{HashFunction} `{Uninit} {St} `{ChunkStore St}
    k lp mp (st : St) qsegs ess B K :
  let es := concat ess in
  k = KMap \/ k = KSet -> segs_rep qsegs ess -> level_ok B K k lp es ->
  params_ok mp -> cp_window mp <= cp_max mp ->
  (Z.of_nat (cp_max mp + (meta_head + K)) + 64 < 2 ^ 32)%Z ->
  1 < length (level_groups lp es) -> keys_large mp k es ->
  (exists b ps, SpliceElements st 0 (Some <$> qsegs) [new_builder lp mp true] = Some (b :: ps) /\
     forall n, exists l, nsteps (goes_on k lp mp) n (mkLevel true b ps st) l) /\
  (forall fuel, build k lp mp fuel st (Some <$> qsegs) = None).
Proof.
  intros es Hk Hs Hl Hp Hw Hsz Hlt HL.
  assert (Hr : forall n, exists l, nsteps (goes_on k lp mp) n
    (mkLevel true (scratch true (lvl_rhasher lp mp true) 0 qsegs) [] st) l).
  { intros n. apply (rounds_go_on k lp mp K n true _ 0 qsegs ess st B); try done.
    - destruct Hk as [->| ->]; cbn [lvl_kind]; unfold keyed; tauto.
    - apply (fresh_rhasher lp mp true). apply Hl. }
  split.
  - exists (scratch true (lvl_rhasher lp mp true) 0 qsegs), []. split; [|done].
    reflexivity.
  - intros fuel. rewrite build_scratch. destruct (Hr fuel) as [l Hst]. by apply goes_on_None in Hst.
Qed.

Lemma build_diverges_witness :
  (exists b ps, @SpliceElements _ map_store ∅ 0 (Some <$> [segment_of (map_Encode1 <$> two_items)])
       [@new_builder zeroed small_params small_params true] = Some (b :: ps) /\
     forall n, exists l, nsteps (@goes_on plain_hash zeroed _ map_store KMap small_params small_params) n
       (mkLevel true b ps ∅) l) /\
  (forall fuel, @build plain_hash zeroed _ map_store KMap small_params small_params fuel ∅
    (Some <$> [segment_of (map_Encode1 <$> two_items)]) = None).
Proof.
  assert (Hok : entries_ok KMap (map_Encode1 <$> two_items)).
  { apply map_entries_ok; [repeat constructor; by vm_compute|repeat constructor]. }
  apply (@build_diverges plain_hash zeroed _ map_store KMap small_params small_params ∅
    [segment_of (map_Encode1 <$> two_items)] [map_Encode1 <$> two_items] 11 8).
  - by left.
  - constructor; [|constructor]. apply segment_of_rep, (entries_ne KMap), Hok.
  - constructor; simpl concat.
    + exact Hok.
    + repeat constructor; by vm_compute; lia.
    + split; [split|]; simpl; lia.
    + by vm_compute.
    + by vm_compute.
    + split; [lia|]. intros e key He Hk. change (e ∈ map_Encode1 <$> two_items) in He.
      apply list_elem_of_fmap in He as (it & -> & Hit).
      rewrite <- (app_nil_r (map_Encode1 it)) in Hk. cbn [entry_key] in Hk.
      unfold two_items in Hit. rewrite !elem_of_cons, elem_of_nil in Hit.
      destruct Hit as [->|[->|[]]]; rewrite map_orderedKey_entry in Hk by (by vm_compute);
        apply (inj Some) in Hk as <-; vm_compute; lia.
  - split; simpl; lia.
  - simpl. lia.
  - by vm_compute.
  - by vm_compute; lia.
  - repeat (constructor; [eexists; split; [vm_compute; reflexivity|vm_compute; lia]|]).
    constructor.
Defined.
