(* ===== verification/Cell.v ===== *)
(** * Version cells: [include/node/cell_node.h], [src/node/cell_node.cc],
      [include/types/ucell.h], [src/types/ucell.cc]

    A cell is the chunk of one version of a key: its type, its value (or the
    hash of the tree that holds it), a context and the hashes of the one or
    two versions it derives from.  [CellNode] is the layout, [UCell] the
    handle that the worker uses. *)

From S2P Require Import Prelude Types Slice HashVal Chunk Node Store.

(** ** [class CellNode] *)

Definition kFieldMaxLength : Z := 2 ^ 16.
Definition kUTypePos : nat := 0.
Definition kNumPreHashPos : nat := kUTypePos + 1.
Definition kKeyLengthPos : nat := kNumPreHashPos + 1.
Definition kDataLengthPos : nat := kKeyLengthPos + 2.
Definition kCtxLengthPos : nat := kDataLengthPos + 2.
Definition kPreHashPos : nat := kCtxLengthPos + 2.

Definition ComputePreHashOffset (idx : nat) : nat := kPreHashPos + kByteLength * idx.
Definition ComputeKeyOffset (num_pre_hash : nat) : nat := ComputePreHashOffset num_pre_hash.

(** Lengths and offsets of a cell are [size_t] values computed from the bytes
    of the chunk: they are kept at their width. *)
Record CellNode := mkCell {
  cell_chunk : Chunk;
  key_offset_ : Z;
  data_offset_ : Z;
  ctx_offset_ : Z
}.

(** Reading a field of the chunk's payload. *)
Definition cell_u8 (c : Chunk) (pos : nat) : option Z := d ← chunk_data c; read_u8 pos d.
Definition cell_u16 (c : Chunk) (pos : nat) : option Z := d ← chunk_data c; read_u16 pos d.

(** An [int16_t] converted to [size_t]. *)
Definition cell_i16 (c : Chunk) (pos : nat) : option Z :=
  z ← cell_u16 c pos; Some (u64 (sext 16 z)).

Definition cell_type (c : Chunk) : option UType := z ← cell_u8 c kUTypePos; utype_of_code z.
Definition numPreHash (c : Chunk) : option Z := cell_u8 c kNumPreHashPos.
Definition keyLength (c : Chunk) : option Z := cell_u16 c kKeyLengthPos.
Definition dataLength (c : Chunk) : option Z := cell_i16 c kDataLengthPos.
Definition ctxLength (c : Chunk) : option Z := cell_i16 c kCtxLengthPos.

(** [CellNode(chunk)]. *)
Definition CellNode_make (c : Chunk) : option CellNode :=
  n ← numPreHash c; kl ← keyLength c; dl ← dataLength c;
  let key_offset := Z.of_nat (ComputeKeyOffset (Z.to_nat n)) in
  let data_offset := u64 (key_offset + kl) in
  let ctx_offset := u64 (data_offset + dl) in
  Some (mkCell c key_offset data_offset ctx_offset).

(** [preHash(idx)]. *)
Definition cell_preHash (n : CellNode) (idx : nat) : option Hash :=
  k ← numPreHash (cell_chunk n);
  if (k <=? Z.of_nat idx)%Z then Some None
  else
    d ← chunk_data (cell_chunk n);
    Some <$> read_bytes (ComputePreHashOffset idx) kByteLength d.

(** [Slice(ptr(), length())] of a field that starts at [off]; a null pointer
    when it is empty.  Out of the chunk's memory there is no such slice. *)
Definition cell_field (n : CellNode) (off len : Z) : option Slice :=
  if (len =? 0)%Z then Some []
  else
    d ← chunk_data (cell_chunk n);
    if (off + len <=? Z.of_nat (length d))%Z
    then read_bytes (Z.to_nat off) (Z.to_nat len) d else None.

Section NewChunk.
Context `{Uninit}.

(** [CellNode::NewChunk]. *)
Definition NewChunk (type : UType) (key data ctx : Slice) (preHash1 preHash2 : Hash) :
  option Chunk :=
  CHECK (negb (hash_empty preHash1));;
  CHECK (Z.of_nat (len key) <? kFieldMaxLength)%Z;;
  CHECK (Z.of_nat (len data) <? kFieldMaxLength)%Z;;
  CHECK (Z.of_nat (len ctx) <? kFieldMaxLength)%Z;;
  let num_pre_hash := if hash_empty preHash2 then 1 else 2 in
  let key_offset := ComputeKeyOffset num_pre_hash in
  let data_offset := key_offset + len key in
  let ctx_offset := data_offset + len data in
  let chunk_len := ctx_offset + len ctx in
  c0 ← Some (chunk_new kCell chunk_len (fresh chunk_len));
  c1 ← chunk_write kUTypePos [z2b (utype_code type)] c0;
  c2 ← chunk_write kNumPreHashPos (le_encode 1 (Z.of_nat num_pre_hash)) c1;
  c3 ← chunk_write kKeyLengthPos (le_encode 2 (Z.of_nat (len key))) c2;
  c4 ← chunk_write kDataLengthPos (le_encode 2 (Z.of_nat (len data))) c3;
  c5 ← chunk_write kCtxLengthPos (le_encode 2 (Z.of_nat (len ctx))) c4;
  h1 ← preHash1; v1 ← read_bytes 0 kByteLength h1;
  c6 ← chunk_write (ComputePreHashOffset 0) v1 c5;
  c7 ← (if num_pre_hash =? 2
        then h2 ← preHash2; v2 ← read_bytes 0 kByteLength h2;
             chunk_write (ComputePreHashOffset 1) v2 c6
        else Some c6);
  c8 ← chunk_write key_offset key c7;
  c9 ← chunk_write data_offset data c8;
  chunk_write ctx_offset ctx c9.

End NewChunk.

(** ** [class UCell] *)

(** [node_]: [None] is the empty cell. *)
Abbreviation UCell := (option CellNode).

(** [UCell(chunk)]. *)
Definition UCell_of_chunk (c : Chunk) : option UCell :=
  if chunk_empty c then Some None
  else match chunk_type c with
       | Some kCell => n ← CellNode_make c; Some (Some n)
       | _ => LOG_FATAL
       end.

Definition ucell_type (u : UCell) : option UType := n ← u; cell_type (cell_chunk n).
Definition ucell_merged (u : UCell) : option bool :=
  n ← u; k ← numPreHash (cell_chunk n); Some (k =? 2)%Z.
Definition ucell_preHash (u : UCell) (second : bool) : option Hash :=
  n ← u; cell_preHash n (if second then 1 else 0).
Definition ucell_key (u : UCell) : option Slice :=
  n ← u; l ← keyLength (cell_chunk n); cell_field n (key_offset_ n) l.
Definition ucell_data (u : UCell) : option Slice :=
  n ← u; l ← dataLength (cell_chunk n); cell_field n (data_offset_ n) l.
Definition ucell_context (u : UCell) : option Slice :=
  n ← u; l ← ctxLength (cell_chunk n); cell_field n (ctx_offset_ n) l.
Definition ucell_hash `{HashFunction} (u : UCell) : option Hash :=
  n ← u; chunk_hash (cell_chunk n).

(** The data of a chunkable type is the hash of its tree. *)
Definition chunkable (t : UType) : bool :=
  match t with UBlob | UList | UMap | USet => true | _ => false end.

Definition ucell_dataHash (u : UCell) : option Hash :=
  t ← ucell_type u;
  if chunkable t then
    n ← u; l ← dataLength (cell_chunk n);
    if (l =? 0)%Z then Some None
    else d ← chunk_data (cell_chunk n);
         Some <$> read_bytes (Z.to_nat (data_offset_ n)) kByteLength d
  else Some None.

Section Create.
Context `{HashFunction} `{Uninit} {St : Type} `{ChunkStore St}.

(** [UCell::Create] for data, and for the hash of a tree.  Whether the store
    took the chunk is not looked at. *)
Definition UCell_Create (st : St) (type : UType) (key data ctx : Slice)
    (preHash1 preHash2 : Hash) : option (UCell * St) :=
  c ← NewChunk type key data ctx preHash1 preHash2;
  h ← chunk_hash c;
  let c' := mkChunk (head_ c) h in
  let st' := snd (cs_Put st h c') in
  u ← UCell_of_chunk c'; Some (u, st').

Definition UCell_Create_hash (st : St) (type : UType) (key : Slice) (data : Hash) (ctx : Slice)
    (preHash1 preHash2 : Hash) : option (UCell * St) :=
  v ← data; d ← read_bytes 0 kByteLength v;
  UCell_Create st type key d ctx preHash1 preHash2.

(** [UCell::Load]. *)
Definition UCell_Load (st : St) (hash : Hash) : option UCell := UCell_of_chunk (cs_Get st hash).

End Create.

(** ** The layout as a reference *)

(** A version: what a cell is meant to hold. *)
Record Version := mkVer {
  v_type : UType;
  v_key : Slice;
  v_data : Slice;
  v_ctx : Slice;
  v_prev1 : bytes;
  v_prev2 : option bytes
}.

Definition ver_prevs (v : Version) : list bytes :=
  v_prev1 v :: match v_prev2 v with Some h => [h] | None => [] end.

Definition ver_payload (v : Version) : bytes :=
  [z2b (utype_code (v_type v))] ++ le_encode 1 (Z.of_nat (length (ver_prevs v)))
  ++ le_encode 2 (Z.of_nat (len (v_key v))) ++ le_encode 2 (Z.of_nat (len (v_data v)))
  ++ le_encode 2 (Z.of_nat (len (v_ctx v)))
  ++ concat (ver_prevs v) ++ v_key v ++ v_data v ++ v_ctx v.

(** What [NewChunk] accepts, and what the accessors can read back. *)
Record ver_ok (v : Version) : Prop := {
  vo_prev1 : length (v_prev1 v) = kByteLength;
  vo_prev2 : forall h, v_prev2 v = Some h -> length h = kByteLength;
  vo_key : (Z.of_nat (len (v_key v)) < kFieldMaxLength)%Z;
  vo_data : (Z.of_nat (len (v_data v)) < kFieldMaxLength)%Z;
  vo_ctx : (Z.of_nat (len (v_ctx v)) < kFieldMaxLength)%Z
}.

Definition ver_readable (v : Version) : Prop :=
  (Z.of_nat (len (v_data v)) < 2 ^ 15)%Z /\ (Z.of_nat (len (v_ctx v)) < 2 ^ 15)%Z.

Lemma ver_prevs_len v : ver_ok v ->
  length (concat (ver_prevs v)) = kByteLength * length (ver_prevs v).
Proof.
  intros Hv. pose proof (vo_prev1 _ Hv) as H1. pose proof (vo_prev2 _ Hv) as H2.
  unfold ver_prevs. destruct (v_prev2 v) as [h|]; cbn [concat length];
    rewrite ?app_nil_r, ?length_app, ?H1, ?(H2 _ eq_refl); lia.
Qed.

Lemma ver_prevs_count v : length (ver_prevs v) = 1 \/ length (ver_prevs v) = 2.
Proof. unfold ver_prevs. destruct (v_prev2 v); simpl; lia. Qed.

Lemma ver_payload_len v : ver_ok v ->
  length (ver_payload v)
  = ComputeKeyOffset (length (ver_prevs v)) + len (v_key v) + len (v_data v) + len (v_ctx v).
Proof.
  intros Hv. unfold ver_payload. rewrite !length_app, !length_le_encode, ver_prevs_len by done.
  unfold ComputeKeyOffset, ComputePreHashOffset, kPreHashPos, kCtxLengthPos, kDataLengthPos,
    kKeyLengthPos, kNumPreHashPos, kUTypePos, len. cbn [length]. lia.
Qed.

Lemma ver_payload_ok v : ver_ok v -> payload_ok (ver_payload v).
Proof.
  intros Hv. unfold payload_ok. rewrite ver_payload_len by done.
  pose proof (vo_key _ Hv). pose proof (vo_data _ Hv). pose proof (vo_ctx _ Hv).
  unfold kFieldMaxLength, kMetaLength, kChunkTypeOffset, kNumBytesOffset, ComputeKeyOffset,
    ComputePreHashOffset, kPreHashPos, kCtxLengthPos, kDataLengthPos,
    kKeyLengthPos, kNumPreHashPos, kUTypePos, kByteLength in *.
  destruct (ver_prevs_count v) as [-> | ->]; lia.
Qed.

(** Arithmetic on the lengths and offsets of the fields. *)
Ltac cell_len :=
  repeat match goal with H : length _ = kByteLength |- _ => progress rewrite ?H in * end;
  rewrite ?length_app, ?length_le_encode;
  unfold ComputeKeyOffset, ComputePreHashOffset, kPreHashPos, kCtxLengthPos, kDataLengthPos,
    kKeyLengthPos, kNumPreHashPos, kUTypePos, len, kByteLength in *;
  cbn [length] in *; lia.

(** Writing the next field of a chunk that is filled from the front. *)
Lemma chunk_write_at t cap off pre src mem :
  off = length pre -> length pre + length src <= length mem ->
  chunk_write off src (chunk_new t cap (pre ++ drop (length pre) mem))
  = Some (chunk_new t cap ((pre ++ src) ++ drop (length (pre ++ src)) mem)).
Proof. intros ->. apply chunk_write_next. Qed.

Lemma read_bytes_all' n l : length l = n -> read_bytes 0 n l = Some l.
Proof. intros <-. apply read_bytes_all. Qed.

(** A chunk that is filled to its end. *)
Lemma cell_filled t cap pre mem p :
  length mem = cap -> length pre = cap -> pre = p ->
  Some (chunk_new t cap (pre ++ drop (length pre) mem)) = Some (chunk_make t p).
Proof.
  intros Hm Hp <-. rewrite drop_ge, app_nil_r, <- Hp by lia. by rewrite chunk_new_make.
Qed.

(** [NewChunk] makes the chunk with the payload of the version. *)
Lemma NewChunk_rep `{Uninit} v : ver_ok v ->
  NewChunk (v_type v) (v_key v) (v_data v) (v_ctx v) (Some (v_prev1 v)) (v_prev2 v)
  = Some (chunk_make kCell (ver_payload v)).
Proof.
  intros Hv. pose proof (ver_payload_len v Hv) as HL.
  unfold NewChunk.
  rewrite (proj2 (Z.ltb_lt _ _) (vo_key _ Hv)), (proj2 (Z.ltb_lt _ _) (vo_data _ Hv)),
    (proj2 (Z.ltb_lt _ _) (vo_ctx _ Hv)).
  change (hash_empty (Some (v_prev1 v))) with false. cbn [negb]. osimpl.
  assert (Hn : (if hash_empty (v_prev2 v) then 1 else 2) = length (ver_prevs v)).
  { unfold ver_prevs. by destruct (v_prev2 v). }
  rewrite Hn. set (cap := _ + len (v_ctx v)). 
  assert (Hm : length (fresh cap) = cap) by apply fresh_length.
  assert (Hcap : cap = length (ver_payload v)) by done.
  assert (H8 : 8 + kByteLength <= cap).
  { rewrite Hcap, HL. unfold ComputeKeyOffset, ComputePreHashOffset. destruct (ver_prevs_count v) as [-> | ->];
     unfold kPreHashPos, kCtxLengthPos, kDataLengthPos, kKeyLengthPos, kNumPreHashPos, kUTypePos; lia. }
  change (fresh cap) with ([] ++ drop (length (@nil byte)) (fresh cap)).
  generalize dependent (fresh cap). intros mem Hm.
  pose proof (vo_prev1 _ Hv) as H1.
  rewrite HL in Hcap.
  do 5 (rewrite chunk_write_at by cell_len; osimpl).
  rewrite (read_bytes_all' _ (v_prev1 v)) by done. osimpl.
  rewrite chunk_write_at by cell_len. osimpl.
  pose proof (vo_prev2 _ Hv) as H2. unfold ver_payload, ver_prevs in *.
  destruct (v_prev2 v) as [h2|] eqn:E2; cbn [length Nat.eqb concat] in *; osimpl.
  - pose proof (H2 _ eq_refl) as H2'. rewrite (read_bytes_all' _ h2) by done. osimpl.
    do 3 (rewrite chunk_write_at by cell_len; osimpl).
    rewrite chunk_write_at by cell_len. by apply cell_filled; [done|cell_len|rewrite <- !app_assoc].
  - do 2 (rewrite chunk_write_at by cell_len; osimpl).
    rewrite chunk_write_at by cell_len. by apply cell_filled; [done|cell_len|rewrite <- !app_assoc].
Qed.

Lemma read_u_at w off pre z post l :
  l = pre ++ le_encode w z ++ post -> length pre = off -> (0 <= z < 256 ^ Z.of_nat w)%Z ->
  read_u w off l = Some z.
Proof. intros -> Hl Hz. rewrite read_u_app by done. by rewrite Z.mod_small. Qed.

Lemma read_bytes_at off n pre mid post l :
  l = pre ++ mid ++ post -> length pre = off -> length mid = n -> read_bytes off n l = Some mid.
Proof. intros -> Hl Hz. by apply read_bytes_app. Qed.

(** ** Reading a cell back *)

(** [cell_rep n v]: the cell node of a chunk that holds the version [v]. *)
Section CellRep.
Context `{HashFunction}.
Implicit Types (v : Version) (c : Chunk).

Lemma cell_header c v : ver_ok v -> chunk_rep c kCell (ver_payload v) ->
  cell_type c = Some (v_type v) /\
  numPreHash c = Some (Z.of_nat (length (ver_prevs v))) /\
  keyLength c = Some (Z.of_nat (len (v_key v))) /\
  dataLength c = Some (u64 (sext 16 (Z.of_nat (len (v_data v))))) /\
  ctxLength c = Some (u64 (sext 16 (Z.of_nat (len (v_ctx v))))).
Proof.
  intros Hv Hc. destruct (chunk_rep_data _ _ _ Hc) as [rest Hd].
  pose proof (vo_key _ Hv). pose proof (vo_data _ Hv). pose proof (vo_ctx _ Hv).
  pose proof (utype_code_range (v_type v)). unfold kFieldMaxLength in *.
  unfold cell_type, numPreHash, keyLength, dataLength, ctxLength, cell_i16, cell_u8, cell_u16.
  rewrite Hd. osimpl. unfold ver_payload.
  set (t := utype_code (v_type v)) in *. set (n := Z.of_nat (length (ver_prevs v))).
  assert (Hn : (0 <= n < 256)%Z) by (destruct (ver_prevs_count v); lia).
  change [z2b t] with (le_encode 1 t).
  set (body := concat (ver_prevs v) ++ _).
  split_and!.
  - erewrite (read_u_at 1 kUTypePos [] t); [apply utype_of_code_code|by rewrite <- !app_assoc|done|lia].
  - eapply (read_u_at 1 _ (le_encode 1 t)); [by rewrite <- !app_assoc|done|lia].
  - eapply (read_u_at 2 _ (le_encode 1 t ++ le_encode 1 n));
      [by rewrite <- !app_assoc|by rewrite length_app, !length_le_encode|lia].
  - erewrite (read_u_at 2 _ (le_encode 1 t ++ le_encode 1 n ++ le_encode 2 _));
      [done|by rewrite <- !app_assoc|by rewrite !length_app, !length_le_encode|lia].
  - erewrite (read_u_at 2 _ (le_encode 1 t ++ le_encode 1 n ++ le_encode 2 _ ++ le_encode 2 _));
      [done|by rewrite <- !app_assoc|by rewrite !length_app, !length_le_encode|lia].
Qed.

(** The body of a cell after its eight header bytes. *)
Lemma cell_body c v : ver_ok v -> chunk_rep c kCell (ver_payload v) ->
  exists hd rest, length hd = kPreHashPos /\
    chunk_data c = Some (hd ++ concat (ver_prevs v) ++ v_key v ++ v_data v ++ v_ctx v ++ rest).
Proof.
  intros Hv Hc. destruct (chunk_rep_data _ _ _ Hc) as [rest Hd]. rewrite Hd. unfold ver_payload.
  exists ([z2b (utype_code (v_type v))] ++ le_encode 1 (Z.of_nat (length (ver_prevs v)))
    ++ le_encode 2 (Z.of_nat (len (v_key v))) ++ le_encode 2 (Z.of_nat (len (v_data v)))
    ++ le_encode 2 (Z.of_nat (len (v_ctx v)))), rest.
  split; [by rewrite !length_app, !length_le_encode|by rewrite <- !app_assoc].
Qed.

Lemma small_i16 z : (0 <= z < 2 ^ 15)%Z -> u64 (sext 16 z) = z.
Proof.
  intros Hz. unfold sext. replace (16 - 1)%Z with 15%Z by lia.
  rewrite (proj2 (Z.ltb_lt _ _)) by lia. apply wrap_small. lia.
Qed.

Definition ver_hash (v : Version) : bytes := ComputeFrom (chunk_bytes kCell (ver_payload v)).

(** What a cell that holds [v] shows. *)
Record cell_rep (u : UCell) (v : Version) : Prop := {
  ce_type : ucell_type u = Some (v_type v);
  ce_key : ucell_key u = Some (v_key v);
  ce_prev1 : ucell_preHash u false = Some (Some (v_prev1 v));
  ce_prev2 : ucell_preHash u true = Some (v_prev2 v);
  ce_hash : ucell_hash u = Some (Some (ver_hash v));
  ce_data : ver_readable v -> ucell_data u = Some (v_data v);
  ce_ctx : ver_readable v -> ucell_context u = Some (v_ctx v)
}.

(** A field that lies where its offset says. *)
Lemma cell_field_at n off pre s post d :
  chunk_data (cell_chunk n) = Some d -> d = pre ++ s ++ post -> off = Z.of_nat (length pre) ->
  cell_field n off (Z.of_nat (len s)) = Some s.
Proof.
  intros Hd -> ->. unfold cell_field. destruct (Z.eqb_spec (Z.of_nat (len s)) 0) as [E|E].
  - destruct s; [done|]. unfold len in E. simpl in E. lia.
  - rewrite Hd. osimpl. rewrite (proj2 (Z.leb_le _ _)); [|rewrite !length_app; unfold len; lia].
    rewrite !Nat2Z.id. by apply read_bytes_app.
Qed.

Lemma cell_offsets c v : ver_ok v -> chunk_rep c kCell (ver_payload v) ->
  let ko := ComputeKeyOffset (length (ver_prevs v)) in
  exists n, CellNode_make c = Some n /\ cell_chunk n = c /\ key_offset_ n = Z.of_nat ko /\
    data_offset_ n = Z.of_nat (ko + len (v_key v)) /\
    (ver_readable v -> ctx_offset_ n = Z.of_nat (ko + len (v_key v) + len (v_data v))).
Proof.
  intros Hv Hc ko. destruct (cell_header _ _ Hv Hc) as (_ & Hn & Hk & Hd & _).
  unfold CellNode_make. rewrite Hn, Hk, Hd. osimpl. eexists. split; [done|].
  cbn [cell_chunk key_offset_ data_offset_ ctx_offset_]. rewrite Nat2Z.id. fold ko.
  pose proof (vo_key _ Hv) as Hkl. unfold kFieldMaxLength in Hkl.
  assert (Hko : ko <= 48) by (subst ko; destruct (ver_prevs_count v) as [-> | ->]; cell_len).
  rewrite (wrap_small 64) by lia. split_and!; [done|done|lia|].
  intros [Hr _]. rewrite small_i16 by lia. rewrite wrap_small; lia.
Qed.

Lemma UCell_of_chunk_rep c v : ver_ok v -> chunk_rep c kCell (ver_payload v) ->
  exists n, UCell_of_chunk c = Some (Some n) /\ CellNode_make c = Some n /\ cell_rep (Some n) v.
Proof.
  intros Hv Hc. destruct (cell_offsets _ _ Hv Hc) as (n & Hmk & Hcn & Hko & Hdo & Hxo).
  destruct (cell_header _ _ Hv Hc) as (Ht & Hn & Hk & Hd & Hx).
  destruct (cell_body _ _ Hv Hc) as (hd & rest & Hhd & Hdat).
  pose proof (ver_prevs_len v Hv) as Hpl. exists n. split_and!; [|done|].
  - unfold UCell_of_chunk, chunk_empty. destruct (cr_head _ _ _ Hc) as [r Hr].
    rewrite bool_decide_false by (by rewrite Hr).
    by rewrite (chunk_rep_type _ _ _ Hc), Hmk.
  - assert (Hpre : kPreHashPos + kByteLength * length (ver_prevs v)
        = length (hd ++ concat (ver_prevs v))) by (rewrite length_app; lia).
    constructor; unfold ucell_type, ucell_key, ucell_preHash, ucell_hash, ucell_data,
      ucell_context, cell_preHash; osimpl; rewrite Hcn.
    + exact Ht.
    + rewrite Hk. osimpl. eapply (cell_field_at _ _ (hd ++ concat (ver_prevs v)));
        [by rewrite Hcn|by rewrite <- !app_assoc|]. by rewrite Hko, <- Hpre.
    + rewrite Hn, Hdat. osimpl. rewrite (proj2 (Z.leb_gt _ _)) by (destruct (ver_prevs_count v); lia).
      unfold ver_prevs. cbn [concat]. rewrite <- !app_assoc.
      erewrite (read_bytes_at _ _ hd (v_prev1 v)); [done|done|cell_len|apply Hv].
    + rewrite Hn, Hdat. osimpl. pose proof (vo_prev2 _ Hv) as H2. unfold ver_prevs.
      destruct (v_prev2 v) as [h2|]; cbn [length concat]; [|done].
      rewrite (proj2 (Z.leb_gt _ _)) by lia. rewrite <- !app_assoc.
      erewrite (read_bytes_at _ _ (hd ++ v_prev1 v) h2); [done|by rewrite <- !app_assoc| |by apply H2].
      rewrite length_app, (vo_prev1 _ Hv). cell_len.
    + by apply (chunk_rep_hash _ _ _ Hc).
    + intros Hr. rewrite Hd. osimpl. rewrite small_i16 by (destruct Hr; lia).
      eapply (cell_field_at _ _ (hd ++ concat (ver_prevs v) ++ v_key v));
        [by rewrite Hcn|by rewrite <- !app_assoc|].
      rewrite Hdo, app_assoc, (length_app _ (v_key v)), <- Hpre. done.
    + intros Hr. rewrite Hx. osimpl. rewrite small_i16 by (destruct Hr; lia).
      eapply (cell_field_at _ _ (hd ++ concat (ver_prevs v) ++ v_key v ++ v_data v));
        [by rewrite Hcn|by rewrite <- !app_assoc|].
      rewrite (Hxo Hr), app_assoc, (length_app _ (v_key v ++ _)), <- Hpre, length_app.
      unfold ComputeKeyOffset, ComputePreHashOffset, len. lia.
Qed.

End CellRep.

Section CreateRep.
Context `{HashFunction} `{Uninit} {St : Type} `{ChunkStore St}.

Lemma UCell_Create_rep (st : St) v : ver_ok v ->
  exists n c,
    UCell_Create st (v_type v) (v_key v) (v_data v) (v_ctx v) (Some (v_prev1 v)) (v_prev2 v)
    = Some (Some n, snd (cs_Put st (Some (ver_hash v)) c)) /\
    chunk_rep c kCell (ver_payload v) /\ chunk_data c = Some (ver_payload v) /\
    CellNode_make c = Some n /\ cell_rep (Some n) v.
Proof.
  intros Hv. unfold UCell_Create. rewrite NewChunk_rep by done. osimpl.
  pose proof (chunk_rep_make kCell _ (ver_payload_ok v Hv)) as Hc.
  rewrite (chunk_rep_hash _ _ _ Hc). osimpl.
  set (c := mkChunk _ _).
  assert (Hc' : chunk_rep c kCell (ver_payload v)).
  { constructor; [exists []; by rewrite app_nil_r|apply Hc|by right]. }
  destruct (UCell_of_chunk_rep c v Hv Hc') as (n & -> & Hn & Hr). osimpl.
  exists n, c. by split_and!.
Qed.

End CreateRep.

(** A version that is written can be read back: [UCell::Create] passes
    all its checks on fields below the limits, and loading the returned hash
    from the store shows the same type, key, data, context and predecessors;
    assuming that the write succeeds and that the hash is not taken by other
    content. *)
Theorem cell_roundtrip `{HashFunction} `{Uninit} {St} `{ChunkStoreSpec St} (st : St) v :
  ver_ok v -> ver_readable v -> puts_succeed (St := St) ->
  (forall c, contents st !! Some (ver_hash v) = Some c -> chunk_rep c kCell (ver_payload v)) ->
  exists u st' u',
    UCell_Create st (v_type v) (v_key v) (v_data v) (v_ctx v) (Some (v_prev1 v)) (v_prev2 v)
      = Some (u, st') /\
    ucell_hash u = Some (Some (ver_hash v)) /\ UCell_Load st' (Some (ver_hash v)) = Some u' /\
    ucell_type u' = Some (v_type v) /\ ucell_key u' = Some (v_key v) /\
    ucell_data u' = Some (v_data v) /\ ucell_context u' = Some (v_ctx v) /\
    ucell_preHash u' false = Some (Some (v_prev1 v)) /\ ucell_preHash u' true = Some (v_prev2 v).
Proof.
  intros Hv Hr Hp Hnc. destruct (UCell_Create_rep st v Hv) as (n & c & HC & Hc & _ & _ & Hn).
  assert (exists c', cs_Get (snd (cs_Put st (Some (ver_hash v)) c)) (Some (ver_hash v)) = c' /\
    chunk_rep c' kCell (ver_payload v)) as (c' & Hg & Hc').
  { eexists. split; [done|]. rewrite Get_spec, put_contents by done. case_decide as Hd.
    - destruct Hd as [c0 E]. rewrite E. by apply Hnc.
    - by rewrite lookup_insert_eq. }
  destruct (UCell_of_chunk_rep c' v Hv Hc') as (n' & HL & _ & Hn').
  eexists _, _, _. split_and!; [exact HC|apply Hn|unfold UCell_Load; by rewrite Hg|..];
    by apply Hn'.
Qed.

Definition sample_version : Version :=
  mkVer UString [x6b] [x01; x02] [x63] (replicate 20 x00) (Some (replicate 20 x09)).

Lemma sample_version_ok : ver_ok sample_version.
Proof. constructor; [done|by intros h [= <-]|by vm_compute..]. Qed.

Lemma cell_roundtrip_witness :
  exists u st' u',
    @UCell_Create plain_hash zeroed _ map_store ∅ UString [x6b] [x01; x02] [x63]
      (Some (replicate 20 x00)) (Some (replicate 20 x09)) = Some (u, st') /\
    @ucell_hash plain_hash u = Some (Some (@ver_hash plain_hash sample_version)) /\
    @UCell_Load _ map_store st' (Some (@ver_hash plain_hash sample_version)) = Some u' /\
    ucell_type u' = Some UString /\ ucell_key u' = Some [x6b] /\
    ucell_data u' = Some [x01; x02] /\ ucell_context u' = Some [x63] /\
    ucell_preHash u' false = Some (Some (replicate 20 x00)) /\
    ucell_preHash u' true = Some (Some (replicate 20 x09)).
Proof.
  apply (@cell_roundtrip plain_hash zeroed _ map_store map_store_spec ∅ sample_version).
  - apply sample_version_ok.
  - split; by vm_compute.
  - done.
  - intros c E. assert (E' : (∅ : gmap Hash Chunk) !! _ = Some c) by exact E.
    by rewrite lookup_empty in E'.
Defined.

(** C40.  The length of the data is written as 16 bits and read back as a
    signed number: a version whose data has 2^15 bytes or more (the limit is
    2^16) is accepted and stored, but the slice that [data()] returns reaches
    far beyond the chunk. *)
Theorem cell_large_data_lost `{HashFunction} `{Uninit} {St} `{ChunkStore St} (st : St) v :
  ver_ok v -> (2 ^ 15 <= Z.of_nat (len (v_data v)))%Z ->
  exists u st',
    UCell_Create st (v_type v) (v_key v) (v_data v) (v_ctx v) (Some (v_prev1 v)) (v_prev2 v)
      = Some (u, st') /\
    ucell_key u = Some (v_key v) /\ ucell_data u = None.
Proof.
  intros Hv Hl. destruct (UCell_Create_rep st v Hv) as (n & c & HC & Hc & Hd & Hn & Hr).
  eexists _, _. split_and!; [exact HC|apply Hr|].
  destruct (cell_header _ _ Hv Hc) as (_ & _ & _ & Hdl & _).
  destruct (cell_offsets _ _ Hv Hc) as (n' & Hmk & Hcn & _ & Hdo & _).
  rewrite Hn in Hmk. apply (inj Some) in Hmk as <-.
  unfold ucell_data. osimpl. rewrite Hcn, Hdl. osimpl. unfold cell_field.
  rewrite Hcn, Hd, Hdo. osimpl.
  pose proof (ver_payload_ok v Hv) as Hs. unfold payload_ok in Hs.
  pose proof (vo_data _ Hv) as Hu. unfold kFieldMaxLength in Hu.
  assert (E : u64 (sext 16 (Z.of_nat (len (v_data v)))) = (2 ^ 64 - 2 ^ 16 + Z.of_nat (len (v_data v)))%Z).
  { unfold sext. replace (16 - 1)%Z with 15%Z by lia. rewrite (proj2 (Z.ltb_ge _ _)) by lia.
    unfold wrap. symmetry. apply Z.mod_unique with (-1)%Z; lia. }
  rewrite E, (proj2 (Z.eqb_neq _ _)), (proj2 (Z.leb_gt _ _)) by lia. done.
Qed.

Lemma cell_large_data_lost_witness :
  let data := replicate (2 ^ 15) x41 in
  exists u st',
    @UCell_Create plain_hash zeroed _ map_store ∅ UString [x6b] data []
      (Some (replicate 20 x00)) None = Some (u, st') /\
    ucell_key u = Some [x6b] /\ ucell_data u = None.
Proof.
  intros data.
  apply (@cell_large_data_lost plain_hash zeroed _ map_store ∅
    (mkVer UString [x6b] data [] (replicate 20 x00) None)).
  - constructor; [done|done|done| |done]. unfold len, data. cbn [v_data].
    rewrite length_replicate, Nat2Z.inj_pow. done.
  - unfold len, data. cbn [v_data]. rewrite length_replicate, Nat2Z.inj_pow. done.
Defined.
