(* ===== verification/HeadVersion.v ===== *)
(** * Head versions: [include/worker/head_version.h],
      [include/worker/simple_head_version.h], [src/worker/simple_head_version.cc]

    The table of the branch heads and of the latest versions of every key.
    [HeadVersion] is the interface, [HeadVersionSpec] its contract: branches
    and latest versions are two finite maps and every operation changes
    exactly what it says.  [simple_hv] is the implementation the default build
    uses. *)

From S2P Require Import Prelude Types Slice HashVal Chunk.

(** ** The interface *)

(** [RenameBranch] can throw.  Containers without an order are lists in an
    unspecified order. *)
Class HeadVersion (HV : Type) := {
  GetBranch : HV -> Slice -> Slice -> bool * Hash;
  GetLatest : HV -> Slice -> list Hash;
  PutBranch : HV -> Slice -> Slice -> Hash -> HV;
  PutLatest : HV -> Slice -> Hash -> Hash -> Hash -> HV;
  RemoveBranch : HV -> Slice -> Slice -> HV;
  RenameBranch : HV -> Slice -> Slice -> Slice -> option HV;
  ExistsKey : HV -> Slice -> bool;
  ExistsBranch : HV -> Slice -> Slice -> bool;
  IsLatest : HV -> Slice -> Hash -> bool;
  IsBranchHead : HV -> Slice -> Slice -> Hash -> bool;
  ListKey : HV -> list Slice;
  ListBranch : HV -> Slice -> list Slice
}.

(** Changing one entry of a table of branches. *)
Definition upd {V} (f : Slice -> Slice -> option V) (k b : Slice) (v : option V) :
  Slice -> Slice -> option V :=
  fun k' b' => if decide (k' = k /\ b' = b) then v else f k' b'.

Lemma upd_eq {V} (f : Slice -> Slice -> option V) k b v : upd f k b v k b = v.
Proof. unfold upd. by rewrite decide_True. Qed.

Lemma upd_ne {V} (f : Slice -> Slice -> option V) k b v k' b' :
  ~ (k' = k /\ b' = b) -> upd f k b v k' b' = f k' b'.
Proof. intros. unfold upd. by rewrite decide_False. Qed.

(** The contract. *)
Class HeadVersionSpec (HV : Type) `{HeadVersion HV} := {
  (** the head of every branch of every key *)
  heads : HV -> Slice -> Slice -> option Hash;
  (** the latest versions of every key that has any version *)
  latest : HV -> Slice -> option (gset Hash);
  GetBranch_spec : forall hv k b,
    GetBranch hv k b = match heads hv k b with Some h => (true, h) | None => (false, hash_kNull) end;
  PutBranch_heads : forall hv k b v k' b',
    heads (PutBranch hv k b v) k' b' = upd (heads hv) k b (Some (hash_Clone v)) k' b';
  PutBranch_latest : forall hv k b v k', latest (PutBranch hv k b v) k' = latest hv k';
  RemoveBranch_heads : forall hv k b k' b',
    heads (RemoveBranch hv k b) k' b' = upd (heads hv) k b None k' b';
  RemoveBranch_latest : forall hv k b k', latest (RemoveBranch hv k b) k' = latest hv k';
  RenameBranch_spec : forall hv k old new h,
    heads hv k old = Some h -> heads hv k new = None ->
    exists hv', RenameBranch hv k old new = Some hv' /\
      (forall k' b', heads hv' k' b' = upd (upd (heads hv) k new (Some h)) k old None k' b') /\
      (forall k', latest hv' k' = latest hv k');
  PutLatest_heads : forall hv k p1 p2 v k' b', heads (PutLatest hv k p1 p2 v) k' b' = heads hv k' b';
  PutLatest_latest : forall hv k p1 p2 v k',
    latest (PutLatest hv k p1 p2 v) k'
    = if decide (k' = k)
      then Some ((default ∅ (latest hv k) ∖ {[p1]}
                  ∖ (if hash_empty p2 then ∅ else {[p2]})) ∪ {[hash_Clone v]})
      else latest hv k';
  ExistsKey_spec : forall hv k, ExistsKey hv k = bool_decide (is_Some (latest hv k));
  ExistsBranch_spec : forall hv k b, ExistsBranch hv k b = bool_decide (is_Some (heads hv k b));
  IsLatest_spec : forall hv k v, IsLatest hv k v = bool_decide (v ∈ default ∅ (latest hv k));
  IsBranchHead_spec : forall hv k b v,
    IsBranchHead hv k b v = match heads hv k b with Some h => hash_eq h v | None => false end;
  GetLatest_spec : forall hv k, GetLatest hv k ≡ₚ elements (default ∅ (latest hv k));
  ListKey_spec : forall hv k, k ∈ ListKey hv <-> is_Some (latest hv k);
  ListKey_nodup : forall hv, NoDup (ListKey hv);
  ListBranch_spec : forall hv k b, b ∈ ListBranch hv k <-> is_Some (heads hv k b);
  ListBranch_sorted : forall hv k,
    StronglySorted (fun x y => slice_lt x y = true) (ListBranch hv k)
}.

(** ** [class SimpleHeadVersion] *)

Record SimpleHeadVersion := mkHV {
  branch_ver_ : gmap Slice (gmap Slice Hash);
  latest_ver_ : gmap Slice (gset Hash)
}.

Definition shv_Exists (hv : SimpleHeadVersion) (key branch : Slice) : bool :=
  match branch_ver_ hv !! key with
  | None => false
  | Some bv_key => bool_decide (is_Some (bv_key !! branch))
  end.

Definition shv_ExistsKey (hv : SimpleHeadVersion) (key : Slice) : bool :=
  bool_decide (is_Some (latest_ver_ hv !! key)).

(** [branch_ver_.at(key).at(branch)]; [None] is the exception. *)
Definition shv_at (hv : SimpleHeadVersion) (key branch : Slice) : option Hash :=
  m ← branch_ver_ hv !! key; m !! branch.

Definition shv_GetBranch (hv : SimpleHeadVersion) (key branch : Slice) : bool * Hash :=
  if shv_Exists hv key branch
  then (true, default hash_kNull (shv_at hv key branch))
  else (false, hash_kNull).

Definition shv_GetLatest (hv : SimpleHeadVersion) (key : Slice) : list Hash :=
  match latest_ver_ hv !! key with
  | None => []
  | Some lv_key => elements lv_key
  end.

Definition shv_PutBranch (hv : SimpleHeadVersion) (key branch : Slice) (ver : Hash) :
  SimpleHeadVersion :=
  let branch_map := default ∅ (branch_ver_ hv !! key) in
  mkHV (<[key := <[branch := hash_Clone ver]> branch_map]> (branch_ver_ hv)) (latest_ver_ hv).

Definition shv_PutLatest (hv : SimpleHeadVersion) (key : Slice) (prev_ver1 prev_ver2 ver : Hash) :
  SimpleHeadVersion :=
  let lv_key := default ∅ (latest_ver_ hv !! key) in
  let lv1 := lv_key ∖ {[prev_ver1]} in
  let lv2 := if hash_empty prev_ver2 then lv1 else lv1 ∖ {[prev_ver2]} in
  mkHV (branch_ver_ hv) (<[key := lv2 ∪ {[hash_Clone ver]}]> (latest_ver_ hv)).

Definition shv_RemoveBranch (hv : SimpleHeadVersion) (key branch : Slice) : SimpleHeadVersion :=
  if shv_Exists hv key branch
  then mkHV (alter (delete branch) key (branch_ver_ hv)) (latest_ver_ hv)
  else hv.

(** [std::map::emplace]: an existing entry is kept. *)
Definition emplace {V} (m : gmap Slice V) (k : Slice) (v : V) : gmap Slice V :=
  match m !! k with Some _ => m | None => <[k := v]> m end.

Definition shv_RenameBranch (hv : SimpleHeadVersion) (key old_branch new_branch : Slice) :
  option SimpleHeadVersion :=
  bv_key ← branch_ver_ hv !! key;
  ver ← bv_key !! old_branch;
  let bv1 := emplace bv_key new_branch ver in
  Some (mkHV (<[key := delete old_branch bv1]> (branch_ver_ hv)) (latest_ver_ hv)).

Definition shv_IsLatest (hv : SimpleHeadVersion) (key : Slice) (ver : Hash) : bool :=
  match latest_ver_ hv !! key with
  | None => false
  | Some lv_key => bool_decide (ver ∈ lv_key)
  end.

Definition shv_IsBranchHead (hv : SimpleHeadVersion) (key branch : Slice) (ver : Hash) : bool :=
  if shv_Exists hv key branch
  then match shv_at hv key branch with Some h => hash_eq h ver | None => false end
  else false.

Definition shv_ListKey (hv : SimpleHeadVersion) : list Slice := (map_to_list (latest_ver_ hv)).*1.

(** The keys of a [std::map] come in their order. *)
Definition shv_ListBranch (hv : SimpleHeadVersion) (key : Slice) : list Slice :=
  match branch_ver_ hv !! key with
  | None => []
  | Some m => merge_sort slice_le ((map_to_list m).*1)
  end.

#[export] Instance simple_hv : HeadVersion SimpleHeadVersion := {|
  GetBranch := shv_GetBranch; GetLatest := shv_GetLatest; PutBranch := shv_PutBranch;
  PutLatest := shv_PutLatest; RemoveBranch := shv_RemoveBranch; RenameBranch := shv_RenameBranch;
  ExistsKey := shv_ExistsKey; ExistsBranch := shv_Exists; IsLatest := shv_IsLatest;
  IsBranchHead := shv_IsBranchHead; ListKey := shv_ListKey; ListBranch := shv_ListBranch
|}.

(** ** The implementation meets the contract *)

Lemma shv_Exists_at hv k b : shv_Exists hv k b = bool_decide (is_Some (shv_at hv k b)).
Proof. unfold shv_Exists, shv_at. by destruct (branch_ver_ hv !! k). Qed.

Lemma shv_at_insert bv lv k m k' b' :
  shv_at (mkHV (<[k := m]> bv) lv) k' b'
  = if decide (k' = k) then m !! b' else shv_at (mkHV bv lv) k' b'.
Proof.
  unfold shv_at. cbn [branch_ver_]. case_decide as Hd.
  - subst. by rewrite lookup_insert_eq.
  - by rewrite lookup_insert_ne by congruence.
Qed.

Lemma shv_at_default hv k b : default ∅ (branch_ver_ hv !! k) !! b = shv_at hv k b.
Proof. unfold shv_at. destruct (branch_ver_ hv !! k); simpl; [done|]. by rewrite lookup_empty. Qed.

Lemma shv_PutBranch_at hv k b v k' b' :
  shv_at (shv_PutBranch hv k b v) k' b' = upd (shv_at hv) k b (Some (hash_Clone v)) k' b'.
Proof.
  unfold shv_PutBranch, upd. rewrite shv_at_insert. repeat case_decide; try tauto.
  - destruct_and!. subst. by rewrite lookup_insert_eq.
  - subst. rewrite lookup_insert_ne by naive_solver. apply shv_at_default.
Qed.

Lemma shv_RemoveBranch_at hv k b k' b' :
  shv_at (shv_RemoveBranch hv k b) k' b' = upd (shv_at hv) k b None k' b'.
Proof.
  unfold shv_RemoveBranch, upd. rewrite shv_Exists_at. case_bool_decide as He.
  - unfold shv_at in *. cbn [branch_ver_]. destruct (decide (k' = k)) as [->|Hk].
    + rewrite lookup_alter_eq. destruct (branch_ver_ hv !! k) as [m|]; [|by destruct He]. simpl.
      case_decide as Hd; [destruct Hd as [_ ->]; apply lookup_delete_eq|].
      apply lookup_delete_ne. naive_solver.
    + rewrite lookup_alter_ne by done. rewrite decide_False by naive_solver. done.
  - case_decide as Hd; [|done]. destruct Hd as [-> ->]. by apply eq_None_not_Some.
Qed.

Lemma shv_RenameBranch_at hv k old new h :
  shv_at hv k old = Some h -> shv_at hv k new = None ->
  exists hv', shv_RenameBranch hv k old new = Some hv' /\ latest_ver_ hv' = latest_ver_ hv /\
    forall k' b', shv_at hv' k' b' = upd (upd (shv_at hv) k new (Some h)) k old None k' b'.
Proof.
  unfold shv_at at 1 2, shv_RenameBranch. intros Ho Hn.
  destruct (branch_ver_ hv !! k) as [m|] eqn:Em; [|done]. simpl in *. rewrite Ho. simpl.
  eexists. split_and!; [done|done|]. intros k' b'. unfold upd. rewrite shv_at_insert.
  destruct (decide (k' = k)) as [->|Hk].
  - unfold emplace. rewrite Hn. destruct (decide (b' = old)) as [->|Hb].
    + by rewrite lookup_delete_eq, decide_True.
    + rewrite lookup_delete_ne by done. rewrite (decide_False (P := k = k /\ b' = old)) by naive_solver.
      case_decide as Hd; [destruct Hd as [_ ->]; apply lookup_insert_eq|].
      rewrite lookup_insert_ne by naive_solver. unfold shv_at. by rewrite Em.
  - rewrite !decide_False by naive_solver. done.
Qed.

Lemma shv_PutLatest_latest hv k p1 p2 v k' :
  latest_ver_ (shv_PutLatest hv k p1 p2 v) !! k'
  = if decide (k' = k)
    then Some ((default ∅ (latest_ver_ hv !! k) ∖ {[p1]}
                ∖ (if hash_empty p2 then ∅ else {[p2]})) ∪ {[hash_Clone v]})
    else latest_ver_ hv !! k'.
Proof.
  unfold shv_PutLatest. cbn [latest_ver_]. case_decide as Hd.
  - subst. rewrite lookup_insert_eq. f_equal. destruct (hash_empty p2); [|done].
    apply leibniz_equiv. set_solver.
  - by rewrite lookup_insert_ne by congruence.
Qed.

Lemma elem_of_fst_map {V} (m : gmap Slice V) k : k ∈ (map_to_list m).*1 <-> is_Some (m !! k).
Proof.
  rewrite list_elem_of_fmap. split.
  - intros ([k' v] & -> & Hin). apply elem_of_map_to_list in Hin. eauto.
  - intros [v Hv]. exists (k, v). split; [done|]. by apply elem_of_map_to_list.
Qed.

#[export] Instance simple_hv_spec : HeadVersionSpec SimpleHeadVersion.
Proof.
  refine {| heads := shv_at; latest hv k := latest_ver_ hv !! k |}.
  - intros hv k b. cbn. unfold shv_GetBranch. rewrite shv_Exists_at.
    by destruct (shv_at hv k b).
  - apply shv_PutBranch_at.
  - done.
  - apply shv_RemoveBranch_at.
  - intros hv k b k'. cbn. unfold shv_RemoveBranch. by destruct (shv_Exists hv k b).
  - intros hv k old new h Ho Hn. destruct (shv_RenameBranch_at _ _ _ _ _ Ho Hn)
      as (hv' & H1 & H2 & H3). exists hv'. split_and!; [done|done|]. by rewrite H2.
  - done.
  - apply shv_PutLatest_latest.
  - done.
  - apply shv_Exists_at.
  - intros hv k v. cbn. unfold shv_IsLatest. destruct (latest_ver_ hv !! k); [done|].
    symmetry. apply bool_decide_eq_false. set_solver.
  - intros hv k b v. cbn. unfold shv_IsBranchHead. rewrite shv_Exists_at.
    by destruct (shv_at hv k b).
  - intros hv k. cbn. unfold shv_GetLatest. destruct (latest_ver_ hv !! k); [done|].
    simpl. by rewrite elements_empty.
  - intros hv k. apply elem_of_fst_map.
  - intros hv. apply NoDup_fst_map_to_list.
  - intros hv k b. cbn. unfold shv_ListBranch, shv_at.
    destruct (branch_ver_ hv !! k) as [m|]; simpl.
    + rewrite merge_sort_Permutation. apply elem_of_fst_map.
    + split; [by intros ?%elem_of_nil|by intros [? ?]].
  - intros hv k. cbn. unfold shv_ListBranch. destruct (branch_ver_ hv !! k) as [m|]; [|constructor].
    apply sorted_strict; [|apply StronglySorted_merge_sort; apply _].
    rewrite merge_sort_Permutation. apply NoDup_fst_map_to_list.
Defined.

(** ** Persistence: [Load] and [Dump]

    The [KeyVersions] message: per key the list of its branches with the bytes
    of their heads.  The two directions of the generated protobuf class are
    parameters. *)
Abbreviation KeyVersions := (list (Slice * list (Slice * bytes))).

(** The branches of a key in the order of the [std::map], each with the
    [kByteLength] bytes of its head; a head without value is dereferenced. *)
Definition dump_branches (m : gmap Slice Hash) : option (list (Slice * bytes)) :=
  mapM (fun b => h ← m !! b; v ← h; d ← read_bytes 0 kByteLength v; Some (b, d))
       (merge_sort slice_le (map_to_list m).*1).

Definition dump_message (hv : SimpleHeadVersion) : option KeyVersions :=
  mapM (fun kv => bs ← dump_branches (snd kv); Some (fst kv, bs)) (map_to_list (branch_ver_ hv)).

Definition load_branches (m : gmap Slice Hash) (bs : list (Slice * bytes)) : gmap Slice Hash :=
  foldl (fun m b => emplace m (fst b) (hash_Clone (Some (snd b)))) m bs.

Definition load_key (bv : gmap Slice (gmap Slice Hash)) (kv : Slice * list (Slice * bytes)) :
  gmap Slice (gmap Slice Hash) :=
  let bv1 := emplace bv (fst kv) ∅ in
  <[fst kv := load_branches (default ∅ (bv1 !! fst kv)) (snd kv)]> bv1.

Definition load_message (hv : SimpleHeadVersion) (msg : KeyVersions) : SimpleHeadVersion :=
  mkHV (foldl load_key (branch_ver_ hv) msg) (latest_ver_ hv).

Section Persist.
Variable SerializeToOstream : KeyVersions -> option bytes.
Variable ParseFromIstream : bytes -> option KeyVersions.

(** [Dump]: what is written to the file, if serialisation succeeds. *)
Definition Dump (hv : SimpleHeadVersion) : option (option bytes) :=
  msg ← dump_message hv; Some (SerializeToOstream msg).

(** [Load] from the content of the file; [None] is a file that cannot be opened. *)
Definition Load (hv : SimpleHeadVersion) (file : option bytes) : bool * SimpleHeadVersion :=
  match file with
  | None => (false, hv)
  | Some content =>
      match ParseFromIstream content with
      | None => (false, hv)
      | Some msg => (true, load_message hv msg)
      end
  end.

End Persist.

(** What is in the table is a hash of the right size. *)
Definition heads_wf (hv : SimpleHeadVersion) : Prop :=
  forall k m, branch_ver_ hv !! k = Some m ->
  forall b h, m !! b = Some h -> exists v, h = Some v /\ length v = kByteLength.

Lemma emplace_union {V} (m : gmap Slice V) k v : emplace m k v = m ∪ {[k := v]}.
Proof.
  unfold emplace. apply map_eq. intros k'. rewrite lookup_union.
  destruct (decide (k' = k)) as [->|Hne].
  - rewrite lookup_singleton_eq. destruct (m !! k) as [w|] eqn:E; rewrite ?E, ?lookup_insert_eq; done.
  - rewrite (lookup_singleton_ne k k') by done.
    assert (E : m !! k' ∪ None = m !! k') by (by destruct (m !! k')). rewrite E.
    destruct (m !! k); [done|]. by rewrite lookup_insert_ne.
Qed.

Lemma load_branches_union m bs :
  load_branches m bs = m ∪ list_to_map ((fun b => (fst b, hash_Clone (Some (snd b)))) <$> bs).
Proof.
  unfold load_branches. revert m. induction bs as [|b bs IH]; intros m.
  - simpl. by rewrite (right_id_L ∅ (∪)).
  - cbn [foldl]. rewrite IH, emplace_union. rewrite <- (assoc_L (∪)). f_equal. simpl.
    by rewrite insert_union_singleton_l.
Qed.

(** Dumping the branches of a key and loading them into an empty map. *)
Lemma dump_load_branches m :
  (forall b h, m !! b = Some h -> exists v, h = Some v /\ length v = kByteLength) ->
  exists bs, dump_branches m = Some bs /\ load_branches ∅ bs = m.
Proof.
  intros Hm. unfold dump_branches.
  set (g b := (b, default [] (mjoin (m !! b)))). set (l := merge_sort _ _).
  assert (Hl : forall b, b ∈ l <-> is_Some (m !! b)).
  { intros b. subst l. rewrite merge_sort_Permutation. apply elem_of_fst_map. }
  exists (g <$> l). split.
  - apply mapM_total. intros b [h Hb]%Hl. destruct (Hm b h Hb) as (v & -> & Hv).
    rewrite Hb. simpl. subst g. simpl. rewrite Hb. simpl.
    by rewrite <- Hv, read_bytes_all.
  - rewrite load_branches_union, (left_id_L ∅ (∪)), <- list_fmap_compose.
    apply map_eq. intros b. destruct (m !! b) as [h|] eqn:Eb.
    + apply elem_of_list_to_map_1'.
      * intros y (b' & [= <- ->] & Hin)%list_elem_of_fmap. simpl. rewrite Eb. simpl.
        destruct (Hm b h Eb) as (v & -> & Hv). simpl. rewrite take_ge; [done|lia].
      * apply list_elem_of_fmap. exists b. rewrite Hl, Eb. split; [|eauto]. simpl. rewrite Eb. simpl.
        destruct (Hm b h Eb) as (v & -> & Hv). simpl. rewrite take_ge; [done|lia].
    + apply not_elem_of_list_to_map_1. rewrite <- list_fmap_compose.
      intros (b' & -> & Hin)%list_elem_of_fmap. simpl in *. apply Hl in Hin as [? ?]. congruence.
Qed.

Lemma load_keys_lookup msg : forall bv k,
  NoDup msg.*1 ->
  foldl load_key bv msg !! k
  = match (list_to_map msg : gmap _ _) !! k with
    | Some bs => Some (load_branches (default ∅ (bv !! k)) bs)
    | None => bv !! k
    end.
Proof.
  induction msg as [|[k0 bs] msg IH]; intros bv k Hn; [by simpl; rewrite lookup_empty|].
  apply NoDup_cons in Hn as [Hni Hn]. cbn [foldl]. rewrite IH by done.
  assert (Hlk : load_key bv (k0, bs) !! k
    = if decide (k = k0) then Some (load_branches (default ∅ (bv !! k)) bs) else bv !! k).
  { unfold load_key. simpl. case_decide as Hd.
    - subst. rewrite lookup_insert_eq. f_equal. f_equal. unfold emplace.
      destruct (bv !! k0) eqn:E; [by rewrite E|by rewrite lookup_insert_eq].
    - rewrite lookup_insert_ne by done. unfold emplace.
      destruct (bv !! k0); [done|]. by rewrite lookup_insert_ne. }
  rewrite Hlk. simpl. case_decide as Hd.
  - subst. rewrite lookup_insert_eq.
    rewrite not_elem_of_list_to_map_1; done.
  - by rewrite lookup_insert_ne.
Qed.

Definition empty_hv : SimpleHeadVersion := mkHV ∅ ∅.

(** C33.  Persistence of the head table: every table whose heads are hashes
    can be dumped, and loading the file into an empty table restores exactly
    the branches and their heads, in whatever bytes protobuf encodes the
    message; the latest versions are not in the file (the worker rebuilds them
    from the store). *)
Theorem head_version_persist ser parse hv :
  (forall msg content, ser msg = Some content -> parse content = Some msg) -> heads_wf hv ->
  exists msg, Dump ser hv = Some (ser msg) /\
    forall content, ser msg = Some content ->
      Load parse empty_hv (Some content) = (true, mkHV (branch_ver_ hv) ∅).
Proof.
  intros Hser Hwf. set (g (kv : Slice * gmap Slice Hash) := (fst kv, default [] (dump_branches (snd kv)))).
  assert (Hg : forall k m, branch_ver_ hv !! k = Some m ->
    exists bs, dump_branches m = Some bs /\ load_branches ∅ bs = m).
  { intros k m Hk. apply dump_load_branches. eauto. }
  exists (g <$> map_to_list (branch_ver_ hv)). split.
  - unfold Dump, dump_message. rewrite (mapM_total _ g); [done|].
    intros [k m] Hin%elem_of_map_to_list. simpl. destruct (Hg k m Hin) as (bs & E & _).
    subst g. simpl. by rewrite E.
  - intros content Hc. unfold Load. rewrite (Hser _ _ Hc). f_equal. unfold load_message. f_equal.
    assert (Hfst : (g <$> map_to_list (branch_ver_ hv)).*1 = (map_to_list (branch_ver_ hv)).*1)
      by (by rewrite <- list_fmap_compose).
    apply map_eq. intros k. rewrite load_keys_lookup; [|rewrite Hfst; apply NoDup_fst_map_to_list].
    cbn [branch_ver_ empty_hv]. rewrite lookup_empty. destruct (branch_ver_ hv !! k) as [m|] eqn:Ek.
    + destruct (Hg k m Ek) as (bs & Eb & El).
      rewrite (elem_of_list_to_map_1 _ k bs); [by f_equal|rewrite Hfst; apply NoDup_fst_map_to_list|].
      apply list_elem_of_fmap. exists (k, m). split; [subst g; simpl; by rewrite Eb|].
      by apply elem_of_map_to_list.
    + rewrite not_elem_of_list_to_map_1; [done|]. rewrite Hfst, elem_of_fst_map, Ek. by intros [? ?].
Qed.

(** For the witness: a table with one branch, and a format for the messages of
    such tables (names of one byte); it refuses to serialise all others. *)
Definition one_head : SimpleHeadVersion := shv_PutBranch empty_hv [x6b] [x6d] (Some (replicate 20 x05)).

Definition ser_one (msg : KeyVersions) : option bytes :=
  match msg with
  | [([k], [([b], v)])] => Some (k :: b :: v)
  | _ => None
  end.

Definition parse_one (content : bytes) : option KeyVersions :=
  match content with
  | k :: b :: v => Some [([k], [([b], v)])]
  | _ => None
  end.

Lemma head_version_persist_witness :
  exists msg, Dump ser_one one_head = Some (ser_one msg) /\
    forall content, ser_one msg = Some content ->
      Load parse_one empty_hv (Some content) = (true, mkHV (branch_ver_ one_head) ∅).
Proof.
  apply head_version_persist.
  - intros msg content. unfold ser_one. repeat case_match; intros; simplify_eq. done.
  - intros k m Hk b h Hb. unfold one_head, shv_PutBranch in Hk. cbn [branch_ver_ empty_hv] in Hk.
    rewrite lookup_empty in Hk. simpl in Hk.
    apply lookup_insert_Some in Hk as [[_ <-]|[_ Hk]]; [|by rewrite lookup_empty in Hk].
    apply lookup_insert_Some in Hb as [[_ <-]|[_ Hb]]; [|by rewrite lookup_empty in Hb].
    exists (replicate 20 x05). done.
Defined.
