(* ===== verification/Worker.v ===== *)
(** * The worker: [include/worker/worker.h], [src/worker/worker.cc],
      [include/spec/value.h]

    The worker is the versioned key-value store: it writes values, makes the
    cell of every new version, and keeps the branches and latest versions.  The
    table of heads is any [HeadVersion], the storage any [ChunkStore]. *)

From S2P Require Import Prelude Types Slice HashVal Chunk RollingHash Node Chunker.
From S2P Require Import Store Cursor Builder Advanced Objects Cell HeadVersion.

(** [struct Value]. *)
Record Value := mkValue {
  val_type : UType;
  val_base : Hash;
  val_pos : Z;
  val_dels : Z;
  val_vals : list Slice;
  val_keys : list Slice;
  val_ctx : Slice
}.

Record Worker (HV St : Type) := mkWorker {
  head_ver_ : HV;
  w_store : St
}.
Arguments mkWorker {HV St}.
Arguments head_ver_ {HV St}.
Arguments w_store {HV St}.

Section Worker.
Context `{HashFunction} `{Uninit} `{StdSort}.
Context {St : Type} `{ChunkStore St} {HV : Type} `{HeadVersion HV}.
Variable (params : NodeKind -> ChunkerParams) (fuel : nat).
Implicit Types (w : Worker HV St) (key branch : Slice).

Definition set_head w (hv : HV) : Worker HV St := mkWorker hv (w_store w).
Definition set_store w (st : St) : Worker HV St := mkWorker (head_ver_ w) st.

(** ** Queries *)

(** [Exists(ver)]. *)
Definition Exists_ver w (ver : Hash) : bool := cs_Exists (w_store w) ver.

(** [GetBranchHead]: the error code and [*ver]. *)
Definition GetBranchHead w key branch : ErrorCode * Hash :=
  let '(found, ver) := GetBranch (head_ver_ w) key branch in
  (if found : bool then kOK else kBranchNotExists, ver).

(** [Get(key, ver)]. *)
Definition Get_ver w key (ver : Hash) : option (ErrorCode * UCell) :=
  u ← UCell_Load (w_store w) ver;
  match u with
  | None => Some (kUCellNotExists, None)
  | Some _ =>
      k ← ucell_key u;
      if negb (slice_eq k key) then Some (kInconsistentKey, u) else Some (kOK, u)
  end.

(** [Get(key, branch)]. *)
Definition Get_branch w key branch : option (ErrorCode * UCell) :=
  let '(found, ver) := GetBranch (head_ver_ w) key branch in
  if negb found then
    Some (if ExistsKey (head_ver_ w) key then kBranchNotExists else kKeyNotExists, None)
  else Get_ver w key ver.

(** [GetChunk]. *)
Definition Worker_GetChunk w (ver : Hash) : ErrorCode * Chunk :=
  let c := cs_Get (w_store w) ver in
  (if chunk_empty c then kChunkNotExists else kOK, c).

Definition ListKeys w : ErrorCode * list Slice := (kOK, ListKey (head_ver_ w)).
Definition ListBranches w key : ErrorCode * list Slice := (kOK, ListBranch (head_ver_ w) key).
Definition Worker_Exists w key : ErrorCode * bool := (kOK, ExistsKey (head_ver_ w) key).
Definition Worker_ExistsBranch w key branch : ErrorCode * bool :=
  (kOK, ExistsBranch (head_ver_ w) key branch).
Definition Worker_IsBranchHead w key branch (ver : Hash) : ErrorCode * bool :=
  (kOK, IsBranchHead (head_ver_ w) key branch ver).
Definition GetLatestVersions w key : ErrorCode * list Hash := (kOK, GetLatest (head_ver_ w) key).
Definition IsLatestVersion w key (ver : Hash) : ErrorCode * bool :=
  (kOK, IsLatest (head_ver_ w) key ver).

(** ** Writing values

    The result of a writer is the error code, what was assigned to [*ver]
    ([None] if nothing was) and the state. *)

Definition CheckString (val : Value) : ErrorCode :=
  if hash_empty (val_base val) then
    if length (val_vals val) =? 1 then kOK else kInvalidValue
  else kInvalidValue.

(** [!val.dels && val.vals.empty()]: the original value is taken. *)
Definition is_origin (val : Value) (vs : list Slice) : bool :=
  (val_dels val =? 0)%Z && (length vs =? 0).

(** The end of an update: [Hash::kNull] is a failure. *)
Definition modified (fail : ErrorCode) (r : Hash * St) : ErrorCode * Hash * St :=
  if hash_eq (fst r) hash_kNull then (fail, None, snd r) else (kOK, fst r, snd r).

(** The end of a creation: an empty object is a failure. *)
Definition created (fail : ErrorCode) (r : option SeqNode * St) : option (ErrorCode * Hash * St) :=
  match fst r with
  | None => Some (fail, None, snd r)
  | Some n => h ← chunk_hash (chunk_ n); Some (kOK, hash_Clone h, snd r)
  end.

Definition WriteBlob (st : St) (val : Value) : option (ErrorCode * Hash * St) :=
  if hash_empty (val_base val) then
    match val_vals val with
    | [v] => r ← SBlob_new params fuel st v; created kFailedCreateSBlob r
    | _ => Some (kInvalidValue, None, st)
    end
  else if is_origin val (val_vals val) then Some (kOK, val_base val, st)
  else if 1 <? length (val_vals val) then Some (kInvalidValue, None, st)
  else
    sblob ← SBlob_load st (val_base val);
    let slice := match val_vals val with [] => [] | v :: _ => v end in
    r ← SBlob_Splice params fuel st sblob (val_pos val) (Z.to_nat (val_dels val)) slice;
    Some (modified kFailedModifySBlob r).

Definition WriteList (st : St) (val : Value) : option (ErrorCode * Hash * St) :=
  if hash_empty (val_base val) then
    r ← SList_new params fuel st (val_vals val); created kFailedCreateSList r
  else if is_origin val (val_vals val) then Some (kOK, val_base val, st)
  else
    list ← SList_load st (val_base val);
    r ← SList_Splice params fuel st list (val_pos val) (Z.to_nat (val_dels val)) (val_vals val);
    Some (modified kFailedModifySList r).

Definition WriteMap (st : St) (val : Value) : option (ErrorCode * Hash * St) :=
  if hash_empty (val_base val) then
    if negb (length (val_keys val) =? length (val_vals val)) then Some (kInvalidValue, None, st)
    else r ← SMap_new params fuel st (val_keys val) (val_vals val); created kFailedCreateSMap r
  else if is_origin val (val_vals val) then Some (kOK, val_base val, st)
  else if 1 <? length (val_keys val) then
    if negb (length (val_keys val) =? length (val_vals val)) || negb (val_dels val =? 0)%Z
    then Some (kInvalidValue, None, st)
    else
      map ← SMap_load st (val_base val);
      r ← SMap_SetMany params fuel st map (val_keys val) (val_vals val);
      Some (modified kFailedModifySMap r)
  else if negb (length (val_keys val) =? 1) || (length (val_keys val) <? length (val_vals val))
  then Some (kInvalidValue, None, st)
  else
    mkey ← head (val_keys val);
    map ← SMap_load st (val_base val);
    r ← (if negb (val_dels val =? 0)%Z then SMap_Remove params fuel st map mkey
         else v ← head (val_vals val); SMap_Set params fuel st map mkey v);
    Some (modified kFailedModifySMap r).

Definition WriteSet (st : St) (val : Value) : option (ErrorCode * Hash * St) :=
  if hash_empty (val_base val) then
    r ← SSet_new params fuel st (val_keys val); created kFailedCreateSSet r
  else if is_origin val (val_keys val) then Some (kOK, val_base val, st)
  else if negb (length (val_keys val) =? 1) then Some (kInvalidValue, None, st)
  else
    mkey ← head (val_keys val);
    set ← SSet_load st (val_base val);
    r ← (if negb (val_dels val =? 0)%Z then SSet_Remove params fuel st set mkey
         else SSet_Set params fuel st set mkey);
    Some (modified kFailedModifySSet r).

Definition PutUnkeyed (st : St) (val : Value) : option (ErrorCode * Hash * St) :=
  match val_type val with
  | UBlob => WriteBlob st val
  | UList => WriteList st val
  | UMap => WriteMap st val
  | USet => WriteSet st val
  | _ => Some (kTypeUnsupported, None, st)
  end.

(** [UpdateLatestVersion]. *)
Definition UpdateLatestVersion (hv : HV) (u : UCell) : option HV :=
  prev_ver1 ← ucell_preHash u false;
  prev_ver2 ← ucell_preHash u true;
  ver ← ucell_hash u;
  key ← ucell_key u;
  Some (PutLatest hv key prev_ver1 prev_ver2 ver).

(** The common part of the two [CreateUCell]. *)
Definition finish_cell w (r : UCell * St) : option (ErrorCode * Hash * Worker HV St) :=
  let '(u, st) := r in
  match u with
  | None => Some (kFailedCreateUCell, None, set_store w st)
  | Some _ =>
      h ← ucell_hash u;
      hv ← UpdateLatestVersion (head_ver_ w) u;
      Some (kOK, hash_Clone h, mkWorker hv st)
  end.

Definition CreateUCell w key (utype : UType) (utype_data ctx : Slice) (prev_ver1 prev_ver2 : Hash) :
  option (ErrorCode * Hash * Worker HV St) :=
  r ← UCell_Create (w_store w) utype key utype_data ctx prev_ver1 prev_ver2; finish_cell w r.

Definition CreateUCell_hash w key (utype : UType) (utype_hash : Hash) (ctx : Slice)
    (prev_ver1 prev_ver2 : Hash) : option (ErrorCode * Hash * Worker HV St) :=
  r ← UCell_Create_hash (w_store w) utype key utype_hash ctx prev_ver1 prev_ver2; finish_cell w r.

(** [WriteUCell]. *)
Definition WriteUCell w key (val : Value) (prev_ver1 prev_ver2 : Hash) :
  option (ErrorCode * Hash * Worker HV St) :=
  match val_type val with
  | UString =>
      match CheckString val with
      | kOK => data ← head (val_vals val);
               CreateUCell w key UString data (val_ctx val) prev_ver1 prev_ver2
      | ec => Some (ec, None, w)
      end
  | _ =>
      r ← PutUnkeyed (w_store w) val;
      let '(ec, root, st) := r in
      match ec with
      | kOK => CreateUCell_hash (set_store w st) key (val_type val) root (val_ctx val)
                 prev_ver1 prev_ver2
      | _ => Some (ec, None, set_store w st)
      end
  end.

(** ** Put and Merge *)

(** [Put(key, val, prev_ver)]. *)
Definition Put_prev w key (val : Value) (prev_ver : Hash) :
  option (ErrorCode * Hash * Worker HV St) :=
  if hash_eq prev_ver hash_kNull || Exists_ver w prev_ver
  then WriteUCell w key val prev_ver None
  else Some (kReferringVersionNotExist, None, w).

(** [Put(key, val, branch, prev_ver)]. *)
Definition Put_at w key (val : Value) branch (prev_ver : Hash) :
  option (ErrorCode * Hash * Worker HV St) :=
  r ← Put_prev w key val prev_ver;
  let '(ec, ver, w') := r in
  Some (ec, ver,
        if bool_decide (ec = kOK) && negb (slice_empty branch)
        then set_head w' (PutBranch (head_ver_ w') key branch ver) else w').

(** [Put(key, val, branch)]: on top of the head of the branch. *)
Definition Put_branch w key (val : Value) branch : option (ErrorCode * Hash * Worker HV St) :=
  Put_at w key val branch (snd (GetBranch (head_ver_ w) key branch)).

(** [Merge(key, val, ref_ver1, ref_ver2)]. *)
Definition Merge_vers w key (val : Value) (ref_ver1 ref_ver2 : Hash) :
  option (ErrorCode * Hash * Worker HV St) :=
  if Exists_ver w ref_ver1 && Exists_ver w ref_ver2
  then WriteUCell w key val ref_ver1 ref_ver2
  else Some (kReferringVersionNotExist, None, w).

(** [Merge(key, val, tgt_branch, ref_ver)]. *)
Definition Merge_ver w key (val : Value) (tgt_branch : Slice) (ref_ver : Hash) :
  option (ErrorCode * Hash * Worker HV St) :=
  let '(found, tgt_ver) := GetBranch (head_ver_ w) key tgt_branch in
  if negb found then Some (kBranchNotExists, None, w)
  else
    r ← Merge_vers w key val tgt_ver ref_ver;
    let '(ec, ver, w') := r in
    Some (ec, ver,
          if bool_decide (ec = kOK)
          then set_head w' (PutBranch (head_ver_ w') key tgt_branch ver) else w').

(** [Merge(key, val, tgt_branch, ref_branch)]. *)
Definition Merge_branch w key (val : Value) (tgt_branch ref_branch : Slice) :
  option (ErrorCode * Hash * Worker HV St) :=
  let '(found, ref_ver) := GetBranch (head_ver_ w) key ref_branch in
  if negb found then Some (kBranchNotExists, None, w)
  else Merge_ver w key val tgt_branch ref_ver.

(** ** Branches *)

(** [Branch(key, ver, new_branch)]. *)
Definition Branch_ver w key (ver : Hash) (new_branch : Slice) : ErrorCode * Worker HV St :=
  if ExistsBranch (head_ver_ w) key new_branch then (kBranchExists, w)
  else if Exists_ver w ver
  then (kOK, set_head w (PutBranch (head_ver_ w) key new_branch ver))
  else (kReferringVersionNotExist, w).

(** [Branch(key, old_branch, new_branch)]. *)
Definition Branch w key (old_branch new_branch : Slice) : ErrorCode * Worker HV St :=
  let '(found, ver) := GetBranch (head_ver_ w) key old_branch in
  if negb found then (kBranchNotExists, w) else Branch_ver w key ver new_branch.

Definition Rename w key (old_branch new_branch : Slice) : option (ErrorCode * Worker HV St) :=
  if negb (ExistsBranch (head_ver_ w) key old_branch) then Some (kBranchNotExists, w)
  else if ExistsBranch (head_ver_ w) key new_branch then Some (kBranchExists, w)
  else hv ← RenameBranch (head_ver_ w) key old_branch new_branch; Some (kOK, set_head w hv).

Definition Delete w key branch : ErrorCode * Worker HV St :=
  if negb (ExistsBranch (head_ver_ w) key branch) then (kBranchNotExists, w)
  else (kOK, set_head w (RemoveBranch (head_ver_ w) key branch)).

(** ** Restart: the constructor's loop over the chunks of the store, in the
    order of its iterator. *)
Fixpoint replay_cells (chunks : list Chunk) (hv : HV) : option HV :=
  match chunks with
  | [] => Some hv
  | c :: chunks' =>
      t ← chunk_type c;
      match t with
      | kCell => u ← UCell_of_chunk c; hv' ← UpdateLatestVersion hv u; replay_cells chunks' hv'
      | _ => replay_cells chunks' hv
      end
  end.

End Worker.
