(* ===== verification/Grow.v ===== *)
(** * Writing only adds chunks

    Every operation that writes does so through [Put] of the storage engine,
    which keeps what is there: the contents of the store only grow.  This is
    what makes old versions readable after any number of writes. *)

From S2P Require Import Prelude Types Slice HashVal Chunk RollingHash Node Chunker.
From S2P Require Import Store Cursor Builder Advanced Objects Cell HeadVersion Worker.

(** ** Relations that every write preserves

    The builder changes the store by [Put] only, so what relates the states
    before and after one [Put] relates those before and after an operation. *)

Section Preserve.
Context `{HashFunction} `{Uninit} {St : Type} `{ChunkStore St}.
Variable R : relation St.
Context `{!PreOrder R}.
Hypothesis put_R : forall st h c, R st (snd (cs_Put st h c)).

Variable (kind : NodeKind) (leaf_params meta_params : ChunkerParams).

Lemma HandleBoundary_pres leaf s segs s' :
  HandleBoundary kind leaf_params meta_params leaf s segs = Some s' ->
  R (cs_store s) (cs_store s').
Proof.
  unfold HandleBoundary. intros E. unbind E. case_match; [done|]. simplify_eq. apply put_R.
Qed.

Lemma commit_appended_pres fuel : forall leaf s segs cur queue r,
  commit_appended kind leaf_params meta_params fuel leaf s segs cur queue = Some r ->
  R (cs_store s) (cs_store (fst r)).
Proof.
  induction fuel as [|fuel IH]; intros leaf s segs [seg|] queue r E; cbn [commit_appended] in E;
    try done; [|by simplify_eq].
  apply bind_Some in E as (d & _ & E). destruct (rh_TryHashBytes _ _) as [rh pos].
  apply bind_Some in E as (i & _ & E). apply bind_Some in E as ([[[hb s'] segs'] seg'] & Er & E).
  assert (G : R (cs_store s) (cs_store s')).
  { destruct (rh_CrossedBoundary rh); [|by simplify_eq].
    apply bind_Some in Er as (sp & _ & Er). apply bind_Some in Er as (s'' & Hs & Er).
    simplify_eq. by apply HandleBoundary_pres in Hs. }
  etransitivity; [exact G|]. destruct (hb && negb (seg_empty seg')); [by apply IH in E|].
  destruct queue; [by simplify_eq|by apply IH in E].
Qed.

Lemma commit_cursor_pres fuel : forall leaf s segs seg r,
  commit_cursor kind leaf_params meta_params fuel leaf s segs seg = Some r ->
  R (cs_store s) (cs_store (fst r)).
Proof.
  induction fuel as [|fuel IH]; intros leaf s segs seg r E; [done|]. cbn [commit_cursor] in E.
  apply bind_Some in E as (d & _ & E). destruct (rh_TryHashBytes _ _) as [rh pos].
  destruct (pos =? num_bytes_ seg).
  - unbind E. case_match; [by simplify_eq|]. unbind E. by apply IH in E.
  - apply bind_Some in E as (i & _ & E). apply bind_Some in E as (? & _ & E).
    apply bind_Some in E as (sp & _ & E). apply bind_Some in E as (s' & Hs & E).
    apply HandleBoundary_pres in Hs. etransitivity; [exact Hs|].
    case_match; [by simplify_eq|by apply IH in E].
Qed.

Lemma commit_level_pres fuel leaf b ps st s :
  commit_level kind leaf_params meta_params fuel leaf b ps st = Some s -> R st (cs_store s).
Proof.
  unfold commit_level. intros E. apply bind_Some in E as (? & _ & E).
  apply bind_Some in E as (ps' & _ & E). cbv zeta in E.
  match type of E with (let '(_, _) := ?X in _) = _ => destruct X as [cur queue] end.
  apply bind_Some in E as ([s1 cs1] & E1 & E). apply commit_appended_pres in E1. simpl in E1.
  etransitivity; [exact E1|].
  apply bind_Some in E as ([s2 cs2] & E2 & E).
  assert (G2 : R (cs_store s1) (cs_store s2)).
  { destruct (cursor_ (cs_builder s1)) as [c|]; [|by simplify_eq].
    apply bind_Some in E2 as (l & _ & E2). apply bind_Some in E2 as (e & _ & E2).
    destruct e; [by simplify_eq|].
    apply bind_Some in E2 as (? & _ & E2). apply bind_Some in E2 as (ne & _ & E2).
    apply bind_Some in E2 as (seg & _ & E2). by apply commit_cursor_pres in E2. }
  etransitivity; [exact G2|]. apply bind_Some in E as (s3 & E3 & E).
  assert (G3 : R (cs_store s2) (cs_store s3)).
  { destruct (0 <? length cs2); [|by simplify_eq].
    apply bind_Some in E3 as (s2' & E2' & E3). apply HandleBoundary_pres in E3.
    destruct (cursor_ (cs_builder s2)) as [c|]; [|by simplify_eq].
    apply bind_Some in E2' as (l & _ & E2'). apply bind_Some in E2' as (e & _ & E2').
    apply bind_Some in E2' as (? & _ & E2'). apply bind_Some in E2' as (ra & _ & E2').
    apply bind_Some in E2' as (? & _ & E2'). by simplify_eq. }
  etransitivity; [exact G3|].
  destruct (cs_last s3); [by simplify_eq|by apply HandleBoundary_pres in E].
Qed.

Lemma RecursiveCommit_pres fuel : forall leaf b ps st h st',
  RecursiveCommit kind leaf_params meta_params fuel leaf b ps st = Some (h, st') -> R st st'.
Proof.
  induction fuel as [|fuel IH]; intros leaf b ps st h st' E; [done|]. cbn [RecursiveCommit] in E.
  apply bind_Some in E as (s & Es & E). apply bind_Some in E as (last & _ & E).
  apply bind_Some in E as (root & _ & E). apply commit_level_pres in Es.
  etransitivity; [exact Es|]. destruct (parent_builder _ _ _) as [|p ps']; [done|].
  case_match; [by apply IH in E|by simplify_eq].
Qed.

Lemma Commit_pres fuel bs st h st' :
  Commit kind leaf_params meta_params fuel bs st = Some (h, st') -> R st st'.
Proof.
  unfold Commit. destruct bs as [|b ps]; [done|]. intros E.
  apply bind_Some in E as ([root st1] & E1 & E). apply RecursiveCommit_pres in E1.
  destruct (cursor_ b); [|by simplify_eq]. apply bind_Some in E as (? & _ & E). by simplify_eq.
Qed.

Lemma build_pres fuel st segs h st' :
  build kind leaf_params meta_params fuel st segs = Some (h, st') -> R st st'.
Proof. unfold build. intros (bs & _ & E)%bind_Some. by apply Commit_pres in E. Qed.

Lemma splice_pres fuel st root idx nd segs h st' :
  splice kind leaf_params meta_params fuel st root idx nd segs = Some (h, st') -> R st st'.
Proof.
  unfold splice. intros (bs & _ & E)%bind_Some. apply bind_Some in E as (bs' & _ & E).
  by apply Commit_pres in E.
Qed.

End Preserve.

Section Grow.
Context `{HashFunction} `{Uninit} `{StdSort} {St : Type} `{ChunkStoreSpec St}.

Definition grows (st st' : St) : Prop := contents st ⊆ contents st'.

#[export] Instance grows_preorder : PreOrder grows.
Proof. unfold grows. split; [by intros ?|intros ???; apply transitivity]. Qed.

Lemma put_grows st h c : grows st (snd (cs_Put st h c)).
Proof.
  unfold grows. destruct (cs_Put st h c) as [[|] st'] eqn:E; cbn [snd].
  - rewrite (Put_spec _ _ _ _ E). case_decide as Hd; [done|].
    apply insert_subseteq. by apply eq_None_not_Some.
  - by rewrite (Put_false _ _ _ _ E).
Qed.

(** ** Transactions of several edits *)

Definition same_base (s s' : ChunkCacher St) : Prop := cc_base s = cc_base s'.

#[export] Instance same_base_preorder : PreOrder same_base.
Proof. unfold same_base. split; [by intros ?|intros ???; congruence]. Qed.

Lemma apply_operands_base k lp mp fuel ops : forall root s h s',
  apply_operands k lp mp fuel ops root s = Some (h, s') -> same_base s s'.
Proof.
  induction ops as [|o ops IH]; intros root s h s' E; cbn [apply_operands] in E; [by simplify_eq|].
  apply bind_Some in E as ([h1 s1] & E1 & E). apply IH in E1. etransitivity; [exact E1|].
  by eapply (splice_pres (H1 := cacher_store) same_base) in E.
Qed.

Definition base_grows (s s' : ChunkCacher St) : Prop := grows (cc_base s) (cc_base s').

Lemma DumpCacheChunk_grows s h : base_grows s (snd (DumpCacheChunk s h)).
Proof.
  unfold DumpCacheChunk, base_grows. destruct (cc_cache s !! h); [|done].
  pose proof (put_grows (cc_base s) h (mkChunk (head_ c) None)) as G.
  destruct (cs_Put _ _ _) as [ok b]. exact G.
Qed.

Lemma dump_entries_grows dump n :
  (forall h s r, dump h s = Some r -> base_grows s (snd r)) ->
  forall cnt i b s r, dump_entries dump n i cnt b s = Some r -> base_grows s (snd r).
Proof.
  intros Hd. induction cnt as [|cnt IH]; intros i b s r E; cbn [dump_entries] in E.
  - simplify_eq. unfold base_grows. reflexivity.
  - apply bind_Some in E as (h & _ & E). apply bind_Some in E as (d & Ed & E).
    apply Hd in Ed. apply IH in E. unfold base_grows in *. by etransitivity.
Qed.

Lemma PreorderDump_grows fuel : forall root s r,
  PreorderDump fuel root s = Some r -> base_grows s (snd r).
Proof.
  induction fuel as [|fuel IH]; intros root s r E; [done|]. cbn [PreorderDump] in E.
  destruct (ExistInCache s root); [|simplify_eq; unfold base_grows; reflexivity].
  pose proof (DumpCacheChunk_grows s root) as G. destruct (DumpCacheChunk s root) as [ok s1].
  apply bind_Some in E as (n & _ & E). destruct (isLeaf n); [by simplify_eq|].
  apply bind_Some in E as (ne & _ & E). eapply dump_entries_grows in E; [|exact IH].
  unfold base_grows in *. by etransitivity.
Qed.

Lemma adv_Commit_grows k lp mp fuel st root ops h st' :
  adv_Commit k lp mp fuel st root ops = Some (h, st') -> grows st st'.
Proof.
  unfold adv_Commit. destruct (hash_empty root).
  - destruct ops as [|o [|o' ops]].
    + intros E. by apply (build_pres grows put_grows) in E.
    + intros (bs & _ & E)%bind_Some. by apply (Commit_pres grows put_grows) in E.
    + intros [= _ ->]. reflexivity.
  - intros ([h1 s1] & E1 & E)%bind_Some. apply bind_Some in E as (d & Ed & E). simplify_eq.
    apply apply_operands_base in E1. apply PreorderDump_grows in Ed.
    unfold same_base, base_grows in *. simpl in *. by rewrite E1.
Qed.

(** ** The chunkable types *)

Variable (params : NodeKind -> ChunkerParams) (fuel : nat).

Lemma write_empty_grows k st h st' : write_empty k st = Some (h, st') -> grows st st'.
Proof.
  unfold write_empty. intros (ci & _ & E)%bind_Some. apply bind_Some in E as (h' & _ & E).
  simplify_eq. apply put_grows.
Qed.

Lemma build_one_grows k st seg h st' : build_one params fuel k st seg = Some (h, st') -> grows st st'.
Proof. unfold build_one. intros E. by apply (build_pres grows put_grows) in E. Qed.

Lemma splice_one_grows k st root idx nd seg h st' :
  splice_one params fuel k st root idx nd seg = Some (h, st') -> grows st st'.
Proof. unfold splice_one. intros E. by apply (splice_pres grows put_grows) in E. Qed.

Lemma splice_key_grows k st root key nd seg h st' :
  splice_key params fuel k st root key nd seg = Some (h, st') -> grows st st'.
Proof.
  unfold splice_key. intros (bs & _ & E)%bind_Some. apply bind_Some in E as (bs' & _ & E).
  by apply (Commit_pres grows put_grows) in E.
Qed.

End Grow.

(** Finds the one step of an operation that writes. *)
#[export] Hint Resolve write_empty_grows build_one_grows splice_one_grows splice_key_grows
  adv_Commit_grows : ustore.

Ltac grows_tac :=
  repeat match goal with
  | E : (_ ≫= _) = Some _ |- _ => apply bind_Some in E as (? & ? & E)
  | E : (if ?b then _ else _) = Some _ |- _ => destruct b
  | E : Some _ = Some _ |- _ => injection E as <- <- || injection E as <-
  | E : None = Some _ |- _ => discriminate E
  | E : LOG_FATAL = Some _ |- _ => discriminate E
  | r : (Hash * _)%type |- _ => destruct r
  | |- _ => progress simplify_eq/=
  end; try reflexivity; eauto with ustore.

Section GrowObjects.
Context `{HashFunction} `{Uninit} `{StdSort} {St : Type} `{ChunkStoreSpec St}.
Variable (params : NodeKind -> ChunkerParams) (fuel : nat).
Implicit Types (st : St).

Lemma SBlob_new_grows st data o st' : SBlob_new params fuel st data = Some (o, st') -> grows st st'.
Proof. unfold SBlob_new. intros E. grows_tac. Qed.
Lemma SList_new_grows st es o st' : SList_new params fuel st es = Some (o, st') -> grows st st'.
Proof. unfold SList_new. intros E. grows_tac. Qed.
Lemma SMap_new_grows st ks vs o st' : SMap_new params fuel st ks vs = Some (o, st') -> grows st st'.
Proof. unfold SMap_new. intros E. grows_tac. Qed.
Lemma SSet_new_grows st ks o st' : SSet_new params fuel st ks = Some (o, st') -> grows st st'.
Proof. unfold SSet_new. intros E. grows_tac. Qed.
Lemma SBlob_Splice_grows st o pos nd data h st' :
  SBlob_Splice params fuel st o pos nd data = Some (h, st') -> grows st st'.
Proof. unfold SBlob_Splice. intros E. grows_tac. Qed.
Lemma SList_Splice_grows st o pos nd es h st' :
  SList_Splice params fuel st o pos nd es = Some (h, st') -> grows st st'.
Proof. unfold SList_Splice. intros E. grows_tac. Qed.
Lemma SMap_Set_grows st o k v h st' : SMap_Set params fuel st o k v = Some (h, st') -> grows st st'.
Proof. unfold SMap_Set. intros E. grows_tac. Qed.
Lemma SMap_SetMany_grows st o ks vs h st' :
  SMap_SetMany params fuel st o ks vs = Some (h, st') -> grows st st'.
Proof. unfold SMap_SetMany. intros E. grows_tac. Qed.
Lemma SMap_Remove_grows st o k h st' : SMap_Remove params fuel st o k = Some (h, st') -> grows st st'.
Proof. unfold SMap_Remove. intros E. grows_tac. Qed.
Lemma SSet_Set_grows st o k h st' : SSet_Set params fuel st o k = Some (h, st') -> grows st st'.
Proof. unfold SSet_Set. intros E. grows_tac. Qed.
Lemma SSet_Remove_grows st o k h st' : SSet_Remove params fuel st o k = Some (h, st') -> grows st st'.
Proof. unfold SSet_Remove. intros E. grows_tac. Qed.

End GrowObjects.

Section GrowWorker.
Context `{HashFunction} `{Uninit} `{StdSort} {St : Type} `{ChunkStoreSpec St}.
Context {HV : Type} `{HeadVersion HV}.
Variable (params : NodeKind -> ChunkerParams) (fuel : nat).

Lemma created_store ec (r : option SeqNode * St) ec' h st' :
  created ec r = Some (ec', h, st') -> st' = snd r.
Proof.
  unfold created. destruct (fst r); [intros (h' & _ & E)%bind_Some|intros E]; by simplify_eq.
Qed.

Lemma modified_store ec (r : Hash * St) : snd (modified ec r) = snd r.
Proof. unfold modified. by destruct (hash_eq _ _). Qed.

Lemma created_grows st ec (r : option (option SeqNode * St)) ec' h st' :
  (forall o st1, r = Some (o, st1) -> grows st st1) ->
  r ≫= created ec = Some (ec', h, st') -> grows st st'.
Proof. intros G ([o st1] & E1 & ->%created_store)%bind_Some. by eapply G. Qed.

Lemma modified_grows st ec (r : option (Hash * St)) ec' h st' :
  (forall h st1, r = Some (h, st1) -> grows st st1) ->
  (r ≫= fun r => Some (modified ec r)) = Some (ec', h, st') -> grows st st'.
Proof.
  intros G ([h1 st1] & E1 & E)%bind_Some. apply (inj Some) in E.
  pose proof (modified_store ec (h1, st1)) as M. rewrite E in M. simpl in M. subst. by eapply G.
Qed.

Lemma WriteBlob_grows (st : St) val ec h st' :
  WriteBlob params fuel st val = Some (ec, h, st') -> grows st st'.
Proof.
  unfold WriteBlob. intros E. destruct (hash_empty _).
  { destruct (val_vals val) as [|v [|]]; [by simplify_eq| |by simplify_eq].
    eapply created_grows; [|exact E]. by apply SBlob_new_grows. }
  destruct (is_origin _ _); [by simplify_eq|]. destruct (1 <? _); [by simplify_eq|].
  apply bind_Some in E as (o & _ & E). eapply modified_grows; [|exact E].
  by apply SBlob_Splice_grows.
Qed.

Lemma WriteList_grows (st : St) val ec h st' :
  WriteList params fuel st val = Some (ec, h, st') -> grows st st'.
Proof.
  unfold WriteList. intros E. destruct (hash_empty _).
  { eapply created_grows; [|exact E]. by apply SList_new_grows. }
  destruct (is_origin _ _); [by simplify_eq|].
  apply bind_Some in E as (o & _ & E). eapply modified_grows; [|exact E].
  by apply SList_Splice_grows.
Qed.

Lemma WriteMap_grows (st : St) val ec h st' :
  WriteMap params fuel st val = Some (ec, h, st') -> grows st st'.
Proof.
  unfold WriteMap. intros E. destruct (hash_empty _).
  { destruct (negb _); [by simplify_eq|]. eapply created_grows; [|exact E]. by apply SMap_new_grows. }
  destruct (is_origin _ _); [by simplify_eq|]. destruct (1 <? _).
  { destruct (_ || _); [by simplify_eq|]. apply bind_Some in E as (o & _ & E).
    eapply modified_grows; [|exact E]. by apply SMap_SetMany_grows. }
  destruct (_ || _); [by simplify_eq|]. apply bind_Some in E as (k & _ & E).
  apply bind_Some in E as (o & _ & E). eapply modified_grows; [|exact E].
  intros h1 st1 E1. destruct (negb _); [by apply SMap_Remove_grows in E1|].
  apply bind_Some in E1 as (v & _ & E1). by apply SMap_Set_grows in E1.
Qed.

Lemma WriteSet_grows (st : St) val ec h st' :
  WriteSet params fuel st val = Some (ec, h, st') -> grows st st'.
Proof.
  unfold WriteSet. intros E. destruct (hash_empty _).
  { eapply created_grows; [|exact E]. by apply SSet_new_grows. }
  destruct (is_origin _ _); [by simplify_eq|]. destruct (negb _); [by simplify_eq|].
  apply bind_Some in E as (k & _ & E). apply bind_Some in E as (o & _ & E).
  eapply modified_grows; [|exact E]. intros h1 st1 E1.
  destruct (negb _); [by apply SSet_Remove_grows in E1|by apply SSet_Set_grows in E1].
Qed.

Lemma PutUnkeyed_grows (st : St) val ec h st' :
  PutUnkeyed params fuel st val = Some (ec, h, st') -> grows st st'.
Proof.
  unfold PutUnkeyed. destruct (val_type val); intros E; try by simplify_eq.
  - by apply WriteBlob_grows in E.
  - by apply WriteList_grows in E.
  - by apply WriteSet_grows in E.
  - by apply WriteMap_grows in E.
Qed.

End GrowWorker.
