(* ===== verification/WorkerProps.v ===== *)
(** * What the worker guarantees

    The operations of [Worker.v] as the steps of a machine: what every step
    keeps, what the store and the tables look like after any sequence of
    steps, and the exact effect of the operations on branches and strings. *)

From S2P Require Import Prelude Types Slice HashVal Chunk RollingHash Node Chunker.
From S2P Require Import Store Cursor Builder Advanced Objects Cell HeadVersion Worker Grow.

(** ** Creating cells *)

(** The checks of [NewChunk] are what a version needs. *)
Lemma NewChunk_inv `{Uninit} t k d x p1 p2 c :
  NewChunk t k d x p1 p2 = Some c -> hash_wf p1 -> hash_wf p2 ->
  exists p, p1 = Some p /\ ver_ok (mkVer t k d x p p2).
Proof.
  unfold NewChunk. intros E W1 W2. destruct p1 as [p|]; [|done]. exists p. split; [done|].
  apply bind_Some in E as (? & _ & E). apply bind_Some in E as (? & C1 & E).
  apply bind_Some in E as (? & C2 & E). apply bind_Some in E as (? & C3 & E).
  apply CHECK_Some, Z.ltb_lt in C1, C2, C3.
  constructor; simpl; auto.
Qed.

Section Versions.
Context `{HashFunction} `{Uninit} `{StdSort}.
Context {St : Type} `{ChunkStoreSpec St} {HV : Type} `{HeadVersionSpec HV}.
Variable (params : NodeKind -> ChunkerParams) (fuel : nat).
Implicit Types (w : Worker HV St) (key branch : Slice) (v : Version).

Definition stored (st : St) (h : Hash) : Prop := is_Some (contents st !! h).

Lemma stored_grows st st' h : stored st h -> grows st st' -> stored st' h.
Proof. intros [c Hc] Hg. exists c. by eapply lookup_weaken. Qed.

Lemma put_stored (st : St) h c : puts_succeed (St := St) -> stored (snd (cs_Put st h c)) h.
Proof.
  intros Hp. unfold stored. rewrite put_contents by done. case_decide; [done|].
  rewrite lookup_insert_eq. eauto.
Qed.

Lemma ver_hash_wf v : hash_wf (Some (ver_hash v)).
Proof. intros x [= <-]. apply length_ComputeFrom. Qed.

Lemma ver_hash_Clone v : hash_Clone (Some (ver_hash v)) = Some (ver_hash v).
Proof. apply hash_Clone_wf, ver_hash_wf. Qed.

(** [w'] is [w] after the version [v] was written, on top of what the write of
    its value made of the store. *)
Record new_version w (st : St) v w' : Prop := {
  nv_ok : ver_ok v;
  nv_head : head_ver_ w' = PutLatest (head_ver_ w) (v_key v) (Some (v_prev1 v)) (v_prev2 v)
                             (Some (ver_hash v));
  nv_value : grows (w_store w) st;
  nv_store : exists c, w_store w' = snd (cs_Put st (Some (ver_hash v)) c) /\
    chunk_rep c kCell (ver_payload v)
}.

Lemma nv_grows w st v w' : new_version w st v w' -> grows (w_store w) (w_store w').
Proof. intros [_ _ G (c & -> & _)]. etransitivity; [exact G|apply put_grows]. Qed.

Lemma nv_stored w st v w' : puts_succeed (St := St) -> new_version w st v w' ->
  stored (w_store w') (Some (ver_hash v)).
Proof. intros Hp [_ _ _ (c & -> & _)]. by apply put_stored. Qed.

(** What the store then holds under its hash. *)
Lemma nv_chunk w st v w' : new_version w st v w' ->
  (forall c, contents st !! Some (ver_hash v) = Some c -> chunk_rep c kCell (ver_payload v)) ->
  forall c, contents (w_store w') !! Some (ver_hash v) = Some c -> chunk_rep c kCell (ver_payload v).
Proof.
  intros [_ _ _ (c & -> & Hc)] Hnc c'. destruct (cs_Put _ _ c) as [[|] st'] eqn:E; cbn [snd].
  - rewrite (Put_spec _ _ _ _ E). case_decide; [apply Hnc|]. rewrite lookup_insert_eq. by intros [= <-].
  - rewrite (Put_false _ _ _ _ E). apply Hnc.
Qed.

(** Creating a cell writes exactly its version. *)
Lemma CreateUCell_rep w v st : ver_ok v -> grows (w_store w) st ->
  exists w', new_version w st v w' /\
    CreateUCell (set_store w st) (v_key v) (v_type v) (v_data v) (v_ctx v) (Some (v_prev1 v)) (v_prev2 v)
    = Some (kOK, Some (ver_hash v), w').
Proof.
  intros Hv Hg. destruct (UCell_Create_rep st v Hv) as (n & c & HC & Hc & _ & _ & Hn).
  unfold CreateUCell. cbn [w_store set_store]. rewrite HC. osimpl. unfold finish_cell, UpdateLatestVersion.
  rewrite (ce_hash _ _ Hn), (ce_prev1 _ _ Hn), (ce_prev2 _ _ Hn), (ce_key _ _ Hn). osimpl.
  rewrite ver_hash_Clone. eexists. split; [|reflexivity]. split; eauto.
Qed.

Lemma CreateUCell_inv w st key t d x p1 p2 ec ver w' :
  CreateUCell (set_store w st) key t d x p1 p2 = Some (ec, ver, w') ->
  hash_wf p1 -> hash_wf p2 -> grows (w_store w) st ->
  exists v, new_version w st v w' /\ ec = kOK /\ ver = Some (ver_hash v) /\
    v_key v = key /\ p1 = Some (v_prev1 v) /\ p2 = v_prev2 v.
Proof.
  intros E W1 W2 Hg.
  assert (exists p, p1 = Some p /\ ver_ok (mkVer t key d x p p2)) as (p & -> & Hv).
  { unfold CreateUCell, UCell_Create in E. apply bind_Some in E as (r & E & _).
    apply bind_Some in E as (c & E & _). by eapply NewChunk_inv. }
  destruct (CreateUCell_rep w _ st Hv Hg) as (w1 & Hn & E1). simpl in E1.
  rewrite E in E1. simplify_eq. eexists. split_and!; [exact Hn|done..].
Qed.

(** The two outcomes of a write: an error that leaves the tables alone, or a
    new version of the key. *)
Lemma WriteUCell_inv w key val p1 p2 ec ver w' :
  WriteUCell params fuel w key val p1 p2 = Some (ec, ver, w') -> hash_wf p1 -> hash_wf p2 ->
  (ec <> kOK /\ ver = None /\ head_ver_ w' = head_ver_ w /\ grows (w_store w) (w_store w')) \/
  (exists st v, new_version w st v w' /\ ec = kOK /\ ver = Some (ver_hash v) /\
    v_key v = key /\ p1 = Some (v_prev1 v) /\ p2 = v_prev2 v).
Proof.
  intros E W1 W2. unfold WriteUCell in E.
  destruct (decide (val_type val = UString)) as [Ht|Ht].
  - rewrite Ht in E. destruct (decide (CheckString val = kOK)) as [Hs|Hs].
    + rewrite Hs in E. apply bind_Some in E as (d & _ & E). right.
      destruct w as [hv st]. exists st. change (mkWorker hv st) with (set_store (mkWorker hv st) st) in E.
      eapply CreateUCell_inv in E; done.
    + left. assert (ec = CheckString val /\ ver = None /\ w' = w) as (-> & -> & ->).
      { by destruct (CheckString val); simplify_eq. }
      split_and!; done.
  - assert (exists ec0 root st, PutUnkeyed params fuel (w_store w) val = Some (ec0, root, st) /\
      if decide (ec0 = kOK) then
        CreateUCell_hash (set_store w st) key (val_type val) root (val_ctx val) p1 p2 = Some (ec, ver, w')
      else ec = ec0 /\ ver = None /\ w' = set_store w st) as (ec0 & root & st & EP & Ec).
    { destruct (val_type val); try done; apply bind_Some in E as ([[ec0 root] st] & EP & E);
        exists ec0, root, st; (split; [done|]); case_decide; subst; try done;
        destruct ec0; simplify_eq; done. }
    apply PutUnkeyed_grows in EP. case_decide as Hd.
    + right. exists st. unfold CreateUCell_hash, UCell_Create_hash in Ec.
      apply bind_Some in Ec as (r & Er & Ec). apply bind_Some in Er as (rv & _ & Er).
      apply bind_Some in Er as (d & _ & Er).
      eapply (CreateUCell_inv w st key _ d); try done. unfold CreateUCell.
      cbn [w_store set_store] in *. by rewrite Er.
    + left. destruct Ec as (-> & -> & ->). by split_and!.
Qed.

(** ** The worker as a machine *)

(** The operations that change its state. *)
Inductive Op :=
  | OpPut (key : Slice) (val : Value) (prev_ver : Hash)
  | OpPutAt (key : Slice) (val : Value) (branch : Slice) (prev_ver : Hash)
  | OpPutBranch (key : Slice) (val : Value) (branch : Slice)
  | OpMerge (key : Slice) (val : Value) (ref_ver1 ref_ver2 : Hash)
  | OpMergeVer (key : Slice) (val : Value) (tgt_branch : Slice) (ref_ver : Hash)
  | OpMergeBranch (key : Slice) (val : Value) (tgt_branch ref_branch : Slice)
  | OpPutUnkeyed (val : Value)
  | OpBranchVer (key : Slice) (ver : Hash) (new_branch : Slice)
  | OpBranch (key old_branch new_branch : Slice)
  | OpRename (key old_branch new_branch : Slice)
  | OpDelete (key branch : Slice).

(** [Hash] arguments point to [kByteLength] bytes. *)
Definition op_wf (op : Op) : Prop :=
  match op with
  | OpPut _ _ h | OpPutAt _ _ _ h | OpMergeVer _ _ _ h | OpBranchVer _ h _ => hash_wf h
  | OpMerge _ _ h1 h2 => hash_wf h1 /\ hash_wf h2
  | _ => True
  end.

Definition no_ver (r : ErrorCode * Worker HV St) : ErrorCode * Hash * Worker HV St :=
  (fst r, None, snd r).

Definition exec w (op : Op) : option (ErrorCode * Hash * Worker HV St) :=
  match op with
  | OpPut k val p => Put_prev params fuel w k val p
  | OpPutAt k val b p => Put_at params fuel w k val b p
  | OpPutBranch k val b => Put_branch params fuel w k val b
  | OpMerge k val h1 h2 => Merge_vers params fuel w k val h1 h2
  | OpMergeVer k val b h => Merge_ver params fuel w k val b h
  | OpMergeBranch k val b1 b2 => Merge_branch params fuel w k val b1 b2
  | OpPutUnkeyed val =>
      '(ec, h, st) ← PutUnkeyed params fuel (w_store w) val; Some (ec, h, set_store w st)
  | OpBranchVer k h b => Some (no_ver (Branch_ver w k h b))
  | OpBranch k b1 b2 => Some (no_ver (Branch w k b1 b2))
  | OpRename k b1 b2 => no_ver <$> Rename w k b1 b2
  | OpDelete k b => Some (no_ver (Delete w k b))
  end.

(** The states that a sequence of operations can lead to. *)
Inductive reach w : Worker HV St -> Prop :=
  | reach_start : reach w w
  | reach_op w1 op ec ver w2 :
      reach w w1 -> op_wf op -> exec w1 op = Some (ec, ver, w2) -> reach w w2.

(** What holds of every state: heads and latest versions are in the store, and
    a key that is known has a latest version. *)
Record worker_wf w : Prop := {
  wf_heads : forall k b h, heads (head_ver_ w) k b = Some h -> hash_wf h /\ stored (w_store w) h;
  wf_latest : forall k vs, latest (head_ver_ w) k = Some vs ->
    vs <> ∅ /\ forall h, h ∈ vs -> stored (w_store w) h
}.

Lemma hash_kNull_wf : hash_wf hash_kNull.
Proof. intros x Ex. injection Ex as <-. done. Qed.

Lemma head_wf w k b : worker_wf w -> hash_wf (snd (GetBranch (head_ver_ w) k b)).
Proof.
  intros Hw. rewrite GetBranch_spec. destruct (heads _ k b) as [h|] eqn:E; [by destruct (wf_heads _ Hw _ _ _ E)|].
  exact hash_kNull_wf.
Qed.

(** Only the store grew. *)
Lemma wf_store w hv st :
  worker_wf w -> hv = head_ver_ w -> grows (w_store w) st -> worker_wf (mkWorker hv st).
Proof.
  intros [Hh Hl] -> Hg. split; simpl.
  - intros k b h E. destruct (Hh _ _ _ E) as [W S]. eauto using stored_grows.
  - intros k vs E. destruct (Hl _ _ E) as [N S]. eauto using stored_grows.
Qed.

Lemma wf_new_version w st v w' :
  puts_succeed (St := St) -> worker_wf w -> new_version w st v w' -> worker_wf w'.
Proof.
  intros Hp Hw Hn. pose proof (nv_grows _ _ _ _ Hn) as Hg. pose proof (nv_stored _ _ _ _ Hp Hn) as Hs.
  split; rewrite (nv_head _ _ _ _ Hn).
  - intros k b h. rewrite PutLatest_heads. intros E. destruct (wf_heads _ Hw _ _ _ E) as [W S].
    eauto using stored_grows.
  - intros k vs. rewrite PutLatest_latest, ver_hash_Clone. case_decide as Hd; intros E.
    + simplify_eq. split; [set_solver|]. intros h [[[Hh _]%elem_of_difference _]%elem_of_difference|
        ->%elem_of_singleton]%elem_of_union; [|done].
      destruct (latest _ _) as [vs|] eqn:El; [|set_solver].
      eapply stored_grows; [|done]. by apply (wf_latest _ Hw _ _ El).
    + destruct (wf_latest _ Hw _ _ E) as [N S]. eauto using stored_grows.
Qed.

Lemma wf_PutBranch w k b h :
  worker_wf w -> hash_wf h -> stored (w_store w) h ->
  worker_wf (set_head w (PutBranch (head_ver_ w) k b h)).
Proof.
  intros Hw W S. split; simpl.
  - intros k' b' h'. rewrite PutBranch_heads, hash_Clone_wf by done. unfold upd.
    case_decide; intros E; simplify_eq; [done|by apply (wf_heads _ Hw) in E].
  - intros k' vs. rewrite PutBranch_latest. by apply (wf_latest _ Hw).
Qed.

(** What one operation does to the invariant, the store and, if it fails, the
    tables. *)
Record step_ok w (ec : ErrorCode) w' : Prop := {
  so_wf : worker_wf w';
  so_grows : grows (w_store w) (w_store w');
  so_frame : ec <> kOK -> head_ver_ w' = head_ver_ w
}.

Lemma step_refl w ec : worker_wf w -> step_ok w ec w.
Proof. by split. Qed.

Lemma WriteUCell_step w key val p1 p2 ec ver w' :
  puts_succeed (St := St) -> worker_wf w -> hash_wf p1 -> hash_wf p2 ->
  WriteUCell params fuel w key val p1 p2 = Some (ec, ver, w') ->
  step_ok w ec w' /\ (ec = kOK -> hash_wf ver /\ stored (w_store w') ver).
Proof.
  intros Hp Hw W1 W2 E. apply WriteUCell_inv in E; [|done..].
  destruct E as [(Hec & -> & Hh & Hg)|(st & v & Hn & -> & -> & _)].
  - split; [|done]. destruct w' as [hv st']. simpl in *. split; [by eapply wf_store|done|done].
  - split; [split; [by eapply wf_new_version|by eapply nv_grows|done]|].
    intros _. split; [apply ver_hash_wf|by eapply nv_stored].
Qed.

Lemma Put_prev_step w key val p ec ver w' :
  puts_succeed (St := St) -> worker_wf w -> hash_wf p ->
  Put_prev params fuel w key val p = Some (ec, ver, w') ->
  step_ok w ec w' /\ (ec = kOK -> hash_wf ver /\ stored (w_store w') ver).
Proof.
  intros Hp Hw Wp. unfold Put_prev. destruct (_ || _); [by apply WriteUCell_step|].
  intros [= <- <- <-]. split; [by apply step_refl|done].
Qed.

(** Moving a branch to the version that was just written. *)
Lemma step_PutBranch w key b ec ver w' (move : bool) :
  step_ok w ec w' -> (ec = kOK -> hash_wf ver /\ stored (w_store w') ver) ->
  step_ok w ec (if bool_decide (ec = kOK) && move
                then set_head w' (PutBranch (head_ver_ w') key b ver) else w').
Proof.
  intros Hs Hv. case_bool_decide as Hec; [|done]. destruct move; [|done].
  destruct (Hv Hec) as [W S]. split; [|apply Hs|done].
  apply wf_PutBranch; [apply Hs|done|done].
Qed.

Lemma Put_at_step w key val b p ec ver w' :
  puts_succeed (St := St) -> worker_wf w -> hash_wf p ->
  Put_at params fuel w key val b p = Some (ec, ver, w') -> step_ok w ec w'.
Proof.
  intros Hp Hw Wp E. unfold Put_at in E. apply bind_Some in E as ([[ec1 ver1] w1] & E1 & E).
  simplify_eq. apply Put_prev_step in E1 as [S V]; [|done..]. by apply step_PutBranch.
Qed.

Lemma Merge_vers_step w key val h1 h2 ec ver w' :
  puts_succeed (St := St) -> worker_wf w -> hash_wf h1 -> hash_wf h2 ->
  Merge_vers params fuel w key val h1 h2 = Some (ec, ver, w') ->
  step_ok w ec w' /\ (ec = kOK -> hash_wf ver /\ stored (w_store w') ver).
Proof.
  intros Hp Hw W1 W2. unfold Merge_vers. destruct (_ && _); [by apply WriteUCell_step|].
  intros [= <- <- <-]. split; [by apply step_refl|done].
Qed.

Lemma Merge_ver_step w key val b h ec ver w' :
  puts_succeed (St := St) -> worker_wf w -> hash_wf h ->
  Merge_ver params fuel w key val b h = Some (ec, ver, w') -> step_ok w ec w'.
Proof.
  intros Hp Hw Wh. unfold Merge_ver. pose proof (head_wf w key b Hw) as Wb.
  destruct (GetBranch _ key b) as [[|] tgt]; simpl in *.
  - intros ([[ec1 ver1] w1] & E1 & E)%bind_Some. simplify_eq.
    apply Merge_vers_step in E1 as [S V]; [|done..].
    rewrite <- (andb_true_r (bool_decide _)). by apply step_PutBranch.
  - intros [= <- <- <-]. by apply step_refl.
Qed.

Lemma Branch_ver_step w key h b ec w' :
  worker_wf w -> hash_wf h -> Branch_ver w key h b = (ec, w') -> step_ok w ec w'.
Proof.
  intros Hw Wh. unfold Branch_ver. destruct (ExistsBranch _ _ _); [intros [= <- <-]; by apply step_refl|].
  unfold Exists_ver. rewrite Exists_spec. case_bool_decide; intros [= <- <-]; [|by apply step_refl].
  split; [by apply wf_PutBranch|done|done].
Qed.

(** Renaming never throws: it looks first. *)
Lemma Rename_total w key b1 b2 :
  Rename w key b1 b2 = match heads (head_ver_ w) key b1, heads (head_ver_ w) key b2 with
    | None, _ => Some (kBranchNotExists, w)
    | Some _, Some _ => Some (kBranchExists, w)
    | Some _, None => (fun hv => (kOK, set_head w hv)) <$> RenameBranch (head_ver_ w) key b1 b2
    end.
Proof.
  unfold Rename. rewrite !ExistsBranch_spec.
  destruct (heads _ key b1); cbn [negb bool_decide]; [|by rewrite bool_decide_false by (by intros [? ?])].
  rewrite bool_decide_true by eauto. cbn [negb].
  destruct (heads _ key b2); [by rewrite bool_decide_true by eauto|].
  rewrite bool_decide_false by (by intros [? ?]). by destruct (RenameBranch _ _ _ _).
Qed.

Lemma Rename_step w key b1 b2 ec w' :
  worker_wf w -> Rename w key b1 b2 = Some (ec, w') -> step_ok w ec w'.
Proof.
  intros Hw. rewrite Rename_total. destruct (heads _ key b1) as [h|] eqn:E1.
  2:{ intros [= <- <-]. by apply step_refl. }
  destruct (heads _ key b2) eqn:E2; [intros [= <- <-]; by apply step_refl|].
  destruct (RenameBranch_spec _ _ _ _ _ E1 E2) as (hv' & -> & Hh & Hl). intros [= <- <-].
  split; [split; simpl|done|done].
  - intros k b h'. rewrite Hh. unfold upd.
    repeat case_decide; intros E; simplify_eq; by eapply wf_heads.
  - intros k vs. rewrite Hl. by apply (wf_latest _ Hw).
Qed.

Lemma Delete_step w key b ec w' :
  worker_wf w -> Delete w key b = (ec, w') -> step_ok w ec w'.
Proof.
  intros Hw. unfold Delete. destruct (negb _); intros [= <- <-]; [by apply step_refl|].
  split; [split; simpl|done|done].
  - intros k' b' h'. rewrite RemoveBranch_heads. unfold upd.
    case_decide; intros E; simplify_eq; by eapply wf_heads.
  - intros k vs. rewrite RemoveBranch_latest. by apply (wf_latest _ Hw).
Qed.

Lemma exec_step w op ec ver w' :
  puts_succeed (St := St) -> worker_wf w -> op_wf op ->
  exec w op = Some (ec, ver, w') -> step_ok w ec w'.
Proof.
  intros Hp Hw Wo E. destruct op; simpl in Wo, E.
  - by apply Put_prev_step in E as [? _].
  - by apply Put_at_step in E.
  - apply Put_at_step in E; [done..|]. by apply head_wf.
  - destruct Wo. by apply Merge_vers_step in E as [? _].
  - by apply Merge_ver_step in E.
  - unfold Merge_branch in E. pose proof (head_wf w key ref_branch Hw) as Wb.
    destruct (GetBranch _ key ref_branch) as [[|] r]; simpl in *; [by apply Merge_ver_step in E|].
    simplify_eq. by apply step_refl.
  - apply bind_Some in E as ([[ec1 h1] st] & E1 & E). simplify_eq. apply PutUnkeyed_grows in E1.
    split; [by eapply wf_store|done|done].
  - destruct (Branch_ver w key _ _) as [ec1 w1] eqn:E1. injection E as <- <- <-. by apply Branch_ver_step in E1.
  - destruct (Branch w key _ _) as [ec1 w1] eqn:E1. injection E as <- <- <-. unfold Branch in E1.
    pose proof (head_wf w key old_branch Hw) as Wb.
    destruct (GetBranch _ key old_branch) as [[|] r]; simpl in *; [by apply Branch_ver_step in E1|].
    simplify_eq. by apply step_refl.
  - apply fmap_Some in E as ([ec1 w1] & E1 & E). injection E as -> -> ->. by apply Rename_step in E1.
  - destruct (Delete w key _) as [ec1 w1] eqn:E1. injection E as <- <- <-. by apply Delete_step in E1.
Qed.

Lemma reach_ok w w' : puts_succeed (St := St) -> worker_wf w -> reach w w' ->
  worker_wf w' /\ grows (w_store w) (w_store w').
Proof.
  intros Hp Hw R. induction R as [|w1 op ec ver w2 R [IHw IHg] Wo E]; [done|].
  apply exec_step in E as [S1 S2 _]; [|done..]. split; [done|]. by etransitivity.
Qed.

(** ** Strings *)

(** The version that writing the string value [val] on top of [p1], [p2] makes. *)
Definition string_version key (val : Value) (p1 : bytes) (p2 : Hash) : Version :=
  mkVer UString key (default [] (head (val_vals val))) (val_ctx val) p1 p2.

Lemma WriteUCell_string w key val p1 p2 :
  let v := string_version key val p1 p2 in
  val_type val = UString -> CheckString val = kOK -> ver_ok v ->
  exists w', new_version w (w_store w) v w' /\
    WriteUCell params fuel w key val (Some p1) p2 = Some (kOK, Some (ver_hash v), w').
Proof.
  intros v Ht Hc Hv. unfold WriteUCell. rewrite Ht, Hc.
  assert (exists d, val_vals val = [d]) as [d Hd].
  { unfold CheckString in Hc. destruct (hash_empty _); [|done].
    destruct (val_vals val) as [|d [|]]; eauto; done. }
  subst v. unfold string_version in *. rewrite Hd in *. simpl in *.
  destruct (CreateUCell_rep w _ (w_store w) Hv) as (w' & Hn & E); [done|].
  exists w'. split; [done|]. destruct w. exact E.
Qed.

(** Reading a version that was just written; the hash is not taken by other content. *)
Lemma new_version_Get w st v w' :
  puts_succeed (St := St) -> new_version w st v w' ->
  (forall c, contents st !! Some (ver_hash v) = Some c -> chunk_rep c kCell (ver_payload v)) ->
  exists u, Get_ver w' (v_key v) (Some (ver_hash v)) = Some (kOK, u) /\ cell_rep u v.
Proof.
  intros Hp Hn Hc. destruct (nv_stored _ _ _ _ Hp Hn) as [c E]. pose proof (nv_ok _ _ _ _ Hn) as Hv.
  destruct (UCell_of_chunk_rep c v Hv (nv_chunk _ _ _ _ Hn Hc _ E)) as (n & HL & _ & Hr).
  exists (Some n). split; [|done]. unfold Get_ver, UCell_Load. rewrite Get_spec, E. simpl.
  rewrite HL. osimpl. rewrite (ce_key _ _ Hr). osimpl.
  by rewrite slice_eq_spec, bool_decide_true by done.
Qed.

(** ** The guarantees *)

(** C4.  Whatever sequence of operations runs on a worker that starts without
    keys, whether they succeed or fail: the head of every branch, as
    [GetBranchHead] returns it, exists in the store; every known key has at
    least one latest version, and all its latest versions exist in the store. *)
Theorem worker_invariant (hv0 : HV) (st0 : St) w :
  puts_succeed (St := St) ->
  (forall k b, heads hv0 k b = None) -> (forall k, latest hv0 k = None) ->
  reach (mkWorker hv0 st0) w ->
  (forall k b h, GetBranchHead w k b = (kOK, h) -> Exists_ver w h = true) /\
  (forall k, snd (Worker_Exists w k) = true -> snd (GetLatestVersions w k) <> []) /\
  (forall k h, h ∈ snd (GetLatestVersions w k) -> Exists_ver w h = true).
Proof.
  intros Hp Hh Hl R. apply reach_ok in R as [[Wh Wl] _]; [|done|].
  2:{ split; simpl; [intros k b h E; by rewrite Hh in E|intros k vs E; by rewrite Hl in E]. }
  unfold GetBranchHead, Exists_ver, GetLatestVersions, Worker_Exists. simpl. split_and!.
  - intros k b h. rewrite GetBranch_spec. destruct (heads _ k b) as [h'|] eqn:E; [|done].
    intros [= <-]. rewrite Exists_spec. apply bool_decide_eq_true. by apply Wh in E as [_ ?].
  - intros k. rewrite ExistsKey_spec. intros [vs E]%bool_decide_eq_true. destruct (Wl _ _ E) as [N _].
    intros Hn. apply N. apply leibniz_equiv, elements_empty_inv.
    pose proof (GetLatest_spec (head_ver_ w) k) as HG. rewrite Hn, E in HG. simpl in HG.
    by apply Permutation_nil.
  - intros k h. rewrite GetLatest_spec, elem_of_elements. rewrite Exists_spec.
    destruct (latest _ k) as [vs|] eqn:E; [|simpl; set_solver]. simpl. intros Hin.
    apply bool_decide_eq_true. by apply (Wl _ _ E).
Qed.

(** Versions are immutable: no operation, whether it succeeds or not, changes
    what a version that exists reads as, nor any chunk of the store. This
    follows from the contract of the storage, which never overwrites. *)
Theorem versions_immutable w w' :
  puts_succeed (St := St) -> worker_wf w -> reach w w' ->
  forall ver, Exists_ver w ver = true ->
    Exists_ver w' ver = true /\ Worker_GetChunk w' ver = Worker_GetChunk w ver /\
    forall key, Get_ver w' key ver = Get_ver w key ver.
Proof.
  intros Hp Hw R ver. apply reach_ok in R as [_ G]; [|done..]. unfold Exists_ver.
  rewrite !Exists_spec. intros [c Hc]%bool_decide_eq_true.
  pose proof (lookup_weaken _ _ _ _ Hc G) as Hc'.
  unfold Worker_GetChunk, Get_ver, UCell_Load. rewrite !Get_spec, Hc, Hc'. simpl.
  by split_and!.
Qed.

(** C28.  An operation that returns an error leaves every branch, the latest
    versions and the set of keys as they were; at most chunks are added. *)
Theorem failed_operation_frame w op ec ver w' :
  puts_succeed (St := St) -> worker_wf w -> op_wf op ->
  exec w op = Some (ec, ver, w') -> ec <> kOK ->
  head_ver_ w' = head_ver_ w /\ forall h, Exists_ver w h = true -> Exists_ver w' h = true.
Proof.
  intros Hp Hw Wo E Hec. apply exec_step in E as [_ G F]; [|done..]. split; [by apply F|].
  intros h. unfold Exists_ver. rewrite !Exists_spec, !bool_decide_eq_true. intros S.
  by eapply stored_grows.
Qed.

(** The head of a branch can be built upon. *)
Lemma head_known w key branch :
  worker_wf w -> let h := snd (GetBranch (head_ver_ w) key branch) in
  hash_eq h hash_kNull || Exists_ver w h = true.
Proof.
  intros Hw. rewrite GetBranch_spec. destruct (heads _ key branch) as [h|] eqn:E; simpl; [|done].
  unfold Exists_ver. rewrite Exists_spec, orb_true_iff, bool_decide_eq_true. right.
  by apply (wf_heads _ Hw) in E as [_ ?].
Qed.

Lemma slice_nonempty (b : Slice) : b <> [] -> slice_empty b = false.
Proof. by destruct b. Qed.

(** What the tables say after a version was written and a branch moved to it. *)
Lemma moved_tables w st v w' branch :
  new_version w st v w' ->
  let w'' := set_head w' (PutBranch (head_ver_ w') (v_key v) branch (Some (ver_hash v))) in
  (forall k b, GetBranchHead w'' k b
     = if decide (k = v_key v /\ b = branch) then (kOK, Some (ver_hash v)) else GetBranchHead w k b) /\
  (forall k h, snd (IsLatestVersion w'' k h) = true <->
     (k = v_key v /\ (h = Some (ver_hash v) \/
        h <> Some (v_prev1 v) /\ (v_prev2 v = None \/ h <> v_prev2 v) /\
        snd (IsLatestVersion w k h) = true)) \/
     (k <> v_key v /\ snd (IsLatestVersion w k h) = true)).
Proof.
  intros Hn w''. split.
  - intros k b. subst w''. unfold GetBranchHead. simpl. rewrite !GetBranch_spec, PutBranch_heads,
      ver_hash_Clone, (nv_head _ _ _ _ Hn). unfold upd. case_decide; [done|]. by rewrite PutLatest_heads.
  - intros k h. subst w''. unfold IsLatestVersion. simpl. rewrite !IsLatest_spec, PutBranch_latest,
      (nv_head _ _ _ _ Hn), PutLatest_latest, ver_hash_Clone, !bool_decide_eq_true.
    case_decide as Hd; [subst k|naive_solver]. unfold hash_empty.
    case_bool_decide as Hp2; simpl; set_solver.
Qed.

(** C6.  Putting a string on a branch of any reachable state succeeds and the
    branch then reads the new version: the same key, data and context, on top
    of the version the branch pointed to (or [Hash::kNull]). Exactly this
    branch has moved, the new version is a latest version of its key and its
    predecessor is not; all other branches, keys and latest versions are as
    before. The branch name is not empty, the key has fewer than 2^16 bytes and
    data and context have fewer than 2^15 bytes each, the value is a plain
    string, writes succeed, and the hash of the version is not taken by other
    content. *)
Theorem put_then_get w key val branch p :
  puts_succeed (St := St) -> worker_wf w ->
  val_type val = UString -> CheckString val = kOK -> branch <> [] ->
  snd (GetBranch (head_ver_ w) key branch) = Some p ->
  let v := string_version key val p None in
  ver_ok v -> ver_readable v ->
  (forall c, contents (w_store w) !! Some (ver_hash v) = Some c -> chunk_rep c kCell (ver_payload v)) ->
  exists w' u,
    Put_branch params fuel w key val branch = Some (kOK, Some (ver_hash v), w') /\
    Get_branch w' key branch = Some (kOK, u) /\
    ucell_type u = Some UString /\ ucell_key u = Some key /\
    ucell_data u = head (val_vals val) /\ ucell_context u = Some (val_ctx val) /\
    ucell_preHash u false = Some (Some p) /\ ucell_preHash u true = Some None /\
    (forall k b, GetBranchHead w' k b
       = if decide (k = key /\ b = branch) then (kOK, Some (ver_hash v)) else GetBranchHead w k b) /\
    (forall k h, snd (IsLatestVersion w' k h) = true <->
       (k = key /\ (h = Some (ver_hash v) \/
                     h <> Some p /\ snd (IsLatestVersion w k h) = true)) \/
       (k <> key /\ snd (IsLatestVersion w k h) = true)).
Proof.
  intros Hp Hw Ht Hc Hb Hh v Hv Hr Hnc.
  destruct (WriteUCell_string w key val p None Ht Hc Hv) as (w1 & Hn & E).
  destruct (new_version_Get _ _ _ _ Hp Hn Hnc) as (u & Hg & Hu).
  destruct (moved_tables _ _ _ _ branch Hn) as [HB HL].
  pose proof (head_known w key branch Hw) as Hk. simpl in Hk. rewrite Hh in Hk.
  eexists _, u. split.
  { unfold Put_branch, Put_at, Put_prev. rewrite Hh, Hk, E. osimpl.
    rewrite bool_decide_true, slice_nonempty by done. reflexivity. }
  assert (Hd : head (val_vals val) = Some (v_data v)).
  { unfold CheckString in Hc. destruct (hash_empty _); [|done]. subst v. simpl.
    by destruct (val_vals val) as [|d [|]]. }
  rewrite Hd. split_and!; try apply Hu; try done.
  - unfold Get_branch. simpl. rewrite GetBranch_spec, PutBranch_heads, upd_eq, ver_hash_Clone. exact Hg.
  - intros k h. rewrite HL. subst v. simpl. naive_solver.
Qed.

(** Merging a string into a branch makes a version with two
    predecessors, the heads of the two branches; the target branch moves to
    it, the referred branch and all others stay, and both predecessors stop
    being latest versions. *)
Theorem merge_then_get w key val tgt ref p1 p2 :
  puts_succeed (St := St) -> worker_wf w ->
  val_type val = UString -> CheckString val = kOK ->
  GetBranchHead w key tgt = (kOK, Some p1) -> GetBranchHead w key ref = (kOK, Some p2) ->
  let v := string_version key val p1 (Some p2) in
  ver_ok v -> ver_readable v ->
  (forall c, contents (w_store w) !! Some (ver_hash v) = Some c -> chunk_rep c kCell (ver_payload v)) ->
  exists w' u,
    Merge_branch params fuel w key val tgt ref = Some (kOK, Some (ver_hash v), w') /\
    Get_branch w' key tgt = Some (kOK, u) /\
    ucell_data u = head (val_vals val) /\ ucell_context u = Some (val_ctx val) /\
    ucell_preHash u false = Some (Some p1) /\ ucell_preHash u true = Some (Some p2) /\
    (forall k b, GetBranchHead w' k b
       = if decide (k = key /\ b = tgt) then (kOK, Some (ver_hash v)) else GetBranchHead w k b) /\
    (forall h, snd (IsLatestVersion w' key h) = true <-> h = Some (ver_hash v) \/
       h <> Some p1 /\ h <> Some p2 /\ snd (IsLatestVersion w key h) = true).
Proof.
  intros Hp Hw Ht Hc B1 B2 v Hv Hr Hnc.
  destruct (WriteUCell_string w key val p1 (Some p2) Ht Hc Hv) as (w1 & Hn & E).
  destruct (new_version_Get _ _ _ _ Hp Hn Hnc) as (u & Hg & Hu).
  destruct (moved_tables _ _ _ _ tgt Hn) as [HB HL].
  assert (Hhead : forall b p, GetBranchHead w key b = (kOK, Some p) ->
    GetBranch (head_ver_ w) key b = (true, Some p) /\ Exists_ver w (Some p) = true).
  { intros b p. unfold GetBranchHead. rewrite GetBranch_spec.
    destruct (heads _ key b) as [h|] eqn:Eh; [|done]. intros [= ->]. split; [done|].
    unfold Exists_ver. rewrite Exists_spec. apply bool_decide_eq_true. by apply (wf_heads _ Hw) in Eh as [_ ?]. }
  destruct (Hhead _ _ B1) as [G1 X1]. destruct (Hhead _ _ B2) as [G2 X2].
  eexists _, u. split.
  { unfold Merge_branch, Merge_ver, Merge_vers. rewrite G2. simpl. rewrite G1. simpl.
    rewrite X1, X2. simpl. rewrite E. osimpl. by rewrite bool_decide_true by done. }
  assert (Hd : head (val_vals val) = Some (v_data v)).
  { unfold CheckString in Hc. destruct (hash_empty _); [|done]. subst v. simpl.
    by destruct (val_vals val) as [|d [|]]. }
  rewrite Hd. split_and!; try apply Hu; try done.
  - unfold Get_branch. simpl. rewrite GetBranch_spec, PutBranch_heads, upd_eq, ver_hash_Clone. exact Hg.
  - intros h. rewrite HL. subst v. simpl. naive_solver.
Qed.

End Versions.

(** ** Witnesses: a worker over an empty store *)

Section Witnesses.
#[local] Existing Instances plain_hash zeroed map_store map_store_spec merge_std_sort.

Abbreviation W := (Worker SimpleHeadVersion (gmap Hash Chunk)).

Definition empty_worker : W := mkWorker empty_hv ∅.
Definition any_params (k : NodeKind) : ChunkerParams := small_params.
Definition sample_value : Value := mkValue UString None 0 0 [[x01; x02]] [] [x63].
Definition zero_hash : bytes := replicate 20 x00.
Definition first_version : Version := string_version [x6b] sample_value zero_hash None.

Lemma map_puts_succeed : puts_succeed (St := gmap Hash Chunk).
Proof. done. Qed.

Lemma empty_worker_wf : worker_wf empty_worker.
Proof.
  split; simpl.
  - intros k b h. unfold shv_at. simpl. by rewrite lookup_empty.
  - intros k vs. by rewrite lookup_empty.
Qed.

Lemma empty_no_branch k b : GetBranch empty_hv k b = (false, hash_kNull).
Proof. simpl. unfold shv_GetBranch, shv_Exists. simpl. by rewrite lookup_empty. Qed.

Lemma first_version_ok : ver_ok first_version /\ ver_readable first_version.
Proof. split; [constructor; by vm_compute|by vm_compute]. Qed.

(** One branch with one version. *)
Lemma sample_put : exists w : W,
  exec any_params 0 empty_worker (OpPutBranch [x6b] sample_value [x6d])
    = Some (kOK, Some (ver_hash first_version), w) /\
  GetBranchHead w [x6b] [x6d] = (kOK, Some (ver_hash first_version)) /\
  forall h, h <> Some (ver_hash first_version) -> w_store w !! h = None.
Proof.
  destruct (WriteUCell_string any_params 0 empty_worker [x6b] sample_value zero_hash None)
    as (w1 & Hn & E); [done|done|apply first_version_ok|].
  exists (set_head w1 (PutBranch (head_ver_ w1) [x6b] [x6d] (Some (ver_hash first_version)))).
  split_and!.
  - cbn [exec]. unfold Put_branch, Put_at. cbn [head_ver_ empty_worker].
    rewrite empty_no_branch. unfold Put_prev. cbn [snd].
    change (hash_eq hash_kNull hash_kNull) with true. cbn [orb].
    change hash_kNull with (Some zero_hash). rewrite E. reflexivity.
  - destruct (moved_tables _ _ _ _ [x6d] Hn) as [HB _]. rewrite HB.
    destruct (decide _) as [_|Hd]; [reflexivity|]. exfalso. apply Hd. split; reflexivity.
  - intros h Hh. destruct (nv_store _ _ _ _ Hn) as (c & Hst & _).
    cbn [set_head w_store]. rewrite Hst. cbn [cs_Put map_store snd].
    destruct (decide _); [apply lookup_empty|]. rewrite lookup_insert_ne; [apply lookup_empty|].
    intros E'. apply Hh. by rewrite <- E'.
Qed.

Lemma sample_reach : exists w : W,
  reach any_params 0 empty_worker w /\ worker_wf w /\
  GetBranchHead w [x6b] [x6d] = (kOK, Some (ver_hash first_version)) /\
  forall h, h <> Some (ver_hash first_version) -> w_store w !! h = None.
Proof.
  destruct sample_put as (w & E & Hh & Hs).
  assert (R : reach any_params 0 empty_worker w)
    by (eapply reach_op; [apply reach_start| |exact E]; done).
  exists w. split_and!; [exact R| |exact Hh|exact Hs].
  by eapply reach_ok; [apply map_puts_succeed|apply empty_worker_wf|].
Qed.

Lemma worker_invariant_witness : exists w : W,
  reach any_params 0 empty_worker w /\
  (forall k b h, GetBranchHead w k b = (kOK, h) -> Exists_ver w h = true) /\
  (forall k, snd (Worker_Exists w k) = true -> snd (GetLatestVersions w k) <> []) /\
  (forall k h, h ∈ snd (GetLatestVersions w k) -> Exists_ver w h = true).
Proof.
  destruct sample_reach as (w & R & _). exists w. split; [exact R|].
  eapply worker_invariant; [apply map_puts_succeed| | |exact R].
  - intros k b. simpl. unfold shv_at. simpl. by rewrite lookup_empty.
  - intros k. simpl. by rewrite lookup_empty.
Defined.

Lemma versions_immutable_witness : exists w : W,
  reach any_params 0 empty_worker w /\
  exists ver, Exists_ver w ver = true /\
  forall w' : W, reach any_params 0 w w' -> forall key, Get_ver w' key ver = Get_ver w key ver.
Proof.
  destruct sample_reach as (w & R & Hw & Hh & _). exists w. split; [exact R|].
  assert (He : Exists_ver w (Some (ver_hash first_version)) = true).
  { unfold GetBranchHead in Hh. rewrite GetBranch_spec in Hh.
    destruct (heads _ _ _) as [h|] eqn:E; [|done]. injection Hh as ->.
    unfold Exists_ver. rewrite Exists_spec. apply bool_decide_eq_true. apply (wf_heads _ Hw _ _ _ E). }
  eexists. split; [exact He|]. intros w' R'.
  exact (proj2 (proj2 (versions_immutable any_params 0 w w' map_puts_succeed Hw R' _ He))).
Defined.

Lemma failed_operation_frame_witness :
  let r := Delete empty_worker [x6b] [x6d] in
  fst r = kBranchNotExists /\ head_ver_ (snd r) = head_ver_ empty_worker.
Proof.
  assert (E : Delete empty_worker [x6b] [x6d] = (kBranchNotExists, empty_worker)).
  { unfold Delete. cbn [head_ver_ empty_worker ExistsBranch simple_hv]. unfold shv_Exists. simpl.
    by rewrite lookup_empty. }
  cbv zeta. rewrite E. split; [done|]. cbn [snd].
  apply (failed_operation_frame any_params 0 empty_worker (OpDelete [x6b] [x6d]) kBranchNotExists None);
    [apply map_puts_succeed|apply empty_worker_wf|done| |done].
  cbn [exec]. by rewrite E.
Defined.

Lemma put_then_get_witness : exists w' u,
  Put_branch any_params 0 empty_worker [x6b] sample_value [x6d]
    = Some (kOK, Some (ver_hash first_version), w') /\
  Get_branch w' [x6b] [x6d] = Some (kOK, u) /\
  ucell_data u = Some [x01; x02] /\ ucell_preHash u false = Some (Some zero_hash).
Proof.
  destruct (put_then_get any_params 0 empty_worker [x6b] sample_value [x6d] zero_hash)
    as (w' & u & E & G & _ & _ & D & _ & P & _);
    [apply map_puts_succeed|apply empty_worker_wf|done|done|done| |apply first_version_ok..| |].
  - cbn [head_ver_ empty_worker]. by rewrite empty_no_branch.
  - intros c. cbn [contents map_store_spec w_store empty_worker]. by rewrite lookup_empty.
  - exists w', u. split_and!; [exact E|exact G|exact D|exact P].
Defined.

Definition other_value : Value := mkValue UString None 0 0 [[x09]] [] [].

Lemma merge_then_get_witness : exists (w w' : W) u,
  Merge_branch any_params 0 w [x6b] other_value [x6d] [x6d]
    = Some (kOK, Some (ver_hash (string_version [x6b] other_value (ver_hash first_version)
                                   (Some (ver_hash first_version)))), w') /\
  Get_branch w' [x6b] [x6d] = Some (kOK, u) /\ ucell_data u = Some [x09].
Proof.
  destruct sample_reach as (w & R & Hw & Hh & Hs). exists w.
  destruct (merge_then_get any_params 0 w [x6b] other_value [x6d] [x6d] (ver_hash first_version)
    (ver_hash first_version)) as (w' & u & E & G & D & _);
    [apply map_puts_succeed|exact Hw|done|done|exact Hh|exact Hh| | | |].
  - constructor; [by vm_compute|intros h Eh; injection Eh as <-; apply length_ComputeFrom|by vm_compute..].
  - by vm_compute.
  - intros c. cbn [contents map_store_spec]. rewrite Hs; [done|]. by vm_compute.
  - exists w', u. split_and!; [exact E|exact G|exact D].
Defined.

End Witnesses.
