(* ===== verification/History.v ===== *)
(** * Branches and histories

    Two abstract views of the worker.  The branch operations refine operations
    on a plain table of heads.  The latest versions of a key are the versions
    of its history that no other version refers to, both while the worker runs
    and after a restart, when they are rebuilt from the chunks of the store. *)

From S2P Require Import Prelude Types Slice HashVal Chunk RollingHash Node Chunker.
From S2P Require Import Store Cursor Builder Advanced Objects Cell HeadVersion Worker Grow WorkerProps.

(** ** The table of heads *)

Abbreviation Table := (Slice -> Slice -> option Hash).

Inductive TableOp :=
  | TBranch (key old_branch new_branch : Slice)
  | TBranchVer (key : Slice) (ver : Hash) (new_branch : Slice)
  | TRename (key old_branch new_branch : Slice)
  | TDelete (key branch : Slice).

(** What the operations promise: [known] are the versions of the store. *)
Definition table_step (t : Table) (known : Hash -> bool) (op : TableOp) : ErrorCode * Table :=
  match op with
  | TBranch k old new =>
      match t k old, t k new with
      | None, _ => (kBranchNotExists, t)
      | Some _, Some _ => (kBranchExists, t)
      | Some h, None => if known h then (kOK, upd t k new (Some h)) else (kReferringVersionNotExist, t)
      end
  | TBranchVer k h new =>
      match t k new with
      | Some _ => (kBranchExists, t)
      | None => if known h then (kOK, upd t k new (Some h)) else (kReferringVersionNotExist, t)
      end
  | TRename k old new =>
      match t k old, t k new with
      | None, _ => (kBranchNotExists, t)
      | Some _, Some _ => (kBranchExists, t)
      | Some h, None => (kOK, upd (upd t k new (Some h)) k old None)
      end
  | TDelete k b => match t k b with None => (kBranchNotExists, t) | Some _ => (kOK, upd t k b None) end
  end.

(** ** Events of a history *)

(** A version of [ev_key] was written on top of one or two others. *)
Record Event := mkEvent { ev_key : Slice; ev_prev1 : Hash; ev_prev2 : Hash; ev_ver : Hash }.

Definition ev_refs (e : Event) : list Hash :=
  ev_prev1 e :: if hash_empty (ev_prev2 e) then [] else [ev_prev2 e].

(** The versions that no version of the key refers to. *)
Definition maximal (evs : list Event) (k : Slice) (h : Hash) : Prop :=
  (exists e, e ∈ evs /\ ev_key e = k /\ ev_ver e = h) /\
  ~ exists e, e ∈ evs /\ ev_key e = k /\ h ∈ ev_refs e.

(** No version is referred to before or when it is written. *)
Fixpoint causal_after (evs later : list Event) : Prop :=
  match later with
  | [] => True
  | e :: later' =>
      Forall (fun e' => ev_key e' = ev_key e -> ev_ver e ∉ ev_refs e') (evs ++ [e]) /\
      causal_after (evs ++ [e]) later'
  end.
Definition causal (evs : list Event) : Prop := causal_after [] evs.

Section History.
Context `{HashFunction} `{Uninit} `{StdSort}.
Context {St : Type} `{ChunkStoreSpec St} {HV : Type} `{HeadVersionSpec HV}.
Variable (params : NodeKind -> ChunkerParams) (fuel : nat).
Implicit Types (w : Worker HV St) (hv : HV) (key branch : Slice).

Definition put_event hv (e : Event) : HV :=
  PutLatest hv (ev_key e) (ev_prev1 e) (ev_prev2 e) (ev_ver e).

(** [PutLatest] on the members of the table. *)
Lemma PutLatest_elem hv e k h : hash_wf (ev_ver e) ->
  h ∈ default ∅ (latest (put_event hv e) k) <->
  (k = ev_key e /\ h = ev_ver e) \/
  (h ∈ default ∅ (latest hv k) /\ ~ (k = ev_key e /\ h ∈ ev_refs e)).
Proof.
  intros Hw. unfold put_event. rewrite PutLatest_latest, hash_Clone_wf by done. unfold ev_refs.
  case_decide as Hd; [subst k|naive_solver]. simpl. destruct (hash_empty _); set_solver.
Qed.

Lemma latest_maximal evs : forall done_ hv,
  Forall (fun e => hash_wf (ev_ver e)) evs -> causal_after done_ evs ->
  (forall k h, h ∈ default ∅ (latest hv k) <-> maximal done_ k h) ->
  forall k h, h ∈ default ∅ (latest (foldl put_event hv evs) k)
    <-> maximal (done_ ++ evs) k h.
Proof.
  induction evs as [|e evs IH]; intros done_ hv Hw Hc Hm k h.
  { rewrite app_nil_r. apply Hm. }
  apply Forall_cons in Hw as [We Hw]. destruct Hc as [Hc1 Hc].
  rewrite cons_middle, app_assoc. cbn [foldl]. apply IH; [done|done|]. clear k h IH Hc Hw.
  intros k h. rewrite (PutLatest_elem hv e k h We), Hm. unfold maximal.
  rewrite Forall_forall in Hc1. split.
  - intros [[-> ->]|[[(e' & Hin & Hk & Hv) Hn] Hne]].
    + split; [exists e; set_solver|]. intros (e' & Hin & Hk & Hr). by apply (Hc1 e').
    + split; [exists e'; set_solver|]. intros (e'' & [Hin''|Hin'']%elem_of_app & Hk' & Hr).
      * apply Hn. eauto.
      * apply list_elem_of_singleton in Hin'' as ->. by apply Hne.
  - intros [(e' & [Hin|Hin]%elem_of_app & Hk & Hv) Hn].
    + right. split; [split; [eauto|]|].
      * intros (e'' & Hin'' & Hk' & Hr). apply Hn. exists e''. set_solver.
      * intros [-> Hr]. apply Hn. exists e. set_solver.
    + apply list_elem_of_singleton in Hin as ->. by left.
Qed.

(** The event of an operation: the key and the versions it writes on top of. *)
Definition op_refs w (op : Op) : option (Slice * Hash * Hash) :=
  let head_of k b := snd (GetBranch (head_ver_ w) k b) in
  match op with
  | OpPut k _ p | OpPutAt k _ _ p => Some (k, p, None)
  | OpPutBranch k _ b => Some (k, head_of k b, None)
  | OpMerge k _ h1 h2 => Some (k, h1, h2)
  | OpMergeVer k _ b h => Some (k, head_of k b, h)
  | OpMergeBranch k _ b1 b2 => Some (k, head_of k b1, head_of k b2)
  | _ => None
  end.

Definition op_event w (op : Op) (ec : ErrorCode) (ver : Hash) : list Event :=
  match ec, op_refs w op with
  | kOK, Some (k, p1, p2) => [mkEvent k p1 p2 ver]
  | _, _ => []
  end.

(** Running a sequence of operations, with the history it makes. *)
Fixpoint run w (ops : list Op) : option (list Event * Worker HV St) :=
  match ops with
  | [] => Some ([], w)
  | op :: ops' =>
      r ← exec params fuel w op;
      let '(ec, ver, w1) := r in
      r' ← run w1 ops';
      Some (op_event w op ec ver ++ fst r', snd r')
  end.

(** The effect of a write of [key] on top of [p1], [p2] on the latest versions. *)
Definition event_ok w key p1 p2 (r : ErrorCode * Hash * Worker HV St) : Prop :=
  let '(ec, ver, w') := r in
  let evs := match ec with kOK => [mkEvent key p1 p2 ver] | _ => [] end in
  (forall k, latest (head_ver_ w') k = latest (foldl put_event (head_ver_ w) evs) k) /\
  Forall (fun e => hash_wf (ev_ver e)) evs.

Lemma event_error w key p1 p2 ec ver : ec <> kOK -> event_ok w key p1 p2 (ec, ver, w).
Proof. intros Hec. unfold event_ok. by destruct ec. Qed.

(** Moving a branch does not touch them. *)
Lemma event_PutBranch w key p1 p2 ec ver w' k b h (move : bool) :
  event_ok w key p1 p2 (ec, ver, w') ->
  event_ok w key p1 p2 (ec, ver, if move then set_head w' (PutBranch (head_ver_ w') k b h) else w').
Proof.
  intros [Hl Hw]. split; [|done]. intros k'. destruct move; [|by apply Hl]. simpl.
  rewrite PutBranch_latest. apply Hl.
Qed.

Lemma WriteUCell_event w key val p1 p2 r :
  WriteUCell params fuel w key val p1 p2 = Some r -> hash_wf p1 -> hash_wf p2 ->
  event_ok w key p1 p2 r.
Proof.
  destruct r as [[ec ver] w']. intros E W1 W2.
  apply WriteUCell_inv in E as [(Hec & -> & Hh & _)|(st & v & Hn & -> & -> & <- & -> & ->)];
    [| |done..].
  - split; [|by destruct ec]. intros k. rewrite Hh. by destruct ec.
  - split; [|apply Forall_singleton, ver_hash_wf]. intros k. by rewrite (nv_head _ _ _ _ Hn).
Qed.

Lemma Put_at_event w key val b p r :
  Put_at params fuel w key val b p = Some r -> hash_wf p -> event_ok w key p None r.
Proof.
  intros E Wp. unfold Put_at in E. apply bind_Some in E as ([[ec ver] w1] & E1 & E).
  apply (inj Some) in E as <-. apply event_PutBranch. unfold Put_prev in E1.
  destruct (_ || _); [by eapply WriteUCell_event|]. simplify_eq. by apply event_error.
Qed.

Lemma Merge_vers_event w key val h1 h2 r :
  Merge_vers params fuel w key val h1 h2 = Some r -> hash_wf h1 -> hash_wf h2 ->
  event_ok w key h1 h2 r.
Proof.
  intros E W1 W2. unfold Merge_vers in E. destruct (_ && _); [by eapply WriteUCell_event|].
  simplify_eq. by apply event_error.
Qed.

Lemma Merge_ver_event w key val b h r :
  worker_wf w -> Merge_ver params fuel w key val b h = Some r -> hash_wf h ->
  event_ok w key (snd (GetBranch (head_ver_ w) key b)) h r.
Proof.
  intros Hw E Wh. unfold Merge_ver in E. pose proof (head_wf w key b Hw) as Wb.
  destruct (GetBranch _ key b) as [[|] tgt]; simpl in *.
  - apply bind_Some in E as ([[ec ver] w1] & E1 & E). apply (inj Some) in E as <-.
    apply event_PutBranch. by eapply Merge_vers_event.
  - simplify_eq. by apply event_error.
Qed.

(** Operations that write no version leave the latest versions alone. *)
Lemma Branch_ver_latest w key h b k :
  latest (head_ver_ (snd (Branch_ver w key h b))) k = latest (head_ver_ w) k.
Proof.
  unfold Branch_ver. destruct (ExistsBranch _ _ _); [done|]. destruct (Exists_ver _ _); [|done].
  apply PutBranch_latest.
Qed.

Lemma Rename_latest w key b1 b2 ec w' k :
  Rename w key b1 b2 = Some (ec, w') -> latest (head_ver_ w') k = latest (head_ver_ w) k.
Proof.
  rewrite Rename_total. destruct (heads _ key b1) as [h|] eqn:E1; [|by intros [= <- <-]].
  destruct (heads _ key b2) eqn:E2; [by intros [= <- <-]|].
  destruct (RenameBranch_spec _ _ _ _ _ E1 E2) as (hv' & -> & _ & Hl). intros [= <- <-]. apply Hl.
Qed.

(** Each operation changes the latest versions by its event and nothing else. *)
Lemma exec_event w op ec ver w' :
  worker_wf w -> op_wf op -> exec params fuel w op = Some (ec, ver, w') ->
  (forall k, latest (head_ver_ w') k = latest (foldl put_event (head_ver_ w) (op_event w op ec ver)) k) /\
  Forall (fun e => hash_wf (ev_ver e)) (op_event w op ec ver).
Proof.
  intros Hw Wo E. unfold op_event. destruct op; simpl in Wo, E; cbn [op_refs].
  - unfold Put_prev in E. destruct (_ || _); [by apply WriteUCell_event in E|].
    simplify_eq. done.
  - by apply Put_at_event in E.
  - by apply Put_at_event in E; [|apply head_wf].
  - destruct Wo. by apply Merge_vers_event in E.
  - by apply Merge_ver_event in E.
  - unfold Merge_branch in E. pose proof (head_wf w key ref_branch Hw) as Wb.
    destruct (GetBranch _ key ref_branch) as [[|] r]; simpl in *; [by apply Merge_ver_event in E|].
    by simplify_eq.
  - apply bind_Some in E as ([[ec1 h1] st] & E1 & E). simplify_eq. by destruct ec.
  - injection E as <- <- <-. split; [intros k; rewrite Branch_ver_latest|]; by destruct (fst _).
  - injection E as <- <- <-. split; [intros k|by destruct (fst _)].
    unfold Branch. destruct (GetBranch _ _ _) as [[|] h]; simpl; [rewrite Branch_ver_latest|done].
    by destruct (fst _).
  - apply fmap_Some in E as ([ec1 w1] & E1 & E). injection E as -> -> ->.
    split; [intros k; rewrite (Rename_latest _ _ _ _ _ _ k E1)|]; by destruct ec1.
  - injection E as <- <- <-. split; [intros k|by destruct (fst _)].
    unfold Delete. destruct (negb _); simpl; [done|]. apply RemoveBranch_latest.
Qed.

Lemma foldl_put_event_latest evs : forall hv1 hv2,
  (forall k, latest hv1 k = latest hv2 k) ->
  forall k, latest (foldl put_event hv1 evs) k = latest (foldl put_event hv2 evs) k.
Proof.
  induction evs as [|e evs IH]; intros hv1 hv2 E; [done|]. cbn [foldl]. apply IH. intros k.
  unfold put_event. by rewrite !PutLatest_latest, !E.
Qed.

(** A run changes the latest versions by its history and nothing else. *)
Lemma run_events ops : forall w evs w',
  puts_succeed (St := St) -> worker_wf w -> Forall op_wf ops -> run w ops = Some (evs, w') ->
  (forall k, latest (head_ver_ w') k = latest (foldl put_event (head_ver_ w) evs) k) /\
  Forall (fun e => hash_wf (ev_ver e)) evs.
Proof.
  induction ops as [|op ops IH]; intros w evs w' Hp Hw Wo E; cbn [run] in E; [by simplify_eq|].
  apply Forall_cons in Wo as [W1 Wo]. apply bind_Some in E as ([[ec ver] w1] & E1 & E).
  apply bind_Some in E as ([evs2 w2] & E2 & E). injection E as <- <-. cbn [fst snd].
  destruct (exec_event _ _ _ _ _ Hw W1 E1) as [L1 F1].
  apply exec_step in E1 as [Hw1 _ _]; [|done..]. apply IH in E2 as [L2 F2]; [|done..].
  split; [|by apply Forall_app]. intros k. rewrite L2, foldl_app.
  by apply foldl_put_event_latest.
Qed.

(** ** Restart *)

(** The chunks an iterator yields, and the versions of the cells among them. *)
Inductive cells_of : list Chunk -> list Version -> Prop :=
  | cells_nil : cells_of [] []
  | cells_cell c cs v vs : ver_ok v -> chunk_rep c kCell (ver_payload v) ->
      cells_of cs vs -> cells_of (c :: cs) (v :: vs)
  | cells_other c cs vs t : chunk_type c = Some t -> t <> kCell ->
      cells_of cs vs -> cells_of (c :: cs) vs.

Definition ver_event (v : Version) : Event :=
  mkEvent (v_key v) (Some (v_prev1 v)) (v_prev2 v) (Some (ver_hash v)).

Lemma replay_events cs vs : cells_of cs vs -> forall hv,
  replay_cells cs hv = Some (foldl put_event hv (ver_event <$> vs)).
Proof.
  induction 1 as [|c cs v vs Hv Hc _ IH|c cs vs t Ht Hn _ IH]; intros hv; [done|..]; cbn [replay_cells].
  - rewrite (chunk_rep_type _ _ _ Hc). osimpl.
    destruct (UCell_of_chunk_rep c v Hv Hc) as (n & -> & _ & Hr). osimpl. unfold UpdateLatestVersion.
    rewrite (ce_hash _ _ Hr), (ce_prev1 _ _ Hr), (ce_prev2 _ _ Hr), (ce_key _ _ Hr). osimpl.
    apply IH.
  - rewrite Ht. osimpl. destruct t; done || apply IH.
Qed.

(** ** The guarantees *)

(** The operations of the worker that a table operation stands for. *)
Definition exec_table w (op : TableOp) : option (ErrorCode * Worker HV St) :=
  match op with
  | TBranch k old new => Some (Branch w k old new)
  | TBranchVer k h new => Some (Branch_ver w k h new)
  | TRename k old new => Rename w k old new
  | TDelete k b => Some (Delete w k b)
  end.

Definition table_op_wf (op : TableOp) : Prop :=
  match op with TBranchVer _ h _ => hash_wf h | _ => True end.

Lemma Branch_ver_table w key h b :
  hash_wf h -> let r := Branch_ver w key h b in
  let s := table_step (heads (head_ver_ w)) (Exists_ver w) (TBranchVer key h b) in
  fst r = fst s /\ (forall k b', heads (head_ver_ (snd r)) k b' = snd s k b') /\
  w_store (snd r) = w_store w.
Proof.
  intros Wh. simpl. unfold Branch_ver. rewrite ExistsBranch_spec.
  destruct (heads _ key b); simpl; [done|]. destruct (Exists_ver w h); [|done]. simpl.
  split_and!; [done| |done]. intros k b'. by rewrite PutBranch_heads, hash_Clone_wf.
Qed.

(** C11.  The branch operations refine the operations on a plain table of
    heads: none of them throws, each returns exactly the code that the table
    prescribes, changes exactly the entries it prescribes, and touches neither
    the latest versions nor the store. *)
Theorem branch_refinement w op :
  worker_wf w -> table_op_wf op ->
  let s := table_step (heads (head_ver_ w)) (Exists_ver w) op in
  exists w', exec_table w op = Some (fst s, w') /\
    (forall k b, heads (head_ver_ w') k b = snd s k b) /\
    (forall k, latest (head_ver_ w') k = latest (head_ver_ w) k) /\
    w_store w' = w_store w.
Proof.
  intros Hw Wo s. destruct op as [k old new|k h new|k old new|k b].
  - subst s. cbn [exec_table table_step]. unfold Branch. rewrite GetBranch_spec.
    destruct (heads _ k old) as [h|] eqn:E; simpl; [|by eexists].
    destruct (Branch_ver_table w k h new) as (E1 & E2 & E3); [by apply (wf_heads _ Hw) in E as [? _]|].
    pose proof (Branch_ver_latest w k h new) as E4.
    destruct (Branch_ver w k h new) as [ec w']. simpl in *. rewrite <- E1 in *. exists w'.
    destruct (heads _ k new); simpl in *; subst; [done|]. by destruct (Exists_ver w h); simpl in *; subst.
  - destruct (Branch_ver_table w k h new Wo) as (E1 & E2 & E3). pose proof (Branch_ver_latest w k h new) as E4.
    simpl. destruct (Branch_ver w k h new) as [ec w']. subst s. simpl in *. rewrite <- E1.
    exists w'. by split_and!.
  - subst s. simpl. rewrite Rename_total. destruct (heads _ k old) as [h|] eqn:E1; [|by eexists].
    destruct (heads _ k new) eqn:E2; [by eexists|].
    destruct (RenameBranch_spec _ _ _ _ _ E1 E2) as (hv' & -> & Hh & Hl). by eexists.
  - subst s. simpl. unfold Delete. rewrite ExistsBranch_spec. destruct (heads _ k b) eqn:E.
    + rewrite bool_decide_true by eauto. simpl. eexists. split_and!; [done|..|done]; simpl;
        [apply RemoveBranch_heads|apply RemoveBranch_latest].
    + rewrite bool_decide_false by (by intros [? ?]). by eexists.
Qed.

Lemma no_tables_wf hv0 (st0 : St) :
  (forall k b, heads hv0 k b = None) -> (forall k, latest hv0 k = None) ->
  worker_wf (mkWorker hv0 st0).
Proof.
  intros Hh Hl. split; simpl; [intros k b h E; by rewrite Hh in E|intros k vs E; by rewrite Hl in E].
Qed.

(** C5.  The latest versions of a key are exactly the versions of its history
    that no version of the key refers to, after any sequence of operations
    whose history is causal: no version is referred to before it is written. *)
Theorem latest_versions_maximal hv0 (st0 : St) ops evs w :
  puts_succeed (St := St) ->
  (forall k b, heads hv0 k b = None) -> (forall k, latest hv0 k = None) ->
  Forall op_wf ops -> run (mkWorker hv0 st0) ops = Some (evs, w) -> causal evs ->
  forall k h, (h ∈ snd (GetLatestVersions w k) <-> maximal evs k h) /\
              (snd (IsLatestVersion w k h) = true <-> maximal evs k h).
Proof.
  intros Hp Hh Hl Wo E Hc k h.
  apply run_events in E as [L F]; [|done|by apply no_tables_wf|done].
  assert (M : h ∈ default ∅ (latest (head_ver_ w) k) <-> maximal evs k h).
  { rewrite L. apply (latest_maximal evs []); [done|done|]. intros k' h'. simpl. rewrite Hl.
    split; [set_solver|]. intros [(e & Hin & _) _]. by apply elem_of_nil in Hin. }
  unfold GetLatestVersions, IsLatestVersion. simpl.
  rewrite GetLatest_spec, elem_of_elements, IsLatest_spec, bool_decide_eq_true. done.
Qed.

(** C29.  A restart restores the latest versions: replaying the chunks of the
    store, whatever other chunks lie between them, on a worker without tables
    never fails and gives every key the latest versions it had before, provided
    the cells come in the order in which they were written. *)
Theorem restart_restores_latest hv0 (st0 : St) ops w chunks vs hv1 :
  puts_succeed (St := St) ->
  (forall k b, heads hv0 k b = None) -> (forall k, latest hv0 k = None) ->
  (forall k, latest hv1 k = None) ->
  Forall op_wf ops -> run (mkWorker hv0 st0) ops = Some (ver_event <$> vs, w) ->
  cells_of chunks vs ->
  exists hv, replay_cells chunks hv1 = Some hv /\
    (forall k h, IsLatest hv k h = snd (IsLatestVersion w k h)) /\
    (forall k, ExistsKey hv k = snd (Worker_Exists w k)) /\
    (forall k b, heads hv k b = heads hv1 k b).
Proof.
  intros Hp Hh Hl Hl1 Wo E Hc. apply run_events in E as [L _]; [|done|by apply no_tables_wf|done].
  rewrite (replay_events _ _ Hc). eexists. split; [done|].
  assert (L' : forall k, latest (foldl put_event hv1 (ver_event <$> vs)) k = latest (head_ver_ w) k).
  { intros k. rewrite L. apply foldl_put_event_latest. intros k'. simpl. by rewrite Hl, Hl1. }
  unfold IsLatestVersion, Worker_Exists. simpl. split_and!.
  - intros k h. by rewrite !IsLatest_spec, L'.
  - intros k. by rewrite !ExistsKey_spec, L'.
  - intros k b. clear. generalize (ver_event <$> vs). intros evs. revert hv1.
    induction evs as [|e evs IH]; intros hv1; [done|]. cbn [foldl]. rewrite IH. apply PutLatest_heads.
Qed.

(** Writing content that exists already brings a superseded version
    back: after a string, a second one on top of it, and the first one again
    (which has the same hash), the first version is a latest version although
    the second, also a latest version, refers to it. *)
Theorem reput_resurrects w key val1 val2 :
  puts_succeed (St := St) ->
  val_type val1 = UString -> CheckString val1 = kOK ->
  val_type val2 = UString -> CheckString val2 = kOK ->
  let zero := replicate kByteLength x00 in
  let v1 := string_version key val1 zero None in
  let v2 := string_version key val2 (ver_hash v1) None in
  let h1 := Some (ver_hash v1) in let h2 := Some (ver_hash v2) in
  ver_ok v1 -> ver_ok v2 -> h1 <> h2 -> h2 <> hash_kNull ->
  exists w1 w2 w3,
    Put_prev params fuel w key val1 hash_kNull = Some (kOK, h1, w1) /\
    Put_prev params fuel w1 key val2 h1 = Some (kOK, h2, w2) /\
    IsLatestVersion w2 key h1 = (kOK, false) /\
    Put_prev params fuel w2 key val1 hash_kNull = Some (kOK, h1, w3) /\
    IsLatestVersion w3 key h1 = (kOK, true) /\ IsLatestVersion w3 key h2 = (kOK, true).
Proof.
  intros Hp T1 C1 T2 C2 zero v1 v2 h1 h2 O1 O2 Hne Hz.
  destruct (WriteUCell_string params fuel w key val1 zero None T1 C1 O1) as (w1 & N1 & E1).
  destruct (WriteUCell_string params fuel w1 key val2 (ver_hash v1) None T2 C2 O2) as (w2 & N2 & E2).
  destruct (WriteUCell_string params fuel w2 key val1 zero None T1 C1 O1) as (w3 & N3 & E3).
  assert (L2 : forall h, h ∈ default ∅ (latest (head_ver_ w2) key) <->
    h = h2 \/ h ∈ default ∅ (latest (head_ver_ w1) key) /\ h <> h1).
  { intros h. rewrite (nv_head _ _ _ _ N2).
    etransitivity; [apply (PutLatest_elem _ (ver_event v2) key h (ver_hash_wf _))|]. simpl. set_solver. }
  assert (L3 : forall h, h ∈ default ∅ (latest (head_ver_ w3) key) <->
    h = h1 \/ h ∈ default ∅ (latest (head_ver_ w2) key) /\ h <> hash_kNull).
  { intros h. rewrite (nv_head _ _ _ _ N3).
    etransitivity; [apply (PutLatest_elem _ (ver_event v1) key h (ver_hash_wf _))|]. simpl. set_solver. }
  exists w1, w2, w3. unfold Put_prev, IsLatestVersion. rewrite !IsLatest_spec.
  change (hash_eq hash_kNull hash_kNull) with true. cbn [orb].
  assert (X1 : Exists_ver w1 h1 = true).
  { unfold Exists_ver. rewrite Exists_spec. apply bool_decide_eq_true. by apply (nv_stored _ _ _ _ Hp N1). }
  rewrite X1, orb_true_r. split_and!; [exact E1|exact E2| |exact E3|..]; f_equal.
  - apply bool_decide_eq_false. rewrite L2. tauto.
  - apply bool_decide_eq_true. rewrite L3. by left.
  - apply bool_decide_eq_true. rewrite L3, L2. right. split; [by left|done].
Qed.

End History.

(** ** Witnesses *)

Section HistoryWitnesses.
#[local] Existing Instances plain_hash zeroed map_store map_store_spec merge_std_sort.

Abbreviation W := (Worker SimpleHeadVersion (gmap Hash Chunk)).

Lemma branch_refinement_witness : exists w w' : W,
  GetBranchHead w [x6b] [x6d] = (kOK, Some (ver_hash first_version)) /\
  exec_table w (TDelete [x6b] [x6d]) = Some (kOK, w') /\
  heads (head_ver_ w') [x6b] [x6d] = None.
Proof.
  destruct sample_reach as (w & _ & Hw & Hh & _).
  destruct (branch_refinement w (TDelete [x6b] [x6d]) Hw) as (w' & E & Ht & _); [done|].
  assert (Ho : heads (head_ver_ w) [x6b] [x6d] = Some (Some (ver_hash first_version))).
  { unfold GetBranchHead in Hh. rewrite GetBranch_spec in Hh.
    destruct (heads _ _ _); [by injection Hh as ->|done]. }
  cbn [table_step] in E, Ht. rewrite Ho in E, Ht. cbn [fst snd] in E, Ht.
  exists w, w'. split_and!; [exact Hh|exact E|]. rewrite Ht. apply upd_eq.
Defined.

Definition sample_ops : list Op := [OpPutBranch [x6b] sample_value [x6d]].

Lemma sample_run : exists w : W,
  run any_params 0 empty_worker sample_ops = Some (ver_event <$> [first_version], w).
Proof.
  destruct sample_put as (w & E & _). exists w. unfold sample_ops. cbn [run]. rewrite E. osimpl.
  unfold op_event. cbn [op_refs]. cbn [head_ver_ empty_worker]. by rewrite empty_no_branch.
Qed.

Lemma latest_versions_maximal_witness : exists w : W,
  run any_params 0 empty_worker sample_ops = Some ([ver_event first_version], w) /\
  snd (IsLatestVersion w [x6b] (Some (ver_hash first_version))) = true.
Proof.
  destruct sample_run as (w & E). exists w. split; [exact E|].
  apply (latest_versions_maximal any_params 0 empty_hv ∅ sample_ops [ver_event first_version] w);
    [apply map_puts_succeed| | |by repeat constructor|exact E| |].
  - intros k b. simpl. unfold shv_at. simpl. by rewrite lookup_empty.
  - intros k. simpl. by rewrite lookup_empty.
  - split; [|exact I]. apply Forall_singleton. intros _ Hin.
    apply list_elem_of_singleton in Hin. revert Hin. by vm_compute.
  - split.
    + exists (ver_event first_version). split_and!; [by left|done|done].
    + intros (e & Hin & _ & Hr). apply list_elem_of_singleton in Hin as ->.
      apply list_elem_of_singleton in Hr. revert Hr. by vm_compute.
Defined.

Lemma restart_restores_latest_witness : exists (w : W) hv,
  run any_params 0 empty_worker sample_ops = Some ([ver_event first_version], w) /\
  replay_cells [chunk_make kCell (ver_payload first_version)] empty_hv = Some hv /\
  forall k h, IsLatest hv k h = snd (IsLatestVersion w k h).
Proof.
  destruct sample_run as (w & E). exists w.
  destruct (restart_restores_latest any_params 0 empty_hv ∅ sample_ops w
    [chunk_make kCell (ver_payload first_version)] [first_version] empty_hv)
    as (hv & Er & Hl & _); [apply map_puts_succeed| | | |by repeat constructor|exact E| |].
  - intros k b. simpl. unfold shv_at. simpl. by rewrite lookup_empty.
  - intros k. simpl. by rewrite lookup_empty.
  - intros k. simpl. by rewrite lookup_empty.
  - constructor; [apply first_version_ok| |constructor].
    apply chunk_rep_make, ver_payload_ok, first_version_ok.
  - exists hv. split_and!; [exact E|exact Er|exact Hl].
Defined.

Lemma reput_resurrects_witness :
  let h1 := Some (ver_hash first_version) in
  exists w1 w2 w3 : W,
    Put_prev any_params 0 empty_worker [x6b] sample_value hash_kNull = Some (kOK, h1, w1) /\
    IsLatestVersion w2 [x6b] h1 = (kOK, false) /\
    Put_prev any_params 0 w2 [x6b] sample_value hash_kNull = Some (kOK, h1, w3) /\
    IsLatestVersion w3 [x6b] h1 = (kOK, true).
Proof.
  destruct (reput_resurrects any_params 0 empty_worker [x6b] sample_value other_value)
    as (w1 & w2 & w3 & E1 & _ & L2 & E3 & L3 & _);
    [apply map_puts_succeed|done|done|done|done|apply first_version_ok| | | |].
  - constructor; by vm_compute.
  - by vm_compute.
  - by vm_compute.
  - exists w1, w2, w3. split_and!; [exact E1|exact L2|exact E3|exact L3].
Defined.

End HistoryWitnesses.
