(* ===== verification/CursorProps.v ===== *)
(** * Reading a tree with a cursor

    A cursor on a stored tree is a zipper: its leaf level is a node whose
    entries lie between those before and those after it in the tree.  The
    descents reach the entry they are asked for, [Advance] goes to the next
    entry, also across nodes and levels. *)

From S2P Require Import Prelude Types Slice HashVal Chunk RollingHash Node NodeSearch Chunker.
From S2P Require Import Canonical Leaf Store Cursor Builder Build Tree.

Definition small {A} (l : list A) : Prop := (Z.of_nat (length l) < 2 ^ 31)%Z.

Section CursorProps.
Context `{HashFunction}.
Variable get : Hash -> option Chunk.
Implicit Types (k : NodeKind) (es les pre post : list bytes) (p l : CurLevel) (ps c : NodeCursor).

(** ** Nodes of a tree *)

Definition node_at (ht : nat) k es (n : SeqNode) : Prop :=
  match ht with
  | O => k <> KMeta /\ node_rep n k es
  | S ht' => exists ms ess, node_rep n KMeta (mi_bytes <$> ms) /\ ms <> [] /\ es = concat ess /\
      Forall2 (sub_tree get ht' k) ms ess
  end.

(** The root of a tree, and its hash. *)
Lemma tree_loaded ht k h es :
  tree get ht k h es -> exists n, load_node get (Some h) = Some n /\ node_at ht k es n /\
    chunk_hash (chunk_ n) = Some (Some h).
Proof.
  unfold load_node. destruct ht as [|ht]; cbn [tree node_at].
  - intros (Hk & He & -> & c & -> & Hc). osimpl.
    destruct (CreateFromChunk_rep c k es Hc He) as (n & -> & Ec & Hn). exists n.
    rewrite Ec, (chunk_rep_hash _ _ _ Hc). done.
  - intros (c & ms & ess & -> & Hc & He & -> & Hne & -> & HF). osimpl.
    destruct (CreateFromChunk_rep c KMeta _ Hc He) as (n & -> & Ec & Hn). exists n.
    rewrite Ec, (chunk_rep_hash _ _ _ Hc). split_and!; [done|by eexists _, _|done].
Qed.

Lemma tree_node ht k h es :
  tree get ht k h es -> exists n, load_node get (Some h) = Some n /\ node_at ht k es n.
Proof. intros (n & ? & ? & _)%tree_loaded. eauto. Qed.

Lemma sub_tree_ne ht k ms ess : Forall2 (sub_tree get ht k) ms ess -> Forall (fun es => es <> []) ess.
Proof. induction 1 as [|m es ms ess (_ & He & _) _ IH]; by constructor. Qed.

Lemma sub_tree_count ht k ms ess :
  Forall2 (sub_tree get ht k) ms ess -> length ms <= length (concat ess).
Proof.
  induction 1 as [|m es ms ess (_ & He & _) _ IH]; simpl; [lia|].
  rewrite length_app. destruct es; [done|]. simpl. lia.
Qed.

Lemma sub_tree_below ht k ms ess :
  Forall2 (sub_tree get ht k) ms ess -> elements_below ms = Z.of_nat (length (concat ess)).
Proof.
  unfold elements_below. induction 1 as [|m es ms ess (Hc & _ & _) _ IH]; [done|].
  cbn [sum_with concat]. rewrite length_app, IH, (ch_elements _ _ _ Hc). lia.
Qed.

Lemma sub_tree_mi_ok ht k ms ess : Forall2 (sub_tree get ht k) ms ess -> Forall mi_ok ms.
Proof. induction 1 as [|m es ms ess (Hc & _ & _) _ IH]; constructor; [apply Hc|done]. Qed.

Lemma nentries_rep l k es :
  node_rep (seq_node_ l) k es -> small es -> nentries l = Some (Z.of_nat (length es)).
Proof.
  intros Hn Hs. unfold nentries. rewrite (numEntries_rep _ _ _ Hn). osimpl.
  by rewrite i32_small by (unfold small in Hs; lia).
Qed.

Lemma current_rep l k es i e :
  node_rep (seq_node_ l) k es -> small es -> idx_ l = Z.of_nat i -> es !! i = Some e ->
  exists rest, current l = Some (e ++ rest).
Proof.
  intros Hn Hs Hi He. pose proof (lookup_lt_Some _ _ _ He). unfold current.
  rewrite Hi, (nentries_rep _ _ _ Hn Hs), (proj2 (Z.eqb_neq _ _)) by lia. osimpl.
  rewrite (proj2 (Z.eqb_neq _ _)) by lia. rewrite Nat2Z.id.
  destruct (node_data_rep _ _ _ _ _ Hn He) as [rest ->]. eauto.
Qed.

Lemma numCurrentBytes_rep l k es i e :
  node_rep (seq_node_ l) k es -> small es -> idx_ l = Z.of_nat i -> es !! i = Some e ->
  numCurrentBytes l = Some (length e).
Proof.
  intros Hn Hs Hi He. pose proof (lookup_lt_Some _ _ _ He). unfold numCurrentBytes.
  rewrite Hi, (nentries_rep _ _ _ Hn Hs), (proj2 (Z.eqb_neq _ _)) by lia. osimpl.
  rewrite (proj2 (Z.eqb_neq _ _)) by lia. rewrite Nat2Z.id. by apply (node_len_rep _ _ _ _ _ Hn).
Qed.

(** The node below an entry of an inner node. *)
Lemma child_node_rep p ht k ms ess j m es :
  node_rep (seq_node_ p) KMeta (mi_bytes <$> ms) -> Forall2 (sub_tree get ht k) ms ess ->
  small (concat ess) -> idx_ p = Z.of_nat j -> ms !! j = Some m -> ess !! j = Some es ->
  exists n, child_node get p = Some n /\ node_at ht k es n.
Proof.
  intros Hn HF Hs Hj Hm He. destruct (Forall2_lookup_lr _ _ _ _ _ _ HF Hm He) as (Hc & _ & Ht).
  assert (Hs' : small (mi_bytes <$> ms)).
  { unfold small in *. rewrite length_fmap. pose proof (sub_tree_count _ _ _ _ HF). lia. }
  destruct (current_rep p _ _ j (mi_bytes m) Hn Hs' Hj) as [rest Hcur].
  { by rewrite list_lookup_fmap, Hm. }
  unfold child_node. rewrite Hcur. osimpl.
  destruct (mi_decode m rest (ch_ok _ _ _ Hc)) as (_ & _ & _ & -> & _). osimpl.
  by apply tree_node.
Qed.

(** ** The context of a node *)

(** [ps] are the parents of a node of height [ht] with the entries [es]; [pre]
    and [post] are the entries of the tree before and after it. *)
Fixpoint ctx (ht : nat) k es pre post ps : Prop :=
  match ps with
  | [] => pre = [] /\ post = []
  | p :: ps' => exists ms ess j m pre' post',
      node_rep (seq_node_ p) KMeta (mi_bytes <$> ms) /\ Forall2 (sub_tree get ht k) ms ess /\
      idx_ p = Z.of_nat j /\ ms !! j = Some m /\ ess !! j = Some es /\
      pre = pre' ++ concat (take j ess) /\ post = concat (drop (S j) ess) ++ post' /\
      ctx (S ht) k (concat ess) pre' post' ps'
  end.

Lemma advance_here_in l n i :
  nentries l = Some (Z.of_nat n) -> idx_ l = Z.of_nat i -> S i < n ->
  advance_here l = Some (true, set_idx l (Z.of_nat (S i))).
Proof.
  intros Hn Hi Hlt. unfold advance_here. rewrite Hn, Hi. osimpl.
  rewrite (proj2 (Z.eqb_neq _ _)), (proj2 (Z.ltb_lt (Z.of_nat i) _)) by lia. simpl.
  rewrite (proj2 (Z.ltb_lt _ _)) by lia. do 2 f_equal. f_equal. lia.
Qed.

Lemma advance_here_out l n i :
  nentries l = Some (Z.of_nat n) -> idx_ l = Z.of_nat i -> i <= n -> n <= S i ->
  advance_here l = Some (false, set_idx l (Z.of_nat n)).
Proof.
  intros Hn Hi Hle Hge. unfold advance_here. rewrite Hn, Hi. osimpl.
  rewrite (proj2 (Z.eqb_neq _ _)) by lia. simpl.
  destruct (Z.ltb_spec (Z.of_nat i) (Z.of_nat n)).
  - rewrite (proj2 (Z.ltb_ge _ _)) by lia. do 2 f_equal. f_equal. lia.
  - rewrite (proj2 (Z.ltb_ge _ _)) by lia. do 2 f_equal. f_equal. lia.
Qed.

Lemma retreat_back p n i :
  idx_ p = Z.of_nat i -> n = S i -> snd (retreat_here (set_idx p (Z.of_nat n))) = p.
Proof.
  intros Hi ->. unfold retreat_here. cbn [idx_ set_idx].
  destruct (Z.leb_spec 0 (Z.of_nat (S i))); [|lia]. destruct p as [sn ip]. cbn [snd idx_ set_idx seq_node_] in *.
  f_equal. lia.
Qed.

Lemma concat_lookup_drop {A} (ls : list (list A)) j x :
  ls !! j = Some x -> concat (drop j ls) = x ++ concat (drop (S j) ls).
Proof. intros Hj. by rewrite (drop_S _ _ _ Hj). Qed.

Lemma concat_at {A} (ls : list (list A)) j x :
  ls !! j = Some x -> concat ls = concat (take j ls) ++ x ++ concat (drop (S j) ls).
Proof. intros Hj. by rewrite <- concat_lookup_drop, <- concat_app, take_drop. Qed.

(** What the first parent of a node gives: its number of entries fits. *)
Lemma parent_small ht k ms ess es pre post j :
  Forall2 (sub_tree get ht k) ms ess -> ess !! j = Some es ->
  small ((pre ++ concat (take j ess)) ++ es ++ concat (drop (S j) ess) ++ post) ->
  small (concat ess) /\ small (mi_bytes <$> ms) /\ small (pre ++ concat ess ++ post).
Proof.
  intros HF He. pose proof (sub_tree_count _ _ _ _ HF) as Hc. rewrite (concat_at _ _ _ He) in *.
  unfold small. rewrite !length_app, !length_fmap in *. lia.
Qed.

(** The next child of the same node. *)
Lemma Advance_sibling ps ht k ms ess j m m' es es' pre post p :
  node_rep (seq_node_ p) KMeta (mi_bytes <$> ms) -> Forall2 (sub_tree get ht k) ms ess ->
  small (concat ess) -> small (mi_bytes <$> ms) -> idx_ p = Z.of_nat j ->
  ess !! j = Some es -> ms !! S j = Some m' -> ess !! S j = Some es' ->
  ctx (S ht) k (concat ess) pre post ps -> ms !! j = Some m ->
  let p' := set_idx p (Z.of_nat (S j)) in
  Advance get true (p :: ps) = Some (true, p' :: ps) /\
  (exists n, child_node get p' = Some n /\ node_at ht k es' n) /\
  ctx ht k es' ((pre ++ concat (take j ess)) ++ es) (concat (drop (S (S j)) ess) ++ post) (p' :: ps).
Proof.
  intros Hn HF Hs Hs' Hj He Hm' He' Hctx Hm p'. split_and!.
  - cbn [Advance]. rewrite (advance_here_in p (length ms) j); [done| |done|by eapply lookup_lt_Some].
    by rewrite (nentries_rep _ _ _ Hn Hs'), length_fmap.
  - by apply (child_node_rep p' ht k ms ess (S j) m').
  - exists ms, ess, (S j), m', pre, post. split_and!; try done.
    rewrite <- app_assoc, (take_S_r _ _ _ He), concat_app. simpl. by rewrite app_nil_r.
Qed.

(** The first child of a node that was just entered. *)
Lemma first_child ht k es n pre post p ps :
  node_at (S ht) k es n -> small es -> ctx (S ht) k es pre post (p :: ps) ->
  exists n' es' post', child_node get (mkCur n 0) = Some n' /\ node_at ht k es' n' /\ es' <> [] /\
    ctx ht k es' pre post' (mkCur n 0 :: p :: ps) /\ es ++ post = es' ++ post'.
Proof.
  intros (ms & ess & Hn & Hne & -> & HF) Hs Hctx.
  destruct ms as [|m ms]; [done|]. destruct ess as [|es' ess]; [by inversion HF|].
  destruct (child_node_rep (mkCur n 0) ht k (m :: ms) (es' :: ess) 0 m es' Hn HF Hs)
    as (n' & Hcn & Hna); [done..|].
  exists n', es', (concat ess ++ post). split_and!; [done|done| | |simpl; by rewrite app_assoc].
  - apply sub_tree_ne in HF. by apply Forall_cons in HF as [? _].
  - exists (m :: ms), (es' :: ess), 0, m, pre, post. split_and!; try done. simpl. by rewrite app_nil_r.
Qed.

(** [Advance] where the own level cannot advance. *)
Lemma Advance_up l l' p ps :
  advance_here l = Some (false, l') ->
  Advance get true (l :: p :: ps) =
    (rp ← Advance get true (p :: ps);
     match snd rp with
     | [] => None
     | p' :: ps' => if fst rp : bool then n ← child_node get p'; Some (true, mkCur n 0 :: p' :: ps')
                    else Some (false, l' :: snd (retreat_here p') :: ps')
     end).
Proof. intros E. cbn [Advance]. rewrite E. reflexivity. Qed.

(** The next node of the same level, if there is one. *)
Definition next_node ht k es pre post p ps : Prop :=
  exists p' ps' n es' post',
    Advance get true (p :: ps) = Some (true, p' :: ps') /\
    child_node get p' = Some n /\ node_at ht k es' n /\ es' <> [] /\
    ctx ht k es' (pre ++ es) post' (p' :: ps') /\ post = es' ++ post'.

Lemma Advance_ctx ps : forall ht k es pre post p,
  ctx ht k es pre post (p :: ps) -> small (pre ++ es ++ post) ->
  (post <> [] -> next_node ht k es pre post p ps) /\
  (post = [] -> exists p', Advance get true (p :: ps) = Some (false, p' :: ps) /\
     snd (retreat_here p') = p).
Proof.
  induction ps as [|q qs IH]; intros ht k es pre post p
    (ms & ess & j & m & pre' & post' & Hn & HF & Hj & Hm & He & -> & -> & Hctx) Hs;
  pose proof (Forall2_length _ _ _ HF) as Hlen; pose proof (lookup_lt_Some _ _ _ Hm) as Hjlt;
  destruct (parent_small _ _ _ _ _ _ _ _ HF He Hs) as (Hs1 & Hs2 & Hs3);
  assert (Hne : nentries p = Some (Z.of_nat (length ms)))
    by (by rewrite (nentries_rep _ _ _ Hn Hs2), length_fmap);
  (destruct (decide (S j < length ms)) as [Hin|Hout];
  [destruct (lookup_lt_is_Some_2 ms (S j) Hin) as [m' Hm'];
   destruct (lookup_lt_is_Some_2 ess (S j) ltac:(lia)) as [es' He'];
   destruct (Forall2_lookup_lr _ _ _ _ _ _ HF Hm' He') as (_ & Hes' & _);
   destruct (Advance_sibling _ _ _ _ _ _ _ _ _ _ _ _ _ Hn HF Hs1 Hs2 Hj He Hm' He' Hctx Hm)
     as (HA & (n & Hcn & Hna) & Hc');
   rewrite (concat_lookup_drop _ _ _ He'), <- app_assoc;
   split; [intros _; eexists _, _, n, es', _; by split_and!|
           intros E; by apply app_eq_nil in E as [? _]]|]);
  rewrite (drop_ge ess (S j)) in * by lia; cbn [concat app] in *;
  pose proof (advance_here_out p (length ms) j Hne Hj ltac:(lia) ltac:(lia)) as Hout'.
  - destruct Hctx as [-> ->]. split; [done|]. intros _. cbn [Advance]. rewrite Hout'. osimpl.
    eexists. split; [reflexivity|]. apply (retreat_back _ _ _ Hj). lia.
  - destruct (IH (S ht) k (concat ess) pre' post' q Hctx Hs3) as [IH1 IH2].
    split; intros Hp.
    + destruct (IH1 Hp) as (q' & qs' & n1 & es1 & post1 & HA & Hcn & Hna & Hne1 & Hc1 & ->).
      assert (Hsm : small es1) by (unfold small in *; rewrite !length_app in Hs3; lia).
      destruct (first_child _ _ _ _ _ _ _ _ Hna Hsm Hc1)
        as (n & es' & post'' & Hcn' & Hna' & Hne' & Hc' & E).
      exists (mkCur n1 0), (q' :: qs'), n, es', post''. split_and!; try done.
      * rewrite (Advance_up _ _ _ _ Hout'), HA. osimpl. cbn [snd fst]. by rewrite Hcn.
      * rewrite <- app_assoc. replace (concat (take j ess) ++ es) with (concat ess); [done|].
        rewrite (concat_at _ _ _ He), (drop_ge ess (S j)) by lia. simpl. by rewrite app_nil_r.
    + destruct (IH2 Hp) as (q' & HA & Hq'). eexists. split.
      * rewrite (Advance_up _ _ _ _ Hout'), HA. osimpl. cbn [snd fst]. by rewrite Hq'.
      * apply (retreat_back _ _ _ Hj). lia.
Qed.

(** ** Cursors on leaves *)

(** The cursor [c] stands at entry [i] of a leaf with the entries [les]; the end
    of the leaf is also a position. *)
Record leaf_cur k c pre les post (i : nat) : Prop := {
  lc_kind : k <> KMeta;
  lc_cursor : exists l ps, c = l :: ps /\ node_rep (seq_node_ l) k les /\ idx_ l = Z.of_nat i /\
    ctx 0 k les pre post ps;
  lc_idx : i <= length les
}.

(** It stands on the entry at [pos] of a tree with the entries [es]. *)
Definition cur_on k es c (pos : nat) : Prop :=
  exists pre les post i, leaf_cur k c pre les post i /\ i < length les /\
    es = pre ++ les ++ post /\ pos = length pre + i.

(** It stands behind the last entry of the tree. *)
Definition cur_end k es c : Prop :=
  exists pre les, leaf_cur k c pre les [] (length les) /\ es = pre ++ les.

Lemma cur_on_lt k es c pos : cur_on k es c pos -> pos < length es.
Proof. intros (pre & les & post & i & _ & Hi & -> & ->). rewrite !length_app. lia. Qed.

Lemma leaf_small pre les post : small (pre ++ les ++ post) -> small les.
Proof. unfold small. rewrite !length_app. lia. Qed.

Lemma lookup_middle {A} (pre les post : list A) i :
  i < length les -> (pre ++ les ++ post) !! (length pre + i) = les !! i.
Proof.
  intros Hi. rewrite lookup_app_r by lia. rewrite lookup_app_l by lia. f_equal. lia.
Qed.

(** Reading the entry. *)
Lemma cur_on_read k es c pos :
  small es -> cur_on k es c pos ->
  exists l ps e rest, c = l :: ps /\ es !! pos = Some e /\ isEnd l = Some false /\
    current l = Some (e ++ rest) /\ numCurrentBytes l = Some (length e).
Proof.
  intros Hs (pre & les & post & i & [Hk (l & ps & -> & Hn & Hi & _) _] & Hlt & -> & ->).
  apply leaf_small in Hs. destruct (lookup_lt_is_Some_2 les i Hlt) as [e He].
  destruct (current_rep l k les i e Hn Hs Hi He) as [rest Hc].
  exists l, ps, e, rest. rewrite lookup_middle by done. split_and!; try done.
  - unfold isEnd. rewrite (nentries_rep _ _ _ Hn Hs), Hi. osimpl. by rewrite (proj2 (Z.eqb_neq _ _)) by lia.
  - by apply (numCurrentBytes_rep l k les i).
Qed.

Lemma cur_on_key k es c pos e :
  small es -> cur_on k es c pos -> es !! pos = Some e -> k <> KBlob -> k <> KList ->
  exists l ps, c = l :: ps /\ currentKey l = entry_key k e.
Proof.
  intros Hs (pre & les & post & i & [Hk (l & ps & -> & Hn & Hi & _) _] & Hlt & -> & ->) He Hb Hl.
  rewrite lookup_middle in He by done. exists l, ps. split; [done|]. unfold currentKey.
  rewrite Hi, Nat2Z.id, (proj2 (Z.ltb_ge _ _)) by lia. by apply (node_key_rep _ _ _ _ _ Hn).
Qed.

Lemma cur_end_isEnd k es c : small es -> cur_end k es c ->
  exists l ps, c = l :: ps /\ isEnd l = Some true.
Proof.
  intros Hs (pre & les & [Hk (l & ps & -> & Hn & Hi & _) _] & ->). exists l, ps. split; [done|].
  unfold isEnd. rewrite (nentries_rep _ _ _ Hn), Hi by (unfold small in *; rewrite length_app in Hs; lia).
  osimpl. by rewrite Z.eqb_refl.
Qed.

(** From the last entry or the end of a leaf to the next leaf. *)
Lemma Advance_leaf k c pre les post i :
  small (pre ++ les ++ post) -> leaf_cur k c pre les post i -> length les <= S i ->
  (post <> [] -> exists c' les' post', Advance get true c = Some (true, c') /\
     leaf_cur k c' (pre ++ les) les' post' 0 /\ les' <> [] /\ post = les' ++ post') /\
  (post = [] -> exists c', Advance get true c = Some (false, c') /\
     leaf_cur k c' pre les [] (length les)).
Proof.
  intros Hs [Hk (l & ps & -> & Hn & Hi & Hctx) Hle] Hge. pose proof (leaf_small _ _ _ Hs) as Hs'.
  pose proof (advance_here_out l (length les) i (nentries_rep _ _ _ Hn Hs') Hi Hle Hge) as Hout.
  destruct ps as [|p ps].
  - destruct Hctx as [-> ->]. split; [done|]. intros _. cbn [Advance]. rewrite Hout. osimpl.
    eexists. split; [reflexivity|].
    split; [done| |done]. by eexists _, _.
  - destruct (Advance_ctx ps 0 k les pre post p Hctx Hs) as [H1 H2]. split; intros Hp.
    + destruct (H1 Hp) as (p' & ps' & n & les' & post' & HA & Hcn & [_ Hna] & Hne & Hc & ->).
      rewrite (Advance_up _ _ _ _ Hout), HA. osimpl. cbn [snd fst]. rewrite Hcn. osimpl.
      eexists _, les', post'. split_and!; [done| |done|done]. split; [done| |lia].
      by eexists _, _.
    + destruct (H2 Hp) as (p' & HA & Hp'). rewrite (Advance_up _ _ _ _ Hout), HA. osimpl. cbn [snd fst].
      rewrite Hp'. subst post. eexists. split; [reflexivity|]. split; [done| |done]. by eexists _, _.
Qed.

(** [Advance(true)] goes to the next entry, or behind the last one. *)
Lemma Advance_entry k es c pos :
  small es -> cur_on k es c pos ->
  (S pos < length es -> exists c', Advance get true c = Some (true, c') /\ cur_on k es c' (S pos)) /\
  (S pos = length es -> exists c', Advance get true c = Some (false, c') /\ cur_end k es c').
Proof.
  intros Hs (pre & les & post & i & Hc & Hlt & -> & ->). rewrite !length_app.
  destruct (decide (S i < length les)) as [Hin|Hout].
  - split; [intros _|lia]. destruct Hc as [Hk (l & ps & -> & Hn & Hi & Hctx) Hle].
    exists (set_idx l (Z.of_nat (S i)) :: ps). split.
    + cbn [Advance]. rewrite (advance_here_in l (length les) i); [done| |done|done].
      apply (nentries_rep _ _ _ Hn). by eapply leaf_small.
    + exists pre, les, post, (S i). split_and!; [|done|done|lia]. split; [done| |lia].
      by eexists _, _.
  - destruct (Advance_leaf k c pre les post i Hs Hc ltac:(lia)) as [H1 H2]. split; intros Hlen.
    + destruct H1 as (c' & les' & post' & HA & Hc' & Hne & ->); [intros ->; simpl in Hlen; lia|].
      exists c'. split; [done|]. exists (pre ++ les), les', post', 0.
      split_and!; [done|destruct les'; [done|simpl; lia]|by rewrite <- app_assoc|rewrite length_app; lia].
    + assert (post = []) as -> by (apply length_zero_iff_nil; lia).
      destruct H2 as (c' & HA & Hc'); [done|]. exists c'. split; [done|].
      exists pre, les. split; [done|]. by rewrite app_nil_r.
Qed.

(** ** The descents *)

(** Going down to child [j] of a node. *)
Lemma ctx_down ht k n ms ess j m es pre post ps :
  node_rep n KMeta (mi_bytes <$> ms) -> Forall2 (sub_tree get ht k) ms ess ->
  ms !! j = Some m -> ess !! j = Some es -> ctx (S ht) k (concat ess) pre post ps ->
  ctx ht k es (pre ++ concat (take j ess)) (concat (drop (S j) ess) ++ post)
      (mkCur n (Z.of_nat j) :: ps) /\
  (exists n', load_node get (Some (mi_hash m)) = Some n' /\ node_at ht k es n').
Proof.
  intros Hn HF Hm He Hctx. split; [exists ms, ess, j, m, pre, post; by split_and!|].
  destruct (Forall2_lookup_lr _ _ _ _ _ _ HF Hm He) as (_ & _ & Ht). by apply tree_node.
Qed.

Lemma elements_take ht k ms ess j :
  Forall2 (sub_tree get ht k) ms ess ->
  elements_below (take j ms) = Z.of_nat (length (concat (take j ess))).
Proof. intros HF. by apply (sub_tree_below ht k), Forall2_take. Qed.

(** The child that the descent by index chooses. *)
Lemma child_choice ht k n ms ess x :
  node_rep n KMeta (mi_bytes <$> ms) -> Forall2 (sub_tree get ht k) ms ess -> ms <> [] ->
  small (concat ess) -> x <= length (concat ess) ->
  exists j m es y,
    ms !! j = Some m /\ ess !! j = Some es /\ x = length (concat (take j ess)) + y /\
    y <= length es /\ (x < length (concat ess) -> y < length es) /\
    (r ← GetChildHashByIndex n (Z.of_nat x);
     if hash_empty (fst r) then
       CHECK (snd r =? length ms);; h ← GetChildHashByEntry n (length ms - 1); Some (h, length ms - 1)
     else Some r) = Some (Some (mi_hash m), j) /\
    numElementsUntilEntry n j = Some (Z.of_nat (length (concat (take j ess)))).
Proof.
  intros Hn HF Hne Hs Hx. pose proof (sub_tree_mi_ok _ _ _ _ HF) as Hok.
  pose proof (sub_tree_below _ _ _ _ HF) as Hb. pose proof (Forall2_length _ _ _ HF) as Hlen.
  assert (Hb' : (elements_below ms < 2 ^ 64)%Z) by (rewrite Hb; unfold small in Hs; lia).
  rewrite (meta_GetChildHashByIndex n ms Hn Hok _ Hne Hb'). osimpl.
  destruct (child_of_index_spec ms (Z.of_nat x) 0 Hok ltac:(lia)) as [(j & m & Hj & -> & Hr)|[Hr ->]].
  - pose proof (lookup_lt_Some _ _ _ Hj). destruct (lookup_lt_is_Some_2 ess j ltac:(lia)) as [es He].
    destruct (Forall2_lookup_lr _ _ _ _ _ _ HF Hj He) as (Hc & _ & _).
    rewrite (elements_take _ _ _ _ j HF), (ch_elements _ _ _ Hc) in Hr.
    exists j, m, es, (x - length (concat (take j ess))). split_and!; try done; try lia.
    rewrite (meta_numElementsUntilEntry n ms Hn Hok j ltac:(lia) Hb'). f_equal. by eapply elements_take.
  - simpl. rewrite Nat.eqb_refl. osimpl.
    assert (0 < length ms) by (destruct ms; [done|simpl; lia]).
    destruct (lookup_lt_is_Some_2 ms (length ms - 1) ltac:(lia)) as [m Hm].
    destruct (lookup_lt_is_Some_2 ess (length ms - 1) ltac:(lia)) as [es He].
    rewrite (meta_GetChildHashByEntry n ms Hn Hok _ _ Hm). osimpl.
    pose proof (concat_at _ _ _ He) as Hcat. rewrite (drop_ge ess), app_nil_r in Hcat by lia.
    rewrite Hb in Hr. pose proof Hcat as Hl. apply (f_equal length) in Hl. rewrite length_app in Hl.
    exists (length ms - 1), m, es, (length es). split_and!; try done; try lia.
    rewrite (meta_numElementsUntilEntry n ms Hn Hok (length ms - 1) ltac:(lia) Hb'). f_equal.
    by eapply elements_take.
Qed.

Lemma descend_index_rep fuel : forall ht k es n pre post ps x,
  node_at ht k es n -> ctx ht k es pre post ps -> small (pre ++ es ++ post) ->
  ht < fuel -> x <= length es ->
  exists c pre' les post' i, descend_index get fuel n (Z.of_nat x) ps = Some c /\
    leaf_cur k c pre' les post' i /\ pre ++ es ++ post = pre' ++ les ++ post' /\
    length pre + x = length pre' + i /\ length c = S (ht + length ps) /\
    (x < length es -> i < length les) /\ (x = length es -> i = length les /\ post' = post).
Proof.
  induction fuel as [|fuel IH]; intros ht k es n pre post ps x Hna Hctx Hs Hf Hx; [lia|].
  cbn [descend_index]. destruct ht as [|ht].
  - destruct Hna as [Hk Hn]. rewrite (numEntries_rep _ _ _ Hn). osimpl.
    unfold isLeaf. rewrite (nr_kind _ _ _ Hn), bool_decide_false by done. cbn [negb].
    rewrite (proj2 (Z.ltb_ge _ _)) by lia. rewrite i32_small.
    2:{ apply leaf_small in Hs. unfold small in Hs. lia. }
    eexists _, pre, es, post, x. split_and!; try done.
    split; [done| |done]. by eexists _, _.
  - destruct Hna as (ms & ess & Hn & Hne & -> & HF).
    rewrite (meta_numEntries n ms Hn). osimpl. unfold isLeaf. rewrite (nr_kind _ _ _ Hn).
    rewrite bool_decide_true by done. cbn [negb].
    pose proof (leaf_small _ _ _ Hs) as Hs1.
    destruct (child_choice _ _ _ _ _ x Hn HF Hne Hs1 Hx)
      as (j & m & es & y & Hm & He & Ex & Hy & Hy' & Hr & Hnu).
    destruct (GetChildHashByIndex n (Z.of_nat x)) as [r0|]; [|done]. osimpl in Hr.
    osimpl. rewrite Hr. osimpl. cbn [fst snd]. rewrite Hnu. osimpl.
    destruct (ctx_down _ _ _ _ _ _ _ _ _ _ _ Hn HF Hm He Hctx) as [Hc' (n' & -> & Hna')]. osimpl.
    assert (Hj : i32 (Z.of_nat j) = Z.of_nat j).
    { apply i32_small. pose proof (lookup_lt_Some _ _ _ Hm). pose proof (sub_tree_count _ _ _ _ HF).
      unfold small in Hs1. lia. }
    assert (Hu : u64 (Z.of_nat x - Z.of_nat (length (concat (take j ess)))) = Z.of_nat y).
    { rewrite (wrap_small 64); [lia|]. unfold small in Hs1. lia. }
    rewrite Hj, Hu. pose proof (concat_at _ _ _ He) as Hcat.
    assert (Htot : pre ++ concat ess ++ post
      = (pre ++ concat (take j ess)) ++ es ++ concat (drop (S j) ess) ++ post)
      by (rewrite Hcat; by rewrite <- !app_assoc).
    destruct (IH ht k es n' _ _ _ y Hna' Hc') as (c & pre' & les & post' & i & E & Hl & Et & Ep & El & Hlt & Heq);
      [by rewrite <- Htot|lia|done|].
    exists c, pre', les, post', i. split_and!; try done.
    + by rewrite Htot.
    + rewrite length_app in Ep. lia.
    + rewrite El. simpl. lia.
    + intros Hxl. apply Hlt. by apply Hy'.
    + intros Hxl. rewrite Hcat, !length_app in Hxl.
      assert (Hd : concat (drop (S j) ess) = []) by (apply length_zero_iff_nil; lia).
      rewrite Hd in Heq. apply Heq. lia.
Qed.

Lemma node_numElements ht k es n :
  node_at ht k es n -> small es -> numElements n = Some (Z.of_nat (length es)).
Proof.
  destruct ht as [|ht].
  - intros [Hk Hn] Hs. unfold numElements. rewrite (numEntries_rep _ _ _ Hn). osimpl.
    unfold isLeaf. by rewrite (nr_kind _ _ _ Hn), bool_decide_false by done.
  - intros (ms & ess & Hn & Hne & -> & HF) Hs. pose proof (sub_tree_below _ _ _ _ HF) as Hb.
    rewrite (meta_numElements n ms Hn); [by rewrite Hb|by eapply sub_tree_mi_ok|].
    rewrite Hb. unfold small in Hs. lia.
Qed.

(** [NodeCursor(hash, idx, loader)]. *)
Lemma cursor_by_index_rep fuel ht k h es x :
  tree get ht k h es -> small es -> ht < fuel ->
  (x < length es -> exists c, cursor_by_index get fuel (Some h) (Z.of_nat x) = Some (Some c) /\
     cur_on k es c x) /\
  (x = length es -> exists c, cursor_by_index get fuel (Some h) (Z.of_nat x) = Some (Some c) /\
     cur_end k es c) /\
  (length es < x -> cursor_by_index get fuel (Some h) (Z.of_nat x) = Some None).
Proof.
  intros Ht Hs Hf. destruct (tree_node _ _ _ _ Ht) as (n & Hl & Hn).
  unfold cursor_by_index. rewrite Hl. osimpl. rewrite (node_numElements _ _ _ _ Hn Hs). osimpl.
  assert (Hctx : ctx ht k es [] [] []) by done.
  assert (Hs' : small ([] ++ es ++ [])) by (by rewrite app_nil_r).
  split_and!; intros Hx; [rewrite (proj2 (Z.leb_le _ _)) by lia..|by rewrite (proj2 (Z.leb_gt _ _)) by lia].
  all: destruct (descend_index_rep fuel ht k es n [] [] [] x Hn Hctx Hs' Hf ltac:(lia))
    as (c & pre & les & post & i & E & Hc & Et & Ep & _ & Hlt & Heq); rewrite E; exists c;
    (split; [done|]); rewrite app_nil_r in Et; simpl in *.
  - exists pre, les, post, i. split_and!; [done|by apply Hlt|done|done].
  - destruct (Heq Hx) as [-> ->]. exists pre, les. split; [done|]. by rewrite app_nil_r in Et.
Qed.

(** A cursor has a level for every level of the tree. *)
Lemma cursor_by_index_depth fuel ht k h es x c :
  tree get ht k h es -> small es -> ht < fuel -> x <= length es ->
  cursor_by_index get fuel (Some h) (Z.of_nat x) = Some (Some c) -> length c = S ht.
Proof.
  intros Ht Hs Hf Hx. destruct (tree_node _ _ _ _ Ht) as (n & Hl & Hn).
  unfold cursor_by_index. rewrite Hl. osimpl. rewrite (node_numElements _ _ _ _ Hn Hs). osimpl.
  rewrite (proj2 (Z.leb_le _ _)) by lia.
  destruct (descend_index_rep fuel ht k es n [] [] [] x Hn)
    as (c' & pre & les & post & i & -> & _ & _ & _ & El & _); [done|by rewrite app_nil_r|done|done|].
  intros [= <-]. rewrite El. simpl. lia.
Qed.

End CursorProps.
