(* ===== verification/KeySearch.v ===== *)
(** * Searching a tree by key

    [NodeCursor(hash, key, loader)] and [FindIndexForKey] on a tree of a map or
    a set stop at the first entry whose key is not smaller, counted over the
    whole tree. *)

From S2P Require Import Prelude Types Slice HashVal Chunk RollingHash Node NodeSearch Chunker.
From S2P Require Import Canonical Leaf Store Cursor Builder Build Tree CursorProps.

(** ** Lower bounds in sorted lists *)

Lemma lower_bound_app ks rest key :
  lower_bound (ks ++ rest) key
  = if decide (lower_bound ks key < length ks) then lower_bound ks key
    else length ks + lower_bound rest key.
Proof.
  induction ks as [|k ks IH]; [done|]. simpl. destruct (slice_lt k key); [|by rewrite decide_True by lia].
  rewrite IH. destruct (decide (lower_bound ks key < length ks)).
  - by rewrite decide_True by lia.
  - rewrite decide_False by lia. lia.
Qed.

Lemma key_sorted_strong keys :
  key_sorted keys -> StronglySorted (fun a b => slice_lt a b = true) keys.
Proof. apply Sorted_StronglySorted. intros a b c. apply (st_trans (ltb := slice_lt)). Qed.

Lemma key_sorted_app a b : key_sorted (a ++ b) -> key_sorted a /\ key_sorted b.
Proof.
  intros Hs. apply key_sorted_strong in Hs. split; apply StronglySorted_Sorted.
  - by apply StronglySorted_app_1_l in Hs.
  - by apply StronglySorted_app_1_r in Hs.
Qed.

(** The last key of a sorted list decides whether the bound is inside. *)
Lemma lower_bound_last ks kl key :
  key_sorted ks -> last ks = Some kl ->
  lower_bound ks key < length ks <-> slice_lt kl key = false.
Proof.
  intros Hs Hl. rewrite last_lookup in Hl. split.
  - intros Hlt. destruct (lookup_lt_is_Some_2 ks _ Hlt) as [k Hk].
    pose proof (lower_bound_at _ _ _ Hk) as Hge.
    destruct (slice_lt kl key) eqn:E; [|done].
    destruct (decide (lower_bound ks key = pred (length ks))) as [Eq|Ne]; [congruence|].
    assert (Hkk : slice_lt k kl = true).
    { apply key_sorted_strong in Hs. eapply (sorted_lookup _ _ _ _ _ _ Hs); [|exact Hk|exact Hl]. lia. }
    by rewrite (st_trans (ltb := slice_lt) _ _ _ Hkk E) in Hge.
  - intros Hge. destruct (decide (lower_bound ks key < length ks)) as [|Hn]; [done|].
    pose proof (lookup_lt_Some _ _ _ Hl) as Hlt.
    rewrite (lower_bound_before ks key (pred (length ks)) kl) in Hge; [done|lia|exact Hl].
Qed.

Section KeySearch.
Context `{HashFunction}.
Variable get : Hash -> option Chunk.
Implicit Types (es les pre post : list bytes) (ks : list Slice) (ps c : NodeCursor).

(** The entries [es] of a map or set have the keys [ks]. *)
Definition entry_keys (k : NodeKind) es ks : Prop :=
  Forall2 (fun e key => entry_key k e = Some (FromSlice key)) es ks.

Lemma leaf_FindIndex k n es ks key :
  k = KMap \/ k = KSet -> node_rep n k es -> entry_keys k es ks ->
  LeafNode_FindIndexForKey n (FromSlice key) = Some (lower_bound ks key).
Proof.
  intros Hk Hn Hks. unfold LeafNode_FindIndexForKey. rewrite (nr_kind _ _ _ Hn).
  destruct (chunk_rep_data _ _ _ (nr_chunk _ _ _ Hn)) as [rest Hd].
  assert (HF : Forall2 (fun e k' => forall r, entry_key k (e ++ r) = Some (FromSlice k')) es ks).
  { pose proof (nr_entries _ _ _ Hn) as He. clear -Hks He. induction Hks; [constructor|].
    apply Forall_cons in He as [He1 He]. constructor; [|by apply IHHks].
    intros r. by rewrite entry_key_app. }
  pose proof (find_key_rep (entry_key k) es ks (le_encode 4 (Z.of_nat (length es))) rest key 0 HF) as F.
  rewrite length_le_encode in F.
  destruct Hk as [-> | ->]; unfold MapNode_FindIndexForKey, SetNode_FindIndexForKey;
    rewrite Hd; osimpl; rewrite (nr_offs _ _ _ Hn); unfold node_payload; rewrite <- app_assoc; exact F.
Qed.

(** The key of a child is its last key. *)
Lemma child_key_le k m es ks kl key :
  k = KMap \/ k = KSet -> child_ok k m es -> entry_keys k es ks -> last ks = Some kl ->
  key_le (FromSlice key) (mi_key m) = Some (negb (slice_lt kl key)).
Proof.
  intros Hk Hc Hks Hl. destruct (ch_key _ _ _ Hc) as (kl' & Hkl & Hsim); [by right|].
  assert (kl' = FromSlice kl) as ->.
  { rewrite last_lookup in Hl. destruct (Forall2_lookup_r _ _ _ _ _ Hks Hl) as (e & He & Ek).
    unfold last_key in Hkl. rewrite last_lookup, (Forall2_length _ _ _ Hks), He in Hkl.
    osimpl in Hkl. congruence. }
  rewrite (key_sim_le _ _ _ _ (key_sim_refl (FromSlice key)) Hsim). apply key_le_slices.
Qed.

(** The child that the search chooses. *)
Lemma child_of_key_rep ht k ms ess kss key : forall i0,
  k = KMap \/ k = KSet -> Forall2 (sub_tree get ht k) ms ess -> Forall2 (entry_keys k) ess kss ->
  key_sorted (concat kss) ->
  (exists j m es ks, ms !! j = Some m /\ ess !! j = Some es /\ kss !! j = Some ks /\
     child_of_key ms (FromSlice key) i0 = Some (Some (mi_hash m), i0 + j) /\
     lower_bound (concat kss) key = length (concat (take j ess)) + lower_bound ks key /\
     lower_bound ks key < length ks) \/
  (child_of_key ms (FromSlice key) i0 = Some (None, i0 + length ms) /\
   lower_bound (concat kss) key = length (concat ess)).
Proof.
  intros i0 Hk HF. revert kss i0. induction HF as [|m es ms ess (Hc & Hne & _) HF IH];
    intros kss i0 HK Hs.
  { apply Forall2_nil_inv_l in HK as ->. right. simpl. by rewrite Nat.add_0_r. }
  apply Forall2_cons_inv_l in HK as (ks & kss' & Hks & HK & ->). cbn [concat] in Hs |- *.
  pose proof (Forall2_length _ _ _ Hks) as Hlen. apply key_sorted_app in Hs as [Hs1 Hs2].
  destruct (last ks) as [kl|] eqn:El.
  2:{ apply last_None in El as ->. by destruct es. }
  cbn [child_of_key]. rewrite (child_key_le k m es ks kl key Hk Hc Hks El). osimpl.
  pose proof (lower_bound_last ks kl key Hs1 El) as Hlb. rewrite lower_bound_app.
  destruct (slice_lt kl key); cbn [negb].
  - rewrite decide_False by (by rewrite Hlb). destruct (IH kss' (S i0) HK Hs2)
      as [(j & m' & es' & ks' & Hm & He & Hk' & E & Hb & Hlt)|[E Hb]].
    + left. exists (S j), m', es', ks'. split_and!; try done; [rewrite E; f_equal; f_equal; lia|].
      rewrite Hb. cbn [take concat]. rewrite length_app. lia.
    + right. rewrite E, Hb. cbn [length concat]. rewrite length_app.
      split; [f_equal; f_equal; lia|lia].
  - rewrite decide_True by (by apply Hlb). left. exists 0, m, es, ks. simpl.
    rewrite Nat.add_0_r. split_and!; try done. by apply Hlb.
Qed.

Lemma entry_keys_concat k ess keys :
  entry_keys k (concat ess) keys -> exists kss, keys = concat kss /\ Forall2 (entry_keys k) ess kss.
Proof.
  revert keys. induction ess as [|es ess IH]; intros keys HK.
  - apply Forall2_nil_inv_l in HK as ->. exists []. split; [done|constructor].
  - apply Forall2_app_inv_l in HK as (k1 & k2 & H1 & H2 & ->). destruct (IH k2 H2) as (kss & -> & HF).
    exists (k1 :: kss). split; [done|]. by constructor.
Qed.

(** With the last child for keys behind all others. *)
Lemma key_choice ht k n ms ess kss key :
  k = KMap \/ k = KSet -> node_rep n KMeta (mi_bytes <$> ms) ->
  Forall2 (sub_tree get ht k) ms ess -> ms <> [] -> Forall2 (entry_keys k) ess kss ->
  key_sorted (concat kss) ->
  exists j m es ks, ms !! j = Some m /\ ess !! j = Some es /\ kss !! j = Some ks /\
    (r ← child_of_key ms (FromSlice key) 0;
     if hash_empty (fst r) then
       CHECK (snd r =? length ms);; h ← GetChildHashByEntry n (length ms - 1); Some (h, length ms - 1)
     else Some r) = Some (Some (mi_hash m), j) /\
    lower_bound (concat kss) key = length (concat (take j ess)) + lower_bound ks key /\
    (lower_bound (concat kss) key < length (concat ess) -> lower_bound ks key < length ks).
Proof.
  intros Hk Hn HF Hne HFK Hks. pose proof (sub_tree_mi_ok _ _ _ _ _ HF) as Hok.
  pose proof (Forall2_length _ _ _ HF) as Hml. pose proof (Forall2_length _ _ _ HFK) as Hkl.
  destruct (child_of_key_rep ht k ms ess kss key 0 Hk HF HFK Hks)
    as [(j & m & es & ks & Hm & He & Hk' & -> & Hb & Hlt)|[-> Hb]]; osimpl.
  - exists j, m, es, ks. by split_and!.
  - simpl. rewrite Nat.eqb_refl. osimpl.
    assert (0 < length ms) by (destruct ms; [done|simpl; lia]).
    destruct (lookup_lt_is_Some_2 ms (length ms - 1) ltac:(lia)) as [m Hm].
    destruct (lookup_lt_is_Some_2 ess (length ms - 1) ltac:(lia)) as [es He].
    destruct (Forall2_lookup_l _ _ _ _ _ HFK He) as (ks & Hk' & Hkk).
    rewrite (meta_GetChildHashByEntry n ms Hn Hok _ _ Hm). osimpl.
    exists (length ms - 1), m, es, ks. split_and!; try done; [|lia].
    pose proof (concat_at _ _ _ He) as Hc1. rewrite (drop_ge ess), app_nil_r in Hc1 by lia.
    pose proof (concat_at _ _ _ Hk') as Hc2. rewrite (drop_ge kss), app_nil_r in Hc2 by lia.
    pose proof (lower_bound_le ks key). pose proof (Forall2_length _ _ _ Hkk) as Hl.
    assert (Hl' : length (concat (take (length ms - 1) kss)) = length (concat (take (length ms - 1) ess))).
    { apply (Forall2_take _ _ _ (length ms - 1)) in HFK. clear -HFK.
      induction HFK as [|x y l l' E _ IH]; [done|]. simpl.
      rewrite !length_app, IH, (Forall2_length _ _ _ E). done. }
    rewrite Hb, Hc1, length_app. rewrite Hc2, lower_bound_app, Hc1, length_app in Hb.
    destruct (decide _); lia.
Qed.

Lemma descend_key_rep fuel : forall ht k es keys n pre post ps key,
  k = KMap \/ k = KSet -> entry_keys k es keys -> key_sorted keys ->
  node_at get ht k es n -> ctx get ht k es pre post ps -> small (pre ++ es ++ post) -> ht < fuel ->
  exists c pre' les post' i, descend_key get fuel n (FromSlice key) ps = Some c /\
    leaf_cur get k c pre' les post' i /\ pre ++ es ++ post = pre' ++ les ++ post' /\
    length pre + lower_bound keys key = length pre' + i /\
    (lower_bound keys key < length es -> i < length les) /\
    (lower_bound keys key = length es -> i = length les /\ post' = post).
Proof.
  induction fuel as [|fuel IH]; intros ht k es keys n pre post ps key Hk HK Hks Hna Hctx Hs Hf; [lia|].
  pose proof (Forall2_length _ _ _ HK) as Hlen. pose proof (lower_bound_le keys key) as Hle.
  cbn [descend_key]. destruct ht as [|ht].
  - destruct Hna as [Hkm Hn]. unfold isLeaf. rewrite (nr_kind _ _ _ Hn), bool_decide_false by done.
    cbn [negb]. rewrite (leaf_FindIndex k n es keys key Hk Hn HK). osimpl. rewrite i32_small.
    2:{ apply leaf_small in Hs. unfold small in Hs. lia. }
    eexists _, pre, es, post, _. split_and!; try done.
    split; [done| |lia]. by eexists _, _.
  - destruct Hna as (ms & ess & Hn & Hne & -> & HF). pose proof (sub_tree_mi_ok _ _ _ _ _ HF) as Hok.
    unfold isLeaf. rewrite (nr_kind _ _ _ Hn), bool_decide_true by done. cbn [negb].
    rewrite (meta_numEntries n ms Hn). osimpl.
    rewrite (meta_GetChildHashByKey n ms Hn Hok _ Hne).
    destruct (entry_keys_concat _ _ _ HK) as (kss & -> & HFK).
    pose proof (Forall2_length _ _ _ HF) as Hml.
    destruct (key_choice ht k n ms ess kss key Hk Hn HF Hne HFK Hks)
      as (j & m & es' & ks' & Hm & He & Hk' & Hr & Hb & Hlt).
    destruct (child_of_key ms (FromSlice key) 0) as [r0|]; [|done]. osimpl in Hr. osimpl. rewrite Hr. osimpl.
    cbn [fst snd].
    destruct (ctx_down _ _ _ _ _ _ _ _ _ _ _ _ Hn HF Hm He Hctx) as [Hc' (n' & -> & Hna')]. osimpl.
    pose proof (leaf_small _ _ _ Hs) as Hs1.
    assert (Hj : i32 (Z.of_nat j) = Z.of_nat j).
    { apply i32_small. pose proof (lookup_lt_Some _ _ _ Hm). pose proof (sub_tree_count _ _ _ _ _ HF).
      unfold small in Hs1. lia. }
    rewrite Hj. pose proof (concat_at _ _ _ He) as Hcat.
    assert (Htot : pre ++ concat ess ++ post
      = (pre ++ concat (take j ess)) ++ es' ++ concat (drop (S j) ess) ++ post)
      by (rewrite Hcat; by rewrite <- !app_assoc).
    pose proof (Forall2_lookup_lr _ _ _ _ _ _ HFK He Hk') as HK'.
    pose proof (Forall2_length _ _ _ HK') as El.
    assert (Hks' : key_sorted ks').
    { rewrite (concat_at _ _ _ Hk') in Hks. apply key_sorted_app in Hks as [_ Hks].
      by apply key_sorted_app in Hks as [? _]. }
    rewrite Htot in Hs.
    destruct (IH ht k es' ks' n' _ _ _ key Hk HK' Hks' Hna' Hc' Hs ltac:(lia))
      as (c & pre' & les & post' & i & E & Hl & Et & Ep & Hlt' & Heq).
    exists c, pre', les, post', i. split_and!; try done.
    + by rewrite Htot.
    + rewrite length_app in Ep. lia.
    + intros Hxl. apply Hlt'. rewrite El. by apply Hlt.
    + intros Hxl. pose proof (lower_bound_le ks' key). rewrite Hcat, !length_app in Hxl.
      assert (Hd : concat (drop (S j) ess) = []) by (apply length_zero_iff_nil; lia).
      rewrite Hd in Heq. apply Heq. lia.
Qed.

(** [NodeCursor(hash, key, loader)]. *)
Lemma cursor_by_key_rep fuel ht k h es keys key :
  k = KMap \/ k = KSet -> entry_keys k es keys -> key_sorted keys ->
  tree get ht k h es -> small es -> ht < fuel ->
  exists c, cursor_by_key get fuel (Some h) (FromSlice key) = Some c /\
    (lower_bound keys key < length es -> cur_on get k es c (lower_bound keys key)) /\
    (lower_bound keys key = length es -> cur_end get k es c).
Proof.
  intros Hk HK Hks Ht Hs Hf. destruct (tree_node _ _ _ _ _ Ht) as (n & Hl & Hn).
  unfold cursor_by_key. rewrite Hl. osimpl.
  destruct (descend_key_rep fuel ht k es keys n [] [] [] key Hk HK Hks Hn)
    as (c & pre & les & post & i & -> & Hc & Et & Ep & Hlt & Heq); [done|by rewrite app_nil_r|done|].
  rewrite app_nil_r in Et. simpl in *. exists c. split_and!; [done|..]; intros Hx.
  - exists pre, les, post, i. split_and!; [done|by apply Hlt|done|done].
  - destruct (Heq Hx) as [-> ->]. exists pre, les. split; [done|]. by rewrite app_nil_r in Et.
Qed.

(** The loop of [MetaNode::FindIndexForKey] over the entries. *)
Lemma find_index_loop (F : SeqNode -> option Z) ht k key (rest : bytes) : forall ms ess kss (mem : bytes) sum,
  k = KMap \/ k = KSet -> Forall2 (sub_tree get ht k) ms ess -> Forall2 (entry_keys k) ess kss ->
  key_sorted (concat kss) ->
  (forall es ks n, es ∈ ess -> entry_keys k es ks -> key_sorted ks -> node_at get ht k es n ->
     F n = Some (Z.of_nat (lower_bound ks key))) ->
  (0 <= sum)%Z -> (sum + Z.of_nat (length (concat ess)) < 2 ^ 64)%Z ->
  (fix loop (offs : list nat) (num_elements_sum : Z) : option Z :=
     match offs with
     | [] => Some num_elements_sum
     | off :: offs' =>
         k ← me_orderedKey (drop off (mem ++ concat (mi_bytes <$> ms) ++ rest));
         le ← key_le (FromSlice key) k;
         if le : bool then
           h ← me_targetHash (drop off (mem ++ concat (mi_bytes <$> ms) ++ rest));
           child ← load_node get h; i ← F child; Some (u64 (num_elements_sum + i))
         else
           e ← me_numElements (drop off (mem ++ concat (mi_bytes <$> ms) ++ rest));
           loop offs' (u64 (num_elements_sum + e))
     end) (offsets_from (length mem) (mi_bytes <$> ms)) sum
  = Some (sum + Z.of_nat (lower_bound (concat kss) key))%Z.
Proof.
  intros ms ess kss mem sum Hk HF. revert kss mem sum.
  induction HF as [|m es ms ess (Hc & Hne & Ht) HF IH]; intros kss mem sum HK Hks HFn H0 Hb.
  { apply Forall2_nil_inv_l in HK as ->. simpl. f_equal. lia. }
  apply Forall2_cons_inv_l in HK as (ks & kss' & HK1 & HK & ->). cbn [concat] in Hks, Hb |- *.
  pose proof (Forall2_length _ _ _ HK1) as Hlen. apply key_sorted_app in Hks as [Hs1 Hs2].
  destruct (last ks) as [kl|] eqn:El; [|apply last_None in El as ->; by destruct es].
  rewrite fmap_cons. cbn [offsets_from concat]. rewrite drop_app_length, <- app_assoc.
  destruct (mi_decode m (concat (mi_bytes <$> ms) ++ rest) (ch_ok _ _ _ Hc))
    as (_ & _ & Ee & Eh & key' & Ek & Hsim).
  rewrite Ek. osimpl. rewrite (key_sim_le _ _ _ _ (key_sim_refl (FromSlice key)) Hsim).
  rewrite (child_key_le k m es ks kl key Hk Hc HK1 El). osimpl.
  pose proof (lower_bound_last ks kl key Hs1 El) as Hlb. rewrite lower_bound_app.
  rewrite length_app in Hb. destruct (slice_lt kl key); cbn [negb].
  - rewrite decide_False by (by rewrite Hlb). rewrite Ee. osimpl. rewrite (ch_elements _ _ _ Hc).
    rewrite (wrap_small 64) by lia.
    specialize (IH kss' (mem ++ mi_bytes m) (sum + Z.of_nat (length es))%Z HK Hs2).
    rewrite length_app, <- app_assoc in IH. rewrite IH; [f_equal; lia| |lia|lia].
    intros es' ks' n Hin. apply HFn. by right.
  - rewrite decide_True by (by apply Hlb). rewrite Eh. osimpl.
    destruct (tree_node _ _ _ _ _ Ht) as (n & -> & Hn). osimpl.
    rewrite (HFn es ks n); [|by left|done..]. osimpl. f_equal. apply (wrap_small 64).
    pose proof (lower_bound_le ks key). lia.
Qed.

(** [FindIndexForKey] counts the entries before the key in the whole tree. *)
Lemma FindIndexForKey_rep fuel : forall ht k es keys n key,
  k = KMap \/ k = KSet -> entry_keys k es keys -> key_sorted keys -> node_at get ht k es n ->
  small es -> ht < fuel ->
  FindIndexForKey get fuel n (FromSlice key) = Some (Z.of_nat (lower_bound keys key)).
Proof.
  induction fuel as [|fuel IH]; intros ht k es keys n key Hk HK Hks Hna Hs Hf; [lia|].
  cbn [FindIndexForKey]. unfold isLeaf. destruct ht as [|ht].
  - destruct Hna as [Hkm Hn]. rewrite (nr_kind _ _ _ Hn), bool_decide_false by done. cbn [negb].
    by rewrite (leaf_FindIndex k n es keys key Hk Hn HK).
  - destruct Hna as (ms & ess & Hn & Hne & -> & HF).
    rewrite (nr_kind _ _ _ Hn), bool_decide_true by done. cbn [negb].
    destruct (entry_keys_concat _ _ _ HK) as (kss & -> & HFK).
    destruct (meta_data n ms Hn) as [rest ->]. osimpl. rewrite (nr_offs _ _ _ Hn).
    pose proof (find_index_loop (fun child => FindIndexForKey get fuel child (FromSlice key)) ht k key rest
      ms ess kss (le_encode 4 (Z.of_nat (length ms))) 0 Hk HF HFK Hks) as L.
    rewrite length_le_encode in L. rewrite L; [done| |lia|unfold small in Hs; lia].
    intros es' ks n' Hin HK' Hks' Hn'. eapply IH; [done..| |lia].
    apply list_elem_of_lookup in Hin as [i Hi]. unfold small in *.
    rewrite (concat_at _ _ _ Hi), !length_app in Hs. lia.
Qed.

End KeySearch.
