(* ===== verification/ReadProps.v ===== *)
(** * Reading objects

    What the read operations of lists, maps, sets and blobs return on a stored
    tree, and on an object that was just created. *)

From S2P Require Import Prelude Types Slice HashVal Chunk RollingHash Node NodeSearch Chunker.
From S2P Require Import Canonical Leaf Store Cursor Builder Objects Build Tree TreeProps.
From S2P Require Import CursorProps KeySearch.

(** ** Scanning *)

Section Scan.
Context `{HashFunction}.
Variable get : Hash -> option Chunk.

(** The entries that a cursor shows while [Advance(true)] moves it on. *)
Fixpoint scan (steps : nat) (c : NodeCursor) : option (list bytes) :=
  match steps with
  | O => Some []
  | S steps' =>
      l ← head c; d ← current l; n ← numCurrentBytes l;
      r ← Advance get true c;
      rest ← (if fst r : bool then scan steps' (snd r) else Some []);
      Some (take n d :: rest)
  end.

Lemma scan_rep k es steps : forall c pos,
  small es -> cur_on get k es c pos -> length es - pos <= steps ->
  scan steps c = Some (drop pos es).
Proof.
  induction steps as [|steps IH]; intros c pos Hs Hc Hst; pose proof (cur_on_lt _ _ _ _ _ Hc); [lia|].
  destruct (cur_on_read _ _ _ _ _ Hs Hc) as (l & ps & e & rest & -> & He & _ & Hcur & Hnum).
  destruct (Advance_entry _ _ _ _ _ Hs Hc) as [H1 H2].
  cbn [scan head]. osimpl. rewrite Hcur. osimpl. rewrite Hnum. osimpl.
  rewrite take_app_length, (drop_S _ _ _ He).
  destruct (decide (S pos = length es)) as [Hl|Hl].
  - destruct (H2 Hl) as (c' & -> & _). osimpl. rewrite (drop_ge es) by lia. done.
  - destruct H1 as (c' & -> & Hc'); [lia|]. osimpl. cbn [fst snd]. rewrite (IH c' (S pos)) by (done || lia). done.
Qed.

End Scan.

(** ** Objects *)

Section ReadProps.
Context `{HashFunction} `{Uninit} `{StdSort} {St : Type} `{ChunkStore St}.
Variable (params : NodeKind -> ChunkerParams) (fuel : nat).
Implicit Types (st : St) (o : option SeqNode) (es : list bytes).

(** [o] is a handle on a tree of [st] with the entries [es]. *)
Definition obj_rep st o (k : NodeKind) es : Prop :=
  exists n h ht, o = Some n /\ chunk_hash (chunk_ n) = Some (Some h) /\ ht < fuel /\
    node_at (st_load st) ht k es n /\ tree (st_load st) ht k h es.

Lemma UList_Get_rep st o items idx :
  obj_rep st o KList (list_Encode1 <$> items) -> small items ->
  Forall (fun s => (Z.of_nat (len s + 4) < 2 ^ 32)%Z) items ->
  UList_Get fuel st o (Z.of_nat idx) = Some (default [] (items !! idx)).
Proof.
  intros (n & h & ht & -> & Hh & Hf & Hn & Ht) Hs Hi. unfold UList_Get. osimpl. rewrite Hh. osimpl.
  assert (Hs' : small (list_Encode1 <$> items)) by (unfold small in *; by rewrite length_fmap).
  destruct (cursor_by_index_rep (st_load st) fuel ht KList h _ idx Ht Hs' Hf) as (C1 & C2 & C3).
  rewrite length_fmap in C1, C2, C3. destruct (lt_eq_lt_dec idx (length items)) as [[Hlt|Heq]|Hgt].
  - destruct (C1 Hlt) as (c & -> & Hc). osimpl.
    destruct (cur_on_read _ _ _ _ _ Hs' Hc) as (l & ps & e & rest & -> & He & -> & -> & _). osimpl.
    rewrite list_lookup_fmap in He. destruct (items !! idx) as [s|] eqn:Es; [|done].
    injection He as <-. apply list_Decode_entry. by eapply Forall_lookup_1 in Hi.
  - destruct (C2 Heq) as (c & -> & Hc). osimpl.
    destruct (cur_end_isEnd _ _ _ _ Hs' Hc) as (l & ps & -> & ->). osimpl.
    by rewrite lookup_ge_None_2 by lia.
  - rewrite (C3 Hgt). osimpl. by rewrite lookup_ge_None_2 by lia.
Qed.

(** *** Searching *)

Lemma find_cursor_rep st k h ht es keys key :
  k = KMap \/ k = KSet -> entry_keys k es keys -> key_sorted keys ->
  tree (st_load st) ht k h es -> small es -> ht < fuel ->
  exists l, find_cursor fuel st (Some h) (FromSlice key) = Some (bool_decide (key ∈ keys), l) /\
    (forall i, keys !! i = Some key -> exists e rest, es !! i = Some e /\ current l = Some (e ++ rest)).
Proof.
  intros Hk HK Hks Ht Hs Hf. unfold find_cursor.
  destruct (cursor_by_key_rep (st_load st) fuel ht k h es keys key Hk HK Hks Ht Hs Hf) as (c & -> & C1 & C2).
  osimpl. pose proof (Forall2_length _ _ _ HK) as Hlen.
  pose proof (lower_bound_le keys key) as Hle.
  destruct (decide (lower_bound keys key < length es)) as [Hlt|Hge].
  - destruct (cur_on_read _ _ _ _ _ Hs (C1 Hlt)) as (l & ps & e & rest & -> & He & Hend & Hcur & _).
    destruct (cur_on_key _ _ _ _ _ e Hs (C1 Hlt) He) as (l' & ps' & E & Hkey);
      [by destruct Hk as [-> | ->]..|]. injection E as <- <-.
    rewrite Hend. osimpl. rewrite Hkey.
    destruct (Forall2_lookup_l _ _ _ _ _ HK He) as (kk & Hkk & Ek). rewrite Ek. osimpl.
    rewrite key_eq_slices. osimpl. exists l. split.
    + do 2 f_equal. apply bool_decide_ext. split.
      * intros ->. by eapply list_elem_of_lookup_2.
      * intros (i & Hi)%list_elem_of_lookup. pose proof (lower_bound_sorted _ _ _ Hks Hi) as Hlb.
        rewrite Hlb in Hkk. congruence.
    + intros i Hi. rewrite (lower_bound_sorted _ _ _ Hks Hi) in He. eauto.
  - destruct (cur_end_isEnd _ _ _ _ Hs (C2 ltac:(lia))) as (l & ps & -> & ->). osimpl. exists l.
    assert (Hno : forall i, keys !! i <> Some key).
    { intros i Hi. pose proof (lower_bound_sorted _ _ _ Hks Hi). apply lookup_lt_Some in Hi. lia. }
    split; [|intros i Hi; by apply Hno in Hi].
    rewrite bool_decide_false; [done|]. intros (i & Hi)%list_elem_of_lookup. by apply Hno in Hi.
Qed.

Lemma map_entry_keys items :
  Forall item_ok items -> entry_keys KMap (map_Encode1 <$> items) (kv_key <$> items).
Proof.
  intros Hi. apply Forall2_fmap, Forall_Forall2_diag. eapply Forall_impl; [exact Hi|].
  intros kv Hkv. simpl. rewrite <- (app_nil_r (map_Encode1 kv)). by apply map_orderedKey_entry.
Qed.

Lemma set_entry_keys items :
  Forall elem_ok items -> entry_keys KSet (set_Encode1 <$> items) items.
Proof.
  intros Hi. unfold entry_keys. rewrite <- (list_fmap_id items) at 2.
  apply Forall2_fmap, Forall_Forall2_diag. eapply Forall_impl; [exact Hi|].
  intros s Hs. simpl. rewrite <- (app_nil_r (set_Encode1 s)). by apply set_orderedKey_entry.
Qed.

(** The value of a key in a list of items. *)
Fixpoint assoc_value (items : list KVItem) (key : Slice) : option Slice :=
  match items with
  | [] => None
  | it :: items' => if decide (kv_key it = key) then Some (kv_val it) else assoc_value items' key
  end.

Lemma assoc_value_None items key : assoc_value items key = None <-> key ∉ kv_key <$> items.
Proof.
  induction items as [|it items IH]; simpl; [split; [intros _; apply not_elem_of_nil|done]|].
  case_decide; [|set_solver]. split; [done|]. intros Hn. destruct Hn. subst. apply list_elem_of_here.
Qed.

Lemma assoc_value_Some items key v :
  assoc_value items key = Some v ->
  exists i it, items !! i = Some it /\ kv_key it = key /\ kv_val it = v.
Proof.
  induction items as [|it items IH]; simpl; [done|]. case_decide.
  - intros [= <-]. by exists 0, it.
  - intros (i & it' & Hi & Hk & Hv)%IH. by exists (S i), it'.
Qed.

Lemma UMap_Get_rep st o items key :
  obj_rep st o KMap (map_Encode1 <$> items) -> small items -> Forall item_ok items ->
  key_sorted (kv_key <$> items) ->
  UMap_Get fuel st o key = Some (default [] (assoc_value items key)).
Proof.
  intros (n & h & ht & -> & Hh & Hf & Hn & Ht) Hs Hi Hks. unfold UMap_Get. osimpl. rewrite Hh. osimpl.
  assert (Hs' : small (map_Encode1 <$> items)) by (unfold small in *; by rewrite length_fmap).
  destruct (find_cursor_rep st KMap h ht _ _ key ltac:(by left) (map_entry_keys items Hi) Hks Ht Hs' Hf)
    as (l & -> & Hl). osimpl. cbn [fst snd].
  destruct (assoc_value items key) as [v|] eqn:E.
  - apply assoc_value_Some in E as (i & it & Hit & <- & <-).
    assert (Hki : (kv_key <$> items) !! i = Some (kv_key it)) by (by rewrite list_lookup_fmap, Hit).
    rewrite bool_decide_true by (by eapply list_elem_of_lookup_2).
    destruct (Hl i Hki) as (e & rest & He & ->). osimpl.
    rewrite list_lookup_fmap, Hit in He. injection He as <-.
    destruct (map_entry_decode it rest) as (_ & Hv); [by eapply Forall_lookup_1 in Hi|].
    rewrite Hv. osimpl. cbn [fst snd]. by apply (read_bytes_app 0 _ []).
  - by rewrite bool_decide_false by (by apply assoc_value_None).
Qed.

Lemma USet_Get_rep st o items key :
  obj_rep st o KSet (set_Encode1 <$> items) -> small items -> Forall elem_ok items ->
  key_sorted items ->
  USet_Get fuel st o key = Some (if decide (key ∈ items) then key else []).
Proof.
  intros (n & h & ht & -> & Hh & Hf & Hn & Ht) Hs Hi Hks. unfold USet_Get. osimpl. rewrite Hh. osimpl.
  assert (Hs' : small (set_Encode1 <$> items)) by (unfold small in *; by rewrite length_fmap).
  destruct (find_cursor_rep st KSet h ht _ _ key ltac:(by right) (set_entry_keys items Hi) Hks Ht Hs' Hf)
    as (l & -> & Hl). osimpl. cbn [fst snd].
  case_decide; [by rewrite bool_decide_true|by rewrite bool_decide_false].
Qed.

(** *** Blobs *)

(** Equality of the results of the inner loop. *)
Ltac level_eq l :=
  unfold set_idx; cbn [seq_node_ idx_]; apply f_equal, f_equal2;
  [apply f_equal2; [apply (f_equal (mkCur (seq_node_ l)))|]|]; lia.

(** The inner loop: it stops when [len] bytes are counted, or at the end of
    the chunk. *)
Lemma read_chunk_rep les steps : forall l i total cc len_,
  node_rep (seq_node_ l) KBlob les -> small les -> idx_ l = Z.of_nat i -> i < length les ->
  length les - i <= steps ->
  read_chunk steps len_ l total cc =
    Some (if decide (total < len_ <= total + (length les - i))
          then (set_idx l (Z.of_nat (i + (len_ - total) - 1)), len_, cc + (len_ - total))
          else (set_idx l (Z.of_nat (length les)), total + (length les - i), cc + (length les - i))).
Proof.
  induction steps as [|steps IH]; intros l i total cc len_ Hn Hs Hi Hlt Hst; [lia|].
  destruct (lookup_lt_is_Some_2 les i Hlt) as [e He].
  pose proof (Forall_lookup_1 _ _ _ _ (nr_entries _ _ _ Hn) He) as Hone. simpl in Hone.
  cbn [read_chunk]. rewrite (numCurrentBytes_rep l KBlob les i e Hn Hs Hi He), Hone. osimpl.
  destruct (Nat.eqb_spec (total + 1) len_) as [El|Nl].
  - rewrite decide_True by lia.
    assert (Hl : l = set_idx l (Z.of_nat i)) by (destruct l; simpl in *; by rewrite <- Hi).
    rewrite Hl at 1. level_eq l.
  - pose proof (nentries_rep l KBlob les Hn Hs) as Hne.
    destruct (decide (S i < length les)) as [Hin|Hout].
    + rewrite (advance_here_in l _ i Hne Hi Hin). osimpl. cbn [fst snd].
      rewrite (IH _ (S i)) by (done || lia).
      destruct (decide (total + 1 < len_ <= _)) as [D|D].
      * rewrite decide_True by lia. level_eq l.
      * rewrite decide_False by lia. level_eq l.
    + rewrite (advance_here_out l _ i Hne Hi) by lia. osimpl. cbn [fst snd].
      rewrite decide_False by lia. level_eq l.
Qed.

(** The memory from the current entry on. *)
Lemma current_blob l les i :
  node_rep (seq_node_ l) KBlob les -> small les -> idx_ l = Z.of_nat i -> i < length les ->
  exists rest, current l = Some (concat (drop i les) ++ rest).
Proof.
  intros Hn Hs Hi Hlt. unfold current.
  rewrite Hi, (nentries_rep _ _ _ Hn Hs), (proj2 (Z.eqb_neq _ _)) by lia. osimpl.
  rewrite (proj2 (Z.eqb_neq _ _)) by lia. rewrite Nat2Z.id.
  destruct (lookup_lt_is_Some_2 les i Hlt) as [e He].
  destruct (node_data_rep _ _ _ _ _ Hn He) as [rest ->]. exists rest.
  rewrite (drop_S _ _ _ He). simpl. by rewrite <- app_assoc.
Qed.

Lemma read_ones les rest n :
  Forall (entry_ok KBlob) les -> n <= length les ->
  read_bytes 0 n (concat les ++ rest) = Some (concat (take n les)).
Proof.
  intros He Hn. rewrite (concat_take_drop les n), <- app_assoc.
  apply (read_bytes_app 0 _ []); [done|].
  rewrite concat_ones by (by apply Forall_take). rewrite length_take. lia.
Qed.

(** The outer loop: from a position of which [rem] are the entries left. *)
Lemma read_chunks_rep st len_ size steps : forall c pre les post i total,
  leaf_cur (st_load st) KBlob c pre les post i -> i < length les -> small (pre ++ les ++ post) ->
  let rem := drop i les ++ post in
  length rem <= steps -> length (pre ++ les ++ post) <= size -> (total = len_ -> len_ = 0) ->
  read_chunks steps size st len_ c total
  = Some (concat (if decide (total < len_) then take (len_ - total) rem else rem)).
Proof.
  induction steps as [|steps IH]; intros c pre les post i total Hc Hlt Hs rem Hst Hsz Ht.
  { subst rem. rewrite length_app, length_drop in Hst. lia. }
  pose proof Hc as [Hk (l & ps & -> & Hn & Hi & Hctx) Hle]. pose proof (leaf_small _ _ _ Hs) as Hs'.
  destruct (current_blob l les i Hn Hs' Hi Hlt) as [rest Hcur]. cbn [read_chunks]. rewrite Hcur. osimpl.
  rewrite !length_app in Hsz.
  rewrite (read_chunk_rep les size l i total 0 len_ Hn Hs' Hi Hlt) by lia. osimpl.
  pose proof (Forall_drop _ i _ (nr_entries _ _ _ Hn)) as Hones.
  destruct (decide (total < len_ <= total + (length les - i))) as [D|D].
  - rewrite read_ones by (done || rewrite length_drop; lia). osimpl. rewrite Nat.eqb_refl.
    rewrite decide_True by lia. subst rem. rewrite take_app_le by (rewrite length_drop; lia). done.
  - rewrite read_ones by (done || rewrite length_drop; lia). osimpl.
    rewrite (proj2 (Nat.eqb_neq _ _)) by lia. simpl Nat.add. rewrite (take_ge (drop i les)) by (rewrite length_drop; lia).
    assert (Hc' : leaf_cur (st_load st) KBlob (set_idx l (Z.of_nat (length les)) :: ps) pre les post (length les)).
    { split; [done| |done]. by eexists _, _. }
    destruct (Advance_leaf _ _ _ _ _ _ _ Hs Hc' ltac:(lia)) as [A1 A2].
    destruct (decide (post = [])) as [->|Hp].
    + destruct (A2 eq_refl) as (c'' & -> & _). osimpl. cbn [fst snd]. subst rem.
      rewrite app_nil_r. destruct (decide (total < len_)); [|done].
      rewrite take_ge by (rewrite length_drop; lia). done.
    + destruct (A1 Hp) as (c'' & les' & post' & -> & Hc'' & Hne' & ->). osimpl. cbn [fst snd].
      assert (0 < length les') by (destruct les'; [done|simpl; lia]).
      subst rem. rewrite (IH c'' (pre ++ les) les' post' 0 (total + (length les - i)) Hc'').
      * osimpl. f_equal. simpl. rewrite drop_0.
        destruct (decide (total < len_)) as [D2|D2].
        -- rewrite decide_True by lia. rewrite (take_app_ge (drop i les)) by (rewrite length_drop; lia).
           rewrite concat_app, length_drop. do 3 f_equal. lia.
        -- rewrite decide_False by lia. by rewrite !concat_app.
      * lia.
      * by rewrite <- app_assoc.
      * simpl. rewrite drop_0. rewrite !length_app, length_drop in *. lia.
      * rewrite !length_app in *. lia.
      * lia.
Qed.

Lemma concat_take_blob n x data :
  concat (take n (drop x (blob_entries data))) = take n (drop x data).
Proof.
  unfold blob_entries. rewrite <- fmap_drop, <- fmap_take. apply concat_blob_entries.
Qed.

Lemma UBlob_Read_rep st o data pos len_ :
  obj_rep st o KBlob (blob_entries data) -> small data ->
  UBlob_Read fuel st o (Z.of_nat pos) len_
  = Some (if decide (len_ = 0) then drop pos data else take len_ (drop pos data)).
Proof.
  intros (n & h & ht & -> & Hh & Hf & Hn & Ht) Hs. unfold UBlob_Read. osimpl.
  assert (Hl : length (blob_entries data) = length data) by apply length_fmap.
  assert (Hs' : small (blob_entries data)) by (unfold small in *; by rewrite Hl).
  rewrite (node_numElements _ _ _ _ _ Hn Hs'), Hl. osimpl.
  destruct (Z.leb_spec (Z.of_nat (length data)) (Z.of_nat pos)) as [Hge|Hlt].
  { rewrite drop_ge by lia. destruct (decide _); [done|]. by rewrite take_nil. }
  rewrite Hh. osimpl.
  destruct (cursor_by_index_rep (st_load st) fuel ht KBlob h _ pos Ht Hs' Hf) as (C1 & _).
  destruct C1 as (c & -> & (pre & les & post & i & Hc & Hi & E & Ep)); [lia|]. osimpl.
  assert (Hrem : drop i les ++ post = drop pos (blob_entries data)).
  { rewrite E, Ep, drop_app_ge by lia. replace (length pre + i - length pre) with i by lia.
    by rewrite drop_app_le by lia. }
  rewrite (read_chunks_rep st len_ _ _ c pre les post i 0 Hc Hi); try lia.
  - rewrite Hrem. f_equal. destruct (decide (len_ = 0)) as [->|Hz].
    + rewrite decide_False by lia. rewrite <- (take_ge (drop pos (blob_entries data)) (length data)).
      * rewrite concat_take_blob, take_ge; [done|rewrite length_drop; lia].
      * rewrite length_drop, Hl. lia.
    + rewrite decide_True by lia. rewrite Nat.sub_0_r. apply concat_take_blob.
  - by rewrite <- E.
  - rewrite Hrem, length_drop, Hl. lia.
  - rewrite <- E, Hl. lia.
Qed.

End ReadProps.
