(* ===== verification/CreateProps.v ===== *)
(** * Creating objects

    An object that was just created reads as what it was created from. *)

From S2P Require Import Prelude Types Slice HashVal Chunk RollingHash Node NodeSearch Chunker.
From S2P Require Import Canonical Leaf Store Cursor Builder Objects Build Tree TreeProps.
From S2P Require Import CursorProps KeySearch ReadProps.

Section CreateProps.
Context `{HashFunction} `{Uninit} `{StdSort} {St : Type} `{ChunkStoreSpec St}.
Variable (params : NodeKind -> ChunkerParams) (fuel : nat).
Implicit Types (st : St) (es : list bytes) (k : NodeKind).

(** The entries can be cut into nodes, and so can the meta entries above them. *)
Definition fits k es : Prop :=
  exists B K, level_ok B K k (params k) es /\
    params_ok (params KMeta) /\ cp_window (params KMeta) <= cp_max (params KMeta) /\
    (Z.of_nat (cp_max (params KMeta) + (meta_head + K)) + 64 < 2 ^ 32)%Z /\
    meta_head + K < cp_window (params KMeta).

(** A tree of the entries can be built on [st]. *)
Record can_build st k es : Prop := {
  cb_kind : k <> KMeta;
  cb_fits : fits k es;
  cb_fuel : length es < fuel;
  cb_small : small es;
  cb_puts : puts_succeed (St := St);
  cb_collisions : no_collisions st (tree_nodes fuel (params KMeta) k (params k) es)
}.

(** [h] is the root of a stored tree. *)
Definition rooted st k (h : bytes) es : Prop :=
  exists ht c, ht < fuel /\ tree (st_load st) ht k h es /\
    st_load st (Some h) = Some c /\ chunk_hash c = Some (Some h).

Lemma build_one_rooted st k seg es :
  can_build st k es -> seg_rep seg es ->
  exists h st', build_one params fuel k st seg = Some (Some h, st') /\ rooted st' k h es.
Proof.
  intros [Hk (B & K & Hl & Hp & Hw & Hsz & HK) Hf Hs Hput Hnc] Hseg. unfold build_one.
  assert (Hsegs : segs_rep [seg] [es]) by (by constructor).
  assert (E : concat [es] = es) by apply app_nil_r.
  destruct (build_tree k (params k) (params KMeta) st [seg] [es] B K fuel)
    as (h & st' & Hb & _ & (ht & Hht & Ht) & c & Hc & Hh); rewrite ?E in *; try done.
  exists h, st'. split; [done|]. by exists ht, c.
Qed.

(** The object without elements is its empty leaf. *)
Lemma write_empty_rooted st k :
  can_build st k [] -> exists h st', write_empty k st = Some (Some h, st') /\ rooted st' k h [].
Proof.
  intros [Hk (B & K & Hl & _) Hf _ Hput Hnc]. unfold write_empty.
  assert (Hok : entries_ok k []) by apply (lo_entries _ _ _ _ _ Hl).
  assert (Hsz : size_ok []) by (unfold size_ok; simpl; lia).
  rewrite (Make_rep k [] []); [|constructor|done|done|by destruct k]. osimpl. cbn [ci_chunk concat].
  pose proof (node_chunk_rep k [] Hsz) as Hc. rewrite (chunk_rep_hash _ _ _ Hc). osimpl.
  eexists _, _. split; [reflexivity|]. simpl in Hf.
  destruct fuel as [|f] eqn:Ef; [lia|].
  assert (Hst : Forall (stored (st_load (put_all st [(k, [])]))) [(k, [])]).
  { apply nodes_stored; [done|by repeat constructor|].
    cbn [tree_nodes] in Hnc. change (level_groups (params k) []) with [@nil bytes] in Hnc.
    rewrite app_nil_r in Hnc. exact Hnc. }
  apply Forall_cons in Hst as [(c & Hg & Hc') _]. cbn [fst snd] in *.
  exists 0, c. split_and!; [rewrite Ef; lia| |exact Hg|].
  - split_and!; [done|done|done|]. exists c. split; [exact Hg|exact Hc'].
  - by rewrite (chunk_rep_hash _ _ _ Hc').
Qed.

(** What [SetNodeForHash] makes of a root: the node that the parser makes. *)
Lemma rooted_node st k h es :
  rooted st k h es -> exists c n, st_load st (Some h) = Some c /\ CreateFromChunk c = Some n /\
    (chunk_type c = Some kMeta \/ chunk_type c = Some (kind_type k)) /\ obj_rep fuel st (Some n) k es.
Proof.
  intros (ht & c & Hht & Ht & Hl & Hh). exists c.
  assert (exists k' es', chunk_rep c (kind_type k') (node_payload k' es') /\ entries_ok k' es' /\
    (k' = KMeta \/ k' = k)) as (k' & es' & Hc & Hok & Hk').
  { destruct ht as [|ht]; cbn [tree] in Ht.
    - destruct Ht as (_ & Hok & _ & c' & Hg & Hc). rewrite Hg in Hl. simplify_eq. eauto 10.
    - destruct Ht as (c' & ms & ess & Hg & Hc & Hok & _). rewrite Hg in Hl. simplify_eq.
      exists KMeta, (mi_bytes <$> ms). eauto. }
  destruct (CreateFromChunk_rep c k' es' Hc Hok) as (n & Hn & Hcn & Hr).
  exists n. split_and!; [done|done| |].
  - rewrite (chunk_rep_type _ _ _ Hc). destruct Hk' as [-> | ->]; [by left|by right].
  - destruct (tree_node _ _ _ _ _ Ht) as (n' & Hl' & Hn'). unfold load_node in Hl'.
    rewrite Hl in Hl'. osimpl in Hl'. rewrite Hn in Hl'. injection Hl' as <-. exists n, h, ht. rewrite Hcn. by split_and!.
Qed.

Lemma SetNode_rep st k h es :
  rooted st k h es -> exists o, obj_rep fuel st o k es /\
    match k with
    | KBlob => UBlob_SetNodeForHash st (Some h) = Some o
    | KList => UList_SetNodeForHash st (Some h) = Some o
    | KMap => UMap_SetNodeForHash st (Some h) = Some o
    | KSet => USet_SetNodeForHash st (Some h) = Some o
    | KMeta => True
    end.
Proof.
  intros Hr. destruct (rooted_node _ _ _ _ Hr) as (c & n & Hl & Hn & Ht & Ho). exists (Some n).
  split; [done|]. unfold CreateFromChunk in Hn.
  destruct k; try done; unfold UBlob_SetNodeForHash, UList_SetNodeForHash, UMap_SetNodeForHash,
    USet_SetNodeForHash; rewrite Hl; osimpl; destruct Ht as [Ht|Ht]; rewrite Ht in Hn |- *; osimpl;
    osimpl in Hn; simpl in Hn |- *;
    try (by simplify_eq); apply bind_Some in Hn as (offs & -> & Hn); osimpl; by simplify_eq.
Qed.

Lemma SBlob_new_rep st data :
  can_build st KBlob (blob_entries data) ->
  exists o st', SBlob_new params fuel st data = Some (o, st') /\ obj_rep fuel st' o KBlob (blob_entries data).
Proof.
  intros Hb. unfold SBlob_new.
  assert (exists h st', (if slice_empty data then write_empty KBlob st
    else build_one params fuel KBlob st (mkSeg data (len data) (FixedSegment 1))) = Some (Some h, st') /\
    rooted st' KBlob h (blob_entries data)) as (h & st' & -> & Hr).
  { destruct data as [|b data]; [by apply write_empty_rooted|].
    apply build_one_rooted; [done|]. apply blob_segment_rep. }
  osimpl. cbn [fst snd]. destruct (SetNode_rep _ _ _ _ Hr) as (o & Ho & ->). osimpl. eauto.
Qed.

Lemma SList_new_rep st items :
  can_build st KList (list_Encode1 <$> items) ->
  exists o st', SList_new params fuel st items = Some (o, st') /\
    obj_rep fuel st' o KList (list_Encode1 <$> items).
Proof.
  intros Hb. unfold SList_new.
  assert (exists h st', (if length items =? 0 then write_empty KList st
    else build_one params fuel KList st (list_Encode items)) = Some (Some h, st') /\
    rooted st' KList h (list_Encode1 <$> items)) as (h & st' & -> & Hr).
  { destruct items as [|b items]; [by apply write_empty_rooted|].
    apply build_one_rooted; [done|]. apply segment_of_rep.
    destruct (cb_fits _ _ _ Hb) as (B & K & Hl & _). apply (entries_ne KList), (lo_entries _ _ _ _ _ Hl). }
  osimpl. cbn [fst snd]. destruct (SetNode_rep _ _ _ _ Hr) as (o & Ho & ->). osimpl. eauto.
Qed.

(** *** The items of a map *)

Definition key_at (keys : list Slice) (i : nat) : Slice := default [] (keys !! i).

(** Dropping equal neighbours of sorted indices leaves one index per key. *)
Lemma unique_indexes_rep keys idx :
  Forall (fun i => i < length keys) idx ->
  StronglySorted (fun i j => slice_lt (key_at keys j) (key_at keys i) = false) idx ->
  exists r, unique_indexes keys idx = Some r /\ (forall i, i ∈ r -> i ∈ idx) /\
    (forall i, i ∈ idx -> exists j, j ∈ r /\ key_at keys j = key_at keys i) /\
    StronglySorted (fun i j => slice_lt (key_at keys i) (key_at keys j) = true) r.
Proof.
  induction idx as [|i idx IH]; intros Hv Hs; [exists []; split_and!; [done|done|set_solver|constructor]|].
  apply Forall_cons in Hv as [Hi Hv]. apply StronglySorted_inv in Hs as [Hs Hle].
  destruct (IH Hv Hs) as (r & E & Hin & Hcov & Hr). cbn [unique_indexes]. rewrite E. osimpl.
  destruct idx as [|j idx'].
  { cbn in E. injection E as <-. exists [i]. split_and!; [done|set_solver|set_solver|by repeat constructor]. }
  apply Forall_cons in Hv as [Hj _].
  assert (Ek : forall x, x < length keys -> keys !! x = Some (key_at keys x)).
  { intros x Hx. unfold key_at. by destruct (lookup_lt_is_Some_2 keys x Hx) as [? ->]. }
  rewrite (Ek i Hi), (Ek j Hj). osimpl.
  apply Forall_cons in Hle as [Hij Hle].
  destruct (slice_lt (key_at keys i) (key_at keys j)) eqn:El.
  - exists (i :: r). split_and!; [done|set_solver| |].
    + intros x [->|Hx]%elem_of_cons; [exists i; set_solver|]. destruct (Hcov x Hx) as (y & Hy & Ey).
      exists y. set_solver.
    + constructor; [done|]. apply Forall_forall. intros x Hx. apply Hin in Hx.
      apply StronglySorted_inv in Hs as [_ Hjx]. apply elem_of_cons in Hx as [->|Hx]; [done|].
      rewrite Forall_forall in Hjx. specialize (Hjx x Hx).
      destruct (slice_lt (key_at keys j) (key_at keys x)) eqn:Ejx;
        [by apply (st_trans (ltb := slice_lt) _ (key_at keys j))|].
      by rewrite <- (st_total (ltb := slice_lt) _ _ Ejx Hjx).
  - pose proof (st_total (ltb := slice_lt) _ _ El Hij) as Eq.
    rewrite slice_eq_spec, bool_decide_true by done. exists r. split_and!; [done|set_solver| |done].
    intros x [->|Hx]%elem_of_cons; [|by apply Hcov]. rewrite Eq. apply Hcov. by left.
Qed.

(** The items that the constructor encodes. *)
Definition SMap_items (keys vals : list Slice) : option (list KVItem) :=
  idx ← unique_indexes keys (SortIndexes keys); mapM (item_at keys vals) idx.

Lemma SMap_items_rep keys vals :
  length vals = length keys ->
  exists items, SMap_items keys vals = Some items /\ key_sorted (kv_key <$> items) /\
    (forall key, key ∈ kv_key <$> items <-> key ∈ keys) /\
    (forall it, it ∈ items -> exists i, keys !! i = Some (kv_key it) /\ vals !! i = Some (kv_val it)).
Proof.
  intros Hlen. unfold SMap_items.
  assert (Hall : forall i, i ∈ SortIndexes keys <-> i < length keys).
  { intros i. rewrite (sort_perm keys), elem_of_seq. lia. }
  destruct (unique_indexes_rep keys (SortIndexes keys)) as (r & -> & Hin & Hcov & Hr).
  { apply Forall_forall. intros i. apply Hall. }
  { apply sorted_of_lookup. intros i j x y Hij Hx Hy.
    assert (Hx' : x < length keys) by (apply Hall; by eapply list_elem_of_lookup_2).
    assert (Hy' : y < length keys) by (apply Hall; by eapply list_elem_of_lookup_2).
    destruct (lookup_lt_is_Some_2 _ _ Hx') as [a Ha], (lookup_lt_is_Some_2 _ _ Hy') as [b Hb].
    unfold key_at. rewrite Ha, Hb. simpl. by apply (sort_sorted keys i j x y Hij Hx Hy). }
  osimpl. set (item i := mkKV (key_at keys i) (key_at vals i)).
  assert (Hitem : forall i, i ∈ r -> item_at keys vals i = Some (item i) /\
    keys !! i = Some (kv_key (item i)) /\ vals !! i = Some (kv_val (item i))).
  { intros i Hi%Hin%Hall. unfold item_at, item, key_at. simpl.
    destruct (lookup_lt_is_Some_2 keys i Hi) as [a Ha]. rewrite Ha.
    destruct (lookup_lt_is_Some_2 vals i ltac:(lia)) as [b Hb]. rewrite Hb. done. }
  exists (item <$> r). split_and!.
  - apply mapM_total. intros i Hi. by apply Hitem.
  - apply StronglySorted_Sorted. rewrite <- list_fmap_compose. clear -Hr.
    induction Hr as [|i r Hr IH Hi]; constructor; [done|]. by apply Forall_fmap.
  - intros key. rewrite <- list_fmap_compose, list_elem_of_fmap. split.
    + intros (i & -> & Hi). destruct (Hitem i Hi) as (_ & Hk & _). by eapply list_elem_of_lookup_2.
    + intros (i & Hi)%list_elem_of_lookup. pose proof (lookup_lt_Some _ _ _ Hi) as Hlt.
      destruct (Hcov i) as (j & Hj & Ej); [by apply Hall|]. exists j. split; [|done].
      unfold item. simpl. rewrite Ej. unfold key_at. by rewrite Hi.
  - intros it (i & -> & Hi)%list_elem_of_fmap. exists i. by apply Hitem.
Qed.

Lemma SMap_new_rep st keys vals items :
  SMap_items keys vals = Some items -> length vals = length keys ->
  can_build st KMap (map_Encode1 <$> items) -> Forall item_ok items ->
  exists o st', SMap_new params fuel st keys vals = Some (o, st') /\
    obj_rep fuel st' o KMap (map_Encode1 <$> items).
Proof.
  intros E Hlen Hb Hi. destruct (SMap_items_rep keys vals Hlen) as (items' & E' & Hks & Hin & _).
  rewrite E in E'. injection E' as <-. unfold SMap_new. rewrite Hlen, Nat.eqb_refl. osimpl.
  assert (exists h st', (if length keys =? 0 then write_empty KMap st
    else idx ← unique_indexes keys (SortIndexes keys); kv_items ← mapM (item_at keys vals) idx;
         seg ← map_Encode kv_items; build_one params fuel KMap st seg) = Some (Some h, st') /\
    rooted st' KMap h (map_Encode1 <$> items)) as (h & st' & -> & Hr).
  { destruct (Nat.eqb_spec (length keys) 0) as [Hz|Hz].
    - assert (items = []) as ->.
      { destruct items as [|it items]; [done|]. exfalso.
        assert (Hk : kv_key it ∈ keys) by (apply Hin; left).
        apply nil_length_inv in Hz. subst. by apply not_elem_of_nil in Hk. }
      by apply write_empty_rooted.
    - unfold SMap_items in E. apply bind_Some in E as (idx & Eu & Em). rewrite Eu. osimpl. rewrite Em. osimpl.
      assert (items <> []).
      { intros ->. destruct keys as [|key keys]; [done|].
        assert (Hk : key ∈ kv_key <$> []) by (apply Hin; left). by apply not_elem_of_nil in Hk. }
      destruct (map_Encode_rep items) as [-> Hseg]; [done..|]. osimpl. by apply build_one_rooted. }
  osimpl. cbn [fst snd]. destruct (SetNode_rep _ _ _ _ Hr) as (o & Ho & ->). osimpl. eauto.
Qed.

(** *** The items of a set *)

Definition SSet_items (keys : list Slice) : option (list Slice) :=
  mapM (fun i => keys !! i) (SortIndexes keys).

Lemma SSet_items_rep keys :
  exists items, SSet_items keys = Some items /\ items ≡ₚ keys /\ StronglySorted slice_le items.
Proof.
  exists (key_at keys <$> SortIndexes keys). split_and!.
  - apply mapM_total. intros i Hi. rewrite (sort_perm keys), elem_of_seq in Hi. unfold key_at.
    by destruct (lookup_lt_is_Some_2 keys i ltac:(lia)) as [? ->].
  - rewrite (sort_perm keys).
    assert (E : key_at keys <$> seq 0 (length keys) = keys); [|by rewrite E].
    apply list_eq. intros i. rewrite list_lookup_fmap.
    destruct (decide (i < length keys)) as [Hi|Hi].
    + rewrite lookup_seq_lt by done. simpl. unfold key_at.
      by destruct (lookup_lt_is_Some_2 keys i Hi) as [? ->].
    + rewrite lookup_seq_ge by lia. by rewrite lookup_ge_None_2 by lia.
  - apply sorted_of_lookup. intros i j a b Hij Ha Hb. rewrite list_lookup_fmap in Ha, Hb.
    destruct (SortIndexes keys !! i) as [x|] eqn:Ex; [|done].
    destruct (SortIndexes keys !! j) as [y|] eqn:Ey; [|done]. injection Ha as <-. injection Hb as <-.
    assert (forall z n, SortIndexes keys !! n = Some z -> keys !! z = Some (key_at keys z)) as Hv.
    { intros z n Hz. apply list_elem_of_lookup_2 in Hz. rewrite (sort_perm keys), elem_of_seq in Hz.
      unfold key_at. by destruct (lookup_lt_is_Some_2 keys z ltac:(lia)) as [? ->]. }
    unfold slice_le. by apply (sort_sorted keys i j x y Hij Ex Ey); eapply Hv.
Qed.

Lemma set_Encode_sorted items seg : set_Encode items = Some seg -> key_sorted items.
Proof.
  unfold set_Encode. destruct items as [|s items]; [done|]. intros (u & E & _)%bind_Some.
  destruct u. by apply check_increasing_spec in E.
Qed.

Lemma set_Encode_rep items :
  items <> [] -> Forall elem_ok items -> key_sorted items ->
  set_Encode items = Some (segment_of (set_Encode1 <$> items)) /\
  seg_rep (segment_of (set_Encode1 <$> items)) (set_Encode1 <$> items).
Proof.
  intros Hne Hi Hs. destruct items as [|it items]; [done|]. split.
  - unfold set_Encode. rewrite (proj2 (check_increasing_spec _ _)); [done|exact Hs].
  - apply segment_of_rep. eapply entries_ne, (eo_entries KSet), set_entries_ok; done.
Qed.

Lemma SSet_new_rep st keys items :
  SSet_items keys = Some items -> NoDup keys ->
  can_build st KSet (set_Encode1 <$> items) -> Forall elem_ok items ->
  exists o st', SSet_new params fuel st keys = Some (o, st') /\
    obj_rep fuel st' o KSet (set_Encode1 <$> items) /\ key_sorted items /\ items ≡ₚ keys.
Proof.
  intros E Hnd Hb Hi. destruct (SSet_items_rep keys) as (items' & E' & Hperm & Hs).
  rewrite E in E'. injection E' as <-. unfold SSet_new.
  assert (Hks : key_sorted items).
  { apply StronglySorted_Sorted, sorted_strict; [by rewrite Hperm|done]. }
  assert (exists h st', (if length keys =? 0 then write_empty KSet st
    else items0 ← mapM (fun i => keys !! i) (SortIndexes keys);
         seg ← set_Encode items0; build_one params fuel KSet st seg) = Some (Some h, st') /\
    rooted st' KSet h (set_Encode1 <$> items)) as (h & st' & -> & Hr).
  { pose proof (Permutation_length Hperm) as Hlen. destruct (Nat.eqb_spec (length keys) 0) as [Hz|Hz].
    - assert (items = []) as -> by (apply nil_length_inv; lia). by apply write_empty_rooted.
    - unfold SSet_items in E. rewrite E. osimpl.
      destruct (set_Encode_rep items) as [-> Hseg]; [intros ->; simpl in Hlen; lia|done..|].
      osimpl. by apply build_one_rooted. }
  osimpl. cbn [fst snd]. destruct (SetNode_rep _ _ _ _ Hr) as (o & Ho & ->). osimpl. eauto 10.
Qed.

(** Equal keys make the encoder terminate the process. *)
Lemma SSet_new_duplicates st keys : ~ NoDup keys -> SSet_new params fuel st keys = None.
Proof.
  intros Hd. destruct (SSet_items_rep keys) as (items & E & Hperm & _). unfold SSet_new.
  destruct (Nat.eqb_spec (length keys) 0) as [Hz|Hz].
  { apply nil_length_inv in Hz. subst. destruct Hd. constructor. }
  unfold SSet_items in E. rewrite E. osimpl. destruct (set_Encode items) as [seg|] eqn:Es; [|done].
  exfalso. apply Hd. rewrite <- Hperm. apply set_Encode_sorted, key_sorted_strong in Es. clear -Es.
  induction Es as [|s l Es IH Hs]; constructor; [|done]. intros Hin.
  rewrite Forall_forall in Hs. specialize (Hs s Hin). by rewrite st_irrefl in Hs.
Qed.

End CreateProps.

(** [SetNodeForHash] of the object with the kind. *)
Definition SetNode {S} `{ChunkStore S} (k : NodeKind) (s : S) (h : Hash) : option (option SeqNode) :=
  match k with
  | KBlob => UBlob_SetNodeForHash s h
  | KList => UList_SetNodeForHash s h
  | KMap => UMap_SetNodeForHash s h
  | KSet => USet_SetNodeForHash s h
  | KMeta => None
  end.

Lemma SetNode_root `{HashFunction} {S} `{ChunkStore S} fuel k (s : S) h es :
  k <> KMeta -> rooted fuel s k h es ->
  exists n, SetNode k s (Some h) = Some (Some n) /\ chunk_hash (chunk_ n) = Some (Some h) /\ obj_rep fuel s (Some n) k es.
Proof.
  intros Hk Hr. destruct (SetNode_rep fuel s k h es Hr) as (o & Ho & Eset).
  assert (E : SetNode k s (Some h) = Some o) by by destruct k. destruct Ho as (n & h' & ht & -> & Hn).
  exists n. split_and!; [done| |by exists n, h', ht]. destruct Hr as (_ & c & _ & _ & Hl & Hh).
  assert (chunk_ n = c) as ->; [|done]. clear - E Hl. destruct k; cbn [SetNode] in E; [done|..];
    unfold UBlob_SetNodeForHash, UList_SetNodeForHash, UMap_SetNodeForHash, USet_SetNodeForHash in E;
    rewrite Hl in E; osimpl in E; apply bind_Some in E as (t & _ & E); destruct t; try done;
    try (apply bind_Some in E as (offs & _ & E)); by injection E as <-.
Qed.
