(* ===== verification/ObjectProps.v ===== *)
(** * What blobs, lists, maps and sets promise

    A cursor enumerates the entries of a tree; an object that was created from
    some content reads as this content. *)

From S2P Require Import Prelude Types Slice HashVal Chunk RollingHash Node NodeSearch Chunker.
From S2P Require Import Canonical Leaf Store Cursor Builder Objects Build Tree TreeProps.
From S2P Require Import CursorProps KeySearch ReadProps CreateProps.

(** A cursor enumerates its tree: created at any index below the number of
    entries, it stands on that entry, and moving it with [Advance(true)] shows
    all entries from there on, in order and once, across all nodes and levels,
    until [Advance] returns false. *)
Theorem cursor_scan `{HashFunction} get fuel ht k h es x :
  tree get ht k h es -> small es -> ht < fuel -> x < length es ->
  exists c, cursor_by_index get fuel (Some h) (Z.of_nat x) = Some (Some c) /\
    scan get (length es - x) c = Some (drop x es).
Proof.
  intros Ht Hs Hf Hx. destruct (cursor_by_index_rep get fuel ht k h es x Ht Hs Hf) as (C & _).
  destruct (C Hx) as (c & E & Hc). exists c. split; [done|]. by eapply scan_rep.
Qed.

(** C22.  The position that the search by key finds is the number of smaller
    keys in the whole tree: the cursor stands on the first entry whose key is
    not smaller, or behind the last entry, and [FindIndexForKey] returns the
    same position. *)
Theorem key_search_lower_bound `{HashFunction} get fuel ht k h es keys key :
  k = KMap \/ k = KSet -> entry_keys k es keys -> key_sorted keys ->
  tree get ht k h es -> small es -> ht < fuel ->
  exists c n, cursor_by_key get fuel (Some h) (FromSlice key) = Some c /\
    (lower_bound keys key < length es -> cur_on get k es c (lower_bound keys key)) /\
    (lower_bound keys key = length es -> cur_end get k es c) /\
    load_node get (Some h) = Some n /\
    FindIndexForKey get fuel n (FromSlice key) = Some (Z.of_nat (lower_bound keys key)).
Proof.
  intros Hk HK Hks Ht Hs Hf.
  destruct (cursor_by_key_rep get fuel ht k h es keys key Hk HK Hks Ht Hs Hf) as (c & E & C1 & C2).
  destruct (tree_node _ _ _ _ _ Ht) as (n & Hl & Hn). exists c, n. split_and!; try done.
  by eapply FindIndexForKey_rep.
Qed.

(** The values that a map made of the items shows. *)
Lemma map_object_reads {S} `{HashFunction} `{ChunkStore S} fuel (s : S) o items (keys vals : list Slice) key :
  obj_rep fuel s o KMap (map_Encode1 <$> items) -> small (map_Encode1 <$> items) -> Forall item_ok items ->
  key_sorted (kv_key <$> items) -> (forall k, k ∈ kv_key <$> items <-> k ∈ keys) ->
  (forall it, it ∈ items -> exists i, keys !! i = Some (kv_key it) /\ vals !! i = Some (kv_val it)) ->
  (key ∉ keys -> UMap_Get fuel s o key = Some []) /\
  (key ∈ keys -> exists i v, keys !! i = Some key /\ vals !! i = Some v /\ UMap_Get fuel s o key = Some v).
Proof.
  intros Ho Hs Hi Hks Hin Hfrom. unfold small in Hs. rewrite length_fmap in Hs.
  split; intros Hk; rewrite (UMap_Get_rep fuel s o items key Ho Hs Hi Hks).
  - rewrite (proj2 (assoc_value_None items key)); [done|]. by rewrite Hin.
  - destruct (assoc_value items key) as [v|] eqn:Ev.
    + apply assoc_value_Some in Ev as (j & it & Hit & <- & <-).
      destruct (Hfrom it) as (i & Ek & Evv); [by eapply list_elem_of_lookup_2|]. eauto.
    + apply assoc_value_None in Ev. by rewrite Hin in Ev.
Qed.

Section Claims.
Context `{HashFunction} `{Uninit} `{StdSort} {St : Type} `{ChunkStoreSpec St}.
Variable (params : NodeKind -> ChunkerParams) (fuel : nat).
Implicit Types (st : St).

(** A blob reads as the bytes it was created from: [Read(pos, len)] copies
    the bytes from [pos] on, [len] of them or as many as there are; except that
    a length of 0 reads to the end of the blob. *)
Theorem blob_create_read st data :
  can_build params fuel st KBlob (blob_entries data) ->
  exists o st', SBlob_new params fuel st data = Some (o, st') /\
    obj_numElements o = Some (Z.of_nat (length data)) /\
    (forall pos n, n <> 0 -> UBlob_Read fuel st' o (Z.of_nat pos) n = Some (take n (drop pos data))) /\
    (forall pos, UBlob_Read fuel st' o (Z.of_nat pos) 0 = Some (drop pos data)).
Proof.
  intros Hb. assert (Hs : small data).
  { pose proof (cb_small _ _ _ _ _ Hb) as Hs. unfold small, blob_entries in *. by rewrite length_fmap in Hs. }
  destruct (SBlob_new_rep params fuel st data Hb) as (o & st' & E & Ho). exists o, st'.
  split_and!; [done|..].
  - destruct Ho as (n & h & ht & -> & _ & _ & Hn & _). unfold obj_numElements. osimpl.
    rewrite (node_numElements _ _ _ _ _ Hn (cb_small _ _ _ _ _ Hb)). unfold blob_entries. by rewrite length_fmap.
  - intros pos n Hn. rewrite (UBlob_Read_rep fuel st' o data pos n Ho Hs). by rewrite decide_False.
  - intros pos. by rewrite (UBlob_Read_rep fuel st' o data pos 0 Ho Hs).
Qed.

(** A list reads as the elements it was created from; an index beyond the
    end reads as the empty slice. *)
Theorem list_create_get st items :
  can_build params fuel st KList (list_Encode1 <$> items) ->
  Forall (fun s => (Z.of_nat (len s + 4) < 2 ^ 32)%Z) items ->
  exists o st', SList_new params fuel st items = Some (o, st') /\
    obj_numElements o = Some (Z.of_nat (length items)) /\
    forall idx, UList_Get fuel st' o (Z.of_nat idx) = Some (default [] (items !! idx)).
Proof.
  intros Hb Hi. assert (Hs : small items).
  { pose proof (cb_small _ _ _ _ _ Hb) as Hs. unfold small in *. by rewrite length_fmap in Hs. }
  destruct (SList_new_rep params fuel st items Hb) as (o & st' & E & Ho). exists o, st'.
  split_and!; [done|..].
  - destruct Ho as (n & h & ht & -> & _ & _ & Hn & _). unfold obj_numElements. osimpl.
    rewrite (node_numElements _ _ _ _ _ Hn (cb_small _ _ _ _ _ Hb)). by rewrite length_fmap.
  - intros idx. by apply UList_Get_rep.
Qed.

(** A map reads as the pairs it was created from: a key that was not given
    reads as the empty slice, a key that was given reads as the value at one of
    its occurrences, whatever order the sorting of equal keys leaves. *)
Theorem map_create_get st keys vals :
  length vals = length keys ->
  (forall items, SMap_items keys vals = Some items ->
     can_build params fuel st KMap (map_Encode1 <$> items) /\ Forall item_ok items) ->
  exists o st', SMap_new params fuel st keys vals = Some (o, st') /\
    (forall key, key ∉ keys -> UMap_Get fuel st' o key = Some []) /\
    (forall key, key ∈ keys -> exists i v, keys !! i = Some key /\ vals !! i = Some v /\
       UMap_Get fuel st' o key = Some v).
Proof.
  intros Hlen Hb. destruct (SMap_items_rep keys vals Hlen) as (items & E & Hks & Hin & Hfrom).
  destruct (Hb items E) as [Hcb Hi].
  destruct (SMap_new_rep params fuel st keys vals items E Hlen Hcb Hi) as (o & st' & En & Ho).
  exists o, st'. split_and!; [done|..]; intros key Hk;
    by apply (map_object_reads fuel st' o items keys vals key Ho (cb_small _ _ _ _ _ Hcb) Hi Hks Hin Hfrom).
Qed.

(** A set contains exactly the keys it was created from, if these are
    distinct; a key that is given twice makes the constructor terminate the
    process. *)
Theorem set_create_get st keys :
  (forall items, SSet_items keys = Some items ->
     can_build params fuel st KSet (set_Encode1 <$> items) /\ Forall elem_ok items) ->
  (NoDup keys -> exists o st', SSet_new params fuel st keys = Some (o, st') /\
     forall key, USet_Get fuel st' o key = Some (if decide (key ∈ keys) then key else [])) /\
  (~ NoDup keys -> SSet_new params fuel st keys = None).
Proof.
  intros Hb. split; [|apply SSet_new_duplicates]. intros Hnd.
  destruct (SSet_items_rep keys) as (items & E & _). destruct (Hb items E) as [Hcb Hi].
  destruct (SSet_new_rep params fuel st keys items E Hnd Hcb Hi) as (o & st' & En & Ho & Hks & Hp).
  assert (Hs : small items).
  { pose proof (cb_small _ _ _ _ _ Hcb) as Hs. unfold small in *. by rewrite length_fmap in Hs. }
  exists o, st'. split; [done|]. intros key.
  rewrite (USet_Get_rep fuel st' o items key Ho Hs Hi Hks). f_equal.
  destruct (decide (key ∈ items)) as [Hd|Hd]; rewrite Hp in Hd;
    [by rewrite decide_True|by rewrite decide_False].
Qed.

End Claims.

(** ** Witnesses *)

Section ObjectWitnesses.
#[local] Existing Instances plain_hash zeroed map_store map_store_spec merge_std_sort.

Abbreviation M := (gmap Hash Chunk).

Definition object_params (k : NodeKind) : ChunkerParams :=
  match k with KMeta => small_meta_params | _ => small_params end.

(** Small entries can be cut into nodes. *)
Record small_entries k es : Prop := {
  se_kind : k <> KMeta;
  se_ok : entries_ok k es;
  se_bytes : Forall (fun e => length e <= 64) es;
  se_keys : key_room 8 k es
}.

Lemma small_level_ok k es :
  small_entries k es -> (Z.of_nat (length es) < 2 ^ 63)%Z -> level_ok 64 8 k small_params es.
Proof.
  intros [Hk Hok HB Hr] Hn. constructor; [done|done| |simpl; lia|done|done].
  split; [split; simpl; lia|simpl; lia].
Qed.

(** Small objects on an empty store. *)
Lemma small_can_build k es :
  small_entries k es -> length es < 20 ->
  collision_free (tree_nodes 20 small_meta_params k small_params es) = true ->
  can_build object_params 20 (∅ : M) k es.
Proof.
  intros He Hl Hc. assert (Ep : object_params k = small_params) by (destruct He; by destruct k).
  constructor; [by destruct He| |done|unfold small; lia|done|].
  - exists 64, 8. rewrite Ep. split_and!; [apply small_level_ok; [done|lia]|split; simpl; lia|simpl; lia..].
  - rewrite Ep. apply collision_free_spec; done.
Qed.

Definition sample_blob : bytes := blob_a ++ blob_b.

Lemma small_blob data : small_entries KBlob (blob_entries data).
Proof.
  constructor; [done|apply blob_entries_ok| |split; [lia|done]].
  eapply Forall_impl; [apply blob_entries_ones|]. intros e He. simpl in He. lia.
Qed.

Lemma sample_blob_can_build : can_build object_params 20 (∅ : M) KBlob (blob_entries sample_blob).
Proof.
  apply small_can_build; [apply small_blob|simpl; lia|by vm_compute].
Qed.

Lemma blob_create_read_witness : exists o (st' : M),
  SBlob_new object_params 20 (∅ : M) sample_blob = Some (o, st') /\
  UBlob_Read 20 st' o 3 4 = Some (take 4 (drop 3 sample_blob)).
Proof.
  destruct (blob_create_read object_params 20 (∅ : M) sample_blob sample_blob_can_build)
    as (o & st' & E & _ & R & _).
  exists o, st'. split; [exact E|]. exact (R 3 4 ltac:(done)).
Defined.

Definition sample_list : list Slice := [[x01; x02]; []; [x03]].

Lemma list_create_get_witness : exists o (st' : M),
  SList_new object_params 20 (∅ : M) sample_list = Some (o, st') /\
  UList_Get 20 st' o 2 = Some [x03] /\ UList_Get 20 st' o 7 = Some [].
Proof.
  destruct (list_create_get object_params 20 (∅ : M) sample_list) as (o & st' & E & _ & R).
  - apply small_can_build; [constructor; [done|..]|simpl; lia|by vm_compute].
    + apply list_entries_ok. by repeat constructor.
    + by vm_compute; repeat constructor; lia.
    + split; [lia|done].
  - by repeat constructor.
  - exists o, st'. split_and!; [exact E|exact (R 2)|exact (R 7)].
Defined.

Lemma small_items items :
  Forall item_ok items -> key_sorted (kv_key <$> items) ->
  forallb (fun it => (map_EncodeNumBytes it <=? 64) && (len (kv_key it) <=? 8)) items = true ->
  small_entries KMap (map_Encode1 <$> items).
Proof.
  intros Hi Hs Hb. rewrite forallb_forall in Hb.
  assert (Hb' : forall it, it ∈ items -> map_EncodeNumBytes it <= 64 /\ len (kv_key it) <= 8).
  { intros it Hin%list_elem_of_In. specialize (Hb it Hin). apply andb_true_iff in Hb as [Hx Hy].
    by apply Nat.leb_le in Hx, Hy. }
  constructor; [done|by apply map_entries_ok|..].
  - apply Forall_fmap, Forall_forall. intros it Hin. unfold compose. rewrite length_map_Encode1. by apply Hb'.
  - split; [lia|]. intros e key Hin Hk. apply list_elem_of_fmap in Hin as (it & -> & Hin).
    cbn [entry_key] in Hk. rewrite <- (app_nil_r (map_Encode1 it)) in Hk.
    rewrite map_orderedKey_entry in Hk by (by eapply Forall_forall in Hi).
    injection Hk as <-. by apply Hb'.
Qed.

Definition sample_keys : list Slice := [[x62]; [x61]; [x62]].
Definition sample_vals : list Slice := [[x01]; [x02]; [x03]].

Lemma map_create_get_witness : exists o (st' : M),
  SMap_new object_params 20 (∅ : M) sample_keys sample_vals = Some (o, st') /\
  UMap_Get 20 st' o [x63] = Some [].
Proof.
  destruct (map_create_get object_params 20 (∅ : M) sample_keys sample_vals)
    as (o & st' & E & R & _).
  - done.
  - intros items E. vm_compute in E. injection E as <-. split; [|by repeat constructor].
    apply small_can_build; [apply small_items; by repeat constructor|simpl; lia|by vm_compute].
  - exists o, st'. split; [exact E|]. apply R. unfold sample_keys. rewrite !not_elem_of_cons. by split_and!; try apply not_elem_of_nil.
Defined.

Lemma set_create_get_witness :
  (exists o (st' : M), SSet_new object_params 20 (∅ : M) [[x62]; [x61]] = Some (o, st') /\
     USet_Get 20 st' o [x61] = Some [x61]).
Proof.
  destruct (set_create_get object_params 20 (∅ : M) [[x62]; [x61]]) as [R _].
  - intros items E. vm_compute in E. injection E as <-. split; [|by repeat constructor].
    apply small_can_build; [constructor; [done|..]|simpl; lia|by vm_compute].
    + apply set_entries_ok; by repeat constructor.
    + by vm_compute; repeat constructor; lia.
    + split; [lia|]. intros e key Hin Hk. cbn [fmap list_fmap] in Hin.
      rewrite !elem_of_cons in Hin.
      destruct Hin as [->|[->|[]%not_elem_of_nil]]; vm_compute in Hk; injection Hk as <-; by apply Nat.leb_le.
  - destruct R as (o & st' & E & R).
    + rewrite !NoDup_cons. split_and!; [by rewrite list_elem_of_singleton|apply not_elem_of_nil|constructor].
    + exists o, st'. split; [exact E|]. rewrite (R [x61]). done.
Defined.

Lemma sample_tree k es seg :
  can_build object_params 20 (∅ : M) k es -> seg_rep seg es ->
  exists (st' : M) ht h, ht < 20 /\ tree (st_load st') ht k h es.
Proof.
  intros Hb Hs. destruct (build_one_rooted _ _ _ _ _ _ Hb Hs) as (h & st' & _ & (ht & c & Hht & Ht & _)).
  eauto.
Qed.

Lemma cursor_scan_witness : exists (st : M) h c,
  cursor_by_index (st_load st) 20 (Some h) 0 = Some (Some c) /\
  scan (st_load st) 9 c = Some (blob_entries sample_blob).
Proof.
  destruct (sample_tree KBlob _ (blob_segment sample_blob) sample_blob_can_build (blob_segment_rep _))
    as (st & ht & h & Hht & Ht).
  destruct (cursor_scan (st_load st) 20 ht KBlob h _ 0 Ht) as (c & E & Sc); [done|done|simpl; lia|].
  exists st, h, c. split; [exact E|exact Sc].
Defined.

Lemma key_search_lower_bound_witness : exists (st : M) h c,
  cursor_by_key (st_load st) 20 (Some h) (FromSlice [x62]) = Some c /\
  cur_on (st_load st) KMap (map_Encode1 <$> two_items) c 1.
Proof.
  assert (Hi : Forall item_ok two_items) by (by repeat constructor).
  assert (Hs : key_sorted (kv_key <$> two_items)) by (by repeat constructor).
  destruct (sample_tree KMap (map_Encode1 <$> two_items) (segment_of (map_Encode1 <$> two_items)))
    as (st & ht & h & Hht & Ht).
  - apply small_can_build; [by apply small_items|simpl; lia|by vm_compute].
  - by apply map_Encode_rep.
  - destruct (key_search_lower_bound (st_load st) 20 ht KMap h _ (kv_key <$> two_items) [x62]
      ltac:(by left) (map_entry_keys two_items Hi) Hs Ht ltac:(done) Hht) as (c & n & E & C & _).
    exists st, h, c. split; [exact E|]. apply C. by vm_compute; lia.
Defined.

End ObjectWitnesses.
