(* ===== verification/Comparator.v ===== *)
(** * Comparing two trees: [include/node/node_comparator.h]

    [NodeComparator<KeyTrait, Traverser>] walks the left tree in preorder; for
    every node it looks for the deepest right node that covers the same keys,
    skips pairs with equal hashes and iterates over the elements where one of
    the two is a leaf.  The template parameters are records here. *)

From S2P Require Import Prelude Types Slice HashVal Chunk RollingHash Node NodeSearch Chunker Cursor.

Abbreviation RangeMaps := (list (IndexRange * IndexRange)).

(** ** Key traits *)

(** The key of an element at a cursor, the largest key below a meta entry and
    below a node, and the smallest key; the index is that of the element, or of
    the first element of the subtree. *)
Record KeyTrait := mkKeyTrait {
  kt_Key : CurLevel -> Z -> option OrderedKey;
  kt_MaxKey_entry : bytes -> Z -> option OrderedKey;
  kt_MaxKey_node : SeqNode -> Z -> option OrderedKey;
  kt_MinKey : OrderedKey
}.

Definition IndexTrait : KeyTrait := {|
  kt_Key _ idx := Some (OrderedKey_value idx);
  kt_MaxKey_entry me idx := n ← me_numElements me; Some (OrderedKey_value (u64 (idx + n)));
  kt_MaxKey_node mn idx := n ← numElements mn; Some (OrderedKey_value (u64 (idx + n)));
  kt_MinKey := OrderedKey_value 0
|}.

(** [mn->key(mn->numEntries() - 1)]: for a node without entries the index wraps
    around and is out of range. *)
Definition OrderedKeyTrait : KeyTrait := {|
  kt_Key cursor _ := currentKey cursor;
  kt_MaxKey_entry me _ := me_orderedKey me;
  kt_MaxKey_node mn _ :=
    ne ← numEntries mn;
    match ne with O => None | S last => node_key mn last end;
  kt_MinKey := FromSlice [x00]
|}.

(** ** Iterating over the elements of two subtrees *)

(** How the keys under the two cursors compare, and for equal keys whether the
    elements are identical. *)
Inductive Outcome := LhsGreater | Same (identical : bool) | LhsSmaller.

Definition incr (z : Z) : Z := u64 (z + 1).

(** The elements under two cursors have the same bytes. *)
Definition same_element (l r : CurLevel) : option bool :=
  lhs_len ← numCurrentBytes l; rhs_len ← numCurrentBytes r;
  if lhs_len =? rhs_len then
    dl ← current l; dr ← current r;
    bl ← read_bytes 0 lhs_len dl; br ← read_bytes 0 lhs_len dr;
    Some (bool_decide (bl = br))
  else Some false.

(** What is read at the cursors in one round. *)
Definition compare_current (kt : KeyTrait) (l r : CurLevel) (lhs_idx rhs_idx : Z) : option Outcome :=
  lhs_key ← kt_Key kt l lhs_idx; rhs_key ← kt_Key kt r rhs_idx;
  gt ← key_gt lhs_key rhs_key;
  if gt : bool then Some LhsGreater
  else
    eq ← key_eq lhs_key rhs_key;
    if eq : bool then Same <$> same_element l r else Some LhsSmaller.

Section Iterate.
Variable (lload rload : Hash -> option Chunk) (kt : KeyTrait).
Context {Acc : Type}.
Variable on : Outcome -> Z -> Z -> Acc -> Acc.

(** The [while] loop of the three [IterateLeaves]: [on] is what a traverser does
    with the outcome of a comparison.  [steps] bounds the number of rounds by
    the number of elements. *)
Fixpoint iterate_loop (steps : nat) (lc rc : NodeCursor) (lhs_idx rhs_idx : Z) (acc : Acc) :
  option (NodeCursor * Z * Acc) :=
  match steps, lc, rc with
  | S steps', l :: _, r :: _ =>
      el ← isEnd l; er ← isEnd r;
      if (el || er : bool) then Some (lc, lhs_idx, acc)
      else
        o ← compare_current kt l r lhs_idx rhs_idx;
        let acc' := on o lhs_idx rhs_idx acc in
        match o with
        | LhsGreater =>
            a ← Advance rload true rc; iterate_loop steps' lc (snd a) lhs_idx (incr rhs_idx) acc'
        | Same _ =>
            a ← Advance lload true lc; b ← Advance rload true rc;
            iterate_loop steps' (snd a) (snd b) (incr lhs_idx) (incr rhs_idx) acc'
        | LhsSmaller =>
            a ← Advance lload true lc; iterate_loop steps' (snd a) rc (incr lhs_idx) rhs_idx acc'
        end
  | _, _, _ => None
  end.

(** The cursors and the loop. *)
Definition iterate (hash_fun : HashFunction) (fuel : nat) (lhs : SeqNode) (lhs_start_idx : Z)
    (rhs : SeqNode) (rhs_start_idx : Z) (acc : Acc) : option (NodeCursor * Z * Acc) :=
  lh ← chunk_hash (chunk_ lhs); rh ← chunk_hash (chunk_ rhs);
  lc ← cursor_by_index lload fuel lh 0; lc' ← lc;
  rc ← cursor_by_index rload fuel rh 0; rc' ← rc;
  ln ← numElements lhs; rn ← numElements rhs;
  iterate_loop (S (Z.to_nat ln + Z.to_nat rn)) lc' rc' lhs_start_idx rhs_start_idx acc.

End Iterate.

(** ** Traversers *)

Record Traverser (R : Type) := mkTraverser {
  IdenticalHashes : SeqNode -> Z -> SeqNode -> Z -> option (list R);
  IterateLeaves : SeqNode -> Z -> SeqNode -> Z -> option (list R)
}.
Arguments IdenticalHashes {R}.
Arguments IterateLeaves {R}.

(** [results] and [curr_cr]; a range without elements is not valid. *)
Abbreviation RangeAcc := (list IndexRange * IndexRange)%type.

Definition flush_range (a : RangeAcc) : RangeAcc :=
  let '(results, curr) := a in
  if (num_subsequent curr =? 0)%Z then a else (results ++ [curr], mkIR (start_idx curr) 0).

Definition extend_range (idx : Z) (a : RangeAcc) : RangeAcc :=
  let '(results, curr) := a in
  if (num_subsequent curr =? 0)%Z then (results, mkIR idx 1)
  else (results, mkIR (start_idx curr) (incr (num_subsequent curr))).

(** The results at the end of [IterateLeaves]. *)
Definition finish_range (a : RangeAcc) : list IndexRange := fst (flush_range a).

Definition Intersector_on (o : Outcome) (lhs_idx rhs_idx : Z) (a : RangeAcc) : RangeAcc :=
  match o with
  | LhsGreater => a
  | Same true => extend_range lhs_idx a
  | Same false => flush_range a
  | LhsSmaller => flush_range a
  end.

Definition Differ_on (o : Outcome) (lhs_idx rhs_idx : Z) (a : RangeAcc) : RangeAcc :=
  match o with
  | LhsGreater => a
  | Same true => flush_range a
  | Same false => extend_range lhs_idx a
  | LhsSmaller => extend_range lhs_idx a
  end.

(** [Mapper] keeps two ranges; only the left one decides whether they are valid. *)
Abbreviation MapAcc := (RangeMaps * (IndexRange * IndexRange))%type.

Definition flush_maps (a : MapAcc) : MapAcc :=
  let '(results, (lr, rr)) := a in
  if (num_subsequent lr =? 0)%Z then a
  else (results ++ [(lr, rr)], (mkIR (start_idx lr) 0, mkIR (start_idx rr) 0)).

Definition extend_maps (lhs_idx rhs_idx : Z) (a : MapAcc) : MapAcc :=
  let '(results, (lr, rr)) := a in
  if (num_subsequent lr =? 0)%Z then (results, (mkIR lhs_idx 1, mkIR rhs_idx 1))
  else (results, (mkIR (start_idx lr) (incr (num_subsequent lr)),
                  mkIR (start_idx rr) (incr (num_subsequent rr)))).

Definition Mapper_on (o : Outcome) (lhs_idx rhs_idx : Z) (a : MapAcc) : MapAcc :=
  match o with
  | Same true => extend_maps lhs_idx rhs_idx a
  | _ => flush_maps a
  end.

Section Comparator.
Context `{HF : HashFunction}.
(** [lloader] and [rloader_]; [fuel] bounds the heights of the trees. *)
Variable (lload rload : Hash -> option Chunk) (fuel : nat).

Definition Intersector (kt : KeyTrait) : Traverser IndexRange := {|
  IdenticalHashes lhs lhs_start_idx rhs rhs_start_idx :=
    n ← numElements lhs; Some [mkIR lhs_start_idx n];
  IterateLeaves lhs lhs_start_idx rhs rhs_start_idx :=
    r ← iterate lload rload kt Intersector_on HF fuel lhs lhs_start_idx rhs rhs_start_idx
          ([], mkIR 0 0);
    Some (finish_range (snd r))
|}.

(** The elements of the left side that are left: [do .. while Advance(true)]. *)
Fixpoint differ_rest (steps : nat) (lc : NodeCursor) (n : Z) : option Z :=
  match steps with
  | O => None
  | S steps' =>
      a ← Advance lload true lc;
      if fst a : bool then differ_rest steps' (snd a) (incr n) else Some (incr n)
  end.

Definition differ_tail (steps : nat) (r : NodeCursor * Z * RangeAcc) : option RangeAcc :=
  let '(lc, lhs_idx, (results, curr)) := r in
  l ← head lc;
  e ← isEnd l;
  if e : bool then Some (results, curr)
  else
    let curr' := if (num_subsequent curr =? 0)%Z then mkIR lhs_idx 0 else curr in
    n ← differ_rest steps lc (num_subsequent curr');
    Some (results, mkIR (start_idx curr') n).

Definition Differ (kt : KeyTrait) : Traverser IndexRange := {|
  IdenticalHashes lhs lhs_start_idx rhs rhs_start_idx := Some [];
  IterateLeaves lhs lhs_start_idx rhs rhs_start_idx :=
    r ← iterate lload rload kt Differ_on HF fuel lhs lhs_start_idx rhs rhs_start_idx
          ([], mkIR 0 0);
    ln ← numElements lhs;
    a ← differ_tail (S (Z.to_nat ln)) r;
    Some (finish_range a)
|}.

Definition Mapper (kt : KeyTrait) : Traverser (IndexRange * IndexRange) := {|
  IdenticalHashes lhs lhs_start_idx rhs rhs_start_idx :=
    ln ← numElements lhs; rn ← numElements rhs;
    Some [(mkIR lhs_start_idx ln, mkIR rhs_start_idx rn)];
  IterateLeaves lhs lhs_start_idx rhs rhs_start_idx :=
    r ← iterate lload rload kt Mapper_on HF fuel lhs lhs_start_idx rhs rhs_start_idx
          ([], (mkIR 0 0, mkIR 0 0));
    Some (fst (flush_maps (snd r)))
|}.

(** ** [class NodeComparator] *)

Variable kt : KeyTrait.

(** [SmallestOverlap]: the loop over the meta entries from entry [i] on, [todo]
    of which are left; [rhs_me_lower] has no value before the first entry.
    [deeper] is the search below an entry that covers the keys. *)
Fixpoint overlap_loop (deeper : SeqNode -> Z -> option (SeqNode * Z))
    (lhs_lower lhs_upper : OrderedKey) (rhs_node : SeqNode) (rhs_start_idx : Z) (numEntries : nat)
    (todo i : nat) (rhs_me_start_idx : Z) (rhs_me_lower : option OrderedKey) :
  option (SeqNode * Z) :=
  match todo with
  | O => Some (rhs_node, rhs_start_idx)
  | S todo' =>
      rhs_me ← node_data rhs_node i;
      beyond ← match rhs_me_lower with
               | None => Some false
               | Some lower => key_gt lower lhs_lower
               end;
      if beyond : bool then Some (rhs_node, rhs_start_idx)
      else
        rhs_me_upper ← kt_MaxKey_entry kt rhs_me rhs_me_start_idx;
        covers ← (if i =? numEntries - 1 then Some true else key_ge rhs_me_upper lhs_upper);
        if covers : bool then
          h ← me_targetHash rhs_me;
          rhs_child ← load_node rload h;
          deeper rhs_child rhs_me_start_idx
        else
          n ← me_numElements rhs_me;
          overlap_loop deeper lhs_lower lhs_upper rhs_node rhs_start_idx numEntries todo' (S i)
            (u64 (rhs_me_start_idx + n)) (Some rhs_me_upper)
  end.

Fixpoint SmallestOverlap (fuel : nat) (lhs_lower lhs_upper : OrderedKey) (rhs_node : SeqNode)
    (rhs_start_idx : Z) : option (SeqNode * Z) :=
  match fuel with
  | O => None
  | S fuel' =>
      if isLeaf rhs_node then Some (rhs_node, rhs_start_idx)
      else
        ne ← numEntries rhs_node;
        overlap_loop (SmallestOverlap fuel' lhs_lower lhs_upper) lhs_lower lhs_upper
          rhs_node rhs_start_idx ne ne 0 rhs_start_idx None
  end.

Context {R : Type}.
Variable tr : Traverser R.

(** The loop over the children of a left node; [compare] is the comparison of a
    child with the right node. *)
Fixpoint compare_children (compare : SeqNode -> Z -> OrderedKey -> option (list R)) (lhs : SeqNode)
    (todo i : nat) (lhs_child_start_idx : Z) (lhs_child_min_key : OrderedKey) : option (list R) :=
  match todo with
  | O => Some []
  | S todo' =>
      lhs_me ← node_data lhs i;
      ch ← me_targetHash lhs_me;
      lhs_child_node ← load_node lload ch;
      child_results ← compare lhs_child_node lhs_child_start_idx lhs_child_min_key;
      next_min_key ← kt_MaxKey_node kt lhs_child_node lhs_child_start_idx;
      n ← me_numElements lhs_me;
      rest ← compare_children compare lhs todo' (S i) (u64 (lhs_child_start_idx + n)) next_min_key;
      Some (child_results ++ rest)
  end.

(** The recursive [Compare]; [h] bounds the height of the left tree. *)
Fixpoint compare_nodes (h : nat) (rhs_node : SeqNode) (rhs_start_idx : Z) (lhs : SeqNode)
    (lhs_start_idx : Z) (lhs_min_key : OrderedKey) : option (list R) :=
  match h with
  | O => None
  | S h' =>
      lhs_upper ← kt_MaxKey_node kt lhs lhs_start_idx;
      deepest ← SmallestOverlap fuel lhs_min_key lhs_upper rhs_node rhs_start_idx;
      let '(rhs_deepest_node, deepest_start_idx) := deepest in
      lh ← chunk_hash (chunk_ lhs); rh ← chunk_hash (chunk_ rhs_deepest_node);
      if hash_eq lh rh then IdenticalHashes tr lhs lhs_start_idx rhs_deepest_node deepest_start_idx
      else if isLeaf lhs || isLeaf rhs_deepest_node then
        IterateLeaves tr lhs lhs_start_idx rhs_deepest_node deepest_start_idx
      else
        ne ← numEntries lhs;
        compare_children (compare_nodes h' rhs_deepest_node deepest_start_idx) lhs ne 0
          lhs_start_idx lhs_min_key
  end.

Definition compare_roots (lhs rhs : Hash) : option (list R) :=
  rhs_root ← load_node rload rhs;
  lhs_root ← load_node lload lhs;
  compare_nodes fuel rhs_root 0 lhs_root 0 (kt_MinKey kt).

End Comparator.

(** ** The instances *)

Section Instances.
Context `{HF : HashFunction}.
Variable (lload rload : Hash -> option Chunk) (fuel : nat).

Definition IndexIntersector (rhs lhs : Hash) : option (list IndexRange) :=
  r ← compare_roots lload rload fuel IndexTrait (Intersector lload rload fuel IndexTrait) lhs rhs;
  Compact r.

Definition IndexDiffer (rhs lhs : Hash) : option (list IndexRange) :=
  r ← compare_roots lload rload fuel IndexTrait (Differ lload rload fuel IndexTrait) lhs rhs;
  Compact r.

Definition KeyIntersector (rhs lhs : Hash) : option (list IndexRange) :=
  r ← compare_roots lload rload fuel OrderedKeyTrait (Intersector lload rload fuel OrderedKeyTrait) lhs rhs;
  Compact r.

Definition KeyDiffer (rhs lhs : Hash) : option (list IndexRange) :=
  r ← compare_roots lload rload fuel OrderedKeyTrait (Differ lload rload fuel OrderedKeyTrait) lhs rhs;
  Compact r.

Definition KeyMapper (rhs lhs : Hash) : option RangeMaps :=
  r ← compare_roots lload rload fuel OrderedKeyTrait (Mapper lload rload fuel OrderedKeyTrait) lhs rhs;
  Compact_maps r.

End Instances.
