(* ===== verification/Iterator.v ===== *)
(** * Iterators: [include/types/uiterator.h], [src/types/uiterator.cc] and the
      iterators of the object types

    A [CursorIterator] shows the elements of a tree whose indices lie in a list
    of ranges; a [DuallyDiffIterator] merges two of them by key or by index. *)

From S2P Require Import Prelude Types Slice HashVal Chunk RollingHash Node NodeSearch Chunker.
From S2P Require Import Store Cursor Builder Objects Comparator.

(** [OrderedKey::ToSlice]. *)
Definition ToSlice (k : OrderedKey) : option Slice := CHECK (negb (by_value_ k));; Some (slice_ k).

(** ** [class CursorIterator] *)

(** An iterator without node has the cursor without levels. *)
Record CursorIterator := mkIt {
  ranges_ : list IndexRange;
  curr_range_idx_ : Z;
  curr_idx_in_range_ : Z;
  cursor_ : NodeCursor
}.

Definition it_head (it : CursorIterator) : bool := (curr_range_idx_ it =? -1)%Z.

Definition it_end (it : CursorIterator) : bool :=
  (curr_range_idx_ it =? i32 (Z.of_nat (length (ranges_ it))))%Z.

(** [!head() && !end()]. *)
Definition it_valid (it : CursorIterator) : bool := negb (it_head it) && negb (it_end it).

(** [ranges_[idx]]. *)
Definition range_at (it : CursorIterator) (idx : Z) : option IndexRange :=
  CHECK (0 <=? idx)%Z;; ranges_ it !! Z.to_nat idx.

Definition it_index (it : CursorIterator) : option Z :=
  CHECK (it_valid it);;
  r ← range_at it (curr_range_idx_ it);
  Some (u64 (start_idx r + curr_idx_in_range_ it)).

Definition it_level (it : CursorIterator) : option CurLevel :=
  CHECK (it_valid it);; head (cursor_ it).

Definition it_key (it : CursorIterator) : option Slice :=
  l ← it_level it; k ← currentKey l; ToSlice k.

Definition it_data (it : CursorIterator) : option bytes := l ← it_level it; current l.

Definition it_numBytes (it : CursorIterator) : option nat := l ← it_level it; numCurrentBytes l.

(** [value()] with the [RealValue] of each type of object. *)
Definition it_value (k : NodeKind) (it : CursorIterator) : option Slice :=
  d ← it_data it;
  match k with
  | KMap => v ← map_value d; read_bytes 0 (snd v) (fst v)
  | KSet => v ← set_key d; read_bytes 0 (snd v) (fst v)
  | KList => list_Decode d
  | KBlob | KMeta => n ← it_numBytes it; read_bytes 0 n d
  end.

Definition it_move (it : CursorIterator) (range_idx idx_in_range : Z) (c : NodeCursor) :
  CursorIterator := mkIt (ranges_ it) range_idx idx_in_range c.

Section Iterator.
Variable load : Hash -> option Chunk.

(** The constructor: the cursor starts at the first index of the first range. *)
Definition it_new (fuel : nat) (root : Hash) (ranges : list IndexRange) : option CursorIterator :=
  let it := mkIt ranges 0 0 [] in
  idx ← (if length ranges =? 0 then Some 0%Z else it_index it);
  c ← cursor_by_index load fuel root idx;
  Some (it_move it 0 0 (default [] c)).

(** The last index of a range. *)
Definition range_last (r : IndexRange) : Z := u64 (start_idx r + num_subsequent r - 1).

Definition it_next (it : CursorIterator) : option (bool * CursorIterator) :=
  if it_end it then Some (false, it)
  else if length (ranges_ it) =? 0 then Some (false, it_move it 0 0 (cursor_ it))
  else if it_head it then
    a ← Advance load true (cursor_ it); Some (true, it_move it 0 0 (snd a))
  else
    let i := u64 (curr_idx_in_range_ it + 1) in
    r ← range_at it (curr_range_idx_ it);
    it' ← (if (i <? num_subsequent r)%Z then
             a ← Advance load true (cursor_ it); Some (it_move it (curr_range_idx_ it) i (snd a))
           else if (i =? num_subsequent r)%Z then
             let ri := i32 (curr_range_idx_ it + 1) in
             if (ri <? i32 (Z.of_nat (length (ranges_ it))))%Z then
               r' ← range_at it ri;
               a ← AdvanceSteps load (u64 (start_idx r' - range_last r)) (cursor_ it);
               Some (it_move it ri 0 (snd a))
             else if (ri =? i32 (Z.of_nat (length (ranges_ it))))%Z then
               a ← Advance load false (cursor_ it); Some (it_move it ri 0 (snd a))
             else LOG_FATAL
           else LOG_FATAL);
    Some (negb (it_end it'), it').

Definition it_previous (it : CursorIterator) : option (bool * CursorIterator) :=
  if it_head it then Some (false, it)
  else if length (ranges_ it) =? 0 then Some (false, it_move it (-1) 0 (cursor_ it))
  else if it_end it then
    let ri := i32 (Z.of_nat (length (ranges_ it)) - 1) in
    r ← range_at it ri;
    a ← Retreat load false (cursor_ it);
    Some (true, it_move it ri (u64 (num_subsequent r - 1)) (snd a))
  else
    it' ← (if (0 <? curr_idx_in_range_ it)%Z then
             a ← Retreat load true (cursor_ it);
             Some (it_move it (curr_range_idx_ it) (curr_idx_in_range_ it - 1) (snd a))
           else if (curr_idx_in_range_ it =? 0)%Z then
             let ri := i32 (curr_range_idx_ it - 1) in
             if (0 <=? ri)%Z then
               next_range ← range_at it (ri + 1);
               r ← range_at it ri;
               a ← RetreatSteps load (u64 (start_idx next_range - range_last r)) (cursor_ it);
               Some (it_move it ri (u64 (num_subsequent r - 1)) (snd a))
             else if (ri =? -1)%Z then
               a ← Retreat load false (cursor_ it); Some (it_move it ri 0 (snd a))
             else LOG_FATAL
           else LOG_FATAL);
    Some (negb (it_head it'), it').

(** ** [class DuallyDiffIterator] *)

(** [iterator_trait]: what the two iterators are compared by.  [it_by_key] is
    [key_supported], its negation is [index_supported]. *)
Inductive IterKey := ByIndex (idx : Z) | ByKey (key : Slice).

Definition trait_key (by_key : bool) (it : CursorIterator) : option IterKey :=
  if by_key then ByKey <$> it_key it else ByIndex <$> it_index it.

Definition iter_lt (a b : IterKey) : bool :=
  match a, b with
  | ByIndex i, ByIndex j => (i <? j)%Z
  | ByKey x, ByKey y => slice_lt x y
  | _, _ => false
  end.

Definition iter_eq (a b : IterKey) : bool :=
  match a, b with
  | ByIndex i, ByIndex j => (i =? j)%Z
  | ByKey x, ByKey y => slice_eq x y
  | _, _ => false
  end.

Definition iter_gt (a b : IterKey) : bool :=
  match a, b with
  | ByIndex i, ByIndex j => (j <? i)%Z
  | ByKey x, ByKey y => slice_gt x y
  | _, _ => false
  end.

Record DuallyDiffIterator := mkDual {
  lhs_diff_it_ : CursorIterator;
  rhs_diff_it_ : CursorIterator;
  it_flag_ : Z;
  just_advanced : bool
}.

Definition dual_end (d : DuallyDiffIterator) : bool := it_end (lhs_diff_it_ d) && it_end (rhs_diff_it_ d).

Definition dual_head (d : DuallyDiffIterator) : bool := it_head (lhs_diff_it_ d) && it_head (rhs_diff_it_ d).

Definition set_flag (d : DuallyDiffIterator) (flag : Z) : DuallyDiffIterator :=
  mkDual (lhs_diff_it_ d) (rhs_diff_it_ d) flag (just_advanced d).

Definition update_flag (by_key isGreaterValid : bool) (d : DuallyDiffIterator) :
  option DuallyDiffIterator :=
  let l := lhs_diff_it_ d in
  let r := rhs_diff_it_ d in
  if dual_head d || dual_end d then Some (set_flag d 0)
  else if it_head l || it_end l then Some (set_flag d 1)
  else if it_head r || it_end r then Some (set_flag d (-1))
  else
    kl ← trait_key by_key l; kr ← trait_key by_key r;
    Some (if iter_lt kl kr then set_flag d (if isGreaterValid then 1 else -1)%Z
          else if iter_eq kl kr then set_flag d 0
          else if iter_gt kl kr then set_flag d (if isGreaterValid then -1 else 1)%Z
          else d).

(** Moving one or both of the iterators. *)
Definition move_lhs (f : CursorIterator -> option (bool * CursorIterator)) (d : DuallyDiffIterator) :
  option DuallyDiffIterator :=
  a ← f (lhs_diff_it_ d); Some (mkDual (snd a) (rhs_diff_it_ d) (it_flag_ d) (just_advanced d)).

Definition move_rhs (f : CursorIterator -> option (bool * CursorIterator)) (d : DuallyDiffIterator) :
  option DuallyDiffIterator :=
  a ← f (rhs_diff_it_ d); Some (mkDual (lhs_diff_it_ d) (snd a) (it_flag_ d) (just_advanced d)).

Definition move_both (f : CursorIterator -> option (bool * CursorIterator)) (d : DuallyDiffIterator) :
  option DuallyDiffIterator := d' ← move_lhs f d; move_rhs f d'.

(** The constructor; both iterators are at their head. *)
Definition dual_new (by_key : bool) (l r : CursorIterator) : option DuallyDiffIterator :=
  let d := mkDual l r 0 true in
  CHECK (dual_head d);;
  d' ← move_both it_next d; update_flag by_key false d'.

(** The correction after a change of direction: the iterator that is not valid
    stands on the other side of the current key. *)
Definition turn (f : CursorIterator -> option (bool * CursorIterator)) (forward : bool)
    (d : DuallyDiffIterator) : option DuallyDiffIterator :=
  if Bool.eqb (just_advanced d) forward then Some d
  else
    let d' := mkDual (lhs_diff_it_ d) (rhs_diff_it_ d) (it_flag_ d) forward in
    if (it_flag_ d =? -1)%Z then move_rhs f d'
    else if (it_flag_ d =? 1)%Z then move_lhs f d'
    else Some d'.

(** The step that is taken from a valid position. *)
Definition dual_step (f : CursorIterator -> option (bool * CursorIterator)) (d : DuallyDiffIterator) :
  option DuallyDiffIterator :=
  if (it_flag_ d =? -1)%Z then move_lhs f d
  else if (it_flag_ d =? 0)%Z then move_both f d
  else if (it_flag_ d =? 1)%Z then move_rhs f d
  else LOG_FATAL.

Definition dual_next (by_key : bool) (d : DuallyDiffIterator) : option (bool * DuallyDiffIterator) :=
  d1 ← turn it_next true d;
  d2 ← (if dual_end d1 then Some d1
        else if dual_head d1 then move_both it_next d1
        else dual_step it_next d1);
  d3 ← update_flag by_key false d2;
  Some (negb (dual_end d3), d3).

Definition dual_previous (by_key : bool) (d : DuallyDiffIterator) :
  option (bool * DuallyDiffIterator) :=
  d1 ← turn it_previous false d;
  d2 ← (if dual_head d1 then Some d1
        else if dual_end d1 then move_both it_previous d1
        else dual_step it_previous d1);
  d3 ← update_flag by_key true d2;
  Some (negb (dual_head d3), d3).

End Iterator.

(** The loop [for (; !it.end(); it.next())], with what is read at each element. *)
Fixpoint it_scan {B} (get : Hash -> option Chunk) (read : CursorIterator -> option B) (steps : nat)
    (it : CursorIterator) : option (list B) :=
  if it_end it then Some []
  else
    match steps with
    | O => None
    | S steps' =>
        v ← read it; a ← it_next get it; rest ← it_scan get read steps' (snd a); Some (v :: rest)
    end.

Definition lhs_value (k : NodeKind) (d : DuallyDiffIterator) : option Slice :=
  if (it_flag_ d <=? 0)%Z then it_value k (lhs_diff_it_ d) else Some [].

Definition rhs_value (k : NodeKind) (d : DuallyDiffIterator) : option Slice :=
  if (0 <=? it_flag_ d)%Z then it_value k (rhs_diff_it_ d) else Some [].

Definition dual_key (by_key : bool) (d : DuallyDiffIterator) : option Slice :=
  if by_key then
    if (it_flag_ d <=? 0)%Z then it_key (lhs_diff_it_ d) else it_key (rhs_diff_it_ d)
  else LOG_FATAL.

Definition dual_index (by_key : bool) (d : DuallyDiffIterator) : option Z :=
  if by_key then LOG_FATAL
  else if (it_flag_ d <=? 0)%Z then it_index (lhs_diff_it_ d) else it_index (rhs_diff_it_ d).

(** ** [UBlob::ChunkIterator]: one chunk at a time *)

Section ChunkIterator.
Variable load : Hash -> option Chunk.

Definition ci_head (c : NodeCursor) : option bool := isBegin <$> head c.
Definition ci_end (c : NodeCursor) : option bool := l ← head c; isEnd l.

Definition NumChunkBytes (c : NodeCursor) : option nat := l ← head c; numEntries (seq_node_ l).

Definition ci_value (c : NodeCursor) : option Slice :=
  h ← ci_head c; e ← ci_end c; CHECK (negb h && negb e);;
  l ← head c; d ← current l; n ← NumChunkBytes c; read_bytes 0 n d.

Definition ci_next (c : NodeCursor) : option (bool * NodeCursor) :=
  h ← ci_head c;
  if h : bool then a ← Advance load true c; Some (true, snd a)
  else
    e ← ci_end c;
    if e : bool then Some (false, c)
    else
      n ← NumChunkBytes c;
      a ← AdvanceSteps load (Z.of_nat n) c;
      e' ← ci_end (snd a); Some (negb e', snd a).

Definition ci_previous (c : NodeCursor) : option (bool * NodeCursor) :=
  h ← ci_head c;
  if h : bool then Some (false, c)
  else
    l ← head c;
    if (idx_ l =? 0)%Z then
      a ← Retreat load true c;
      match snd a with
      | [] => None
      | l' :: ps =>
          l'' ← (if fst a : bool then seek l' 0 else Some l');
          Some (negb (isBegin l''), l'' :: ps)
      end
    else
      e ← isEnd l;
      if e : bool then l' ← seek l 0; Some (true, l' :: tail c) else LOG_FATAL.

End ChunkIterator.

(** ** Iterators on objects *)

Section ObjectIterators.
Context `{HashFunction} {St : Type} `{ChunkStore St}.
Variable fuel : nat.
Implicit Types (st : St) (o rhs : option SeqNode).

Definition obj_iterator st o (ranges : list IndexRange) : option CursorIterator :=
  h ← obj_hash o; it_new (st_load st) fuel h ranges.

(** [Scan] of all types: the range of all elements, or no range. *)
Definition Scan st o : option CursorIterator :=
  n ← obj_numElements o;
  if (n =? 0)%Z then obj_iterator st o [] else obj_iterator st o [mkIR 0 n].

Definition ScanChunk st o : option NodeCursor :=
  h ← obj_hash o; c ← cursor_by_index (st_load st) fuel h 0; c.

(** [Diff] of lists, which compare by index, and of maps and sets, which compare
    by key. *)
Definition Diff (by_key : bool) st o rhs : option CursorIterator :=
  n ← obj_numElements o;
  if (n =? 0)%Z then obj_iterator st o []
  else
    rn ← obj_numElements rhs;
    if (rn =? 0)%Z then obj_iterator st o [mkIR 0 n]
    else
      rh ← obj_hash rhs; h ← obj_hash o;
      ranges ← (if by_key then KeyDiffer (st_load st) (st_load st) fuel rh h
                else IndexDiffer (st_load st) (st_load st) fuel rh h);
      obj_iterator st o ranges.

Definition Intersect (by_key : bool) st o rhs : option CursorIterator :=
  n ← obj_numElements o;
  if (n =? 0)%Z then obj_iterator st o []
  else
    rn ← obj_numElements rhs;
    if (rn =? 0)%Z then obj_iterator st o []
    else
      rh ← obj_hash rhs; h ← obj_hash o;
      ranges ← (if by_key then KeyIntersector (st_load st) (st_load st) fuel rh h
                else IndexIntersector (st_load st) (st_load st) fuel rh h);
      obj_iterator st o ranges.

Definition DuallyDiff (by_key : bool) st (lhs rhs : option SeqNode) : option DuallyDiffIterator :=
  lhs_diff_it ← Diff by_key st lhs rhs;
  rhs_diff_it ← Diff by_key st rhs lhs;
  l ← it_previous (st_load st) lhs_diff_it;
  r ← it_previous (st_load st) rhs_diff_it;
  dual_new (st_load st) by_key (snd l) (snd r).

(** The methods of each type. *)
Definition UBlob_Scan := Scan.
Definition UBlob_ScanChunk := ScanChunk.
Definition UList_Scan := Scan.
Definition UList_Diff := Diff false.
Definition UList_Intersect := Intersect false.
Definition UList_DuallyDiff := DuallyDiff false.
Definition UMap_Scan := Scan.
Definition UMap_Diff := Diff true.
Definition UMap_Intersect := Intersect true.
Definition UMap_DuallyDiff := DuallyDiff true.
Definition USet_Scan := Scan.
Definition USet_Diff := Diff true.
Definition USet_Intersect := Intersect true.
Definition USet_DuallyDiff := DuallyDiff true.

End ObjectIterators.
