(* ===== verification/Levenshtein.v ===== *)
(** * Mapping lists by edit distance: [LevenshteinMapper] of
      [include/node/node_comparator.h] and [src/node/node_comparator.cc]

    Two trees are mapped level by level from the root: entries that match on an
    upper level are mapped as a whole, the gaps between them are mapped on the
    level below. *)

From S2P Require Import Prelude Types Slice HashVal Chunk RollingHash Node NodeSearch Chunker.
From S2P Require Import Cursor Comparator.

Inductive EditMarker := kNull | kLHSInsertion | kRHSInsertion | kSubstitution | kMatch.

#[export] Instance EditMarker_eq_dec : EqDecision EditMarker.
Proof. solve_decision. Defined.

Record Entry := mkEntry { marker : EditMarker; edit_distance : Z }.

(** [numElementsByCursor]. *)
Definition numElementsByCursor (l : CurLevel) : option Z :=
  e ← isEnd l;
  CHECK (negb e && negb (isBegin l));;
  if negb (isLeaf (seq_node_ l)) then d ← current l; me_numElements d else Some 1%Z.

Section Levenshtein.
Variable load : Hash -> option Chunk.

(** The numbers of elements of the entries of a range, with their prefix sums. *)
Fixpoint collect_entries (steps : nat) (c : NodeCursor) (num_subsequent acc_count : Z) :
  option (list (Z * Z) * Z * NodeCursor) :=
  if (acc_count <? num_subsequent)%Z then
    match steps with
    | O => None
    | S steps' =>
        l ← head c;
        n ← numElementsByCursor l;
        a ← Advance load true c;
        r ← collect_entries steps' (snd a) num_subsequent (u64 (acc_count + n));
        let '(es, acc, c') := r in Some ((acc_count, n) :: es, acc, c')
    end
  else Some ([], acc_count, c).

(** The entries of one side: prefix sums and numbers of elements, and the cursor
    moved back to the first of them. *)
Definition seq_entries (c : NodeCursor) (r : IndexRange) : option (list (Z * Z) * NodeCursor) :=
  t ← collect_entries (Z.to_nat (num_subsequent r)) c (num_subsequent r) 0;
  let '(es, acc, c') := t in
  CHECK (acc =? num_subsequent r)%Z;;
  b ← RetreatEntry load (Z.of_nat (length es)) c';
  CHECK (fst b =? Z.of_nat (length es))%Z;;
  Some (es, snd b).

(** An entry of the edit matrix from its left, upper and diagonal neighbours. *)
Definition better (cur : Entry) (m : EditMarker) (achievable_distance : Z) : Entry :=
  if (achievable_distance <=? edit_distance cur)%Z then mkEntry m achievable_distance else cur.

Definition matrix_entry (worst : Z) (left_entry up_entry dgn_entry : Entry) (same : bool) : Entry :=
  let cur := mkEntry kNull worst in
  let cur := better cur kRHSInsertion (u64 (edit_distance left_entry + 1)) in
  let cur := better cur kLHSInsertion (u64 (edit_distance up_entry + 1)) in
  if same then better cur kMatch (edit_distance dgn_entry)
  else better cur kSubstitution (u64 (edit_distance dgn_entry + 1)).

(** One row: [up] are the entries of the row above from column [j - 1] on. *)
Fixpoint matrix_row (worst : Z) (l : CurLevel) (rc : NodeCursor) (left_entry : Entry)
    (up : list Entry) : option (list Entry * NodeCursor) :=
  match up with
  | dgn_entry :: (up_entry :: _) as up' =>
      r ← head rc;
      same ← same_element l r;
      let cur := matrix_entry worst left_entry up_entry dgn_entry same in
      a ← Advance load true rc;
      t ← matrix_row worst l (snd a) cur up';
      Some (cur :: fst t, snd t)
  | _ => Some ([], rc)
  end.

(** The rows from row [i] on; the right cursor is moved back after each row. *)
Fixpoint matrix_rows (worst : Z) (rows : nat) (rhs_entry_count i : Z) (lc rc : NodeCursor)
    (up : list Entry) : option (list (list Entry)) :=
  match rows with
  | O => Some []
  | S rows' =>
      l ← head lc;
      let first := mkEntry kLHSInsertion i in
      t ← matrix_row worst l rc first up;
      a ← Advance load true lc;
      b ← RetreatEntry load rhs_entry_count (snd t);
      let row := first :: fst t in
      rest ← matrix_rows worst rows' rhs_entry_count (i + 1) (snd a) (snd b) row;
      Some (row :: rest)
  end.

(** Row 0. *)
Definition first_row (rhs_entry_count : nat) : list Entry :=
  mkEntry kNull 0 :: ((fun j => mkEntry kRHSInsertion (Z.of_nat j)) <$> seq 1 rhs_entry_count).

Definition edit_matrix (lc rc : NodeCursor) (lhs_entry_count rhs_entry_count : nat) :
  option (list (list Entry)) :=
  let worst := (Z.max (Z.of_nat lhs_entry_count) (Z.of_nat rhs_entry_count) + 1)%Z in
  rows ← matrix_rows worst lhs_entry_count (Z.of_nat rhs_entry_count) 1 lc rc
           (first_row rhs_entry_count);
  Some (first_row rhs_entry_count :: rows).

(** The walk from the last entry of the matrix back; the result is in the order
    in which it is found. *)
Fixpoint trace_back (steps : nat) (matrix : list (list Entry)) (les res : list (Z * Z))
    (lstart rstart : Z) (lhs_idx rhs_idx : nat) : option RangeMaps :=
  match lhs_idx, rhs_idx with
  | S i, S j =>
      match steps with
      | O => None
      | S steps' =>
          row ← matrix !! lhs_idx; cur ← row !! rhs_idx;
          found ← (if bool_decide (marker cur = kMatch) then
                     le ← les !! i; re ← res !! j;
                     CHECK (snd le =? snd re)%Z;;
                     Some [(mkIR (u64 (lstart + fst le)) (snd le),
                            mkIR (u64 (rstart + fst re)) (snd re))]
                   else Some []);
          rest ← match marker cur with
                 | kNull => LOG_FATAL
                 | kLHSInsertion => trace_back steps' matrix les res lstart rstart i rhs_idx
                 | kRHSInsertion => trace_back steps' matrix les res lstart rstart lhs_idx j
                 | kSubstitution | kMatch => trace_back steps' matrix les res lstart rstart i j
                 end;
          Some (found ++ rest)
      end
  | _, _ => Some []
  end.

Definition SeqMap (lc : NodeCursor) (lhs_range : IndexRange) (rc : NodeCursor)
    (rhs_range : IndexRange) : option RangeMaps :=
  le ← seq_entries lc lhs_range; re ← seq_entries rc rhs_range;
  let '(les, lc') := le in
  let '(res, rc') := re in
  matrix ← edit_matrix lc' rc' (length les) (length res);
  result ← trace_back (length les + length res) matrix les res (start_idx lhs_range)
             (start_idx rhs_range) (length les) (length res);
  Compact_maps (rev result).

(** [AdvanceSteps] on copies of the cursors and [SeqMap] on a gap; only the last
    gap checks the numbers of steps. *)
Definition map_gap (checked : bool) (lc rc : NodeCursor) (lhs_last rhs_last lhs_end rhs_end : Z) :
  option RangeMaps :=
  if ((lhs_last <? lhs_end) && (rhs_last <? rhs_end))%Z then
    a ← AdvanceSteps load lhs_last lc; b ← AdvanceSteps load rhs_last rc;
    CHECK (negb checked || ((fst a =? lhs_last) && (fst b =? rhs_last))%Z);;
    SeqMap (snd a) (mkIR lhs_last (u64 (lhs_end - lhs_last)))
           (snd b) (mkIR rhs_last (u64 (rhs_end - rhs_last)))
  else Some [].

(** The loop over the maps of the upper level. *)
Fixpoint map_gaps (lc rc : NodeCursor) (upper_maps : RangeMaps) (lhs_last rhs_last lhs_end rhs_end : Z) :
  option RangeMaps :=
  match upper_maps with
  | [] => map_gap true lc rc lhs_last rhs_last lhs_end rhs_end
  | (lr, rr) :: upper_maps' =>
      gap ← map_gap false lc rc lhs_last rhs_last (start_idx lr) (start_idx rr);
      rest ← map_gaps lc rc upper_maps' (u64 (start_idx lr + num_subsequent lr))
               (u64 (start_idx rr + num_subsequent rr)) lhs_end rhs_end;
      Some (gap ++ (lr, rr) :: rest)
  end.

Fixpoint lev_map (lc : NodeCursor) (lhs_range : IndexRange) (rc : NodeCursor) (rhs_range : IndexRange) :
  option RangeMaps :=
  match lc, rc with
  | _ :: (_ :: _) as lparents, _ :: (_ :: _) as rparents =>
      upper_maps ← lev_map lparents lhs_range rparents rhs_range;
      r ← map_gaps lc rc upper_maps 0 0
            (u64 (start_idx lhs_range + num_subsequent lhs_range))
            (u64 (start_idx rhs_range + num_subsequent rhs_range));
      Compact_maps r
  | _, _ => r ← SeqMap lc lhs_range rc rhs_range; Compact_maps r
  end.

(** [LevenshteinMapper::Compare]; one loader serves both sides in every caller. *)
Definition LevenshteinMapper (fuel : nat) (rhs lhs : Hash) : option RangeMaps :=
  lhs_node ← load_node load lhs; rhs_node ← load_node load rhs;
  lhs_num_elements ← numElements lhs_node; rhs_num_elements ← numElements rhs_node;
  if ((lhs_num_elements =? 0) || (rhs_num_elements =? 0))%Z then Some []
  else
    lc ← cursor_by_index load fuel lhs 0; lc' ← lc;
    rc ← cursor_by_index load fuel rhs 0; rc' ← rc;
    lev_map lc' (mkIR 0 lhs_num_elements) rc' (mkIR 0 rhs_num_elements).

End Levenshtein.
