(* ===== verification/Merger.v ===== *)
(** * Three-way merge: [include/node/node_merger.h], [SMap::Merge], [SSet::Merge],
      [SList::Merge]

    Both nodes are mapped to the base; what is not mapped is changed.  The
    changes of the two nodes are applied to the base in one transaction of the
    advanced builder, unless they overlap. *)

From S2P Require Import Prelude Types Slice HashVal Chunk RollingHash Node NodeSearch Chunker.
From S2P Require Import Store Cursor Builder Advanced Objects Comparator Levenshtein.

(** ** Flipping range maps *)

(** A pair of gaps, if one of them is not empty. *)
Definition gap_maps (lhs_from lhs_to rhs_from rhs_to : Z) : RangeMaps :=
  let lr := mkIR lhs_from (u64 (lhs_to - lhs_from)) in
  let rr := mkIR rhs_from (u64 (rhs_to - rhs_from)) in
  if negb (num_subsequent lr =? 0)%Z || negb (num_subsequent rr =? 0)%Z then [(lr, rr)] else [].

Fixpoint flip_loop (range_maps : RangeMaps) (pre_lhs_upper_idx pre_rhs_upper_idx : Z)
    (lhs_num_elements rhs_num_elements : Z) : RangeMaps :=
  match range_maps with
  | [] => gap_maps pre_lhs_upper_idx lhs_num_elements pre_rhs_upper_idx rhs_num_elements
  | (lr, rr) :: range_maps' =>
      gap_maps pre_lhs_upper_idx (start_idx lr) pre_rhs_upper_idx (start_idx rr) ++
      flip_loop range_maps' (u64 (start_idx lr + num_subsequent lr))
        (u64 (start_idx rr + num_subsequent rr)) lhs_num_elements rhs_num_elements
  end.

Definition flip (range_maps : RangeMaps) (lhs_num_elements rhs_num_elements : Z) : RangeMaps :=
  if length range_maps =? 0 then [(mkIR 0 lhs_num_elements, mkIR 0 rhs_num_elements)]
  else flip_loop range_maps 0 0 lhs_num_elements rhs_num_elements.

(** ** Segments of an index range *)

Section Segments.
Variable (load : Hash -> option Chunk) (fuel : nat).

(** One segment per leaf; [steps] bounds the number of leaves. *)
Fixpoint segments_loop (steps : nat) (c : NodeCursor) (num_subsequent accumulated_num_elements : Z) :
  option (list Segment) :=
  match steps, c with
  | S steps', l :: _ =>
      CHECK (isLeaf (seq_node_ l));;
      ne ← numEntries (seq_node_ l);
      let entry_idx := u64 (idx_ l) in
      let leaf_remaining := u64 (Z.of_nat ne - idx_ l) in
      let remaining_len := u64 (num_subsequent - accumulated_num_elements) in
      if (leaf_remaining <? remaining_len)%Z then
        seg ← GetSegment (seq_node_ l) (Z.to_nat entry_idx) (Z.to_nat leaf_remaining);
        a ← AdvanceSteps load leaf_remaining c;
        l' ← head (snd a);
        CHECK (idx_ l' =? 0)%Z;;
        CHECK (fst a =? leaf_remaining)%Z;;
        rest ← segments_loop steps' (snd a) num_subsequent
                 (u64 (accumulated_num_elements + leaf_remaining));
        Some (seg :: rest)
      else
        seg ← GetSegment (seq_node_ l) (Z.to_nat entry_idx) (Z.to_nat remaining_len);
        Some [seg]
  | _, _ => None
  end.

Definition GetSegmentsFromIndexRange (hash : Hash) (r : IndexRange) : option (list Segment) :=
  c ← cursor_by_index load fuel hash (start_idx r);
  c' ← c;
  segments_loop (S (Z.to_nat (num_subsequent r))) c' (num_subsequent r) 0.

(** The comparison of the concatenated segments.  Each [memcmp] of the source
    takes both its arguments from the left segment. *)
Fixpoint compare_segments (steps : nat) (lhs_segs rhs_segs : list Segment) (lhs_idx rhs_idx : nat) :
  option bool :=
  match lhs_segs, rhs_segs with
  | ls :: lhs_segs', rs :: rhs_segs' =>
      match steps with
      | O => None
      | S steps' =>
          let lhs_remaining_len := num_bytes_ ls - lhs_idx in
          let rhs_remaining_len := num_bytes_ rs - rhs_idx in
          let n := Nat.min lhs_remaining_len rhs_remaining_len in
          a ← read_bytes 0 n (data_ ls); b ← read_bytes 0 n (data_ ls);
          if negb (bool_decide (memcmp a b n = Eq)) then Some false
          else if lhs_remaining_len <? rhs_remaining_len then
            compare_segments steps' lhs_segs' rhs_segs 0 (rhs_idx + lhs_remaining_len)
          else if lhs_remaining_len =? rhs_remaining_len then
            compare_segments steps' lhs_segs' rhs_segs' 0 0
          else
            compare_segments steps' lhs_segs rhs_segs' (lhs_idx + rhs_remaining_len) 0
      end
  | _, _ => Some true
  end.

Definition IsIdenticalContents (lhs : Hash) (lhs_range : IndexRange) (rhs : Hash)
    (rhs_range : IndexRange) : option bool :=
  if negb (num_subsequent lhs_range =? num_subsequent rhs_range)%Z then Some false
  else
    lhs_segs ← GetSegmentsFromIndexRange lhs lhs_range;
    rhs_segs ← GetSegmentsFromIndexRange rhs rhs_range;
    compare_segments (length lhs_segs + length rhs_segs) lhs_segs rhs_segs 0 0.

(** [NodeMerger::numElements]. *)
Definition merger_numElements (hash : Hash) : option Z := n ← load_node load hash; numElements n.

(** The choice of the next change: which maps are left, the base range and the
    segments; [Some None] is a conflict. *)
Definition next_change (node1 node2 : Hash) (map1 map2 : RangeMaps) :
  option (option (RangeMaps * RangeMaps * IndexRange * list Segment)) :=
  match map1, map2 with
  | [], [] => None
  | [], (b2, r2) :: map2' =>
      segs ← GetSegmentsFromIndexRange node2 r2; Some (Some ([], map2', b2, segs))
  | (b1, r1) :: map1', [] =>
      segs ← GetSegmentsFromIndexRange node1 r1; Some (Some (map1', [], b1, segs))
  | (b1, r1) :: map1', (b2, r2) :: map2' =>
      identical ←
        (if ((start_idx b1 =? start_idx b2) && (num_subsequent b1 =? num_subsequent b2))%Z
         then IsIdenticalContents node1 r1 node2 r2 else Some false);
      if identical : bool then
        segs ← GetSegmentsFromIndexRange node1 r1; Some (Some (map1', map2', b1, segs))
      else if (u64 (start_idx b1 + num_subsequent b1) <=? start_idx b2)%Z then
        segs ← GetSegmentsFromIndexRange node1 r1; Some (Some (map1', map2, b1, segs))
      else if (u64 (start_idx b2 + num_subsequent b2) <=? start_idx b1)%Z then
        segs ← GetSegmentsFromIndexRange node2 r2; Some (Some (map1, map2', b2, segs))
      else Some None
  end.

End Segments.

(** ** [NodeMerger::Merge] *)

Section Merger.
Context `{HashFunction} `{Uninit} {St : Type} `{ChunkStore St}.
Variable (params : NodeKind -> ChunkerParams) (fuel : nat).

(** The template parameter [Mapper]: [OrderedKeyMapper] for maps and sets,
    [MinEditDistanceMapper] for lists. *)
Definition Mapper_Map (by_key : bool) (st : St) (lhs rhs : Hash) : option RangeMaps :=
  if by_key then KeyMapper (st_load st) (st_load st) fuel rhs lhs
  else LevenshteinMapper (st_load st) fuel rhs lhs.

(** The loop; [Some None] is the empty hash of a failed merge. *)
Fixpoint merge_loop (steps : nat) (st : St) (base node1 node2 : Hash) (map1 map2 : RangeMaps)
    (ops : list SpliceOperand) : option (option (list SpliceOperand)) :=
  match map1, map2 with
  | [], [] => Some (Some ops)
  | _, _ =>
      match steps with
      | O => None
      | S steps' =>
          ch ← next_change (st_load st) fuel node1 node2 map1 map2;
          match ch with
          | None => Some None
          | Some (map1', map2', base_range, segs) =>
              ops' ← adv_Splice st base ops (start_idx base_range) (num_subsequent base_range) segs;
              merge_loop steps' st base node1 node2 map1' map2' ops'
          end
      end
  end.

Definition NodeMerger_Merge (by_key : bool) (k : NodeKind) (st : St) (base node1 node2 : Hash) :
  option (Hash * St) :=
  base_num_elements ← merger_numElements (st_load st) base;
  node1_num_elements ← merger_numElements (st_load st) node1;
  node2_num_elements ← merger_numElements (st_load st) node2;
  m1 ← Mapper_Map by_key st base node1;
  m2 ← Mapper_Map by_key st base node2;
  let map1 := flip m1 base_num_elements node1_num_elements in
  let map2 := flip m2 base_num_elements node2_num_elements in
  r ← merge_loop (length map1 + length map2) st base node1 node2 map1 map2 [];
  match r with
  | None => Some (None, st)
  | Some ops => adv_Commit k (params k) (params KMeta) fuel st base ops
  end.

(** The [Merge] of the object types: it fails if one of the objects is empty. *)
Definition obj_Merge (by_key : bool) (k : NodeKind) (st : St) (o node1 node2 : option SeqNode) :
  option (Hash * St) :=
  n ← obj_numElements o;
  if (n =? 0)%Z then Some (None, st)
  else
    n1 ← obj_numElements node1;
    if (n1 =? 0)%Z then Some (None, st)
    else
      n2 ← obj_numElements node2;
      if (n2 =? 0)%Z then Some (None, st)
      else
        h ← obj_hash o; h1 ← obj_hash node1; h2 ← obj_hash node2;
        NodeMerger_Merge by_key k st h h1 h2.

Definition SMap_Merge := obj_Merge true KMap.
Definition SSet_Merge := obj_Merge true KSet.
Definition SList_Merge := obj_Merge false KList.

End Merger.
