(* ===== verification/CompareProps.v ===== *)
(** * Comparing maps and sets by key

    The comparator visits pairs of subtrees; each pair covers the same keys, so
    what it computes for a pair is what the whole right tree says about the
    entries of the left subtree. *)

From S2P Require Import Prelude Types Slice HashVal Chunk RollingHash Node NodeSearch Chunker.
From S2P Require Import Canonical Leaf Store Cursor Builder Build Tree CursorProps KeySearch Comparator.

(** ** Order of slices *)

Lemma slice_lt_le a b : slice_lt a b = true -> slice_le a b.
Proof. apply (st_asym slice_lt). Qed.

Lemma slice_le_lt_trans a b c : slice_le a b -> slice_lt b c = true -> slice_lt a c = true.
Proof.
  unfold slice_le. intros Hab Hbc. destruct (slice_lt a b) eqn:E.
  - by apply (st_trans _ b).
  - by rewrite (st_total _ _ E Hab).
Qed.

Lemma slice_lt_le_trans a b c : slice_lt a b = true -> slice_le b c -> slice_lt a c = true.
Proof.
  unfold slice_le. intros Hab Hbc. destruct (slice_lt b c) eqn:E.
  - by apply (st_trans _ b).
  - by rewrite <- (st_total _ _ E Hbc).
Qed.

Lemma slice_lt_irrefl a b : slice_le a b -> slice_lt b a = true -> False.
Proof. unfold slice_le. congruence. Qed.

(** ** A node determines its entries *)

Section Unique.
Context `{HashFunction}.
Variable get : Hash -> option Chunk.

Lemma node_rep_unique n k es k' es' :
  node_rep n k es -> node_rep n k' es' -> k = k' /\ es = es'.
Proof.
  intros Hn Hn'. split; [by rewrite <- (nr_kind _ _ _ Hn), <- (nr_kind _ _ _ Hn')|].
  pose proof (numEntries_rep _ _ _ Hn) as El. rewrite (numEntries_rep _ _ _ Hn') in El.
  injection El as El. apply list_eq. intros i.
  destruct (es !! i) as [e|] eqn:E.
  - destruct (lookup_lt_is_Some_2 es' i) as [e' E']; [rewrite El; by eapply lookup_lt_Some|].
    destruct (node_data_rep _ _ _ _ _ Hn E) as [r Hd]. destruct (node_data_rep _ _ _ _ _ Hn' E') as [r' Hd'].
    pose proof (node_len_rep _ _ _ _ _ Hn E) as Hl. rewrite (node_len_rep _ _ _ _ _ Hn' E') in Hl.
    rewrite Hd' in Hd. injection Hd as Hd. injection Hl as Hl.
    rewrite E'. f_equal. by apply app_inj_1 in Hd as [-> _].
  - apply lookup_ge_None_1 in E. symmetry. apply lookup_ge_None_2. lia.
Qed.

Lemma mi_bytes_hash m m' : mi_ok m -> mi_ok m' -> mi_bytes m = mi_bytes m' -> mi_hash m = mi_hash m'.
Proof.
  intros Hm Hm' E. destruct (mi_decode m [] Hm) as (_ & _ & _ & Hh & _).
  destruct (mi_decode m' [] Hm') as (_ & _ & _ & Hh' & _). rewrite E, Hh' in Hh. by injection Hh.
Qed.

Lemma node_at_unique ht : forall k es n ht' k' es',
  node_at get ht k es n -> node_at get ht' k' es' n -> es = es'.
Proof.
  induction ht as [|ht IH]; intros k es n [|ht'] k' es'; cbn [node_at].
  - intros [_ Hn] [_ Hn']. by destruct (node_rep_unique _ _ _ _ _ Hn Hn').
  - intros [Hk Hn] (ms & ess & Hn' & _). by destruct (node_rep_unique _ _ _ _ _ Hn Hn') as [-> _].
  - intros (ms & ess & Hn & _) [Hk Hn']. by destruct (node_rep_unique _ _ _ _ _ Hn' Hn) as [-> _].
  - intros (ms & ess & Hn & _ & -> & HF) (ms' & ess' & Hn' & _ & -> & HF').
    destruct (node_rep_unique _ _ _ _ _ Hn Hn') as [_ E]. f_equal. clear Hn Hn' n.
    revert ms' ess' HF' E. induction HF as [|m es ms ess (Hc & _ & Ht) _ IHF]; intros ms' ess' HF' E.
    + symmetry in E. apply fmap_nil_inv in E as ->. by apply Forall2_nil_inv_l in HF' as ->.
    + destruct HF' as [|m' es' ms' ess' (Hc' & _ & Ht') HF']; [done|]. rewrite !fmap_cons in E.
      apply (inj2 cons) in E as [E1 E2]. f_equal; [|by apply IHF with ms'].
      apply (mi_bytes_hash _ _ (ch_ok _ _ _ Hc) (ch_ok _ _ _ Hc')) in E1. rewrite E1 in Ht.
      destruct (tree_node _ _ _ _ _ Ht) as (n & Hl & Hn). destruct (tree_node _ _ _ _ _ Ht') as (n' & Hl' & Hn').
      rewrite Hl' in Hl. injection Hl as ->. by apply (IH _ _ _ _ _ _ Hn Hn').
Qed.

(** A node of a tree, with its hash. *)
Definition loaded (ht : nat) (k : NodeKind) (es : list bytes) (n : SeqNode) : Prop :=
  exists h, tree get ht k h es /\ load_node get (Some h) = Some n /\ node_at get ht k es n /\
    chunk_hash (chunk_ n) = Some (Some h) /\ length h = kByteLength.

Lemma tree_hash_length ht k h es : tree get ht k h es -> length h = kByteLength.
Proof.
  destruct ht; cbn [tree].
  - intros (_ & _ & -> & _). apply length_ComputeFrom.
  - intros (c & ms & ess & _ & _ & _ & -> & _). apply length_ComputeFrom.
Qed.

Lemma tree_is_loaded ht k h es :
  tree get ht k h es -> exists n, load_node get (Some h) = Some n /\ loaded ht k es n.
Proof.
  intros Ht. destruct (tree_loaded _ _ _ _ _ Ht) as (n & Hl & Hn & Hh). exists n. split; [done|].
  exists h. split_and!; try done. by eapply tree_hash_length.
Qed.

Lemma loaded_hash_eq ht k es n ht' k' es' n' :
  loaded ht k es n -> loaded ht' k' es' n' ->
  exists lh rh, chunk_hash (chunk_ n) = Some lh /\ chunk_hash (chunk_ n') = Some rh /\
    (hash_eq lh rh = true -> es = es').
Proof.
  intros (h & _ & Hl & Hn & Hh & L) (h' & _ & Hl' & Hn' & Hh' & L').
  exists (Some h), (Some h'). split_and!; [done|done|].
  rewrite hash_eq_spec by (intros v [= <-]; done). intros [= ->]%bool_decide_eq_true.
  rewrite Hl' in Hl. injection Hl as ->. by eapply node_at_unique.
Qed.

Lemma loaded_isLeaf ht k es n : loaded ht k es n -> isLeaf n = bool_decide (ht = 0).
Proof.
  intros (h & _ & _ & Hn & _). unfold isLeaf. destruct ht as [|ht]; cbn [node_at] in Hn.
  - destruct Hn as [Hk Hn]. by rewrite (nr_kind _ _ _ Hn), bool_decide_false.
  - destruct Hn as (ms & ess & Hn & _). by rewrite (nr_kind _ _ _ Hn), bool_decide_true.
Qed.

Lemma loaded_children ht k es n :
  loaded (S ht) k es n -> exists ms ess, node_rep n KMeta (mi_bytes <$> ms) /\ ms <> [] /\
    es = concat ess /\ Forall2 (sub_tree get ht k) ms ess.
Proof. by intros (h & _ & _ & Hn & _). Qed.

(** The meta entry of a child, read from its node. *)
Lemma meta_entry_at ht k n ms ess i m es :
  node_rep n KMeta (mi_bytes <$> ms) -> Forall2 (sub_tree get ht k) ms ess ->
  ms !! i = Some m -> ess !! i = Some es ->
  exists d, node_data n i = Some d /\ me_targetHash d = Some (Some (mi_hash m)) /\
    me_numElements d = Some (Z.of_nat (length es)) /\
    (exists key, me_orderedKey d = Some key /\ key_sim (mi_key m) key) /\
    child_ok k m es /\ es <> [] /\
    exists n', load_node get (Some (mi_hash m)) = Some n' /\ loaded ht k es n'.
Proof.
  intros Hn HF Hm He. destruct (Forall2_lookup_lr _ _ _ _ _ _ HF Hm He) as (Hc & Hne & Ht).
  destruct (node_data_rep n KMeta _ i (mi_bytes m) Hn) as [rest Hd]; [by rewrite list_lookup_fmap, Hm|].
  eexists. split; [exact Hd|].
  destruct (mi_decode m (concat (drop (S i) (mi_bytes <$> ms)) ++ rest) (ch_ok _ _ _ Hc))
    as (_ & _ & En & Eh & Ek).
  rewrite En, Eh, (ch_elements _ _ _ Hc). split_and!; try done. by apply tree_is_loaded.
Qed.

End Unique.

(** ** Keys of entries *)

Definition ekey (k : NodeKind) (e : bytes) : Slice :=
  match entry_key k e with Some key => slice_ key | None => [] end.

(** The entries of a map or a set, in the strict order of their keys. *)
Record in_order (k : NodeKind) (es : list bytes) : Prop := {
  io_keys : Forall (fun e => entry_key k e = Some (FromSlice (ekey k e))) es;
  io_sorted : StronglySorted (fun a b => slice_lt (ekey k a) (ekey k b) = true) es
}.

Lemma entry_keys_in_order k es ks :
  entry_keys k es ks -> key_sorted ks -> in_order k es.
Proof.
  intros HK Hs. apply key_sorted_strong in Hs.
  assert (E : ks = ekey k <$> es).
  { clear Hs. induction HK as [|e key es ks He _ IH]; [done|]. rewrite fmap_cons, <- IH. f_equal.
    unfold ekey. by rewrite He. }
  subst ks. split.
  - clear Hs. rewrite Forall_forall. intros e Hin. apply list_elem_of_lookup in Hin as [i Hi].
    destruct (Forall2_lookup_l _ _ _ _ _ HK Hi) as (key & Hkey & Ee).
    rewrite list_lookup_fmap, Hi in Hkey. injection Hkey as <-. done.
  - clear HK. apply sorted_of_lookup. intros i j x y Hij Hx Hy.
    apply (sorted_lookup _ _ i j _ _ Hs Hij); by rewrite list_lookup_fmap, ?Hx, ?Hy.
Qed.

Lemma in_order_app k a b :
  in_order k (a ++ b) ->
  in_order k a /\ in_order k b /\
  forall x y, x ∈ a -> y ∈ b -> slice_lt (ekey k x) (ekey k y) = true.
Proof.
  intros [HF Hs]. apply Forall_app in HF as [Ha Hb]. apply StronglySorted_app in Hs as (Hab & Sa & Sb).
  split_and!; [by split|by split|]. intros x y Hx Hy. by apply Hab.
Qed.

(** A key that compares as the slice [s]. *)
Definition is_key (key : OrderedKey) (s : Slice) : Prop := by_value_ key = false /\ slice_ key = s.

Lemma is_key_slice s : is_key (FromSlice s) s.
Proof. done. Qed.

Lemma is_key_sim s key : key_sim (FromSlice s) key -> is_key key s.
Proof. by intros (? & _ & ?). Qed.

Lemma key_gt_is a b x y : is_key a x -> is_key b y -> key_gt a b = Some (slice_lt y x).
Proof. intros [Ha <-] [Hb <-]. unfold key_gt. rewrite Ha, Hb. simpl. by rewrite slice_gt_swap. Qed.

Lemma key_eq_is a b x y : is_key a x -> is_key b y -> key_eq a b = Some (bool_decide (x = y)).
Proof. intros [Ha <-] [Hb <-]. unfold key_eq. rewrite Ha, Hb. simpl. by rewrite slice_eq_spec. Qed.

Lemma key_ge_is a b x y : is_key a x -> is_key b y -> key_ge a b = Some (negb (slice_lt x y)).
Proof.
  intros Ha Hb. unfold key_ge. rewrite (key_gt_is _ _ _ _ Ha Hb), (key_eq_is _ _ _ _ Ha Hb). osimpl.
  destruct (slice_lt y x) eqn:E.
  - by rewrite (st_asym slice_lt _ _ E).
  - f_equal. destruct (slice_lt x y) eqn:E'; simpl.
    + apply bool_decide_false. intros ->. by rewrite st_irrefl in E'.
    + apply bool_decide_true. by apply (st_total (ltb := slice_lt)).
Qed.

Section KeyCompare.
Context `{HashFunction}.
Variable get : Hash -> option Chunk.
Variable k : NodeKind.
Hypothesis Hk : k = KMap \/ k = KSet.
Implicit Types (es er pre post : list bytes) (n : SeqNode).

(** The largest key below an entry and below a node. *)
Lemma child_key m es key el :
  child_ok k m es -> in_order k es -> key_sim (mi_key m) key -> last es = Some el ->
  is_key key (ekey k el).
Proof.
  intros Hc [HK _] Hs Hl. destruct (ch_key _ _ _ Hc) as (kl & Hkl & Hsim); [by right|].
  unfold last_key in Hkl. rewrite Hl in Hkl. osimpl in Hkl.
  rewrite Forall_forall in HK. rewrite HK in Hkl by (by apply last_Some_elem_of).
  injection Hkl as <-. apply is_key_sim. by eapply key_sim_trans.
Qed.

Lemma MaxKey_node_rep ht es n el idx :
  loaded get ht k es n -> in_order k es -> last es = Some el ->
  exists key, kt_MaxKey_node OrderedKeyTrait n idx = Some key /\ is_key key (ekey k el).
Proof.
  intros Hn Hord Hl. cbn [kt_MaxKey_node OrderedKeyTrait]. destruct ht as [|ht].
  - destruct Hn as (h & _ & _ & [Hkm Hn] & _). rewrite (numEntries_rep _ _ _ Hn). osimpl.
    rewrite last_lookup in Hl. destruct (length es) as [|l] eqn:El; [by apply length_zero_iff_nil in El as ->|].
    cbn [pred] in Hl. rewrite (node_key_rep _ _ _ _ _ Hn Hl) by (by destruct Hk as [-> | ->]).
    destruct Hord as [HK _]. rewrite Forall_forall in HK.
    rewrite HK by (by eapply list_elem_of_lookup_2). eexists. split; [done|]. apply is_key_slice.
  - destruct (loaded_children _ _ _ _ _ Hn) as (ms & ess & Hr & Hne & -> & HF).
    rewrite (meta_numEntries n ms Hr). osimpl.
    destruct (length ms) as [|l] eqn:El; [by apply length_zero_iff_nil in El as ->|].
    destruct (lookup_lt_is_Some_2 ms l ltac:(lia)) as [m Hm].
    pose proof (Forall2_length _ _ _ HF) as Hlen.
    destruct (lookup_lt_is_Some_2 ess l ltac:(lia)) as [es He].
    destruct (meta_entry_at _ _ _ _ _ _ _ _ _ Hr HF Hm He) as (d & Hd & _ & _ & (key & Ek & Hsim) & Hc & Hes & _).
    unfold node_key. rewrite (nr_kind _ _ _ Hr), Hd. osimpl. cbn [entry_key]. exists key. split; [done|].
    apply (child_key m es key el Hc); [|done|].
    + rewrite (concat_at _ _ _ He) in Hord. apply in_order_app in Hord as (_ & Hord & _).
      by apply in_order_app in Hord as (? & _).
    + rewrite <- Hl. symmetry. apply last_concat_ne; [|done]. rewrite last_lookup. by rewrite <- Hlen, El.
Qed.

(** ** The smallest overlap *)

(** All keys up to a lower bound, and all keys behind an upper bound. *)
Definition below (es : list bytes) (s : Slice) : Prop := forall e, e ∈ es -> slice_le (ekey k e) s.
Definition above (es : list bytes) (s : Slice) : Prop := forall e, e ∈ es -> slice_lt s (ekey k e) = true.

Lemma below_app a b s : below a s -> below b s -> below (a ++ b) s.
Proof. intros Ha Hb e He. apply elem_of_app in He as [?|?]; auto. Qed.

Lemma above_app a b s : above a s -> above b s -> above (a ++ b) s.
Proof. intros Ha Hb e He. apply elem_of_app in He as [?|?]; auto. Qed.

(** The last entry bounds the entries of its list and those behind it. *)
Lemma last_bounds a b el :
  in_order k (a ++ b) -> last a = Some el -> below a (ekey k el) /\ above b (ekey k el).
Proof.
  intros Ho Hl. apply last_Some in Hl as [a' ->]. rewrite <- app_assoc in Ho. split.
  - apply in_order_app in Ho as (_ & _ & Hx). apply below_app; intros e He.
    + apply slice_lt_le, Hx; [done|]. by left.
    + apply list_elem_of_singleton in He as ->. apply (st_irrefl (ltb := slice_lt)).
  - apply in_order_app in Ho as (_ & Ho & _). change ([el] ++ b) with ([el] ++ b) in Ho.
    apply in_order_app in Ho as (_ & _ & Hx). intros e He. apply Hx; [by left|done].
Qed.

Lemma overlap_loop_rep (Q : option (SeqNode * Z) -> Prop) deeper klo lo khi hi ht n pre post ms ess :
  is_key klo lo -> is_key khi hi -> node_rep n KMeta (mi_bytes <$> ms) ->
  Forall2 (sub_tree get ht k) ms ess -> in_order k (pre ++ concat ess ++ post) ->
  small (pre ++ concat ess ++ post) -> below pre lo -> above post hi ->
  Q (Some (n, Z.of_nat (length pre))) ->
  (forall j es n', ess !! j = Some es -> loaded get ht k es n' ->
     below (pre ++ concat (take j ess)) lo -> above (concat (drop (S j) ess) ++ post) hi ->
     Q (deeper n' (Z.of_nat (length (pre ++ concat (take j ess)))))) ->
  forall todo i lower, todo + i = length ms ->
  match lower with
  | None => i = 0
  | Some kl => exists l, is_key kl l /\ below (concat (take i ess)) l
  end ->
  Q (overlap_loop get OrderedKeyTrait deeper klo khi n (Z.of_nat (length pre)) (length ms) todo i
       (Z.of_nat (length (pre ++ concat (take i ess)))) lower).
Proof.
  intros Hklo Hkhi Hr HF Ho Hs Hpre Hpost HQ Hdeep. pose proof (Forall2_length _ _ _ HF) as Hlen.
  induction todo as [|todo IH]; intros i lower Hi Hinv; cbn [overlap_loop]; [done|].
  destruct (lookup_lt_is_Some_2 ms i ltac:(lia)) as [m Hm].
  destruct (lookup_lt_is_Some_2 ess i ltac:(lia)) as [es He].
  destruct (meta_entry_at _ _ _ _ _ _ _ _ _ Hr HF Hm He)
    as (d & -> & Hh & Hn & (key & Ek & Hsim) & Hc & Hes & n' & Hln & Hload). osimpl.
  assert (exists b, match lower with None => Some false | Some l => key_gt l klo end = Some b /\
    (b = false -> below (pre ++ concat (take i ess)) lo)) as (b & -> & Hbelow).
  { destruct lower as [kl|].
    - destruct Hinv as (l & Hkl & Hbl). rewrite (key_gt_is _ _ _ _ Hkl Hklo). eexists. split; [done|].
      intros Hlt. apply below_app; [done|]. intros e Hin. apply (slice_le_trans _ l); [by apply Hbl|done].
    - exists false. split; [done|]. intros _. subst i. simpl. by rewrite app_nil_r. }
  osimpl. destruct b; [done|]. specialize (Hbelow eq_refl).
  cbn [kt_MaxKey_entry OrderedKeyTrait]. rewrite Ek. osimpl.
  destruct (last es) as [el|] eqn:El; [|by apply last_None in El].
  rewrite (concat_at _ _ _ He), <- !app_assoc, (app_assoc pre) in Ho.
  apply in_order_app in Ho as (_ & Ho & Hcross).
  destruct (last_bounds es (concat (drop (S i) ess) ++ post) el Ho El) as [Hbl Hab].
  pose proof (child_key m es key el Hc (proj1 (in_order_app _ _ _ Ho)) Hsim El) as Hkey.
  rewrite (key_ge_is _ _ _ _ Hkey Hkhi).
  assert (exists b,
    (if i =? length ms - 1 then Some true else Some (negb (slice_lt (ekey k el) hi))) = Some b /\
    (b = true -> above (concat (drop (S i) ess) ++ post) hi)) as (b & -> & Hcov).
  { destruct (Nat.eqb_spec i (length ms - 1)) as [E|E]; (eexists; split; [reflexivity|]).
    - intros _. rewrite drop_ge by lia. done.
    - intros Hlt%negb_true_iff. intros e Hin. apply (slice_le_lt_trans _ (ekey k el)); [done|by apply Hab]. }
  osimpl. destruct b.
  - rewrite Hh. osimpl. rewrite Hln. osimpl. apply (Hdeep i es n' He Hload Hbelow). by apply Hcov.
  - rewrite Hn. osimpl.
    replace (u64 _) with (Z.of_nat (length (pre ++ concat (take (S i) ess)))).
    + apply IH; [lia|]. exists (ekey k el). split; [done|].
      rewrite (take_S_r _ _ _ He), concat_app. simpl. rewrite app_nil_r. apply below_app; [|done].
      intros e Hin. apply slice_lt_le, Hcross; apply elem_of_app; [by right|left].
      by apply last_Some_elem_of.
    + rewrite (take_S_r _ _ _ He), concat_app. simpl. rewrite app_nil_r, !length_app.
      unfold small in Hs. rewrite (concat_at _ _ _ He), !length_app in Hs.
      rewrite (wrap_small 64) by lia. lia.
Qed.

Lemma SmallestOverlap_rep fuel : forall ht er n pre post klo lo khi hi,
  ht < fuel -> loaded get ht k er n -> in_order k (pre ++ er ++ post) -> small (pre ++ er ++ post) ->
  is_key klo lo -> is_key khi hi -> below pre lo -> above post hi ->
  exists ht' er' n' pre' post',
    SmallestOverlap get OrderedKeyTrait fuel klo khi n (Z.of_nat (length pre))
      = Some (n', Z.of_nat (length pre')) /\
    loaded get ht' k er' n' /\ ht' <= ht /\ pre ++ er ++ post = pre' ++ er' ++ post' /\
    below pre' lo /\ above post' hi.
Proof.
  induction fuel as [|fuel IH]; intros ht er n pre post klo lo khi hi Hf Hn Ho Hs Hklo Hkhi Hpre Hpost; [lia|].
  cbn [SmallestOverlap]. rewrite (loaded_isLeaf _ _ _ _ _ Hn). destruct ht as [|ht].
  - rewrite bool_decide_true by done. exists 0, er, n, pre, post. by split_and!.
  - rewrite bool_decide_false by done. pose proof Hn as Hn'.
    destruct (loaded_children _ _ _ _ _ Hn) as (ms & ess & Hr & Hne & -> & HF).
    rewrite (meta_numEntries n ms Hr). osimpl.
    pose proof (overlap_loop_rep (fun r => exists ht' er' n' pre' post', r = Some (n', Z.of_nat (length pre')) /\
      loaded get ht' k er' n' /\ ht' <= S ht /\ pre ++ concat ess ++ post = pre' ++ er' ++ post' /\
      below pre' lo /\ above post' hi) (SmallestOverlap get OrderedKeyTrait fuel klo khi)
      klo lo khi hi ht n pre post ms ess Hklo Hkhi Hr HF Ho Hs Hpre Hpost) as L.
    cbv beta in L. specialize (fun a b => L a b (length ms) 0 None ltac:(lia) eq_refl).
    cbn [take concat] in L. rewrite app_nil_r in L. apply L.
    + exists (S ht), (concat ess), n, pre, post. by split_and!.
    + intros j es n' He Hl Hb Ha. rewrite (concat_at _ _ _ He), <- !app_assoc, (app_assoc pre) in *.
      destruct (IH ht es n' (pre ++ concat (take j ess)) (concat (drop (S j) ess) ++ post) klo lo khi hi)
        as (ht' & er' & n'' & pre' & post' & E & Hl' & Hle & Ecat & Hb' & Ha'); try done; [lia|].
      exists ht', er', n'', pre', post'. split_and!; try done. lia.
Qed.

(** ** Comparing *)

(** What a traverser adds for an entry at an index. *)
Fixpoint flat {A} (f : bytes -> nat -> list A) (s : nat) (es : list bytes) : list A :=
  match es with
  | [] => []
  | e :: es' => f e s ++ flat f (S s) es'
  end.

Lemma flat_app {A} (f : bytes -> nat -> list A) a : forall s b,
  flat f s (a ++ b) = flat f s a ++ flat f (s + length a) b.
Proof.
  induction a as [|e a IH]; intros s b; simpl; [by rewrite Nat.add_0_r|].
  rewrite IH, <- app_assoc. do 3 f_equal. lia.
Qed.

Lemma flat_ext {A} (f g : bytes -> nat -> list A) es : forall s,
  (forall e i, e ∈ es -> f e i = g e i) -> flat f s es = flat g s es.
Proof.
  induction es as [|e es IH]; intros s Hfg; [done|]. simpl. rewrite Hfg by (by left).
  f_equal. apply IH. intros e' i He. apply Hfg. by right.
Qed.

(** Results [rs] of type [R] denote lists of [A] by [sem]; [out er r e i] is what
    the entry [e] at index [i] contributes if the right subtree has the entries
    [er] from index [r] on. *)
Record traverser_ok {A R} (fuel : nat) (sem : R -> list A) (rok : R -> Prop)
    (out : list bytes -> nat -> bytes -> nat -> list A) (tr : Traverser R) : Prop := {
  tk_same : forall ht ht' es n n' s r,
    loaded get ht k es n -> loaded get ht' k es n' -> in_order k es -> es <> [] ->
    (Z.of_nat (s + length es) < 2 ^ 31)%Z -> (Z.of_nat (r + length es) < 2 ^ 31)%Z ->
    exists rs, IdenticalHashes tr n (Z.of_nat s) n' (Z.of_nat r) = Some rs /\ Forall rok rs /\
      rs ≫= sem = flat (out es r) s es;
  tk_iter : forall ht ht' es er n n' s r,
    loaded get ht k es n -> loaded get ht' k er n' -> in_order k es -> in_order k er ->
    ht < fuel -> ht' < fuel -> es <> [] ->
    (Z.of_nat (s + length es) < 2 ^ 31)%Z -> (Z.of_nat (r + length er) < 2 ^ 31)%Z ->
    exists rs, IterateLeaves tr n (Z.of_nat s) n' (Z.of_nat r) = Some rs /\ Forall rok rs /\
      rs ≫= sem = flat (out er r) s es;
  tk_local : forall pre er post e i,
    in_order k (pre ++ er ++ post) ->
    (forall x, x ∈ pre -> slice_lt (ekey k x) (ekey k e) = true) ->
    (forall x, x ∈ post -> slice_lt (ekey k e) (ekey k x) = true) ->
    out (pre ++ er ++ post) 0 e i = out er (length pre) e i
}.

Section Compare.
Context {A R : Type} (fuel : nat) (sem : R -> list A) (rok : R -> Prop).
Context (out : list bytes -> nat -> bytes -> nat -> list A) (tr : Traverser R).
Hypothesis Htr : traverser_ok fuel sem rok out tr.

(** The results of a comparison: what [f] says about the entries. *)
Definition results (f : bytes -> nat -> list A) (s : nat) es (r : option (list R)) : Prop :=
  exists rs, r = Some rs /\ Forall rok rs /\ rs ≫= sem = flat f s es.

Lemma compare_children_rep compare f n ms ess ht s lo :
  node_rep n KMeta (mi_bytes <$> ms) -> Forall2 (sub_tree get ht k) ms ess ->
  in_order k (concat ess) -> (Z.of_nat (s + length (concat ess)) < 2 ^ 31)%Z ->
  (forall j es n' klo lo', ess !! j = Some es -> loaded get ht k es n' -> es <> [] ->
     is_key klo lo' -> above es lo' -> slice_le lo lo' ->
     results f (s + length (concat (take j ess))) es
       (compare n' (Z.of_nat (s + length (concat (take j ess)))) klo)) ->
  forall todo i klo lo', todo + i = length ms -> is_key klo lo' -> above (concat (drop i ess)) lo' ->
  slice_le lo lo' ->
  results f (s + length (concat (take i ess))) (concat (drop i ess))
    (compare_children get OrderedKeyTrait compare n todo i (Z.of_nat (s + length (concat (take i ess)))) klo).
Proof.
  intros Hr HF Ho Hs Hcmp. pose proof (Forall2_length _ _ _ HF) as Hlen.
  induction todo as [|todo IH]; intros i klo lo' Hi Hklo Hab Hle; cbn [compare_children].
  { exists []. rewrite drop_ge by lia. by split_and!; [|constructor|]. }
  destruct (lookup_lt_is_Some_2 ms i ltac:(lia)) as [m Hm].
  destruct (lookup_lt_is_Some_2 ess i ltac:(lia)) as [es He].
  destruct (meta_entry_at _ _ _ _ _ _ _ _ _ Hr HF Hm He)
    as (d & -> & Hh & Hn & _ & Hc & Hes & n' & Hln & Hload). osimpl. rewrite Hh. osimpl. rewrite Hln. osimpl.
  rewrite (concat_lookup_drop _ _ _ He) in *.
  assert (Hoi : in_order k (es ++ concat (drop (S i) ess))).
  { rewrite (concat_at _ _ _ He) in Ho. by apply in_order_app in Ho as (_ & ? & _). }
  destruct (Hcmp i es n' klo lo' He Hload Hes Hklo) as (rs & -> & Hrok & Hsem); [|done|].
  { intros e Hin. apply Hab, elem_of_app. by left. }
  osimpl. destruct (last es) as [el|] eqn:El; [|by apply last_None in El].
  destruct (MaxKey_node_rep ht es n' el (Z.of_nat (s + length (concat (take i ess)))) Hload
    (proj1 (in_order_app _ _ _ Hoi)) El) as (key & -> & Hkey). osimpl. rewrite Hn. osimpl.
  destruct (last_bounds _ _ _ Hoi El) as [_ Hab'].
  assert (Hlt : slice_lt lo' (ekey k el) = true).
  { apply Hab, elem_of_app. left. by apply last_Some_elem_of. }
  assert (Elen : s + length (concat (take (S i) ess)) = s + length (concat (take i ess)) + length es).
  { rewrite (take_S_r _ _ _ He), concat_app. simpl. rewrite app_nil_r, length_app. lia. }
  assert (Eidx : u64 (Z.of_nat (s + length (concat (take i ess))) + Z.of_nat (length es))
    = Z.of_nat (s + length (concat (take (S i) ess)))).
  { rewrite Elen. pose proof Hs as Hs'. rewrite (concat_at _ _ _ He), !length_app in Hs'.
    rewrite (wrap_small 64) by lia. lia. }
  rewrite Eidx.
  destruct (IH (S i) key (ekey k el) ltac:(lia) Hkey Hab') as (rest & -> & Hrok' & Hsem').
  { apply (slice_le_trans _ lo'); [done|]. by apply slice_lt_le. }
  osimpl. exists (rs ++ rest). split_and!; [done|by apply Forall_app|].
  rewrite bind_app, Hsem, Hsem', flat_app, Elen. done.
Qed.

Lemma compare_nodes_rep h : forall ht es n s klo lo htr er nr pre post el,
  ht < h -> ht < fuel -> loaded get ht k es n -> in_order k es -> last es = Some el ->
  (Z.of_nat (s + length es) < 2 ^ 31)%Z -> is_key klo lo -> above es lo ->
  htr < fuel -> loaded get htr k er nr -> in_order k (pre ++ er ++ post) -> small (pre ++ er ++ post) ->
  below pre lo -> above post (ekey k el) ->
  results (out (pre ++ er ++ post) 0) s es
    (compare_nodes get get fuel OrderedKeyTrait tr h nr (Z.of_nat (length pre)) n (Z.of_nat s) klo).
Proof.
  induction h as [|h IH]; intros ht es n s klo lo htr er nr pre post el Hh Hf Hn Ho El Hs Hklo Hab
    Hfr Hnr Hor Hsr Hpre Hpost; [lia|].
  assert (Hes : es <> []) by (by intros ->).
  cbn [compare_nodes]. destruct (MaxKey_node_rep ht es n el (Z.of_nat s) Hn Ho El) as (khi & -> & Hkhi). osimpl.
  destruct (SmallestOverlap_rep fuel htr er nr pre post klo lo khi (ekey k el) Hfr Hnr Hor Hsr Hklo Hkhi Hpre Hpost)
    as (ht' & er' & n' & pre' & post' & -> & Hn' & Hle & Ecat & Hpre' & Hpost'). osimpl.
  rewrite Ecat in *. clear Ecat Hpre Hpost pre post er nr Hnr.
  destruct (loaded_hash_eq _ _ _ _ _ _ _ _ _ Hn Hn') as (lh & rh & -> & -> & Heq). osimpl.
  assert (Hbel : below es (ekey k el)).
  { rewrite <- (app_nil_r es) in Ho. by destruct (last_bounds _ _ _ Ho El). }
  (* the left entries have their keys between the bounds *)
  assert (Hin : forall e i, e ∈ es -> out (pre' ++ er' ++ post') 0 e i = out er' (length pre') e i).
  { intros e i He. apply (tk_local _ _ _ _ _ Htr); [done|..].
    - intros x Hx. apply (slice_le_lt_trans _ lo); [by apply Hpre'|by apply Hab].
    - intros x Hx. apply (slice_le_lt_trans _ (ekey k el)); [by apply Hbel|by apply Hpost']. }
  assert (Hout : forall r, results (out er' (length pre')) s es r ->
    results (out (pre' ++ er' ++ post') 0) s es r).
  { intros r (rs & -> & Hrs & E). exists rs. split_and!; [done|done|]. rewrite E. symmetry. by apply flat_ext. }
  assert (Hsr' : (Z.of_nat (length pre' + length er') < 2 ^ 31)%Z).
  { unfold small in Hsr. rewrite !length_app in Hsr. lia. }
  destruct (hash_eq lh rh).
  { apply Hout. rewrite <- (Heq eq_refl) in *.
    by apply (tk_same _ _ _ _ _ Htr ht ht' es n n' s (length pre')). }
  rewrite (loaded_isLeaf _ _ _ _ _ Hn), (loaded_isLeaf _ _ _ _ _ Hn').
  destruct (bool_decide (ht = 0) || bool_decide (ht' = 0)) eqn:Elf.
  - apply Hout, (tk_iter _ _ _ _ _ Htr ht ht'); try done; [|lia].
    by apply in_order_app in Hor as (_ & (? & _ & _)%in_order_app & _).
  - apply orb_false_iff in Elf as [Elf _]. apply bool_decide_eq_false in Elf.
    destruct ht as [|ht]; [done|].
    destruct (loaded_children _ _ _ _ _ Hn) as (ms & ess & Hr & _ & -> & HF).
    rewrite (meta_numEntries n ms Hr). osimpl.
    pose proof (compare_children_rep (compare_nodes get get fuel OrderedKeyTrait tr h n' (Z.of_nat (length pre')))
      (out (pre' ++ er' ++ post') 0) n ms ess ht s lo Hr HF Ho Hs) as L.
    specialize (fun a b => L a (length ms) 0 klo lo ltac:(lia) Hklo b (st_irrefl lo)).
    cbn [take drop concat length] in L. rewrite Nat.add_0_r in L. apply L; [|done]. clear L.
    intros j es' n'' klo' lo' He Hl Hes' Hklo' Hab' Hle'.
    destruct (last es') as [el'|] eqn:El'; [|by apply last_None in El'].
    rewrite (concat_at _ _ _ He) in Ho, Hs. pose proof Ho as Ho'.
    apply in_order_app in Ho' as (_ & Ho' & _). apply in_order_app in Ho' as (Ho1 & _ & Hx).
    rewrite !length_app in Hs.
    apply (IH ht es' n'' _ klo' lo' ht' er' n' pre' post' el'); try done; try lia.
    + intros x Hin'. apply (slice_le_trans _ lo); [by apply Hpre'|done].
    + intros x Hin'. apply (slice_le_lt_trans _ (ekey k el)); [|by apply Hpost'].
      apply Hbel. rewrite (concat_at _ _ _ He). apply elem_of_app. right. apply elem_of_app. left.
      by apply last_Some_elem_of.
Qed.

End Compare.
End KeyCompare.
