(* ===== verification/IterateProps.v ===== *)
(** * The element loop of the comparator

    The loop of [IterateLeaves] over two subtrees is a merge of their entries:
    every left entry is classified by whether the right subtree holds it. *)

From S2P Require Import Prelude Types Slice HashVal Chunk RollingHash Node NodeSearch Chunker.
From S2P Require Import Canonical Leaf Store Cursor Builder Build Tree CursorProps KeySearch Comparator.
From S2P Require Import CompareProps.

(** ** Positions of entries *)

Definition pos_in (es : list bytes) (e : bytes) : option nat := fst <$> list_find (eq e) es.

Lemma pos_in_None es e : e ∉ es -> pos_in es e = None.
Proof.
  intros Hn. unfold pos_in. rewrite (proj2 (list_find_None _ _)); [done|].
  apply Forall_forall. intros x Hx ->. done.
Qed.

Lemma pos_in_Some es e i : NoDup es -> es !! i = Some e -> pos_in es e = Some i.
Proof.
  intros Hnd Hi. unfold pos_in. destruct (list_find (eq e) es) as [[j x]|] eqn:E.
  - apply list_find_Some in E as (Hj & <- & _). simpl. f_equal. by apply (NoDup_lookup es j i e).
  - apply list_find_None in E. rewrite Forall_forall in E. exfalso.
    apply (E e); [by eapply list_elem_of_lookup_2|done].
Qed.

Lemma pos_in_lookup es e i : pos_in es e = Some i -> es !! i = Some e.
Proof.
  unfold pos_in. destruct (list_find (eq e) es) as [[j x]|] eqn:E; [|done]. intros [= <-].
  by apply list_find_Some in E as (Hj & <- & _).
Qed.

Lemma in_order_NoDup k es : in_order k es -> NoDup es.
Proof.
  intros [_ Hs]. induction Hs as [|e es Hs IH Hx]; constructor; [|done].
  intros He. rewrite Forall_forall in Hx. specialize (Hx e He). by rewrite st_irrefl in Hx.
Qed.

(** A key occurs once. *)
Lemma in_order_key k es i j a b :
  in_order k es -> es !! i = Some a -> es !! j = Some b -> ekey k a = ekey k b -> i = j.
Proof.
  intros [_ Hs] Ha Hb E. destruct (lt_eq_lt_dec i j) as [[Hlt|]|Hgt]; [|done|].
  - pose proof (sorted_lookup _ _ _ _ _ _ Hs Hlt Ha Hb) as Hab. simpl in Hab. by rewrite E, st_irrefl in Hab.
  - pose proof (sorted_lookup _ _ _ _ _ _ Hs Hgt Hb Ha) as Hba. simpl in Hba. by rewrite E, st_irrefl in Hba.
Qed.

Lemma in_order_lt k es i j a b :
  in_order k es -> i < j -> es !! i = Some a -> es !! j = Some b ->
  slice_lt (ekey k a) (ekey k b) = true.
Proof. intros [_ Hs] Hij Ha Hb. exact (sorted_lookup _ _ _ _ _ _ Hs Hij Ha Hb). Qed.

(** The right entries before [j] are smaller than the left entries from [i] on. *)
Definition merged (k : NodeKind) (es er : list bytes) (i j : nat) : Prop :=
  forall i' j' a b, i <= i' -> j' < j -> es !! i' = Some a -> er !! j' = Some b ->
    slice_lt (ekey k b) (ekey k a) = true.

Lemma merged_absent k es er i j a :
  in_order k er -> merged k es er i j -> es !! i = Some a ->
  (forall b, er !! j = Some b -> slice_lt (ekey k a) (ekey k b) = true) -> pos_in er a = None.
Proof.
  intros Ho Hm Ha Hlt. apply pos_in_None. intros [j' Hj']%list_elem_of_lookup.
  destruct (decide (j' < j)) as [Hj|Hj].
  - pose proof (Hm i j' a a ltac:(lia) Hj Ha Hj') as Hx. by rewrite st_irrefl in Hx.
  - destruct (lookup_lt_is_Some_2 er j) as [b Hb]; [apply lookup_lt_Some in Hj'; lia|].
    specialize (Hlt b Hb). destruct (decide (j = j')) as [<-|Hne].
    + rewrite Hj' in Hb. injection Hb as ->. by rewrite st_irrefl in Hlt.
    + pose proof (in_order_lt k er j j' b a Ho ltac:(lia) Hb Hj') as Hx.
      apply (st_asym slice_lt) in Hx. congruence.
Qed.

Lemma merged_same k er j a b :
  in_order k er -> er !! j = Some b -> ekey k a = ekey k b ->
  pos_in er a = if decide (a = b) then Some j else None.
Proof.
  intros Ho Hb E. destruct (decide (a = b)) as [->|Hne].
  - apply pos_in_Some; [by eapply in_order_NoDup|done].
  - apply pos_in_None. intros [j' Hj']%list_elem_of_lookup.
    pose proof (in_order_key k er j' j a b Ho Hj' Hb E) as ->. congruence.
Qed.

(** ** Cursors at a position, the end included *)

Section Loop.
Context `{HashFunction}.
Variable get : Hash -> option Chunk.
Variable k : NodeKind.
Hypothesis Hk : k = KMap \/ k = KSet.
Implicit Types (es er : list bytes) (c : NodeCursor).

Definition cur_at es c (pos : nat) : Prop :=
  (pos < length es /\ cur_on get k es c pos) \/ (pos = length es /\ cur_end get k es c).

Lemma cur_at_isEnd es c pos :
  small es -> cur_at es c pos ->
  exists l ps, c = l :: ps /\ isEnd l = Some (bool_decide (pos = length es)).
Proof.
  intros Hs [[Hlt Hc]|[-> Hc]].
  - destruct (cur_on_read _ _ _ _ _ Hs Hc) as (l & ps & e & rest & -> & _ & He & _).
    exists l, ps. rewrite bool_decide_false by lia. done.
  - destruct (cur_end_isEnd _ _ _ _ Hs Hc) as (l & ps & -> & He). exists l, ps.
    by rewrite bool_decide_true.
Qed.

Lemma cur_at_advance es c pos :
  small es -> cur_at es c pos -> pos < length es ->
  exists c', Advance get true c = Some (bool_decide (S pos < length es), c') /\ cur_at es c' (S pos).
Proof.
  intros Hs [[Hlt Hc]|[-> Hc]] Hp; [|lia]. destruct (Advance_entry _ _ _ _ _ Hs Hc) as [H1 H2].
  destruct (decide (S pos < length es)) as [Hl|Hl].
  - destruct (H1 Hl) as (c' & -> & Hc'). exists c'. rewrite bool_decide_true by done. split; [done|by left].
  - destruct H2 as (c' & -> & Hc'); [lia|]. exists c'. rewrite bool_decide_false by done.
    split; [done|]. right. split; [lia|done].
Qed.

Lemma cur_at_start fuel ht es n :
  loaded get ht k es n -> small es -> ht < fuel ->
  exists h c, chunk_hash (chunk_ n) = Some h /\ cursor_by_index get fuel h 0 = Some (Some c) /\ cur_at es c 0.
Proof.
  intros (h & Ht & _ & _ & Hh & _) Hs Hf. exists (Some h).
  destruct (cursor_by_index_rep get fuel ht k h es 0 Ht Hs Hf) as (C1 & C2 & _).
  destruct (decide (0 < length es)) as [Hl|Hl].
  - destruct (C1 Hl) as (c & E & Hc). exists c. split_and!; [done|done|by left].
  - destruct C2 as (c & E & Hc); [lia|]. exists c. split_and!; [done|done|right; split; [lia|done]].
Qed.

(** What the cursors read. *)
Lemma compare_current_rep es er lc rc i j a b lidx ridx :
  small es -> small er -> in_order k es -> in_order k er ->
  cur_at es lc i -> cur_at er rc j -> es !! i = Some a -> er !! j = Some b ->
  exists l lps r rps, lc = l :: lps /\ rc = r :: rps /\
    compare_current OrderedKeyTrait l r lidx ridx =
      Some (if slice_lt (ekey k b) (ekey k a) then LhsGreater
            else if decide (ekey k a = ekey k b) then Same (bool_decide (a = b)) else LhsSmaller).
Proof.
  intros Hs Hs' Ho Ho' [[Hi Hc]|[-> _]] [[Hj Hc']|[-> _]] Ha Hb;
    try (by apply lookup_lt_Some in Ha; lia); try (by apply lookup_lt_Some in Hb; lia).
  destruct (cur_on_read _ _ _ _ _ Hs Hc) as (l & lps & a' & rest & -> & Ea & _ & Hcur & Hnum).
  destruct (cur_on_read _ _ _ _ _ Hs' Hc') as (r & rps & b' & rest' & -> & Eb & _ & Hcur' & Hnum').
  rewrite Ha in Ea. rewrite Hb in Eb. injection Ea as <-. injection Eb as <-.
  destruct (cur_on_key _ _ _ _ _ a Hs Hc Ha) as (l' & lps' & E & Hka); [by destruct Hk as [-> | ->]..|].
  injection E as <- <-.
  destruct (cur_on_key _ _ _ _ _ b Hs' Hc' Hb) as (r' & rps' & E & Hkb); [by destruct Hk as [-> | ->]..|].
  injection E as <- <-.
  exists l, lps, r, rps. split_and!; [done|done|]. unfold compare_current. cbn [kt_Key OrderedKeyTrait].
  rewrite Hka, Hkb. rewrite (Forall_lookup_1 _ _ _ _ (io_keys _ _ Ho) Ha). osimpl.
  rewrite (Forall_lookup_1 _ _ _ _ (io_keys _ _ Ho') Hb). osimpl.
  rewrite key_gt_slices. osimpl. destruct (slice_lt (ekey k b) (ekey k a)); [done|].
  rewrite key_eq_slices. osimpl. destruct (decide (ekey k a = ekey k b)) as [Ek|Ek].
  - rewrite bool_decide_true by done. unfold same_element. rewrite Hnum, Hnum'. osimpl.
    destruct (Nat.eqb_spec (length a) (length b)) as [El|El].
    + rewrite Hcur, Hcur'. osimpl.
      rewrite (read_bytes_app 0 _ [] a rest) by done. osimpl.
      by rewrite (read_bytes_app 0 _ [] b rest') by done.
    + osimpl. rewrite bool_decide_false; [done|]. by intros ->.
  - by rewrite bool_decide_false.
Qed.

(** ** The loop *)

(** What the entry [e] at index [i] adds: [g i] of its position on the right. *)
Definition by_position {A} (g : nat -> option nat -> list A) er (r : nat) (e : bytes) (i : nat) : list A :=
  g i ((Nat.add r) <$> pos_in er e).

Lemma flat_snoc {A} (f : bytes -> nat -> list A) s es i e :
  es !! i = Some e -> flat f s (take (S i) es) = flat f s (take i es) ++ f e (s + i).
Proof.
  intros He. pose proof (lookup_lt_Some _ _ _ He). rewrite (take_S_r _ _ _ He), flat_app, length_take.
  simpl. rewrite app_nil_r. do 3 f_equal. lia.
Qed.

(** The bookkeeping [on] of a traverser adds [g] to what its accumulator
    denotes. *)
Record folds {A Acc} (on : Outcome -> Z -> Z -> Acc -> Acc) (g : nat -> option nat -> list A)
    (asem : Acc -> list A) (aok : nat -> nat -> Acc -> Prop) : Prop := {
  fo_greater : forall i j acc, aok i j acc -> (Z.of_nat j < 2 ^ 31)%Z ->
    let acc' := on LhsGreater (Z.of_nat i) (Z.of_nat j) acc in aok i (S j) acc' /\ asem acc' = asem acc;
  fo_same : forall i j acc, aok i j acc -> (Z.of_nat i < 2 ^ 31)%Z -> (Z.of_nat j < 2 ^ 31)%Z ->
    let acc' := on (Same true) (Z.of_nat i) (Z.of_nat j) acc in
    aok (S i) (S j) acc' /\ asem acc' = asem acc ++ g i (Some j);
  fo_other : forall i j acc, aok i j acc -> (Z.of_nat i < 2 ^ 31)%Z -> (Z.of_nat j < 2 ^ 31)%Z ->
    let acc' := on (Same false) (Z.of_nat i) (Z.of_nat j) acc in
    aok (S i) (S j) acc' /\ asem acc' = asem acc ++ g i None;
  fo_smaller : forall i j acc, aok i j acc -> (Z.of_nat i < 2 ^ 31)%Z ->
    let acc' := on LhsSmaller (Z.of_nat i) (Z.of_nat j) acc in
    aok (S i) j acc' /\ asem acc' = asem acc ++ g i None
}.

Lemma incr_nat i : (Z.of_nat i < 2 ^ 31)%Z -> incr (Z.of_nat i) = Z.of_nat (S i).
Proof. intros. unfold incr. rewrite (wrap_small 64) by lia. lia. Qed.

Section Fold.
Context {A Acc : Type} (on : Outcome -> Z -> Z -> Acc -> Acc) (g : nat -> option nat -> list A).
Context (asem : Acc -> list A) (aok : nat -> nat -> Acc -> Prop).
Hypothesis Hf : folds on g asem aok.
Variable (es er : list bytes) (s r : nat).
Hypotheses (Hs : (Z.of_nat (s + length es) < 2 ^ 31)%Z) (Hr : (Z.of_nat (r + length er) < 2 ^ 31)%Z).
Hypotheses (Ho : in_order k es) (Hor : in_order k er).

(** The state after the left entries before [i] and the right ones before [j]. *)
Record loop_at (i j : nat) (acc : Acc) : Prop := {
  la_i : i <= length es;
  la_j : j <= length er;
  la_merged : merged k es er i j;
  la_ok : aok (s + i) (r + j) acc;
  la_sem : asem acc = flat (by_position g er r) s (take i es)
}.

(** One round. *)
Lemma loop_round i j acc a b :
  loop_at i j acc -> es !! i = Some a -> er !! j = Some b ->
  let o := if slice_lt (ekey k b) (ekey k a) then LhsGreater
           else if decide (ekey k a = ekey k b) then Same (bool_decide (a = b)) else LhsSmaller in
  let acc' := on o (Z.of_nat (s + i)) (Z.of_nat (r + j)) acc in
  match o with
  | LhsGreater => loop_at i (S j) acc'
  | Same _ => loop_at (S i) (S j) acc'
  | LhsSmaller => loop_at (S i) j acc'
  end.
Proof.
  intros [Hi Hj Hm Hok Hsem] Ha Hb. pose proof (lookup_lt_Some _ _ _ Ha). pose proof (lookup_lt_Some _ _ _ Hb).
  cbv zeta. destruct (slice_lt (ekey k b) (ekey k a)) eqn:Egt.
  - destruct (fo_greater _ _ _ _ Hf _ _ _ Hok ltac:(lia)) as [Hok' Hsem'].
    constructor; [lia|lia| |by rewrite Nat.add_succ_r|by rewrite Hsem'].
    intros i' j' x y Hi' Hj' Hx Hy. destruct (decide (j' = j)) as [->|].
    + rewrite Hb in Hy. injection Hy as <-. destruct (decide (i' = i)) as [->|]; [congruence|].
      apply (st_trans _ (ekey k a)); [done|]. apply (in_order_lt k es i i'); [done|lia|done|done].
    + apply (Hm i' j'); [lia|lia|done|done].
  - assert (Hm' : merged k es er (S i) j).
    { intros i' j' x y Hi' Hj'. apply Hm; lia. }
    destruct (decide (ekey k a = ekey k b)) as [Ek|Ek].
    + assert (Hm2 : merged k es er (S i) (S j)).
      { intros i' j' x y Hi' Hj' Hx Hy. destruct (decide (j' = j)) as [->|]; [|apply (Hm' i' j'); (lia || done)].
        rewrite Hb in Hy. injection Hy as <-. rewrite <- Ek. apply (in_order_lt k es i i'); [done|lia|done|done]. }
      pose proof (merged_same k er j a b Hor Hb Ek) as Hp.
      assert (Hflat : flat (by_position g er r) s (take (S i) es)
        = asem acc ++ g (s + i) (if decide (a = b) then Some (r + j) else None)).
      { rewrite (flat_snoc _ _ _ _ _ Ha), Hsem. unfold by_position. rewrite Hp. by destruct (decide (a = b)). }
      destruct (decide (a = b)) as [Eab|Eab].
      * rewrite bool_decide_true by done.
        destruct (fo_same _ _ _ _ Hf _ _ _ Hok ltac:(lia) ltac:(lia)) as [Hok' Hsem'].
        constructor; [lia|lia|done|by rewrite !Nat.add_succ_r|by rewrite Hsem', Hflat].
      * rewrite bool_decide_false by done.
        destruct (fo_other _ _ _ _ Hf _ _ _ Hok ltac:(lia) ltac:(lia)) as [Hok' Hsem'].
        constructor; [lia|lia|done|by rewrite !Nat.add_succ_r|by rewrite Hsem', Hflat].
    + destruct (fo_smaller _ _ _ _ Hf _ _ _ Hok ltac:(lia)) as [Hok' Hsem'].
      constructor; [lia|lia|done|by rewrite Nat.add_succ_r|].
      rewrite Hsem', (flat_snoc _ _ _ _ _ Ha), Hsem. unfold by_position at 3.
      rewrite (merged_absent k es er i j a Hor Hm Ha); [done|]. intros b' Hb'. rewrite Hb in Hb'.
      injection Hb' as <-. destruct (slice_lt (ekey k a) (ekey k b)) eqn:Elt; [done|].
      by rewrite (st_total _ _ Elt Egt) in Ek.
Qed.

Lemma iterate_loop_rep steps : forall i j lc rc acc,
  (length es - i) + (length er - j) < steps -> cur_at es lc i -> cur_at er rc j -> loop_at i j acc ->
  exists lc' i' j' acc',
    iterate_loop get get OrderedKeyTrait on steps lc rc (Z.of_nat (s + i)) (Z.of_nat (r + j)) acc
      = Some (lc', Z.of_nat (s + i'), acc') /\
    cur_at es lc' i' /\ loop_at i' j' acc' /\ (i' = length es \/ j' = length er).
Proof.
  assert (Hes : small es) by (unfold small; lia). assert (Her : small er) by (unfold small; lia).
  induction steps as [|steps IH]; intros i j lc rc acc Hst Hl Hrc Hla; [lia|].
  pose proof (la_i _ _ _ Hla) as Hi. pose proof (la_j _ _ _ Hla) as Hj.
  destruct (cur_at_isEnd _ _ _ Hes Hl) as (l & lps & -> & El).
  destruct (cur_at_isEnd _ _ _ Her Hrc) as (rl & rps & -> & Er).
  cbn [iterate_loop]. rewrite El, Er. osimpl.
  destruct (bool_decide (i = length es) || bool_decide (j = length er)) eqn:Eend.
  { exists (l :: lps), i, j, acc. split_and!; try done. apply orb_true_iff in Eend as [E|E];
      apply bool_decide_eq_true in E; auto. }
  apply orb_false_iff in Eend as [Ei Ej]. apply bool_decide_eq_false in Ei, Ej.
  destruct (lookup_lt_is_Some_2 es i ltac:(lia)) as [a Ha].
  destruct (lookup_lt_is_Some_2 er j ltac:(lia)) as [b Hb].
  destruct (compare_current_rep es er _ _ i j a b (Z.of_nat (s + i)) (Z.of_nat (r + j)) Hes Her Ho Hor Hl Hrc Ha Hb)
    as (l' & lps' & rl' & rps' & E1 & E2 & Hcmp).
  injection E1 as <- <-. injection E2 as <- <-. rewrite Hcmp. osimpl.
  pose proof (loop_round i j acc a b Hla Ha Hb) as Hround. cbv zeta in Hround.
  destruct (cur_at_advance _ _ _ Hes Hl ltac:(lia)) as (lc' & EL & HL).
  destruct (cur_at_advance _ _ _ Her Hrc ltac:(lia)) as (rc' & ER & HR).
  rewrite !incr_nat, <- !Nat.add_succ_r by lia.
  destruct (if slice_lt (ekey k b) (ekey k a) then _ else _) as [|same|]; rewrite ?EL, ?ER; osimpl;
    cbn [snd]; rewrite ?ER; osimpl; cbn [snd]; (apply IH; [lia|done|done|done]).
Qed.

End Fold.

End Loop.
