(* ===== verification/DiffProps.v ===== *)
(** * Diff, intersection and mapping of maps and sets

    The three traversers of the comparator by key, and the compaction of their
    ranges. *)

From S2P Require Import Prelude Types Slice HashVal Chunk RollingHash Node NodeSearch Chunker.
From S2P Require Import Canonical Leaf Store Cursor Builder Build Tree CursorProps KeySearch Comparator.
From S2P Require Import CompareProps IterateProps.

(** ** What ranges denote *)

Definition sem_range (r : IndexRange) : list nat := seq (Z.to_nat (start_idx r)) (Z.to_nat (num_subsequent r)).

Definition range_ok (r : IndexRange) : Prop :=
  (0 <= start_idx r)%Z /\ (0 < num_subsequent r)%Z /\ (start_idx r + num_subsequent r < 2 ^ 32)%Z.

Definition sem_maps (p : IndexRange * IndexRange) : list (nat * nat) :=
  zip (sem_range (fst p)) (sem_range (snd p)).

Definition maps_ok (p : IndexRange * IndexRange) : Prop :=
  range_ok (fst p) /\ range_ok (snd p) /\ num_subsequent (fst p) = num_subsequent (snd p).

(** Ranges that end at an index, or have no element yet. *)
Definition open_range (r : IndexRange) (i : nat) : Prop :=
  num_subsequent r = 0%Z \/ (range_ok r /\ (start_idx r + num_subsequent r = Z.of_nat i)%Z).

Lemma sem_range_empty r : num_subsequent r = 0%Z -> sem_range r = [].
Proof. unfold sem_range. by intros ->. Qed.

Lemma sem_range_one i : sem_range (mkIR (Z.of_nat i) 1) = [i].
Proof. unfold sem_range. simpl. by rewrite Nat2Z.id. Qed.

Lemma range_ok_one i : (Z.of_nat i < 2 ^ 31)%Z -> range_ok (mkIR (Z.of_nat i) 1).
Proof. unfold range_ok. simpl. lia. Qed.

(** A range that ends at [i], grown by one element. *)
Lemma grow_range r i :
  range_ok r -> (start_idx r + num_subsequent r = Z.of_nat i)%Z -> (Z.of_nat i < 2 ^ 31)%Z ->
  let r' := mkIR (start_idx r) (incr (num_subsequent r)) in
  range_ok r' /\ (start_idx r' + num_subsequent r' = Z.of_nat (S i))%Z /\ sem_range r' = sem_range r ++ [i].
Proof.
  intros (Hs & Hn & _) Hi Hlt. cbn [start_idx num_subsequent].
  assert (E : incr (num_subsequent r) = (num_subsequent r + 1)%Z).
  { unfold incr. apply (wrap_small 64). lia. }
  unfold range_ok, sem_range. cbn [start_idx num_subsequent]. rewrite E. split_and!; try lia.
  replace (Z.to_nat (num_subsequent r + 1)) with (Z.to_nat (num_subsequent r) + 1) by lia.
  rewrite seq_app. do 2 f_equal. simpl. f_equal. lia.
Qed.

(** ** The accumulators *)

Definition range_sem (a : RangeAcc) : list nat := (fst a ≫= sem_range) ++ sem_range (snd a).

Definition range_acc_ok (i j : nat) (a : RangeAcc) : Prop :=
  Forall range_ok (fst a) /\ open_range (snd a) i.

Lemma flush_range_rep a i j :
  range_acc_ok i j a ->
  range_sem (flush_range a) = range_sem a /\ Forall range_ok (fst (flush_range a)) /\
  num_subsequent (snd (flush_range a)) = 0%Z.
Proof.
  destruct a as [res cur]. intros [Hres Hcur]. unfold flush_range. cbn [fst snd] in *.
  destruct (Z.eqb_spec (num_subsequent cur) 0) as [E|E]; [done|]. split_and!.
  - unfold range_sem. cbn [fst snd]. rewrite bind_app, sem_range_empty, app_nil_r by done.
    cbn [mbind list_bind]. by rewrite app_nil_r.
  - cbn [fst]. apply Forall_app. split; [done|]. constructor; [|constructor]. by destruct Hcur as [|[? _]].
  - done.
Qed.

Lemma flush_range_ok a i j i' j' : range_acc_ok i j a -> range_acc_ok i' j' (flush_range a).
Proof. intros Ha. destruct (flush_range_rep a i j Ha) as (_ & ? & ?). split; [done|by left]. Qed.

Lemma extend_range_rep a i j j' :
  range_acc_ok i j a -> (Z.of_nat i < 2 ^ 31)%Z ->
  range_acc_ok (S i) j' (extend_range (Z.of_nat i) a) /\
  range_sem (extend_range (Z.of_nat i) a) = range_sem a ++ [i].
Proof.
  destruct a as [res cur]. intros [Hres Hcur] Hi. unfold extend_range, range_acc_ok, range_sem.
  cbn [fst snd] in *. destruct (Z.eqb_spec (num_subsequent cur) 0) as [E|E]; cbn [fst snd].
  - rewrite (sem_range_empty cur E), app_nil_r, sem_range_one. split; [|done]. split; [done|].
    right. split; [by apply range_ok_one|]. cbn [start_idx num_subsequent]. lia.
  - destruct Hcur as [?|[Hok Hend]]; [done|].
    destruct (grow_range cur i Hok Hend Hi) as (Hok' & Hend' & Hsem).
    rewrite Hsem, app_assoc. split; [|done]. split; [done|]. by right.
Qed.

Definition present (i : nat) (o : option nat) : list nat :=
  match o with Some _ => [i] | None => [] end.
Definition absent (i : nat) (o : option nat) : list nat :=
  match o with Some _ => [] | None => [i] end.
Definition paired (i : nat) (o : option nat) : list (nat * nat) :=
  match o with Some j => [(i, j)] | None => [] end.

Lemma range_acc_skip i j j' a : range_acc_ok i j a -> range_acc_ok i j' a.
Proof. done. Qed.

Lemma Intersector_folds : folds Intersector_on present range_sem range_acc_ok.
Proof.
  split; intros i j acc Ha **; cbv zeta; cbn [Intersector_on present].
  - done.
  - by apply (extend_range_rep acc i j).
  - rewrite app_nil_r. split; [by eapply flush_range_ok|by eapply flush_range_rep].
  - rewrite app_nil_r. split; [by eapply flush_range_ok|by eapply flush_range_rep].
Qed.

Lemma Differ_folds : folds Differ_on absent range_sem range_acc_ok.
Proof.
  split; intros i j acc Ha **; cbv zeta; cbn [Differ_on absent].
  - done.
  - rewrite app_nil_r. split; [by eapply flush_range_ok|by eapply flush_range_rep].
  - by apply (extend_range_rep acc i j).
  - by apply (extend_range_rep acc i j).
Qed.

(** Pairs of ranges. *)
Definition maps_sem (a : MapAcc) : list (nat * nat) := (fst a ≫= sem_maps) ++ sem_maps (snd a).

Definition maps_acc_ok (i j : nat) (a : MapAcc) : Prop :=
  Forall maps_ok (fst a) /\
  (num_subsequent (fst (snd a)) = 0%Z \/
   (maps_ok (snd a) /\ (start_idx (fst (snd a)) + num_subsequent (fst (snd a)) = Z.of_nat i)%Z /\
    (start_idx (snd (snd a)) + num_subsequent (snd (snd a)) = Z.of_nat j)%Z)).

Lemma sem_maps_empty p : num_subsequent (fst p) = 0%Z -> sem_maps p = [].
Proof. intros E. unfold sem_maps. by rewrite sem_range_empty. Qed.

Lemma flush_maps_rep a i j :
  maps_acc_ok i j a ->
  maps_sem (flush_maps a) = maps_sem a /\ Forall maps_ok (fst (flush_maps a)) /\
  num_subsequent (fst (snd (flush_maps a))) = 0%Z.
Proof.
  destruct a as [res [lr rr]]. intros [Hres Hcur]. unfold flush_maps. cbn [fst snd] in *.
  destruct (Z.eqb_spec (num_subsequent lr) 0) as [E|E]; [done|]. split_and!.
  - unfold maps_sem. cbn [fst snd]. rewrite bind_app, (sem_maps_empty (mkIR _ 0, _)), app_nil_r by done.
    cbn [mbind list_bind]. by rewrite app_nil_r.
  - cbn [fst]. apply Forall_app. split; [done|]. constructor; [|constructor]. by destruct Hcur as [|[? _]].
  - done.
Qed.

Lemma flush_maps_ok a i j i' j' : maps_acc_ok i j a -> maps_acc_ok i' j' (flush_maps a).
Proof. intros Ha. destruct (flush_maps_rep a i j Ha) as (_ & ? & ?). split; [done|by left]. Qed.

Lemma length_sem_range r : length (sem_range r) = Z.to_nat (num_subsequent r).
Proof. apply length_seq. Qed.

Lemma extend_maps_rep a i j :
  maps_acc_ok i j a -> (Z.of_nat i < 2 ^ 31)%Z -> (Z.of_nat j < 2 ^ 31)%Z ->
  maps_acc_ok (S i) (S j) (extend_maps (Z.of_nat i) (Z.of_nat j) a) /\
  maps_sem (extend_maps (Z.of_nat i) (Z.of_nat j) a) = maps_sem a ++ [(i, j)].
Proof.
  destruct a as [res [lr rr]]. intros [Hres Hcur] Hi Hj. unfold extend_maps, maps_acc_ok, maps_sem.
  cbn [fst snd] in *. destruct (Z.eqb_spec (num_subsequent lr) 0) as [E|E]; cbn [fst snd].
  - rewrite (sem_maps_empty (lr, rr) E), app_nil_r. unfold sem_maps. cbn [fst snd].
    rewrite !sem_range_one. split; [|done]. split; [done|]. right. unfold maps_ok. cbn [fst snd].
    split_and!; [by apply range_ok_one..|done| |]; cbn [start_idx num_subsequent]; lia.
  - destruct Hcur as [?|((Hlok & Hrok & En) & Hend & Hend')]; [done|]. cbn [fst snd] in *.
    destruct (grow_range lr i Hlok Hend Hi) as (Hlok' & Hlend & Hlsem).
    destruct (grow_range rr j Hrok Hend' Hj) as (Hrok' & Hrend & Hrsem).
    split.
    + split; [done|]. right. split_and!; [|done|done]. split_and!; [done|done|]. cbn. by rewrite En.
    + unfold sem_maps at 2 4. cbn [fst snd]. rewrite Hlsem, Hrsem, zip_with_app, app_assoc; [done|].
      by rewrite !length_sem_range, En.
Qed.

Lemma Mapper_folds : folds Mapper_on paired maps_sem maps_acc_ok.
Proof.
  split; intros i j acc Ha **; cbv zeta; cbn [Mapper_on paired]; rewrite ?app_nil_r;
    try (split; [by eapply flush_maps_ok|by eapply flush_maps_rep]).
  by apply extend_maps_rep.
Qed.

(** ** The traversers *)

Section Traversers.
Context `{HF : HashFunction}.
Variable get : Hash -> option Chunk.
Variable k : NodeKind.
Hypothesis Hk : k = KMap \/ k = KSet.
Variable fuel : nat.
Implicit Types (es er : list bytes) (n : SeqNode).

Lemma loaded_numElements ht es n :
  loaded get ht k es n -> small es -> numElements n = Some (Z.of_nat (length es)).
Proof. intros (h & _ & _ & Hn & _). by eapply node_numElements. Qed.

Lemma iterate_rep {A Acc} (on : Outcome -> Z -> Z -> Acc -> Acc) (g : nat -> option nat -> list A)
    asem aok acc0 ht ht' es er n n' s r :
  folds on g asem aok -> asem acc0 = [] -> aok s r acc0 ->
  loaded get ht k es n -> loaded get ht' k er n' -> in_order k es -> in_order k er ->
  ht < fuel -> ht' < fuel ->
  (Z.of_nat (s + length es) < 2 ^ 31)%Z -> (Z.of_nat (r + length er) < 2 ^ 31)%Z ->
  exists lc i j acc,
    iterate get get OrderedKeyTrait on HF fuel n (Z.of_nat s) n' (Z.of_nat r) acc0
      = Some (lc, Z.of_nat (s + i), acc) /\
    cur_at get k es lc i /\ loop_at k g asem aok es er s r i j acc /\ (i = length es \/ j = length er).
Proof.
  intros Hf Hsem0 Hok0 Hn Hn' Ho Hor Hht Hht' Hs Hr.
  assert (Hes : small es) by (unfold small; lia). assert (Her : small er) by (unfold small; lia).
  destruct (cur_at_start get k fuel ht es n Hn Hes Hht) as (h & lc & Hh & Hlc & HL).
  destruct (cur_at_start get k fuel ht' er n' Hn' Her Hht') as (h' & rc & Hh' & Hrc & HR).
  unfold iterate. rewrite Hh, Hh'. osimpl. rewrite Hlc. osimpl. rewrite Hrc. osimpl.
  rewrite (loaded_numElements _ _ _ Hn Hes), (loaded_numElements _ _ _ Hn' Her). osimpl. rewrite !Nat2Z.id.
  pose proof (iterate_loop_rep get k Hk on g asem aok Hf es er s r Hs Hr Ho Hor
    (S (length es + length er)) 0 0 lc rc acc0) as L. rewrite !Nat.add_0_r in L.
  apply L; [lia|done|done|]. constructor; [lia|lia| |by rewrite !Nat.add_0_r|done].
  intros i' j' a b _ Hj'. lia.
Qed.

(** Nothing on the right is equal to the left entries that are left. *)
Lemma rest_absent {A Acc} (g : nat -> option nat -> list A) (asem : Acc -> list A) aok es er s r i j acc :
  loop_at k g asem aok es er s r i j acc -> in_order k er -> i = length es \/ j = length er ->
  flat (by_position g er r) s es
  = asem acc ++ flat (fun _ i => g i None) (s + i) (drop i es).
Proof.
  intros [Hi Hj Hm _ Hsem] Hor Hend. rewrite Hsem, <- (take_drop i es) at 1.
  rewrite flat_app, length_take. replace (s + min i (length es)) with (s + i) by lia. f_equal.
  destruct Hend as [->| ->]; [by rewrite drop_ge by lia|].
  apply flat_ext. intros e x [j Hj']%list_elem_of_lookup. rewrite lookup_drop in Hj'.
  unfold by_position. rewrite (merged_absent k es er (i + j) (length er) e); [done|done| |done|].
  - intros i' j' a b Hi'. apply Hm. lia.
  - intros b Hb. apply lookup_lt_Some in Hb. lia.
Qed.

Lemma flat_nothing {A} (f : bytes -> nat -> list A) es : forall s,
  (forall e i, f e i = []) -> flat f s es = [].
Proof. induction es as [|e es IH]; intros s Hf; [done|]. simpl. by rewrite Hf, IH. Qed.

Lemma flat_seq es : forall s, flat (fun _ i => [i]) s es = seq s (length es).
Proof. induction es as [|e es IH]; intros s; [done|]. simpl. by rewrite IH. Qed.

Lemma sem_range_all s es :
  sem_range (mkIR (Z.of_nat s) (Z.of_nat (length es))) = seq s (length es).
Proof. unfold sem_range. cbn [start_idx num_subsequent]. by rewrite !Nat2Z.id. Qed.

Lemma pos_in_self es i e : in_order k es -> es !! i = Some e -> pos_in es e = Some i.
Proof. intros Ho. apply pos_in_Some. by eapply in_order_NoDup. Qed.

(** An entry outside the bounds of a subtree is not in the rest of the tree. *)
Lemma pos_in_local pre er post e :
  (forall x, x ∈ pre -> slice_lt (ekey k x) (ekey k e) = true) ->
  (forall x, x ∈ post -> slice_lt (ekey k e) (ekey k x) = true) ->
  in_order k (pre ++ er ++ post) ->
  pos_in (pre ++ er ++ post) e = (Nat.add (length pre)) <$> pos_in er e.
Proof.
  intros Hpre Hpost Ho.
  assert (Hn1 : e ∉ pre) by (intros Hin; specialize (Hpre e Hin); by rewrite st_irrefl in Hpre).
  assert (Hn2 : e ∉ post) by (intros Hin; specialize (Hpost e Hin); by rewrite st_irrefl in Hpost).
  destruct (pos_in er e) as [j|] eqn:E.
  - apply pos_in_lookup in E. apply pos_in_Some; [by eapply in_order_NoDup|].
    rewrite lookup_middle; [done|]. by eapply lookup_lt_Some.
  - apply pos_in_None. rewrite !elem_of_app. intros [?|[Hin|?]]; [done| |done].
    apply list_elem_of_lookup in Hin as [j Hj].
    apply in_order_app in Ho as (_ & Ho & _). apply in_order_app in Ho as (Ho & _).
    by rewrite (pos_in_self _ _ _ Ho Hj) in E.
Qed.

Lemma by_position_local {A} (g : nat -> option nat -> list A) pre er post e i :
  in_order k (pre ++ er ++ post) ->
  (forall x, x ∈ pre -> slice_lt (ekey k x) (ekey k e) = true) ->
  (forall x, x ∈ post -> slice_lt (ekey k e) (ekey k x) = true) ->
  by_position g (pre ++ er ++ post) 0 e i = by_position g er (length pre) e i.
Proof.
  intros Ho Hpre Hpost. unfold by_position. rewrite pos_in_local by done.
  f_equal. by destruct (pos_in er e).
Qed.

Lemma range_acc_start s r : range_acc_ok s r ([], mkIR 0 0).
Proof. split; [constructor|by left]. Qed.

Lemma Intersector_ok :
  traverser_ok get k fuel sem_range range_ok (by_position present) (Intersector get get fuel OrderedKeyTrait).
Proof.
  split.
  - intros ht ht' es n n' s r Hn Hn' Ho Hne Hs Hr. cbn [IdenticalHashes Intersector].
    rewrite (loaded_numElements _ _ _ Hn) by (unfold small; lia). osimpl. eexists. split; [reflexivity|].
    assert (0 < length es) by (destruct es; [done|simpl; lia]). split.
    + constructor; [|constructor]. unfold range_ok. cbn [start_idx num_subsequent]. lia.
    + cbn [mbind list_bind]. rewrite app_nil_r, sem_range_all, <- flat_seq. apply flat_ext.
      intros e i [j Hj]%list_elem_of_lookup. unfold by_position. by rewrite (pos_in_self _ _ _ Ho Hj).
  - intros ht ht' es er n n' s r Hn Hn' Ho Hor Hf Hf' Hne Hs Hr. cbn [IterateLeaves Intersector].
    destruct (iterate_rep Intersector_on present range_sem range_acc_ok ([], mkIR 0 0)
      ht ht' es er n n' s r Intersector_folds eq_refl (range_acc_start s r) Hn Hn' Ho Hor Hf Hf' Hs Hr)
      as (lc & i & j & acc & -> & _ & Hla & Hend). osimpl. cbn [snd].
    pose proof (la_ok _ _ _ _ _ _ _ _ _ _ _ Hla) as Hok.
    destruct (flush_range_rep acc _ _ Hok) as (Hsem & Hres & Hz).
    eexists. split; [reflexivity|]. split; [exact Hres|].
    rewrite (rest_absent _ _ _ _ _ _ _ _ _ _ Hla Hor Hend), flat_nothing, app_nil_r, <- Hsem by done.
    unfold range_sem. by rewrite (sem_range_empty _ Hz), app_nil_r.
  - intros. by apply by_position_local.
Qed.

(** The loop over the rest of the left side. *)
Lemma differ_rest_rep es steps : forall i lc m,
  small es -> cur_at get k es lc i -> i < length es -> length es - i <= steps ->
  (0 <= m)%Z -> (m + Z.of_nat (length es - i) < 2 ^ 32)%Z ->
  differ_rest get steps lc m = Some (m + Z.of_nat (length es - i))%Z.
Proof.
  induction steps as [|steps IH]; intros i lc m Hs Hc Hi Hst Hm Hb; [lia|]. cbn [differ_rest].
  destruct (cur_at_advance get k es lc i Hs Hc Hi) as (c' & -> & Hc'). osimpl. cbn [fst snd].
  assert (E : incr m = (m + 1)%Z) by (apply (wrap_small 64); lia). rewrite E.
  destruct (decide (S i < length es)) as [Hl|Hl].
  - rewrite bool_decide_true by done. rewrite (IH (S i)) by (done || lia). f_equal. lia.
  - rewrite bool_decide_false by done. f_equal. lia.
Qed.

Lemma seq_grow a b c d : a + b = c -> seq a (b + d) = seq a b ++ seq c d.
Proof. intros <-. by rewrite seq_app. Qed.

Lemma differ_tail_rep es s i j lc acc :
  small es -> (Z.of_nat (s + length es) < 2 ^ 31)%Z -> cur_at get k es lc i -> i <= length es ->
  range_acc_ok (s + i) j acc ->
  exists acc', differ_tail get (S (length es)) (lc, Z.of_nat (s + i), acc) = Some acc' /\
    range_acc_ok (s + length es) j acc' /\ range_sem acc' = range_sem acc ++ seq (s + i) (length es - i).
Proof.
  intros Hs Hb Hc Hi Hok. destruct acc as [res cur]. unfold differ_tail.
  destruct (cur_at_isEnd get k es lc i Hs Hc) as (l & ps & -> & He). cbn [head]. osimpl. rewrite He. osimpl.
  destruct (decide (i = length es)) as [->|Hne].
  { rewrite bool_decide_true by done. eexists. split; [reflexivity|]. rewrite Nat.sub_diag. simpl.
    by rewrite app_nil_r. }
  rewrite bool_decide_false by done. destruct Hok as [Hres Hcur]. cbn [fst snd] in *.
  set (cur' := if (num_subsequent cur =? 0)%Z then mkIR (Z.of_nat (s + i)) 0 else cur).
  assert (Hcur' : (0 <= start_idx cur')%Z /\ (0 <= num_subsequent cur')%Z /\
    (start_idx cur' + num_subsequent cur' = Z.of_nat (s + i))%Z /\ sem_range cur' = sem_range cur).
  { subst cur'. destruct (Z.eqb_spec (num_subsequent cur) 0) as [E|E].
    - rewrite (sem_range_empty cur E). cbn. split_and!; [lia|lia|lia|done].
    - destruct Hcur as [?|[(? & ? & _) ?]]; [done|]. split_and!; [lia|lia|lia|done]. }
  destruct Hcur' as (H1 & H2' & H3 & Hsem).
  rewrite (differ_rest_rep es (S (length es)) i (l :: ps) (num_subsequent cur')) by (done || lia). osimpl.
  eexists. split; [reflexivity|]. split.
  - split; [done|]. right. unfold range_ok. cbn [snd start_idx num_subsequent]. lia.
  - unfold range_sem. cbn [fst snd]. rewrite <- app_assoc, <- Hsem. f_equal.
    unfold sem_range. cbn [start_idx num_subsequent].
    rewrite Z2Nat.inj_add, Nat2Z.id by lia. apply seq_grow. lia.
Qed.

Lemma Differ_ok :
  traverser_ok get k fuel sem_range range_ok (by_position absent) (Differ get get fuel OrderedKeyTrait).
Proof.
  split.
  - intros ht ht' es n n' s r Hn Hn' Ho Hne Hs Hr. cbn [IdenticalHashes Differ].
    exists []. split_and!; [done|constructor|]. symmetry.
    rewrite (flat_ext _ (fun _ _ => [])); [by apply flat_nothing|].
    intros e i [j Hj]%list_elem_of_lookup. unfold by_position. by rewrite (pos_in_self _ _ _ Ho Hj).
  - intros ht ht' es er n n' s r Hn Hn' Ho Hor Hf Hf' Hne Hs Hr. cbn [IterateLeaves Differ].
    assert (Hes : small es) by (unfold small; lia).
    destruct (iterate_rep Differ_on absent range_sem range_acc_ok ([], mkIR 0 0)
      ht ht' es er n n' s r Differ_folds eq_refl (range_acc_start s r) Hn Hn' Ho Hor Hf Hf' Hs Hr)
      as (lc & i & j & acc & -> & Hc & Hla & Hend). osimpl.
    rewrite (loaded_numElements _ _ _ Hn Hes). osimpl. rewrite Nat2Z.id.
    destruct (differ_tail_rep es s i (r + j) lc acc Hes Hs Hc (la_i _ _ _ _ _ _ _ _ _ _ _ Hla)
      (la_ok _ _ _ _ _ _ _ _ _ _ _ Hla)) as (acc' & -> & Hok & Hsem'). osimpl.
    destruct (flush_range_rep acc' _ _ Hok) as (Hsem & Hres & Hz).
    eexists. split; [reflexivity|]. split; [exact Hres|].
    rewrite (rest_absent _ _ _ _ _ _ _ _ _ _ Hla Hor Hend). cbn [absent]. rewrite flat_seq, length_drop.
    rewrite <- Hsem', <- Hsem. unfold range_sem. by rewrite (sem_range_empty _ Hz), app_nil_r.
  - intros. by apply by_position_local.
Qed.

Lemma flat_pairs (f : bytes -> nat -> list (nat * nat)) es : forall s r,
  (forall j e, es !! j = Some e -> f e (s + j) = [(s + j, r + j)]) ->
  flat f s es = zip (seq s (length es)) (seq r (length es)).
Proof.
  induction es as [|e es IH]; intros s r Hf; [done|]. simpl.
  pose proof (Hf 0 e eq_refl) as H0. rewrite !Nat.add_0_r in H0. rewrite H0. simpl. f_equal.
  apply IH. intros j e' Hj. specialize (Hf (S j) e' Hj). by rewrite !Nat.add_succ_r in Hf.
Qed.

Lemma Mapper_ok :
  traverser_ok get k fuel sem_maps maps_ok (by_position paired) (Mapper get get fuel OrderedKeyTrait).
Proof.
  split.
  - intros ht ht' es n n' s r Hn Hn' Ho Hne Hs Hr. cbn [IdenticalHashes Mapper].
    rewrite (loaded_numElements _ _ _ Hn), (loaded_numElements _ _ _ Hn') by (unfold small; lia). osimpl.
    eexists. split; [reflexivity|].
    assert (0 < length es) by (destruct es; [done|simpl; lia]). split.
    + constructor; [|constructor]. unfold maps_ok, range_ok. cbn [fst snd start_idx num_subsequent]. lia.
    + cbn [mbind list_bind]. rewrite app_nil_r. unfold sem_maps. cbn [fst snd]. rewrite !sem_range_all.
      symmetry. apply flat_pairs. intros j e Hj. unfold by_position. by rewrite (pos_in_self _ _ _ Ho Hj).
  - intros ht ht' es er n n' s r Hn Hn' Ho Hor Hf Hf' Hne Hs Hr. cbn [IterateLeaves Mapper].
    destruct (iterate_rep Mapper_on paired maps_sem maps_acc_ok ([], (mkIR 0 0, mkIR 0 0))
      ht ht' es er n n' s r Mapper_folds eq_refl ltac:(split; [constructor|by left]) Hn Hn' Ho Hor Hf Hf' Hs Hr)
      as (lc & i & j & acc & -> & _ & Hla & Hend). osimpl. cbn [snd].
    destruct (flush_maps_rep acc _ _ (la_ok _ _ _ _ _ _ _ _ _ _ _ Hla)) as (Hsem & Hres & Hz).
    eexists. split; [reflexivity|]. split; [exact Hres|].
    rewrite (rest_absent _ _ _ _ _ _ _ _ _ _ Hla Hor Hend), flat_nothing, app_nil_r, <- Hsem by done.
    unfold maps_sem. by rewrite (sem_maps_empty _ Hz), app_nil_r.
  - intros. by apply by_position_local.
Qed.

End Traversers.

(** ** Compaction *)

(** Ranges with a gap between them, in order. *)
Definition separated (rs : list IndexRange) : Prop :=
  StronglySorted (fun a b => (start_idx a + num_subsequent a < start_idx b)%Z) rs.

Lemma elem_of_sem_range r i :
  i ∈ sem_range r <-> (Z.to_nat (start_idx r) <= i < Z.to_nat (start_idx r) + Z.to_nat (num_subsequent r)).
Proof. unfold sem_range. by rewrite elem_of_seq. Qed.

Lemma range_before a b l :
  range_ok a -> range_ok b -> StronglySorted lt (sem_range a ++ sem_range b ++ l) ->
  (start_idx a + num_subsequent a <= start_idx b)%Z.
Proof.
  intros (Ha & Hn & _) (Hb & Hm & _) Hs.
  pose proof (StronglySorted_app_1_elem_of _ _ _
    (Z.to_nat (start_idx a) + Z.to_nat (num_subsequent a) - 1) (Z.to_nat (start_idx b)) Hs) as Hlt.
  rewrite elem_of_app, !elem_of_sem_range in Hlt. lia.
Qed.

(** Two adjacent ranges are one. *)
Lemma join_ranges a b :
  range_ok a -> range_ok b -> (start_idx a + num_subsequent a = start_idx b)%Z ->
  let r := mkIR (start_idx a) (u64 (num_subsequent a + num_subsequent b)) in
  range_ok r /\ (start_idx r + num_subsequent r = start_idx b + num_subsequent b)%Z /\
  sem_range r = sem_range a ++ sem_range b.
Proof.
  intros (Ha & Hn & Hla) (Hb & Hm & Hlb) E. cbv zeta. unfold range_ok, sem_range.
  cbn [start_idx num_subsequent]. rewrite (wrap_small 64) by lia.
  split_and!; try lia. rewrite Z2Nat.inj_add by lia. apply seq_grow. lia.
Qed.

Lemma compact_loop_rep rest : forall curr,
  range_ok curr -> Forall range_ok rest -> StronglySorted lt (sem_range curr ++ (rest ≫= sem_range)) ->
  exists rs, compact_loop curr (start_idx curr + num_subsequent curr) rest = Some rs /\
    Forall range_ok rs /\ rs ≫= sem_range = sem_range curr ++ (rest ≫= sem_range) /\
    separated rs /\ Forall (fun r => start_idx curr <= start_idx r)%Z rs.
Proof.
  induction rest as [|r rest IH]; intros curr Hc Hrest Hs; cbn [compact_loop].
  - exists [curr]. split_and!; [done|by apply Forall_singleton|done|by repeat constructor|].
    constructor; [lia|constructor].
  - apply Forall_cons in Hrest as [Hr Hrest]. cbn [mbind list_bind] in Hs |- *.
    pose proof (range_before _ _ _ Hc Hr Hs) as Hle. pose proof Hr as (Hr0 & Hrn & Hrl).
    rewrite (proj2 (Z.eqb_neq (num_subsequent r) 0)) by lia. osimpl.
    rewrite (wrap_small 64) by lia.
    destruct (Z.ltb_spec (start_idx curr + num_subsequent curr) (start_idx r)) as [Hlt|Hge].
    + destruct (IH r Hr Hrest) as (rs & -> & Hok & Hsem & Hsep & Hst).
      { by apply StronglySorted_app_1_r in Hs. }
      osimpl. exists (curr :: rs). split_and!; [done|by constructor| | |].
      * rewrite bind_cons, Hsem. done.
      * constructor; [done|]. eapply Forall_impl; [exact Hst|]. simpl. lia.
      * destruct Hc as (? & ? & _). constructor; [lia|]. eapply Forall_impl; [exact Hst|]. simpl. lia.
    + assert (E : (start_idx curr + num_subsequent curr = start_idx r)%Z) by lia.
      rewrite (proj2 (Z.eqb_eq _ _) E).
      destruct (join_ranges curr r Hc Hr E) as (Hok' & Hend & Hsem'). rewrite <- Hend.
      destruct (IH _ Hok' Hrest) as (rs & -> & Hok & Hsem & Hsep & Hst).
      { rewrite Hsem', <- app_assoc. exact Hs. }
      exists rs. split_and!; try done. rewrite Hsem, Hsem'. by rewrite <- app_assoc.
Qed.

Lemma Compact_rep rs :
  Forall range_ok rs -> StronglySorted lt (rs ≫= sem_range) ->
  exists rs', Compact rs = Some rs' /\ Forall range_ok rs' /\ rs' ≫= sem_range = rs ≫= sem_range /\
    separated rs'.
Proof.
  intros Hok Hs. destruct rs as [|r rs]; [exists []; split_and!; [done|constructor|done|constructor]|].
  apply Forall_cons in Hok as [Hr Hok]. cbn [Compact]. pose proof Hr as (? & ? & ?).
  rewrite (wrap_small 64) by lia.
  destruct (compact_loop_rep rs r Hr Hok Hs) as (rs' & -> & Hok' & Hsem & Hsep & _). exists rs'. by split_and!.
Qed.

(** The same for pairs of ranges. *)
Definition both_lt (p q : nat * nat) : Prop := fst p < fst q /\ snd p < snd q.

Definition maps_separated (rs : RangeMaps) : Prop :=
  StronglySorted (fun p q =>
    (start_idx (fst p) + num_subsequent (fst p) < start_idx (fst q))%Z \/
    (start_idx (snd p) + num_subsequent (snd p) < start_idx (snd q))%Z) rs.

Lemma sem_maps_lookup p i :
  maps_ok p -> i < Z.to_nat (num_subsequent (fst p)) ->
  (Z.to_nat (start_idx (fst p)) + i, Z.to_nat (start_idx (snd p)) + i) ∈ sem_maps p.
Proof.
  intros (_ & _ & E) Hi. apply list_elem_of_lookup. exists i. unfold sem_maps.
  apply lookup_zip_with_Some. unfold sem_range. eexists _, _.
  rewrite !lookup_seq_lt by lia. done.
Qed.

Lemma maps_before a b l :
  maps_ok a -> maps_ok b -> StronglySorted both_lt (sem_maps a ++ sem_maps b ++ l) ->
  (start_idx (fst a) + num_subsequent (fst a) <= start_idx (fst b))%Z /\
  (start_idx (snd a) + num_subsequent (snd a) <= start_idx (snd b))%Z.
Proof.
  intros Ha Hb Hs. pose proof Ha as ((? & ? & _) & (? & ? & _) & ?).
  pose proof Hb as ((? & ? & _) & (? & ? & _) & ?).
  pose proof (StronglySorted_app_1_elem_of _ _ _ _ _ Hs
    (sem_maps_lookup a (Z.to_nat (num_subsequent (fst a)) - 1) Ha ltac:(lia))
    ltac:(apply elem_of_app; left; exact (sem_maps_lookup b 0 Hb ltac:(lia)))) as [Hlt1 Hlt2].
  cbn [fst snd] in Hlt1, Hlt2. lia.
Qed.

Lemma join_maps a b :
  maps_ok a -> maps_ok b -> (start_idx (fst a) + num_subsequent (fst a) = start_idx (fst b))%Z ->
  (start_idx (snd a) + num_subsequent (snd a) = start_idx (snd b))%Z ->
  let r := (mkIR (start_idx (fst a)) (u64 (num_subsequent (fst a) + num_subsequent (fst b))),
            mkIR (start_idx (snd a)) (u64 (num_subsequent (snd a) + num_subsequent (snd b)))) in
  maps_ok r /\ sem_maps r = sem_maps a ++ sem_maps b.
Proof.
  intros (Hla & Hra & Ea) (Hlb & Hrb & Eb) El Er r.
  destruct (join_ranges _ _ Hla Hlb El) as (Hl & _ & Sl).
  destruct (join_ranges _ _ Hra Hrb Er) as (Hr & _ & Sr). subst r. split.
  - split_and!; [done|done|]. cbn. by rewrite Ea, Eb.
  - unfold sem_maps. cbn [fst snd]. rewrite Sl, Sr. apply zip_with_app. by rewrite !length_sem_range, Ea.
Qed.

Lemma compact_maps_loop_rep rest : forall curr,
  maps_ok curr -> Forall maps_ok rest -> StronglySorted both_lt (sem_maps curr ++ (rest ≫= sem_maps)) ->
  exists rs, compact_maps_loop curr rest = Some rs /\ Forall maps_ok rs /\
    rs ≫= sem_maps = sem_maps curr ++ (rest ≫= sem_maps).
Proof.
  induction rest as [|r rest IH]; intros curr Hc Hrest Hs; cbn [compact_maps_loop].
  - exists [curr]. split_and!; [done|by apply Forall_singleton|done].
  - apply Forall_cons in Hrest as [Hr Hrest]. cbn [mbind list_bind] in Hs |- *.
    pose proof (maps_before _ _ _ Hc Hr Hs) as [Hl1 Hl2].
    pose proof Hc as ((? & ? & ?) & (? & ? & ?) & _). destruct curr as [cl cr], r as [l r].
    cbn [fst snd] in *. rewrite !(wrap_small 64) by lia.
    destruct ((_ <? start_idx l)%Z || (_ <? start_idx r)%Z) eqn:E.
    + destruct (IH (l, r) Hr Hrest) as (rs & -> & Hok & Hsem); [by apply StronglySorted_app_1_r in Hs|].
      osimpl. exists ((cl, cr) :: rs). split_and!; [done|by constructor|].
      rewrite bind_cons, Hsem. done.
    + apply orb_false_iff in E as [E1%Z.ltb_ge E2%Z.ltb_ge].
      rewrite !(proj2 (Z.eqb_eq _ _)) by lia. cbn [andb].
      destruct (join_maps (cl, cr) (l, r) Hc Hr) as (Hok' & Hsem'); [cbn; lia..|].
      cbn [fst snd] in *. destruct Hr as ((? & ? & ?) & (? & ? & ?) & _). cbn [fst snd] in *.
      rewrite !(wrap_small 64) in * by lia.
      destruct (IH _ Hok' Hrest) as (rs & -> & Hok & Hsem); [by rewrite Hsem', <- app_assoc|].
      exists rs. split_and!; [done|done|]. rewrite Hsem, Hsem'. by rewrite <- app_assoc.
Qed.

Lemma Compact_maps_rep rs :
  Forall maps_ok rs -> StronglySorted both_lt (rs ≫= sem_maps) ->
  exists rs', Compact_maps rs = Some rs' /\ Forall maps_ok rs' /\ rs' ≫= sem_maps = rs ≫= sem_maps.
Proof.
  intros Hok Hs. destruct rs as [|r rs]; [exists []; split_and!; [done|constructor|done]|].
  apply Forall_cons in Hok as [Hr Hok]. by apply compact_maps_loop_rep.
Qed.
