(* ===== verification/DiffClaims.v ===== *)
(** * What the comparison of maps and sets by key promises *)

From S2P Require Import Prelude Types Slice HashVal Chunk RollingHash Node NodeSearch Chunker.
From S2P Require Import Canonical Leaf Store Cursor Builder Objects Build Tree TreeProps CursorProps.
From S2P Require Import KeySearch ReadProps CreateProps Comparator CompareProps IterateProps DiffProps.

(** The index [i] lies in one of the ranges. *)
Definition covers (rs : list IndexRange) (i : nat) : Prop :=
  exists r, r ∈ rs /\ (start_idx r <= Z.of_nat i < start_idx r + num_subsequent r)%Z.

(** The pair [i], [j] lies at the same place of a pair of ranges. *)
Definition maps_to (rs : RangeMaps) (i j : nat) : Prop :=
  exists p d, p ∈ rs /\ Z.of_nat i = (start_idx (fst p) + d)%Z /\ Z.of_nat j = (start_idx (snd p) + d)%Z /\
    (0 <= d < num_subsequent (fst p))%Z.

Lemma covers_sem rs i : Forall range_ok rs -> covers rs i <-> i ∈ rs ≫= sem_range.
Proof.
  intros Hok. rewrite list_elem_of_bind. rewrite Forall_forall in Hok. split.
  - intros (r & Hr & Hi). destruct (Hok r Hr) as (? & ? & _). exists r. rewrite elem_of_sem_range.
    split; [lia|done].
  - intros (r & Hi & Hr). destruct (Hok r Hr) as (? & ? & _). rewrite elem_of_sem_range in Hi.
    exists r. split; [done|lia].
Qed.

Lemma maps_to_sem rs i j : Forall maps_ok rs -> maps_to rs i j <-> (i, j) ∈ rs ≫= sem_maps.
Proof.
  intros Hok. rewrite list_elem_of_bind. rewrite Forall_forall in Hok. split.
  - intros (p & d & Hp & Hi & Hj & Hd). destruct (Hok p Hp) as ((? & ? & _) & (? & ? & _) & E).
    exists p. split; [|done].
    replace (i, j) with (Z.to_nat (start_idx (fst p)) + Z.to_nat d, Z.to_nat (start_idx (snd p)) + Z.to_nat d)
      by (f_equal; lia). apply sem_maps_lookup; [by apply Hok|lia].
  - intros (p & Hi & Hp). destruct (Hok p Hp) as ((? & ? & _) & (? & ? & _) & E).
    apply list_elem_of_lookup in Hi as [d Hd]. unfold sem_maps in Hd.
    apply lookup_zip_with_Some in Hd as (x & y & Exy & Hx & Hy). injection Exy as -> ->.
    unfold sem_range in Hx, Hy. apply lookup_seq in Hx as [-> Hx]. apply lookup_seq in Hy as [-> Hy].
    exists p, (Z.of_nat d). split_and!; [done|lia..].
Qed.

(** ** Lists of results in order *)

Lemma elem_of_flat {A} (f : bytes -> nat -> list A) es x : forall s,
  x ∈ flat f s es <-> exists i e, es !! i = Some e /\ x ∈ f e (s + i).
Proof.
  induction es as [|e es IH]; intros s; simpl.
  - split; [by intros ?%elem_of_nil|]. by intros (i & e & ? & _).
  - rewrite elem_of_app, IH. split.
    + intros [Hx|(i & e' & He & Hx)]; [exists 0, e; by rewrite Nat.add_0_r|].
      exists (S i), e'. by rewrite Nat.add_succ_r.
    + intros ([|i] & e' & He & Hx); simpl in He.
      * left. rewrite Nat.add_0_r in Hx. by injection He as ->.
      * right. exists i, e'. by rewrite Nat.add_succ_r in Hx.
Qed.

Lemma flat_sorted {A} (R : A -> A -> Prop) (f : bytes -> nat -> list A) es : forall s,
  (forall e i, StronglySorted R (f e i)) ->
  (forall i j a b x y, i < j -> es !! i = Some a -> es !! j = Some b -> x ∈ f a (s + i) -> y ∈ f b (s + j) ->
     R x y) ->
  StronglySorted R (flat f s es).
Proof.
  induction es as [|e es IH]; intros s Hf HR; [constructor|]. simpl. apply StronglySorted_app. split_and!.
  - intros x y Hx (i & e' & He & Hy)%elem_of_flat.
    apply (HR 0 (S i) e e'); [lia|done|done|by rewrite Nat.add_0_r|by rewrite Nat.add_succ_r].
  - apply Hf.
  - apply IH; [done|]. intros i j a b x y Hij Ha Hb Hx Hy.
    apply (HR (S i) (S j) a b); [lia|done|done|by rewrite Nat.add_succ_r|by rewrite Nat.add_succ_r].
Qed.

Section Claims.
Context `{HF : HashFunction}.
Variable get : Hash -> option Chunk.
Variable k : NodeKind.
Variable fuel : nat.

(** Two trees of the same kind that the comparator can be run on.  The search
    for an overlap starts with the key of one zero byte as a lower bound that
    excludes nothing, so the keys of the left side have to be greater. *)
Record comparable (hl hr : bytes) (el er : list bytes) (kl kr : list Slice) : Prop := {
  cmp_kind : k = KMap \/ k = KSet;
  cmp_lhs : exists ht, ht < fuel /\ tree get ht k hl el;
  cmp_rhs : exists ht, ht < fuel /\ tree get ht k hr er;
  cmp_lkeys : entry_keys k el kl;
  cmp_rkeys : entry_keys k er kr;
  cmp_lsorted : key_sorted kl;
  cmp_rsorted : key_sorted kr;
  cmp_min : Forall (fun key => slice_lt [x00] key = true) kl;
  cmp_small : small el /\ small er;
  cmp_nonempty : el <> []
}.

Lemma compare_roots_rep {A R} (sem : R -> list A) rok g tr hl hr el er kl kr :
  traverser_ok get k fuel sem rok (by_position g) tr -> comparable hl hr el er kl kr ->
  exists rs, compare_roots get get fuel OrderedKeyTrait tr (Some hl) (Some hr) = Some rs /\ Forall rok rs /\
    rs ≫= sem = flat (by_position g er 0) 0 el.
Proof.
  intros Htr [Hk (htl & Hfl & Htl) (htr & Hfr & Htr') HKl HKr Hsl Hsr Hmin [Hel Her] Hne].
  destruct (tree_is_loaded _ _ _ _ _ Htl) as (nl & El & Hnl).
  destruct (tree_is_loaded _ _ _ _ _ Htr') as (nr & Er & Hnr).
  unfold compare_roots. rewrite Er. osimpl. rewrite El. osimpl.
  destruct (last el) as [e|] eqn:Elast; [|by apply last_None in Elast].
  pose proof (entry_keys_in_order k er kr HKr Hsr) as Hor.
  pose proof (compare_nodes_rep get k Hk fuel sem rok (by_position g) tr Htr fuel htl el nl 0
    (FromSlice [x00]) [x00] htr er nr [] [] e) as L.
  rewrite app_nil_l, app_nil_r in L. apply L; try done.
  - by eapply entry_keys_in_order.
  - intros x [i Hi]%list_elem_of_lookup. destruct (Forall2_lookup_l _ _ _ _ _ HKl Hi) as (key & Hkey & Ex).
    unfold ekey. rewrite Ex. by apply (Forall_lookup_1 _ _ _ _ Hmin) in Hkey.
  - intros x Hx. by apply elem_of_nil in Hx.
  - intros x Hx. by apply elem_of_nil in Hx.
Qed.

Lemma pos_in_elem es e : is_Some (pos_in es e) <-> e ∈ es.
Proof.
  split.
  - intros [i Hi%pos_in_lookup]. by eapply list_elem_of_lookup_2.
  - intros He. destruct (pos_in es e) eqn:E; [done|]. unfold pos_in in E.
    destruct (list_find (eq e) es) as [[]|] eqn:F; [done|]. apply list_find_None in F.
    rewrite Forall_forall in F. by destruct (F e He).
Qed.

Lemma flat_indices_sorted g er el :
  (forall i o, g i o = [] \/ g i o = [i]) -> StronglySorted lt (flat (by_position g er 0) 0 el).
Proof.
  intros Hg. apply flat_sorted.
  - intros e i. unfold by_position. destruct (Hg i (Nat.add 0 <$> pos_in er e)) as [-> | ->]; repeat constructor.
  - intros i j a b x y Hij _ _ Hx Hy. unfold by_position in *.
    destruct (Hg (0 + i) (Nat.add 0 <$> pos_in er a)) as [E|E]; rewrite E in Hx;
      [by apply elem_of_nil in Hx|apply list_elem_of_singleton in Hx as ->].
    destruct (Hg (0 + j) (Nat.add 0 <$> pos_in er b)) as [E'|E']; rewrite E' in Hy;
      [by apply elem_of_nil in Hy|apply list_elem_of_singleton in Hy as ->]. lia.
Qed.

(** C14.  The difference and the intersection of two maps or sets, where the
    left one is not empty and all its keys are greater than the key of one zero
    byte ([MinKey] of the code), with keys in order and counts below the
    machine limits: the ranges that [KeyDiffer] returns are the indices of the
    left entries that are not on the right, those of [KeyIntersector] are the
    indices of the entries that are; in both results no two ranges overlap or
    touch. *)
Theorem key_diff_intersect hl hr el er kl kr :
  comparable hl hr el er kl kr ->
  (exists rs, KeyDiffer get get fuel (Some hr) (Some hl) = Some rs /\ separated rs /\
     forall i, covers rs i <-> exists e, el !! i = Some e /\ e ∉ er) /\
  (exists rs, KeyIntersector get get fuel (Some hr) (Some hl) = Some rs /\ separated rs /\
     forall i, covers rs i <-> exists e, el !! i = Some e /\ e ∈ er).
Proof.
  intros Hc. pose proof (cmp_kind _ _ _ _ _ _ Hc) as Hk. split.
  - destruct (compare_roots_rep sem_range range_ok absent _ hl hr el er kl kr (Differ_ok get k Hk fuel) Hc)
      as (rs0 & E & Hok0 & Hsem0). unfold KeyDiffer. rewrite E. osimpl.
    destruct (Compact_rep rs0 Hok0) as (rs & -> & Hok & Hsem & Hsep).
    { rewrite Hsem0. apply flat_indices_sorted. intros i [|]; [by left|by right]. }
    exists rs. split_and!; [done|done|]. intros i. rewrite (covers_sem _ _ Hok), Hsem, Hsem0, elem_of_flat.
    unfold by_position. split.
    + intros (j & e & He & Hx). destruct (pos_in er e) eqn:Ep; simpl in Hx; [by apply elem_of_nil in Hx|].
      apply list_elem_of_singleton in Hx as ->. exists e. split; [done|]. rewrite <- pos_in_elem, Ep.
      by intros [? ?].
    + intros (e & He & Hn). exists i, e. split; [done|].
      destruct (pos_in er e) eqn:Ep; [by destruct Hn; apply pos_in_elem; rewrite Ep|]. by left.
  - destruct (compare_roots_rep sem_range range_ok present _ hl hr el er kl kr (Intersector_ok get k Hk fuel) Hc)
      as (rs0 & E & Hok0 & Hsem0). unfold KeyIntersector. rewrite E. osimpl.
    destruct (Compact_rep rs0 Hok0) as (rs & -> & Hok & Hsem & Hsep).
    { rewrite Hsem0. apply flat_indices_sorted. intros i [|]; [by right|by left]. }
    exists rs. split_and!; [done|done|]. intros i. rewrite (covers_sem _ _ Hok), Hsem, Hsem0, elem_of_flat.
    unfold by_position. split.
    + intros (j & e & He & Hx). destruct (pos_in er e) eqn:Ep; simpl in Hx; [|by apply elem_of_nil in Hx].
      apply list_elem_of_singleton in Hx as ->. exists e. split; [done|]. apply pos_in_elem. by rewrite Ep.
    + intros (e & He & Hin). exists i, e. split; [done|]. apply pos_in_elem in Hin as [j Ep]. rewrite Ep. by left.
Qed.

Lemma elem_of_paired er e i x :
  x ∈ by_position paired er 0 e i <-> exists j, x = (i, j) /\ pos_in er e = Some j.
Proof.
  unfold by_position. destruct (pos_in er e) as [j|]; simpl.
  - rewrite list_elem_of_singleton. split; [intros ->; eauto|]. by intros (j' & -> & [= ->]).
  - split; [by intros ?%elem_of_nil|]. by intros (j & _ & ?).
Qed.

Lemma flat_pairs_sorted er el :
  in_order k el -> in_order k er -> StronglySorted both_lt (flat (by_position paired er 0) 0 el).
Proof.
  intros Hol Hor. apply flat_sorted.
  - intros e i. unfold by_position. destruct (pos_in er e); repeat constructor.
  - intros i j a b x y Hij Ha Hb Hx Hy. apply elem_of_paired in Hx as (ja & -> & Hja%pos_in_lookup).
    apply elem_of_paired in Hy as (jb & -> & Hjb%pos_in_lookup). split; [simpl; lia|]. simpl.
    pose proof (in_order_lt k el i j a b Hol Hij Ha Hb) as Hlt.
    destruct (lt_eq_lt_dec ja jb) as [[?|Eq]|Hgt]; [done| |].
    + subst jb. rewrite Hja in Hjb. injection Hjb as ->. by rewrite st_irrefl in Hlt.
    + pose proof (in_order_lt k er jb ja b a Hor Hgt Hjb Hja) as Hgt'.
      apply (st_asym slice_lt) in Hgt'. congruence.
Qed.

(** What [KeyMapper] returns, as a list of pairs of indices. *)
Lemma KeyMapper_rep hl hr el er kl kr :
  comparable hl hr el er kl kr ->
  exists rs, KeyMapper get get fuel (Some hr) (Some hl) = Some rs /\ Forall maps_ok rs /\
    StronglySorted both_lt (rs ≫= sem_maps) /\
    forall i j, (i, j) ∈ rs ≫= sem_maps <-> exists e, el !! i = Some e /\ er !! j = Some e.
Proof.
  intros Hc. pose proof (cmp_kind _ _ _ _ _ _ Hc) as Hk.
  pose proof (entry_keys_in_order _ _ _ (cmp_lkeys _ _ _ _ _ _ Hc) (cmp_lsorted _ _ _ _ _ _ Hc)) as Hol.
  pose proof (entry_keys_in_order _ _ _ (cmp_rkeys _ _ _ _ _ _ Hc) (cmp_rsorted _ _ _ _ _ _ Hc)) as Hor.
  destruct (compare_roots_rep sem_maps maps_ok paired _ hl hr el er kl kr (Mapper_ok get k Hk fuel) Hc)
    as (rs0 & E & Hok0 & Hsem0). unfold KeyMapper. rewrite E. osimpl.
  pose proof (flat_pairs_sorted er el Hol Hor) as Hsorted.
  destruct (Compact_maps_rep rs0 Hok0) as (rs & -> & Hok & Hsem); [by rewrite Hsem0|].
  exists rs. rewrite Hsem, Hsem0. split_and!; [done|done|done|]. intros i j. rewrite elem_of_flat.
  split.
  - intros (i' & e & He & Hx). apply elem_of_paired in Hx as (j' & [= -> ->] & Hj). exists e.
    split; [done|]. by apply pos_in_lookup.
  - intros (e & He & Hj). exists i, e. split; [done|]. apply elem_of_paired. exists j. split; [done|].
    apply pos_in_Some; [by eapply in_order_NoDup|done].
Qed.

(** The mapping of two maps or sets relates exactly the indices of the
    entries that both have. *)
Theorem key_mapping hl hr el er kl kr :
  comparable hl hr el er kl kr ->
  exists rs, KeyMapper get get fuel (Some hr) (Some hl) = Some rs /\
    forall i j, maps_to rs i j <-> exists e, el !! i = Some e /\ er !! j = Some e.
Proof.
  intros Hc. destruct (KeyMapper_rep hl hr el er kl kr Hc) as (rs & E & Hok & _ & Hm).
  exists rs. split; [done|]. intros i j. by rewrite (maps_to_sem _ _ _ Hok), Hm.
Qed.

End Claims.

(** ** Two small maps in one store *)

Section Witnesses.
#[local] Existing Instances plain_hash map_store map_store_spec.

Abbreviation M := (gmap Hash Chunk).

Definition left_items : list KVItem := [mkKV [x61] [x01]; mkKV [x62] [x02]; mkKV [x63] []].
Definition right_items : list KVItem := [mkKV [x60] []; mkKV [x61] [x01]; mkKV [x62] [x07]].

Definition left_leaf : NodeKind * list bytes := (KMap, map_Encode1 <$> left_items).
Definition right_leaf : NodeKind * list bytes := (KMap, map_Encode1 <$> right_items).

Definition both_leaves : M := put_all (∅ : M) [left_leaf; right_leaf].

Lemma both_leaves_stored : Forall (stored (st_load both_leaves)) [left_leaf; right_leaf].
Proof.
  apply nodes_stored; [done| |apply collision_free_spec; [by vm_compute|done]].
  by repeat apply Forall_cons_2; [..|apply Forall_nil_2].
Qed.

Lemma stored_leaf (st : M) items :
  stored (st_load st) (KMap, map_Encode1 <$> items) -> Forall item_ok items ->
  key_sorted (kv_key <$> items) -> rooted 2 st KMap (node_hash (KMap, map_Encode1 <$> items)) (map_Encode1 <$> items).
Proof.
  intros (c & Hg & Hc) Hi Hs. exists 0, c. split_and!; [lia| |exact Hg|].
  - split_and!; [done|by apply map_entries_ok|reflexivity|]. exists c. split; [exact Hg|exact Hc].
  - by rewrite (chunk_rep_hash _ _ _ Hc).
Qed.

Lemma left_items_ok : Forall item_ok left_items /\ key_sorted (kv_key <$> left_items).
Proof. split; by repeat constructor. Qed.

Lemma right_items_ok : Forall item_ok right_items /\ key_sorted (kv_key <$> right_items).
Proof. split; by repeat constructor. Qed.

Lemma left_rooted : rooted 2 both_leaves KMap (node_hash left_leaf) (map_Encode1 <$> left_items).
Proof.
  pose proof both_leaves_stored as Hs. apply Forall_cons in Hs as [Hl _].
  apply stored_leaf; [exact Hl|apply left_items_ok..].
Qed.

Lemma right_rooted : rooted 2 both_leaves KMap (node_hash right_leaf) (map_Encode1 <$> right_items).
Proof.
  pose proof both_leaves_stored as Hs. apply Forall_cons in Hs as [_ [Hr _]%Forall_cons].
  apply stored_leaf; [exact Hr|apply right_items_ok..].
Qed.

Lemma leaves_comparable :
  comparable (st_load both_leaves) KMap 2 (node_hash left_leaf) (node_hash right_leaf)
    (map_Encode1 <$> left_items) (map_Encode1 <$> right_items) (kv_key <$> left_items) (kv_key <$> right_items).
Proof.
  destruct left_rooted as (hl & cl & Hhl & Hl & _). destruct right_rooted as (hr & cr & Hhr & Hr & _).
  destruct left_items_ok as [Hli Hls], right_items_ok as [Hri Hrs]. constructor.
  - by left.
  - exists hl. split; [exact Hhl|exact Hl].
  - exists hr. split; [exact Hhr|exact Hr].
  - by apply map_entry_keys.
  - by apply map_entry_keys.
  - exact Hls.
  - exact Hrs.
  - by repeat constructor.
  - done.
  - done.
Qed.

Lemma key_diff_intersect_witness : exists rs,
  KeyDiffer (st_load both_leaves) (st_load both_leaves) 2 (Some (node_hash right_leaf)) (Some (node_hash left_leaf))
    = Some rs /\ covers rs 1 /\ ~ covers rs 0.
Proof.
  destruct (key_diff_intersect (st_load both_leaves) KMap 2 _ _ _ _ _ _ leaves_comparable) as [(rs & E & _ & Hc) _].
  exists rs. split; [exact E|]. rewrite !Hc. split.
  - eexists. split; [reflexivity|]. by apply (bool_decide_unpack _).
  - intros (e & [= <-] & Hn). apply Hn. by apply (bool_decide_unpack _).
Defined.

Lemma key_mapping_witness : exists rs,
  KeyMapper (st_load both_leaves) (st_load both_leaves) 2 (Some (node_hash right_leaf)) (Some (node_hash left_leaf))
    = Some rs /\ maps_to rs 0 1.
Proof.
  destruct (key_mapping (st_load both_leaves) KMap 2 _ _ _ _ _ _ leaves_comparable) as (rs & E & Hm).
  exists rs. split; [exact E|]. apply Hm. exists (map_Encode1 (mkKV [x61] [x01])). split; reflexivity.
Defined.

End Witnesses.
