(* ===== verification/IteratorProps.v ===== *)
(** * Iterators show what their ranges cover

    [AdvanceSteps] on trees of at most two levels of nodes, and the walk of a
    [CursorIterator] over its ranges. *)

From S2P Require Import Prelude Types Slice HashVal Chunk RollingHash Node NodeSearch Chunker.
From S2P Require Import Canonical Leaf Store Cursor Builder Objects Build Tree TreeProps CursorProps.
From S2P Require Import KeySearch ReadProps CreateProps Comparator Iterator CompareProps IterateProps.
From S2P Require Import DiffProps.

Section Steps.
Context `{HashFunction}.
Variable get : Hash -> option Chunk.
Implicit Types (k : NodeKind) (es les pre post : list bytes) (c ps : NodeCursor).

(** ** The number of levels of a cursor does not change *)

Lemma Advance_depth b c : forall r, Advance get b c = Some r -> length (snd r) = length c.
Proof.
  revert b. induction c as [|l ps IH]; intros b r E; [done|]. cbn [Advance] in E.
  apply bind_Some in E as ([ok l'] & _ & E). destruct ok; [by injection E as <-|].
  destruct b; cbn [negb] in E; [|by injection E as <-].
  destruct ps as [|p ps]; [by injection E as <-|].
  apply bind_Some in E as ([ok' c'] & Ep & E). apply IH in Ep. cbn [snd fst] in *.
  destruct c' as [|p' ps']; [done|]. destruct ok'.
  - apply bind_Some in E as (n & _ & E). injection E as <-. simpl in *. lia.
  - injection E as <-. simpl in *. lia.
Qed.

(** ** [AdvanceSteps] *)

Lemma i64_small z : (- 2 ^ 63 <= z < 2 ^ 63)%Z -> i64 z = z.
Proof.
  intros Hz. unfold i64, sext, wrap. destruct (decide (0 <= z)%Z) as [Hp|Hn].
  - rewrite Z.mod_small by lia. by rewrite (proj2 (Z.ltb_lt _ _)) by lia.
  - replace (z mod 2 ^ 64)%Z with (z + 2 ^ 64)%Z.
    + rewrite (proj2 (Z.ltb_ge _ _)) by lia. lia.
    + symmetry. rewrite <- (Z.mod_add _ 1) by lia. apply Z.mod_small. lia.
Qed.

Lemma adv_meta_S fuel l remain1 acc1 last_entry :
  adv_meta (S fuel) l remain1 acc1 last_entry =
  if (remain1 <=? 0)%Z then Some (l, acc1, remain1)
  else
    let l' := set_idx l (idx_ l + 1) in
    e ← isEnd l';
    if e : bool then Some (l', u64 (acc1 + last_entry), remain1)
    else d ← current l'; n ← me_numElements d;
         adv_meta fuel l' (i64 (remain1 - i64 n)) (u64 (acc1 + last_entry)) n.
Proof. done. Qed.

(** The loop over the meta entries behind entry [j]: [d] elements behind it is
    an element of entry [j']. *)
Lemma adv_meta_rep ht k ms ess fuel : forall p j last acc d,
  node_rep (seq_node_ p) KMeta (mi_bytes <$> ms) -> Forall2 (sub_tree get ht k) ms ess ->
  small (concat ess) -> idx_ p = Z.of_nat j -> j < length ms ->
  0 < d -> d <= length (concat (drop (S j) ess)) -> length ms - j <= fuel ->
  (0 <= acc)%Z -> (0 <= last)%Z -> (acc + last + Z.of_nat (length (concat (drop (S j) ess))) < 2 ^ 62)%Z ->
  exists j' es, j < j' /\ ess !! j' = Some es /\
    length (concat (take (j' - S j) (drop (S j) ess))) < d /\
    d <= length (concat (take (j' - S j) (drop (S j) ess))) + length es /\
    adv_meta (S fuel) p (Z.of_nat d) acc last
    = Some (set_idx p (Z.of_nat j'),
            (acc + last + Z.of_nat (length (concat (take (j' - S j) (drop (S j) ess)))))%Z,
            (Z.of_nat d - Z.of_nat (length (concat (take (j' - S j) (drop (S j) ess)) ++ es)))%Z).
Proof.
  induction fuel as [|fuel IH]; intros p j last acc d Hn HF Hs Hj Hjl Hd Hde Hf Ha Hl Hb; [lia|].
  pose proof (Forall2_length _ _ _ HF) as Hlen.
  assert (Hsm : small (mi_bytes <$> ms)).
  { unfold small in *. rewrite length_fmap. pose proof (sub_tree_count _ _ _ _ _ HF). lia. }
  assert (Hin : S j < length ms).
  { destruct (decide (S j < length ms)); [done|]. rewrite drop_ge in Hde by lia. simpl in Hde. lia. }
  destruct (lookup_lt_is_Some_2 ms (S j) Hin) as [m Hm].
  destruct (lookup_lt_is_Some_2 ess (S j) ltac:(lia)) as [es He].
  destruct (Forall2_lookup_lr _ _ _ _ _ _ HF Hm He) as (Hc & Hes & _).
  rewrite (concat_lookup_drop _ _ _ He), length_app in Hde, Hb.
  rewrite adv_meta_S, (proj2 (Z.leb_gt _ _)) by lia. cbv zeta. rewrite Hj.
  replace (Z.of_nat j + 1)%Z with (Z.of_nat (S j)) by lia.
  set (p' := set_idx p (Z.of_nat (S j))).
  assert (Hend : isEnd p' = Some false).
  { unfold isEnd. rewrite (nentries_rep p' _ _ Hn Hsm), length_fmap. osimpl. cbn [idx_ p' set_idx].
    by rewrite (proj2 (Z.eqb_neq _ _)) by lia. }
  rewrite Hend. osimpl.
  destruct (current_rep p' _ _ (S j) (mi_bytes m) Hn Hsm eq_refl) as [rest ->];
    [by rewrite list_lookup_fmap, Hm|]. osimpl.
  destruct (mi_decode m rest (ch_ok _ _ _ Hc)) as (_ & _ & -> & _). osimpl.
  rewrite (ch_elements _ _ _ Hc). rewrite (wrap_small 64) by lia.
  rewrite (i64_small (Z.of_nat (length es))), i64_small by lia.
  destruct (decide (d <= length es)) as [Hle|Hgt].
  - exists (S j), es. rewrite Nat.sub_diag. rewrite take_0; cbn [concat app length]. split_and!; [lia|done|lia|lia|].
    assert (Hstop : forall f, adv_meta (S f) p' (Z.of_nat d - Z.of_nat (length es)) (acc + last) (Z.of_nat (length es))
      = Some (p', (acc + last)%Z, (Z.of_nat d - Z.of_nat (length es))%Z)).
    { intros f. by rewrite adv_meta_S, (proj2 (Z.leb_le _ _)) by lia. }
    rewrite Hstop. do 3 f_equal. lia.
  - replace (Z.of_nat d - Z.of_nat (length es))%Z with (Z.of_nat (d - length es)) by lia.
    destruct (IH p' (S j) (Z.of_nat (length es)) (acc + last)%Z (d - length es) Hn HF Hs eq_refl Hin
      ltac:(lia) ltac:(lia) ltac:(lia) ltac:(lia) ltac:(lia) ltac:(lia))
      as (j' & es' & Hj' & He' & Hlo & Hhi & ->).
    assert (Et : length (concat (take (j' - S j) (drop (S j) ess)))
      = length es + length (concat (take (j' - S (S j)) (drop (S (S j)) ess)))).
    { replace (j' - S j) with (S (j' - S (S j))) by lia. rewrite (drop_S _ _ _ He). simpl. by rewrite length_app. }
    exists j', es'. split_and!; [lia|done|lia|lia|].
    unfold p', set_idx. cbn [seq_node_]. rewrite !length_app, Et. do 2 f_equal; [f_equal|]; lia.
Qed.

(** One level of meta nodes: [d] elements behind the current child. *)
Lemma AdvanceSteps_meta ht k ms ess p j d :
  node_rep (seq_node_ p) KMeta (mi_bytes <$> ms) -> Forall2 (sub_tree get ht k) ms ess ->
  small (concat ess) -> idx_ p = Z.of_nat j -> j < length ms ->
  0 < d -> d <= length (concat (drop (S j) ess)) ->
  exists j' es, j < j' /\ ess !! j' = Some es /\
    let skip := length (concat (take (j' - S j) (drop (S j) ess))) in
    skip < d /\ d <= skip + length es /\
    AdvanceSteps get (Z.of_nat d) [p] = Some (Z.of_nat skip, [set_idx p (Z.of_nat j')]).
Proof.
  intros Hn HF Hs Hj Hjl Hd Hde. pose proof (Forall2_length _ _ _ HF) as Hlen.
  assert (Hsm : small (mi_bytes <$> ms)).
  { unfold small in *. rewrite length_fmap. pose proof (sub_tree_count _ _ _ _ _ HF). lia. }
  assert (Hb : length (concat (drop (S j) ess)) <= length (concat ess)).
  { rewrite <- (take_drop (S j) ess) at 2. rewrite concat_app, length_app. lia. }
  unfold small in Hs.
  destruct (adv_meta_rep ht k ms ess (S (S (length ms))) p j 0 0 d Hn HF Hs Hj Hjl Hd Hde
    ltac:(lia) ltac:(lia) ltac:(lia) ltac:(lia)) as (j' & es & Hj' & He & Hlo & Hhi & E).
  exists j', es. split_and!; [done|done|]. cbv zeta. split_and!; [done|done|].
  cbn [AdvanceSteps]. unfold isEnd at 1.
  rewrite (nentries_rep p _ _ Hn Hsm), length_fmap, Hj. osimpl.
  rewrite (proj2 (Z.eqb_neq _ _)) by lia. unfold adv_phase1. rewrite (numEntries_rep _ _ _ Hn), length_fmap. osimpl.
  unfold isLeaf. rewrite (nr_kind _ _ _ Hn), bool_decide_true by done. cbn [negb].
  rewrite i64_small by lia. rewrite E. osimpl. rewrite length_app, (proj2 (Z.leb_le _ _)) by lia. osimpl.
  done.
Qed.

Lemma AdvanceSteps_rep k es c pos d :
  small es -> cur_on get k es c pos -> length c <= 2 -> 0 < d -> pos + d < length es ->
  exists c', AdvanceSteps get (Z.of_nat d) c = Some (Z.of_nat d, c') /\ cur_on get k es c' (pos + d) /\
    length c' = length c.
Proof.
  intros Hs (pre & les & post & i & [Hk (l & ps & -> & Hn & Hi & Hctx) _] & Hlt & -> & ->) Hdep Hd Hpos.
  pose proof (leaf_small _ _ _ Hs) as Hls. rewrite !length_app in Hpos. unfold small in Hs, Hls.
  rewrite !length_app in Hs.
  assert (He0 : isEnd l = Some false).
  { unfold isEnd. rewrite (nentries_rep l _ _ Hn Hls), Hi. osimpl. by rewrite (proj2 (Z.eqb_neq _ _)) by lia. }
  cbn [AdvanceSteps]. rewrite He0. osimpl.
  unfold adv_phase1 at 1. rewrite (numEntries_rep _ _ _ Hn). osimpl.
  assert (Hleaf : isLeaf (seq_node_ l) = true).
  { unfold isLeaf. by rewrite (nr_kind _ _ _ Hn), bool_decide_false by done. }
  rewrite Hleaf, Hi, (wrap_small 64) by lia.
  destruct (Z.leb_spec (Z.of_nat d) (Z.of_nat (length les) - 1 - Z.of_nat i)) as [Hle|Hgt].
  - osimpl. rewrite (i32_small (Z.of_nat d)), i32_small by lia. eexists. split; [reflexivity|]. split; [|done].
    exists pre, les, post, (i + d). split_and!; [|lia|done|lia]. split; [done| |lia].
    eexists _, ps. split_and!; [reflexivity|done|cbn; lia|done].
  - osimpl. destruct ps as [|p [|]]; [|clear Hdep|simpl in Hdep; lia].
    { destruct Hctx as [-> ->]. simpl in Hpos. lia. }
    destruct Hctx as (ms & ess & j & m & pre' & post' & Hp & HF & Hj & Hm & He & -> & -> & [-> ->]).
    pose proof (lookup_lt_Some _ _ _ Hm) as Hjl. rewrite app_nil_r in *. rewrite app_nil_l in *.
    pose proof (concat_at _ _ _ He) as Hcat. apply (f_equal length) in Hcat. rewrite !length_app in Hcat.
    remember (length les - 1 - i) as acc eqn:Hacc.
    replace (Z.of_nat (length les) - 1 - Z.of_nat i)%Z with (Z.of_nat acc) by lia.
    rewrite (wrap_small 64) by lia. replace (Z.of_nat d - Z.of_nat acc)%Z with (Z.of_nat (d - acc)) by lia.
    assert (Hsc : small (concat ess)) by (unfold small; lia).
    destruct (AdvanceSteps_meta 0 k ms ess p j (d - acc) Hp HF Hsc Hj Hjl ltac:(lia) ltac:(lia))
      as (j' & es' & Hj' & He' & Hlo & Hhi & E). cbv zeta in E. rewrite E. osimpl. cbn [snd fst].
    pose proof (lookup_lt_Some _ _ _ He') as Hjl'. pose proof (Forall2_length _ _ _ HF) as Hml.
    destruct (lookup_lt_is_Some_2 ms j' ltac:(lia)) as [m' Hm'].
    assert (Hsm : small (mi_bytes <$> ms)).
    { unfold small in *. rewrite length_fmap. pose proof (sub_tree_count _ _ _ _ _ HF). lia. }
    set (p' := set_idx p (Z.of_nat j')).
    assert (Hend : isEnd p' = Some false).
    { unfold isEnd. rewrite (nentries_rep p' _ _ Hp Hsm), length_fmap. osimpl. cbn [idx_ p' set_idx].
      by rewrite (proj2 (Z.eqb_neq _ _)) by lia. }
    rewrite Hend. osimpl.
    destruct (child_node_rep get p' 0 k ms ess j' m' es' Hp HF Hsc eq_refl Hm' He') as (n & -> & [_ Hn']). osimpl.
    rewrite (numEntries_rep _ _ _ Hn'). osimpl.
    unfold isLeaf. rewrite (nr_kind _ _ _ Hn'), bool_decide_false by done. cbn [negb].
    set (skip := length (concat (take (j' - S j) (drop (S j) ess)))) in *.
    rewrite (wrap_small 64 (Z.of_nat (d - acc) - Z.of_nat skip)) by lia.
    rewrite (wrap_small 64) by lia. rewrite i32_small by lia.
    assert (Et : length (concat (take j' ess)) = length (concat (take j ess)) + length les + skip).
    { subst skip. rewrite <- (take_drop (S j) (take j' ess)), concat_app, length_app.
      rewrite take_take, skipn_firstn_comm. replace (min (S j) j') with (S j) by lia.
      rewrite (take_S_r _ _ _ He), concat_app, length_app. simpl. rewrite app_nil_r. lia. }
    eexists. split; [f_equal; f_equal; lia|]. split; [|done].
    exists (concat (take j' ess)), es', (concat (drop (S j') ess)), (d - acc - skip - 1).
    pose proof (concat_at _ _ _ He') as Hcat'. pose proof (concat_at _ _ _ He) as Hcat0.
    split_and!; [|lia|by rewrite <- Hcat', <- Hcat0|lia]. split; [done| |lia].
    eexists _, [p']. split_and!; [reflexivity|done|cbn; lia|].
    exists ms, ess, j', m', [], []. by split_and!; rewrite ?app_nil_r.
Qed.

End Steps.

(** ** Walking over ranges *)

Lemma length_omap_le {A B} (f : A -> option B) l : length (omap f l) <= length l.
Proof.
  induction l as [|x l IH]; [done|]. change (length (x :: l)) with (S (length l)). cbn [omap list_omap].
  destruct (f x); [apply le_n_S; exact IH|exact (Nat.le_trans _ _ _ IH (Nat.le_succ_diag_r _))].
Qed.

Section Walk.
Context `{HashFunction}.
Variable get : Hash -> option Chunk.
Variable k : NodeKind.
Variable (es : list bytes) (rs : list IndexRange).
Hypothesis Hs : small es.
Hypothesis Hrs : small rs.
Hypothesis Hok : Forall range_ok rs.
Hypothesis Hsep : separated rs.
Hypothesis Hin : forall i, i ∈ rs ≫= sem_range -> i < length es.

(** The iterator stands at element [o] of range [q]; more than one range needs a
    tree of at most two levels. *)
Record it_at (q o : nat) (r : IndexRange) (it : CursorIterator) : Prop := {
  ia_ranges : ranges_ it = rs;
  ia_range : rs !! q = Some r;
  ia_q : curr_range_idx_ it = Z.of_nat q;
  ia_o : curr_idx_in_range_ it = Z.of_nat o;
  ia_in : (Z.of_nat o < num_subsequent r)%Z;
  ia_cursor : cur_on get k es (cursor_ it) (Z.to_nat (start_idx r) + o);
  ia_depth : length (cursor_ it) <= 2 \/ length rs = 1
}.

Lemma size_i32 : i32 (Z.of_nat (length rs)) = Z.of_nat (length rs).
Proof. apply i32_small. unfold small in Hrs. lia. Qed.

Lemma range_in q r : rs !! q = Some r ->
  (0 <= start_idx r)%Z /\ (0 < num_subsequent r)%Z /\ (start_idx r + num_subsequent r <= Z.of_nat (length es))%Z.
Proof.
  intros Hq. destruct (Forall_lookup_1 _ _ _ _ Hok Hq) as (Ha & Hb & _). split_and!; [done|done|].
  assert (Hx : Z.to_nat (start_idx r) + Z.to_nat (num_subsequent r) - 1 ∈ rs ≫= sem_range).
  { apply list_elem_of_bind. exists r. split; [|by eapply list_elem_of_lookup_2].
    apply elem_of_sem_range. lia. }
  apply Hin in Hx. lia.
Qed.

Lemma it_at_valid q o r it : it_at q o r it -> it_head it = false /\ it_end it = false.
Proof.
  intros Hit. pose proof (lookup_lt_Some _ _ _ (ia_range _ _ _ _ Hit)). unfold it_head, it_end.
  rewrite (ia_q _ _ _ _ Hit), (ia_ranges _ _ _ _ Hit), size_i32.
  split; apply Z.eqb_neq; lia.
Qed.

Lemma range_at_rep it q r : ranges_ it = rs -> rs !! q = Some r -> range_at it (Z.of_nat q) = Some r.
Proof.
  intros E Hq. unfold range_at. rewrite (proj2 (Z.leb_le _ _)) by lia. osimpl. by rewrite E, Nat2Z.id.
Qed.

Lemma it_next_rep q o r it :
  it_at q o r it ->
  (exists it', it_next get it = Some (true, it') /\ (Z.of_nat (S o) < num_subsequent r)%Z /\ it_at q (S o) r it') \/
  (exists it' r', it_next get it = Some (true, it') /\ (Z.of_nat (S o) = num_subsequent r)%Z /\ it_at (S q) 0 r' it') \/
  (exists it', it_next get it = Some (false, it') /\ (Z.of_nat (S o) = num_subsequent r)%Z /\
     S q = length rs /\ it_end it' = true).
Proof.
  intros Hit. destruct (it_at_valid _ _ _ _ Hit) as [Hh He]. destruct Hit as [Er Eq Ecq Eco Ho Hc Hd].
  pose proof (lookup_lt_Some _ _ _ Eq) as Hq. destruct (range_in q r Eq) as (Hr0 & Hr1 & Hr2).
  unfold small in Hs, Hrs.
  unfold it_next. rewrite He, Er, (proj2 (Nat.eqb_neq _ _)), Hh by lia.
  rewrite Eco, Ecq, (range_at_rep it q r Er Eq). osimpl. rewrite (wrap_small 64) by lia.
  replace (Z.of_nat o + 1)%Z with (Z.of_nat (S o)) by lia. rewrite size_i32.
  destruct (Z.ltb_spec (Z.of_nat (S o)) (num_subsequent r)) as [Hlt|Hge].
  - left. destruct (Advance_entry _ _ _ _ _ Hs Hc) as [A1 _].
    destruct A1 as (c' & EA & Hc'); [lia|]. rewrite EA. osimpl. cbn [snd].
    pose proof (Advance_depth _ _ _ _ EA) as Hdep. cbn [snd] in Hdep.
    assert (Hat : it_at q (S o) r (it_move it (Z.of_nat q) (Z.of_nat (S o)) c')).
    { constructor; cbn; try done; [|lia]. by rewrite Nat.add_succ_r. }
    destruct (it_at_valid _ _ _ _ Hat) as [_ ->]. cbn [negb]. eauto.
  - assert (El : Z.of_nat (S o) = num_subsequent r) by lia. rewrite (proj2 (Z.eqb_eq _ _) El).
    rewrite i32_small by lia. replace (Z.of_nat q + 1)%Z with (Z.of_nat (S q)) by lia.
    destruct (decide (S q < length rs)) as [Hql|Hql].
    + right. left. rewrite (proj2 (Z.ltb_lt _ _)) by lia.
      destruct (lookup_lt_is_Some_2 rs (S q) Hql) as [r' Eq'].
      destruct (range_in (S q) r' Eq') as (Hr0' & Hr1' & Hr2').
      pose proof (sorted_lookup _ _ q (S q) _ _ Hsep ltac:(lia) Eq Eq') as Hgap. simpl in Hgap.
      rewrite (range_at_rep it (S q) r' Er Eq'). osimpl. unfold range_last.
      rewrite (wrap_small 64 (start_idx r + num_subsequent r - 1)) by lia. rewrite (wrap_small 64) by lia.
      destruct (AdvanceSteps_rep get k es (cursor_ it) (Z.to_nat (start_idx r) + o)
        (Z.to_nat (start_idx r') - (Z.to_nat (start_idx r) + o))) as (c' & EA & Hc' & Hdep); [done|done| |lia|lia|].
      { destruct Hd; [done|lia]. }
      replace (start_idx r' - (start_idx r + num_subsequent r - 1))%Z
        with (Z.of_nat (Z.to_nat (start_idx r') - (Z.to_nat (start_idx r) + o))) by lia.
      rewrite EA. osimpl. cbn [snd].
      assert (Hat : it_at (S q) 0 r' (it_move it (Z.of_nat (S q)) 0 c')).
      { constructor; cbn; try done; [|by rewrite Hdep].
        replace (Z.to_nat (start_idx r') + 0)
          with (Z.to_nat (start_idx r) + o + (Z.to_nat (start_idx r') - (Z.to_nat (start_idx r) + o))) by lia. done. }
      destruct (it_at_valid _ _ _ _ Hat) as [_ ->]. cbn [negb]. eauto.
    + right. right. rewrite (proj2 (Z.ltb_ge _ _)), (proj2 (Z.eqb_eq (Z.of_nat (S q)) _)) by lia.
      destruct (cur_on_read _ _ _ _ _ Hs Hc) as (l & ps & _ & _ & Ec & _).
      assert (exists a, Advance get false (cursor_ it) = Some a) as [a ->].
      { rewrite Ec. cbn [Advance]. unfold advance_here, nentries.
        destruct Hc as (pre & les & post & i & [_ (l' & ps' & El' & Hn & _) _] & _).
        rewrite Ec in El'. injection El' as <- <-. rewrite (numEntries_rep _ _ _ Hn). osimpl.
        destruct (_ <? _)%Z; eauto. }
      osimpl. assert (Hend : it_end (it_move it (Z.of_nat (S q)) 0 (snd a)) = true).
      { unfold it_end. cbn. rewrite Er, size_i32. apply Z.eqb_eq. lia. }
      rewrite Hend. cbn [negb]. eexists. split; [reflexivity|]. split_and!; [done|lia|done].
Qed.

(** The elements from element [o] of range [q] on. *)
Definition elements_from (q o : nat) (r : IndexRange) : list bytes :=
  omap (es !!.) (seq (Z.to_nat (start_idx r) + o) (Z.to_nat (num_subsequent r) - o) ++
                 (drop (S q) rs ≫= sem_range)).

Lemma elements_from_S q o r e :
  rs !! q = Some r -> (Z.of_nat o < num_subsequent r)%Z -> es !! (Z.to_nat (start_idx r) + o) = Some e ->
  elements_from q o r = e :: elements_from q (S o) r.
Proof.
  intros Hq Ho He. unfold elements_from.
  replace (Z.to_nat (num_subsequent r) - o) with (S (Z.to_nat (num_subsequent r) - S o)) by lia.
  cbn [seq app omap list_omap]. rewrite He. by rewrite Nat.add_succ_r.
Qed.

Lemma elements_from_next q o r r' :
  rs !! S q = Some r' -> (Z.of_nat o = num_subsequent r)%Z -> elements_from q o r = elements_from (S q) 0 r'.
Proof.
  intros Hq Ho. unfold elements_from. rewrite (drop_S _ _ _ Hq), bind_cons.
  replace (Z.to_nat (num_subsequent r) - o) with 0 by lia. cbn [seq app].
  by rewrite Nat.add_0_r, Nat.sub_0_r.
Qed.

Lemma elements_from_end q o r :
  S q = length rs -> (Z.of_nat o = num_subsequent r)%Z -> elements_from q o r = [].
Proof.
  intros Hq Ho. unfold elements_from. rewrite drop_ge by lia.
  by replace (Z.to_nat (num_subsequent r) - o) with 0 by lia.
Qed.

Context {B : Type} (read : CursorIterator -> option B) (f : bytes -> B).
Hypothesis Hread : forall q o r it e,
  it_at q o r it -> es !! (Z.to_nat (start_idx r) + o) = Some e -> read it = Some (f e).

Lemma it_scan_rep steps : forall q o r it,
  it_at q o r it -> length (elements_from q o r) <= steps ->
  it_scan get read steps it = Some (f <$> elements_from q o r).
Proof.
  induction steps as [|steps IH]; intros q o r it Hit Hst;
    destruct (lookup_lt_is_Some_2 es (Z.to_nat (start_idx r) + o)) as [e He];
    try (by eapply cur_on_lt, (ia_cursor _ _ _ _ Hit));
    pose proof (elements_from_S q o r e (ia_range _ _ _ _ Hit) (ia_in _ _ _ _ Hit) He) as El; rewrite El in *.
  { simpl in Hst. lia. }
  cbn [it_scan]. destruct (it_at_valid _ _ _ _ Hit) as [_ ->]. rewrite (Hread _ _ _ _ _ Hit He). osimpl.
  simpl in Hst. destruct (it_next_rep _ _ _ _ Hit) as [(it' & -> & _ & Hit')|[(it' & r' & -> & Eo & Hit')|(it' & -> & Eo & Eq & Hend)]];
    osimpl; cbn [snd].
  - rewrite (IH q (S o) r it' Hit') by lia. done.
  - rewrite (elements_from_next q (S o) r r' (ia_range _ _ _ _ Hit') Eo) in *.
    rewrite (IH (S q) 0 r' it' Hit') by lia. done.
  - rewrite (elements_from_end q (S o) r Eq Eo). destruct steps; cbn [it_scan]; by rewrite Hend.
Qed.

(** An iterator that was just created. *)
Lemma it_new_scan fuel ht h steps :
  tree get ht k h es -> ht < fuel -> ht <= 1 \/ length rs <= 1 -> length (rs ≫= sem_range) <= steps ->
  exists it, it_new get fuel (Some h) rs = Some it /\
    it_scan get read steps it = Some (f <$> omap (es !!.) (rs ≫= sem_range)).
Proof.
  intros Ht Hf Hshape Hst. unfold it_new.
  assert (rs = [] \/ exists r rs', rs = r :: rs') as [Ers|(r & rs' & Ers)].
  { generalize rs. intros [|? ?]; eauto. }
  - rewrite Ers. cbn [length Nat.eqb]. osimpl. destruct (cursor_by_index_rep get fuel ht k h es 0 Ht Hs Hf) as (C1 & C2 & _).
    assert (exists c, cursor_by_index get fuel (Some h) 0 = Some (Some c)) as [c ->].
    { destruct (decide (0 < length es)) as [Hl|Hl]; [destruct (C1 Hl) as (c & ? & _)|
        destruct C2 as (c & ? & _); [lia|]]; eauto. }
    osimpl. eexists. split; [reflexivity|]. by destruct steps.
  - rewrite (proj2 (Nat.eqb_neq (length rs) 0)) by (by rewrite Ers).
    assert (Eq : rs !! 0 = Some r) by (by rewrite Ers).
    destruct (range_in 0 r Eq) as (Hr0 & Hr1 & Hr2). unfold small in Hs.
    assert (Ei : it_index (mkIt rs 0 0 []) = Some (start_idx r)).
    { unfold it_index, it_valid, it_head, it_end. cbn [ranges_ curr_range_idx_ curr_idx_in_range_].
      rewrite size_i32, (proj2 (Z.eqb_neq 0 (-1))) by lia. rewrite (proj2 (Z.eqb_neq _ _)) by (rewrite Ers; cbn; lia).
      cbn [negb andb]. osimpl. unfold range_at. rewrite Z.leb_refl. osimpl. cbn [ranges_]. change (Z.to_nat 0) with 0. rewrite Eq. osimpl.
      rewrite Z.add_0_r. f_equal. apply (wrap_small 64). lia. }
    rewrite Ei. osimpl. destruct (cursor_by_index_rep get fuel ht k h es (Z.to_nat (start_idx r)) Ht Hs Hf) as (C1 & _).
    rewrite Z2Nat.id in C1 by lia. destruct C1 as (c & Ec & Hc); [lia|]. rewrite Ec. osimpl. cbn [default].
    pose proof (cursor_by_index_depth get fuel ht k h es (Z.to_nat (start_idx r)) c Ht Hs Hf ltac:(lia)) as Hdep.
    rewrite Z2Nat.id in Hdep by lia. specialize (Hdep Ec).
    eexists. split; [reflexivity|].
    assert (Hat : it_at 0 0 r (it_move (mkIt rs 0 0 []) 0 0 c)).
    { constructor; cbn; try done; [by rewrite Nat.add_0_r|]. rewrite Hdep.
      destruct Hshape; [left; lia|right]. rewrite Ers in *. cbn in *. lia. }
    assert (E0 : elements_from 0 0 r = omap (es !!.) (rs ≫= sem_range)).
    { unfold elements_from. rewrite Ers, bind_cons. cbn [drop]. by rewrite Nat.add_0_r, Nat.sub_0_r. }
    rewrite <- E0. apply it_scan_rep; [exact Hat|]. rewrite E0. etransitivity; [|exact Hst]. apply length_omap_le.
Qed.

End Walk.
