(* ===== verification/IteratorClaims.v ===== *)
(** * What the iterators of maps, sets and lists promise

    Scanning an object shows its items; the iterators of [Diff] and [Intersect]
    show exactly the items that the other object does not have, or has. *)

From S2P Require Import Prelude Types Slice HashVal Chunk RollingHash Node NodeSearch Chunker.
From S2P Require Import Canonical Leaf Store Cursor Builder Objects Build Tree TreeProps CursorProps.
From S2P Require Import KeySearch ReadProps CreateProps Comparator Iterator CompareProps IterateProps.
From S2P Require Import DiffProps DiffClaims IteratorProps.

(** ** Lists of positions *)

Section Positions.
Context (P : bytes -> Prop) `{!forall e, Decision (P e)} (f : bytes -> nat -> list nat).
Hypothesis Hf : forall e i, f e i = if decide (P e) then [i] else [].

Lemma omap_flat es : forall pre, omap ((pre ++ es) !!.) (flat f (length pre) es) = filter P es.
Proof.
  induction es as [|e es IH]; intros pre; [done|]. simpl flat. rewrite omap_app, Hf, filter_cons.
  specialize (IH (pre ++ [e])). rewrite <- app_assoc, length_app, Nat.add_1_r in IH. cbn [app] in IH.
  rewrite IH. case_decide; [|done].
  cbn [omap list_omap]. rewrite lookup_app_r, Nat.sub_diag by lia. done.
Qed.

Lemma length_flat es : forall s, length (flat f s es) <= length es.
Proof.
  induction es as [|e es IH]; intros s; [done|]. simpl. rewrite length_app, Hf. specialize (IH (S s)).
  case_decide; simpl; lia.
Qed.

Lemma flat_in es i : i ∈ flat f 0 es -> i < length es.
Proof.
  intros (j & e & He & Hx)%elem_of_flat. rewrite Hf in Hx. case_decide; [|by apply elem_of_nil in Hx].
  apply list_elem_of_singleton in Hx as ->. by eapply lookup_lt_Some.
Qed.

End Positions.

Lemma length_ranges rs : Forall range_ok rs -> length rs <= length (rs ≫= sem_range).
Proof.
  induction 1 as [|r rs (Hr & Hn & _) _ IH]; [done|]. rewrite bind_cons, length_app. unfold sem_range at 1.
  rewrite length_seq. simpl. lia.
Qed.

(** The range of all elements. *)
Lemma full_range n : (0 < Z.of_nat n < 2 ^ 31)%Z -> range_ok (mkIR 0 (Z.of_nat n)) /\
  sem_range (mkIR 0 (Z.of_nat n)) = seq 0 n.
Proof. intros Hn. unfold range_ok, sem_range. cbn. rewrite Nat2Z.id. split; [lia|done]. Qed.

Lemma omap_lookup_all {A} (l : list A) : omap (l !!.) (seq 0 (length l)) = l.
Proof.
  assert (G : forall (l pre : list A), omap ((pre ++ l) !!.) (seq (length pre) (length l)) = l); [|apply (G l [])].
  clear l. induction l as [|x l IH]; intros pre; [done|]. cbn [length seq omap list_omap].
  rewrite lookup_app_r, Nat.sub_diag by lia. cbn. f_equal. specialize (IH (pre ++ [x])).
  rewrite <- app_assoc, length_app, Nat.add_1_r in IH. exact IH.
Qed.

Section Claims.
Context `{HF : HashFunction} {St : Type} `{CS : ChunkStore St}.
Variable fuel : nat.
Implicit Types (st : St) (o lhs rhs : option SeqNode) (es : list bytes).

(** ** Iterators on any tree *)

Lemma obj_counted d st o k es : obj_rep d st o k es -> small es -> obj_numElements o = Some (Z.of_nat (length es)).
Proof. intros (n & h & ht & -> & _ & _ & Hn & _) Hs. unfold obj_numElements. osimpl. by eapply node_numElements. Qed.

(** What an iterator can read where it stands. *)
Lemma it_at_data st k es rs q off r it e :
  small es -> small rs -> it_at (st_load st) k es rs q off r it -> es !! (Z.to_nat (start_idx r) + off) = Some e ->
  exists l rest, it_level it = Some l /\ current l = Some (e ++ rest) /\
    (k = KMap \/ k = KSet -> currentKey l = entry_key k e).
Proof.
  intros Hs Hrs Hat He. destruct (it_at_valid _ _ _ _ Hrs _ _ _ _ Hat) as [Hh Hend].
  destruct (cur_on_read _ _ _ _ _ Hs (ia_cursor _ _ _ _ _ _ _ _ Hat)) as (l & ps & e' & rest & Ec & He' & _ & Hcur & _).
  rewrite He in He'. injection He' as <-. exists l, rest. split_and!; [|done|].
  - unfold it_level, it_valid. by rewrite Hh, Hend, Ec.
  - intros Hk. destruct (cur_on_key _ _ _ _ _ e Hs (ia_cursor _ _ _ _ _ _ _ _ Hat) He) as (l' & ps' & Ec' & Ek);
      [by destruct Hk as [-> | ->]..|]. rewrite Ec in Ec'. by injection Ec' as <- <-.
Qed.

(** The reader [read] decodes the entries of a kind [k] as [f] does. *)
Definition reads {B} (k : NodeKind) es (read : CursorIterator -> option B) (f : bytes -> B) : Prop :=
  forall it l e rest, e ∈ es -> it_level it = Some l -> current l = Some (e ++ rest) ->
    (k = KMap \/ k = KSet -> currentKey l = entry_key k e) -> read it = Some (f e).

Lemma obj_iterator_rep {B} d st o k es rs read (f : bytes -> B) steps :
  obj_rep d st o k es -> d <= fuel -> small es -> Forall range_ok rs -> separated rs ->
  (forall i, i ∈ rs ≫= sem_range -> i < length es) -> length (rs ≫= sem_range) <= length es ->
  d <= 2 \/ length rs <= 1 -> reads k es read f -> length es <= steps ->
  exists it, obj_iterator fuel st o rs = Some it /\
    it_scan (st_load st) read steps it = Some (f <$> omap (es !!.) (rs ≫= sem_range)).
Proof.
  intros (n & h & ht & -> & Hh & Hf & _ & Ht) Hd Hs Hok Hsep Hin Hlen Hshape Hread Hst.
  unfold obj_iterator, obj_hash. rewrite Hh. osimpl.
  assert (Hrs : small rs).
  { pose proof (length_ranges rs Hok). unfold small in *. lia. }
  apply (it_new_scan (st_load st) k es rs Hs Hrs Hok Hsep Hin read f) with (ht := ht); [|done|lia|lia|lia].
  intros q off r it e Hat He. destruct (it_at_data _ _ _ _ _ _ _ _ _ Hs Hrs Hat He) as (l & rest & Hl & Hc & Hk).
  eapply Hread; [by eapply list_elem_of_lookup_2|done|done|done].
Qed.

Lemma Scan_rep {B} d st o k es read (f : bytes -> B) steps :
  obj_rep d st o k es -> d <= fuel -> small es -> reads k es read f -> length es <= steps ->
  exists it, Scan fuel st o = Some it /\ it_scan (st_load st) read steps it = Some (f <$> es).
Proof.
  intros Ho Hd Hs Hread Hst. unfold Scan. rewrite (obj_counted d st o k es Ho Hs). osimpl.
  destruct (Z.eqb_spec (Z.of_nat (length es)) 0) as [E|E].
  - destruct es; [|done]. apply (obj_iterator_rep d st o k [] [] read f steps); try done; [constructor|..].
    + intros i Hi. by apply elem_of_nil in Hi.
    + right. simpl. lia.
  - destruct (full_range (length es)) as [Hr Er]; [unfold small in *; lia|].
    destruct (obj_iterator_rep d st o k es [mkIR 0 (Z.of_nat (length es))] read f steps)
      as (it & -> & Hit); try done.
    + by constructor.
    + by repeat constructor.
    + intros i. rewrite bind_cons, Er, app_nil_r, elem_of_seq. lia.
    + rewrite bind_cons, Er, app_nil_r, length_seq. lia.
    + right. simpl. lia.
    + exists it. split; [done|]. rewrite Hit, bind_cons, Er, app_nil_r. by rewrite omap_lookup_all.
Qed.

(** ** Iterators on the result of a comparison *)

(** What two objects need for a comparison by key. *)
Record sides st lhs rhs (k : NodeKind) (el er : list bytes) (kl kr : list Slice) : Prop := {
  sd_kind : k = KMap \/ k = KSet;
  sd_fuel : 2 <= fuel;
  sd_lhs : obj_rep 2 st lhs k el;
  sd_rhs : obj_rep fuel st rhs k er;
  sd_lkeys : entry_keys k el kl;
  sd_rkeys : entry_keys k er kr;
  sd_lsorted : key_sorted kl;
  sd_rsorted : key_sorted kr;
  sd_min : Forall (fun key => slice_lt [x00] key = true) kl;
  sd_small : small el /\ small er
}.

Lemma sides_comparable st lhs rhs k el er kl kr :
  sides st lhs rhs k el er kl kr -> el <> [] ->
  exists hl hr, obj_hash lhs = Some (Some hl) /\ obj_hash rhs = Some (Some hr) /\
    comparable (st_load st) k fuel hl hr el er kl kr.
Proof.
  intros [Hk Hf (nl & hl & htl & -> & Hhl & Hfl & _ & Htl) (nr & hr & htr & -> & Hhr & Hfr & _ & Htr)] Hne.
  exists hl, hr. split_and!; [done|done|]. constructor; try done; eexists; (split; [|done]); lia.
Qed.

Lemma ranges_iterator {B} st lhs rhs k el er kl kr (P : bytes -> Prop) `{!forall e, Decision (P e)} g
    (F : Hash -> Hash -> option (list IndexRange)) rs0 hl hr read (f : bytes -> B) :
  sides st lhs rhs k el er kl kr -> obj_hash lhs = Some (Some hl) -> obj_hash rhs = Some (Some hr) ->
  (forall e i, by_position g er 0 e i = if decide (P e) then [i] else []) ->
  F (Some hr) (Some hl) = Compact rs0 -> Forall range_ok rs0 ->
  rs0 ≫= sem_range = flat (by_position g er 0) 0 el -> (forall i x, g i x = [] \/ g i x = [i]) ->
  reads k el read f ->
  exists it, (rh ← obj_hash rhs; h ← obj_hash lhs; ranges ← F rh h; obj_iterator fuel st lhs ranges) = Some it /\
    it_scan (st_load st) read (length el) it = Some (f <$> filter P el).
Proof.
  intros Hsd Hhl Hhr HP EF Hok0 Hsem0 Hg Hread. destruct (sd_small _ _ _ _ _ _ _ _ Hsd) as [Hs _].
  rewrite Hhl, Hhr. osimpl. rewrite EF.
  destruct (Compact_rep rs0 Hok0) as (rs & -> & Hok & Hsem & Hsep); [rewrite Hsem0; by apply flat_indices_sorted|].
  osimpl. rewrite Hsem0 in Hsem.
  destruct (obj_iterator_rep 2 st lhs k el rs read f (length el)) as (it & -> & Hit); try done.
  - apply (sd_lhs _ _ _ _ _ _ _ _ Hsd).
  - apply (sd_fuel _ _ _ _ _ _ _ _ Hsd).
  - intros i. rewrite Hsem. by apply (flat_in P).
  - rewrite Hsem. by apply (length_flat P).
  - by left.
  - exists it. split; [done|]. rewrite Hit, Hsem. do 2 f_equal. exact (omap_flat P _ HP el []).
Qed.

Lemma absent_spec er e i : by_position absent er 0 e i = if decide (e ∉ er) then [i] else [].
Proof.
  unfold by_position. destruct (pos_in er e) as [j|] eqn:Ep; simpl; case_decide as Hd; try done.
  - destruct Hd. apply pos_in_elem. by rewrite Ep.
  - apply pos_in_elem in Hd as [? ?]. congruence.
Qed.

Lemma present_spec er e i : by_position present er 0 e i = if decide (e ∈ er) then [i] else [].
Proof.
  unfold by_position. destruct (pos_in er e) as [j|] eqn:Ep; simpl; case_decide as Hd; try done.
  - destruct Hd. apply pos_in_elem. by rewrite Ep.
  - apply pos_in_elem in Hd as [? ?]. congruence.
Qed.

Lemma filter_none {A} (P : A -> Prop) `{!forall x, Decision (P x)} (l : list A) : (forall x, ~ P x) -> filter P l = [].
Proof. intros Hn. induction l as [|x l IH]; [done|]. rewrite filter_cons. by rewrite decide_False. Qed.

Lemma filter_all {A} (P : A -> Prop) `{!forall x, Decision (P x)} (l : list A) : (forall x, P x) -> filter P l = l.
Proof. intros Ha. induction l as [|x l IH]; [done|]. rewrite filter_cons, decide_True by done. by rewrite IH. Qed.

Lemma Diff_rep {B} st lhs rhs k el er kl kr read (f : bytes -> B) :
  sides st lhs rhs k el er kl kr -> reads k el read f ->
  exists it, Diff fuel true st lhs rhs = Some it /\
    it_scan (st_load st) read (length el) it = Some (f <$> filter (.∉ er) el).
Proof.
  intros Hsd Hread. pose proof Hsd as [Hk Hf Hl Hr _ _ _ _ _ [Hsl Hsr]]. unfold Diff.
  rewrite (obj_counted _ _ _ _ _ Hl Hsl). osimpl. destruct (Z.eqb_spec (Z.of_nat (length el)) 0) as [E|E].
  - destruct el; [|done]. apply (obj_iterator_rep 2 st lhs k [] [] read f 0); try done;
      [constructor|by intros i ?%elem_of_nil|by left].
  - rewrite (obj_counted _ _ _ _ _ Hr Hsr). osimpl. destruct (Z.eqb_spec (Z.of_nat (length er)) 0) as [E'|E'].
    + destruct er; [|done]. rewrite filter_all by (intros; apply not_elem_of_nil).
      destruct (Scan_rep 2 st lhs k el read f (length el) Hl Hf Hsl Hread ltac:(done)) as (it & Es & Hit).
      unfold Scan in Es. rewrite (obj_counted _ _ _ _ _ Hl Hsl) in Es. osimpl in Es.
      rewrite (proj2 (Z.eqb_neq _ _) E) in Es. eauto.
    + destruct (sides_comparable _ _ _ _ _ _ _ _ Hsd) as (hl & hr & Hhl & Hhr & Hc); [by destruct el|].
      destruct (compare_roots_rep _ _ _ sem_range range_ok absent _ hl hr el er kl kr
        (Differ_ok (st_load st) k Hk fuel) Hc) as (rs0 & Ec & Hok0 & Hsem0).
      apply (ranges_iterator st lhs rhs k el er kl kr (.∉ er) absent _ rs0 hl hr read f); try done.
      * apply absent_spec.
      * unfold KeyDiffer. rewrite Ec. osimpl. done.
      * intros i [|]; [by left|by right].
Qed.

Lemma Intersect_rep {B} st lhs rhs k el er kl kr read (f : bytes -> B) :
  sides st lhs rhs k el er kl kr -> reads k el read f ->
  exists it, Intersect fuel true st lhs rhs = Some it /\
    it_scan (st_load st) read (length el) it = Some (f <$> filter (.∈ er) el).
Proof.
  intros Hsd Hread. pose proof Hsd as [Hk Hf Hl Hr _ _ _ _ _ [Hsl Hsr]]. unfold Intersect.
  rewrite (obj_counted _ _ _ _ _ Hl Hsl). osimpl. destruct (Z.eqb_spec (Z.of_nat (length el)) 0) as [E|E].
  - destruct el; [|done]. apply (obj_iterator_rep 2 st lhs k [] [] read f 0); try done;
      [constructor|by intros i ?%elem_of_nil|by left].
  - rewrite (obj_counted _ _ _ _ _ Hr Hsr). osimpl. destruct (Z.eqb_spec (Z.of_nat (length er)) 0) as [E'|E'].
    + destruct er; [|done]. rewrite filter_none by (intros; apply not_elem_of_nil).
      apply (obj_iterator_rep 2 st lhs k el [] read f (length el)); try done;
        [constructor|by intros i ?%elem_of_nil|simpl; lia|by left].
    + destruct (sides_comparable _ _ _ _ _ _ _ _ Hsd) as (hl & hr & Hhl & Hhr & Hc); [by destruct el|].
      destruct (compare_roots_rep _ _ _ sem_range range_ok present _ hl hr el er kl kr
        (Intersector_ok (st_load st) k Hk fuel) Hc) as (rs0 & Ec & Hok0 & Hsem0).
      apply (ranges_iterator st lhs rhs k el er kl kr (.∈ er) present _ rs0 hl hr read f); try done.
      * apply present_spec.
      * unfold KeyIntersector. rewrite Ec. osimpl. done.
      * intros i [|]; [by right|by left].
Qed.

(** ** Items *)

(** What a client reads of a map at an iterator. *)
Definition read_item (it : CursorIterator) : option KVItem :=
  key ← it_key it; v ← it_value KMap it; Some (mkKV key v).

(** The item that an entry encodes. *)
Definition item_of (e : bytes) : KVItem :=
  default (mkKV [] []) (k ← map_key e; v ← map_value e; key ← read_bytes 0 (snd k) (fst k);
                        val ← read_bytes 0 (snd v) (fst v); Some (mkKV key val)).

Lemma read_front (a b : bytes) : read_bytes 0 (length a) (a ++ b) = Some a.
Proof. exact (read_bytes_app 0 (length a) [] a b eq_refl eq_refl). Qed.

Lemma item_of_encode it : item_ok it -> item_of (map_Encode1 it) = it.
Proof.
  intros Hi. unfold item_of. destruct (map_entry_decode it [] Hi) as [Ek Ev]. rewrite app_nil_r in Ek, Ev.
  rewrite Ek, Ev. osimpl. cbn [fst snd]. rewrite read_front. osimpl.
  rewrite read_front. osimpl. by destruct it.
Qed.

Lemma items_of_encode items : Forall item_ok items -> item_of <$> (map_Encode1 <$> items) = items.
Proof.
  intros Hi. rewrite <- list_fmap_compose. rewrite <- (list_fmap_id items) at 2. apply Forall_fmap_ext_1.
  eapply Forall_impl; [exact Hi|]. intros it Hit. by apply item_of_encode.
Qed.

Lemma map_reads items : Forall item_ok items -> reads KMap (map_Encode1 <$> items) read_item item_of.
Proof.
  intros Hi it l e rest (x & -> & Hx)%list_elem_of_fmap Hl Hc Hk. rewrite Forall_forall in Hi.
  specialize (Hi x Hx). rewrite (item_of_encode x Hi). unfold read_item, it_key, it_value, it_data. rewrite Hl. osimpl.
  rewrite Hk by (by left). simpl entry_key. rewrite <- (app_nil_r (map_Encode1 x)) at 1.
  rewrite (map_orderedKey_entry x [] Hi). osimpl. unfold ToSlice. cbn [by_value_ FromSlice negb slice_]. osimpl.
  rewrite Hc. osimpl. destruct (map_entry_decode x rest Hi) as [_ ->]. osimpl. cbn [fst snd].
  rewrite read_front. osimpl. by destruct x.
Qed.

Lemma set_reads items : Forall elem_ok items ->
  reads KSet (set_Encode1 <$> items) it_key (fun e => default [] (slice_ <$> set_orderedKey e)).
Proof.
  intros Hi it l e rest (x & -> & Hx)%list_elem_of_fmap Hl Hc Hk. rewrite Forall_forall in Hi.
  specialize (Hi x Hx). unfold it_key. rewrite Hl. osimpl. rewrite Hk by (by right). simpl entry_key.
  rewrite <- (app_nil_r (set_Encode1 x)). rewrite (set_orderedKey_entry x [] Hi). by osimpl.
Qed.

Lemma list_reads items : Forall (fun s => (Z.of_nat (len s + 4) < 2 ^ 32)%Z) items ->
  reads KList (list_Encode1 <$> items) (it_value KList) (fun e => default [] (list_Decode e)).
Proof.
  intros Hi it l e rest (x & -> & Hx)%list_elem_of_fmap Hl Hc Hk. rewrite Forall_forall in Hi.
  specialize (Hi x Hx). unfold it_value, it_data. rewrite Hl. osimpl. rewrite Hc. osimpl.
  rewrite (list_Decode_entry x rest Hi). rewrite <- (app_nil_r (list_Encode1 x)).
  by rewrite (list_Decode_entry x [] Hi).
Qed.

#[local] Instance KVItem_eq_dec : EqDecision KVItem.
Proof. solve_decision. Defined.

Lemma encode_elem items it :
  Forall item_ok items -> item_ok it -> map_Encode1 it ∈ map_Encode1 <$> items <-> it ∈ items.
Proof.
  intros Hi Hit. split; [|by apply list_elem_of_fmap_2].
  intros (x & E & Hx)%list_elem_of_fmap. rewrite Forall_forall in Hi.
  apply (f_equal item_of) in E. by rewrite !item_of_encode in E by auto; subst.
Qed.

Lemma items_filter (P : bytes -> Prop) (Q : KVItem -> Prop) `{!forall e, Decision (P e)} `{!forall x, Decision (Q x)}
    items :
  Forall item_ok items -> (forall it, item_ok it -> P (map_Encode1 it) <-> Q it) ->
  item_of <$> filter P (map_Encode1 <$> items) = filter Q items.
Proof.
  intros Hi HPQ. induction Hi as [|it items Hit Hi IH]; [done|]. rewrite fmap_cons, !filter_cons.
  destruct (decide (Q it)) as [Hq|Hq].
  - rewrite decide_True by (by apply HPQ). by rewrite fmap_cons, IH, item_of_encode.
  - rewrite decide_False by (by rewrite HPQ). done.
Qed.

(** Scanning with an iterator, from its creation until [next] reports the
    end, shows exactly the content: the items of a map, the elements of a set
    and of a list, in order, for trees of any height. *)
Theorem object_scan st o :
  (forall items, obj_rep fuel st o KMap (map_Encode1 <$> items) -> small items -> Forall item_ok items ->
     exists it, UMap_Scan fuel st o = Some it /\
       it_scan (st_load st) read_item (length items) it = Some items) /\
  (forall keys, obj_rep fuel st o KSet (set_Encode1 <$> keys) -> small keys -> Forall elem_ok keys ->
     exists it, USet_Scan fuel st o = Some it /\ it_scan (st_load st) it_key (length keys) it = Some keys) /\
  (forall items, obj_rep fuel st o KList (list_Encode1 <$> items) -> small items ->
     Forall (fun s => (Z.of_nat (len s + 4) < 2 ^ 32)%Z) items ->
     exists it, UList_Scan fuel st o = Some it /\
       it_scan (st_load st) (it_value KList) (length items) it = Some items).
Proof.
  split_and!; intros items Ho Hs Hi.
  - destruct (Scan_rep fuel st o KMap _ read_item item_of (length items) Ho) as (it & E & Hit);
      rewrite ?length_fmap; [done|unfold small in *; by rewrite length_fmap|by apply map_reads|done|].
    exists it. split; [done|]. by rewrite Hit, items_of_encode.
  - destruct (Scan_rep fuel st o KSet _ it_key _ (length items) Ho ltac:(done) ltac:(unfold small in *; by rewrite length_fmap)
      (set_reads items Hi)) as (it & E & Hit); [by rewrite length_fmap|].
    exists it. split; [done|]. rewrite Hit, <- list_fmap_compose. f_equal. rewrite <- (list_fmap_id items) at 2.
    apply Forall_fmap_ext_1. eapply Forall_impl; [exact Hi|]. intros x Hx. unfold compose.
    rewrite <- (app_nil_r (set_Encode1 x)). by rewrite (set_orderedKey_entry x [] Hx).
  - destruct (Scan_rep fuel st o KList _ (it_value KList) _ (length items) Ho ltac:(done) ltac:(unfold small in *; by rewrite length_fmap)
      (list_reads items Hi)) as (it & E & Hit); [by rewrite length_fmap|].
    exists it. split; [done|]. rewrite Hit, <- list_fmap_compose. f_equal. rewrite <- (list_fmap_id items) at 2.
    apply Forall_fmap_ext_1. eapply Forall_impl; [exact Hi|]. intros x Hx. unfold compose.
    rewrite <- (app_nil_r (list_Encode1 x)). by rewrite (list_Decode_entry x [] Hx).
Qed.

(** C19.  The difference and the intersection of two maps as a client sees
    them, where the left tree has at most one level of inner nodes (the
    iterator's jumps go wrong on higher ones), the right one has any height,
    and all keys of the left map are greater than the key of one zero byte: the
    iterator of [Diff] shows exactly the items of the left map that the right
    map does not have with the same key and value, that of [Intersect] exactly
    those it has. *)
Theorem map_diff_items st lhs rhs li ri :
  2 <= fuel -> obj_rep 2 st lhs KMap (map_Encode1 <$> li) -> obj_rep fuel st rhs KMap (map_Encode1 <$> ri) ->
  Forall item_ok li -> Forall item_ok ri -> key_sorted (kv_key <$> li) -> key_sorted (kv_key <$> ri) ->
  Forall (fun it => slice_lt [x00] (kv_key it) = true) li -> small li -> small ri ->
  (exists it, UMap_Diff fuel st lhs rhs = Some it /\
     it_scan (st_load st) read_item (length li) it = Some (filter (.∉ ri) li)) /\
  (exists it, UMap_Intersect fuel st lhs rhs = Some it /\
     it_scan (st_load st) read_item (length li) it = Some (filter (.∈ ri) li)).
Proof.
  intros Hf Hl Hr Hil Hir Hsl Hsr Hmin Hnl Hnr.
  assert (Hsd : sides st lhs rhs KMap (map_Encode1 <$> li) (map_Encode1 <$> ri) (kv_key <$> li) (kv_key <$> ri)).
  { constructor; try done; [by left|by apply map_entry_keys..|by apply Forall_fmap|].
    unfold small in *. by rewrite !length_fmap. }
  rewrite <- (length_fmap map_Encode1 li). split.
  - destruct (Diff_rep st lhs rhs KMap _ _ _ _ read_item item_of Hsd (map_reads li Hil)) as (it & E & Hit).
    exists it. split; [done|]. rewrite Hit. f_equal. apply items_filter; [done|].
    intros x Hx. by rewrite encode_elem.
  - destruct (Intersect_rep st lhs rhs KMap _ _ _ _ read_item item_of Hsd (map_reads li Hil)) as (it & E & Hit).
    exists it. split; [done|]. rewrite Hit. f_equal. apply items_filter; [done|].
    intros x Hx. by rewrite encode_elem.
Qed.

End Claims.

(** ** Witnesses *)

Section Witnesses.
#[local] Existing Instances plain_hash map_store map_store_spec.

Lemma object_scan_witness : exists o it,
  UMap_Scan 2 both_leaves o = Some it /\ it_scan (st_load both_leaves) read_item 3 it = Some left_items.
Proof.
  destruct (SetNode_rep 2 _ _ _ _ left_rooted) as (o & Ho & _).
  destruct (object_scan 2 both_leaves o) as [Hm _].
  destruct (Hm left_items Ho) as (it & E & R); [done|apply left_items_ok|].
  exists o, it. split; [exact E|exact R].
Defined.

Lemma map_diff_items_witness : exists l r it,
  UMap_Diff 2 both_leaves l r = Some it /\
  it_scan (st_load both_leaves) read_item 3 it = Some [mkKV [x62] [x02]; mkKV [x63] []].
Proof.
  destruct (SetNode_rep 2 _ _ _ _ left_rooted) as (l & Hl & _).
  destruct (SetNode_rep 2 _ _ _ _ right_rooted) as (r & Hr & _).
  destruct left_items_ok as [Hli Hls], right_items_ok as [Hri Hrs].
  destruct (map_diff_items 2 both_leaves l r left_items right_items ltac:(lia) Hl Hr Hli Hri Hls Hrs)
    as [(it & E & R) _]; [by repeat constructor|done|done|].
  exists l, r, it. split; [exact E|exact R].
Defined.

End Witnesses.
