(* ===== verification/MergeProps.v ===== *)
(** * Three-way merge: which changes are found, and when two of them collide

    [flip] turns the mapping of unchanged elements into the changed ranges;
    [IsIdenticalContents] decides whether two changes of one range collide. *)

From S2P Require Import Prelude Types Slice HashVal Chunk RollingHash Node NodeSearch Chunker.
From S2P Require Import Canonical Leaf Store Cursor Builder Advanced Objects Build Tree TreeProps CursorProps.
From S2P Require Import KeySearch ReadProps CreateProps Comparator Levenshtein Merger CompareProps IterateProps.
From S2P Require Import DiffProps DiffClaims.

(** ** [flip] *)

(** The pairs of ranges follow each other on both sides, between [a], [b] and
    [n], [m]. *)
Fixpoint chained (rs : RangeMaps) (a b n m : Z) : Prop :=
  match rs with
  | [] => (a <= n)%Z /\ (b <= m)%Z
  | (l, r) :: rs' =>
      (a <= start_idx l)%Z /\ (b <= start_idx r)%Z /\
      (0 <= num_subsequent l)%Z /\ (0 <= num_subsequent r)%Z /\
      chained rs' (start_idx l + num_subsequent l) (start_idx r + num_subsequent r) n m
  end.

Lemma chained_bound rs n m : forall a b, chained rs a b n m -> (a <= n)%Z /\ (b <= m)%Z.
Proof.
  induction rs as [|[l r] rs IH]; intros a b; simpl; [done|].
  intros (? & ? & ? & ? & Hc). apply IH in Hc. lia.
Qed.

Lemma covers_app rs rs' i : covers (rs ++ rs') i <-> covers rs i \/ covers rs' i.
Proof.
  unfold covers. split.
  - intros (r & [Hr|Hr]%elem_of_app & Hi); eauto.
  - intros [(r & Hr & Hi)|(r & Hr & Hi)]; exists r; rewrite elem_of_app; eauto.
Qed.

Lemma covers_nil i : ~ covers [] i.
Proof. intros (r & Hr & _). by apply elem_of_nil in Hr. Qed.

Lemma covers_one r i : covers [r] i <-> (start_idx r <= Z.of_nat i < start_idx r + num_subsequent r)%Z.
Proof.
  unfold covers. split; [intros (r' & ->%list_elem_of_singleton & Hi); done|].
  intros Hi. exists r. by rewrite list_elem_of_singleton.
Qed.

Lemma covers_cons r rs i : covers (r :: rs) i <-> covers [r] i \/ covers rs i.
Proof. apply (covers_app [r] rs). Qed.

Lemma gap_maps_covers a a' b b' i :
  (0 <= a <= a')%Z -> (0 <= b <= b')%Z -> (a' < 2 ^ 62)%Z -> (b' < 2 ^ 62)%Z ->
  (covers (gap_maps a a' b b').*1 i <-> (a <= Z.of_nat i < a')%Z) /\
  (covers (gap_maps a a' b b').*2 i <-> (b <= Z.of_nat i < b')%Z).
Proof.
  intros Ha Hb Ha' Hb'. unfold gap_maps. rewrite !(wrap_small 64) by lia. cbn [num_subsequent].
  destruct (Z.eqb_spec (a' - a) 0) as [Ea|Ea], (Z.eqb_spec (b' - b) 0) as [Eb|Eb]; cbn [negb orb fmap list_fmap fst snd].
  1: split; split; [by intros ?%covers_nil|lia|by intros ?%covers_nil|lia].
  all: rewrite !covers_one; cbn [start_idx num_subsequent]; lia.
Qed.

Lemma chained_covers rs n m : forall a b i, chained rs a b n m ->
  (covers rs.*1 i -> (a <= Z.of_nat i < n)%Z) /\ (covers rs.*2 i -> (b <= Z.of_nat i < m)%Z).
Proof.
  induction rs as [|[l r] rs IH]; intros a b i Hc; simpl in Hc; [split; by intros ?%covers_nil|].
  destruct Hc as (? & ? & ? & ? & Hc). destruct (IH _ _ i Hc) as [I1 I2]. apply chained_bound in Hc.
  cbn [fmap list_fmap fst snd]. split; (intros [Ho|Ho]%covers_cons; [apply covers_one in Ho; lia|]);
    [apply I1 in Ho|apply I2 in Ho]; lia.
Qed.

Lemma flip_loop_covers rs n m : forall a b i,
  chained rs a b n m -> (0 <= a)%Z -> (0 <= b)%Z -> (n < 2 ^ 62)%Z -> (m < 2 ^ 62)%Z ->
  (covers (flip_loop rs a b n m).*1 i <-> (a <= Z.of_nat i < n)%Z /\ ~ covers rs.*1 i) /\
  (covers (flip_loop rs a b n m).*2 i <-> (b <= Z.of_nat i < m)%Z /\ ~ covers rs.*2 i).
Proof.
  induction rs as [|[l r] rs IH]; intros a b i Hc Ha Hb Hn Hm.
  - destruct Hc as [Hc1 Hc2]. cbn [flip_loop]. destruct (gap_maps_covers a n b m i) as [-> ->]; [lia..|].
    pose proof (covers_nil i). cbn [fmap list_fmap]. tauto.
  - simpl in Hc. destruct Hc as (? & ? & ? & ? & Hc). pose proof (chained_bound _ _ _ _ _ Hc).
    destruct (chained_covers _ _ _ _ _ i Hc) as [K1 K2].
    cbn [flip_loop]. rewrite !(wrap_small 64) by lia. rewrite !fmap_app, !covers_app.
    destruct (gap_maps_covers a (start_idx l) b (start_idx r) i) as [-> ->]; [lia..|].
    destruct (IH _ _ i Hc) as [-> ->]; [lia..|]. cbn [fmap list_fmap fst snd].
    rewrite !(covers_cons _ (_ <$> rs)), !covers_one. split; split.
    + intros [?|[? Hno]]; (split; [lia|]); intros [?|Hx]; [lia|apply K1 in Hx; lia|lia|done].
    + intros [? Hno]. destruct (decide (Z.of_nat i < start_idx l)%Z); [left; lia|right].
      split; [|tauto]. assert (~ (start_idx l <= Z.of_nat i < start_idx l + num_subsequent l)%Z) by tauto. lia.
    + intros [?|[? Hno]]; (split; [lia|]); intros [?|Hx]; [lia|apply K2 in Hx; lia|lia|done].
    + intros [? Hno]. destruct (decide (Z.of_nat i < start_idx r)%Z); [left; lia|right].
      split; [|tauto]. assert (~ (start_idx r <= Z.of_nat i < start_idx r + num_subsequent r)%Z) by tauto. lia.
Qed.

(** The flipped ranges are the rest of both sides. *)
Lemma flip_covers rs n m i :
  chained rs 0 0 n m -> (n < 2 ^ 62)%Z -> (m < 2 ^ 62)%Z ->
  (covers (flip rs n m).*1 i <-> (Z.of_nat i < n)%Z /\ ~ covers rs.*1 i) /\
  (covers (flip rs n m).*2 i <-> (Z.of_nat i < m)%Z /\ ~ covers rs.*2 i).
Proof.
  intros Hc Hn Hm. unfold flip. destruct rs as [|p rs].
  - pose proof (covers_nil i). cbn [length Nat.eqb fmap list_fmap fst snd]. rewrite !covers_one. cbn [start_idx num_subsequent].
    split; split; [intros; split; [lia|done]|lia|intros; split; [lia|done]|lia].
  - cbn [length Nat.eqb]. destruct (flip_loop_covers (p :: rs) n m 0 0 i Hc) as [-> ->]; [lia..|].
    split; split; intros [? ?]; (split; [lia|done]).
Qed.

(** A sorted list of pairs of indices comes from ranges that follow each other. *)
Lemma maps_chained rs n m : forall a b,
  Forall maps_ok rs -> StronglySorted both_lt (rs ≫= sem_maps) -> (0 <= a <= n)%Z -> (0 <= b <= m)%Z ->
  (forall i j, (i, j) ∈ rs ≫= sem_maps -> (a <= Z.of_nat i < n)%Z /\ (b <= Z.of_nat j < m)%Z) ->
  chained rs a b n m.
Proof.
  induction rs as [|[l r] rs IH]; intros a b Hok Hs Ha Hb Hin; simpl; [lia|].
  apply Forall_cons in Hok as [Hp Hok]. pose proof Hp as ((Hl0 & Hl1 & _) & (Hr0 & Hr1 & _) & Hlr).
  cbn [fst snd] in *. rewrite bind_cons in Hs. rewrite bind_cons in Hin.
  pose proof (sem_maps_lookup (l, r) 0 Hp ltac:(cbn; lia)) as Hfst. cbn [fst snd] in Hfst.
  pose proof (sem_maps_lookup (l, r) (Z.to_nat (num_subsequent l) - 1) Hp ltac:(cbn; lia)) as Hlst. cbn [fst snd] in Hlst.
  destruct (Hin _ _ ltac:(apply elem_of_app; left; exact Hfst)).
  destruct (Hin _ _ ltac:(apply elem_of_app; left; exact Hlst)).
  split_and!; [lia..|]. apply IH; [done|by eapply StronglySorted_app_1_r|lia|lia|].
  intros i j Hij. destruct (Hin i j) as [? ?]; [apply elem_of_app; by right|].
  destruct (StronglySorted_app_1_elem_of _ _ _ _ _ Hs Hlst Hij) as [? ?]. simpl in *. lia.
Qed.

Lemma covers_maps rs i : Forall maps_ok rs ->
  (covers rs.*1 i <-> exists j, (i, j) ∈ rs ≫= sem_maps) /\
  (covers rs.*2 i <-> exists j, (j, i) ∈ rs ≫= sem_maps).
Proof.
  intros Hok. setoid_rewrite <- (maps_to_sem rs); [|done..]. rewrite Forall_forall in Hok.
  split; split.
  - intros (r & ([r' r2] & -> & Hp)%list_elem_of_fmap & Hi). destruct (Hok _ Hp) as (_ & (? & ? & _) & ?). cbn [fst snd] in *.
    exists (Z.to_nat (start_idx r2 + (Z.of_nat i - start_idx r'))), (r', r2), (Z.of_nat i - start_idx r')%Z.
    cbn [fst snd]. split_and!; [done|lia..].
  - intros (j & p & d & Hp & Ei & Ej & Hd). exists (fst p). split; [by apply list_elem_of_fmap_2|lia].
  - intros (r & ([r1 r'] & -> & Hp)%list_elem_of_fmap & Hi). destruct (Hok _ Hp) as ((? & ? & _) & _ & ?). cbn [fst snd] in *.
    exists (Z.to_nat (start_idx r1 + (Z.of_nat i - start_idx r'))), (r1, r'), (Z.of_nat i - start_idx r')%Z.
    cbn [fst snd]. split_and!; [done|lia..].
  - intros (j & p & d & Hp & Ei & Ej & Hd). destruct (Hok _ Hp) as (_ & _ & ?).
    exists (snd p). split; [by apply list_elem_of_fmap_2|lia].
Qed.

Lemma lookup_absent {A} `{EqDecision A} (es es' : list A) i :
  i < length es /\ ~ (exists j e, es !! i = Some e /\ es' !! j = Some e) <-> exists e, es !! i = Some e /\ e ∉ es'.
Proof.
  split.
  - intros [Hi Hno]. destruct (lookup_lt_is_Some_2 es i Hi) as [e He]. exists e. split; [done|].
    intros [j Hj]%list_elem_of_lookup. eauto.
  - intros (e & He & Hno). split; [by eapply lookup_lt_Some|]. intros (j & e' & He' & Hj).
    rewrite He in He'. injection He' as <-. apply Hno. by eapply list_elem_of_lookup_2.
Qed.

(** ** Changes *)

(** C25.  What the merge takes for the changes of a map or set between the base
    (the left side) and a node (the right side), where the base is not empty
    and all its keys are greater than the key of one zero byte: the flipped
    mapping covers on the side of the base exactly the entries that the node
    does not have any more, and on the side of the node exactly the entries
    that are new. *)
Theorem merge_changes `{HashFunction} get k fuel hl hr el er kl kr :
  comparable get k fuel hl hr el er kl kr ->
  exists rs, KeyMapper get get fuel (Some hr) (Some hl) = Some rs /\
    let changes := flip rs (Z.of_nat (length el)) (Z.of_nat (length er)) in
    (forall i, covers changes.*1 i <-> exists e, el !! i = Some e /\ e ∉ er) /\
    (forall j, covers changes.*2 j <-> exists e, er !! j = Some e /\ e ∉ el).
Proof.
  intros Hc. destruct (KeyMapper_rep get k fuel hl hr el er kl kr Hc) as (rs & E & Hok & Hs & Hm).
  destruct (cmp_small _ _ _ _ _ _ _ _ _ Hc) as [Hsl Hsr]. unfold small in *.
  assert (Hch : chained rs 0 0 (Z.of_nat (length el)) (Z.of_nat (length er))).
  { apply maps_chained; [done|done|lia|lia|]. intros i j (e & Hi & Hj)%Hm.
    apply lookup_lt_Some in Hi, Hj. lia. }
  exists rs. split; [done|]. cbv zeta. split; intros i; rewrite <- lookup_absent;
    destruct (flip_covers rs _ _ i Hch) as [F1 F2]; try lia; destruct (covers_maps rs i Hok) as [C1 C2].
  - rewrite F1, C1. setoid_rewrite Hm. by rewrite Nat2Z.inj_lt.
  - rewrite F2, C2. setoid_rewrite Hm. rewrite Nat2Z.inj_lt. split; intros [? Hno]; (split; [done|]);
      intros (j & e & ? & ?); apply Hno; eauto.
Qed.

(** ** Conflicts *)

Lemma memcmp_refl a n : memcmp a a n = Eq.
Proof. revert a. induction n as [|n IH]; intros [|x a]; simpl; [done..|]. by rewrite Z.compare_refl. Qed.

Lemma compare_segments_true steps : forall ls rs i j b, compare_segments steps ls rs i j = Some b -> b = true.
Proof.
  induction steps as [|steps IH]; intros [|l ls] [|r rs] i j b E; simpl in E; try (by injection E); [done|].
  apply bind_Some in E as (a & Ea & E). apply bind_Some in E as (a' & Ea' & E).
  rewrite Ea in Ea'. injection Ea' as <-. rewrite memcmp_refl in E. simpl in E.
  repeat case_match; by eapply IH.
Qed.

(** C36.  When two changes collide.  Changes of overlapping ranges of the base
    are a conflict if the ranges differ or the numbers of new entries differ.
    Changes of the same range with equally many new entries are never one: the
    contents are compared with themselves, and the change of the second node is
    dropped, whatever it is. *)
Theorem merge_conflicts load fuel node1 node2 b1 b2 r1 r2 map1 map2 :
  (0 <= start_idx b1)%Z -> (0 <= start_idx b2)%Z -> (0 <= num_subsequent b1)%Z -> (0 <= num_subsequent b2)%Z ->
  (start_idx b1 + num_subsequent b1 < 2 ^ 64)%Z -> (start_idx b2 + num_subsequent b2 < 2 ^ 64)%Z ->
  (start_idx b1 < start_idx b2 + num_subsequent b2)%Z -> (start_idx b2 < start_idx b1 + num_subsequent b1)%Z ->
  let ch := next_change load fuel node1 node2 ((b1, r1) :: map1) ((b2, r2) :: map2) in
  (b1 <> b2 \/ num_subsequent r1 <> num_subsequent r2 -> ch = Some None) /\
  (forall c, b1 = b2 -> num_subsequent r1 = num_subsequent r2 -> ch = Some c ->
     exists segs, GetSegmentsFromIndexRange load fuel node1 r1 = Some segs /\ c = Some (map1, map2, b1, segs)).
Proof.
  intros H1 H2 H3 H4 H5 H6 Ho1 Ho2. cbn [next_change]. split.
  - intros Hd. assert (E : (if ((start_idx b1 =? start_idx b2) && (num_subsequent b1 =? num_subsequent b2))%Z
      then IsIdenticalContents load fuel node1 r1 node2 r2 else Some false) = Some false).
    { destruct (Z.eqb_spec (start_idx b1) (start_idx b2)) as [Es|Es]; [|done].
      destruct (Z.eqb_spec (num_subsequent b1) (num_subsequent b2)) as [En|En]; [|done]. simpl.
      unfold IsIdenticalContents. destruct Hd as [Hd|Hd].
      - destruct b1, b2. simpl in *. congruence.
      - by rewrite (proj2 (Z.eqb_neq _ _)). }
    rewrite E. osimpl. rewrite !(wrap_small 64), !(proj2 (Z.leb_gt _ _)) by lia. done.
  - intros c <- Hn E. rewrite !Z.eqb_refl in E. cbn [andb] in E. apply bind_Some in E as (same & Es & E).
    unfold IsIdenticalContents in Es. rewrite Hn, Z.eqb_refl in Es. simpl in Es.
    apply bind_Some in Es as (ls & _ & Es). apply bind_Some in Es as (rs & _ & Es).
    apply compare_segments_true in Es as ->. apply bind_Some in E as (segs & Eg & E).
    exists segs. by injection E as <-.
Qed.

(** ** Witnesses *)

Section Witnesses.
#[local] Existing Instances plain_hash map_store map_store_spec.

Lemma merge_changes_witness : exists rs,
  KeyMapper (st_load both_leaves) (st_load both_leaves) 2 (Some (node_hash right_leaf)) (Some (node_hash left_leaf))
    = Some rs /\ covers (flip rs 3 3).*1 2 /\ covers (flip rs 3 3).*2 0.
Proof.
  destruct (merge_changes (st_load both_leaves) KMap 2 _ _ _ _ _ _ leaves_comparable) as (rs & E & C1 & C2).
  exists rs. split_and!; [exact E|apply C1|apply C2]; (eexists; split; [reflexivity|]; by apply (bool_decide_unpack _)).
Defined.

(** Two maps that both replace the first entry of a base, by different entries. *)
Definition two_chunks (h : Hash) : option Chunk :=
  if decide (h = Some (node_hash left_leaf)) then Some (node_chunk KMap (snd left_leaf))
  else if decide (h = Some (node_hash right_leaf)) then Some (node_chunk KMap (snd right_leaf))
  else None.

Lemma merge_conflicts_witness : exists segs segs',
  GetSegmentsFromIndexRange two_chunks 2 (Some (node_hash left_leaf)) (mkIR 0 1) = Some segs /\
  GetSegmentsFromIndexRange two_chunks 2 (Some (node_hash right_leaf)) (mkIR 0 1) = Some segs' /\
  data_ <$> head segs <> data_ <$> head segs' /\
  next_change two_chunks 2 (Some (node_hash left_leaf)) (Some (node_hash right_leaf))
    [(mkIR 0 1, mkIR 0 1)] [(mkIR 0 1, mkIR 0 1)] = Some (Some ([], [], mkIR 0 1, segs)).
Proof.
  destruct (merge_conflicts two_chunks 2 (Some (node_hash left_leaf)) (Some (node_hash right_leaf))
    (mkIR 0 1) (mkIR 0 1) (mkIR 0 1) (mkIR 0 1) [] []) as [_ Hc]; [done..|].
  cbv zeta in Hc.
  destruct (next_change two_chunks 2 _ _ _ _) as [c|] eqn:Ec; [|by vm_compute in Ec].
  destruct (Hc c eq_refl eq_refl eq_refl) as (segs & Es & ->).
  destruct (GetSegmentsFromIndexRange two_chunks 2 (Some (node_hash right_leaf)) (mkIR 0 1)) as [segs'|] eqn:Es';
    [|by vm_compute in Es'].
  exists segs, segs'. split_and!; [exact Es|reflexivity| |reflexivity].
  vm_compute in Es, Es'. injection Es as <-. injection Es' as <-. by vm_compute.
Defined.

End Witnesses.
