(* ===== verification/DiffLimits.v ===== *)
(** * Where comparison, iteration and search go beyond what they can do

    Concrete trees on which the comparison by index, the jump of a cursor over
    inner nodes and the lower bound of the keys give wrong answers.  The trees
    are valid: every node is the chunk of its entries. *)

From S2P Require Import Prelude Types Slice HashVal Chunk RollingHash Node NodeSearch Chunker.
From S2P Require Import Canonical Leaf Store Cursor Builder Objects Build Tree TreeProps.
From S2P Require Import Comparator Iterator DiffClaims.

Section Limits.
#[local] Existing Instances plain_hash zeroed.

(** A store that holds some nodes. *)
Fixpoint node_loader (nodes : list (NodeKind * list bytes)) (h : Hash) : option Chunk :=
  match nodes with
  | [] => None
  | n :: nodes' =>
      if decide (h = Some (node_hash n)) then Some (node_chunk (fst n) (snd n)) else node_loader nodes' h
  end.

(** The inner node above some nodes. *)
Definition meta_above (nodes : list (NodeKind * list bytes)) : NodeKind * list bytes :=
  (KMeta, (fun n => mi_bytes (meta_of (fst n) (snd n))) <$> nodes).

Definition list_leaf (items : list Slice) : NodeKind * list bytes := (KList, list_Encode1 <$> items).

(** The list a, b, c, d in two leaves, and the list x, c, d, whose second leaf is
    the same. *)
Definition leaf_ab := list_leaf [[x61]; [x62]].
Definition leaf_cd := list_leaf [[x63]; [x64]].
Definition leaf_x := list_leaf [[x78]].
Definition list_abcd := meta_above [leaf_ab; leaf_cd].
Definition list_xcd := meta_above [leaf_x; leaf_cd].

Definition lists := node_loader [leaf_ab; leaf_cd; leaf_x; list_abcd; list_xcd].

(** Comparing by index, c and d at 2 and 3 of the left list are found to be at 2
    and 3 of the right list, which has c and d at 1 and 2 and only three elements:
    the hashes of two nodes are compared without their first indices. *)
Lemma index_diff_shifted :
  IndexDiffer lists lists 3 (Some (node_hash list_xcd)) (Some (node_hash list_abcd)) = Some [mkIR 0 2] /\
  IndexIntersector lists lists 3 (Some (node_hash list_xcd)) (Some (node_hash list_abcd)) = Some [mkIR 2 2].
Proof. by vm_compute. Qed.

(** A list of eight elements with two levels of inner nodes. *)
Definition leaf_ef := list_leaf [[x65]; [x66]].
Definition leaf_gh := list_leaf [[x67]; [x68]].
Definition meta_efgh := meta_above [leaf_ef; leaf_gh].
Definition list_a_h := meta_above [list_abcd; meta_efgh].

Definition deep := node_loader [leaf_ab; leaf_cd; leaf_ef; leaf_gh; list_abcd; meta_efgh; list_a_h].

(** The position in the leaf after [AdvanceSteps(steps)] from the first element,
    and the element there. *)
Definition jump (steps : Z) : option (Z * option Slice) :=
  c ← cursor_by_index deep 4 (Some (node_hash list_a_h)) 0; c' ← c;
  a ← AdvanceSteps deep steps c'; l ← head (snd a); e ← isEnd l;
  Some (idx_ l, if e : bool then None else d ← current l; list_Decode d).

(** Jumps within the first inner node arrive; a jump into the second one that
    should stop at the last entry of a leaf stops in front of the next leaf or
    behind the last one. *)
Lemma jump_over_inner_nodes :
  jump 3 = Some (1%Z, Some [x64]) /\ jump 4 = Some (0%Z, Some [x65]) /\ jump 6 = Some (0%Z, Some [x67]) /\
  jump 5 = Some ((-1)%Z, None) /\ jump 7 = Some (2%Z, None).
Proof. by vm_compute. Qed.

(** Two maps that both have the empty key with the same value. *)
Definition map_leaf (items : list KVItem) : NodeKind * list bytes := (KMap, map_Encode1 <$> items).

Definition map_left := map_leaf [mkKV [] [x01]; mkKV [x62] []].
Definition map_right_1 := map_leaf [mkKV [] [x01]].
Definition map_right_2 := map_leaf [mkKV [x61] []; mkKV [x62] []].
Definition map_right := meta_above [map_right_1; map_right_2].

Definition maps := node_loader [map_left; map_right_1; map_right_2; map_right].

(** The smallest key is taken to be one zero byte, so the node with the empty
    key is not looked at: its item is reported as missing. *)
Lemma empty_key_missed :
  KeyDiffer maps maps 3 (Some (node_hash map_right)) (Some (node_hash map_left)) = Some [mkIR 0 1] /\
  KeyIntersector maps maps 3 (Some (node_hash map_right)) (Some (node_hash map_left)) = Some [mkIR 1 1].
Proof. by vm_compute. Qed.

End Limits.
