(* ===== verification/LstStore.v ===== *)
(** * The log-structured store: [include/store/lst_store.h],
      [src/store/lst_store.cc], [include/utils/chars.h]

    The default chunk store.  A file is mapped into memory: a meta log of 4096
    bytes and segments of 4 MB.  A segment holds the offsets of its neighbours,
    then chunks, each followed by its hash, then in its last 20 bytes the hash
    of its first chunk.  Used segments form the major list, unused ones the free
    list; when few are free, a thread appends more to the file, and the
    segments it made are linked in by a later allocation.

    The mapped file is a function from offsets to bytes, so that a page that was
    never written reads as zeros.  Pointers into the file are offsets.  An
    [LSTSegment] object is identified by the offset of its segment, of which
    there is one object at a time; 0 is the null pointer; [prev_] is never read
    and left out.  [SyncToDisk] has no effect in the source.  [None] is a failed
    check, [LOG(FATAL)], or an exception. *)

From S2P Require Import Prelude Types HashVal Chunk.
Local Open Scope Z_scope.

(** ** The mapped file *)

Definition Mem : Type := Z -> byte.

Definition mem_read (m : Mem) (a : Z) (n : nat) : bytes := (fun i => m (a + Z.of_nat i)) <$> seq 0 n.

Definition mem_write (m : Mem) (a : Z) (bs : bytes) : Mem :=
  fun x => if (a <=? x) && (x <? a + Z.of_nat (length bs)) then nth (Z.to_nat (x - a)) bs x00 else m x.

(** [AppendInteger] and [ReadInteger] for [offset_t]. *)
Definition AppendInteger (m : Mem) (a : Z) (values : list Z) : Mem :=
  mem_write m a (concat (le_encode 8 <$> values)).

Definition ReadInteger (m : Mem) (a : Z) : Z := le_decode (mem_read m a 8).

Definition kMetaLogSize : Z := 4096.
Definition kSegmentSize : Z := 4194304.
Definition kMetaSegmentSize : Z := 16.
Definition segment_increment_ : Z := 16.

(** [Hash::kByteLength] and [Chunk::kMetaLength] as offsets. *)
Definition hash_bytes : Z := Z.of_nat kByteLength.
Definition meta_bytes : Z := Z.of_nat kMetaLength.

(** ** Pointers into segments *)

Definition IsEndChunk (type : Z) : bool := type =? chunktype_code kNull.

Definition PtrToChunkLength (m : Mem) (p : Z) : Z := le_decode (mem_read m (p + Z.of_nat kNumBytesOffset) 4).

Definition PtrToChunkType (m : Mem) (p : Z) : Z := b2z (m (p + Z.of_nat kChunkTypeOffset)).

Definition GetPtrToNextChunk (m : Mem) (p : Z) : Z := p + hash_bytes + PtrToChunkLength m p.

Definition GetFirstChunkPtr (segment : Z) : Z := segment + kMetaSegmentSize.

Definition GetValidateHashPtr (segment : Z) : Z := segment + kSegmentSize - hash_bytes.

(** The 20 bytes of a hash. *)
Definition hash_at (m : Mem) (p : Z) : bytes := mem_read m p kByteLength.

(** ** The state *)

Inductive ThreadStatus := kUnscheduled | kScheduled | kCompleted.

#[export] Instance ThreadStatus_eq_dec : EqDecision ThreadStatus.
Proof. solve_decision. Defined.

(** [struct StoreInfo]; the counters per type are functions of its code. *)
Record StoreInfo := mkInfo {
  chunks : Z; chunkBytes : Z; validChunks : Z; validChunkBytes : Z;
  allocSegments : Z; freeSegments : Z; usedSegments : Z;
  chunksPerType : Z -> Z; bytesPerType : Z -> Z
}.

(** [struct SyncBlock]. *)
Record SyncBlock := mkSync { sb_head : Z; sb_last : Z; sb_segments : Z }.

(** [chunk_map_] maps the bytes of a hash to the pointers to the hash and to the
    chunk in the file. *)
Record LSTStore := mkLst {
  mem : Mem;
  next_ : Z -> Z;
  chunk_map_ : gmap bytes (Z * Z);
  free_list_ : Z;
  major_list_ : Z;
  current_major_segment_ : Z;
  last_free_segment_ : Z;
  major_segment_offset_ : Z;
  storeInfo : StoreInfo;
  sync_block_ : SyncBlock;
  thread_status_ : ThreadStatus
}.

Definition upd_at (f : Z -> Z) (k v : Z) : Z -> Z := fun x => if x =? k then v else f x.

Definition initStoreInfo : StoreInfo := mkInfo 0 0 0 0 0 0 0 (fun _ => 0) (fun _ => 0).

Definition onNewChunk (i : StoreInfo) (type chunkLength : Z) : StoreInfo :=
  mkInfo (u64 (chunks i + 1)) (u64 (chunkBytes i + chunkLength)) (u64 (validChunks i + 1))
    (u64 (validChunkBytes i + chunkLength)) (allocSegments i) (freeSegments i) (usedSegments i)
    (upd_at (chunksPerType i) type (u64 (chunksPerType i type + 1)))
    (upd_at (bytesPerType i) type (u64 (bytesPerType i type + chunkLength))).

Definition onRemoveChunk (i : StoreInfo) (type chunkLength : Z) : StoreInfo :=
  mkInfo (chunks i) (chunkBytes i) (u64 (validChunks i - 1)) (u64 (validChunkBytes i - chunkLength))
    (allocSegments i) (freeSegments i) (usedSegments i)
    (upd_at (chunksPerType i) type (u64 (chunksPerType i type - 1)))
    (upd_at (bytesPerType i) type (u64 (bytesPerType i type - chunkLength))).

Definition set_segments (i : StoreInfo) (alloc free used : Z) : StoreInfo :=
  mkInfo (chunks i) (chunkBytes i) (validChunks i) (validChunkBytes i) alloc free used
    (chunksPerType i) (bytesPerType i).

(** ** Lists of segments *)

(** [LinkSegmentList]: the links of the file become links of objects; [steps]
    bounds the length of the list.  The result is the last segment, the number
    of segments and the links. *)
Fixpoint LinkSegmentList (steps : nat) (m : Mem) (iter last number : Z) (next : Z -> Z) :
  option (Z * Z * (Z -> Z)) :=
  if iter =? 0 then Some (last, number, next)
  else
    match steps with
    | O => None
    | S steps' =>
        let v1 := ReadInteger m (iter + 8) in
        LinkSegmentList steps' m v1 iter (u64 (number + 1)) (upd_at next iter v1)
    end.

(** What a loop over the chunks of a segment keeps. *)
Abbreviation LoadAcc := (gmap bytes (Z * Z) * StoreInfo)%type.

Section Lst.
(** From the configuration. *)
Variable max_segments_ : Z.

Definition link_steps : nat := S (Z.to_nat max_segments_).

Definition UpdateStore (s : LSTStore) : LSTStore :=
  let sb := sync_block_ s in
  if 0 <? sb_segments sb then
    let i := storeInfo s in
    let i' := set_segments i (u64 (allocSegments i + sb_segments sb)) (u64 (freeSegments i + sb_segments sb))
                (usedSegments i) in
    if free_list_ s =? 0 then
      mkLst (AppendInteger (mem s) 0 [sb_head sb]) (next_ s) (chunk_map_ s) (sb_head sb) (major_list_ s)
        (current_major_segment_ s) (sb_last sb) (major_segment_offset_ s) i' sb kUnscheduled
    else
      mkLst (AppendInteger (mem s) (last_free_segment_ s + 8) [sb_head sb])
        (upd_at (next_ s) (last_free_segment_ s) (sb_head sb)) (chunk_map_ s) (free_list_ s) (major_list_ s)
        (current_major_segment_ s) (sb_last sb) (major_segment_offset_ s) i' sb kUnscheduled
  else
    mkLst (mem s) (next_ s) (chunk_map_ s) (free_list_ s) (major_list_ s) (current_major_segment_ s)
      (last_free_segment_ s) (major_segment_offset_ s) (storeInfo s) sb kUnscheduled.

(** The headers of the new segments, from the [i]-th on; [todo] are left. *)
Fixpoint enlarge_loop (todo : nat) (m : Mem) (i new_segments alloc last_free offset : Z) : Mem :=
  match todo with
  | O => m
  | S todo' =>
      let chunk_id := i32 (i + alloc) in
      let prev_segment_offset :=
        if 0 <? i then u64 ((chunk_id - 1) * kSegmentSize + kMetaLogSize) else last_free in
      let next_segment_offset :=
        if i <? new_segments - 1 then u64 ((chunk_id + 1) * kSegmentSize + kMetaLogSize) else 0 in
      enlarge_loop todo' (AppendInteger m offset [prev_segment_offset; next_segment_offset])
        (i + 1) new_segments alloc last_free (offset + kSegmentSize)
  end.

(** The number of new segments: [size_t] arithmetic. *)
Definition enlarge_segments (alloc : Z) : Z :=
  let new_segments := u64 (segment_increment_ * 2) in
  if max_segments_ <? u64 (alloc + new_segments) then u64 (max_segments_ - alloc) else new_segments.

(** [Enlarge], which runs in a thread of its own once it is scheduled. *)
Definition Enlarge (s : LSTStore) : option LSTStore :=
  let alloc := allocSegments (storeInfo s) in
  let new_segments := enlarge_segments alloc in
  let finish m next sb :=
    mkLst m next (chunk_map_ s) (free_list_ s) (major_list_ s) (current_major_segment_ s)
      (last_free_segment_ s) (major_segment_offset_ s) (storeInfo s) sb kCompleted in
  if new_segments <=? 0 then
    Some (finish (mem s) (next_ s)
            (mkSync (sb_head (sync_block_ s)) (sb_last (sync_block_ s)) (i32 new_segments)))
  else
    let end_of_log := kMetaLogSize + alloc * kSegmentSize in
    let m := enlarge_loop (Z.to_nat new_segments) (mem s) 0 new_segments alloc (last_free_segment_ s) end_of_log in
    let m' := mem_write m (end_of_log + new_segments * kSegmentSize - 1) [x01] in
    r ← LinkSegmentList link_steps m' end_of_log 0 0 (next_ s);
    let '(last, ns, next) := r in
    CHECK (ns =? new_segments);;
    Some (finish m' next (mkSync end_of_log last (i32 new_segments))).

(** ** Allocation *)

Definition set_status (s : LSTStore) (st : ThreadStatus) : LSTStore :=
  mkLst (mem s) (next_ s) (chunk_map_ s) (free_list_ s) (major_list_ s) (current_major_segment_ s)
    (last_free_segment_ s) (major_segment_offset_ s) (storeInfo s) (sync_block_ s) st.

(** The beginning of [Allocate]: the thread is started or its segments are
    linked in if few segments are free. *)
Definition allocate_schedule (s : LSTStore) : LSTStore :=
  if freeSegments (storeInfo s) <? segment_increment_ then
    match thread_status_ s with
    | kUnscheduled => set_status s kScheduled
    | kCompleted => UpdateStore s
    | kScheduled => s
    end
  else s.

(** Without free segments the thread is waited for. *)
Definition allocate_wait (s : LSTStore) : option LSTStore :=
  if free_list_ s =? 0 then
    s1 ← (if decide (thread_status_ s = kScheduled) then Enlarge s else Some s);
    let s2 := if decide (thread_status_ s1 = kCompleted) then UpdateStore s1 else s1 in
    CHECK (negb (free_list_ s2 =? 0));;
    Some s2
  else Some s.

(** [Allocate(current)] returns the new segment. *)
Definition Allocate (s : LSTStore) (current : Z) : option (LSTStore * Z) :=
  s1 ← allocate_wait (allocate_schedule s);
  let next := free_list_ s1 in
  let m1 :=
    if current =? 0 then mem s1
    else
      let first_chunk := GetFirstChunkPtr current in
      let first_hash := first_chunk + PtrToChunkLength (mem s1) first_chunk in
      let m := mem_write (mem s1) (GetValidateHashPtr current) (hash_at (mem s1) first_hash) in
      AppendInteger m (current + 8) [next] in
  let m2 := AppendInteger m1 next [current; 0] in
  let i := storeInfo s1 in
  Some (mkLst m2 (upd_at (next_ s1) next 0) (chunk_map_ s1) (next_ s1 next) (major_list_ s1)
          (current_major_segment_ s1) (last_free_segment_ s1) (major_segment_offset_ s1)
          (set_segments i (allocSegments i) (u64 (freeSegments i - 1)) (u64 (usedSegments i + 1)))
          (sync_block_ s1) (thread_status_ s1), next).

Definition AllocateMajor (s : LSTStore) : option LSTStore :=
  a ← Allocate s (current_major_segment_ s);
  let '(s1, new_segment) := a in
  let next := if current_major_segment_ s1 =? 0 then next_ s1
              else upd_at (next_ s1) (current_major_segment_ s1) new_segment in
  let major := if major_list_ s1 =? 0 then new_segment else major_list_ s1 in
  Some (mkLst (AppendInteger (mem s1) 0 [free_list_ s1; major; new_segment]) next (chunk_map_ s1)
          (free_list_ s1) major new_segment (last_free_segment_ s1) kMetaSegmentSize
          (storeInfo s1) (sync_block_ s1) (thread_status_ s1)).

(** ** The operations of a chunk store *)

Definition GetFreeSpaceMajor (s : LSTStore) : Z :=
  u64 (kSegmentSize - major_segment_offset_ s - hash_bytes - meta_bytes).

Definition lst_Exists (s : LSTStore) (key : Hash) : option bool :=
  k ← key; Some (bool_decide (is_Some (chunk_map_ s !! k))).

(** [Get]; the chunk that is returned points into the file. *)
Definition lst_Get (s : LSTStore) (key : Hash) : option Chunk :=
  k ← key;
  Some (match chunk_map_ s !! k with
        | Some (hash_ptr, chunk_ptr) =>
            mkChunk (Some (mem_read (mem s) chunk_ptr (Z.to_nat (PtrToChunkLength (mem s) chunk_ptr))))
              (Some (hash_at (mem s) hash_ptr))
        | None => chunk_null
        end).

(** [map_emplace] keeps an entry that is there. *)
Definition map_emplace (cm : gmap bytes (Z * Z)) (k : bytes) (p : Z * Z) : gmap bytes (Z * Z) :=
  if decide (is_Some (cm !! k)) then cm else <[k := p]> cm.

(** The part of [Put] that writes into the current segment. *)
Definition put_chunk (s : LSTStore) (key body : bytes) (type : Z) : LSTStore :=
  let n := Z.of_nat (length body) in
  let offset := current_major_segment_ s + major_segment_offset_ s in
  let m := mem_write (mem_write (mem s) offset body) (offset + n) key in
  mkLst m (next_ s) (map_emplace (chunk_map_ s) key (offset + n, offset)) (free_list_ s) (major_list_ s)
    (current_major_segment_ s) (last_free_segment_ s)
    (u64 (major_segment_offset_ s + hash_bytes + n)) (onNewChunk (storeInfo s) type n)
    (sync_block_ s) (thread_status_ s).

Definition lst_Put (s : LSTStore) (key : Hash) (chunk : Chunk) : option (bool * LSTStore) :=
  k ← key;
  n ← chunk_numBytes chunk;
  let len := u64 (hash_bytes + n) in
  e ← lst_Exists s key;
  if e : bool then Some (true, s)
  else
    s1 ← (if (current_major_segment_ s =? 0) || (GetFreeSpaceMajor s <? len) then AllocateMajor s else Some s);
    h ← head_ chunk; body ← read_bytes 0 (Z.to_nat n) h; type ← read_u8 kChunkTypeOffset h;
    Some (true, put_chunk s1 k body type).

(** ** Loading a file *)

(** One chunk of a loop, which is not the end. *)
Definition load_chunk (m : Mem) (p : Z) (a : LoadAcc) : LoadAcc :=
  let '(cm, i) := a in
  let type := PtrToChunkType m p in
  let n := PtrToChunkLength m p in
  let k := hash_at m (p + n) in
  if type =? chunktype_code kInvalid then (delete k cm, onRemoveChunk i type n)
  else (map_emplace cm k (p + n, p), onNewChunk i type n).

Fixpoint load_valid_loop (steps : nat) (m : Mem) (p : Z) (a : LoadAcc) : option (Z * LoadAcc) :=
  match steps with
  | O => None
  | S steps' =>
      if IsEndChunk (PtrToChunkType m p) then Some (p, a)
      else load_valid_loop steps' m (p + PtrToChunkLength m p + hash_bytes) (load_chunk m p a)
  end.

(** The smallest chunk with its hash has 25 bytes. *)
Definition load_steps : nat := S (Z.to_nat (kSegmentSize / (hash_bytes + meta_bytes))).

Definition LoadFromValidSegment (m : Mem) (segment : Z) (a : LoadAcc) : option (Z * LoadAcc) :=
  CHECK (negb (segment =? 0));;
  let p := GetFirstChunkPtr segment in
  CHECK (bool_decide (hash_at m (p + PtrToChunkLength m p) = hash_at m (GetValidateHashPtr segment)));;
  load_valid_loop load_steps m p a.

Section LoadLast.
Context `{HashFunction}.

(** The last segment: the hash of every chunk is checked.  An invalid chunk
    makes [at] throw, since its key was just erased. *)
Fixpoint load_last_loop (steps : nat) (m : Mem) (p : Z) (a : LoadAcc) : option (Z * Mem * LoadAcc) :=
  match steps with
  | O => None
  | S steps' =>
      let type := PtrToChunkType m p in
      let n := PtrToChunkLength m p in
      if negb (IsChunkValid type)
         || negb (bool_decide (hash_at m (p + n) = ComputeFrom (mem_read m p (Z.to_nat n))))
      then Some (p, mem_write m p (replicate kMetaLength x00), a)
      else if IsEndChunk type then Some (p, m, a)
      else
        CHECK (negb (type =? chunktype_code kInvalid));;
        load_last_loop steps' m (p + n + hash_bytes) (load_chunk m p a)
  end.

Definition LoadFromLastSegment (m : Mem) (segment : Z) (a : LoadAcc) : option (Z * Mem * LoadAcc) :=
  let m1 := if ReadInteger m (segment + 8) =? 0 then m else AppendInteger m (segment + 8) [0] in
  r ← load_last_loop load_steps m1 (GetFirstChunkPtr segment) a;
  let '(p, m2, a') := r in Some (p - segment, m2, a').

(** The loop over the major list up to its last segment. *)
Fixpoint load_major_loop (steps : nat) (m : Mem) (next : Z -> Z) (iter last : Z) (a : LoadAcc) (loaded : Z) :
  option (Z * LoadAcc * Z) :=
  if iter =? last then Some (iter, a, loaded)
  else
    match steps with
    | O => None
    | S steps' =>
        r ← LoadFromValidSegment m iter a;
        load_major_loop steps' m next (next iter) last (snd r) (loaded + 1)
    end.

(** [Load] on a mapped file; the fields that it does not set keep [junk]. *)
Definition Load (m : Mem) (junk : Z) : option LSTStore :=
  let free := ReadInteger m 0 in
  let major := ReadInteger m 8 in
  l1 ← LinkSegmentList link_steps m free 0 0 (fun _ => 0);
  let '(last_free, n1, next1) := l1 in
  l2 ← LinkSegmentList link_steps m major 0 0 next1;
  let '(last_major, n2, next2) := l2 in
  r ← load_major_loop link_steps m next2 major last_major (∅, initStoreInfo) 0;
  let '(iter, a, loaded) := r in
  t ← (if iter =? 0 then Some (junk, m, a, loaded)
       else r' ← LoadFromLastSegment m iter a; Some (r', loaded + 1));
  let '(off, m', (cm, i), loaded') := t in
  let alloc := u64 (n1 + n2) in
  Some (mkLst m' next2 cm free major iter last_free off
          (set_segments i alloc (u64 (alloc - loaded')) loaded') (mkSync junk junk junk) kUnscheduled).

(** [MmapUstoreLogFile]: [file] is the content and the size of an existing file. *)
Definition new_log : Mem := mem_write (fun _ => x00) (kMetaLogSize - 1) [x61].

Definition MmapUstoreLogFile (file : option (Mem * Z)) (persist : bool) (junk : Z) : option LSTStore :=
  let m :=
    match file with
    | Some (m, size) =>
        if persist then
          if u64 (size - kMetaLogSize) mod kSegmentSize =? 0 then m
          else mem_write m 0 (replicate (Z.to_nat (kMetaLogSize - 1)) x00 ++ [x61])
        else new_log
    | None => new_log
    end in
  s ← Load m junk;
  if freeSegments (storeInfo s) <? segment_increment_ then
    s' ← Enlarge (set_status s kScheduled); Some (UpdateStore s')
  else Some s.

End LoadLast.

End Lst.

(** ** Iterators *)

(** [LSTStoreIterator]: [segment_] and [ptr_]; [exists_check] is the policy that
    asks for the key in the map. *)
Record LstIter := mkLIter { li_segment : Z; li_ptr : Z }.

Definition policy_check (exists_check : bool) (s : LSTStore) (p : Z) : bool :=
  negb exists_check || bool_decide (is_Some (chunk_map_ s !! hash_at (mem s) (p + PtrToChunkLength (mem s) p))).

Fixpoint iter_loop (steps : nat) (exists_check : bool) (s : LSTStore) (it : LstIter) : option LstIter :=
  match steps with
  | O => None
  | S steps' =>
      let p := GetPtrToNextChunk (mem s) (li_ptr it) in
      let it' :=
        if IsEndChunk (PtrToChunkType (mem s) p) && negb (next_ s (li_segment it) =? 0) then
          mkLIter (next_ s (li_segment it)) (GetFirstChunkPtr (next_ s (li_segment it)))
        else mkLIter (li_segment it) p in
      if negb (policy_check exists_check s (li_ptr it')) && negb (IsEndChunk (PtrToChunkType (mem s) (li_ptr it')))
      then iter_loop steps' exists_check s it'
      else Some it'
  end.

(** [operator++]; [None] is also [std::out_of_range]. *)
Definition iter_next (steps : nat) (exists_check : bool) (s : LSTStore) (it : LstIter) : option LstIter :=
  CHECK (negb ((li_ptr it =? 0) || IsEndChunk (PtrToChunkType (mem s) (li_ptr it))));;
  iter_loop steps exists_check s it.

(** [operator*]. *)
Definition iter_chunk (s : LSTStore) (it : LstIter) : Chunk :=
  let p := li_ptr it in
  let n := PtrToChunkLength (mem s) p in
  mkChunk (Some (mem_read (mem s) p (Z.to_nat n))) (Some (hash_at (mem s) (p + n))).

Definition lst_begin (s : LSTStore) : LstIter :=
  mkLIter (major_list_ s) (if major_list_ s =? 0 then 0 else GetFirstChunkPtr (major_list_ s)).

Definition lst_end (s : LSTStore) : LstIter :=
  mkLIter (current_major_segment_ s)
    (if current_major_segment_ s =? 0 then 0 else current_major_segment_ s + major_segment_offset_ s).

(** [operator==]. *)
Definition iter_eq_ptr (a b : LstIter) : bool := li_ptr a =? li_ptr b.

(** [LSTStoreTypeIterator]: the chunks of one type. *)
Fixpoint type_loop (steps : nat) (exists_check : bool) (s : LSTStore) (type : Z) (it : LstIter) : option LstIter :=
  match steps with
  | O => None
  | S steps' =>
      it' ← iter_next steps exists_check s it;
      let t := PtrToChunkType (mem s) (li_ptr it') in
      if negb (t =? type) && negb (IsEndChunk t) then type_loop steps' exists_check s type it' else Some it'
  end.

Definition type_iter_new (steps : nat) (exists_check : bool) (s : LSTStore) (type : Z) (it : LstIter) :
  option LstIter :=
  if li_ptr it =? 0 then Some it
  else
    let t := PtrToChunkType (mem s) (li_ptr it) in
    if negb (t =? type) && negb (IsEndChunk t) then type_loop steps exists_check s type it else Some it.
