(* ===== verification/LstProps.v ===== *)
(** * The log-structured store keeps what was put

    The layout of the mapped file as an invariant: a log of entries spread over
    the used segments, the links of the two lists in the file and in memory, and
    zeros where nothing was written. *)

From S2P Require Import Prelude Types HashVal Chunk LstStore.
Local Open Scope Z_scope.

(** ** Memory *)

Lemma length_mem_read m a n : length (mem_read m a n) = n.
Proof. unfold mem_read. by rewrite length_fmap, length_seq. Qed.

#[export] Hint Rewrite length_mem_read : ubytes.

(** The bytes at [a] are [bs]. *)
Definition holds (m : Mem) (a : Z) (bs : bytes) : Prop :=
  forall (i : nat) b, bs !! i = Some b -> m (a + Z.of_nat i) = b.

(** Zeros from [a] up to [b]. *)
Definition zeros (m : Mem) (a b : Z) : Prop := forall x, a <= x < b -> m x = x00.

(** Both memories have the same bytes from [a] up to [b]. *)
Definition same_on (m m' : Mem) (a b : Z) : Prop := forall x, a <= x < b -> m' x = m x.

Lemma holds_app m a bs bs' :
  holds m a (bs ++ bs') <-> holds m a bs /\ holds m (a + Z.of_nat (length bs)) bs'.
Proof.
  unfold holds. split.
  - intros Hh. split; intros i b Hi.
    + apply Hh. rewrite lookup_app_l; [done|]. by eapply lookup_lt_Some.
    + replace (a + Z.of_nat (length bs) + Z.of_nat i) with (a + Z.of_nat (length bs + i)) by lia.
      apply Hh. rewrite lookup_app_r by lia. by replace (length bs + i - length bs)%nat with i by lia.
  - intros [H1 H2] i b Hi. destruct (decide (i < length bs)%nat).
    + apply H1. by rewrite lookup_app_l in Hi by done.
    + rewrite lookup_app_r in Hi by lia. apply H2 in Hi. rewrite <- Hi. f_equal. lia.
Qed.

Lemma holds_read m a bs : holds m a bs -> mem_read m a (length bs) = bs.
Proof.
  intros Hh. apply list_eq. intros i. unfold mem_read. rewrite list_lookup_fmap.
  destruct (decide (i < length bs)%nat) as [Hi|Hi].
  - rewrite lookup_seq_lt by done. destruct (lookup_lt_is_Some_2 bs i Hi) as [b Hb]. simpl.
    rewrite Hb. by rewrite (Hh i b Hb).
  - rewrite (lookup_ge_None_2 bs) by lia. by rewrite lookup_seq_ge by lia.
Qed.

Lemma holds_same m m' a bs :
  same_on m m' a (a + Z.of_nat (length bs)) -> holds m a bs -> holds m' a bs.
Proof.
  intros Hs Hh i b Hi. rewrite (Hs (a + Z.of_nat i)); [by apply Hh|].
  apply lookup_lt_Some in Hi. lia.
Qed.

Lemma zeros_same m m' a b : same_on m m' a b -> zeros m a b -> zeros m' a b.
Proof. intros Hs Hz x Hx. rewrite (Hs x Hx). by apply Hz. Qed.

Lemma mem_read_same m m' a n :
  same_on m m' a (a + Z.of_nat n) -> mem_read m' a n = mem_read m a n.
Proof.
  intros Hs. unfold mem_read. apply list_fmap_ext. intros i x Hx. apply lookup_seq in Hx as [-> Hx].
  apply Hs. lia.
Qed.

Lemma mem_write_same m a bs x y :
  y <= a \/ a + Z.of_nat (length bs) <= x -> same_on m (mem_write m a bs) x y.
Proof.
  intros Hd z Hz. unfold mem_write.
  destruct (Z.leb_spec a z); destruct (Z.ltb_spec z (a + Z.of_nat (length bs))); simpl; try done. lia.
Qed.

Lemma holds_write m a bs : holds (mem_write m a bs) a bs.
Proof.
  intros i b Hi. pose proof (lookup_lt_Some _ _ _ Hi). unfold mem_write.
  rewrite (proj2 (Z.leb_le _ _)), (proj2 (Z.ltb_lt _ _)) by lia. simpl.
  replace (a + Z.of_nat i - a) with (Z.of_nat i) by lia. rewrite Nat2Z.id. by apply nth_lookup_Some.
Qed.

Lemma same_on_trans m m' m'' a b : same_on m m' a b -> same_on m' m'' a b -> same_on m m'' a b.
Proof. intros H1 H2 x Hx. by rewrite H2, H1. Qed.

Lemma same_on_sub m m' a b a' b' : same_on m m' a b -> a <= a' -> b' <= b -> same_on m m' a' b'.
Proof. intros Hs Ha Hb x Hx. apply Hs. lia. Qed.

(** ** Offsets in memory *)

Lemma length_offsets vs : length (concat (le_encode 8 <$> vs)) = (8 * length vs)%nat.
Proof. induction vs as [|v vs IH]; [done|]. rewrite fmap_cons. cbn [concat length]. rewrite length_app, IH, length_le_encode. lia. Qed.

Lemma AppendInteger_same m a vs x y :
  y <= a \/ a + 8 * Z.of_nat (length vs) <= x -> same_on m (AppendInteger m a vs) x y.
Proof. intros Hd. apply mem_write_same. rewrite length_offsets. lia. Qed.

Lemma holds_integer m a v : holds m a (le_encode 8 v) -> 0 <= v < 2 ^ 64 -> ReadInteger m a = v.
Proof.
  intros Hh Hv. unfold ReadInteger. rewrite <- (length_le_encode 8 v), (holds_read _ _ _ Hh).
  by rewrite le_decode_encode_small by (simpl; lia).
Qed.

Lemma ReadInteger_append m a vs i v :
  vs !! i = Some v -> 0 <= v < 2 ^ 64 -> ReadInteger (AppendInteger m a vs) (a + 8 * Z.of_nat i) = v.
Proof.
  intros Hi Hv. apply holds_integer; [|done]. unfold AppendInteger.
  pose proof (holds_write m a (concat (le_encode 8 <$> vs))) as Hh. revert Hh.
  generalize (mem_write m a (concat (le_encode 8 <$> vs))). intros m'.
  revert a i Hi. induction vs as [|w vs IH]; intros a [|i] Hi Hh; [done|done|..].
  - injection Hi as ->. rewrite fmap_cons in Hh. cbn [concat] in Hh. apply holds_app in Hh as [Hh _]. by rewrite Z.add_0_r.
  - rewrite fmap_cons in Hh. cbn [concat] in Hh. apply holds_app in Hh as [_ Hh]. rewrite length_le_encode in Hh.
    replace (a + 8 * Z.of_nat (S i)) with (a + Z.of_nat 8 + 8 * Z.of_nat i) by lia. by apply IH.
Qed.

Lemma ReadInteger_first m a v vs : 0 <= v < 2 ^ 64 -> ReadInteger (AppendInteger m a (v :: vs)) a = v.
Proof.
  intros Hv. pose proof (ReadInteger_append m a (v :: vs) 0 v eq_refl Hv) as E.
  change (8 * Z.of_nat 0) with 0 in E. by rewrite Z.add_0_r in E.
Qed.

Lemma ReadInteger_same m m' a : same_on m m' a (a + 8) -> ReadInteger m' a = ReadInteger m a.
Proof. intros Hs. unfold ReadInteger. by rewrite (mem_read_same m m'). Qed.

Lemma ReadInteger_range m a : 0 <= ReadInteger m a < 2 ^ 64.
Proof.
  unfold ReadInteger. pose proof (le_decode_range (mem_read m a 8)) as Hr.
  rewrite length_mem_read in Hr. simpl in Hr. lia.
Qed.

(** ** Entries of the log *)

(** A key with the bytes of its chunk. *)
Abbreviation LogEntry := (bytes * bytes)%type.

Record log_entry_ok `{HashFunction} (e : LogEntry) : Prop := {
  eo_chunk : exists t p, snd e = chunk_bytes t p /\ payload_ok p /\ t <> kNull /\ t <> kInvalid;
  eo_key : fst e = ComputeFrom (snd e)
}.

Definition entry_bytes (e : LogEntry) : bytes := snd e ++ fst e.
Definition seg_data (es : list LogEntry) : bytes := es ≫= entry_bytes.

(** The size of entries in a segment. *)
Definition size_of (es : list LogEntry) : Z := Z.of_nat (length (seg_data es)).

Ltac lst_lia :=
  unfold GetFirstChunkPtr, GetValidateHashPtr, kSegmentSize, kMetaLogSize, kMetaSegmentSize, hash_bytes, meta_bytes,
    segment_increment_, kByteLength, kMetaLength, kChunkTypeOffset, kNumBytesOffset in *; lia.

Section Entries.
Context `{HashFunction}.

Lemma entry_key_length e : log_entry_ok e -> length (fst e) = kByteLength.
Proof. intros [_ ->]. apply length_ComputeFrom. Qed.

Lemma entry_body_length e : log_entry_ok e -> (kMetaLength <= length (snd e))%nat /\ Z.of_nat (length (snd e)) < 2 ^ 32.
Proof.
  intros [(t & p & -> & Hp & _) _]. rewrite length_chunk_bytes. unfold payload_ok in Hp. lia.
Qed.

Lemma seg_data_cons e es : seg_data (e :: es) = entry_bytes e ++ seg_data es.
Proof. done. Qed.

Lemma seg_data_snoc es e : seg_data (es ++ [e]) = seg_data es ++ entry_bytes e.
Proof. unfold seg_data. by rewrite bind_app, bind_singleton. Qed.

Lemma entry_length e : log_entry_ok e -> Z.of_nat (length (entry_bytes e)) = Z.of_nat (length (snd e)) + hash_bytes.
Proof. intros He. unfold entry_bytes. rewrite length_app, (entry_key_length e He). lst_lia. Qed.

Lemma size_of_snoc es e : log_entry_ok e -> size_of (es ++ [e]) = size_of es + Z.of_nat (length (snd e)) + hash_bytes.
Proof. intros He. unfold size_of. rewrite seg_data_snoc, length_app. pose proof (entry_length e He). lia. Qed.

Lemma size_of_cons e es : log_entry_ok e -> size_of (e :: es) = Z.of_nat (length (snd e)) + hash_bytes + size_of es.
Proof. intros He. unfold size_of. rewrite seg_data_cons, length_app. pose proof (entry_length e He). lia. Qed.

(** Reading an entry. *)
Lemma entry_at m p e :
  log_entry_ok e -> holds m p (entry_bytes e) ->
  mem_read m p (length (snd e)) = snd e /\
  PtrToChunkLength m p = Z.of_nat (length (snd e)) /\
  hash_at m (p + Z.of_nat (length (snd e))) = fst e /\
  IsEndChunk (PtrToChunkType m p) = false /\ IsChunkValid (PtrToChunkType m p) = true /\
  (PtrToChunkType m p =? chunktype_code kInvalid) = false /\
  chunk_type (chunk_of_head (snd e)) = chunktype_of_code (PtrToChunkType m p).
Proof.
  intros He [Hb Hk]%holds_app. pose proof (entry_key_length e He) as Hkl.
  destruct He as [(t & q & Ec & Hp & Ht & Ht') _].
  assert (Ety : PtrToChunkType m p = chunktype_code t).
  { unfold PtrToChunkType. rewrite (Hb kChunkTypeOffset (z2b (chunktype_code t))).
    - rewrite b2z_z2b. apply Z.mod_small. apply chunktype_code_range.
    - rewrite Ec. unfold chunk_bytes. by rewrite lookup_app_r by (by rewrite length_le_encode). }
  split_and!.
  - by apply holds_read.
  - unfold PtrToChunkLength. rewrite Ec in Hb |- *. unfold chunk_bytes in Hb at 1. apply holds_app in Hb as [Hl _].
    rewrite Z.add_0_r, <- (length_le_encode 4 (Z.of_nat (kMetaLength + length q))), (holds_read _ _ _ Hl).
    rewrite le_decode_encode_small; [by rewrite length_chunk_bytes|]. unfold payload_ok in Hp. simpl in *. lia.
  - unfold hash_at. rewrite <- Hkl. by apply holds_read.
  - rewrite Ety. by destruct t.
  - rewrite Ety. by destruct t.
  - rewrite Ety. by destruct t.
  - rewrite Ety, chunktype_of_code_code. apply (chunk_rep_type _ t q). rewrite Ec. by apply chunk_rep_make.
Qed.

(** Behind the entries. *)
Lemma end_at m p : zeros m p (p + meta_bytes) ->
  PtrToChunkLength m p = 0 /\ IsEndChunk (PtrToChunkType m p) = true.
Proof.
  intros Hz. assert (Hh : holds m p (replicate 4 x00)).
  { intros i b Hi. apply lookup_replicate in Hi as [-> Hi]. apply Hz. lst_lia. }
  split.
  - unfold PtrToChunkLength. rewrite Z.add_0_r. rewrite <- (length_replicate 4 x00) at 1.
    by rewrite (holds_read _ _ _ Hh).
  - unfold PtrToChunkType. rewrite Hz by lst_lia. done.
Qed.

End Entries.

(** ** Segments *)

Definition seg_off (j : Z) : Z := kMetaLogSize + j * kSegmentSize.

(** [o] is the offset of one of the first [n] segments. *)
Definition is_seg (n o : Z) : Prop := exists j, 0 <= j < n /\ o = seg_off j.

Lemma seg_apart n n' o o' : is_seg n o -> is_seg n' o' -> o <> o' -> o + kSegmentSize <= o' \/ o' + kSegmentSize <= o.
Proof.
  intros (j & Hj & ->) (j' & Hj' & ->) Hne. unfold seg_off in *.
  assert (j <> j') by (by intros ->). unfold kSegmentSize. lia.
Qed.

Lemma is_seg_pos n o : is_seg n o -> kMetaLogSize <= o.
Proof. intros (j & Hj & ->). unfold seg_off. lst_lia. Qed.

Lemma is_seg_le n n' o : is_seg n o -> n <= n' -> is_seg n' o.
Proof. intros (j & Hj & ->) Hn. exists j. split; [lia|done]. Qed.

Lemma is_seg_bound n o : is_seg n o -> o < seg_off n.
Proof. intros (j & Hj & ->). unfold seg_off. lst_lia. Qed.

(** The room for entries is what is in front of an end mark and of the hash. *)
Definition seg_fits (es : list LogEntry) : Prop := size_of es + kMetaSegmentSize + hash_bytes + meta_bytes <= kSegmentSize.

(** A segment that holds entries and then zeros; with its last hash if it is
    not written to any more. *)
Record seg_open (m : Mem) (o : Z) (es : list LogEntry) : Prop := {
  so_fits : seg_fits es;
  so_data : holds m (GetFirstChunkPtr o) (seg_data es);
  so_zeros : zeros m (GetFirstChunkPtr o + size_of es) (GetValidateHashPtr o)
}.

Definition seg_closed (m : Mem) (o : Z) (es : list LogEntry) : Prop :=
  seg_open m o es /\ exists e es', es = e :: es' /\ holds m (GetValidateHashPtr o) (fst e).

(** A memory that differs outside of the data of a segment, or outside of the
    whole segment. *)
Lemma seg_open_same m m' o es :
  same_on m m' (GetFirstChunkPtr o) (GetValidateHashPtr o) -> seg_open m o es -> seg_open m' o es.
Proof.
  intros Hs [Hf Hd Hz]. unfold seg_fits in Hf. constructor; [done|..].
  - apply (holds_same m); [|done]. fold (size_of es). eapply same_on_sub; [exact Hs|lst_lia..].
  - apply (zeros_same m); [|done]. unfold size_of. eapply same_on_sub; [exact Hs|lst_lia..].
Qed.

Lemma seg_closed_same `{HashFunction} m m' o es :
  Forall log_entry_ok es -> same_on m m' (GetFirstChunkPtr o) (o + kSegmentSize) -> seg_closed m o es -> seg_closed m' o es.
Proof.
  intros Hok Hs [Ho (e & es' & -> & Hh)]. split.
  - apply (seg_open_same m); [|done]. eapply same_on_sub; [exact Hs|lst_lia..].
  - exists e, es'. split; [done|]. apply Forall_cons in Hok as [He _]. apply (holds_same m); [|done].
    pose proof (entry_key_length e He). eapply same_on_sub; [exact Hs|lst_lia..].
Qed.

(** ** Linked lists of segments *)

Definition hd0 (l : list Z) : Z := default 0 (head l).
Definition last0 (l : list Z) : Z := default 0 (last l).

(** [f] links the segments of a list. *)
Fixpoint chain (f : Z -> Z) (l : list Z) : Prop :=
  match l with
  | [] => True
  | x :: l' => f x = hd0 l' /\ chain f l'
  end.

Lemma chain_ext f g l : (forall x, x ∈ l -> f x = g x) -> chain f l -> chain g l.
Proof.
  induction l as [|x l IH]; intros Hfg Hc; [done|]. destruct Hc as [Hx Hc]. split.
  - rewrite <- Hfg; [done|]. by left.
  - apply IH; [|done]. intros y Hy. apply Hfg. by right.
Qed.

Lemma hd0_app l l' : l <> [] -> hd0 (l ++ l') = hd0 l.
Proof. by destruct l. Qed.

(** Linking two lists. *)
Lemma chain_app f l l' x :
  NoDup (l ++ [x]) -> (forall y, y ∈ l' -> y ∉ l ++ [x]) -> chain f (l ++ [x]) -> chain f l' ->
  chain (upd_at f x (hd0 l')) ((l ++ [x]) ++ l').
Proof.
  induction l as [|y l IH]; intros Hnd Hdis Hc Hc'.
  - cbn [app chain]. unfold upd_at at 1. rewrite Z.eqb_refl. split; [done|]. apply (chain_ext f); [|done].
    intros z Hz. unfold upd_at. destruct (Z.eqb_spec z x) as [->|]; [|done]. destruct (Hdis x Hz). by left.
  - cbn [app chain] in *. apply NoDup_cons in Hnd as [Hy Hnd]. destruct Hc as [Ey Hc]. split.
    + unfold upd_at. destruct (Z.eqb_spec y x) as [->|]; [|by rewrite Ey; destruct l].
      destruct Hy. apply elem_of_app. right. by left.
    + apply IH; [done| |done|done]. intros z Hz Hin. apply (Hdis z Hz). by right.
Qed.

Lemma chain_app_nil f l x : chain f (l ++ [x]) -> f x = 0.
Proof. induction l as [|y l IH]; cbn; [by intros [-> _]|]. intros [_ Hc]. by apply IH. Qed.

(** What [LinkSegmentList] does on a list that is linked in the file. *)
Lemma LinkSegmentList_rep m l : forall steps last number next,
  chain (fun o => ReadInteger m (o + 8)) l -> Forall (fun o => o <> 0) l -> NoDup l ->
  (length l <= steps)%nat -> 0 <= number -> number + Z.of_nat (length l) < 2 ^ 64 ->
  exists next', LinkSegmentList steps m (hd0 l) last number next
    = Some (default last (list.last l), number + Z.of_nat (length l), next') /\
    chain next' l /\ (forall x, x ∉ l -> next' x = next x).
Proof.
  induction l as [|o l IH]; intros steps last number next Hc Hnz Hnd Hst Hn Hb.
  - exists next. destruct steps; cbn; by rewrite Z.add_0_r.
  - destruct Hc as [Ho Hc]. apply Forall_cons in Hnz as [Hz Hnz]. apply NoDup_cons in Hnd as [Hno Hnd].
    cbn [length] in *. destruct steps as [|steps]; [lia|]. change (hd0 (o :: l)) with o.
    cbn [LinkSegmentList]. rewrite (proj2 (Z.eqb_neq _ _) Hz), Ho, (wrap_small 64) by lia.
    destruct (IH steps o (number + 1) (upd_at next o (hd0 l))) as (next' & E & Hc' & Hf); try done; [lia..|].
    exists next'. split_and!.
    + rewrite E. f_equal. f_equal. f_equal; [|lia]. rewrite last_cons. by destruct (list.last l).
    + split; [|done]. rewrite (Hf o Hno). unfold upd_at. by rewrite Z.eqb_refl.
    + intros x Hx. apply not_elem_of_cons in Hx as [Hxo Hx]. rewrite (Hf x Hx). unfold upd_at.
      by rewrite (proj2 (Z.eqb_neq _ _) Hxo).
Qed.

(** ** The chunk map *)

(** Where the entries of a segment are: the pointers to hash and chunk. *)
Fixpoint locs (p : Z) (es : list LogEntry) : list (bytes * (Z * Z)) :=
  match es with
  | [] => []
  | e :: es' =>
      let n := Z.of_nat (length (snd e)) in
      (fst e, (p + n, p)) :: locs (p + n + hash_bytes) es'
  end.

Definition seg_locs (seg : Z * list LogEntry) : list (bytes * (Z * Z)) := locs (GetFirstChunkPtr (fst seg)) (snd seg).

Lemma locs_keys es : forall p, (locs p es).*1 = es.*1.
Proof. induction es as [|e es IH]; intros p; [done|]. cbn. by rewrite IH. Qed.

Lemma seg_locs_keys segs : (segs ≫= seg_locs).*1 = (segs ≫= snd).*1.
Proof.
  induction segs as [|s segs IH]; [done|]. rewrite !bind_cons, !fmap_app, IH. unfold seg_locs. by rewrite locs_keys.
Qed.

Lemma locs_snoc `{HashFunction} es e : forall p, Forall log_entry_ok es ->
  locs p (es ++ [e]) = locs p es ++ [(fst e, (p + size_of es + Z.of_nat (length (snd e)), p + size_of es))].
Proof.
  induction es as [|x es IH]; intros p Hok.
  - cbn. by rewrite Z.add_0_r.
  - apply Forall_cons in Hok as [Hx Hok]. cbn [app locs]. rewrite IH by done. cbn [app].
    rewrite (size_of_cons x es Hx). do 5 f_equal; [f_equal|]; lia.
Qed.

(** ** The invariant *)

(** The links in the file. *)
Definition disk (m : Mem) (o : Z) : Z := ReadInteger m (o + 8).

(** The segments that are in use, the free ones, and those that are not
    allocated yet, in the file. *)
Record layout (m : Mem) (majors : list (Z * list LogEntry)) (frees : list Z) (alloc : Z) : Prop := {
  ly_segs : Forall (is_seg alloc) (majors.*1 ++ frees);
  ly_nodup : NoDup (majors.*1 ++ frees);
  ly_majors : chain (disk m) majors.*1;
  ly_frees : chain (disk m) frees;
  ly_closed : forall ms sg, majors = ms ++ [sg] ->
    Forall (fun sg => seg_closed m (fst sg) (snd sg)) ms /\ seg_open m (fst sg) (snd sg);
  ly_unused : Forall (fun o => seg_open m o []) frees;
  ly_fresh : forall j, alloc <= j -> seg_open m (seg_off j) []
}.

Section Inv.
Context `{HashFunction}.
Variable max_segments_ : Z.
Hypothesis Hmax : 0 <= max_segments_ <= 2 ^ 30.

(** The segments that the thread appends. *)
Definition pend_of (alloc : Z) : list Z := seg_off <$> seqZ alloc (enlarge_segments max_segments_ alloc).

Record lst_pending (s : LSTStore) : Prop := {
  pd_segments : sb_segments (sync_block_ s) = enlarge_segments max_segments_ (allocSegments (storeInfo s));
  pd_head : 0 < sb_segments (sync_block_ s) -> sb_head (sync_block_ s) = hd0 (pend_of (allocSegments (storeInfo s)));
  pd_last : 0 < sb_segments (sync_block_ s) -> sb_last (sync_block_ s) = last0 (pend_of (allocSegments (storeInfo s)));
  pd_next : chain (next_ s) (pend_of (allocSegments (storeInfo s)));
  pd_disk : chain (disk (mem s)) (pend_of (allocSegments (storeInfo s)))
}.

Record lst_inv (s : LSTStore) (majors : list (Z * list LogEntry)) (frees : list Z) : Prop := {
  iv_alloc : allocSegments (storeInfo s) = Z.of_nat (length majors + length frees);
  iv_le : allocSegments (storeInfo s) <= max_segments_;
  iv_free : freeSegments (storeInfo s) = Z.of_nat (length frees);
  iv_used : usedSegments (storeInfo s) = Z.of_nat (length majors);
  iv_layout : layout (mem s) majors frees (allocSegments (storeInfo s));
  iv_free_list : free_list_ s = hd0 frees;
  iv_last_free : frees <> [] -> last_free_segment_ s = last0 frees;
  iv_major_list : major_list_ s = hd0 majors.*1;
  iv_current : current_major_segment_ s = last0 majors.*1;
  iv_next_majors : chain (next_ s) majors.*1;
  iv_next_frees : chain (next_ s) frees;
  iv_meta : ReadInteger (mem s) 0 = free_list_ s /\ ReadInteger (mem s) 8 = major_list_ s;
  iv_offset : forall ms sg, majors = ms ++ [sg] -> major_segment_offset_ s = kMetaSegmentSize + size_of (snd sg);
  iv_map : chunk_map_ s = list_to_map (majors ≫= seg_locs);
  iv_keys : NoDup (majors ≫= snd).*1;
  iv_entries : Forall log_entry_ok (majors ≫= snd);
  iv_pending : thread_status_ s = kCompleted -> lst_pending s
}.

Lemma enlarge_segments_spec alloc : 0 <= alloc <= max_segments_ ->
  0 <= enlarge_segments max_segments_ alloc /\ alloc + enlarge_segments max_segments_ alloc <= max_segments_ /\
  (alloc < max_segments_ -> 0 < enlarge_segments max_segments_ alloc).
Proof.
  intros Ha. unfold enlarge_segments. rewrite (wrap_small 64 (segment_increment_ * 2)) by lst_lia. rewrite !(wrap_small 64) by lst_lia.
  destruct (Z.ltb_spec max_segments_ (alloc + segment_increment_ * 2)); lst_lia.
Qed.

Lemma iv_range s majors frees : lst_inv s majors frees -> 0 <= allocSegments (storeInfo s) <= max_segments_.
Proof. intros Hi. pose proof (iv_le _ _ _ Hi). rewrite (iv_alloc _ _ _ Hi) in *. lia. Qed.

(** *** Writes that do not touch the data of segments *)

(** [a], [n] is in the header of a segment. *)
Definition in_header (a n : Z) : Prop := exists k o, is_seg k o /\ o <= a /\ a + n <= o + kMetaSegmentSize.

Lemma header_write m a vs k o :
  in_header a (8 * Z.of_nat (length vs)) -> is_seg k o ->
  same_on m (AppendInteger m a vs) (GetFirstChunkPtr o) (o + kSegmentSize).
Proof.
  intros (k' & o' & Ho' & Ha & Hn) Ho. apply AppendInteger_same.
  destruct (decide (o = o')) as [->|Hne]; [lst_lia|]. pose proof (seg_apart _ _ _ _ Ho Ho' Hne). lst_lia.
Qed.

Lemma meta_write m vs k o :
  (length vs <= 3)%nat -> is_seg k o -> same_on m (AppendInteger m 0 vs) o (o + kSegmentSize).
Proof. intros Hl Ho. apply AppendInteger_same. apply is_seg_pos in Ho. lst_lia. Qed.

(** The links of other segments. *)
Lemma header_write_disk m a vs k o o' :
  is_seg k o -> is_seg k o' -> o <> o' -> o <= a -> a + 8 * Z.of_nat (length vs) <= o + kMetaSegmentSize ->
  disk (AppendInteger m a vs) o' = disk m o'.
Proof.
  intros Ho Ho' Hne Ha Hn. apply ReadInteger_same, AppendInteger_same.
  pose proof (seg_apart _ _ _ _ Ho Ho' Hne). lst_lia.
Qed.

(** A memory with the same data in all segments. *)
Definition same_data (m m' : Mem) : Prop :=
  forall o, (exists k, is_seg k o) -> same_on m m' (GetFirstChunkPtr o) (GetValidateHashPtr o).

Lemma seg_off_seg j : 0 <= j -> is_seg (j + 1) (seg_off j).
Proof. intros Hj. exists j. split; [lia|done]. Qed.

(** The data part of a layout: all data and all last hashes stay. *)
Lemma layout_data m m' majors frees alloc :
  0 <= alloc -> layout m majors frees alloc -> Forall log_entry_ok (majors ≫= snd) ->
  (forall o, is_seg alloc o -> same_on m m' (GetFirstChunkPtr o) (o + kSegmentSize)) ->
  (forall j, alloc <= j -> same_on m m' (GetFirstChunkPtr (seg_off j)) (GetValidateHashPtr (seg_off j))) ->
  (forall ms sg, majors = ms ++ [sg] ->
     Forall (fun sg => seg_closed m' (fst sg) (snd sg)) ms /\ seg_open m' (fst sg) (snd sg)) /\
  Forall (fun o => seg_open m' o []) frees /\ (forall j, alloc <= j -> seg_open m' (seg_off j) []).
Proof.
  intros Ha [Hsegs _ _ _ Hcl Hun Hfr] Hok Hs Hs'. split_and!.
  - intros ms sg ->. destruct (Hcl ms sg eq_refl) as [Hc Ho].
    rewrite fmap_app, <- app_assoc in Hsegs. apply Forall_app in Hsegs as [Hms Hsg].
    apply Forall_cons in Hsg as [Hsg _]. rewrite bind_app in Hok. apply Forall_app in Hok as [Hok _]. split.
    + rewrite Forall_forall in Hms. rewrite Forall_forall in Hok. rewrite Forall_forall in Hc |- *. intros x Hx. apply (seg_closed_same m).
      * apply Forall_forall. intros e He. apply Hok. apply list_elem_of_bind. eauto.
      * apply Hs. apply Hms. by apply list_elem_of_fmap_2.
      * by apply Hc.
    + apply (seg_open_same m); [|done]. eapply same_on_sub; [by apply Hs|lst_lia..].
  - apply Forall_app in Hsegs as [_ Hsegs]. rewrite Forall_forall in Hun, Hsegs |- *. intros o Ho.
    apply (seg_open_same m); [|by apply Hun]. eapply same_on_sub; [by apply Hs, Hsegs|lst_lia..].
  - intros j Hj. apply (seg_open_same m); [by apply Hs'|by apply Hfr].
Qed.

(** *** [Enlarge] *)

Lemma enlarge_loop_rep n alloc lf : 0 <= alloc -> alloc + n <= 2 ^ 30 -> forall todo m i,
  i = n - Z.of_nat todo -> 0 <= i ->
  let m' := enlarge_loop todo m i n alloc lf (seg_off (alloc + i)) in
  (forall x, (forall j, i <= j < n -> x < seg_off (alloc + j) \/ seg_off (alloc + j) + kMetaSegmentSize <= x) ->
     m' x = m x) /\
  (forall j, i <= j < n -> disk m' (seg_off (alloc + j)) = if j <? n - 1 then seg_off (alloc + j + 1) else 0).
Proof.
  intros Hal Hb. induction todo as [|todo IH]; intros m i Hi Hi0 m'; subst m'; cbn [enlarge_loop].
  - split; [done|]. intros j Hj. lia.
  - rewrite (i32_small (i + alloc)) by lia.
    set (vs := [_; _]). set (m1 := AppendInteger m (seg_off (alloc + i)) vs).
    replace (seg_off (alloc + i) + kSegmentSize) with (seg_off (alloc + (i + 1))) by (unfold seg_off; lst_lia).
    destruct (IH m1 (i + 1)) as [H1 H2]; [lia|lia|]. split.
    + intros x Hx. rewrite H1 by (intros j Hj; apply Hx; lia).
      apply (AppendInteger_same m (seg_off (alloc + i)) vs x (x + 1)); [|lia].
      specialize (Hx i ltac:(lia)). cbn [length vs]. lst_lia.
    + intros j Hj. destruct (decide (j = i)) as [->|Hne]; [|apply H2; lia].
      assert (Hd : disk m1 (seg_off (alloc + i)) = if i <? n - 1 then seg_off (alloc + i + 1) else 0).
      { unfold disk, m1, vs. apply (ReadInteger_append m (seg_off (alloc + i)) _ 1).
        - cbn. f_equal. destruct (i <? n - 1); [|done]. rewrite (wrap_small 64) by (unfold seg_off; lst_lia).
          unfold seg_off. lst_lia.
        - destruct (i <? n - 1); unfold seg_off; lst_lia. }
      rewrite <- Hd. apply ReadInteger_same. intros x Hx. apply H1. intros j Hj'. left.
      unfold seg_off in *. lst_lia.
Qed.

Lemma chain_seq f n : forall a, 0 <= n ->
  (forall j, 0 <= j < n -> f (seg_off (a + j)) = if j <? n - 1 then seg_off (a + j + 1) else 0) ->
  chain f (seg_off <$> seqZ a n).
Proof.
  intros a Hn. revert a. pattern n. apply natlike_ind; [done| |done]. clear n Hn.
  intros n Hn IH a Hf. rewrite seqZ_cons by lia. rewrite fmap_cons. cbn [chain]. split.
  - specialize (Hf 0 ltac:(lia)). rewrite Z.add_0_r in Hf. rewrite Hf.
    destruct (Z.ltb_spec 0 (Z.succ n - 1)) as [Hlt|Hge].
    + rewrite Z.pred_succ, seqZ_cons by lia. cbn. by rewrite Z.add_1_r.
    + replace n with 0 by lia. done.
  - rewrite Z.pred_succ. apply IH. intros j Hj. specialize (Hf (j + 1) ltac:(lia)).
    replace (Z.succ a + j) with (a + (j + 1)) by lia. rewrite Hf.
    destruct (Z.ltb_spec (j + 1) (Z.succ n - 1)), (Z.ltb_spec j (n - 1)); try lia; f_equal; lia.
Qed.

Lemma elem_of_pend alloc o : 0 <= alloc <= max_segments_ -> o ∈ pend_of alloc ->
  exists j, alloc <= j < alloc + enlarge_segments max_segments_ alloc /\ o = seg_off j.
Proof.
  intros Ha (j & -> & Hj)%list_elem_of_fmap. apply elem_of_seqZ in Hj. eauto.
Qed.

Lemma length_pend alloc : 0 <= alloc <= max_segments_ ->
  Z.of_nat (length (pend_of alloc)) = enlarge_segments max_segments_ alloc.
Proof.
  intros Ha. destruct (enlarge_segments_spec alloc Ha) as (? & _). unfold pend_of.
  rewrite length_fmap, length_seqZ. lia.
Qed.

Lemma seg_off_inj : Inj eq eq seg_off.
Proof. intros x y. unfold seg_off. lst_lia. Qed.

Lemma NoDup_pend alloc : NoDup (pend_of alloc).
Proof. apply NoDup_fmap_2; [apply seg_off_inj|apply NoDup_seqZ]. Qed.

Lemma Enlarge_rep s majors frees :
  lst_inv s majors frees -> thread_status_ s <> kCompleted ->
  exists s', Enlarge max_segments_ s = Some s' /\ lst_inv s' majors frees /\ thread_status_ s' = kCompleted.
Proof.
  intros Hi Hst. pose proof (iv_range _ _ _ Hi) as Har. destruct (enlarge_segments_spec _ Har) as (Hn0 & Hn1 & Hn2).
  unfold Enlarge. set (alloc := allocSegments (storeInfo s)) in *.
  set (n := enlarge_segments max_segments_ alloc) in *.
  destruct (Z.leb_spec n 0) as [Hle|Hgt].
  - eexists. split; [reflexivity|]. split; [|done]. destruct Hi. constructor; try done. intros _.
    assert (En : n = 0) by lia.
    assert (Ep : pend_of alloc = []) by (unfold pend_of; fold n; by rewrite En).
    constructor; cbn; fold alloc; rewrite ?Ep; try done; fold n; rewrite En; cbn; done.
  - fold (seg_off alloc). set (m := enlarge_loop _ _ _ _ _ _ _).
    destruct (enlarge_loop_rep n alloc (last_free_segment_ s) ltac:(lia) ltac:(lia) (Z.to_nat n) (mem s) 0)
      as [M1 M2]; [lia|lia|]. rewrite Z.add_0_r in M1, M2. fold m in M1, M2.
    set (a1 := seg_off alloc + n * kSegmentSize - 1). set (m' := mem_write m a1 [x01]).
    assert (Hold : forall x, x < seg_off alloc -> m' x = mem s x).
    { intros x Hx. unfold m'. rewrite (mem_write_same m a1 [x01] x (x + 1)) by (unfold a1; cbn [length]; lst_lia).
      apply M1. intros j Hj. left. unfold seg_off in *. lst_lia. }
    assert (Hnew : forall j, alloc <= j ->
      same_on (mem s) m' (GetFirstChunkPtr (seg_off j)) (GetValidateHashPtr (seg_off j))).
    { intros j Hj x Hx. unfold m'. rewrite (mem_write_same m a1 [x01] x (x + 1)) by
        (unfold a1, seg_off in *; cbn [length]; lst_lia).
      apply M1. intros j' Hj'. unfold seg_off in *. lst_lia. }
    assert (Hdisk : chain (disk m') (pend_of alloc)).
    { unfold pend_of. fold n. apply chain_seq; [lia|]. intros j Hj. rewrite <- (M2 j Hj). unfold disk. apply ReadInteger_same.
      apply mem_write_same. unfold a1, seg_off in *. cbn [length]. lst_lia. }
    assert (Hpn : forall o, o ∈ pend_of alloc -> o <> 0).
    { intros o (j & Hj & ->)%elem_of_pend; [|done]. unfold seg_off. lst_lia. }
    assert (Hhd : hd0 (pend_of alloc) = seg_off alloc).
    { unfold pend_of. fold n. rewrite seqZ_cons by lia. done. }
    assert (Hlen : Z.of_nat (length (pend_of alloc)) = n) by (by apply length_pend).
    destruct (LinkSegmentList_rep m' (pend_of alloc) (link_steps max_segments_) 0 0 (next_ s)) as (next' & E & Hc & Hfr);
      [done|by apply Forall_forall|apply NoDup_pend|unfold link_steps; lia|lia|lia|].
    rewrite Hhd in E. rewrite E. osimpl. rewrite Hlen, Z.add_0_l, Z.eqb_refl. osimpl.
    eexists. split; [reflexivity|]. split; [|done].
    pose proof Hi as [I1 I2 I3 I4 I5 I6 I7 I8 I9 I10 I11 I12 I13 I14 I15 I16 I17].
    pose proof (ly_segs _ _ _ _ I5) as Hsegs. apply Forall_app in Hsegs as [Hsm Hsf].
    rewrite Forall_forall in Hsm, Hsf. fold alloc in Hsm, Hsf.
    assert (Hsep : forall o, is_seg alloc o -> o ∉ pend_of alloc).
    { intros o Ho (j & Hj & ->)%elem_of_pend; [|done]. apply is_seg_bound in Ho. unfold seg_off in Ho. lst_lia. }
    assert (Hseg : forall o, is_seg alloc o -> same_on (mem s) m' o (o + kSegmentSize)).
    { intros o (j & Hj & ->) x Hx. apply Hold. unfold seg_off in *. lst_lia. }
    assert (Hdk : forall o, is_seg alloc o -> disk (mem s) o = disk m' o).
    { intros o Ho. symmetry. apply ReadInteger_same. eapply same_on_sub; [by apply Hseg|lst_lia..]. }
    constructor; cbn [mem next_ chunk_map_ free_list_ major_list_ current_major_segment_ last_free_segment_
      major_segment_offset_ storeInfo sync_block_ thread_status_]; try done.
    + destruct (layout_data (mem s) m' majors frees alloc) as (L1 & L2 & L3); [lia|done|done| |done|].
      { intros o Ho. eapply same_on_sub; [by apply Hseg|lst_lia..]. }
      destruct I5 as [J1 J2 J3 J4 J5 J6 J7]. constructor; try done.
      * apply (chain_ext (disk (mem s))); [|done]. intros x Hx. apply Hdk. by apply Hsm.
      * apply (chain_ext (disk (mem s))); [|done]. intros x Hx. apply Hdk. by apply Hsf.
    + apply (chain_ext (next_ s)); [|done]. intros x Hx. symmetry. apply Hfr, Hsep. by apply Hsm.
    + apply (chain_ext (next_ s)); [|done]. intros x Hx. symmetry. apply Hfr, Hsep. by apply Hsf.
    + destruct I12 as [<- <-]. split; apply ReadInteger_same; intros x Hx; apply Hold; unfold seg_off; lst_lia.
    + intros _. constructor; cbn; fold alloc.
      * fold n. rewrite i32_small by lia. done.
      * intros _. by rewrite Hhd.
      * intros _. done.
      * done.
      * done.
Qed.

(** *** [UpdateStore] *)

Lemma hd0_segs alloc l : Forall (is_seg alloc) l -> hd0 l = 0 -> l = [].
Proof.
  intros Hl E. destruct l as [|x l]; [done|]. apply Forall_cons in Hl as [Hx _].
  apply is_seg_pos in Hx. cbn in E. lst_lia.
Qed.

Lemma pend_segs alloc : 0 <= alloc <= max_segments_ ->
  Forall (is_seg (alloc + enlarge_segments max_segments_ alloc)) (pend_of alloc).
Proof.
  intros Ha. apply Forall_forall. intros o (j & Hj & ->)%elem_of_pend; [|done]. exists j. split; [lia|done].
Qed.

Lemma pend_new alloc o : 0 <= alloc <= max_segments_ -> is_seg alloc o -> o ∉ pend_of alloc.
Proof.
  intros Ha Ho (j & Hj & ->)%elem_of_pend; [|done]. apply is_seg_bound in Ho. unfold seg_off in Ho. lst_lia.
Qed.

(** The segments that were appended become free segments of a layout. *)
Lemma layout_pend m m' majors frees alloc : 0 <= alloc <= max_segments_ ->
  layout m majors frees alloc -> chain (disk m') majors.*1 -> chain (disk m') (frees ++ pend_of alloc) ->
  (forall ms sg, majors = ms ++ [sg] ->
     Forall (fun sg => seg_closed m' (fst sg) (snd sg)) ms /\ seg_open m' (fst sg) (snd sg)) ->
  Forall (fun o => seg_open m' o []) frees -> (forall j, alloc <= j -> seg_open m' (seg_off j) []) ->
  layout m' majors (frees ++ pend_of alloc) (alloc + enlarge_segments max_segments_ alloc).
Proof.
  intros Ha [J1 J2 _ _ _ _ _] Hm Hc Hcl Hun J7. destruct (enlarge_segments_spec alloc Ha) as (? & _).
  constructor; try done.
  - rewrite app_assoc. apply Forall_app. split; [|by apply pend_segs].
    eapply Forall_impl; [exact J1|]. intros o Ho. eapply is_seg_le; [done|lia].
  - rewrite app_assoc. apply NoDup_app. split_and!; [done| |apply NoDup_pend].
    intros o Ho. apply pend_new; [done|]. by rewrite Forall_forall in J1; apply J1.
  - apply Forall_app. split; [done|]. apply Forall_forall. intros o (j & Hj & ->)%elem_of_pend; [|done].
    apply J7. lia.
  - intros j Hj. apply J7. lia.
Qed.

Lemma last0_app l l' : l' <> [] -> last0 (l ++ l') = last0 l'.
Proof.
  intros Hne. unfold last0. rewrite last_app. destruct (last l') eqn:E; [done|]. by apply last_None in E.
Qed.

Lemma UpdateStore_rep s majors frees :
  lst_inv s majors frees -> thread_status_ s = kCompleted ->
  lst_inv (UpdateStore s) majors (frees ++ pend_of (allocSegments (storeInfo s))) /\
  thread_status_ (UpdateStore s) = kUnscheduled.
Proof.
  intros Hi Hst. pose proof (iv_range _ _ _ Hi) as Har.
  pose proof Hi as [I1 I2 I3 I4 I5 I6 I7 I8 I9 I10 I11 I12 I13 I14 I15 I16 I17].
  destruct (I17 Hst) as [P1 P2 P3 P4 P5]. destruct (enlarge_segments_spec _ Har) as (Hn0 & Hn1 & _).
  pose proof (length_pend _ Har) as Hlen. unfold UpdateStore. rewrite <- P1 in *.
  set (alloc := allocSegments (storeInfo s)) in *. set (sb := sync_block_ s) in *.
  destruct (Z.ltb_spec 0 (sb_segments sb)) as [Hpos|Hzero].
  2:{ assert (Ep : pend_of alloc = []) by (apply length_zero_iff_nil; lia). rewrite Ep, app_nil_r.
      split; [|done]. constructor; try done. }
  specialize (P2 Hpos). specialize (P3 Hpos). rewrite !(wrap_small 64) by lia.
  assert (Hpne : pend_of alloc <> []) by (intros E; rewrite E in Hlen; cbn in Hlen; lia).
  pose proof (pend_segs alloc Har) as Hps. rewrite <- P1 in Hps.
  assert (Hhd : is_seg (alloc + sb_segments sb) (hd0 (pend_of alloc))).
  { destruct (pend_of alloc) as [|p ps]; [done|]. by apply Forall_cons in Hps as [? _]. }
  assert (Hrange : 0 <= hd0 (pend_of alloc) < 2 ^ 64).
  { destruct Hhd as (j & Hj & ->). unfold seg_off. lst_lia. }
  pose proof (ly_segs _ _ _ _ I5) as Hsegs. apply Forall_app in Hsegs as [Hsm Hsf]. fold alloc in Hsm, Hsf.
  destruct (Z.eqb_spec (free_list_ s) 0) as [Hf|Hf].
  - assert (Ef : frees = []) by (rewrite I6 in Hf; by apply (hd0_segs alloc)). subst frees. cbn [app].
    split; [|done]. rewrite P2. set (m' := AppendInteger (mem s) 0 [hd0 (pend_of alloc)]).
    assert (Hsame : forall k o, is_seg k o -> same_on (mem s) m' o (o + kSegmentSize)).
    { intros k o Ho. apply (meta_write _ _ k); [cbn; lia|done]. }
    assert (Hdk : forall k o, is_seg k o -> disk (mem s) o = disk m' o).
    { intros k o Ho. symmetry. apply ReadInteger_same. eapply same_on_sub; [by apply (Hsame k)|lst_lia..]. }
    destruct (layout_data (mem s) m' majors [] alloc) as (L1 & L2 & L3); [lia|done|done| | |].
    { intros o Ho. eapply same_on_sub; [by apply (Hsame alloc)|lst_lia..]. }
    { intros j Hj. eapply same_on_sub; [apply (Hsame (j + 1)), seg_off_seg; lia|lst_lia..]. }
    constructor; cbn [mem next_ chunk_map_ free_list_ major_list_ current_major_segment_ last_free_segment_
      major_segment_offset_ storeInfo sync_block_ thread_status_ allocSegments freeSegments usedSegments set_segments];
      try done.
    + cbn [length] in I1. lia.
    + cbn [length] in I3. lia.
    + rewrite P1. apply (layout_pend (mem s) m' majors [] alloc Har I5); try done.
      * apply (chain_ext (disk (mem s))); [|apply (ly_majors _ _ _ _ I5)]. intros x Hx. apply (Hdk alloc).
        by rewrite Forall_forall in Hsm; apply Hsm.
      * cbn [app]. apply (chain_ext (disk (mem s))); [|done]. intros x Hx.
        apply (Hdk (alloc + sb_segments sb)). by rewrite Forall_forall in Hps; apply Hps.
    + split; [by apply ReadInteger_first|].
      rewrite <- (proj2 I12). apply ReadInteger_same, AppendInteger_same. cbn [length]. lia.
  - assert (Hne : frees <> []) by (intros ->; by rewrite I6 in Hf).
    destruct (exists_last Hne) as (fr & lf & Efr). 
    assert (Elf : last_free_segment_ s = lf) by (rewrite (I7 Hne), Efr; unfold last0; by rewrite last_snoc).
    split; [|done]. rewrite P2, Elf. set (m' := AppendInteger (mem s) (lf + 8) [hd0 (pend_of alloc)]).
    assert (Hlf : is_seg alloc lf).
    { rewrite Forall_forall in Hsf. apply Hsf. rewrite Efr. apply elem_of_app. right. by left. }
    assert (Hsame : forall k o, is_seg k o -> same_on (mem s) m' (GetFirstChunkPtr o) (o + kSegmentSize)).
    { intros k o Ho. apply (header_write _ _ _ k); [|done]. exists alloc, lf. cbn [length]. split_and!; [done|lst_lia..]. }
    assert (Hdk : forall k o, is_seg k o -> o <> lf -> disk (mem s) o = disk m' o).
    { intros k o Ho Hol. symmetry. apply (header_write_disk _ _ _ (Z.max alloc k) lf);
        [eapply is_seg_le; [done|lia]..|done|lia|cbn [length]; lst_lia]. }
    assert (Hdlf : disk m' lf = hd0 (pend_of alloc)) by (by apply ReadInteger_first).
    destruct (layout_data (mem s) m' majors frees alloc) as (L1 & L2 & L3); [lia|done|done| | |].
    { intros o Ho. by apply (Hsame alloc). }
    { intros j Hj. eapply same_on_sub; [apply (Hsame (j + 1)), seg_off_seg; lia|lst_lia..]. }
    pose proof (ly_nodup _ _ _ _ I5) as Hnd. apply NoDup_app in Hnd as (_ & Hdisj & Hndf).
    assert (Hpd : forall y, y ∈ pend_of alloc -> y ∉ fr ++ [lf]).
    { intros y Hy Hin. rewrite <- Efr in Hin. apply (pend_new alloc y Har); [|done].
      rewrite Forall_forall in Hsf. by apply Hsf. }
    assert (Hchain : forall f g, chain f frees -> chain f (pend_of alloc) ->
      (forall x, x ∈ frees ++ pend_of alloc -> x <> lf -> f x = g x) -> g lf = hd0 (pend_of alloc) ->
      chain g (frees ++ pend_of alloc)).
    { intros f g Hc1 Hc2 Hfg Hg. rewrite Efr in *. pose proof (chain_app f fr _ lf Hndf Hpd Hc1 Hc2) as Hc.
      eapply chain_ext; [|exact Hc]. intros x Hx. unfold upd_at. destruct (Z.eqb_spec x lf) as [->|Hxl]; [done|by apply Hfg]. }
    constructor; cbn [mem next_ chunk_map_ free_list_ major_list_ current_major_segment_ last_free_segment_
      major_segment_offset_ storeInfo sync_block_ thread_status_ allocSegments freeSegments usedSegments set_segments];
      try done.
    + rewrite length_app. lia.
    + rewrite length_app. lia.
    + rewrite P1. apply (layout_pend (mem s) m' majors frees alloc Har I5); try done.
      * apply (chain_ext (disk (mem s))); [|apply (ly_majors _ _ _ _ I5)]. intros x Hx. apply (Hdk alloc).
        -- by rewrite Forall_forall in Hsm; apply Hsm.
        -- intros ->. apply (Hdisj lf Hx). rewrite Efr. apply elem_of_app. right. by left.
      * apply (Hchain (disk (mem s))); [apply (ly_frees _ _ _ _ I5)|done| |done].
        intros x Hx Hxl. apply (Hdk (alloc + sb_segments sb)); [|done]. apply elem_of_app in Hx as [Hx|Hx].
        -- rewrite Forall_forall in Hsf. eapply is_seg_le; [by apply Hsf|lia].
        -- by rewrite Forall_forall in Hps; apply Hps.
    + by rewrite hd0_app.
    + intros _. by rewrite last0_app, P3.
    + apply (chain_ext (next_ s)); [|done]. intros x Hx. unfold upd_at. destruct (Z.eqb_spec x lf) as [->|]; [|done].
      destruct (Hdisj lf Hx). rewrite Efr. apply elem_of_app. right. by left.
    + apply (Hchain (next_ s)); [done|done| |unfold upd_at; by rewrite Z.eqb_refl].
      intros x _ Hxl. unfold upd_at. by rewrite (proj2 (Z.eqb_neq _ _) Hxl).
    + destruct I12 as [<- <-]. apply is_seg_pos in Hlf.
      split; apply ReadInteger_same, AppendInteger_same; cbn [length]; lst_lia.
Qed.

(** *** Allocation *)

Lemma set_status_inv s majors frees : lst_inv s majors frees -> lst_inv (set_status s kScheduled) majors frees.
Proof. intros []. by constructor. Qed.

(** A free segment is found unless the file has its maximal size and no segment
    is free. *)
Lemma allocate_ready s majors frees :
  lst_inv s majors frees -> usedSegments (storeInfo s) < max_segments_ ->
  exists s1 f fs, allocate_wait max_segments_ (allocate_schedule s) = Some s1 /\ lst_inv s1 majors (f :: fs).
Proof.
  intros Hi Hu.
  assert (Hnil : forall s' l, lst_inv s' majors l -> free_list_ s' = 0 <-> l = []).
  { intros s' l Hi'. rewrite (iv_free_list _ _ _ Hi'). split; [|by intros ->].
    pose proof (ly_segs _ _ _ _ (iv_layout _ _ _ Hi')) as Hsegs. apply Forall_app in Hsegs as [_ Hsf].
    by apply (hd0_segs _ _ Hsf). }
  assert (Hdone : forall s' f fs, lst_inv s' majors (f :: fs) -> allocate_wait max_segments_ s' = Some s').
  { intros s' f fs Hi'. unfold allocate_wait. destruct (Z.eqb_spec (free_list_ s') 0) as [E|E]; [|done].
    by apply (Hnil _ _ Hi') in E. }
  assert (Hpend : forall s', lst_inv s' majors [] -> pend_of (allocSegments (storeInfo s')) <> []).
  { intros s' Hi' E. pose proof (iv_range _ _ _ Hi') as Har. pose proof (length_pend _ Har) as Hl. rewrite E in Hl.
    destruct (enlarge_segments_spec _ Har) as (_ & _ & Hpos). cbn in Hl.
    pose proof (iv_alloc _ _ _ Hi') as Hal. cbn [length] in Hal. pose proof (iv_used _ _ _ Hi). lia. }
  destruct frees as [|f fs].
  - unfold allocate_schedule. rewrite (iv_free _ _ _ Hi). cbn [length]. rewrite (proj2 (Z.ltb_lt _ _)) by lst_lia.
    assert (Hwait : forall s', lst_inv s' majors [] -> thread_status_ s' = kScheduled ->
      exists s1 f fs, allocate_wait max_segments_ s' = Some s1 /\ lst_inv s1 majors (f :: fs)).
    { intros s' Hi' Hs'. destruct (Enlarge_rep s' majors [] Hi') as (s2 & E & Hi2 & Hs2); [by rewrite Hs'|].
      destruct (UpdateStore_rep s2 majors [] Hi2 Hs2) as [Hi3 _]. cbn [app] in Hi3.
      pose proof (Hpend s2 Hi2) as Hne. destruct (pend_of _) as [|p ps] eqn:Ep; [done|].
      unfold allocate_wait. rewrite (proj2 (Z.eqb_eq _ _)) by (by apply (Hnil s' [])).
      rewrite decide_True, E by done. osimpl. rewrite decide_True by done.
      rewrite (proj2 (Z.eqb_neq _ _)) by (by rewrite (Hnil _ _ Hi3)). osimpl. eauto. }
    destruct (thread_status_ s) eqn:Es.
    + apply Hwait; [by apply set_status_inv|done].
    + by apply Hwait.
    + destruct (UpdateStore_rep s majors [] Hi Es) as [Hi3 _]. cbn [app] in Hi3.
      pose proof (Hpend s Hi) as Hne. destruct (pend_of _) as [|p ps] eqn:Ep; [done|].
      exists (UpdateStore s), p, ps. split; [by eapply Hdone|done].
  - unfold allocate_schedule. destruct (_ <? _).
    2:{ exists s, f, fs. split; [by eapply Hdone|done]. }
    destruct (thread_status_ s) eqn:Es.
    + pose proof (set_status_inv _ _ _ Hi) as Hi'. exists (set_status s kScheduled), f, fs. split; [by eapply Hdone|done].
    + exists s, f, fs. split; [by eapply Hdone|done].
    + destruct (UpdateStore_rep s majors (f :: fs) Hi Es) as [Hi3 _]. cbn [app] in Hi3.
      eexists _, f, _. split; [by eapply Hdone|exact Hi3].
Qed.

(** The memory after an allocation. *)
Definition alloc_mem (m : Mem) (cur f : Z) (vs : list Z) : Mem :=
  let m1 :=
    if cur =? 0 then m
    else
      let first_chunk := GetFirstChunkPtr cur in
      let first_hash := first_chunk + PtrToChunkLength m first_chunk in
      AppendInteger (mem_write m (GetValidateHashPtr cur) (hash_at m first_hash)) (cur + 8) [f] in
  AppendInteger (AppendInteger m1 f [cur; 0]) 0 vs.

Lemma alloc_mem_spec m alloc cur f vs :
  cur = 0 \/ is_seg alloc cur -> is_seg alloc f -> cur <> f -> seg_off alloc < 2 ^ 64 -> (length vs <= 3)%nat ->
  let m' := alloc_mem m cur f vs in
  (forall k o, is_seg k o -> o <> cur -> same_on m m' (GetFirstChunkPtr o) (o + kSegmentSize)) /\
  (forall k o, is_seg k o -> o <> cur -> o <> f -> disk m' o = disk m o) /\
  disk m' f = 0 /\
  (cur <> 0 -> same_on m m' (GetFirstChunkPtr cur) (GetValidateHashPtr cur) /\ disk m' cur = f /\
     holds m' (GetValidateHashPtr cur) (hash_at m (GetFirstChunkPtr cur + PtrToChunkLength m (GetFirstChunkPtr cur)))).
Proof.
  intros Hcur Hf Hne Hb Hvs m'. unfold m', alloc_mem. clear m'.
  pose proof (is_seg_pos _ _ Hf) as Hf0. pose proof (is_seg_bound _ _ Hf) as Hf1.
  assert (Hmeta : forall mm a b, kMetaLogSize <= a -> same_on mm (AppendInteger mm 0 vs) a b).
  { intros mm a b Ha. apply AppendInteger_same. lst_lia. }
  assert (Hfirst : forall mm k o, is_seg k o -> same_on mm (AppendInteger mm f [cur; 0]) (GetFirstChunkPtr o) (o + kSegmentSize)).
  { intros mm k o Ho. apply (header_write _ _ _ k); [|done]. exists alloc, f. cbn [length]. split_and!; [done|lst_lia..]. }
  assert (Hdf : forall mm k o, is_seg k o -> o <> f -> disk (AppendInteger mm f [cur; 0]) o = disk mm o).
  { intros mm k o Ho Hof. apply (header_write_disk _ _ _ (Z.max alloc k) f); [eapply is_seg_le; [done|lia]..|done|lia|].
    cbn [length]. lst_lia. }
  assert (Hdm : forall mm k o, is_seg k o -> disk (AppendInteger mm 0 vs) o = disk mm o).
  { intros mm k o Ho. apply ReadInteger_same. apply Hmeta. apply is_seg_pos in Ho. lia. }
  assert (Hlast : forall mm, disk (AppendInteger (AppendInteger mm f [cur; 0]) 0 vs) f = 0).
  { intros mm. rewrite (Hdm _ _ _ Hf). unfold disk. by apply (ReadInteger_append mm f [cur; 0] 1). }
  destruct (Z.eqb_spec cur 0) as [E0|E0].
  - split_and!; [|intros k o Ho _ Hof; by rewrite (Hdm _ k), (Hdf _ k)|apply Hlast|done].
    intros k o Ho _. pose proof (is_seg_pos _ _ Ho). eapply same_on_trans; [by apply (Hfirst _ k)|apply Hmeta; lst_lia].
  - destruct Hcur as [?|Hcur]; [done|]. set (h := hash_at m _). set (m0 := mem_write m (GetValidateHashPtr cur) h).
    assert (Hh : length h = kByteLength) by apply length_mem_read.
    pose proof (is_seg_pos _ _ Hcur) as Hc0.
    assert (Hnx : forall k o, is_seg k o -> same_on m0 (AppendInteger m0 (cur + 8) [f]) (GetFirstChunkPtr o) (o + kSegmentSize)).
    { intros k o Ho. apply (header_write _ _ _ k); [|done]. exists alloc, cur. cbn [length]. split_and!; [done|lst_lia..]. }
    set (m1 := AppendInteger m0 (cur + 8) [f]) in *.
    assert (Hall : forall k o, is_seg k o ->
      same_on m0 (AppendInteger (AppendInteger m1 f [cur; 0]) 0 vs) (GetFirstChunkPtr o) (o + kSegmentSize)).
    { intros k o Ho. pose proof (is_seg_pos _ _ Ho). eapply same_on_trans; [by apply (Hnx k)|].
      eapply same_on_trans; [by apply (Hfirst _ k)|apply Hmeta; lst_lia]. }
    split_and!.
    + intros k o Ho Hoc. eapply same_on_trans; [|by apply (Hall k)]. apply mem_write_same.
      pose proof (seg_apart _ _ _ _ Ho Hcur Hoc). rewrite Hh. lst_lia.
    + intros k o Ho Hoc Hof. rewrite (Hdm _ k), (Hdf _ k) by done. unfold m1.
      rewrite (header_write_disk _ _ _ (Z.max alloc k) cur); try done; [|eapply is_seg_le; [done|lia]..|lia|cbn [length]; lst_lia].
      apply ReadInteger_same, mem_write_same. pose proof (seg_apart _ _ _ _ Ho Hcur Hoc). rewrite Hh. lst_lia.
    + apply Hlast.
    + intros _. split_and!.
      * eapply same_on_trans; [|eapply same_on_sub; [by apply (Hall alloc cur)|lst_lia..]].
        apply mem_write_same. lst_lia.
      * rewrite (Hdm _ alloc), (Hdf _ alloc) by done. unfold m1, disk. apply ReadInteger_first. lst_lia.
      * apply (holds_same m0); [|apply holds_write]. eapply same_on_sub; [by apply (Hall alloc cur)|rewrite ?Hh; lst_lia..].
Qed.

Definition nonempty (majors : list (Z * list LogEntry)) : Prop := Forall (fun sg => snd sg <> []) majors.

Lemma last0_snoc ms (sg : Z * list LogEntry) : last0 (ms ++ [sg]).*1 = fst sg.
Proof. unfold last0. rewrite fmap_app. cbn [fmap list_fmap]. by rewrite last_snoc. Qed.

Lemma majors_cases (majors : list (Z * list LogEntry)) : majors = [] \/ exists ms sg, majors = ms ++ [sg].
Proof.
  destruct (decide (majors = [])) as [->|Hm]; [by left|right]. destruct (exists_last Hm) as (ms & sg & ->). eauto.
Qed.

(** Appending a segment to a list. *)
Lemma chain_snoc f g (l : list Z) x :
  NoDup l -> x ∉ l -> chain f l -> g x = 0 -> (forall y, last l = Some y -> g y = x) ->
  (forall y, y ∈ l -> last l <> Some y -> g y = f y) -> chain g (l ++ [x]).
Proof.
  intros Hnd Hx Hc Hgx Hgl Hg. destruct (decide (l = [])) as [->|Hne]; [done|].
  destruct (exists_last Hne) as (l0 & y & ->). rewrite last_snoc in Hgl, Hg. specialize (Hgl y eq_refl).
  apply (chain_ext (upd_at (upd_at f x 0) y (hd0 [x]))).
  - intros z Hz. unfold upd_at. destruct (Z.eqb_spec z y) as [->|Hzy]; [done|].
    destruct (Z.eqb_spec z x) as [->|Hzx]; [done|]. apply elem_of_app in Hz as [Hz|Hz%list_elem_of_singleton]; [|done].
    symmetry. apply Hg; [done|congruence].
  - apply chain_app; [done| | |].
    + by intros z ->%list_elem_of_singleton.
    + apply (chain_ext f); [|done]. intros z Hz. unfold upd_at. destruct (Z.eqb_spec z x) as [->|]; [done|done].
    + split; [|done]. unfold upd_at. by rewrite Z.eqb_refl.
Qed.

(** The state of the lists after an allocation. *)
Lemma alloc_layout m majors f fs alloc vs :
  layout m majors (f :: fs) alloc -> Forall log_entry_ok (majors ≫= snd) -> nonempty majors ->
  0 <= alloc <= max_segments_ -> (length vs <= 3)%nat ->
  layout (alloc_mem m (last0 majors.*1) f vs) (majors ++ [(f, [])]) fs alloc.
Proof.
  intros [J1 J2 J3 J4 J5 J6 J7] Hok Hne Ha Hvs. set (cur := last0 majors.*1).
  pose proof J1 as Hsegs. apply Forall_app in Hsegs as [Hsm Hsf]. apply Forall_cons in Hsf as [Hf Hsf].
  pose proof J2 as Hnd. apply NoDup_app in Hnd as (Hndm & Hdisj & Hndf). apply NoDup_cons in Hndf as [Hff Hndf].
  apply Forall_cons in J6 as [J6f J6]. destruct J4 as [J4f J4].
  assert (Hcur : cur = 0 /\ majors = [] \/ is_seg alloc cur /\ last majors.*1 = Some cur).
  { destruct (majors_cases majors) as [->|(ms & sg & ->)]; [by left|right]. unfold cur. rewrite last0_snoc.
    rewrite fmap_app in Hsm |- *. cbn [fmap list_fmap] in *. rewrite last_snoc. split; [|done].
    by apply Forall_app in Hsm as [_ [Hs _]%Forall_cons]. }
  assert (Hin : last majors.*1 = Some cur -> cur ∈ majors.*1).
  { intros (l & ->)%last_Some. apply elem_of_app. right. by left. }
  assert (Hcf : cur <> f).
  { destruct Hcur as [[-> _]|[_ Hl]]; [apply is_seg_pos in Hf; lst_lia|]. intros <-. apply (Hdisj cur); [tauto|by left]. }
  destruct (alloc_mem_spec m alloc cur f vs) as (A & D & Df & C); [tauto|done|done|unfold seg_off; lst_lia|done|].
  set (m' := alloc_mem m cur f vs) in *.
  assert (Hcfs : forall k o, is_seg k o -> o ∉ majors.*1 -> o <> cur).
  { intros k o Ho Hno ->. destruct Hcur as [[E _]|[_ Hl]]; [|tauto]. apply is_seg_pos in Ho. lst_lia. }
  rewrite Forall_forall in Hsf.
  assert (Hfs : forall o, o ∈ fs -> o <> cur /\ o <> f).
  { intros o Ho. split; [|by intros ->]. apply (Hcfs alloc); [by apply Hsf|]. intros Hi. apply (Hdisj o Hi). by right. }
  assert (Hsm' : forall o, o ∈ majors.*1 -> is_seg alloc o) by (by apply Forall_forall).
  constructor.
  - by rewrite fmap_app, <- app_assoc.
  - by rewrite fmap_app, <- app_assoc.
  - rewrite fmap_app. apply (chain_snoc (disk m)); [done| |done|done| |].
    + intros Hi. apply (Hdisj f Hi). by left.
    + intros y Hy. destruct Hcur as [[_ ->]|[Hs Hl]]; [done|]. rewrite Hl in Hy. injection Hy as <-.
      apply C. apply is_seg_pos in Hs. lst_lia.
    + intros y Hy Hly. apply (D alloc); [by apply Hsm'| |].
      * intros ->. destruct Hcur as [[_ ->]|[_ ?]]; [by apply elem_of_nil in Hy|done].
      * intros ->. apply (Hdisj f Hy). by left.
  - apply (chain_ext (disk m)); [|done]. intros o Ho. symmetry. destruct (Hfs o Ho). apply (D alloc); [by apply Hsf|done..].
  - intros ms0 sg0 [<- <-]%app_inj_tail. cbn [fst snd]. split.
    + destruct (majors_cases majors) as [->|(ms & sg & ->)]; [constructor|]. destruct (J5 ms sg eq_refl) as [Hc Ho].
      assert (Ec : cur = fst sg) by apply last0_snoc. rewrite fmap_app in Hsm', Hndm. cbn [fmap list_fmap] in Hsm', Hndm.
      rewrite bind_app, bind_singleton in Hok. apply Forall_app in Hok as [Hok Hoks]. apply Forall_app. split.
      * apply Forall_forall. intros x Hx. rewrite Forall_forall in Hc. rewrite Forall_forall in Hok.
        apply (seg_closed_same m); [|apply (A alloc)|by apply Hc].
        -- apply Forall_forall. intros e He. apply Hok. apply list_elem_of_bind. eauto.
        -- apply Hsm'. apply elem_of_app. left. by apply list_elem_of_fmap_2.
        -- intros Ex. apply NoDup_app in Hndm as (_ & Hd & _). apply (Hd (fst x)); [by apply list_elem_of_fmap_2|].
           rewrite Ex, Ec. by left.
      * constructor; [|constructor]. assert (Hc0 : cur <> 0).
        { rewrite Ec. specialize (Hsm' (fst sg)). apply (is_seg_pos alloc) in Hsm'; [lst_lia|]. apply elem_of_app. right. by left. }
        destruct (C Hc0) as (Hs & _ & Hh). rewrite <- Ec. split.
        -- apply (seg_open_same m); [done|by rewrite Ec].
        -- destruct (snd sg) as [|e es] eqn:Esg.
           ++ apply Forall_app in Hne as [_ [Hn _]%Forall_cons]. by rewrite Esg in Hn.
           ++ exists e, es. split; [done|]. apply Forall_cons in Hoks as [He _].
              pose proof (so_data _ _ _ Ho) as Hd. rewrite seg_data_cons in Hd. apply holds_app in Hd as [Hd _].
              destruct (entry_at _ _ _ He Hd) as (_ & El & Ek & _). rewrite <- Ec in El, Ek.
              rewrite El, Ek in Hh. done.
    + apply (seg_open_same m); [|done]. eapply same_on_sub; [by apply (A alloc f)|lst_lia..].
  - apply Forall_forall. intros o Ho. rewrite Forall_forall in J6. apply (seg_open_same m); [|by apply J6].
    destruct (Hfs o Ho). eapply same_on_sub; [apply (A alloc o); [by apply Hsf|done]|lst_lia..].
  - intros j Hj. apply (seg_open_same m); [|by apply J7].
    eapply same_on_sub; [apply (A (j + 1) (seg_off j)); [apply seg_off_seg; lia|]|lst_lia..].
    apply (Hcfs (j + 1)); [apply seg_off_seg; lia|]. intros Hi. apply Hsm' in Hi. apply is_seg_bound in Hi.
    unfold seg_off in Hi. lst_lia.
Qed.

Lemma AllocateMajor_rep s majors frees :
  lst_inv s majors frees -> nonempty majors -> usedSegments (storeInfo s) < max_segments_ ->
  exists s' f fs, AllocateMajor max_segments_ s = Some s' /\ lst_inv s' (majors ++ [(f, [])]) fs.
Proof.
  intros Hi Hne Hu. destruct (allocate_ready s majors frees Hi Hu) as (s1 & f & fs & E & Hi1).
  unfold AllocateMajor, Allocate. rewrite E. osimpl.
  assert (Ecur : current_major_segment_ s = current_major_segment_ s1) by (by rewrite (iv_current _ _ _ Hi), (iv_current _ _ _ Hi1)).
  rewrite Ecur. clear s frees Hi Hu E Ecur. pose proof (iv_range _ _ _ Hi1) as Har.
  pose proof Hi1 as [I1 I2 I3 I4 I5 I6 I7 I8 I9 I10 I11 I12 I13 I14 I15 I16 I17].
  cbn [current_major_segment_ major_list_ next_ chunk_map_ free_list_ last_free_segment_ storeInfo sync_block_ thread_status_ mem].
  assert (Ef : free_list_ s1 = f) by (by rewrite I6). rewrite Ef. destruct I11 as [I11f I11]. rewrite I11f.
  set (major := if major_list_ s1 =? 0 then f else major_list_ s1).
  pose proof (ly_segs _ _ _ _ I5) as Hsegs. apply Forall_app in Hsegs as [Hsm [Hf Hsf]%Forall_cons].
  pose proof (ly_nodup _ _ _ _ I5) as Hnd. apply NoDup_app in Hnd as (Hndm & Hdisj & Hndf).
  assert (Emaj : major = hd0 (majors ++ [(f, [])]).*1).
  { unfold major. rewrite I8. destruct majors as [|[o es] ms]; [done|]. cbn.
    apply Forall_cons in Hsm as [Ho _]. apply is_seg_pos in Ho. cbn in Ho. by rewrite (proj2 (Z.eqb_neq _ _)) by lst_lia. }
  assert (Hsz : seg_off (allocSegments (storeInfo s1)) < 2 ^ 64) by (unfold seg_off; lst_lia).
  assert (Hmr : 0 <= major < 2 ^ 64).
  { rewrite Emaj. destruct majors as [|[o es] ms]; cbn.
    - pose proof (is_seg_bound _ _ Hf). apply is_seg_pos in Hf. lst_lia.
    - apply Forall_cons in Hsm as [Ho _]. pose proof (is_seg_bound _ _ Ho). apply is_seg_pos in Ho. cbn in *. lst_lia. }
  assert (Hfr : 0 <= hd0 fs < 2 ^ 64).
  { destruct fs as [|o fs]; cbn; [lia|]. apply Forall_cons in Hsf as [Ho _]. pose proof (is_seg_bound _ _ Ho).
    apply is_seg_pos in Ho. lst_lia. }
  eexists _, f, fs. split; [reflexivity|].
  pose proof (alloc_layout (mem s1) majors f fs _ [hd0 fs; major; f] I5 I16 Hne Har ltac:(cbn; lia)) as HL.
  rewrite <- I9 in HL. unfold alloc_mem in HL. cbv zeta in HL.
  set (m' := AppendInteger _ 0 [hd0 fs; major; f]) in *.
  constructor; cbn [mem next_ chunk_map_ free_list_ major_list_ current_major_segment_ last_free_segment_
    major_segment_offset_ storeInfo sync_block_ thread_status_ allocSegments freeSegments usedSegments set_segments].
  - rewrite length_app. cbn [length] in *. lia.
  - done.
  - cbn [length] in *. rewrite (wrap_small 64) by lia. lia.
  - rewrite length_app. cbn [length] in *. rewrite (wrap_small 64) by lia. lia.
  - exact HL.
  - done.
  - intros Hfs. rewrite I7 by done. destruct fs as [|o fs]; [done|]. unfold last0. by rewrite last_cons_cons.
  - done.
  - by rewrite last0_snoc.
  - rewrite fmap_app. rewrite I9. destruct (majors_cases majors) as [->|(ms & sg & Em)].
    { cbn. split; [|done]. unfold upd_at. by rewrite Z.eqb_refl. }
    assert (Hlast : last majors.*1 = Some (fst sg)) by (rewrite Em, fmap_app; cbn [fmap list_fmap]; by rewrite last_snoc).
    assert (El0 : last0 majors.*1 = fst sg) by (unfold last0; by rewrite Hlast). rewrite El0.
    assert (Hsg : fst sg ∈ majors.*1) by (rewrite Em; apply list_elem_of_fmap_2, elem_of_app; right; by left).
    rewrite (proj2 (Z.eqb_neq _ _)).
    2:{ rewrite Forall_forall in Hsm. apply Hsm, is_seg_pos in Hsg. lst_lia. }
    assert (Hfm : f ∉ majors.*1) by (intros Hin; apply (Hdisj f Hin); by left).
    assert (Hfs' : f <> fst sg) by (by intros ->).
    apply (chain_snoc (next_ s1)); [done|done|done| | |].
    + cbn [fst]. unfold upd_at. by rewrite (proj2 (Z.eqb_neq _ _) Hfs'), Z.eqb_refl.
    + intros y Hy. rewrite Hlast in Hy. injection Hy as <-. unfold upd_at. by rewrite Z.eqb_refl.
    + intros y Hy Hyl. unfold upd_at. rewrite (proj2 (Z.eqb_neq y (fst sg))) by congruence.
      by rewrite (proj2 (Z.eqb_neq y f)) by (by intros ->).
  - apply (chain_ext (next_ s1)); [|done]. intros o Ho. apply NoDup_cons in Hndf as [Hff _].
    assert (Hof : o <> f) by (by intros ->).
    destruct (current_major_segment_ s1 =? 0); unfold upd_at; [by rewrite (proj2 (Z.eqb_neq _ _) Hof)|].
    destruct (Z.eqb_spec o (current_major_segment_ s1)) as [->|]; [|by rewrite (proj2 (Z.eqb_neq _ _) Hof)].
    rewrite I9 in Ho. destruct (majors_cases majors) as [->|(ms & sg & ->)].
    + rewrite Forall_forall in Hsf. apply Hsf, is_seg_pos in Ho. cbn in Ho. lst_lia.
    + rewrite last0_snoc in Ho. destruct (Hdisj (fst sg)); [|by right].
      apply list_elem_of_fmap_2, elem_of_app. right. by left.
  - split.
    + apply (ReadInteger_first _ 0 (hd0 fs)). done.
    + by apply (ReadInteger_append _ 0 [hd0 fs; major; f] 1).
  - intros ms sg [<- <-]%app_inj_tail. cbn. done.
  - rewrite bind_app, bind_singleton. cbn. by rewrite app_nil_r.
  - rewrite bind_app, bind_singleton. cbn. by rewrite app_nil_r.
  - rewrite bind_app, bind_singleton. cbn. by rewrite app_nil_r.
  - intros Hst. destruct (I17 Hst) as [P1 P2 P3 P4 P5].
    assert (Hcur : current_major_segment_ s1 = 0 \/ is_seg (allocSegments (storeInfo s1)) (current_major_segment_ s1) /\
      current_major_segment_ s1 ∈ majors.*1).
    { rewrite I9. destruct (majors_cases majors) as [->|(ms & sg & ->)]; [by left|right]. rewrite last0_snoc.
      rewrite Forall_forall in Hsm. assert (Hsg : fst sg ∈ (ms ++ [sg]).*1) by
        (apply list_elem_of_fmap_2, elem_of_app; right; by left). split; [by apply Hsm|done]. }
    assert (Hcf : current_major_segment_ s1 <> f).
    { destruct Hcur as [-> | [_ Hin]]; [apply is_seg_pos in Hf; lst_lia|]. intros E. apply (Hdisj f); [by rewrite <- E|by left]. }
    destruct (alloc_mem_spec (mem s1) (allocSegments (storeInfo s1)) (current_major_segment_ s1) f [hd0 fs; major; f])
      as (_ & D & _); [tauto|done|done|done|cbn; lia|].
    assert (Hp : forall o, o ∈ pend_of (allocSegments (storeInfo s1)) -> o <> current_major_segment_ s1 /\ o <> f /\
      exists k, is_seg k o).
    { intros o Ho. split_and!.
      - intros ->. destruct Hcur as [E|[Hs _]]; [|by apply (pend_new _ _ Har Hs)].
        rewrite E in Ho. apply elem_of_pend in Ho as (j & Hj & E'); [|done]. unfold seg_off in E'. lst_lia.
      - intros ->. by apply (pend_new _ _ Har Hf).
      - pose proof (pend_segs _ Har) as Hps. rewrite Forall_forall in Hps. eauto. }
    constructor; cbn [mem next_ storeInfo sync_block_ allocSegments set_segments]; try done.
    + apply (chain_ext (next_ s1)); [|done]. intros o Ho. destruct (Hp o Ho) as (Hoc & Hof & _).
      destruct (current_major_segment_ s1 =? 0); unfold upd_at; rewrite ?(proj2 (Z.eqb_neq _ _) Hoc);
        by rewrite (proj2 (Z.eqb_neq _ _) Hof).
    + apply (chain_ext (disk (mem s1))); [|done]. intros o Ho. destruct (Hp o Ho) as (Hoc & Hof & k & Hk).
      symmetry. by apply (D k).
Qed.

(** *** [Put] *)

Lemma put_chunk_rep s ms o es frees e t :
  lst_inv s (ms ++ [(o, es)]) frees -> log_entry_ok e -> seg_fits (es ++ [e]) -> fst e ∉ ((ms ++ [(o, es)]) ≫= snd).*1 ->
  lst_inv (put_chunk s (fst e) (snd e) t) (ms ++ [(o, es ++ [e])]) frees.
Proof.
  intros Hi He Hfit Hnew. pose proof (iv_range _ _ _ Hi) as Har.
  pose proof Hi as [I1 I2 I3 I4 I5 I6 I7 I8 I9 I10 I11 I12 I13 I14 I15 I16 I17].
  specialize (I13 ms _ eq_refl). cbn [snd] in I13. rewrite last0_snoc in I9. cbn [fst] in I9.
  pose proof (entry_key_length e He) as Hkl. pose proof (entry_body_length e He) as [Hb0 Hb1].
  unfold put_chunk. rewrite I9, I13. set (p := o + (kMetaSegmentSize + size_of es)). set (n := Z.of_nat (length (snd e))).
  set (m' := mem_write (mem_write (mem s) p (snd e)) (p + n) (fst e)).
  unfold seg_fits in Hfit. rewrite (size_of_snoc es e He) in Hfit. fold n in Hfit.
  assert (Hsz : 0 <= size_of es) by (unfold size_of; lia).
  assert (Hm : forall a b, b <= p \/ p + n + hash_bytes <= a -> same_on (mem s) m' a b).
  { intros a b Hab. eapply same_on_trans; apply mem_write_same; rewrite ?Hkl; fold n; lst_lia. }
  assert (Hh : holds m' p (entry_bytes e)).
  { unfold entry_bytes. apply holds_app. fold n. split; [|apply holds_write].
    apply (holds_same (mem_write (mem s) p (snd e))); [|apply holds_write]. apply mem_write_same. fold n. lia. }
  assert (Eseg : (ms ++ [(o, es ++ [e])]).*1 = (ms ++ [(o, es)]).*1) by (by rewrite !fmap_app).
  pose proof (ly_segs _ _ _ _ I5) as Hsegs. pose proof (ly_nodup _ _ _ _ I5) as Hnd.
  assert (Ho : is_seg (allocSegments (storeInfo s)) o).
  { rewrite fmap_app, <- app_assoc in Hsegs. by apply Forall_app in Hsegs as [_ [Hs _]%Forall_cons]. }
  pose proof (is_seg_pos _ _ Ho) as Ho0.
  assert (Hother : forall k o', is_seg k o' -> o' <> o -> same_on (mem s) m' o' (o' + kSegmentSize)).
  { intros k o' Ho' Hne. apply Hm. pose proof (seg_apart _ _ _ _ Ho' Ho Hne). unfold p. lst_lia. }
  assert (Hdisk : forall k o', is_seg k o' -> disk m' o' = disk (mem s) o').
  { intros k o' Ho'. apply ReadInteger_same. destruct (decide (o' = o)) as [->|Hne].
    - apply Hm. unfold p. lst_lia.
    - eapply same_on_sub; [by apply (Hother k)|lst_lia..]. }
  assert (Elocs : (ms ++ [(o, es ++ [e])]) ≫= seg_locs = ((ms ++ [(o, es)]) ≫= seg_locs) ++ [(fst e, (p + n, p))]).
  { rewrite !bind_app, !bind_singleton, <- app_assoc. f_equal. unfold seg_locs. cbn [fst snd].
    rewrite bind_app, bind_singleton in I16. apply Forall_app in I16 as [_ I16]. rewrite locs_snoc by done.
    by replace (GetFirstChunkPtr o + size_of es) with p by (unfold p; lst_lia). }
  assert (Eents : (ms ++ [(o, es ++ [e])]) ≫= snd = ((ms ++ [(o, es)]) ≫= snd) ++ [e]).
  { by rewrite !bind_app, !bind_singleton, <- app_assoc. }
  constructor; cbn [mem next_ chunk_map_ free_list_ major_list_ current_major_segment_ last_free_segment_
    major_segment_offset_ storeInfo sync_block_ thread_status_ onNewChunk allocSegments freeSegments usedSegments];
    rewrite ?Eseg; try done.
  - rewrite I1, !length_app. done.
  - rewrite I4, !length_app. done.
  - destruct I5 as [J1 J2 J3 J4 J5 J6 J7]. destruct (J5 ms _ eq_refl) as [Jc [Jf Jd Jz]]. cbn [fst snd] in *.
    apply Forall_app in Hsegs as [Hsm Hsf]. rewrite Forall_forall in Hsm. rewrite Forall_forall in Hsf.
    apply NoDup_app in Hnd as (Hndm & Hdisj & _).
    constructor; rewrite ?Eseg; try done.
    + apply (chain_ext (disk (mem s))); [|done]. intros x Hx. symmetry. apply (Hdisk _ _ (Hsm x Hx)).
    + apply (chain_ext (disk (mem s))); [|done]. intros x Hx. symmetry. apply (Hdisk _ _ (Hsf x Hx)).
    + intros ms0 sg0 [<- <-]%app_inj_tail. cbn [fst snd]. rewrite fmap_app in Hsm, Hndm. cbn [fmap list_fmap fst] in *. split.
      * apply Forall_forall. intros x Hx. rewrite Forall_forall in Jc. apply (seg_closed_same (mem s)); [| |by apply Jc].
        -- rewrite bind_app in I16. apply Forall_app in I16 as [I16 _]. rewrite Forall_forall in I16.
           apply Forall_forall. intros y Hy. apply I16. apply list_elem_of_bind. eauto.
        -- assert (Hin : fst x ∈ ms.*1) by (by apply list_elem_of_fmap_2).
           eapply same_on_sub; [apply (Hother _ _ (Hsm (fst x) ltac:(apply elem_of_app; by left)))|lst_lia..].
           intros E. apply NoDup_app in Hndm as (_ & Hd & _). apply (Hd (fst x) Hin). rewrite E. by left.
      * constructor.
        -- unfold seg_fits. rewrite (size_of_snoc es e He). fold n. lst_lia.
        -- rewrite seg_data_snoc. apply holds_app. split.
           ++ apply (holds_same (mem s)); [|done]. apply Hm. unfold p, size_of. lst_lia.
           ++ fold (size_of es). replace (GetFirstChunkPtr o + size_of es) with p by (unfold p; lst_lia). done.
        -- rewrite (size_of_snoc es e He). fold n. apply (zeros_same (mem s)).
           ++ apply Hm. unfold p. lst_lia.
           ++ intros x Hx. apply Jz. unfold n in *. lst_lia.
    + apply Forall_forall. intros x Hx. rewrite Forall_forall in J6. apply (seg_open_same (mem s)); [|by apply J6].
      eapply same_on_sub; [apply (Hother _ _ (Hsf x Hx))|lst_lia..]. intros ->. apply (Hdisj o); [|done].
      rewrite fmap_app. apply elem_of_app. right. by left.
    + intros j Hj. apply (seg_open_same (mem s)); [|by apply J7].
      eapply same_on_sub; [apply (Hother (j + 1)); [apply seg_off_seg; lia|]|lst_lia..].
      intros E. rewrite <- E in Ho. apply is_seg_bound in Ho. unfold seg_off in Ho. lst_lia.
  - rewrite last0_snoc. done.
  - destruct I12 as [<- <-]. split; apply ReadInteger_same, Hm; unfold p; lst_lia.
  - intros ms0 sg0 [<- <-]%app_inj_tail. cbn [snd]. rewrite (size_of_snoc es e He). fold n.
    rewrite (wrap_small 64) by lst_lia. lst_lia.
  - rewrite Elocs. unfold map_emplace. rewrite I14, list_to_map_snoc by (by rewrite seg_locs_keys).
    rewrite decide_False; [done|]. intros [x Hx]. apply elem_of_list_to_map_2 in Hx. destruct Hnew.
    rewrite <- seg_locs_keys. by apply (list_elem_of_fmap_2 fst) in Hx.
  - rewrite Eents, fmap_app. apply NoDup_app. split_and!; [done| |apply NoDup_singleton].
    intros x Hx Hin%list_elem_of_singleton. subst x. done.
  - rewrite Eents. apply Forall_app. split; [done|by constructor].
  - intros Hst. destruct (I17 Hst) as [P1 P2 P3 P4 P5]. constructor; try done. cbn.
    apply (chain_ext (disk (mem s))); [|done]. intros x Hx. symmetry.
    pose proof (pend_segs _ Har) as Hps. rewrite Forall_forall in Hps. apply (Hdisk _ _ (Hps x Hx)).
Qed.


(** What is at the locations. *)
Lemma locs_holds m es : forall p k hp cp,
  Forall log_entry_ok es -> holds m p (seg_data es) -> (k, (hp, cp)) ∈ locs p es ->
  exists b, (k, b) ∈ es /\ hp = cp + Z.of_nat (length b) /\ holds m cp (entry_bytes (k, b)).
Proof.
  induction es as [|e es IH]; intros p k hp cp Hok Hh Hin; [by apply elem_of_nil in Hin|].
  apply Forall_cons in Hok as [He Hok]. rewrite seg_data_cons in Hh. apply holds_app in Hh as [Hh Hhs].
  cbn [locs] in Hin. apply elem_of_cons in Hin as [[= -> -> ->]|Hin].
  - exists (snd e). destruct e. cbn in *. split_and!; [by left|done|done].
  - rewrite (entry_length e He), Z.add_assoc in Hhs. destruct (IH _ _ _ _ Hok Hhs Hin) as (b & Hb & Eb & Hbh).
    exists b. split_and!; [by right|done|done].
Qed.

Lemma seg_open_all s majors frees : lst_inv s majors frees ->
  Forall (fun sg => seg_open (mem s) (fst sg) (snd sg)) majors.
Proof.
  intros Hi. destruct (majors_cases majors) as [->|(ms & sg & ->)]; [constructor|].
  destruct (ly_closed _ _ _ _ (iv_layout _ _ _ Hi) ms sg eq_refl) as [Hc Ho]. apply Forall_app. split; [|by constructor].
  eapply Forall_impl; [exact Hc|]. by intros x [Hx _].
Qed.

Lemma chunk_map_Some s majors frees k hp cp :
  lst_inv s majors frees -> chunk_map_ s !! k = Some (hp, cp) ->
  exists b, (k, b) ∈ majors ≫= snd /\ hp = cp + Z.of_nat (length b) /\ holds (mem s) cp (entry_bytes (k, b)).
Proof.
  intros Hi. rewrite (iv_map _ _ _ Hi). intros Hx%elem_of_list_to_map_2.
  apply list_elem_of_bind in Hx as (sg & Hx & Hsg). pose proof (seg_open_all _ _ _ Hi) as Ho.
  rewrite Forall_forall in Ho. destruct (Ho sg Hsg) as [_ Hd _].
  destruct (locs_holds (mem s) (snd sg) (GetFirstChunkPtr (fst sg)) k hp cp) as (b & Hb & ? & ?); [|done|done|].
  - pose proof (iv_entries _ _ _ Hi) as He. rewrite Forall_forall in He. apply Forall_forall. intros e Hin.
    apply He. apply list_elem_of_bind. eauto.
  - exists b. split_and!; [|done|done]. apply list_elem_of_bind. eauto.
Qed.

Lemma chunk_map_None s majors frees k :
  lst_inv s majors frees -> chunk_map_ s !! k = None <-> k ∉ (majors ≫= snd).*1.
Proof.
  intros Hi. rewrite (iv_map _ _ _ Hi), <- seg_locs_keys. symmetry. apply not_elem_of_list_to_map.
Qed.

(** The chunk of a key in a list of entries. *)
Definition stored_chunk (log : list LogEntry) (k : bytes) : Chunk :=
  match (list_to_map log : gmap bytes bytes) !! k with
  | Some b => mkChunk (Some b) (Some k)
  | None => chunk_null
  end.

Lemma lst_Get_rep s majors frees k :
  lst_inv s majors frees -> lst_Get s (Some k) = Some (stored_chunk (majors ≫= snd) k).
Proof.
  intros Hi. unfold lst_Get, stored_chunk. osimpl. f_equal. destruct (chunk_map_ s !! k) as [[hp cp]|] eqn:E.
  - destruct (chunk_map_Some _ _ _ _ _ _ Hi E) as (b & Hb & -> & Hh).
    pose proof (iv_entries _ _ _ Hi) as He. rewrite Forall_forall in He. specialize (He _ Hb).
    destruct (entry_at _ _ _ He Hh) as (Eb & El & Ek & _). cbn [fst snd] in *.
    rewrite El, Nat2Z.id, Eb, Ek. by rewrite (elem_of_list_to_map_1 _ _ _ (iv_keys _ _ _ Hi) Hb).
  - apply (chunk_map_None _ _ _ _ Hi) in E. by rewrite (not_elem_of_list_to_map_1 _ _ E).
Qed.

(** A chunk with its own hash as the key. *)
Definition chunk_entry (c : Chunk) (e : LogEntry) : Prop :=
  log_entry_ok e /\ exists rest, head_ c = Some (snd e ++ rest).

(** [Put] of a new chunk, where there is room for it. *)
Lemma lst_Put_rep s majors frees e c :
  lst_inv s majors frees -> nonempty majors -> chunk_entry c e -> seg_fits [e] -> fst e ∉ (majors ≫= snd).*1 ->
  (exists ms sg, majors = ms ++ [sg] /\ seg_fits (snd sg ++ [e])) \/ usedSegments (storeInfo s) < max_segments_ ->
  exists s' majors' frees', lst_Put max_segments_ s (Some (fst e)) c = Some (true, s') /\
    lst_inv s' majors' frees' /\ nonempty majors' /\ majors' ≫= snd = (majors ≫= snd) ++ [e].
Proof.
  intros Hi Hne [He [rest Hc]] Hfit Hnew Hroom. unfold lst_Put. osimpl.
  pose proof (entry_body_length e He) as [Hb0 Hb1].
  destruct (eo_chunk _ He) as (t & pl & Ec & Hpl & _).
  assert (Hn : chunk_numBytes c = Some (Z.of_nat (length (snd e)))).
  { rewrite Ec, length_chunk_bytes. rewrite Ec in Hc.
    transitivity (chunk_numBytes (chunk_of_head (chunk_bytes t pl ++ rest))); [unfold chunk_numBytes; by rewrite Hc|].
    apply (chunk_rep_numBytes _ t). constructor; [by exists rest|done|by left]. }
  rewrite Hn. osimpl. unfold lst_Exists. osimpl. apply (chunk_map_None _ _ _ _ Hi) in Hnew as Hnone.
  rewrite Hnone, bool_decide_false by (by intros [? ?]). rewrite (wrap_small 64) by lst_lia.
  assert (Hty : exists ty, read_u8 kChunkTypeOffset (snd e ++ rest) = Some ty).
  { unfold read_u, read_bytes. rewrite decide_True; [|rewrite length_app; lst_lia]. eauto. }
  destruct Hty as [ty Hty].
  assert (Hbody : read_bytes 0 (Z.to_nat (Z.of_nat (length (snd e)))) (snd e ++ rest) = Some (snd e)).
  { rewrite Nat2Z.id. by apply (read_bytes_app 0 _ [] (snd e) rest). }
  assert (Hput : forall s1 ms o es fr, lst_inv s1 (ms ++ [(o, es)]) fr -> seg_fits (es ++ [e]) ->
    fst e ∉ ((ms ++ [(o, es)]) ≫= snd).*1 -> nonempty ms ->
    exists s' majors' frees', Some (true, put_chunk s1 (fst e) (snd e) ty) = Some (true, s') /\
      lst_inv s' majors' frees' /\ nonempty majors' /\ majors' ≫= snd = ((ms ++ [(o, es)]) ≫= snd) ++ [e]).
  { intros s1 ms o es fr Hi1 Hf1 Hn1 Hne1. pose proof (put_chunk_rep s1 ms o es fr e ty Hi1 He Hf1 Hn1) as Hi2.
    eexists _, _, _. split; [reflexivity|]. split_and!; [exact Hi2| |].
    - apply Forall_app. split; [done|]. constructor; [|constructor]. cbn. by destruct es.
    - by rewrite !bind_app, !bind_singleton, <- app_assoc. }
  assert (Halloc : usedSegments (storeInfo s) < max_segments_ ->
    exists s' majors' frees', (s1 ← AllocateMajor max_segments_ s; h ← head_ c;
        body ← read_bytes 0 (Z.to_nat (Z.of_nat (length (snd e)))) h; type ← read_u8 kChunkTypeOffset h;
        Some (true, put_chunk s1 (fst e) body type)) = Some (true, s') /\
      lst_inv s' majors' frees' /\ nonempty majors' /\ majors' ≫= snd = (majors ≫= snd) ++ [e]).
  { intros Hu. destruct (AllocateMajor_rep s majors frees Hi Hne Hu) as (s1 & f & fs & E1 & Hi1).
    rewrite E1. osimpl. rewrite Hc. osimpl. rewrite Hbody. osimpl. rewrite Hty. osimpl.
    assert (Eb : (majors ++ [(f, [])]) ≫= snd = majors ≫= snd) by (rewrite bind_app, bind_singleton; apply app_nil_r).
    destruct (Hput s1 majors f [] fs Hi1) as (s' & mj & fr & E & R1 & R2 & R3); [done|by rewrite Eb|done|].
    exists s', mj, fr. rewrite Eb in R3. by split_and!. }
  destruct (majors_cases majors) as [->|(ms & [o es] & ->)].
  - rewrite (iv_current _ _ _ Hi). cbn [orb Z.eqb]. apply Halloc.
    destruct Hroom as [(ms & sg & E & _)|?]; [by destruct ms|done].
  - pose proof (ly_segs _ _ _ _ (iv_layout _ _ _ Hi)) as Hsegs. rewrite fmap_app, <- app_assoc in Hsegs.
    apply Forall_app in Hsegs as [_ [Ho _]%Forall_cons]. cbn [fst] in Ho. apply is_seg_pos in Ho.
    rewrite (iv_current _ _ _ Hi), last0_snoc. cbn [fst]. rewrite (proj2 (Z.eqb_neq _ _)) by lst_lia. cbn [orb].
    unfold GetFreeSpaceMajor. rewrite (iv_offset _ _ _ Hi ms _ eq_refl). cbn [snd].
    pose proof (seg_open_all _ _ _ Hi) as Hso. apply Forall_app in Hso as [_ [[Hfo _ _] _]%Forall_cons]. cbn [snd] in Hfo.
    assert (Hsz : 0 <= size_of es) by (unfold size_of; lia). unfold seg_fits in Hfo.
    rewrite (wrap_small 64) by lst_lia.
    destruct (Z.ltb_spec (kSegmentSize - (kMetaSegmentSize + size_of es) - hash_bytes - meta_bytes)
      (hash_bytes + Z.of_nat (length (snd e)))) as [Hlt|Hge].
    + apply Halloc. destruct Hroom as [(ms' & sg & E & Hf)|?]; [|done]. apply app_inj_tail in E as [<- <-]. cbn [snd] in Hf.
      unfold seg_fits in Hf. rewrite (size_of_snoc es e He) in Hf. lst_lia.
    + osimpl. rewrite Hc. osimpl. rewrite Hbody. osimpl. rewrite Hty. osimpl.
      apply Forall_app in Hne as [Hne _].
      apply (Hput s ms o es frees Hi); [|done|done]. unfold seg_fits. rewrite (size_of_snoc es e He). lst_lia.
Qed.

(** Without room the store terminates the process. *)
Lemma allocate_full s majors frees :
  lst_inv s majors frees -> usedSegments (storeInfo s) = max_segments_ ->
  allocate_wait max_segments_ (allocate_schedule s) = None.
Proof.
  intros Hi Hu.
  assert (Hmaj : Z.of_nat (length majors) = max_segments_) by (by rewrite <- (iv_used _ _ _ Hi)).
  assert (Hfull : forall s' l, lst_inv s' majors l -> l = [] /\ free_list_ s' = 0 /\
    allocSegments (storeInfo s') = max_segments_).
  { intros s' l Hi'. pose proof (iv_alloc _ _ _ Hi') as Ha. pose proof (iv_le _ _ _ Hi').
    assert (El : l = []) by (apply length_zero_iff_nil; lia). subst l. cbn [length] in Ha.
    split_and!; [done|by rewrite (iv_free_list _ _ _ Hi')|lia]. }
  assert (Hstop : forall s' l, lst_inv s' majors l -> thread_status_ s' <> kCompleted -> allocate_wait max_segments_ s' = None).
  { intros s' l Hi' Hst'. unfold allocate_wait. rewrite (proj2 (Z.eqb_eq _ _)) by (by eapply Hfull).
    destruct (decide (thread_status_ s' = kScheduled)) as [Hs|Hs].
    - destruct (Enlarge_rep s' majors l Hi' Hst') as (s2 & -> & Hi2 & Hs2). osimpl. rewrite decide_True by done.
      destruct (UpdateStore_rep s2 majors l Hi2 Hs2) as [Hi3 _]. destruct (Hfull _ _ Hi3) as (_ & -> & _). done.
    - osimpl. rewrite decide_False by done. destruct (Hfull _ _ Hi') as (_ & -> & _). done. }
  destruct (Hfull s frees Hi) as (-> & _ & _). unfold allocate_schedule. rewrite (iv_free _ _ _ Hi). cbn [length].
  rewrite (proj2 (Z.ltb_lt _ _)) by lst_lia. destruct (thread_status_ s) eqn:Es.
  - eapply Hstop; [by apply set_status_inv|done].
  - eapply Hstop; [done|by rewrite Es].
  - destruct (UpdateStore_rep s majors [] Hi Es) as [Hi3 Hs3]. eapply Hstop; [done|by rewrite Hs3].
Qed.

End Inv.
