(* ===== verification/LstLoad.v ===== *)
(** * Opening a log file again

    [Load] reads the lists and the chunks of a file with a valid layout, so that
    a store that is opened on the file of another store has the same entries. *)

From S2P Require Import Prelude Types HashVal Chunk LstStore LstProps.
Local Open Scope Z_scope.

Section Load.
Context `{HashFunction}.
Variable max_segments_ : Z.
Hypothesis Hmax : 0 <= max_segments_ <= 2 ^ 30.

(** ** The chunks of one segment *)

Lemma seg_data_count es : Forall log_entry_ok es -> Z.of_nat (length es) * (hash_bytes + meta_bytes) <= size_of es.
Proof.
  induction 1 as [|e es He Hes IH]; [done|]. rewrite (size_of_cons e es He). pose proof (entry_body_length e He).
  cbn [length]. lst_lia.
Qed.

Lemma load_steps_enough es : Forall log_entry_ok es -> seg_fits es -> (length es < load_steps)%nat.
Proof.
  intros Hok Hf. pose proof (seg_data_count es Hok) as Hc. unfold seg_fits in Hf. unfold load_steps.
  assert (Z.of_nat (length es) <= kSegmentSize / (hash_bytes + meta_bytes)); [|lia].
  apply Z.div_le_lower_bound; lst_lia.
Qed.

(** A map of locations that grows by the entries of a segment. *)
Definition has_locs (l : list (bytes * (Z * Z))) (a : LoadAcc) : Prop := fst a = list_to_map l.

Lemma load_chunk_rep m p e a l :
  log_entry_ok e -> holds m p (entry_bytes e) -> has_locs l a -> fst e ∉ l.*1 ->
  has_locs (l ++ [(fst e, (p + Z.of_nat (length (snd e)), p))]) (load_chunk m p a).
Proof.
  intros He Hh Hl Hnew. destruct (entry_at m p e He Hh) as (_ & El & Ek & _ & _ & Ei & _). destruct a as [cm i].
  unfold load_chunk, has_locs in *. rewrite Ei, El, Ek. cbn [fst] in *. rewrite Hl.
  rewrite list_to_map_snoc by done. unfold map_emplace. rewrite decide_False; [done|].
  intros [x Hx]. apply elem_of_list_to_map_2, (list_elem_of_fmap_2 fst) in Hx. done.
Qed.

(** The two facts that both loops need at every entry. *)
Lemma seg_next m p e es :
  log_entry_ok e -> holds m p (seg_data (e :: es)) ->
  holds m p (entry_bytes e) /\ holds m (p + Z.of_nat (length (snd e)) + hash_bytes) (seg_data es) /\
  p + size_of (e :: es) = p + Z.of_nat (length (snd e)) + hash_bytes + size_of es.
Proof.
  intros He Hh. rewrite seg_data_cons in Hh. apply holds_app in Hh as [Hh1 Hh2].
  rewrite (entry_length e He), Z.add_assoc in Hh2. rewrite (size_of_cons e es He). split_and!; [done|done|lia].
Qed.

Lemma NoDup_next (l : list (bytes * (Z * Z))) k (x : Z * Z) (ks : list bytes) :
  NoDup (l.*1 ++ k :: ks) -> k ∉ l.*1 /\ NoDup ((l ++ [(k, x)]).*1 ++ ks).
Proof.
  intros Hnd. rewrite fmap_app, <- app_assoc. cbn. split; [|done].
  apply NoDup_app in Hnd as (_ & Hd & _). intros Hin. apply (Hd k Hin). by left.
Qed.

Lemma load_valid_rep m es : forall steps p l a,
  Forall log_entry_ok es -> holds m p (seg_data es) -> zeros m (p + size_of es) (p + size_of es + meta_bytes) ->
  has_locs l a -> NoDup (l.*1 ++ es.*1) -> (length es < steps)%nat ->
  exists a', load_valid_loop steps m p a = Some (p + size_of es, a') /\ has_locs (l ++ locs p es) a'.
Proof.
  induction es as [|e es IH]; intros steps p l a Hok Hh Hz Hl Hnd Hst; (destruct steps as [|steps]; [cbn in Hst; lia|]);
    cbn [load_valid_loop].
  - change (size_of []) with 0 in *. rewrite Z.add_0_r in *. rewrite (proj2 (end_at m p Hz)). exists a.
    cbn. by rewrite app_nil_r.
  - apply Forall_cons in Hok as [He Hok]. destruct (seg_next m p e es He Hh) as (Hh1 & Hh2 & Es).
    destruct (entry_at m p e He Hh1) as (_ & El & _ & -> & _). rewrite El. rewrite Es in *.
    destruct (NoDup_next l (fst e) (p + Z.of_nat (length (snd e)), p) es.*1 Hnd) as [Hnew Hnd'].
    destruct (IH steps (p + Z.of_nat (length (snd e)) + hash_bytes) _ (load_chunk m p a) Hok Hh2 Hz
      (load_chunk_rep m p e a l He Hh1 Hl Hnew) Hnd') as (a' & E & Hl'); [cbn in Hst; lia|].
    exists a'. split; [done|]. rewrite <- app_assoc in Hl'. exact Hl'.
Qed.

(** The last segment; the memory that is written keeps its bytes. *)
Lemma load_last_rep es : forall steps m p l a,
  Forall log_entry_ok es -> holds m p (seg_data es) -> zeros m (p + size_of es) (p + size_of es + meta_bytes) ->
  has_locs l a -> NoDup (l.*1 ++ es.*1) -> (length es < steps)%nat ->
  exists m' a', load_last_loop steps m p a = Some (p + size_of es, m', a') /\ has_locs (l ++ locs p es) a' /\
    (forall x, m' x = m x).
Proof.
  induction es as [|e es IH]; intros steps m p l a Hok Hh Hz Hl Hnd Hst; (destruct steps as [|steps]; [cbn in Hst; lia|]);
    cbn [load_last_loop].
  - change (size_of []) with 0 in *. rewrite Z.add_0_r in *. rewrite (proj2 (end_at m p Hz)).
    cbn [locs]. rewrite app_nil_r. destruct (_ || _).
    + eexists _, a. split; [reflexivity|]. split; [done|]. intros x. unfold mem_write. rewrite length_replicate.
      destruct (Z.leb_spec p x), (Z.ltb_spec x (p + Z.of_nat kMetaLength)); cbn [andb]; try done.
      rewrite Hz by lst_lia. apply nth_lookup_Some. apply lookup_replicate. split; [done|]. lst_lia.
    + eauto.
  - apply Forall_cons in Hok as [He Hok]. destruct (seg_next m p e es He Hh) as (Hh1 & Hh2 & Es).
    destruct (entry_at m p e He Hh1) as (Eb & El & Ek & -> & -> & -> & _). rewrite El, Nat2Z.id, Eb, Ek, <- (eo_key _ He).
    rewrite bool_decide_true by done. cbn [negb orb]. osimpl. rewrite Es in *.
    destruct (NoDup_next l (fst e) (p + Z.of_nat (length (snd e)), p) es.*1 Hnd) as [Hnew Hnd'].
    destruct (IH steps m (p + Z.of_nat (length (snd e)) + hash_bytes) _ (load_chunk m p a) Hok Hh2 Hz
      (load_chunk_rep m p e a l He Hh1 Hl Hnew) Hnd') as (m' & a' & E & Hl' & Hm'); [cbn in Hst; lia|].
    exists m', a'. split_and!; [done| |done]. rewrite <- app_assoc in Hl'. exact Hl'.
Qed.

(** Segments. *)
Lemma seg_tail_zeros m o es : seg_open m o es ->
  zeros m (GetFirstChunkPtr o + size_of es) (GetFirstChunkPtr o + size_of es + meta_bytes).
Proof. intros [Hf _ Hz] x Hx. apply Hz. unfold seg_fits in Hf. lst_lia. Qed.

Lemma LoadFromValidSegment_rep m n sg l a :
  is_seg n (fst sg) -> seg_closed m (fst sg) (snd sg) -> Forall log_entry_ok (snd sg) -> has_locs l a ->
  NoDup (l.*1 ++ (snd sg).*1) ->
  exists p a', LoadFromValidSegment m (fst sg) a = Some (p, a') /\ has_locs (l ++ seg_locs sg) a'.
Proof.
  intros Hs [Ho (e & es & Ees & Hh)] Hok Hl Hnd. unfold LoadFromValidSegment. pose proof (is_seg_pos _ _ Hs).
  rewrite (proj2 (Z.eqb_neq _ _)) by lst_lia. osimpl.
  pose proof Ho as [Hf Hd _]. pose proof Hok as Hok'. rewrite Ees in Hd, Hok'. apply Forall_cons in Hok' as [He _].
  destruct (seg_next m _ e es He Hd) as (Hh1 & _). destruct (entry_at _ _ e He Hh1) as (_ & El & Ek & _).
  rewrite El, Ek. unfold hash_at. rewrite <- (entry_key_length e He), (holds_read _ _ _ Hh), bool_decide_true by done.
  osimpl. destruct (load_valid_rep m (snd sg) load_steps (GetFirstChunkPtr (fst sg)) l a Hok) as (a' & E & Hl');
    [apply Ho|by apply seg_tail_zeros|done|done|by apply load_steps_enough|].
  eauto.
Qed.

(** ** The whole file *)

Lemma load_major_rep m n next last : forall ms steps l a k,
  Forall (fun sg => is_seg n (fst sg) /\ seg_closed m (fst sg) (snd sg) /\ Forall log_entry_ok (snd sg)) ms ->
  chain next (ms.*1 ++ [last]) -> NoDup (ms.*1 ++ [last]) -> has_locs l a -> NoDup (l.*1 ++ (ms ≫= snd).*1) ->
  (length ms <= steps)%nat ->
  exists a', load_major_loop steps m next (hd0 (ms.*1 ++ [last])) last a k = Some (last, a', k + Z.of_nat (length ms)) /\
    has_locs (l ++ (ms ≫= seg_locs)) a'.
Proof.
  induction ms as [|sg ms IH]; intros steps l a k Hms Hc Hnd Hl Hk Hst.
  - exists a. cbn. rewrite app_nil_r. split; [|done]. destruct steps; cbn; by rewrite Z.eqb_refl, Z.add_0_r.
  - apply Forall_cons in Hms as [(Hs & Hcl & Hok) Hms]. destruct Hc as [Hn Hc]. cbn [app fmap list_fmap] in Hnd.
    apply NoDup_cons in Hnd as [Hno Hnd]. destruct steps as [|steps]; [cbn in Hst; lia|].
    change (hd0 ((sg :: ms).*1 ++ [last])) with (fst sg). cbn [load_major_loop].
    rewrite (proj2 (Z.eqb_neq _ _)).
    2:{ intros E. apply Hno. rewrite E. apply elem_of_app. right. by left. }
    rewrite bind_cons, fmap_app in Hk.
    destruct (LoadFromValidSegment_rep m n sg l a Hs Hcl Hok Hl) as (p & a1 & -> & Hl1).
    { rewrite app_assoc in Hk. by apply NoDup_app in Hk as (Hk & _). }
    osimpl. cbn [snd]. change (next (fst sg) = hd0 (ms.*1 ++ [last])) in Hn. rewrite Hn.
    destruct (IH steps (l ++ seg_locs sg) a1 (k + 1) Hms Hc Hnd Hl1) as (a' & -> & Hl').
    { rewrite fmap_app. unfold seg_locs. by rewrite locs_keys, <- app_assoc. }
    { cbn in Hst. lia. }
    exists a'. split; [cbn [length]; by replace (k + 1 + Z.of_nat (length ms)) with (k + Z.of_nat (S (length ms))) by lia|]. rewrite bind_cons. by rewrite app_assoc.
Qed.

Lemma Load_rep m majors frees alloc junk :
  layout m majors frees alloc -> alloc = Z.of_nat (length majors + length frees) -> alloc <= max_segments_ ->
  ReadInteger m 0 = hd0 frees -> ReadInteger m 8 = hd0 majors.*1 ->
  NoDup (majors ≫= snd).*1 -> Forall log_entry_ok (majors ≫= snd) ->
  exists s, Load max_segments_ m junk = Some s /\ lst_inv max_segments_ s majors frees /\
    thread_status_ s = kUnscheduled.
Proof.
  intros HL Hal Hle H0 H8 Hk Hok. pose proof HL as [J1 J2 J3 J4 J5 J6 J7]. unfold Load. rewrite H0, H8.
  apply Forall_app in J1 as [Jm Jf]. apply NoDup_app in J2 as (Nm & Hdis & Nf).
  assert (Hnz : forall l, Forall (is_seg alloc) l -> Forall (fun o => o <> 0) l).
  { intros l Hl. eapply Forall_impl; [exact Hl|]. intros o Ho. apply is_seg_pos in Ho. lst_lia. }
  destruct (LinkSegmentList_rep m frees (link_steps max_segments_) 0 0 (fun _ => 0)) as (n1 & -> & C1 & _);
    [done|by apply Hnz|done|unfold link_steps; lia|lia|lia|]. osimpl.
  destruct (LinkSegmentList_rep m majors.*1 (link_steps max_segments_) 0 0 n1) as (n2 & -> & C2 & F2);
    [done|by apply Hnz|done|unfold link_steps; rewrite length_fmap; lia|lia|rewrite length_fmap; lia|]. osimpl.
  assert (C1' : chain n2 frees).
  { apply (chain_ext n1); [|done]. intros x Hx. symmetry. apply F2. intros Hin. by apply (Hdis x). }
  rewrite length_fmap, !Z.add_0_l. fold (last0 frees) (last0 majors.*1).
  rewrite (wrap_small 64) by lia.
  destruct (majors_cases majors) as [->|(ms & sg & Em)].
  - change (last0 ([] : list (Z * list LogEntry)).*1) with 0. change (hd0 ([] : list (Z * list LogEntry)).*1) with 0.
    assert (E : load_major_loop (link_steps max_segments_) m n2 0 0 (∅, initStoreInfo) 0 = Some (0, (∅, initStoreInfo), 0)).
    { by destruct (link_steps max_segments_). }
    rewrite E. osimpl. cbn [Z.eqb]. osimpl. eexists. split; [reflexivity|]. split; [|done].
    rewrite (wrap_small 64) by (cbn [length]; lia).
    constructor; cbn [mem next_ chunk_map_ free_list_ major_list_ current_major_segment_ last_free_segment_
      major_segment_offset_ storeInfo sync_block_ thread_status_ set_segments allocSegments freeSegments usedSegments];
      cbn [length] in *; try done; try lia.
    + by replace (Z.of_nat (length frees) + Z.of_nat 0) with alloc by lia.
    + intros ms sg E'. by destruct ms.
  - subst majors. destruct (J5 ms sg eq_refl) as [Jc Jo]. rewrite last0_snoc.
    rewrite fmap_app in Jm, Nm, C2 |- *. cbn [fmap list_fmap] in *.
    rewrite bind_app, bind_singleton in Hok. apply Forall_app in Hok as [Hokm Hoks].
    rewrite bind_app, bind_singleton, fmap_app in Hk.
    destruct (load_major_rep m alloc n2 (fst sg) ms (link_steps max_segments_) [] (∅, initStoreInfo) 0)
      as (a & E & Ha); [| done|done|done|by apply NoDup_app in Hk as (? & _)| |].
    { rewrite Forall_forall in Jc. rewrite Forall_forall in Hokm. apply Forall_forall. intros x Hx. split_and!.
      - rewrite Forall_forall in Jm. apply Jm, elem_of_app. left. by apply list_elem_of_fmap_2.
      - by apply Jc.
      - apply Forall_forall. intros e He. apply Hokm. apply list_elem_of_bind. eauto. }
    { unfold link_steps. rewrite length_app in Hal. cbn [length] in Hal. lia. }
    change (hd0 (ms.*1 ++ [sg.1])) with (hd0 (ms.*1 ++ [fst sg])). rewrite E. osimpl. cbn [app] in Ha.
    assert (Hsg : is_seg alloc (fst sg)) by (by apply Forall_app in Jm as [_ [? _]%Forall_cons]).
    pose proof (is_seg_pos _ _ Hsg) as Hpos. rewrite (proj2 (Z.eqb_neq _ _)) by lst_lia.
    assert (Hd0 : ReadInteger m (fst sg + 8) = 0).
    { change (disk m (fst sg) = 0). rewrite fmap_app in J3. cbn [fmap list_fmap] in J3. by apply (chain_app_nil _ ms.*1). }
    unfold LoadFromLastSegment. rewrite Hd0. cbn [Z.eqb].
    destruct (load_last_rep (snd sg) load_steps m (GetFirstChunkPtr (fst sg)) (ms ≫= seg_locs) a Hoks)
      as (m' & [cm i] & -> & Ha' & Hm'); [apply Jo|by apply seg_tail_zeros|done| |apply load_steps_enough; [done|apply Jo]|].
    { by rewrite seg_locs_keys. }
    osimpl. eexists. split; [reflexivity|]. split; [|done].
    assert (El : Z.of_nat (length (ms ++ [sg])) = Z.of_nat (length ms) + 1) by (rewrite length_app; cbn [length]; lia).
    rewrite (wrap_small 64) by lia.
    assert (Hsame : forall a b, same_on m m' a b) by (intros x y z _; apply Hm').
    assert (Hri : forall a, ReadInteger m' a = ReadInteger m a) by (intros a'; by apply ReadInteger_same).
    replace (Z.of_nat (length frees) + Z.of_nat (length (ms ++ [sg]))) with alloc by lia.
    constructor; cbn [mem next_ chunk_map_ free_list_ major_list_ current_major_segment_ last_free_segment_
      major_segment_offset_ storeInfo sync_block_ thread_status_ set_segments allocSegments freeSegments usedSegments];
      rewrite ?fmap_app; cbn [fmap list_fmap]; try done.
    + lia.
    + destruct (layout_data m m' (ms ++ [sg]) frees alloc) as (L1 & L2 & L3); [lia|done| |done|done|].
      { rewrite bind_app, bind_singleton. by apply Forall_app. }
      constructor; try done; [by destruct HL|by destruct HL|..].
      * apply (chain_ext (disk m)); [|done]. intros x _. symmetry. apply Hri.
      * apply (chain_ext (disk m)); [|done]. intros x _. symmetry. apply Hri.
    + unfold last0. by rewrite last_snoc.
    + rewrite !Hri. split; [done|]. rewrite H8, fmap_app. done.
    + intros ms0 sg0 [<- <-]%app_inj_tail. lst_lia.
    + unfold has_locs in Ha'. cbn [fst] in Ha'. rewrite Ha'. by rewrite bind_app, bind_singleton.
    + by rewrite bind_app, bind_singleton, fmap_app.
    + rewrite bind_app, bind_singleton. by apply Forall_app.
Qed.

End Load.
