(* ===== verification/LstClaims.v ===== *)
(** * What the log-structured store promises *)

From S2P Require Import Prelude Types HashVal Chunk LstStore LstProps LstLoad.
Local Open Scope Z_scope.

Section Claims.
Context `{HashFunction}.
Variable max_segments_ : Z.
Hypothesis Hmax : 0 <= max_segments_ <= 2 ^ 30.

(** The store holds the entries of [log], written in this order. *)
Definition represents (s : LSTStore) (log : list LogEntry) : Prop :=
  exists majors frees, lst_inv max_segments_ s majors frees /\ nonempty majors /\ majors ≫= snd = log.

(** There is room for [n] bytes and their hash in the current segment, or for
    another segment. *)
Definition has_room (s : LSTStore) (n : Z) : Prop :=
  (current_major_segment_ s <> 0 /\ hash_bytes + n <= GetFreeSpaceMajor s) \/ usedSegments (storeInfo s) < max_segments_.

(** The room in the current segment. *)
Lemma free_space s majors frees ms sg e :
  lst_inv max_segments_ s majors frees -> majors = ms ++ [sg] -> log_entry_ok e ->
  current_major_segment_ s <> 0 /\
  (hash_bytes + Z.of_nat (length (snd e)) <= GetFreeSpaceMajor s <-> seg_fits (snd sg ++ [e])).
Proof.
  intros Hi -> He. pose proof (ly_segs _ _ _ _ (iv_layout _ _ _ _ Hi)) as Hsegs. rewrite fmap_app, <- app_assoc in Hsegs.
  apply Forall_app in Hsegs as [_ [Ho _]%Forall_cons]. apply is_seg_pos in Ho.
  rewrite (iv_current _ _ _ _ Hi), last0_snoc. split; [lst_lia|].
  unfold GetFreeSpaceMajor. rewrite (iv_offset _ _ _ _ Hi ms sg eq_refl).
  pose proof (seg_open_all _ _ _ _ Hi) as Hso. apply Forall_app in Hso as [_ [[Hfo _ _] _]%Forall_cons].
  assert (Hsz : 0 <= size_of (snd sg)) by (unfold size_of; lia). unfold seg_fits in *.
  rewrite (wrap_small 64) by lst_lia. rewrite (size_of_snoc _ e He). lst_lia.
Qed.

Lemma put_exists s majors frees e c :
  lst_inv max_segments_ s majors frees -> chunk_entry c e -> fst e ∈ (majors ≫= snd).*1 ->
  lst_Put max_segments_ s (Some (fst e)) c = Some (true, s).
Proof.
  intros Hi [He [rest Hc]] Hin. unfold lst_Put. osimpl.
  destruct (eo_chunk _ He) as (t & pl & Ec & Hpl & _).
  assert (Hn : exists n, chunk_numBytes c = Some n).
  { unfold chunk_numBytes. rewrite Hc. osimpl. unfold read_u, read_bytes. rewrite decide_True; [eauto|].
    rewrite length_app. pose proof (entry_body_length e He). lst_lia. }
  destruct Hn as [n ->]. osimpl. unfold lst_Exists. osimpl. rewrite bool_decide_true; [done|].
  apply not_eq_None_Some. intros E. by apply (chunk_map_None _ _ _ _ _ Hi) in E.
Qed.

Lemma put_fails s majors frees e c :
  lst_inv max_segments_ s majors frees -> chunk_entry c e -> fst e ∉ (majors ≫= snd).*1 ->
  ~ has_room s (Z.of_nat (length (snd e))) -> lst_Put max_segments_ s (Some (fst e)) c = None.
Proof.
  intros Hi [He [rest Hc]] Hnew Hroom. unfold has_room in Hroom.
  assert (Hfull : usedSegments (storeInfo s) = max_segments_).
  { pose proof (iv_used _ _ _ _ Hi). pose proof (iv_alloc _ _ _ _ Hi). pose proof (iv_le _ _ _ _ Hi).
    destruct (Z.lt_ge_cases (usedSegments (storeInfo s)) max_segments_); [tauto|lia]. }
  unfold lst_Put. osimpl. destruct (chunk_numBytes c) as [n|] eqn:En; [|done]. osimpl.
  destruct (eo_chunk _ He) as (t & pl & Ec & Hpl & _).
  assert (En' : n = Z.of_nat (length (snd e))).
  { rewrite Ec, length_chunk_bytes. rewrite Ec in Hc.
    assert (E : chunk_numBytes c = chunk_numBytes (chunk_of_head (chunk_bytes t pl ++ rest)))
      by (unfold chunk_numBytes; by rewrite Hc).
    rewrite E, (chunk_rep_numBytes _ t pl) in En; [congruence|]. constructor; [by exists rest|done|by left]. }
  unfold lst_Exists. osimpl. apply (chunk_map_None _ _ _ _ _ Hi) in Hnew. rewrite Hnew, bool_decide_false by (by intros [? ?]).
  pose proof (entry_body_length e He) as [_ Hb]. rewrite (wrap_small 64) by lst_lia.
  assert (Ea : AllocateMajor max_segments_ s = None).
  { unfold AllocateMajor, Allocate. by rewrite (allocate_full _ Hmax _ _ _ Hi Hfull). }
  assert (Eif : (current_major_segment_ s =? 0) || (GetFreeSpaceMajor s <? hash_bytes + n) = true).
  { destruct (Z.eqb_spec (current_major_segment_ s) 0) as [|Hc0]; [done|]. apply Z.ltb_lt. rewrite En'.
    destruct (Z.lt_ge_cases (GetFreeSpaceMajor s) (hash_bytes + Z.of_nat (length (snd e)))); [done|]. tauto. }
  rewrite Eif, Ea. done.
Qed.

(** C12.  The store is a map from hashes to chunks, as far as chunks are put
    under the hash of their content and fit into an empty segment (somewhat
    less than 4 MB; the code does not check this). [Get] returns the bytes that
    were put under a key, or the empty chunk; [Put] of a present key changes
    nothing; [Put] of a new chunk succeeds, in whatever state the thread that
    enlarges the file is, and appends it to the log, exactly if the current
    segment has room or fewer than the maximal number of segments are in use;
    otherwise the process is terminated. *)
Theorem lst_put_get s log c e :
  represents s log -> chunk_entry c e -> seg_fits [e] ->
  (forall k, lst_Get s (Some k) = Some (stored_chunk log k)) /\
  (fst e ∈ log.*1 -> lst_Put max_segments_ s (Some (fst e)) c = Some (true, s)) /\
  (fst e ∉ log.*1 -> has_room s (Z.of_nat (length (snd e))) ->
     exists s', lst_Put max_segments_ s (Some (fst e)) c = Some (true, s') /\ represents s' (log ++ [e])) /\
  (fst e ∉ log.*1 -> ~ has_room s (Z.of_nat (length (snd e))) -> lst_Put max_segments_ s (Some (fst e)) c = None).
Proof.
  intros (majors & frees & Hi & Hne & <-) Hce Hfit. split_and!.
  - intros k. by apply (lst_Get_rep max_segments_ s majors frees).
  - by apply (put_exists s majors frees).
  - intros Hnew Hroom. assert (Hr : (exists ms sg, majors = ms ++ [sg] /\ seg_fits (snd sg ++ [e])) \/
      usedSegments (storeInfo s) < max_segments_).
    { destruct Hroom as [[Hc Hf]|?]; [left|by right]. destruct (majors_cases majors) as [->|(ms & sg & ->)].
      - by rewrite (iv_current _ _ _ _ Hi) in Hc.
      - exists ms, sg. split; [done|]. by apply (free_space s _ frees ms sg e Hi eq_refl (proj1 Hce)). }
    destruct (lst_Put_rep max_segments_ Hmax s majors frees e c Hi Hne Hce Hfit Hnew Hr)
      as (s' & mj & fr & E & Hi' & Hne' & El). exists s'. split; [done|]. by exists mj, fr.
  - intros Hnew Hroom. by apply (put_fails s majors frees).
Qed.

(** The thread that enlarges the file does not change what is stored. *)
Lemma Enlarge_represents s log :
  represents s log -> thread_status_ s <> kCompleted ->
  exists s', Enlarge max_segments_ s = Some s' /\ represents s' log.
Proof.
  intros (majors & frees & Hi & Hne & Hlog) Hst.
  destruct (Enlarge_rep max_segments_ Hmax s majors frees Hi Hst) as (s' & E & Hi' & _). exists s'. split; [done|].
  by exists majors, frees.
Qed.

(** ** Opening files *)

Lemma after_load s majors frees :
  lst_inv max_segments_ s majors frees -> thread_status_ s <> kCompleted -> nonempty majors ->
  exists s', (if freeSegments (storeInfo s) <? segment_increment_ then
      s1 ← Enlarge max_segments_ (set_status s kScheduled); Some (UpdateStore s1) else Some s) = Some s' /\
    represents s' (majors ≫= snd).
Proof.
  intros Hi Hst Hne. destruct (_ <? _); [|exists s; split; [done|by exists majors, frees]].
  destruct (Enlarge_rep max_segments_ Hmax (set_status s kScheduled) majors frees) as (s1 & -> & Hi1 & Hs1);
    [by apply set_status_inv|done|]. osimpl.
  destruct (UpdateStore_rep max_segments_ Hmax s1 majors frees Hi1 Hs1) as [Hi2 _].
  eexists. split; [reflexivity|]. by eexists _, _.
Qed.

Lemma new_log_zero x : x <> kMetaLogSize - 1 -> new_log x = x00.
Proof.
  intros Hx. unfold new_log. rewrite (mem_write_same _ _ _ x (x + 1)); [done| |lia]. cbn [length]. lia.
Qed.

Lemma new_log_layout : layout new_log [] [] 0.
Proof.
  constructor; try done; try constructor.
  - by destruct ms.
  - by destruct ms.
  - unfold seg_fits, size_of. cbn. lst_lia.
  - done.
  - intros x Hx. apply new_log_zero. unfold seg_off in *. change (size_of []) with 0 in Hx. lst_lia.
Qed.

Lemma new_log_integer a : 0 <= a <= 8 -> ReadInteger new_log a = 0.
Proof.
  intros Ha. unfold ReadInteger. replace (mem_read new_log a 8) with (replicate 8 x00); [done|].
  symmetry. rewrite <- (length_replicate 8 x00) at 1. apply holds_read. intros i b Hi.
  apply lookup_replicate in Hi as [-> Hi]. apply new_log_zero. lst_lia.
Qed.

(** A new file. *)
Lemma open_new junk : exists s, MmapUstoreLogFile max_segments_ None true junk = Some s /\ represents s [].
Proof.
  unfold MmapUstoreLogFile.
  destruct (Load_rep max_segments_ Hmax new_log [] [] 0 junk) as (s & -> & Hi & Hst);
    [apply new_log_layout|done|lia|by rewrite new_log_integer|by rewrite new_log_integer|constructor|constructor|].
  osimpl. apply (after_load s [] [] Hi); [by rewrite Hst|constructor].
Qed.

(** An empty store has room. *)
Lemma empty_room s n : represents s [] -> 0 < max_segments_ -> has_room s n.
Proof.
  intros (majors & frees & Hi & Hne & El) Hm. right. rewrite (iv_used _ _ _ _ Hi).
  destruct majors as [|sg ms]; [done|]. apply Forall_cons in Hne as [Hn _]. rewrite bind_cons in El.
  by apply app_nil in El as [? _].
Qed.

(** C15.  Restart: a new file opens as the empty store; and the file of a store,
    in whatever state the enlarging thread left it, opens as a store with the
    same log, so that every chunk is found again under its hash. *)
Theorem lst_reopen junk :
  (exists s, MmapUstoreLogFile max_segments_ None true junk = Some s /\ represents s []) /\
  (forall s log size, represents s log -> u64 (size - kMetaLogSize) mod kSegmentSize = 0 ->
     exists s', MmapUstoreLogFile max_segments_ (Some (mem s, size)) true junk = Some s' /\ represents s' log /\
       forall k, lst_Get s' (Some k) = lst_Get s (Some k)).
Proof.
  split; [apply open_new|]. unfold MmapUstoreLogFile.
  intros s log size (majors & frees & Hi & Hne & <-) Hsz. rewrite (proj2 (Z.eqb_eq _ _) Hsz).
  destruct (iv_meta _ _ _ _ Hi) as [M0 M8].
  destruct (Load_rep max_segments_ Hmax (mem s) majors frees (allocSegments (storeInfo s)) junk) as (s1 & -> & Hi1 & Hst);
    [apply Hi|apply Hi|apply Hi|by rewrite M0, (iv_free_list _ _ _ _ Hi)|by rewrite M8, (iv_major_list _ _ _ _ Hi)|
     apply Hi|apply Hi|].
  osimpl. destruct (after_load s1 majors frees Hi1) as (s' & -> & Hrep); [by rewrite Hst|done|].
  exists s'. split_and!; [done|done|]. intros k. destruct Hrep as (mj & fr & Hi' & _ & El).
  rewrite (lst_Get_rep _ _ _ _ k Hi), (lst_Get_rep _ _ _ _ k Hi'). by rewrite El.
Qed.

(** ** Iteration *)

(** The loop [for (it = begin(); it != end(); ++it)]. *)
Fixpoint lst_scan (steps : nat) (exists_check : bool) (s : LSTStore) (it : LstIter) : option (list Chunk) :=
  if iter_eq_ptr it (lst_end s) then Some []
  else
    match steps with
    | O => None
    | S steps' =>
        it' ← iter_next (S steps') exists_check s it;
        rest ← lst_scan steps' exists_check s it';
        Some (iter_chunk s it :: rest)
    end.

Definition entry_chunk (e : LogEntry) : Chunk := mkChunk (Some (snd e)) (Some (fst e)).

(** The iterator stands in front of the entries [es2] of a segment. *)
Record iter_at (s : LSTStore) (majors : list (Z * list LogEntry)) (pre : list (Z * list LogEntry)) (o : Z)
    (es1 es2 : list LogEntry) (post : list (Z * list LogEntry)) (it : LstIter) : Prop := {
  ia_majors : majors = pre ++ (o, es1 ++ es2) :: post;
  ia_segment : li_segment it = o;
  ia_ptr : li_ptr it = GetFirstChunkPtr o + size_of es1
}.

Lemma size_of_app es es' : size_of (es ++ es') = size_of es + size_of es'.
Proof. unfold size_of, seg_data. rewrite bind_app, length_app. lia. Qed.

Lemma iter_at_read s majors frees pre o es1 es2 post it :
  lst_inv max_segments_ s majors frees -> iter_at s majors pre o es1 es2 post it ->
  holds (mem s) (li_ptr it) (seg_data es2) /\ Forall log_entry_ok es2 /\
  zeros (mem s) (li_ptr it + size_of es2) (li_ptr it + size_of es2 + meta_bytes) /\
  (forall e, e ∈ es2 -> is_Some (chunk_map_ s !! fst e)).
Proof.
  intros Hi [-> Es Ep]. pose proof (seg_open_all _ _ _ _ Hi) as Hso.
  apply Forall_app in Hso as [_ [Ho _]%Forall_cons]. cbn [fst snd] in Ho. pose proof (so_data _ _ _ Ho) as Hd.
  rewrite Ep. split_and!.
  - unfold seg_data in Hd. rewrite bind_app in Hd. apply holds_app in Hd as [_ Hd]. exact Hd.
  - pose proof (iv_entries _ _ _ _ Hi) as He. rewrite bind_app, bind_cons in He. cbn [snd] in He.
    apply Forall_app in He as [_ [He _]%Forall_app]. by apply Forall_app in He as [_ He].
  - pose proof (seg_tail_zeros _ _ _ Ho) as Hz. rewrite size_of_app, Z.add_assoc in Hz. exact Hz.
  - intros e He. apply not_eq_None_Some. intros E. apply (chunk_map_None _ _ _ _ _ Hi) in E. apply E.
    apply list_elem_of_fmap_2. rewrite bind_app, bind_cons. cbn [snd]. rewrite !elem_of_app. tauto.
Qed.

(** An entry under the iterator. *)
Lemma iter_at_entry s majors frees pre o es1 e es2 post it b :
  lst_inv max_segments_ s majors frees -> iter_at s majors pre o es1 (e :: es2) post it ->
  iter_chunk s it = entry_chunk e /\ IsEndChunk (PtrToChunkType (mem s) (li_ptr it)) = false /\
  policy_check b s (li_ptr it) = true /\
  GetPtrToNextChunk (mem s) (li_ptr it) = GetFirstChunkPtr o + size_of (es1 ++ [e]).
Proof.
  intros Hi Hat. destruct (iter_at_read _ _ _ _ _ _ _ _ _ Hi Hat) as (Hd & Hok & _ & Hm).
  apply Forall_cons in Hok as [He _]. destruct (seg_next _ _ _ _ He Hd) as (Hh & _).
  destruct (entry_at _ _ _ He Hh) as (Eb & El & Ek & Ee & _). split_and!.
  - unfold iter_chunk, entry_chunk. by rewrite El, Nat2Z.id, Eb, Ek.
  - done.
  - unfold policy_check. rewrite El, Ek. apply orb_true_iff. right. apply bool_decide_eq_true. apply Hm. by left.
  - unfold GetPtrToNextChunk. rewrite El, (ia_ptr _ _ _ _ _ _ _ _ Hat), (size_of_snoc es1 e He). lia.
Qed.

Lemma iter_next_rep steps s majors frees pre o es1 e es2 post it b :
  lst_inv max_segments_ s majors frees -> nonempty majors -> iter_at s majors pre o es1 (e :: es2) post it ->
  exists it', iter_next (S steps) b s it = Some it' /\
    match es2, post with
    | [], [] => li_ptr it' = li_ptr (lst_end s)
    | [], (o', es') :: post' => iter_at s majors (pre ++ [(o, es1 ++ [e])]) o' [] es' post' it'
    | _, _ => iter_at s majors pre o (es1 ++ [e]) es2 post it'
    end.
Proof.
  intros Hi Hne Hat. destruct (iter_at_entry _ _ _ _ _ _ _ _ _ _ b Hi Hat) as (_ & Ee & _ & En).
  pose proof (ia_majors _ _ _ _ _ _ _ _ Hat) as Em. pose proof (ia_segment _ _ _ _ _ _ _ _ Hat) as Es.
  pose proof (ly_segs _ _ _ _ (iv_layout _ _ _ _ Hi)) as Hsegs. apply Forall_app in Hsegs as [Hsegs _].
  assert (Ho : kMetaLogSize <= o).
  { rewrite Em, fmap_app, fmap_cons in Hsegs. apply Forall_app in Hsegs as [_ [Hs _]%Forall_cons]. by apply is_seg_pos in Hs. }
  unfold iter_next. rewrite Ee, (proj2 (Z.eqb_neq _ _)), orb_false_l; cbn [negb]; osimpl.
  2:{ rewrite (ia_ptr _ _ _ _ _ _ _ _ Hat). unfold size_of. lst_lia. }
  cbn [iter_loop]. rewrite En, Es.
  assert (Hcont : forall es1' es2', es2' <> [] -> es1 ++ e :: es2 = es1' ++ es2' -> size_of es1' = size_of (es1 ++ [e]) ->
    IsEndChunk (PtrToChunkType (mem s) (GetFirstChunkPtr o + size_of (es1 ++ [e]))) = false /\
    policy_check b s (GetFirstChunkPtr o + size_of (es1 ++ [e])) = true).
  { intros es1' [|e' es2'] Hn E Hsz; [done|].
    assert (Hat' : iter_at s majors pre o es1' (e' :: es2') post (mkLIter o (GetFirstChunkPtr o + size_of (es1 ++ [e])))).
    { constructor; cbn; [by rewrite <- E|done|by rewrite Hsz]. }
    destruct (iter_at_entry _ _ _ _ _ _ _ _ _ _ b Hi Hat') as (_ & Ee' & Ep' & _). done. }
  destruct es2 as [|e2 es2].
  - assert (Hend : IsEndChunk (PtrToChunkType (mem s) (GetFirstChunkPtr o + size_of (es1 ++ [e]))) = true).
    { destruct (iter_at_read _ _ _ _ _ _ _ _ _ Hi Hat) as (_ & _ & Hz & _).
      rewrite (ia_ptr _ _ _ _ _ _ _ _ Hat) in Hz. rewrite <- !Z.add_assoc, <- size_of_app, !Z.add_assoc in Hz.
      rewrite <- Z.add_assoc in Hz.
      apply end_at. intros x Hx. apply Hz. rewrite !size_of_app in *. lia. }
    rewrite Hend. pose proof (iv_next_majors _ _ _ _ Hi) as Hch. rewrite Em, fmap_app, fmap_cons in Hch. cbn [fst] in Hch.
    assert (Hnext : next_ s o = hd0 post.*1).
    { clear -Hch. induction pre.*1 as [|x l IH]; cbn in Hch; [by destruct Hch|]. destruct Hch as [_ Hch]. by apply IH. }
    rewrite Hnext. destruct post as [|[o' es'] post].
    + change (hd0 ([] : list (Z * list LogEntry)).*1) with 0. cbn [Z.eqb negb andb li_ptr]. rewrite Hend, andb_false_r.
      eexists. split; [reflexivity|]. cbn [li_ptr]. unfold lst_end.
      rewrite (iv_current _ _ _ _ Hi), Em, last0_snoc. cbn [fst]. rewrite (proj2 (Z.eqb_neq _ _)) by lst_lia. cbn [li_ptr].
      rewrite (iv_offset _ _ _ _ Hi pre _ Em). cbn [snd]. lst_lia.
    + change (hd0 ((o', es') :: post).*1) with o'.
      assert (Ho' : kMetaLogSize <= o').
      { rewrite Em, fmap_app, !fmap_cons in Hsegs.
        apply Forall_app in Hsegs as [_ [_ [Hs _]%Forall_cons]%Forall_cons]. by apply is_seg_pos in Hs. }
      rewrite (proj2 (Z.eqb_neq _ _)) by lst_lia. cbn [negb andb li_ptr].
      assert (Hat' : iter_at s majors (pre ++ [(o, es1 ++ [e])]) o' [] es' post (mkLIter o' (GetFirstChunkPtr o'))).
      { constructor; cbn; [by rewrite Em, <- app_assoc|done|]. change (size_of []) with 0. lia. }
      destruct es' as [|e' es'].
      { rewrite Em in Hne. apply Forall_app in Hne as [_ [_ [Hn _]%Forall_cons]%Forall_cons]. done. }
      destruct (iter_at_entry _ _ _ _ _ _ _ _ _ _ b Hi Hat') as (_ & _ & Ep' & _). cbn [li_ptr] in Ep'.
      rewrite Ep'. cbn [negb andb]. eauto.
  - destruct (Hcont (es1 ++ [e]) (e2 :: es2)) as [H1 H2]; [done|by rewrite <- app_assoc|done|].
    rewrite H1. cbn [andb li_ptr]. rewrite H1, H2. cbn [negb andb]. eexists. split; [reflexivity|].
    constructor; cbn; [by rewrite Em, <- app_assoc|done|done].
Qed.

(** An entry is not the end. *)
Lemma iter_not_end s majors frees pre o es1 e es2 post it :
  lst_inv max_segments_ s majors frees -> iter_at s majors pre o es1 (e :: es2) post it ->
  iter_eq_ptr it (lst_end s) = false.
Proof.
  intros Hi Hat. destruct (iter_at_entry _ _ _ _ _ _ _ _ _ _ true Hi Hat) as (_ & Ee & _).
  apply Z.eqb_neq. intros E. rewrite E in Ee.
  destruct (majors_cases majors) as [->|(ms & sg & Em)].
  { pose proof (ia_majors _ _ _ _ _ _ _ _ Hat) as Em. by destruct pre. }
  pose proof (seg_open_all _ _ _ _ Hi) as Hso. pose proof (ly_segs _ _ _ _ (iv_layout _ _ _ _ Hi)) as Hsegs.
  rewrite Em in Hso, Hsegs. apply Forall_app in Hso as [_ [Ho _]%Forall_cons].
  rewrite fmap_app, <- app_assoc in Hsegs. apply Forall_app in Hsegs as [_ [Hs _]%Forall_cons]. apply is_seg_pos in Hs.
  unfold lst_end in Ee. rewrite (iv_current _ _ _ _ Hi), Em, last0_snoc, (proj2 (Z.eqb_neq _ _)) in Ee by lst_lia.
  cbn [li_ptr] in Ee. rewrite (iv_offset _ _ _ _ Hi ms sg Em) in Ee. apply seg_tail_zeros, end_at, proj2 in Ho.
  unfold GetFirstChunkPtr in Ho. rewrite Z.add_assoc in Ee. congruence.
Qed.

Lemma lst_scan_rep s majors frees b :
  lst_inv max_segments_ s majors frees -> nonempty majors -> forall steps pre o es1 es2 post it,
  iter_at s majors pre o es1 es2 post it -> es2 <> [] -> (length (es2 ++ (post ≫= snd)) <= steps)%nat ->
  lst_scan steps b s it = Some (entry_chunk <$> (es2 ++ (post ≫= snd))).
Proof.
  intros Hi Hne. induction steps as [|steps IH]; intros pre o es1 [|e es2] post it Hat Hn Hst; try done.
  { cbn in Hst. lia. }
  cbn [lst_scan]. rewrite (iter_not_end _ _ _ _ _ _ _ _ _ _ Hi Hat).
  destruct (iter_next_rep steps _ _ _ _ _ _ _ _ _ _ b Hi Hne Hat) as (it' & -> & Hit'). osimpl.
  destruct (iter_at_entry _ _ _ _ _ _ _ _ _ _ b Hi Hat) as (-> & _). cbn [app length] in Hst.
  assert (Hrest : lst_scan steps b s it' = Some (entry_chunk <$> (es2 ++ (post ≫= snd)))).
  { destruct es2 as [|e2 es2]; [|apply (IH _ _ _ _ _ _ Hit'); [done|lia]]. destruct post as [|[o' es'] post].
    - destruct steps; cbn [lst_scan]; unfold iter_eq_ptr; by rewrite Hit', Z.eqb_refl.
    - rewrite bind_cons in Hst |- *. cbn [snd app] in *. apply (IH _ _ _ _ _ _ Hit'); [|lia].
      pose proof (ia_majors _ _ _ _ _ _ _ _ Hit') as Em. rewrite Em in Hne.
      by apply Forall_app in Hne as [_ [Hn' _]%Forall_cons]. }
  by rewrite Hrest.
Qed.

(** Iterating over the store from [begin] to [end] shows every chunk once,
    in the order in which the chunks were put, across all segments, with and
    without the check that the key is in the map. *)
Theorem lst_iterate s log b :
  represents s log -> lst_scan (length log) b s (lst_begin s) = Some (entry_chunk <$> log).
Proof.
  intros (majors & frees & Hi & Hne & <-). unfold lst_begin. destruct majors as [|[o es] post].
  - rewrite (iv_major_list _ _ _ _ Hi). cbn. unfold iter_eq_ptr, lst_end. by rewrite (iv_current _ _ _ _ Hi).
  - rewrite (iv_major_list _ _ _ _ Hi). change (hd0 ((o, es) :: post).*1) with o.
    pose proof (ly_segs _ _ _ _ (iv_layout _ _ _ _ Hi)) as Hsegs. apply Forall_cons in Hsegs as [Hs _].
    apply is_seg_pos in Hs. cbn [fst] in Hs. rewrite (proj2 (Z.eqb_neq _ _)) by lst_lia.
    rewrite bind_cons. cbn [snd]. apply Forall_cons in Hne as Hn. destruct Hn as [Hn _].
    apply (lst_scan_rep s ((o, es) :: post) frees b Hi Hne _ [] o [] es post); [|done|done].
    constructor; cbn; [done|done|]. change (size_of []) with 0. lia.
Qed.

(** ** Runs *)

(** What happens to a store: chunks are put, and the thread runs once it is
    scheduled. *)
Inductive lst_step (s : LSTStore) : LSTStore -> Prop :=
  | step_put c e ok s' : chunk_entry c e -> seg_fits [e] -> lst_Put max_segments_ s (Some (fst e)) c = Some (ok, s') ->
      lst_step s s'
  | step_enlarge s' : thread_status_ s = kScheduled -> Enlarge max_segments_ s = Some s' -> lst_step s s'.

Lemma lst_step_represents s s' log :
  represents s log -> lst_step s s' -> exists log', represents s' (log ++ log').
Proof.
  intros Hr Hstep. pose proof Hr as (majors & frees & Hi & Hne & Hlog). destruct Hstep as [c e ok s' Hce Hf E|s' Hst E].
  - destruct (decide (fst e ∈ log.*1)) as [Hin|Hnew].
    + rewrite <- Hlog in Hin. rewrite (put_exists _ _ _ _ _ Hi Hce Hin) in E. injection E as <- <-.
      exists []. by rewrite app_nil_r.
    + rewrite <- Hlog in Hnew.
      assert (Hr' : (exists ms sg, majors = ms ++ [sg] /\ seg_fits (snd sg ++ [e])) \/ usedSegments (storeInfo s) < max_segments_ \/
        ~ has_room s (Z.of_nat (length (snd e)))).
      { unfold has_room. destruct (Z.lt_ge_cases (usedSegments (storeInfo s)) max_segments_) as [?|Hge]; [tauto|].
        destruct (majors_cases majors) as [->|(ms & sg & Em)].
        - right. right. rewrite (iv_current _ _ _ _ Hi). intros [[? _]|?]; [done|lia].
        - destruct (free_space s majors frees ms sg e Hi Em (proj1 Hce)) as [Hc Hfs].
          destruct (Z.le_gt_cases (hash_bytes + Z.of_nat (length (snd e))) (GetFreeSpaceMajor s)) as [Hle|Hgt].
          + left. exists ms, sg. split; [done|]. by apply Hfs.
          + right. right. intros [[_ ?]|?]; lia. }
      destruct Hr' as [Hr'|[Hr'|Hr']]; [..|by rewrite (put_fails _ _ _ _ _ Hi Hce Hnew Hr') in E].
      all: destruct (lst_Put_rep max_segments_ Hmax s majors frees e c Hi Hne Hce Hf Hnew ltac:(tauto))
        as (s2 & mj & fr & E2 & Hi' & Hne' & El); rewrite E2 in E; injection E as <- <-;
        exists [e]; exists mj, fr; split_and!; [done|done|by rewrite El, Hlog].
  - destruct (Enlarge_represents s log Hr) as (s2 & E2 & Hr2); [by rewrite Hst|]. rewrite E2 in E. injection E as <-.
    exists []. by rewrite app_nil_r.
Qed.

(** C21.  In a store that starts on a new file, whatever chunks are put, each
    under the hash of its content and small enough for an empty segment, and
    however the steps of the enlarging thread fall between, the store holds a
    log of entries; nothing that was put is ever lost or changed. *)
Theorem lst_run_invariant junk s0 s :
  MmapUstoreLogFile max_segments_ None true junk = Some s0 -> rtc lst_step s0 s ->
  (exists log, represents s log) /\
  (forall s' k c, rtc lst_step s s' -> lst_Get s (Some k) = Some c -> c <> chunk_null -> lst_Get s' (Some k) = Some c).
Proof.
  intros E Hrun. assert (Hall : forall s1 s2 log, rtc lst_step s1 s2 -> represents s1 log -> exists log', represents s2 (log ++ log')).
  { intros s1 s2 log Hr. revert log. induction Hr as [x|x y z Hxy Hyz IH]; intros log Hx.
    - exists []. by rewrite app_nil_r.
    - destruct (lst_step_represents _ _ _ Hx Hxy) as [l1 Hy]. destruct (IH _ Hy) as [l2 Hz].
      exists (l1 ++ l2). by rewrite app_assoc. }
  assert (H0 : represents s0 []).
  { destruct (open_new junk) as (s1 & E1 & Hr). rewrite E in E1. by injection E1 as ->. }
  destruct (Hall _ _ _ Hrun H0) as [log Hlog]. split; [by exists log|]. intros s' k c Hrun' Hg Hc.
  destruct (Hall _ _ _ Hrun' Hlog) as [log' (mj' & fr' & Hi' & _ & El')].
  destruct Hlog as (mj & fr & Hi & _ & El). rewrite (lst_Get_rep _ _ _ _ k Hi) in Hg. rewrite (lst_Get_rep _ _ _ _ k Hi').
  cbn [app] in El, El'. rewrite El'. rewrite El in Hg. injection Hg as Hg. f_equal. unfold stored_chunk in *. rewrite list_to_map_app.
  destruct ((list_to_map log : gmap bytes bytes) !! k) as [b0|] eqn:Eb; rewrite ?Eb in *; [|congruence].
  by rewrite (lookup_union_Some_l _ _ _ _ Eb).
Qed.

End Claims.

(** ** Witnesses *)

Section Witnesses.
#[local] Existing Instance plain_hash.

Definition small_chunk : Chunk := chunk_make kBlob [x01; x02].
Definition sample_entry : LogEntry := (ComputeFrom (chunk_bytes kBlob [x01; x02]), chunk_bytes kBlob [x01; x02]).

Lemma small_chunk_entry : chunk_entry small_chunk sample_entry.
Proof.
  split; [|by exists []]. constructor; [|done]. by exists kBlob, [x01; x02].
Qed.

Lemma sample_fits : seg_fits [sample_entry].
Proof. by vm_compute. Qed.

Lemma lst_put_get_witness : exists s s',
  represents 64 s [] /\ lst_Put 64 s (Some (fst sample_entry)) small_chunk = Some (true, s') /\
  represents 64 s' [sample_entry].
Proof.
  destruct (open_new 64 ltac:(lia) 0) as (s & _ & Hr).
  destruct (lst_put_get 64 ltac:(lia) s [] small_chunk sample_entry Hr small_chunk_entry sample_fits)
    as (_ & _ & Hput & _).
  destruct Hput as (s' & E & Hr'); [apply not_elem_of_nil|exact (empty_room 64 s _ Hr ltac:(lia))|].
  exists s, s'. split; [exact Hr|]. split; [exact E|exact Hr'].
Defined.

(** A store with one chunk. *)
Lemma sample_store : exists s0 s, MmapUstoreLogFile 64 None true 0 = Some s0 /\
  lst_Put 64 s0 (Some (fst sample_entry)) small_chunk = Some (true, s) /\ represents 64 s [sample_entry].
Proof.
  destruct (open_new 64 ltac:(lia) 0) as (s0 & E0 & Hr). pose proof Hr as (majors & frees & Hi & Hne & El).
  destruct (lst_Put_rep 64 ltac:(lia) s0 majors frees sample_entry small_chunk Hi Hne small_chunk_entry sample_fits)
    as (s & mj & fr & E & Hi' & Hne' & El').
  - rewrite El. apply not_elem_of_nil.
  - right. destruct (empty_room 64 s0 0 Hr ltac:(lia)) as [[Hc _]|Hu]; [|exact Hu].
    rewrite (iv_current _ _ _ _ Hi) in Hc. destruct majors as [|sg ms]; [destruct (Hc eq_refl)|].
    apply Forall_cons in Hne as [Hn _]. rewrite bind_cons in El. apply app_nil in El as [El _]. destruct (Hn El).
  - exists s0, s. split_and!; [exact E0|exact E|]. exists mj, fr. split_and!; [exact Hi'|exact Hne'|]. by rewrite El', El.
Qed.

Lemma lst_reopen_witness : exists s s',
  MmapUstoreLogFile 64 (Some (mem s, kMetaLogSize + 32 * kSegmentSize)) true 7 = Some s' /\
  represents 64 s' [sample_entry].
Proof.
  destruct sample_store as (s0 & s & _ & _ & Hr).
  destruct (lst_reopen 64 ltac:(lia) 7) as [_ R].
  destruct (R s [sample_entry] (kMetaLogSize + 32 * kSegmentSize) Hr eq_refl) as (s' & E & Hr' & _).
  exists s, s'. split; [exact E|exact Hr'].
Defined.

Lemma lst_iterate_witness : exists s, lst_scan 1 true s (lst_begin s) = Some [entry_chunk sample_entry].
Proof.
  destruct sample_store as (s0 & s & _ & _ & Hr). exists s.
  exact (lst_iterate 64 ltac:(lia) s [sample_entry] true Hr).
Defined.

Lemma lst_run_invariant_witness : exists s0 s log,
  MmapUstoreLogFile 64 None true 0 = Some s0 /\ rtc (lst_step 64) s0 s /\ represents 64 s log.
Proof.
  destruct sample_store as (s0 & s & E0 & E & _).
  assert (Hrun : rtc (lst_step 64) s0 s).
  { apply rtc_once. eapply step_put; [exact small_chunk_entry|exact sample_fits|exact E]. }
  destruct (lst_run_invariant 64 ltac:(lia) 0 s0 s E0 Hrun) as [[log Hr] _].
  exists s0, s, log. split; [exact E0|]. split; [exact Hrun|exact Hr].
Defined.

End Witnesses.
