(* ===== verification/Messages.v ===== *)
(** * Messages between clients and workers: [src/proto/messages.proto],
      [include/utils/message_parser.h]

    The generated protobuf classes are records: an [optional] field is an
    [option], a [repeated] field a list.  Turning a message into bytes and back
    is protobuf's and a parameter. *)

From S2P Require Import Prelude Types Slice HashVal.

(** [enum Type]. *)
Inductive MsgType :=
  | PUT_REQUEST | GET_REQUEST | MERGE_REQUEST | LIST_REQUEST | EXISTS_REQUEST
  | GET_BRANCH_HEAD_REQUEST | IS_BRANCH_HEAD_REQUEST | GET_LATEST_VERSION_REQUEST
  | IS_LATEST_VERSION_REQUEST | BRANCH_REQUEST | RENAME_REQUEST | DELETE_REQUEST
  | PUT_UNKEYED_REQUEST | GET_INFO_REQUEST | PUT_CHUNK_REQUEST | GET_CHUNK_REQUEST
  | EXISTS_CHUNK_REQUEST | RESPONSE.

#[export] Instance MsgType_eq_dec : EqDecision MsgType.
Proof. solve_decision. Defined.

Record RequestPayload := mkReq {
  rq_key : option bytes;
  rq_version : option bytes;
  rq_branch : option bytes;
  rq_ref_version : option bytes;
  rq_ref_branch : option bytes
}.

Record ValuePayload := mkVP {
  vp_type : option Z;
  vp_base : option bytes;
  vp_pos : option Z;
  vp_dels : option Z;
  vp_values : list bytes;
  vp_keys : list bytes;
  vp_ctx : option bytes
}.

Record ResponsePayload := mkResp {
  rs_stat : option Z;
  rs_value : option bytes;
  rs_bvalue : option bool;
  rs_lvalue : list bytes
}.

Record InfoPayload := mkIP {
  ip_node_id : option bytes;
  ip_chunks : Z; ip_chunk_bytes : Z; ip_valid_chunks : Z; ip_valid_chunk_bytes : Z;
  ip_max_segments : Z; ip_alloc_segments : Z; ip_free_segments : Z; ip_used_segments : Z;
  ip_chunk_types : list Z; ip_chunks_per_type : list Z; ip_bytes_per_type : list Z
}.

Record UMessage := mkMsg {
  msg_type : MsgType;
  msg_source : option Z;
  request_payload : option RequestPayload;
  value_payload : option ValuePayload;
  response_payload : option ResponsePayload;
  info_payload : option InfoPayload
}.

#[export] Instance RequestPayload_eq_dec : EqDecision RequestPayload.
Proof. solve_decision. Defined.
#[export] Instance ValuePayload_eq_dec : EqDecision ValuePayload.
Proof. solve_decision. Defined.
#[export] Instance ResponsePayload_eq_dec : EqDecision ResponsePayload.
Proof. solve_decision. Defined.
#[export] Instance InfoPayload_eq_dec : EqDecision InfoPayload.
Proof. solve_decision. Defined.
#[export] Instance UMessage_eq_dec : EqDecision UMessage.
Proof. solve_decision. Defined.

(** Messages without fields, which [mutable_...] starts from and which the
    accessors of an absent payload return. *)
Definition empty_request : RequestPayload := mkReq None None None None None.
Definition empty_value : ValuePayload := mkVP None None None None [] [] None.
Definition empty_response : ResponsePayload := mkResp None None None [].

Definition request_of (m : UMessage) : RequestPayload := default empty_request (request_payload m).
Definition value_of (m : UMessage) : ValuePayload := default empty_value (value_payload m).
Definition response_of (m : UMessage) : ResponsePayload := default empty_response (response_payload m).

(** The value of an absent [bytes] field is the empty string. *)
Definition str (f : option bytes) : bytes := default [] f.

(** [Hash(const std::string&)]: a pointer to the bytes of the string. *)
Definition hash_of_str (f : option bytes) : Hash := Some (str f).

(** [set_version(hash.value(), Hash::kByteLength)] and the like; the empty hash
    has no bytes to copy. *)
Definition bytes_of_hash (h : Hash) : option bytes := v ← h; read_bytes 0 kByteLength v.

(** ** The library *)

(** The integers of a message are in the range of their types, and the required
    fields are set. *)
Definition is_i32 (z : Z) : Prop := (- 2 ^ 31 <= z < 2 ^ 31)%Z.
Definition is_i64 (z : Z) : Prop := (- 2 ^ 63 <= z < 2 ^ 63)%Z.

Definition opt_all {A} (P : A -> Prop) (o : option A) : Prop := match o with Some a => P a | None => True end.

Definition value_payload_ok (p : ValuePayload) : Prop :=
  opt_all is_i32 (vp_type p) /\ opt_all is_i64 (vp_pos p) /\ opt_all is_i32 (vp_dels p).

Definition response_payload_ok (p : ResponsePayload) : Prop := exists z, rs_stat p = Some z /\ is_i32 z.

Definition info_payload_ok (p : InfoPayload) : Prop :=
  is_Some (ip_node_id p) /\
  Forall is_i64 ([ip_chunks p; ip_chunk_bytes p; ip_valid_chunks p; ip_valid_chunk_bytes p; ip_max_segments p;
    ip_alloc_segments p; ip_free_segments p; ip_used_segments p] ++ ip_chunks_per_type p ++ ip_bytes_per_type p) /\
  Forall is_i32 (ip_chunk_types p).

Definition message_ok (m : UMessage) : Prop :=
  (exists z, msg_source m = Some z /\ is_i32 z) /\ opt_all value_payload_ok (value_payload m) /\
  opt_all response_payload_ok (response_payload m) /\ opt_all info_payload_ok (info_payload m).

(** Serialising a message, and what the two ways to parse leave in it.  Messages
    beyond protobuf's limit of 2 GB are not considered. *)
Class Protobuf := {
  SerializeToArray : UMessage -> bytes;
  ParseFromArray : bytes -> UMessage;
  ParseFromCodedStream : bytes -> UMessage
}.

Class ProtobufSpec `{Protobuf} := {
  parse_array : forall m, message_ok m -> ParseFromArray (SerializeToArray m) = m;
  parse_stream : forall m, message_ok m -> ParseFromCodedStream (SerializeToArray m) = m
}.

(** [MessageParser::Parse]. *)
Definition Parse `{Protobuf} (msg : bytes) : UMessage :=
  if (Z.of_nat (length msg) <? Z.shiftl 60 20)%Z then ParseFromArray msg else ParseFromCodedStream msg.

Lemma Parse_Serialize `{ProtobufSpec} m : message_ok m -> Parse (SerializeToArray m) = m.
Proof. intros Hm. unfold Parse. destruct (_ <? _)%Z; [by apply parse_array|by apply parse_stream]. Qed.

(** ** A concrete serialisation, for witnesses: the number of the message in an
    enumeration of all messages, bit by bit. *)

Definition msgtype_number (t : MsgType) : nat :=
  match t with
  | PUT_REQUEST => 1 | GET_REQUEST => 2 | MERGE_REQUEST => 3 | LIST_REQUEST => 10 | EXISTS_REQUEST => 11
  | GET_BRANCH_HEAD_REQUEST => 12 | IS_BRANCH_HEAD_REQUEST => 13 | GET_LATEST_VERSION_REQUEST => 14
  | IS_LATEST_VERSION_REQUEST => 15 | BRANCH_REQUEST => 20 | RENAME_REQUEST => 21 | DELETE_REQUEST => 22
  | PUT_UNKEYED_REQUEST => 23 | GET_INFO_REQUEST => 31 | PUT_CHUNK_REQUEST => 40 | GET_CHUNK_REQUEST => 41
  | EXISTS_CHUNK_REQUEST => 42 | RESPONSE => 50
  end.

Definition msgtype_of_number (n : nat) : option MsgType :=
  match n with
  | 1 => Some PUT_REQUEST | 2 => Some GET_REQUEST | 3 => Some MERGE_REQUEST | 10 => Some LIST_REQUEST
  | 11 => Some EXISTS_REQUEST | 12 => Some GET_BRANCH_HEAD_REQUEST | 13 => Some IS_BRANCH_HEAD_REQUEST
  | 14 => Some GET_LATEST_VERSION_REQUEST | 15 => Some IS_LATEST_VERSION_REQUEST | 20 => Some BRANCH_REQUEST
  | 21 => Some RENAME_REQUEST | 22 => Some DELETE_REQUEST | 23 => Some PUT_UNKEYED_REQUEST
  | 31 => Some GET_INFO_REQUEST | 40 => Some PUT_CHUNK_REQUEST | 41 => Some GET_CHUNK_REQUEST
  | 42 => Some EXISTS_CHUNK_REQUEST | 50 => Some RESPONSE | _ => None
  end.

#[export] Instance MsgType_countable : Countable MsgType.
Proof. by apply (inj_countable msgtype_number msgtype_of_number); intros []. Defined.

#[export] Instance RequestPayload_countable : Countable RequestPayload.
Proof.
  by refine (inj_countable' (fun p => (rq_key p, rq_version p, rq_branch p, rq_ref_version p, rq_ref_branch p))
    (fun '(a, b, c, d, e) => mkReq a b c d e) _); intros [].
Defined.

#[export] Instance ValuePayload_countable : Countable ValuePayload.
Proof.
  by refine (inj_countable' (fun p => (vp_type p, vp_base p, vp_pos p, vp_dels p, vp_values p, vp_keys p, vp_ctx p))
    (fun '(a, b, c, d, e, f, g) => mkVP a b c d e f g) _); intros [].
Defined.

#[export] Instance ResponsePayload_countable : Countable ResponsePayload.
Proof.
  by refine (inj_countable' (fun p => (rs_stat p, rs_value p, rs_bvalue p, rs_lvalue p))
    (fun '(a, b, c, d) => mkResp a b c d) _); intros [].
Defined.

#[export] Instance InfoPayload_countable : Countable InfoPayload.
Proof.
  by refine (inj_countable' (fun p => (ip_node_id p, (ip_chunks p, ip_chunk_bytes p, ip_valid_chunks p, ip_valid_chunk_bytes p),
      (ip_max_segments p, ip_alloc_segments p, ip_free_segments p, ip_used_segments p),
      (ip_chunk_types p, ip_chunks_per_type p, ip_bytes_per_type p)))
    (fun '(n, (a, b, c, d), (e, f, g, h), (i, j, k)) => mkIP n a b c d e f g h i j k) _); intros [].
Defined.

#[export] Instance UMessage_countable : Countable UMessage.
Proof.
  by refine (inj_countable' (fun m => (msg_type m, msg_source m, request_payload m, value_payload m, response_payload m,
      info_payload m))
    (fun '(a, b, c, d, e, f) => mkMsg a b c d e f) _); intros [].
Defined.

Fixpoint bits (p : positive) : bytes :=
  match p with xH => [] | xO p' => x00 :: bits p' | xI p' => x01 :: bits p' end.

Fixpoint unbits (l : bytes) : positive :=
  match l with [] => xH | b :: l' => if decide (b = x01) then xI (unbits l') else xO (unbits l') end.

Lemma unbits_bits p : unbits (bits p) = p.
Proof. induction p as [p IH|p IH|]; simpl; by rewrite ?IH. Qed.

Definition bit_parse (l : bytes) : UMessage :=
  default (mkMsg RESPONSE None None None None None) (decode (unbits l)).

Definition bit_protobuf : Protobuf :=
  {| SerializeToArray m := bits (encode m); ParseFromArray := bit_parse; ParseFromCodedStream := bit_parse |}.

Definition bit_protobuf_spec : @ProtobufSpec bit_protobuf.
Proof. split; intros m _; simpl; unfold bit_parse; by rewrite unbits_bits, decode_encode. Qed.
