(* ===== verification/WorkerService.v ===== *)
(** * The service of a worker: [include/cluster/worker_service.h],
      [src/cluster/worker_service.cc]

    One request message is answered by one response message; the lock of the
    service makes the requests a sequence.  The access log, which records
    requests and is off by default, is left out. *)

From S2P Require Import Prelude Types Slice HashVal Chunk RollingHash Node Chunker.
From S2P Require Import Store Cursor Builder Advanced Objects Cell HeadVersion Worker Messages.

(** [struct StoreInfo] of [chunk_store.h], and [ChunkStore::GetInfo]. *)
Record NodeInfo := mkNodeInfo {
  ni_chunks : Z; ni_chunkBytes : Z; ni_validChunks : Z; ni_validChunkBytes : Z;
  ni_maxSegments : Z; ni_allocSegments : Z; ni_freeSegments : Z; ni_usedSegments : Z;
  ni_chunksPerType : gmap Z Z; ni_bytesPerType : gmap Z Z;
  ni_nodeId : bytes
}.

Class InfoSource (St : Type) := cs_GetInfo : St -> NodeInfo.

(** A [Hash] made from a field of a request points to the bytes of the field;
    whatever is done with it reads [kByteLength] of them. *)
Definition hash_arg (f : option bytes) : option Hash := v ← read_bytes 0 kByteLength (str f); Some (Some v).

(** [ValueFromRequest].  The worker treats a type outside the enumeration like
    [kUnknown]. *)
Definition ValueFromRequest (payload : ValuePayload) : option Value :=
  base ← (match vp_base payload with Some b => hash_arg (Some b) | None => Some None end);
  Some (mkValue
    (default UUnknown (utype_of_code (u8 (default 0%Z (vp_type payload)))))
    base
    (u64 (default 0%Z (vp_pos payload)))
    (u64 (default 0%Z (vp_dels payload)))
    (vp_values payload) (vp_keys payload) (str (vp_ctx payload))).

Definition has {A} (f : option A) : bool := bool_decide (is_Some f).

(** [response->set_stat(code)]. *)
Definition stat_response (code : ErrorCode) : ResponsePayload := mkResp (Some (error_code code)) None None [].

(** The status; if it is [kOK], also the value. *)
Definition version_response (code : ErrorCode) (ver : Hash) : option ResponsePayload :=
  match code with
  | kOK => v ← bytes_of_hash ver; Some (mkResp (Some (error_code code)) (Some v) None [])
  | _ => Some (stat_response code)
  end.

Definition chunk_response (code : ErrorCode) (c : Chunk) : option ResponsePayload :=
  match code with
  | kOK =>
      h ← head_ c; n ← chunk_numBytes c; b ← read_bytes 0 (Z.to_nat n) h;
      Some (mkResp (Some (error_code code)) (Some b) None [])
  | _ => Some (stat_response code)
  end.

Definition bool_response (r : ErrorCode * bool) : ResponsePayload :=
  match fst r with
  | kOK => mkResp (Some (error_code (fst r))) None (Some (snd r)) []
  | _ => stat_response (fst r)
  end.

Definition list_response (r : ErrorCode * list bytes) : ResponsePayload :=
  match fst r with
  | kOK => mkResp (Some (error_code (fst r))) None None (snd r)
  | _ => stat_response (fst r)
  end.

Section Service.
Context `{HashFunction} `{Uninit} `{StdSort} `{Protobuf}.
Context {St : Type} `{ChunkStore St} `{InfoSource St} {HV : Type} `{HeadVersion HV}.
Variable (params : NodeKind -> ChunkerParams) (fuel : nat) (node_addr_ : bytes).
Implicit Types (w : Worker HV St) (umsg : UMessage).

(** A handler returns the response and the worker. *)
Abbreviation Handled := (option (ResponsePayload * Worker HV St)).

Definition written (r : ErrorCode * Hash * Worker HV St) : Handled :=
  let '(code, ver, w') := r in resp ← version_response code ver; Some (resp, w').

Definition HandlePutRequest w umsg : Handled :=
  let request := request_of umsg in
  value ← ValueFromRequest (value_of umsg);
  r ← (if has (rq_branch request)
       then Put_branch params fuel w (str (rq_key request)) value (str (rq_branch request))
       else ver ← hash_arg (rq_version request); Put_prev params fuel w (str (rq_key request)) value ver);
  written r.

Definition HandleGetRequest w umsg : Handled :=
  let request := request_of umsg in
  r ← (if has (rq_branch request)
       then Get_branch w (str (rq_key request)) (str (rq_branch request))
       else ver ← hash_arg (rq_version request); Get_ver w (str (rq_key request)) ver);
  resp ← (match fst r with
          | kOK => n ← snd r; chunk_response kOK (cell_chunk n)
          | code => Some (stat_response code)
          end);
  Some (resp, w).

Definition HandleMergeRequest w umsg : Handled :=
  let request := request_of umsg in
  let key := str (rq_key request) in
  value ← ValueFromRequest (value_of umsg);
  r ← (if has (rq_version request)
       then ver ← hash_arg (rq_version request); ref ← hash_arg (rq_ref_version request);
            Merge_vers params fuel w key value ver ref
       else if has (rq_ref_version request)
       then ref ← hash_arg (rq_ref_version request);
            Merge_ver params fuel w key value (str (rq_branch request)) ref
       else Merge_branch params fuel w key value (str (rq_branch request)) (str (rq_ref_branch request)));
  written r.

Definition HandleListRequest w umsg : Handled :=
  let request := request_of umsg in
  Some (list_response (if has (rq_key request) then ListBranches w (str (rq_key request)) else ListKeys w), w).

Definition HandleExistsRequest w umsg : Handled :=
  let request := request_of umsg in
  Some (bool_response (if has (rq_branch request)
                       then Worker_ExistsBranch w (str (rq_key request)) (str (rq_branch request))
                       else Worker_Exists w (str (rq_key request))), w).

Definition HandleGetBranchHeadRequest w umsg : Handled :=
  let request := request_of umsg in
  let '(code, ver) := GetBranchHead w (str (rq_key request)) (str (rq_branch request)) in
  resp ← version_response code ver; Some (resp, w).

Definition HandleIsBranchHeadRequest w umsg : Handled :=
  let request := request_of umsg in
  ver ← hash_arg (rq_version request);
  Some (bool_response (Worker_IsBranchHead w (str (rq_key request)) (str (rq_branch request)) ver), w).

Definition HandleGetLatestVersionRequest w umsg : Handled :=
  let '(code, versions) := GetLatestVersions w (str (rq_key (request_of umsg))) in
  match code with
  | kOK => vs ← mapM bytes_of_hash versions; Some (list_response (code, vs), w)
  | _ => Some (stat_response code, w)
  end.

Definition HandleIsLatestVersionRequest w umsg : Handled :=
  let request := request_of umsg in
  ver ← hash_arg (rq_version request);
  Some (bool_response (IsLatestVersion w (str (rq_key request)) ver), w).

Definition HandleBranchRequest w umsg : Handled :=
  let request := request_of umsg in
  r ← (if has (rq_ref_branch request)
       then Some (Branch w (str (rq_key request)) (str (rq_ref_branch request)) (str (rq_branch request)))
       else ver ← hash_arg (rq_ref_version request);
            Some (Branch_ver w (str (rq_key request)) ver (str (rq_branch request))));
  Some (stat_response (fst r), snd r).

Definition HandleRenameRequest w umsg : Handled :=
  let request := request_of umsg in
  r ← Rename w (str (rq_key request)) (str (rq_ref_branch request)) (str (rq_branch request));
  Some (stat_response (fst r), snd r).

Definition HandleDeleteRequest w umsg : Handled :=
  let request := request_of umsg in
  let r := Delete w (str (rq_key request)) (str (rq_branch request)) in
  Some (stat_response (fst r), snd r).

Definition HandlePutUnkeyedRequest w umsg : Handled :=
  value ← ValueFromRequest (value_of umsg);
  r ← PutUnkeyed params fuel (w_store w) value;
  let '(code, ver, st) := r in
  resp ← version_response code ver; Some (resp, set_store w st).

Definition ws_HandleGetChunkRequest w umsg : Handled :=
  ver ← hash_arg (rq_version (request_of umsg));
  let '(code, c) := Worker_GetChunk w ver in
  resp ← chunk_response code c; Some (resp, w).

(** [GetStorageInfo] of the worker, in a build with [ENABLE_STORE_INFO]. *)
Definition GetStorageInfo w : ErrorCode * NodeInfo := (kOK, cs_GetInfo (w_store w)).

(** The payload of the response; [bytesPerType.at] throws if the two tables
    differ. *)
Definition HandleGetInfoRequest w : option (ResponsePayload * InfoPayload) :=
  let '(code, i) := GetStorageInfo w in
  let types := (map_to_list (ni_chunksPerType i)).*1 in
  cs ← mapM (fun t => ni_chunksPerType i !! t) types;
  bs ← mapM (fun t => ni_bytesPerType i !! t) types;
  Some (stat_response code,
        mkIP (Some node_addr_) (i64 (ni_chunks i)) (i64 (ni_chunkBytes i)) (i64 (ni_validChunks i))
          (i64 (ni_validChunkBytes i)) (i64 (ni_maxSegments i)) (i64 (ni_allocSegments i))
          (i64 (ni_freeSegments i)) (i64 (ni_usedSegments i)) types (i64 <$> cs) (i64 <$> bs)).

(** The [switch] of [HandleRequest]: the payloads of the response. *)
Definition dispatch w umsg : option (option ResponsePayload * option InfoPayload * Worker HV St) :=
  let with_response (r : Handled) := '(resp, w') ← r; Some (Some resp, None, w') in
  match msg_type umsg with
  | PUT_REQUEST => with_response (HandlePutRequest w umsg)
  | GET_REQUEST => with_response (HandleGetRequest w umsg)
  | MERGE_REQUEST => with_response (HandleMergeRequest w umsg)
  | LIST_REQUEST => with_response (HandleListRequest w umsg)
  | EXISTS_REQUEST => with_response (HandleExistsRequest w umsg)
  | GET_BRANCH_HEAD_REQUEST => with_response (HandleGetBranchHeadRequest w umsg)
  | IS_BRANCH_HEAD_REQUEST => with_response (HandleIsBranchHeadRequest w umsg)
  | GET_LATEST_VERSION_REQUEST => with_response (HandleGetLatestVersionRequest w umsg)
  | IS_LATEST_VERSION_REQUEST => with_response (HandleIsLatestVersionRequest w umsg)
  | BRANCH_REQUEST => with_response (HandleBranchRequest w umsg)
  | RENAME_REQUEST => with_response (HandleRenameRequest w umsg)
  | DELETE_REQUEST => with_response (HandleDeleteRequest w umsg)
  | PUT_UNKEYED_REQUEST => with_response (HandlePutUnkeyedRequest w umsg)
  | GET_CHUNK_REQUEST => with_response (ws_HandleGetChunkRequest w umsg)
  | GET_INFO_REQUEST => '(resp, info) ← HandleGetInfoRequest w; Some (Some resp, Some info, w)
  | _ => Some (None, None, w)
  end.

(** [HandleRequest]: from the bytes of a request to those of the response. *)
Definition ws_HandleRequest w (msg : bytes) : option (bytes * Worker HV St) :=
  let umsg := Parse msg in
  '(resp, info, w') ← dispatch w umsg;
  Some (SerializeToArray (mkMsg RESPONSE (Some (default 0%Z (msg_source umsg))) None None resp info), w').

End Service.
