(* ===== verification/WorkerClient.v ===== *)
(** * The client of a cluster of workers: [include/cluster/worker_client.h],
      [src/cluster/worker_client.cc], [src/cluster/client.cc]

    A client turns a call into a request message, sends it to the worker that
    the partitioner names for the key, and turns the response into results.  The
    cluster is the list of its workers.  An exchange of messages is one step
    here; how a client thread waits for its response is in [ClientThreads]. *)

From S2P Require Import Prelude Types Slice HashVal Chunk RollingHash Node Chunker.
From S2P Require Import Store Cursor Builder Advanced Objects Cell HeadVersion Worker Messages WorkerService.

(** [static_cast<ErrorCode>(stat)]. *)
Definition all_errors : list ErrorCode :=
  [kOK; kUnknownOp; kIOFault; kInvalidPath; kKeyNotExists; kKeyExists; kInvalidRange; kBranchExists;
   kBranchNotExists; kReferringVersionNotExist; kInconsistentKey; kInvalidValue; kTypeUnsupported;
   kUCellNotExists; kFailedCreateUCell; kFailedCreateSBlob; kFailedCreateSString; kFailedCreateSList;
   kFailedCreateSMap; kFailedCreateSSet; kFailedModifySBlob; kFailedModifySList; kFailedModifySMap;
   kFailedModifySSet; kIndexOutOfRange; kObjectMetaError; kObjectMetaNotExists; kObjectMetaIndicesMismatch;
   kInvalidBase32String; kChunkNotExists; kFailedCreateChunk; kStoreInfoUnavailable; kTypeMismatch;
   kTableNotExists; kEmptyTable; kNotEmptyTable; kColumnNotExists; kRowNotExists; kRowExists; kFailedOpenFile;
   kInvalidCommandArgument; kUnknownCommand; kInvalidSchema; kInconsistentType; kInvalidParameter;
   kMapKeyNotExists; kElementExists; kUnexpectedSuccess; kDatasetNotExists; kDataEntryNotExists;
   kDatasetSchemaMismatch; kDatasetSchemaNotFound; kIllegalDataEntryNameAttr; kDataEntryNameIndicesUnknown;
   kDataEntryNameIndicesMismatch].

(** The first error with the number; other numbers have no name. *)
Definition error_of_code (z : Z) : option ErrorCode := snd <$> list_find (fun e => error_code e = z) all_errors.

(** ** Requests *)

(** [FillValuePayload]: [pos] is sent as an [int64_t], [dels] as an [int32_t]. *)
Definition FillValuePayload (value : Value) : option ValuePayload :=
  base ← (if hash_empty (val_base value) then Some None else Some <$> bytes_of_hash (val_base value));
  Some (mkVP (Some (utype_code (val_type value))) base (Some (i64 (val_pos value))) (Some (i32 (val_dels value)))
          (val_vals value) (val_keys value) (Some (val_ctx value))).

(** A message of a type with a request. *)
Definition request_msg (t : MsgType) (request : RequestPayload) (payload : option ValuePayload) : UMessage :=
  mkMsg t None (Some request) payload None None.

Definition set_key (key : Slice) (r : RequestPayload) : RequestPayload :=
  mkReq (Some key) (rq_version r) (rq_branch r) (rq_ref_version r) (rq_ref_branch r).
Definition set_branch (branch : Slice) (r : RequestPayload) : RequestPayload :=
  mkReq (rq_key r) (rq_version r) (Some branch) (rq_ref_version r) (rq_ref_branch r).
Definition set_ref_branch (branch : Slice) (r : RequestPayload) : RequestPayload :=
  mkReq (rq_key r) (rq_version r) (rq_branch r) (rq_ref_version r) (Some branch).
Definition set_version (ver : Hash) (r : RequestPayload) : option RequestPayload :=
  v ← bytes_of_hash ver; Some (mkReq (rq_key r) (Some v) (rq_branch r) (rq_ref_version r) (rq_ref_branch r)).
Definition set_ref_version (ver : Hash) (r : RequestPayload) : option RequestPayload :=
  v ← bytes_of_hash ver; Some (mkReq (rq_key r) (rq_version r) (rq_branch r) (Some v) (rq_ref_branch r)).

(** [CreatePutMessage], [CreateMergeMessage], [CreateGetMessage],
    [CreateBranchMessage]; the caller completes the request. *)
Definition CreatePutMessage (key : Slice) (value : Value) (request : RequestPayload) : option UMessage :=
  payload ← FillValuePayload value; Some (request_msg PUT_REQUEST (set_key key request) (Some payload)).
Definition CreateMergeMessage (key : Slice) (value : Value) (request : RequestPayload) : option UMessage :=
  payload ← FillValuePayload value; Some (request_msg MERGE_REQUEST (set_key key request) (Some payload)).
Definition CreateGetMessage (key : Slice) (request : RequestPayload) : UMessage :=
  request_msg GET_REQUEST (set_key key request) None.
Definition CreateBranchMessage (key new_branch : Slice) (request : RequestPayload) : UMessage :=
  request_msg BRANCH_REQUEST (set_branch new_branch (set_key key request)) None.

(** ** Responses: [class Client] *)

Definition response_code (m : UMessage) : option ErrorCode := error_of_code (default 0%Z (rs_stat (response_of m))).

Definition GetEmptyResponse (m : UMessage) : option ErrorCode := response_code m.

(** [version] is what [*version] was before. *)
Definition GetVersionResponse (m : UMessage) (version : Hash) : option (ErrorCode * Hash) :=
  err ← response_code m;
  match err with
  | kOK => v ← hash_arg (rs_value (response_of m)); Some (err, v)
  | _ => Some (err, version)
  end.

(** The buffer of the chunk is a copy of the value. *)
Definition GetUCellResponse (m : UMessage) : option (ErrorCode * UCell) :=
  err ← response_code m;
  match err with
  | kOK => u ← UCell_of_chunk (chunk_of_head (str (rs_value (response_of m)))); Some (err, u)
  | _ => Some (err, None)
  end.

Definition GetChunkResponse (m : UMessage) : option (ErrorCode * Chunk) :=
  err ← response_code m;
  match err with
  | kOK => Some (err, chunk_of_head (str (rs_value (response_of m))))
  | _ => Some (err, chunk_null)
  end.

Definition GetStringListResponse (m : UMessage) (vals : list bytes) : option (ErrorCode * list bytes) :=
  err ← response_code m;
  match err with
  | kOK => Some (err, vals ++ rs_lvalue (response_of m))
  | _ => Some (err, vals)
  end.

Definition GetVersionListResponse (m : UMessage) : option (ErrorCode * list Hash) :=
  err ← response_code m;
  match err with
  | kOK => vs ← mapM (fun l => hash_arg (Some l)) (rs_lvalue (response_of m)); Some (err, vs)
  | _ => Some (err, [])
  end.

Definition GetBoolResponse (m : UMessage) : option (ErrorCode * bool) :=
  err ← response_code m;
  match err with
  | kOK => Some (err, default false (rs_bvalue (response_of m)))
  | _ => Some (err, false)
  end.

(** The entry of the info of one type; [emplace] keeps the first. *)
Definition type_table (types vals : list Z) : gmap Z Z := list_to_map (zip types (u64 <$> vals)).

Definition GetInfoResponse (m : UMessage) (stores : list NodeInfo) : option (ErrorCode * list NodeInfo) :=
  err ← response_code m;
  match err with
  | kOK =>
      i ← info_payload m;
      Some (err, stores ++ [mkNodeInfo (u64 (ip_chunks i)) (u64 (ip_chunk_bytes i)) (u64 (ip_valid_chunks i))
        (u64 (ip_valid_chunk_bytes i)) (u64 (ip_max_segments i)) (u64 (ip_alloc_segments i))
        (u64 (ip_free_segments i)) (u64 (ip_used_segments i))
        (type_table (ip_chunk_types i) (ip_chunks_per_type i)) (type_table (ip_chunk_types i) (ip_bytes_per_type i))
        (str (ip_node_id i))])
  | _ => Some (err, stores)
  end.

(** ** [class WorkerClient] *)

Section Client.
Context `{HashFunction} `{Uninit} `{StdSort} `{Protobuf}.
Context {St : Type} `{ChunkStore St} `{InfoSource St} {HV : Type} `{HeadVersion HV}.
Variable (params : NodeKind -> ChunkerParams) (fuel : nat).

(** The address of a node, and the id of the client. *)
Variable (addr : nat -> bytes) (id_ : Z).

Abbreviation Cluster := (list (Worker HV St)).
Implicit Types (cl : Cluster) (key branch : Slice).

(** A request is sent and its response received. *)
Definition exchange cl (msg : UMessage) (dest : nat) : option (UMessage * Cluster) :=
  w ← cl !! dest;
  let sent := mkMsg (msg_type msg) (Some id_) (request_payload msg) (value_payload msg) (response_payload msg)
                (info_payload msg) in
  r ← ws_HandleRequest params fuel (addr dest) w (SerializeToArray sent);
  Some (Parse (fst r), <[dest := snd r]> cl).

(** [Send(&msg, ptt_->GetDestAddr(key))]. *)
Definition exchange_key cl (msg : UMessage) key : option (UMessage * Cluster) :=
  dest ← GetDestId_key (length cl) key; exchange cl msg dest.

(** The end of a call: the results from the response, and the cluster. *)
Definition finish {R} (get : UMessage -> option R) (r : UMessage * Cluster) : option (R * Cluster) :=
  x ← get (fst r); Some (x, snd r).

Definition wc_Put_ver cl key (value : Value) (pre_version version : Hash) : option (ErrorCode * Hash * Cluster) :=
  request ← set_version pre_version empty_request;
  msg ← CreatePutMessage key value request;
  r ← exchange_key cl msg key;
  finish (fun m => GetVersionResponse m version) r.

Definition wc_Put_branch cl key (value : Value) branch (version : Hash) : option (ErrorCode * Hash * Cluster) :=
  msg ← CreatePutMessage key value (set_branch branch empty_request);
  r ← exchange_key cl msg key;
  finish (fun m => GetVersionResponse m version) r.

Definition wc_Get_branch cl key branch : option (ErrorCode * UCell * Cluster) :=
  r ← exchange_key cl (CreateGetMessage key (set_branch branch empty_request)) key;
  finish GetUCellResponse r.

Definition wc_Get_ver cl key (version : Hash) : option (ErrorCode * UCell * Cluster) :=
  request ← set_version version empty_request;
  r ← exchange_key cl (CreateGetMessage key request) key;
  finish GetUCellResponse r.

Definition wc_Branch cl key (old_branch new_branch : Slice) : option (ErrorCode * Cluster) :=
  r ← exchange_key cl (CreateBranchMessage key new_branch (set_ref_branch old_branch empty_request)) key;
  finish GetEmptyResponse r.

Definition wc_Branch_ver cl key (version : Hash) (new_branch : Slice) : option (ErrorCode * Cluster) :=
  request ← set_ref_version version empty_request;
  r ← exchange_key cl (CreateBranchMessage key new_branch request) key;
  finish GetEmptyResponse r.

Definition wc_Rename cl key (old_branch new_branch : Slice) : option (ErrorCode * Cluster) :=
  r ← exchange_key cl (request_msg RENAME_REQUEST
        (set_branch new_branch (set_ref_branch old_branch (set_key key empty_request))) None) key;
  finish GetEmptyResponse r.

Definition wc_Merge_branch cl key (value : Value) (tgt_branch ref_branch : Slice) (version : Hash) :
  option (ErrorCode * Hash * Cluster) :=
  msg ← CreateMergeMessage key value (set_ref_branch ref_branch (set_branch tgt_branch empty_request));
  r ← exchange_key cl msg key;
  finish (fun m => GetVersionResponse m version) r.

Definition wc_Merge_ver cl key (value : Value) (tgt_branch : Slice) (ref_version version : Hash) :
  option (ErrorCode * Hash * Cluster) :=
  request ← set_ref_version ref_version (set_branch tgt_branch empty_request);
  msg ← CreateMergeMessage key value request;
  r ← exchange_key cl msg key;
  finish (fun m => GetVersionResponse m version) r.

Definition wc_Merge_vers cl key (value : Value) (ref_version1 ref_version2 version : Hash) :
  option (ErrorCode * Hash * Cluster) :=
  request1 ← set_version ref_version1 empty_request;
  request ← set_ref_version ref_version2 request1;
  msg ← CreateMergeMessage key value request;
  r ← exchange_key cl msg key;
  finish (fun m => GetVersionResponse m version) r.

(** [ListKeys]: the keys of all workers. *)
Fixpoint list_keys_loop (dests : list nat) cl (keys : list bytes) : option (ErrorCode * list bytes * Cluster) :=
  match dests with
  | [] => Some (kOK, keys, cl)
  | dest :: dests' =>
      r ← exchange cl (mkMsg LIST_REQUEST None None None None None) dest;
      x ← GetStringListResponse (fst r) keys;
      match fst x with
      | kOK => list_keys_loop dests' (snd r) (snd x)
      | err => Some (err, snd x, snd r)
      end
  end.

Definition wc_ListKeys cl : option (ErrorCode * list bytes * Cluster) := list_keys_loop (seq 0 (length cl)) cl [].

Definition wc_ListBranches cl key : option (ErrorCode * list bytes * Cluster) :=
  r ← exchange_key cl (request_msg LIST_REQUEST (set_key key empty_request) None) key;
  finish (fun m => GetStringListResponse m []) r.

Definition wc_Exists cl key : option (ErrorCode * bool * Cluster) :=
  r ← exchange_key cl (request_msg EXISTS_REQUEST (set_key key empty_request) None) key;
  finish GetBoolResponse r.

Definition wc_ExistsBranch cl key branch : option (ErrorCode * bool * Cluster) :=
  r ← exchange_key cl (request_msg EXISTS_REQUEST (set_branch branch (set_key key empty_request)) None) key;
  finish GetBoolResponse r.

Definition wc_GetBranchHead cl key branch (version : Hash) : option (ErrorCode * Hash * Cluster) :=
  r ← exchange_key cl (request_msg GET_BRANCH_HEAD_REQUEST (set_branch branch (set_key key empty_request)) None) key;
  finish (fun m => GetVersionResponse m version) r.

Definition wc_IsBranchHead cl key branch (version : Hash) : option (ErrorCode * bool * Cluster) :=
  request ← set_version version (set_branch branch (set_key key empty_request));
  r ← exchange_key cl (request_msg IS_BRANCH_HEAD_REQUEST request None) key;
  finish GetBoolResponse r.

Definition wc_GetLatestVersions cl key : option (ErrorCode * list Hash * Cluster) :=
  r ← exchange_key cl (request_msg GET_LATEST_VERSION_REQUEST (set_key key empty_request) None) key;
  finish GetVersionListResponse r.

Definition wc_IsLatestVersion cl key (version : Hash) : option (ErrorCode * bool * Cluster) :=
  request ← set_version version (set_key key empty_request);
  r ← exchange_key cl (request_msg IS_LATEST_VERSION_REQUEST request None) key;
  finish GetBoolResponse r.

Definition wc_Delete cl key branch : option (ErrorCode * Cluster) :=
  r ← exchange_key cl (request_msg DELETE_REQUEST (set_branch branch (set_key key empty_request)) None) key;
  finish GetEmptyResponse r.

Definition wc_PutUnkeyed cl (route_key : Slice) (value : Value) (version : Hash) :
  option (ErrorCode * Hash * Cluster) :=
  payload ← FillValuePayload value;
  r ← exchange_key cl (mkMsg PUT_UNKEYED_REQUEST None None (Some payload) None None) route_key;
  finish (fun m => GetVersionResponse m version) r.

(** [GetChunk]: through the chunk service of the node ([bypass]), or through the
    worker; the node is named by the hash in a distributed store ([dist]). *)
Definition wc_GetChunk (bypass dist : bool) cl (route_key : Slice) (version : Hash) :
  option (ErrorCode * Chunk * Cluster) :=
  dest ← (if dist then GetDestId (length cl) version else GetDestId_key (length cl) route_key);
  request ← set_version version empty_request;
  if bypass then
    w ← cl !! dest;
    r ← HandleGetChunkRequest (w_store w) version;
    Some (r, cl)
  else
    r ← exchange cl (request_msg GET_CHUNK_REQUEST request None) dest;
    finish GetChunkResponse r.

Fixpoint storage_info_loop (dests : list nat) cl (info : list NodeInfo) :
  option (ErrorCode * list NodeInfo * Cluster) :=
  match dests with
  | [] => Some (kOK, info, cl)
  | dest :: dests' =>
      r ← exchange cl (mkMsg GET_INFO_REQUEST None None None None None) dest;
      x ← GetInfoResponse (fst r) info;
      match fst x with
      | kOK => storage_info_loop dests' (snd r) (snd x)
      | err => Some (err, snd x, snd r)
      end
  end.

Definition wc_GetStorageInfo cl : option (ErrorCode * list NodeInfo * Cluster) :=
  storage_info_loop (seq 0 (length cl)) cl [].

(** ** Blobs from a stream *)

Variable max_blob_size_ : nat.

(** An [istream] with the bytes it has left; [read] sets the end-of-file flag
    when it finds fewer bytes than it was asked for. *)
Record IStream := mkStream { is_rest : bytes; is_eof : bool }.

Definition is_read (s : IStream) (n : nat) : bytes * IStream :=
  (take n (is_rest s), mkStream (drop n (is_rest s)) (is_eof s || (length (is_rest s) <? n))).

(** The part of [SplitAndPut]'s loop that finds the version and the base of the
    next part: an error code ends the call. *)
Definition split_prepare cl key branch (version : Hash) (done : Z) (part : Value) :
  option (ErrorCode + Hash * Value * Cluster) :=
  if (done =? 0)%Z && negb (slice_empty branch) then
    '(code, meta, cl1) ← wc_Get_branch cl key branch;
    match code with
    | kOK => h ← ucell_hash meta; Some (inr (h, part, cl1))
    | kKeyNotExists | kBranchNotExists => Some (inr (version, part, cl1))
    | _ => Some (inl code)
    end
  else if (0 <? done)%Z then
    '(code, meta, cl1) ← wc_Get_ver cl key version;
    match code with
    | kOK =>
        h ← ucell_dataHash meta;
        Some (inr (version, mkValue (val_type part) (hash_Clone h) (val_pos part) (val_dels part) (val_vals part)
                              (val_keys part) (val_ctx part), cl1))
    | _ => Some (inl code)
    end
  else Some (inr (version, part, cl)).

(** The loop.  A stream that is at its end at once leaves the error code
    uninitialised. *)
Fixpoint split_loop (steps : nat) cl key (pos : Z) (part : Value) (s : IStream) branch (version : Hash) (done : Z)
    (code : option ErrorCode) : option (ErrorCode * Hash * Cluster) :=
  if is_eof s then c ← code; Some (c, version, cl)
  else
    match steps with
    | O => None
    | S steps' =>
        r ← split_prepare cl key branch version done part;
        match r with
        | inl err => Some (err, version, cl)
        | inr (ver1, part1, cl1) =>
            let '(buf, s') := is_read s max_blob_size_ in
            let part2 := mkValue (val_type part1) (val_base part1) (u64 (pos + done)) (val_dels part1) [buf]
                           (val_keys part1) (val_ctx part1) in
            '(err, ver2, cl2) ← (
              if negb (slice_empty branch) && (((done =? 0)%Z && hash_empty ver1) || is_eof s')
              then wc_Put_branch cl1 key part2 branch ver1
              else wc_Put_ver cl1 key part2 ver1 ver1);
            match err with
            | kOK => split_loop steps' cl2 key pos part2 s' branch ver2 (u64 (done + Z.of_nat (length buf))) (Some err)
            | _ => Some (err, ver2, cl2)
            end
        end
    end.

(** [SplitAndPut]; as many steps as the bytes and the last, empty read need. *)
Definition SplitAndPut cl key (value : Value) (s : IStream) branch (pre_version version : Hash) :
  option (ErrorCode * Hash * Cluster) :=
  let part := mkValue (val_type value) (hash_Clone (val_base value)) (val_pos value) (val_dels value) []
                (val_keys value) (val_ctx value) in
  split_loop (S (length (is_rest s))) cl key (val_pos value) part s branch version 0 None.

Definition wc_Put_stream_ver cl key (value : Value) (s : IStream) (pre_version version : Hash) :
  option (ErrorCode * Hash * Cluster) :=
  SplitAndPut cl key value s [] pre_version version.

Definition wc_Put_stream_branch cl key (value : Value) (s : IStream) branch (version : Hash) :
  option (ErrorCode * Hash * Cluster) :=
  SplitAndPut cl key value s branch None version.

End Client.
