(* ===== verification/RpcProps.v ===== *)
(** * A call to the cluster is the call at the worker that owns the key

    Requests and responses survive the way over the network, so that a client
    gets what the worker returned. *)

From S2P Require Import Prelude Types Slice HashVal Chunk RollingHash Node Chunker.
From S2P Require Import Store Cursor Builder Advanced Objects Cell HeadVersion Worker.
From S2P Require Import Messages WorkerService WorkerClient.

(** ** Codes *)

Lemma error_code_i32 e : is_i32 (error_code e).
Proof. unfold is_i32. destruct e; simpl; lia. Qed.

Lemma error_of_code_code e : e <> kMapKeyExists -> error_of_code (error_code e) = Some e.
Proof. by destruct e. Qed.

Lemma i64_range z : is_i64 (i64 z).
Proof.
  unfold is_i64, i64, sext. pose proof (Z.mod_pos_bound z (2 ^ 64)). unfold u64, wrap.
  destruct (_ <? _)%Z eqn:E; [apply Z.ltb_lt in E|apply Z.ltb_ge in E]; lia.
Qed.

Lemma i32_range z : is_i32 (i32 z).
Proof.
  unfold is_i32, i32, sext. pose proof (Z.mod_pos_bound z (2 ^ 32)). unfold u32, wrap.
  destruct (_ <? _)%Z eqn:E; [apply Z.ltb_lt in E|apply Z.ltb_ge in E]; lia.
Qed.

Lemma u64_i64 z : (0 <= z < 2 ^ 64)%Z -> u64 (i64 z) = z.
Proof.
  intros Hz. unfold i64, sext. rewrite (wrap_small 64 z) by done. destruct (_ <? _)%Z eqn:E; [by apply (wrap_small 64)|].
  unfold wrap. replace (z - 2 ^ 64)%Z with (z + (-1) * 2 ^ 64)%Z by lia.
  rewrite Z.mod_add by lia. by apply Z.mod_small.
Qed.

(** The number of deletions as the worker receives it: the low 32 bits, signed. *)
Lemma u64_i32 z : (0 <= z < 2 ^ 64)%Z ->
  u64 (i32 z) = (if z mod 2 ^ 32 <? 2 ^ 31 then z mod 2 ^ 32 else 2 ^ 64 - 2 ^ 32 + z mod 2 ^ 32)%Z.
Proof.
  intros Hz. unfold i32, sext. change (u32 z) with (z mod 2 ^ 32)%Z.
  pose proof (Z.mod_pos_bound z (2 ^ 32) ltac:(lia)). change (2 ^ (32 - 1))%Z with (2 ^ 31)%Z.
  destruct (_ <? _)%Z eqn:E; [apply (wrap_small 64); lia|]. apply Z.ltb_ge in E.
  unfold u64, wrap. replace (z mod 2 ^ 32 - 2 ^ 32)%Z with (2 ^ 64 - 2 ^ 32 + z mod 2 ^ 32 + (-1) * 2 ^ 64)%Z by lia.
  rewrite Z.mod_add by lia. apply Z.mod_small. lia.
Qed.

(** ** Hashes and values *)

Lemma bytes_of_hash_wf v : length v = kByteLength -> bytes_of_hash (Some v) = Some v.
Proof. intros Hv. unfold bytes_of_hash. osimpl. rewrite <- Hv. apply read_bytes_all. Qed.

Lemma hash_arg_wf v : length v = kByteLength -> hash_arg (Some v) = Some (Some v).
Proof. intros Hv. unfold hash_arg, str. simpl. rewrite <- Hv, read_bytes_all. done. Qed.

(** A hash that points to bytes. *)
Definition is_version (h : Hash) : Prop := exists v, h = Some v /\ length v = kByteLength.

(** What a client may send: [size_t] fields, and a base of the right size. *)
Record value_wf (val : Value) : Prop := {
  vw_base : hash_wf (val_base val);
  vw_pos : (0 <= val_pos val < 2 ^ 64)%Z;
  vw_dels : (0 <= val_dels val < 2 ^ 64)%Z
}.

(** The value that arrives. *)
Definition sent_value (val : Value) : Value :=
  mkValue (val_type val) (val_base val) (val_pos val) (u64 (i32 (val_dels val))) (val_vals val) (val_keys val)
    (val_ctx val).

Lemma FillValuePayload_rep val : value_wf val ->
  exists p, FillValuePayload val = Some p /\ value_payload_ok p /\ ValueFromRequest p = Some (sent_value val).
Proof.
  intros [Hb Hp Hd].
  assert (Hbase : exists b, (if hash_empty (val_base val) then Some None else Some <$> bytes_of_hash (val_base val)) = Some b /\
    match b with Some b' => hash_arg (Some b') | None => Some None end = Some (val_base val)).
  { destruct (val_base val) as [v|] eqn:E; [|by exists None]. exists (Some v).
    assert (Hv : length v = kByteLength) by by apply Hb. change (hash_empty (Some v)) with false. cbn [negb].
    by rewrite bytes_of_hash_wf, hash_arg_wf. }
  destruct Hbase as (b & E1 & E2). unfold FillValuePayload. rewrite E1. osimpl. eexists. split; [reflexivity|]. split.
  - split_and!; cbn; [|apply i64_range|apply i32_range]. pose proof (utype_code_range (val_type val)). unfold is_i32. lia.
  - unfold ValueFromRequest. cbn [vp_base vp_type vp_pos vp_dels vp_values vp_keys vp_ctx default str]. rewrite E2. osimpl.
    unfold sent_value. rewrite (wrap_small 8) by (pose proof (utype_code_range (val_type val)); lia).
    by rewrite utype_of_code_code, u64_i64.
Qed.

Lemma sent_value_small val : (0 <= val_dels val < 2 ^ 31)%Z -> sent_value val = val.
Proof.
  intros Hd. unfold sent_value. rewrite u64_i32 by lia. rewrite Z.mod_small by lia.
  rewrite (proj2 (Z.ltb_lt _ _)) by lia. by destruct val.
Qed.

(** ** Calls and replies *)

(** The calls that go to one worker. *)
Inductive Call :=
  | CPut (key : Slice) (val : Value) (pre_version : Hash)
  | CPutBranch (key : Slice) (val : Value) (branch : Slice)
  | CMergeVers (key : Slice) (val : Value) (ref_version1 ref_version2 : Hash)
  | CMergeVer (key : Slice) (val : Value) (tgt_branch : Slice) (ref_version : Hash)
  | CMergeBranch (key : Slice) (val : Value) (tgt_branch ref_branch : Slice)
  | CPutUnkeyed (route_key : Slice) (val : Value)
  | CBranchVer (key : Slice) (version : Hash) (new_branch : Slice)
  | CBranch (key old_branch new_branch : Slice)
  | CRename (key old_branch new_branch : Slice)
  | CDelete (key branch : Slice)
  | CGetVer (key : Slice) (version : Hash)
  | CGetBranch (key branch : Slice)
  | CListBranches (key : Slice)
  | CExists (key : Slice)
  | CExistsBranch (key branch : Slice)
  | CGetBranchHead (key branch : Slice)
  | CIsBranchHead (key branch : Slice) (version : Hash)
  | CGetLatestVersions (key : Slice)
  | CIsLatestVersion (key : Slice) (version : Hash)
  | CGetChunk (bypass : bool) (route_key : Slice) (version : Hash).

Definition call_key (c : Call) : Slice :=
  match c with
  | CPut k _ _ | CPutBranch k _ _ | CMergeVers k _ _ _ | CMergeVer k _ _ _ | CMergeBranch k _ _ _
  | CPutUnkeyed k _ | CBranchVer k _ _ | CBranch k _ _ | CRename k _ _ | CDelete k _ | CGetVer k _
  | CGetBranch k _ | CListBranches k | CExists k | CExistsBranch k _ | CGetBranchHead k _
  | CIsBranchHead k _ _ | CGetLatestVersions k | CIsLatestVersion k _ | CGetChunk _ k _ => k
  end.

Inductive Reply :=
  | RCode (ec : ErrorCode)
  | RVersion (ec : ErrorCode) (ver : Hash)
  | RCell (ec : ErrorCode) (u : UCell)
  | RChunk (ec : ErrorCode) (c : Chunk)
  | RBool (ec : ErrorCode) (b : bool)
  | RStrings (ec : ErrorCode) (l : list bytes)
  | RVersions (ec : ErrorCode) (l : list Hash).

(** Values and versions that can be sent without loss: versions are not the
    empty hash, and fewer than [2^31] elements are deleted. *)
Definition val_sendable (val : Value) : Prop := value_wf val /\ (val_dels val < 2 ^ 31)%Z.

Definition call_wf (c : Call) : Prop :=
  match c with
  | CPut _ val h | CMergeVer _ val _ h => val_sendable val /\ is_version h
  | CMergeVers _ val h1 h2 => val_sendable val /\ is_version h1 /\ is_version h2
  | CPutBranch _ val _ | CMergeBranch _ val _ _ | CPutUnkeyed _ val => val_sendable val
  | CBranchVer _ h _ | CGetVer _ h | CIsBranchHead _ _ h | CIsLatestVersion _ h | CGetChunk _ _ h => is_version h
  | _ => True
  end.

(** What a client receives of a reply: nothing but the code when it is an error;
    [old] is what [*version] was before. *)
Definition same_code (ec : ErrorCode) : option ErrorCode := error_of_code (error_code ec).

Definition on_ok {R} (ec : ErrorCode) (ok : option R) (err : ErrorCode -> R) : option R :=
  match ec with kOK => ok | _ => e ← same_code ec; Some (err e) end.

Definition received (old : Hash) (r : Reply) : option Reply :=
  match r with
  | RCode ec => e ← same_code ec; Some (RCode e)
  | RVersion ec ver => on_ok ec (v ← bytes_of_hash ver; Some (RVersion kOK (Some v))) (fun e => RVersion e old)
  | RCell ec u =>
      on_ok ec (n ← u; c ← resend (cell_chunk n); u' ← UCell_of_chunk c; Some (RCell kOK u')) (fun e => RCell e None)
  | RChunk ec c => on_ok ec (c' ← resend c; Some (RChunk kOK c')) (fun e => RChunk e chunk_null)
  | RBool ec b => on_ok ec (Some (RBool kOK b)) (fun e => RBool e false)
  | RStrings ec l => on_ok ec (Some (RStrings kOK l)) (fun e => RStrings e [])
  | RVersions ec l => on_ok ec (vs ← mapM bytes_of_hash l; Some (RVersions kOK (Some <$> vs))) (fun e => RVersions e [])
  end.

Section Rpc.
Context `{HashFunction} `{Uninit} `{StdSort} `{ProtobufSpec}.
Context {St : Type} `{ChunkStore St} `{InfoSource St} {HV : Type} `{HeadVersion HV}.
Variable (params : NodeKind -> ChunkerParams) (fuel : nat) (addr : nat -> bytes) (id_ : Z).
Hypothesis Hid : is_i32 id_.
Implicit Types (w : Worker HV St) (cl : list (Worker HV St)).

Definition with_ver (r : ErrorCode * Hash * Worker HV St) : Reply * Worker HV St :=
  let '(ec, ver, w') := r in (RVersion ec ver, w').

Definition with_code (r : ErrorCode * Worker HV St) : Reply * Worker HV St := (RCode (fst r), snd r).

(** The call at a worker. *)
Definition local_call w (c : Call) : option (Reply * Worker HV St) :=
  match c with
  | CPut k val h => with_ver <$> Put_prev params fuel w k val h
  | CPutBranch k val b => with_ver <$> Put_branch params fuel w k val b
  | CMergeVers k val h1 h2 => with_ver <$> Merge_vers params fuel w k val h1 h2
  | CMergeVer k val b h => with_ver <$> Merge_ver params fuel w k val b h
  | CMergeBranch k val b1 b2 => with_ver <$> Merge_branch params fuel w k val b1 b2
  | CPutUnkeyed k val =>
      '(ec, ver, st) ← PutUnkeyed params fuel (w_store w) val; Some (RVersion ec ver, set_store w st)
  | CBranchVer k h b => Some (with_code (Branch_ver w k h b))
  | CBranch k b1 b2 => Some (with_code (Branch w k b1 b2))
  | CRename k b1 b2 => with_code <$> Rename w k b1 b2
  | CDelete k b => Some (with_code (Delete w k b))
  | CGetVer k h => '(ec, u) ← Get_ver w k h; Some (RCell ec u, w)
  | CGetBranch k b => '(ec, u) ← Get_branch w k b; Some (RCell ec u, w)
  | CListBranches k => Some (RStrings (fst (ListBranches w k)) (snd (ListBranches w k)), w)
  | CExists k => Some (RBool (fst (Worker_Exists w k)) (snd (Worker_Exists w k)), w)
  | CExistsBranch k b => Some (RBool (fst (Worker_ExistsBranch w k b)) (snd (Worker_ExistsBranch w k b)), w)
  | CGetBranchHead k b => Some (RVersion (fst (GetBranchHead w k b)) (snd (GetBranchHead w k b)), w)
  | CIsBranchHead k b h => Some (RBool (fst (Worker_IsBranchHead w k b h)) (snd (Worker_IsBranchHead w k b h)), w)
  | CGetLatestVersions k => Some (RVersions (fst (GetLatestVersions w k)) (snd (GetLatestVersions w k)), w)
  | CIsLatestVersion k h => Some (RBool (fst (IsLatestVersion w k h)) (snd (IsLatestVersion w k h)), w)
  | CGetChunk _ _ h => Some (RChunk (fst (Worker_GetChunk w h)) (snd (Worker_GetChunk w h)), w)
  end.

Definition rcons {A} (f : ErrorCode -> A -> Reply) (r : ErrorCode * A * list (Worker HV St)) :
  Reply * list (Worker HV St) := let '(ec, a, cl') := r in (f ec a, cl').

Definition rcode (r : ErrorCode * list (Worker HV St)) : Reply * list (Worker HV St) := (RCode (fst r), snd r).

(** The call by a client. *)
Definition remote_call (old : Hash) cl (c : Call) : option (Reply * list (Worker HV St)) :=
  match c with
  | CPut k val h => rcons RVersion <$> wc_Put_ver params fuel addr id_ cl k val h old
  | CPutBranch k val b => rcons RVersion <$> wc_Put_branch params fuel addr id_ cl k val b old
  | CMergeVers k val h1 h2 => rcons RVersion <$> wc_Merge_vers params fuel addr id_ cl k val h1 h2 old
  | CMergeVer k val b h => rcons RVersion <$> wc_Merge_ver params fuel addr id_ cl k val b h old
  | CMergeBranch k val b1 b2 => rcons RVersion <$> wc_Merge_branch params fuel addr id_ cl k val b1 b2 old
  | CPutUnkeyed k val => rcons RVersion <$> wc_PutUnkeyed params fuel addr id_ cl k val old
  | CBranchVer k h b => rcode <$> wc_Branch_ver params fuel addr id_ cl k h b
  | CBranch k b1 b2 => rcode <$> wc_Branch params fuel addr id_ cl k b1 b2
  | CRename k b1 b2 => rcode <$> wc_Rename params fuel addr id_ cl k b1 b2
  | CDelete k b => rcode <$> wc_Delete params fuel addr id_ cl k b
  | CGetVer k h => rcons RCell <$> wc_Get_ver params fuel addr id_ cl k h
  | CGetBranch k b => rcons RCell <$> wc_Get_branch params fuel addr id_ cl k b
  | CListBranches k => rcons RStrings <$> wc_ListBranches params fuel addr id_ cl k
  | CExists k => rcons RBool <$> wc_Exists params fuel addr id_ cl k
  | CExistsBranch k b => rcons RBool <$> wc_ExistsBranch params fuel addr id_ cl k b
  | CGetBranchHead k b => rcons RVersion <$> wc_GetBranchHead params fuel addr id_ cl k b old
  | CIsBranchHead k b h => rcons RBool <$> wc_IsBranchHead params fuel addr id_ cl k b h
  | CGetLatestVersions k => rcons RVersions <$> wc_GetLatestVersions params fuel addr id_ cl k
  | CIsLatestVersion k h => rcons RBool <$> wc_IsLatestVersion params fuel addr id_ cl k h
  | CGetChunk bypass k h => rcons RChunk <$> wc_GetChunk params fuel addr id_ bypass false cl k h
  end.

(** ** One exchange *)

Lemma stat_response_ok ec : response_payload_ok (stat_response ec).
Proof. exists (error_code ec). split; [done|apply error_code_i32]. Qed.

Lemma version_response_ok ec ver p : version_response ec ver = Some p -> response_payload_ok p.
Proof.
  unfold version_response. destruct ec; try (intros [= <-]; apply stat_response_ok).
  intros (v & _ & [= <-])%bind_Some. exists 0%Z. split; [done|]. unfold is_i32. lia.
Qed.

Lemma chunk_response_ok ec c p : chunk_response ec c = Some p -> response_payload_ok p.
Proof.
  unfold chunk_response. destruct ec; try (intros [= <-]; apply stat_response_ok).
  intros (h & _ & (n & _ & (b & _ & [= <-])%bind_Some)%bind_Some)%bind_Some. exists 0%Z. split; [done|]. unfold is_i32. lia.
Qed.

Lemma bool_response_ok r : response_payload_ok (bool_response r).
Proof. exists (error_code (fst r)). split; [|apply error_code_i32]. unfold bool_response. by destruct (fst r). Qed.

Lemma list_response_ok r : response_payload_ok (list_response r).
Proof. exists (error_code (fst r)). split; [|apply error_code_i32]. unfold list_response. by destruct (fst r). Qed.

(** The message as it is sent. *)
Definition from_client (msg : UMessage) : UMessage :=
  mkMsg (msg_type msg) (Some id_) (request_payload msg) (value_payload msg) (response_payload msg) (info_payload msg).

Definition response_msg (resp : ResponsePayload) : UMessage := mkMsg RESPONSE (Some id_) None None (Some resp) None.

(** A handler that answers with a well-formed response is reached by the
    request, and its answer reaches the client. *)
Lemma exchange_handled cl msg d w (handled : option (ResponsePayload * Worker HV St)) :
  cl !! d = Some w -> value_payload msg = None \/ (exists p, value_payload msg = Some p /\ value_payload_ok p) ->
  response_payload msg = None -> info_payload msg = None ->
  dispatch params fuel (addr d) w (from_client msg) = ('(resp, w') ← handled; Some (Some resp, None, w')) ->
  (forall resp w', handled = Some (resp, w') -> response_payload_ok resp) ->
  exchange params fuel addr id_ cl msg d = ('(resp, w') ← handled; Some (response_msg resp, <[d := w']> cl)).
Proof.
  intros Hd Hv Hr Hi Edis Hok. unfold exchange. rewrite Hd. osimpl. unfold ws_HandleRequest. fold (from_client msg).
  rewrite Parse_Serialize.
  - rewrite Edis. destruct handled as [[resp w']|]; [|done]. osimpl. cbn [fst snd msg_source from_client default].
    rewrite Parse_Serialize; [done|]. split_and!; [by exists id_|done| |done]. cbn. by apply (Hok _ w').
  - split_and!; cbn; [by exists id_| |by rewrite Hr|by rewrite Hi]. by destruct Hv as [->|(p & -> & Hp)].
Qed.

(** ** From responses to replies *)

Lemma response_code_msg resp ec : rs_stat resp = Some (error_code ec) -> response_code (response_msg resp) = same_code ec.
Proof. unfold response_code, response_of, response_msg. cbn. by intros ->. Qed.

Lemma same_code_kOK ec : same_code ec = Some kOK -> ec = kOK.
Proof. by destruct ec. Qed.

(** The result of a call, from the response to it. *)
Definition decoded {R} (get : UMessage -> option R) (f : R -> Reply) (d : nat) cl
    (r : option (ResponsePayload * Worker HV St)) : option (Reply * list (Worker HV St)) :=
  '(resp, w') ← r; x ← get (response_msg resp); Some (f x, <[d := w']> cl).

Lemma not_ok {T} ec (a b : T) : ec <> kOK -> match ec with kOK => a | _ => b end = b.
Proof. by destruct ec. Qed.

(** Errors carry nothing but their code. *)
Lemma error_reply {R} (get : UMessage -> option (ErrorCode * R)) (none : R) (f : ErrorCode * R -> Reply) d cl w' ec :
  (forall m, exists ok, get m = (err ← response_code m; match err with kOK => ok err | _ => Some (err, none) end)) ->
  ec <> kOK ->
  decoded get f d cl (Some (stat_response ec, w')) = (e ← same_code ec; Some (f (e, none), <[d := w']> cl)).
Proof.
  intros Hget Hne. unfold decoded. osimpl. destruct (Hget (response_msg (stat_response ec))) as [ok ->].
  rewrite (response_code_msg _ ec) by done. destruct (same_code ec) as [e|] eqn:Ec; [|done]. osimpl.
  by rewrite not_ok by (intros ->; by apply same_code_kOK in Ec).
Qed.

Lemma ok_code p : rs_stat p = Some 0%Z -> response_code (response_msg p) = Some kOK.
Proof. apply (response_code_msg p kOK). Qed.

Lemma hash_arg_read v b : read_bytes 0 kByteLength v = Some b -> hash_arg (Some b) = Some (Some b).
Proof.
  intros E. apply hash_arg_wf. unfold read_bytes in E. case_decide as Hd; [|done]. injection E as <-.
  rewrite length_take, length_drop. lia.
Qed.

Lemma version_reply old ec ver d cl w' :
  decoded (fun m => GetVersionResponse m old) (fun x => RVersion (fst x) (snd x)) d cl
    (resp ← version_response ec ver; Some (resp, w'))
  = (r ← received old (RVersion ec ver); Some (r, <[d := w']> cl)).
Proof.
  unfold received, on_ok, version_response. destruct (decide (ec = kOK)) as [->|Hne].
  - destruct (bytes_of_hash ver) as [b|] eqn:E; [|done]. osimpl. unfold decoded, GetVersionResponse. osimpl.
    rewrite ok_code by done. osimpl. change (rs_value (response_of _)) with (Some b).
    destruct ver as [v|]; [|done]. by rewrite (hash_arg_read v).
  - rewrite !not_ok by done. osimpl. rewrite (error_reply _ _) by (done || (intros m; eexists; reflexivity)). by destruct (same_code ec).
Qed.

Lemma bool_reply old ec b d cl w' :
  decoded GetBoolResponse (fun x => RBool (fst x) (snd x)) d cl (Some (bool_response (ec, b), w'))
  = (r ← received old (RBool ec b); Some (r, <[d := w']> cl)).
Proof.
  unfold received, on_ok, bool_response. cbn [fst snd]. destruct (decide (ec = kOK)) as [->|Hne].
  - unfold decoded, GetBoolResponse. osimpl. by rewrite ok_code.
  - rewrite !not_ok by done. rewrite (error_reply _ _) by (done || (intros m; eexists; reflexivity)). by destruct (same_code ec).
Qed.

Lemma strings_reply old ec l d cl w' :
  decoded (fun m => GetStringListResponse m []) (fun x => RStrings (fst x) (snd x)) d cl (Some (list_response (ec, l), w'))
  = (r ← received old (RStrings ec l); Some (r, <[d := w']> cl)).
Proof.
  unfold received, on_ok, list_response. cbn [fst snd]. destruct (decide (ec = kOK)) as [->|Hne].
  - unfold decoded, GetStringListResponse. osimpl. by rewrite ok_code.
  - rewrite !not_ok by done. rewrite (error_reply _ _) by (done || (intros m; eexists; reflexivity)). by destruct (same_code ec).
Qed.

Lemma mapM_hash_arg l vs :
  mapM bytes_of_hash l = Some vs -> mapM (fun x => hash_arg (Some x)) vs = Some (Some <$> vs).
Proof.
  revert vs. induction l as [|h l IH]; intros vs E; simpl in E; [by injection E as <-|].
  apply bind_Some in E as (v & Ev & E). apply bind_Some in E as (vs' & Evs & [= <-]).
  simpl. destruct h as [x|]; [|done]. rewrite (hash_arg_read x v Ev). osimpl. by rewrite (IH _ Evs).
Qed.

Lemma versions_reply old ec l d cl w' :
  decoded GetVersionListResponse (fun x => RVersions (fst x) (snd x)) d cl
    (match ec with
     | kOK => vs ← mapM bytes_of_hash l; Some (list_response (ec, vs), w')
     | _ => Some (stat_response ec, w')
     end)
  = (r ← received old (RVersions ec l); Some (r, <[d := w']> cl)).
Proof.
  unfold received, on_ok. destruct (decide (ec = kOK)) as [->|Hne].
  - destruct (mapM bytes_of_hash l) as [vs|] eqn:E; [|done]. osimpl. unfold decoded, GetVersionListResponse. osimpl.
    rewrite ok_code by done. osimpl. change (rs_lvalue (response_of _)) with vs. by rewrite (mapM_hash_arg l).
  - rewrite !not_ok by done. rewrite (error_reply _ _) by (done || (intros m; eexists; reflexivity)). by destruct (same_code ec).
Qed.

Lemma chunk_response_resend c :
  chunk_response kOK c = (c' ← resend c; b ← head_ c'; Some (mkResp (Some 0%Z) (Some b) None [])).
Proof.
  unfold chunk_response, resend. destruct (head_ c) as [h|]; [|done]. osimpl. destruct (chunk_numBytes c) as [n|]; [|done].
  osimpl. by destruct (read_bytes _ _ h).
Qed.

Lemma resend_head c c' : resend c = Some c' -> exists b, c' = chunk_of_head b.
Proof. unfold resend. intros (h & _ & (n & _ & (b & _ & [= <-])%bind_Some)%bind_Some)%bind_Some. by exists b. Qed.

Lemma cell_reply old ec u d cl w' :
  decoded GetUCellResponse (fun x => RCell (fst x) (snd x)) d cl
    (resp ← (match ec with kOK => n ← u; chunk_response kOK (cell_chunk n) | _ => Some (stat_response ec) end);
     Some (resp, w'))
  = (r ← received old (RCell ec u); Some (r, <[d := w']> cl)).
Proof.
  unfold received, on_ok. destruct (decide (ec = kOK)) as [->|Hne].
  - destruct u as [n|]; [|done]. osimpl. rewrite chunk_response_resend.
    destruct (resend (cell_chunk n)) as [c'|] eqn:E; [|done]. osimpl. destruct (resend_head _ _ E) as [b ->].
    cbn [head_ chunk_of_head]. osimpl. unfold decoded, GetUCellResponse. osimpl. rewrite ok_code by done. osimpl.
    change (str (rs_value (response_of _))) with b. by destruct (UCell_of_chunk _).
  - rewrite !not_ok by done. osimpl. rewrite (error_reply _ _) by (done || (intros m; eexists; reflexivity)). by destruct (same_code ec).
Qed.

Lemma chunk_reply old ec c d cl w' :
  decoded GetChunkResponse (fun x => RChunk (fst x) (snd x)) d cl (resp ← chunk_response ec c; Some (resp, w'))
  = (r ← received old (RChunk ec c); Some (r, <[d := w']> cl)).
Proof.
  unfold received, on_ok. destruct (decide (ec = kOK)) as [->|Hne].
  - rewrite chunk_response_resend. destruct (resend c) as [c'|] eqn:E; [|done]. osimpl.
    destruct (resend_head _ _ E) as [b ->]. cbn [head_ chunk_of_head]. osimpl. unfold decoded, GetChunkResponse. osimpl.
    by rewrite ok_code.
  - unfold chunk_response. rewrite !not_ok by done. osimpl. rewrite (error_reply _ _) by (done || (intros m; eexists; reflexivity)). by destruct (same_code ec).
Qed.

Lemma code_reply old ec d cl w' :
  decoded GetEmptyResponse RCode d cl (Some (stat_response ec, w'))
  = (r ← received old (RCode ec); Some (r, <[d := w']> cl)).
Proof. unfold decoded, GetEmptyResponse, received. osimpl. rewrite (response_code_msg _ ec) by done. by destruct (same_code ec). Qed.

(** ** The calls *)

Section At.
Context (cl : list (Worker HV St)) (key : Slice) (d : nat) (w : Worker HV St).
Hypothesis Hdest : GetDestId_key (length cl) key = Some d.
Hypothesis Hw : cl !! d = Some w.

Definition ok_payload (msg : UMessage) : Prop :=
  (value_payload msg = None \/ exists p, value_payload msg = Some p /\ value_payload_ok p) /\
  response_payload msg = None /\ info_payload msg = None.

Lemma exchange_key_decoded {R} (get : UMessage -> option R) (f : R -> Reply) msg handled :
  ok_payload msg ->
  dispatch params fuel (addr d) w (from_client msg) = ('(resp, w') ← handled; Some (Some resp, None, w')) ->
  (forall resp w', handled = Some (resp, w') -> response_payload_ok resp) ->
  (fun x => (f (fst x), snd x)) <$> (r ← exchange_key params fuel addr id_ cl msg key; finish get r)
  = decoded get f d cl handled.
Proof.
  intros (Hv & Hr & Hi) Ed Hok. unfold exchange_key. rewrite Hdest. osimpl.
  rewrite (exchange_handled cl msg d w handled) by done. unfold decoded.
  destruct handled as [[resp w']|]; [|done]. osimpl. unfold finish. cbn [fst snd]. by destruct (get _).
Qed.

Lemma rcons_fmap {A} (f : ErrorCode -> A -> Reply) (o : option (ErrorCode * A * list (Worker HV St))) :
  rcons f <$> o = (fun x => (f (fst (fst x)) (snd (fst x)), snd x)) <$> o.
Proof. by destruct o as [[[? ?] ?]|]. Qed.

(** A handler that only writes a version. *)
Lemma version_call old msg (op : option (ErrorCode * Hash * Worker HV St)) :
  ok_payload msg ->
  dispatch params fuel (addr d) w (from_client msg) = ('(resp, w') ← (r ← op; written r); Some (Some resp, None, w')) ->
  rcons RVersion <$> (r ← exchange_key params fuel addr id_ cl msg key; finish (fun m => GetVersionResponse m old) r)
  = ('(reply, w') ← with_ver <$> op; r ← received old reply; Some (r, <[d := w']> cl)).
Proof.
  intros Hp Ed. rewrite rcons_fmap.
  etransitivity; [apply (exchange_key_decoded _ (fun x => RVersion (fst x) (snd x)) msg _ Hp Ed)|].
  { intros resp w' ([[ec ver] w1] & _ & (p & Ev & [= <- <-])%bind_Some)%bind_Some. by eapply version_response_ok. }
  destruct op as [[[ec ver] w']|]; [|done]. osimpl. unfold written, with_ver. apply version_reply.
Qed.

Lemma code_call old msg (op : option (ErrorCode * Worker HV St)) :
  ok_payload msg ->
  dispatch params fuel (addr d) w (from_client msg)
  = ('(resp, w') ← (r ← op; Some (stat_response (fst r), snd r)); Some (Some resp, None, w')) ->
  rcode <$> (r ← exchange_key params fuel addr id_ cl msg key; finish GetEmptyResponse r)
  = ('(reply, w') ← with_code <$> op; r ← received old reply; Some (r, <[d := w']> cl)).
Proof.
  intros Hp Ed. etransitivity; [apply (exchange_key_decoded _ RCode msg _ Hp Ed)|].
  { intros resp w' (r & _ & [= <- <-])%bind_Some. apply stat_response_ok. }
  destruct op as [[ec w']|]; [|done]. osimpl. unfold with_code. cbn [fst snd]. apply code_reply.
Qed.

Lemma bool_call old msg (op : ErrorCode * bool) :
  ok_payload msg ->
  dispatch params fuel (addr d) w (from_client msg) = Some (Some (bool_response op), None, w) ->
  rcons RBool <$> (r ← exchange_key params fuel addr id_ cl msg key; finish GetBoolResponse r)
  = (r ← received old (RBool (fst op) (snd op)); Some (r, <[d := w]> cl)).
Proof.
  intros Hp Ed. rewrite rcons_fmap.
  etransitivity; [apply (exchange_key_decoded _ (fun x => RBool (fst x) (snd x)) msg (Some (bool_response op, w)) Hp Ed)|].
  { intros resp w' [= <- <-]. apply bool_response_ok. }
  destruct op as [ec b]. apply bool_reply.
Qed.

Lemma cell_call old msg (op : option (ErrorCode * UCell)) :
  ok_payload msg ->
  dispatch params fuel (addr d) w (from_client msg)
  = ('(resp, w') ← (r ← op; resp ← (match fst r with
       | kOK => n ← snd r; chunk_response kOK (cell_chunk n) | code => Some (stat_response code) end); Some (resp, w));
     Some (Some resp, None, w')) ->
  rcons RCell <$> (r ← exchange_key params fuel addr id_ cl msg key; finish GetUCellResponse r)
  = ('(ec, u) ← op; r ← received old (RCell ec u); Some (r, <[d := w]> cl)).
Proof.
  intros Hp Ed. rewrite rcons_fmap.
  etransitivity; [apply (exchange_key_decoded _ (fun x => RCell (fst x) (snd x)) msg _ Hp Ed)|].
  2:{ destruct op as [[ec u]|]; [|done]. osimpl. cbn [fst snd]. rewrite <- (cell_reply old ec u). by destruct ec. }
  - intros resp w' ([ec u] & _ & (p & Ep & [= <- <-])%bind_Some)%bind_Some. cbn [fst snd] in Ep.
    destruct (decide (ec = kOK)) as [->|Hne].
    + destruct u as [n|]; [|done]. exact (chunk_response_ok kOK (cell_chunk n) p Ep).
    + assert (Some (stat_response ec) = Some p) as [= <-] by (by destruct ec). apply stat_response_ok.
Qed.

End At.

Lemma no_payload t req : ok_payload (request_msg t req None).
Proof. split; [by left|done]. Qed.

Lemma some_payload t req p : value_payload_ok p -> ok_payload (mkMsg t None req (Some p) None None).
Proof. intros Hp. split; [|done]. right. by exists p. Qed.


Lemma has_Some {A} (x : A) : has (Some x) = true.
Proof. done. Qed.

Lemma has_None {A} : has (None : option A) = false.
Proof. done. Qed.

Ltac handler :=
  unfold dispatch, HandlePutRequest, HandleGetRequest, HandleMergeRequest, HandleListRequest, HandleExistsRequest,
    HandleGetBranchHeadRequest, HandleIsBranchHeadRequest, HandleGetLatestVersionRequest,
    HandleIsLatestVersionRequest, HandleBranchRequest, HandleRenameRequest, HandleDeleteRequest,
    HandlePutUnkeyedRequest, ws_HandleGetChunkRequest, request_of, value_of, from_client, request_msg, str,
    set_key, set_branch, set_ref_branch, CreateGetMessage, CreateBranchMessage;
  cbn [msg_type request_payload value_payload default from_option id rq_key rq_version rq_branch rq_ref_version
       rq_ref_branch empty_request];
  rewrite ?has_Some, ?has_None.


Lemma sendable_rep val : val_sendable val ->
  exists p, FillValuePayload val = Some p /\ value_payload_ok p /\ ValueFromRequest p = Some val.
Proof.
  intros [Hv Hs]. destruct (FillValuePayload_rep val Hv) as (p & Ep & Hp & Efrom). exists p.
  rewrite sent_value_small in Efrom by (pose proof (vw_dels _ Hv); lia). done.
Qed.

Lemma strings_call old cl key d w : GetDestId_key (length cl) key = Some d -> cl !! d = Some w ->
  rcons RStrings <$> wc_ListBranches params fuel addr id_ cl key
  = (r ← received old (RStrings (fst (ListBranches w key)) (snd (ListBranches w key))); Some (r, <[d := w]> cl)).
Proof.
  intros Hd Hw. rewrite rcons_fmap. unfold wc_ListBranches.
  etransitivity; [apply (exchange_key_decoded cl key d w Hd Hw _ (fun x => RStrings (fst x) (snd x)) _
    (Some (list_response (ListBranches w key), w)) (no_payload _ _))| ].
  - by handler.
  - intros resp w' [= <- <-]. apply list_response_ok.
  - apply strings_reply.
Qed.

Lemma versions_call old cl key d w : GetDestId_key (length cl) key = Some d -> cl !! d = Some w ->
  rcons RVersions <$> wc_GetLatestVersions params fuel addr id_ cl key
  = (r ← received old (RVersions (fst (GetLatestVersions w key)) (snd (GetLatestVersions w key)));
     Some (r, <[d := w]> cl)).
Proof.
  intros Hd Hw. rewrite rcons_fmap. unfold wc_GetLatestVersions.
  etransitivity; [apply (exchange_key_decoded cl key d w Hd Hw _ (fun x => RVersions (fst x) (snd x)) _
    (vs ← mapM bytes_of_hash (GetLatest (head_ver_ w) key); Some (list_response (kOK, vs), w)) (no_payload _ _))| ].
  - handler. unfold GetLatestVersions. by destruct (mapM bytes_of_hash _).
  - intros resp w' (vs & _ & [= <- <-])%bind_Some. apply list_response_ok.
  - apply (versions_reply old kOK).
Qed.

Lemma head_call old cl key branch d w : GetDestId_key (length cl) key = Some d -> cl !! d = Some w ->
  rcons RVersion <$> wc_GetBranchHead params fuel addr id_ cl key branch old
  = (r ← received old (RVersion (fst (GetBranchHead w key branch)) (snd (GetBranchHead w key branch)));
     Some (r, <[d := w]> cl)).
Proof.
  intros Hd Hw. unfold wc_GetBranchHead.
  etransitivity; [apply (version_call cl key d w Hd Hw old _ (Some (GetBranchHead w key branch, w)) (no_payload _ _))|].
  - handler. by destruct (GetBranchHead w key branch).
  - unfold with_ver. by destruct (GetBranchHead w key branch).
Qed.

Lemma get_chunk_call old bypass cl key v d w :
  length v = kByteLength -> GetDestId_key (length cl) key = Some d -> cl !! d = Some w ->
  rcons RChunk <$> wc_GetChunk params fuel addr id_ bypass false cl key (Some v)
  = (r ← received old (RChunk (fst (Worker_GetChunk w (Some v))) (snd (Worker_GetChunk w (Some v))));
     Some (r, <[d := w]> cl)).
Proof.
  intros Hl Hd Hw. unfold wc_GetChunk, set_version. rewrite Hd. osimpl. rewrite (bytes_of_hash_wf v Hl). osimpl.
  destruct bypass.
  - rewrite Hw. osimpl. rewrite (list_insert_id cl d w Hw). unfold HandleGetChunkRequest, Worker_GetChunk, received, on_ok.
    cbn [fst snd]. destruct (chunk_empty _); [done|]. by destruct (resend _).
  - rewrite rcons_fmap. unfold Worker_GetChunk.
    set (ec := if chunk_empty (cs_Get (w_store w) (Some v)) then kChunkNotExists else kOK). cbn [fst snd].
    pose proof (exchange_key_decoded cl key d w Hd Hw GetChunkResponse (fun x => RChunk (fst x) (snd x))
      (request_msg GET_CHUNK_REQUEST (mkReq None (Some v) None None None) None)
      (resp ← chunk_response ec (cs_Get (w_store w) (Some v)); Some (resp, w)) (no_payload _ _)) as E.
    unfold exchange_key in E. rewrite Hd in E. osimpl in E. etransitivity; [apply E|].
    + handler. rewrite (hash_arg_wf v Hl). osimpl. unfold Worker_GetChunk. fold ec. by destruct (chunk_response _ _).
    + intros resp w' (p & Ep & [= <- <-])%bind_Some. by eapply chunk_response_ok.
    + apply chunk_reply.
Qed.

(** The calls that send a value. *)
Definition sends_value (c : Call) : bool :=
  match c with
  | CPut _ _ _ | CPutBranch _ _ _ | CMergeVers _ _ _ _ | CMergeVer _ _ _ _ | CMergeBranch _ _ _ _ | CPutUnkeyed _ _ => true
  | _ => false
  end.

Lemma remote_write old cl c d w :
  sends_value c = true -> call_wf c -> GetDestId_key (length cl) (call_key c) = Some d -> cl !! d = Some w ->
  remote_call old cl c = ('(reply, w') ← local_call w c; r ← received old reply; Some (r, <[d := w']> cl)).
Proof.
  intros Hs Hwf Hd Hw. destruct c; try discriminate Hs; clear Hs; cbn [call_key call_wf remote_call local_call] in *.
  - destruct Hwf as [(p & Ep & Hp & Efrom)%sendable_rep (v & -> & Hl)].
    unfold wc_Put_ver, set_version, CreatePutMessage. rewrite (bytes_of_hash_wf v Hl). osimpl. rewrite Ep. osimpl.
    apply (version_call cl key d w Hd Hw); [by apply some_payload|].
    handler. rewrite Efrom. osimpl. by rewrite (hash_arg_wf v Hl).
  - apply sendable_rep in Hwf as (p & Ep & Hp & Efrom). unfold wc_Put_branch, CreatePutMessage. rewrite Ep. osimpl.
    apply (version_call cl key d w Hd Hw); [by apply some_payload|]. handler. by rewrite Efrom.
  - destruct Hwf as [(p & Ep & Hp & Efrom)%sendable_rep [(v1 & -> & Hl1) (v2 & -> & Hl2)]].
    unfold wc_Merge_vers, set_version, set_ref_version, CreateMergeMessage.
    rewrite (bytes_of_hash_wf v1 Hl1). osimpl. rewrite (bytes_of_hash_wf v2 Hl2). osimpl. rewrite Ep. osimpl.
    apply (version_call cl key d w Hd Hw); [by apply some_payload|].
    handler. rewrite Efrom. osimpl. rewrite (hash_arg_wf v1 Hl1). osimpl. by rewrite (hash_arg_wf v2 Hl2).
  - destruct Hwf as [(p & Ep & Hp & Efrom)%sendable_rep (v & -> & Hl)].
    unfold wc_Merge_ver, set_ref_version, CreateMergeMessage. rewrite (bytes_of_hash_wf v Hl). osimpl. rewrite Ep. osimpl.
    apply (version_call cl key d w Hd Hw); [by apply some_payload|].
    handler. rewrite Efrom. osimpl. by rewrite (hash_arg_wf v Hl).
  - apply sendable_rep in Hwf as (p & Ep & Hp & Efrom). unfold wc_Merge_branch, CreateMergeMessage. rewrite Ep. osimpl.
    apply (version_call cl key d w Hd Hw); [by apply some_payload|]. handler. by rewrite Efrom.
  - apply sendable_rep in Hwf as (p & Ep & Hp & Efrom). unfold wc_PutUnkeyed. rewrite Ep. osimpl.
    etransitivity; [apply (version_call cl route_key d w Hd Hw old _
      ('(ec, ver, st) ← PutUnkeyed params fuel (w_store w) val; Some (ec, ver, set_store w st)) (some_payload _ _ _ Hp))|].
    + handler. rewrite Efrom. osimpl. by destruct (PutUnkeyed params fuel (w_store w) val) as [[[ec ver] st]|].
    + by destruct (PutUnkeyed params fuel (w_store w) val) as [[[ec ver] st]|].
Qed.

(** A call by a client is the call at the worker that owns the key. *)
Lemma remote_is_local old cl c d w :
  call_wf c -> GetDestId_key (length cl) (call_key c) = Some d -> cl !! d = Some w ->
  remote_call old cl c = ('(reply, w') ← local_call w c; r ← received old reply; Some (r, <[d := w']> cl)).
Proof.
  intros Hwf Hd Hw. destruct (sends_value c) eqn:Hs; [by apply remote_write|].
  destruct c; try discriminate Hs; clear Hs; cbn [call_key call_wf remote_call local_call] in *.
  - destruct Hwf as (v & -> & Hl). unfold wc_Branch_ver, set_ref_version. rewrite (bytes_of_hash_wf v Hl). osimpl.
    apply (code_call cl key d w Hd Hw old _ (Some (Branch_ver w key (Some v) new_branch)) (no_payload _ _)).
    handler. by rewrite (hash_arg_wf v Hl).
  - apply (code_call cl key d w Hd Hw old _ (Some (Branch w key old_branch new_branch)) (no_payload _ _)). by handler.
  - apply (code_call cl key d w Hd Hw old _ (Rename w key old_branch new_branch) (no_payload _ _)). by handler.
  - apply (code_call cl key d w Hd Hw old _ (Some (Delete w key branch)) (no_payload _ _)). by handler.
  - destruct Hwf as (v & -> & Hl). unfold wc_Get_ver, set_version. rewrite (bytes_of_hash_wf v Hl). osimpl.
    etransitivity; [apply (cell_call cl key d w Hd Hw old _ (Get_ver w key (Some v)) (no_payload _ _))|].
    + handler. by rewrite (hash_arg_wf v Hl).
    + by destruct (Get_ver w key (Some v)) as [[ec u]|].
  - etransitivity; [apply (cell_call cl key d w Hd Hw old _ (Get_branch w key branch) (no_payload _ _))|].
    + by handler.
    + by destruct (Get_branch w key branch) as [[ec u]|].
  - by apply strings_call.
  - apply (bool_call cl key d w Hd Hw old _ (Worker_Exists w key) (no_payload _ _)). by handler.
  - apply (bool_call cl key d w Hd Hw old _ (Worker_ExistsBranch w key branch) (no_payload _ _)). by handler.
  - by apply head_call.
  - destruct Hwf as (v & -> & Hl). unfold wc_IsBranchHead, set_version. rewrite (bytes_of_hash_wf v Hl). osimpl.
    apply (bool_call cl key d w Hd Hw old _ (Worker_IsBranchHead w key branch (Some v)) (no_payload _ _)).
    handler. by rewrite (hash_arg_wf v Hl).
  - by apply versions_call.
  - destruct Hwf as (v & -> & Hl). unfold wc_IsLatestVersion, set_version. rewrite (bytes_of_hash_wf v Hl). osimpl.
    apply (bool_call cl key d w Hd Hw old _ (IsLatestVersion w key (Some v)) (no_payload _ _)).
    handler. by rewrite (hash_arg_wf v Hl).
  - destruct Hwf as (v & -> & Hl). by apply get_chunk_call.
Qed.

End Rpc.
