(* ===== verification/RpcClaims.v ===== *)
(** * What clients of a cluster can rely on

    Remote calls, values on the wire, strings written and read through the
    cluster, queries to all nodes, and blobs that are sent from a stream. *)

From S2P Require Import Prelude Types Slice HashVal Chunk RollingHash Node Chunker.
From S2P Require Import Store Cursor Builder Advanced Objects Cell HeadVersion Worker Grow WorkerProps.
From S2P Require Import Messages WorkerService WorkerClient RpcProps.

(** ** Replies arrive as what they were *)

Section Replies.
Context `{HashFunction}.

Lemma received_version old ver : is_version ver -> received old (RVersion kOK ver) = Some (RVersion kOK ver).
Proof. intros (v & -> & Hl). unfold received, on_ok. by rewrite bytes_of_hash_wf. Qed.

Lemma received_cell old n v :
  ver_ok v -> chunk_rep (cell_chunk n) kCell (ver_payload v) ->
  exists n', received old (RCell kOK (Some n)) = Some (RCell kOK (Some n')) /\ cell_rep (Some n') v /\
    chunk_rep (cell_chunk n') kCell (ver_payload v).
Proof.
  intros Hv Hc. unfold received, on_ok. osimpl. rewrite (resend_rep _ _ _ Hc). osimpl.
  pose proof (chunk_rep_make kCell _ (ver_payload_ok v Hv)) as Hm.
  destruct (UCell_of_chunk_rep _ v Hv Hm) as (n' & -> & Hmk & Hr). osimpl. exists n'. split_and!; [done|done|].
  unfold CellNode_make in Hmk. apply bind_Some in Hmk as (? & _ & Hmk). apply bind_Some in Hmk as (? & _ & Hmk).
  apply bind_Some in Hmk as (? & _ & [= <-]). exact Hm.
Qed.

Lemma received_chunk old c t p :
  chunk_rep c t p -> exists c', received old (RChunk kOK c) = Some (RChunk kOK c') /\ chunk_rep c' t p.
Proof.
  intros Hc. unfold received, on_ok. rewrite (resend_rep _ _ _ Hc). osimpl. eexists. split; [done|].
  apply chunk_rep_make, Hc.
Qed.

End Replies.

Section Claims.
Context `{HashFunction} `{Uninit} `{StdSort} `{ProtobufSpec}.
Context {St : Type} `{ChunkStoreSpec St} `{InfoSource St} {HV : Type} `{HeadVersionSpec HV}.
Variable (params : NodeKind -> ChunkerParams) (fuel : nat) (addr : nat -> bytes).
Implicit Types (w : Worker HV St) (cl : list (Worker HV St)) (key branch : Slice).

(** C9.  Transparency: a call by a client to a cluster is the call at the worker
    that the partitioner names for the key.  The same worker state results, all
    other workers stay as they are, and the client receives the worker's reply
    ([received]); the call does not return exactly if the worker dies.  A version
    arrives as it was, the cell of a version shows the same version, a chunk has
    the same content. *)
Theorem rpc_transparent id_ old cl c d w :
  is_i32 id_ -> call_wf c -> GetDestId_key (length cl) (call_key c) = Some d -> cl !! d = Some w ->
  remote_call params fuel addr id_ old cl c
    = ('(reply, w') ← local_call params fuel w c; r ← received old reply; Some (r, <[d := w']> cl)) /\
  (forall ver, is_version ver -> received old (RVersion kOK ver) = Some (RVersion kOK ver)) /\
  (forall n v, ver_ok v -> chunk_rep (cell_chunk n) kCell (ver_payload v) ->
     exists u, received old (RCell kOK (Some n)) = Some (RCell kOK u) /\ cell_rep u v) /\
  (forall ch t p, chunk_rep ch t p ->
     exists ch', received old (RChunk kOK ch) = Some (RChunk kOK ch') /\ chunk_rep ch' t p).
Proof.
  intros Hid Hwf Hd Hw. split_and!.
  - by apply remote_is_local.
  - apply received_version.
  - intros n v Hv Hc. destruct (received_cell old n v Hv Hc) as (n' & E & Hr & _). eauto.
  - apply received_chunk.
Qed.

(** C34.  A value survives the way to the worker, except that the number of
    deletions is sent as a signed 32-bit integer: it arrives as it was exactly if
    it is below [2^31] or at least [2^64 - 2^31]. *)
Theorem value_on_the_wire val :
  value_wf val ->
  exists p arrived, FillValuePayload val = Some p /\ ValueFromRequest p = Some arrived /\
    val_type arrived = val_type val /\ val_base arrived = val_base val /\ val_pos arrived = val_pos val /\
    val_vals arrived = val_vals val /\ val_keys arrived = val_keys val /\ val_ctx arrived = val_ctx val /\
    (val_dels arrived = val_dels val <-> (val_dels val < 2 ^ 31 \/ 2 ^ 64 - 2 ^ 31 <= val_dels val)%Z).
Proof.
  intros Hv. destruct (FillValuePayload_rep val Hv) as (p & Ep & _ & Ef). exists p, (sent_value val).
  split_and!; try done. cbn [sent_value val_dels]. pose proof (vw_dels _ Hv) as Hd. rewrite u64_i32 by done.
  pose proof (Z.mod_pos_bound (val_dels val) (2 ^ 32) ltac:(lia)).
  pose proof (Z.div_mod (val_dels val) (2 ^ 32) ltac:(lia)).
  assert (0 <= val_dels val / 2 ^ 32 < 2 ^ 32)%Z.
  { split; [apply Z.div_pos; lia|]. apply Z.div_lt_upper_bound; lia. }
  destruct (_ <? _)%Z eqn:E; [apply Z.ltb_lt in E|apply Z.ltb_ge in E]; lia.
Qed.

(** The chunk of a cell that was read. *)
Lemma Get_ver_chunk w key h n : Get_ver w key h = Some (kOK, Some n) -> cell_chunk n = cs_Get (w_store w) h.
Proof.
  unfold Get_ver, UCell_Load, UCell_of_chunk. destruct (chunk_empty _); [done|].
  destruct (chunk_type _) as [t|]; [|done]. destruct t; try done. unfold CellNode_make.
  destruct (numPreHash _); [|done]. destruct (keyLength _); [|done]. destruct (dataLength _); [|done]. osimpl.
  destruct (ucell_key _) as [k|]; [|done]. osimpl. destruct (negb _); [done|]. by intros [= <-].
Qed.

(** A string that a client puts on a branch is what every client of the
    cluster then gets from the branch; no other node of the cluster takes part. *)
Theorem remote_put_then_get id1 id2 old cl d w key val branch p :
  is_i32 id1 -> is_i32 id2 -> GetDestId_key (length cl) key = Some d -> cl !! d = Some w ->
  puts_succeed (St := St) -> worker_wf w -> val_sendable val ->
  val_type val = UString -> CheckString val = kOK -> branch <> [] ->
  snd (GetBranch (head_ver_ w) key branch) = Some p ->
  let v := string_version key val p None in
  ver_ok v -> ver_readable v ->
  (forall c, contents (w_store w) !! Some (ver_hash v) = Some c -> chunk_rep c kCell (ver_payload v)) ->
  exists cl' u,
    wc_Put_branch params fuel addr id1 cl key val branch old = Some (kOK, Some (ver_hash v), cl') /\
    wc_Get_branch params fuel addr id2 cl' key branch = Some (kOK, u, cl') /\
    ucell_key u = Some key /\ ucell_data u = head (val_vals val) /\ ucell_context u = Some (val_ctx val) /\
    ucell_preHash u false = Some (Some p) /\
    forall i, i <> d -> cl' !! i = cl !! i.
Proof.
  intros Hi1 Hi2 Hd Hw Hp Hwf Hsend Ht Hc Hb Hh v Hv Hr Hnc.
  destruct (WriteUCell_string params fuel w key val p None Ht Hc Hv) as (w1 & Hn & E).
  destruct (new_version_Get _ _ _ _ Hp Hn Hnc) as (u & Hg & Hu).
  pose proof (head_known w key branch Hwf) as Hk. simpl in Hk. rewrite Hh in Hk.
  set (w2 := set_head w1 (PutBranch (head_ver_ w1) key branch (Some (ver_hash v)))).
  assert (Eput : Put_branch params fuel w key val branch = Some (kOK, Some (ver_hash v), w2)).
  { unfold Put_branch, Put_at, Put_prev. rewrite Hh, Hk, E. osimpl.
    by rewrite bool_decide_true, slice_nonempty. }
  assert (Eget : Get_branch w2 key branch = Some (kOK, u)).
  { unfold Get_branch. subst w2. cbn [head_ver_ set_head]. rewrite GetBranch_spec, PutBranch_heads, upd_eq, ver_hash_Clone.
    exact Hg. }
  destruct u as [n|]; [|by destruct Hu as [Hu _ _ _ _ _ _]].
  assert (Hchunk : chunk_rep (cell_chunk n) kCell (ver_payload v)).
  { rewrite (Get_ver_chunk _ _ _ _ Hg). destruct (nv_stored _ _ _ _ Hp Hn) as [c Ec]. rewrite Get_spec, Ec.
    exact (nv_chunk _ _ _ _ Hn Hnc _ Ec). }
  destruct (received_cell old n v Hv Hchunk) as (n' & Ercv & Hn' & _).
  assert (Hdl : d < length cl) by (by apply lookup_lt_Some in Hw).
  exists (<[d := w2]> cl), (Some n').
  pose proof (remote_is_local params fuel addr id1 Hi1 old cl (CPutBranch key val branch) d w Hsend Hd Hw) as R1.
  pose proof (remote_is_local params fuel addr id2 Hi2 old (<[d := w2]> cl) (CGetBranch key branch) d w2 I) as R2.
  rewrite length_insert in R2. specialize (R2 Hd (list_lookup_insert_eq _ _ _ Hdl)).
  cbn [remote_call local_call] in R1, R2. rewrite Eput in R1. rewrite Eget in R2. osimpl in R1. osimpl in R2.
  unfold with_ver in R1. rewrite received_version in R1 by (exists (ver_hash v); split; [done|apply length_ComputeFrom]).
  rewrite Ercv in R2. osimpl in R1. osimpl in R2. rewrite list_insert_insert_eq in R2.
  assert (Hd' : head (val_vals val) = Some (v_data v)).
  { unfold CheckString in Hc. destruct (hash_empty _); [|done]. subst v. simpl. by destruct (val_vals val) as [|x [|]]. }
  rewrite Hd'. split_and!; try (by apply Hn').
  - destruct (wc_Put_branch _ _ _ _ _ _ _ _ _) as [[[ec h] cl']|]; [|done]. unfold rcons in R1. osimpl in R1. by simplify_eq.
  - destruct (wc_Get_branch _ _ _ _ _ _ _) as [[[ec h] cl']|]; [|done]. unfold rcons in R2. osimpl in R2. by simplify_eq.
  - intros i Hi. by apply list_lookup_insert_ne.
Qed.

(** ** Blobs from a stream *)

(** A part of a value, as [SplitAndPut] sends it. *)
Definition part_value (val : Value) (data : bytes) : Value :=
  mkValue (val_type val) (val_base val) (val_pos val) (val_dels val) [data] (val_keys val) (val_ctx val).

(** A stream of fewer bytes than fit into one message is put on a branch
    like a value with these bytes, whether the branch exists or not.  A stream
    put on top of a version, however, does not use the version: it uses what
    [*version] was before the call, and with an empty hash there, as [ObjectDB]
    passes it, the client process dies whatever the stream and the version are. *)
Theorem stream_put id_ max cl key val data branch pre_version h0 :
  hash_wf (val_base val) -> (0 <= val_pos val < 2 ^ 64)%Z ->
  (forall code meta, length data < max -> branch <> [] ->
     wc_Get_branch params fuel addr id_ cl key branch = Some (code, meta, cl) ->
     code = kKeyNotExists \/ code = kBranchNotExists \/ (code = kOK /\ is_Some (ucell_hash meta)) ->
     exists h, wc_Put_stream_branch params fuel addr id_ max cl key val (mkStream data false) branch h0
       = wc_Put_branch params fuel addr id_ cl key (part_value val data) branch h) /\
  wc_Put_stream_ver params fuel addr id_ max cl key val (mkStream data false) pre_version None = None.
Proof.
  intros Hb Hpos. split.
  - intros code meta Hlen Hbr Eget Hcode. unfold wc_Put_stream_branch, SplitAndPut. cbn [split_loop is_eof is_rest].
    rewrite (hash_Clone_wf _ Hb). unfold split_prepare. rewrite (slice_nonempty _ Hbr). cbn [Z.eqb negb andb].
    rewrite Eget. osimpl.
    assert (Hprep : exists h1, (match code with
        | kOK => h ← ucell_hash meta; Some (inr (h, mkValue (val_type val) (val_base val) (val_pos val) (val_dels val) []
                   (val_keys val) (val_ctx val), cl))
        | kKeyNotExists | kBranchNotExists => Some (inr (h0, mkValue (val_type val) (val_base val) (val_pos val)
                   (val_dels val) [] (val_keys val) (val_ctx val), cl))
        | _ => Some (inl code) end : option (ErrorCode + Hash * Value * list (Worker HV St)))
      = Some (inr (h1, mkValue (val_type val) (val_base val) (val_pos val) (val_dels val) [] (val_keys val) (val_ctx val), cl))).
    { destruct Hcode as [->|[->|[-> [h ->]]]]; eauto. }
    destruct Hprep as [h1 ->]. osimpl. exists h1. unfold is_read. cbn [is_rest is_eof orb].
    rewrite take_ge, drop_ge by lia. rewrite (proj2 (Nat.ltb_lt _ _) Hlen), orb_true_r. cbn [negb andb].
    cbn [val_type val_base val_dels val_keys val_ctx]. rewrite Z.add_0_r, (wrap_small 64) by done. fold (part_value val data).
    destruct (wc_Put_branch _ _ _ _ _ _ _ _ _) as [[[ec ver] cl2]|]; [|done]. osimpl.
    destruct (decide (ec = kOK)) as [->|Hne]; [by destruct (length data)|by rewrite not_ok].
  - unfold wc_Put_stream_ver, SplitAndPut. cbn [split_loop is_eof is_rest]. unfold split_prepare. cbn. done.
Qed.

End Claims.

(** ** Witnesses: a cluster of two empty workers *)

Section Witnesses.
#[local] Existing Instances plain_hash zeroed map_store map_store_spec merge_std_sort bit_protobuf bit_protobuf_spec.

Definition no_info : InfoSource (gmap Hash Chunk) := fun _ => mkNodeInfo 0 0 0 0 0 0 0 0 ∅ ∅ [].
#[local] Existing Instance no_info.

Definition two_workers : list (Worker SimpleHeadVersion (gmap Hash Chunk)) := [empty_worker; empty_worker].
Definition no_addr (d : nat) : bytes := [].

(** The worker of the key "k". *)
Definition sample_dest : nat := default 0 (GetDestId_key 2 [x6b]).

Lemma sample_dest_ok : GetDestId_key (length two_workers) [x6b] = Some sample_dest /\ two_workers !! sample_dest = Some empty_worker.
Proof. split; vm_compute; reflexivity. Qed.

Lemma sample_value_sendable : val_sendable sample_value.
Proof. split; [constructor; [by intros v Ev| | ]; cbn; lia|cbn; lia]. Qed.

Lemma small_id : is_i32 7.
Proof. unfold is_i32. lia. Qed.

Lemma rpc_transparent_witness : exists r,
  remote_call any_params 0 no_addr 7 None two_workers (CExists [x6b]) = Some (r, two_workers).
Proof.
  destruct (rpc_transparent any_params 0 no_addr 7 None two_workers (CExists [x6b]) sample_dest empty_worker
    small_id I (proj1 sample_dest_ok) (proj2 sample_dest_ok)) as [E _].
  exists (RBool kOK false). rewrite E. cbn [local_call]. osimpl. unfold received, on_ok. cbn [Worker_Exists fst snd]. osimpl.
  rewrite (list_insert_id _ _ _ (proj2 sample_dest_ok)). cbn [head_ver_ empty_worker ExistsKey simple_hv]. unfold shv_ExistsKey. cbn [latest_ver_ empty_hv].
  rewrite bool_decide_false; [reflexivity|]. rewrite lookup_empty. intros [? Hn]. discriminate Hn.
Defined.

Lemma value_on_the_wire_witness : exists p, FillValuePayload sample_value = Some p /\
  exists arrived, ValueFromRequest p = Some arrived /\ val_dels arrived = 0%Z.
Proof.
  destruct (value_on_the_wire sample_value (proj1 sample_value_sendable)) as (p & a & E1 & E2 & _ & _ & _ & _ & _ & _ & Hd).
  exists p. split; [exact E1|]. exists a. split; [exact E2|]. apply Hd. left. cbn. lia.
Defined.

Lemma remote_put_then_get_witness : exists cl' u,
  wc_Put_branch any_params 0 no_addr 7 two_workers [x6b] sample_value [x6d] None
    = Some (kOK, Some (ver_hash first_version), cl') /\
  wc_Get_branch any_params 0 no_addr 7 cl' [x6b] [x6d] = Some (kOK, u, cl') /\ ucell_data u = Some [x01; x02].
Proof.
  destruct (remote_put_then_get any_params 0 no_addr 7 7 None two_workers sample_dest empty_worker [x6b] sample_value [x6d]
    zero_hash small_id small_id (proj1 sample_dest_ok) (proj2 sample_dest_ok)) as (cl' & u & E1 & E2 & _ & D & _);
    [apply map_puts_succeed|apply empty_worker_wf|apply sample_value_sendable|reflexivity|reflexivity|discriminate| |
     apply first_version_ok..| |].
  - cbn [head_ver_ empty_worker]. rewrite empty_no_branch. reflexivity.
  - intros c. cbn [contents map_store_spec w_store empty_worker]. rewrite lookup_empty. discriminate.
  - exists cl', u. split_and!; [exact E1|exact E2|exact D].
Defined.

Lemma stream_put_witness :
  wc_Put_stream_ver any_params 0 no_addr 7 4 two_workers [x6b] (mkValue UBlob None 0 0 [] [] []) (mkStream [x01] false)
    (Some zero_hash) None = None.
Proof.
  destruct (stream_put any_params 0 no_addr 7 4 two_workers [x6b] (mkValue UBlob None 0 0 [] [] []) [x01] [] (Some zero_hash) None)
    as [_ E]; [intros v Ev; discriminate Ev|cbn; lia|exact E].
Defined.

End Witnesses.
