(* ===== verification/ClusterProps.v ===== *)
(** * A cluster as one store

    Every key lives on one node.  A sequence of calls by any clients acts on
    every worker like the calls with its keys, and the queries that go to all
    nodes find every key once. *)

From S2P Require Import Prelude Types Slice HashVal Chunk RollingHash Node Chunker.
From S2P Require Import Store Cursor Builder Advanced Objects Cell HeadVersion Worker Grow WorkerProps History.
From S2P Require Import Messages WorkerService WorkerClient RpcProps RpcClaims.

Section Cluster.
Context `{HashFunction} `{Uninit} `{StdSort} `{ProtobufSpec}.
Context {St : Type} `{ChunkStoreSpec St} `{InfoSource St} {HV : Type} `{HeadVersionSpec HV}.
Variable (params : NodeKind -> ChunkerParams) (fuel : nat) (addr : nat -> bytes).
Implicit Types (w : Worker HV St) (cl : list (Worker HV St)) (key branch : Slice).

Lemma key_dest n key : 0 < n -> exists d, GetDestId_key n key = Some d /\ d < n.
Proof. intros Hn. apply GetDestId_total; [done|apply length_ComputeFrom]. Qed.

(** ** Calls and the operations of a worker *)

Definition op_of (c : Call) : option Op :=
  match c with
  | CPut k val h => Some (OpPut k val h)
  | CPutBranch k val b => Some (OpPutBranch k val b)
  | CMergeVers k val h1 h2 => Some (OpMerge k val h1 h2)
  | CMergeVer k val b h => Some (OpMergeVer k val b h)
  | CMergeBranch k val b1 b2 => Some (OpMergeBranch k val b1 b2)
  | CPutUnkeyed _ val => Some (OpPutUnkeyed val)
  | CBranchVer k h b => Some (OpBranchVer k h b)
  | CBranch k b1 b2 => Some (OpBranch k b1 b2)
  | CRename k b1 b2 => Some (OpRename k b1 b2)
  | CDelete k b => Some (OpDelete k b)
  | _ => None
  end.

Lemma is_version_wf h : is_version h -> hash_wf h.
Proof. intros (v & -> & Hl) x [= <-]. done. Qed.

Lemma op_of_wf c op : call_wf c -> op_of c = Some op -> op_wf op.
Proof. intros Hc E. destruct c; simplify_eq/=; try done; destruct_and?; auto using is_version_wf. Qed.

Lemma local_exec w c r w' :
  local_call params fuel w c = Some (r, w') ->
  match op_of c with
  | Some op => exists ec ver, exec params fuel w op = Some (ec, ver, w')
  | None => w' = w
  end.
Proof.
  assert (Hver : forall o, with_ver <$> o = Some (r, w') -> exists ec ver, o = Some (ec, ver, w')).
  { intros o ([[ec ver] w1] & -> & [= -> ->])%fmap_Some. eauto. }
  destruct c; cbn [local_call op_of exec]; try (apply Hver); try (intros [= <- <-]; (reflexivity || (eexists _, _; reflexivity))).
  - intros ([[ec ver] st] & -> & [= <- <-])%bind_Some. eexists _, _. done.
  - intros ([ec w1] & -> & [= -> ->])%fmap_Some. eexists _, _. done.
  - by intros ([ec u] & _ & [= <- <-])%bind_Some.
  - by intros ([ec u] & _ & [= <- <-])%bind_Some.
Qed.

(** ** Which keys a worker knows *)

Definition knows w (k : Slice) : Prop := is_Some (latest (head_ver_ w) k).

Lemma exec_knows w op ec ver w' k :
  worker_wf w -> op_wf op -> exec params fuel w op = Some (ec, ver, w') -> knows w' k ->
  knows w k \/ exists p1 p2, op_refs w op = Some (k, p1, p2).
Proof.
  intros Hw Ho E. destruct (exec_event params fuel _ _ _ _ _ Hw Ho E) as [Hl _]. unfold knows. rewrite Hl. unfold op_event.
  destruct (decide (ec = kOK)) as [->|Hne]; [|rewrite not_ok by done; by left].
  destruct (op_refs w op) as [[[k' p1] p2]|]; [|by left]. cbn [foldl put_event]. unfold put_event.
  cbn [ev_key ev_prev1 ev_prev2 ev_ver]. rewrite PutLatest_latest. case_decide; [|by left]. subst. right. eauto.
Qed.

(** Only the key of the call can be new. *)
Lemma local_knows w c r w' k :
  worker_wf w -> call_wf c -> local_call params fuel w c = Some (r, w') -> knows w' k -> knows w k \/ k = call_key c.
Proof.
  intros Hw Hc E Hk. apply local_exec in E. destruct (op_of c) as [op|] eqn:Eo; [|subst; by left].
  destruct E as (ec & ver & E). destruct (exec_knows _ _ _ _ _ _ Hw (op_of_wf _ _ Hc Eo) E Hk) as [?|(p1 & p2 & Er)];
    [by left|]. right. by destruct c; simplify_eq/=.
Qed.

Lemma local_wf w c r w' :
  puts_succeed (St := St) -> worker_wf w -> call_wf c -> local_call params fuel w c = Some (r, w') -> worker_wf w'.
Proof.
  intros Hp Hw Hc E. apply local_exec in E. destruct (op_of c) as [op|] eqn:Eo; [|by subst].
  destruct E as (ec & ver & E). by apply (exec_step params fuel _ _ _ _ _ Hp Hw (op_of_wf _ _ Hc Eo)) in E as [? _ _].
Qed.

(** ** Runs *)

(** Calls by clients, one after the other, and the replies they receive. *)
Fixpoint run_cluster cl (calls : list (Z * Call)) : option (list (Call * Reply) * list (Worker HV St)) :=
  match calls with
  | [] => Some ([], cl)
  | (id_, c) :: calls' =>
      '(r, cl1) ← remote_call params fuel addr id_ None cl c;
      '(log, cl2) ← run_cluster cl1 calls';
      Some ((c, r) :: log, cl2)
  end.

Fixpoint run_worker w (calls : list Call) : option (list (Call * Reply) * Worker HV St) :=
  match calls with
  | [] => Some ([], w)
  | c :: calls' =>
      '(r0, w1) ← local_call params fuel w c;
      r ← received None r0;
      '(log, w2) ← run_worker w1 calls';
      Some ((c, r) :: log, w2)
  end.

Definition goes_to (n d : nat) (c : Call) : bool := bool_decide (GetDestId_key n (call_key c) = Some d).

Definition calls_wf (calls : list (Z * Call)) : Prop := Forall (fun ic => is_i32 (fst ic) /\ call_wf (snd ic)) calls.

(** The step of a run. *)
Lemma remote_step id_ cl c : is_i32 id_ -> call_wf c -> cl <> [] ->
  exists d w, GetDestId_key (length cl) (call_key c) = Some d /\ cl !! d = Some w /\ d < length cl /\
    remote_call params fuel addr id_ None cl c
    = ('(r0, w') ← local_call params fuel w c; r ← received None r0; Some (r, <[d := w']> cl)).
Proof.
  intros Hi Hc Hne. destruct (key_dest (length cl) (call_key c)) as (d & Hd & Hl); [by destruct cl; simpl; [|lia]|].
  destruct (lookup_lt_is_Some_2 cl d Hl) as [w Hw]. exists d, w. split_and!; [done..|]. by apply remote_is_local.
Qed.

Lemma insert_not_nil cl d w : cl <> [] -> <[d := w]> cl <> [].
Proof. destruct cl, d; done. Qed.

Lemma run_projection calls : forall cl log cl',
  calls_wf calls -> cl <> [] -> run_cluster cl calls = Some (log, cl') ->
  length cl' = length cl /\
  forall d w, cl !! d = Some w -> exists w', cl' !! d = Some w' /\
    run_worker w (filter (goes_to (length cl) d) calls.*2) = Some (filter (fun cr => goes_to (length cl) d (fst cr)) log, w').
Proof.
  induction calls as [|[id_ c] calls IH]; intros cl log cl' Hwf Hne E.
  { injection E as <- <-. split; [done|]. intros d w Hw. exists w. done. }
  apply Forall_cons in Hwf as [[Hi Hc] Hwf]. cbn [run_cluster] in E.
  destruct (remote_step id_ cl c Hi Hc Hne) as (d0 & w0 & Hd0 & Hw0 & Hl0 & Er). rewrite Er in E.
  destruct (local_call params fuel w0 c) as [[r0 w1]|] eqn:El; [|done]. osimpl in E.
  destruct (received None r0) as [r|] eqn:Erc; [|done]. osimpl in E.
  destruct (run_cluster (<[d0 := w1]> cl) calls) as [[log1 cl2]|] eqn:E1; [|done]. osimpl in E. injection E as <- <-.
  destruct (IH _ _ _ Hwf (insert_not_nil _ _ _ Hne) E1) as [Hlen Hproj]. rewrite length_insert in Hlen, Hproj.
  split; [done|]. intros d w Hw. cbn [fmap list_fmap snd]. rewrite !filter_cons. cbn [fst].
  destruct (decide (d = d0)) as [->|Hnd].
  - rewrite decide_True by (by apply bool_decide_pack). rewrite Hw0 in Hw. injection Hw as <-.
    destruct (Hproj d0 w1) as (w' & Hw' & Erun); [by apply list_lookup_insert_eq|].
    exists w'. split; [done|]. cbn [run_worker]. rewrite El. osimpl. rewrite Erc. osimpl. rewrite Erun. osimpl.
    by rewrite decide_True by (by apply bool_decide_pack).
  - assert (Hno : ~ goes_to (length cl) d c) by (unfold goes_to; intros Hg%bool_decide_unpack; congruence).
    rewrite !decide_False by done. destruct (Hproj d w) as (w' & Hw' & Erun); [by rewrite list_lookup_insert_ne|]. eauto.
Qed.

Lemma run_returns calls : forall cl,
  calls_wf calls -> cl <> [] ->
  (forall d w, cl !! d = Some w -> is_Some (run_worker w (filter (goes_to (length cl) d) calls.*2))) ->
  is_Some (run_cluster cl calls).
Proof.
  induction calls as [|[id_ c] calls IH]; intros cl Hwf Hne Hall; [eauto|].
  apply Forall_cons in Hwf as [[Hi Hc] Hwf]. cbn [run_cluster].
  destruct (remote_step id_ cl c Hi Hc Hne) as (d0 & w0 & Hd0 & Hw0 & Hl0 & ->).
  destruct (Hall d0 w0 Hw0) as [x Ex]. cbn [fmap list_fmap snd] in Ex. rewrite filter_cons in Ex.
  rewrite decide_True in Ex by (by apply bool_decide_pack). cbn [run_worker] in Ex.
  destruct (local_call params fuel w0 c) as [[r0 w1]|] eqn:El; [|done]. osimpl in Ex. osimpl.
  destruct (received None r0) as [r|] eqn:Erc; [|done]. osimpl in Ex. osimpl.
  destruct (IH (<[d0 := w1]> cl) Hwf (insert_not_nil _ _ _ Hne)) as [[log cl2] ->]; [|eauto].
  rewrite length_insert. intros d w Hw. destruct (decide (d = d0)) as [->|Hnd].
  - rewrite list_lookup_insert_eq in Hw by done. injection Hw as <-. apply bind_Some in Ex as (y & -> & _). eauto.
  - rewrite list_lookup_insert_ne in Hw by done. specialize (Hall d w Hw). cbn [fmap list_fmap snd] in Hall.
    rewrite filter_cons, decide_False in Hall; [done|]. unfold goes_to. intros Hg%bool_decide_unpack. congruence.
Qed.

(** C20.  The cluster is the product of its workers: a run of calls by any clients
    returns exactly if every worker can run the calls with its keys, in the same
    order; then every worker ends in the state of its own run, and every call has
    received the reply that it has in that run. *)
Theorem cluster_refines_workers cl calls :
  calls_wf calls -> cl <> [] ->
  (is_Some (run_cluster cl calls) <->
   forall d w, cl !! d = Some w -> is_Some (run_worker w (filter (goes_to (length cl) d) calls.*2))) /\
  (forall log cl', run_cluster cl calls = Some (log, cl') ->
   length cl' = length cl /\
   forall d w, cl !! d = Some w -> exists w', cl' !! d = Some w' /\
     run_worker w (filter (goes_to (length cl) d) calls.*2)
     = Some (filter (fun cr => goes_to (length cl) d (fst cr)) log, w')).
Proof.
  intros Hwf Hne. split; [split|].
  - intros [[log cl'] E] d w Hw. destruct (run_projection _ _ _ _ Hwf Hne E) as [_ Hp].
    destruct (Hp d w Hw) as (w' & _ & ->). eauto.
  - by apply run_returns.
  - intros log cl' E. by eapply run_projection.
Qed.

(** ** The keys of a cluster *)

(** Every worker is well-formed and knows only keys that are its own. *)
Definition placed cl : Prop :=
  forall d w, cl !! d = Some w ->
    worker_wf w /\ forall k, knows w k -> GetDestId_key (length cl) k = Some d.

Lemma run_placed calls : forall cl log cl',
  puts_succeed (St := St) -> calls_wf calls -> cl <> [] -> placed cl -> run_cluster cl calls = Some (log, cl') ->
  placed cl' /\ length cl' = length cl.
Proof.
  induction calls as [|[id_ c] calls IH]; intros cl log cl' Hp Hwf Hne Hpl E; [by injection E as <- <-|].
  apply Forall_cons in Hwf as [[Hi Hc] Hwf]. cbn [run_cluster] in E.
  destruct (remote_step id_ cl c Hi Hc Hne) as (d0 & w0 & Hd0 & Hw0 & Hl0 & Er). rewrite Er in E.
  destruct (local_call params fuel w0 c) as [[r0 w1]|] eqn:El; [|done]. osimpl in E.
  destruct (received None r0) as [r|]; [|done]. osimpl in E.
  destruct (run_cluster (<[d0 := w1]> cl) calls) as [[log1 cl2]|] eqn:E1; [|done]. osimpl in E. injection E as <- <-.
  rewrite <- (length_insert cl d0 w1). eapply (IH (<[d0 := w1]> cl)); [done|done|by apply insert_not_nil| |done].
  intros d w. rewrite length_insert. destruct (decide (d = d0)) as [->|Hnd].
  - rewrite list_lookup_insert_eq by done. intros [= <-]. destruct (Hpl d0 w0 Hw0) as [Hww Hk].
    split; [by eapply local_wf|]. intros k Hkn. destruct (local_knows _ _ _ _ _ Hww Hc El Hkn) as [?| ->]; auto.
  - rewrite list_lookup_insert_ne by done. apply Hpl.
Qed.

(** Asking every node. *)
Lemma list_keys_loop_rep id_ cl : is_i32 id_ -> forall dests keys,
  Forall (fun d => d < length cl) dests ->
  list_keys_loop params fuel addr id_ dests cl keys
  = Some (kOK, keys ++ (dests ≫= fun d => match cl !! d with Some w => ListKey (head_ver_ w) | None => [] end), cl).
Proof.
  intros Hid. induction dests as [|d dests IH]; intros keys Hd; [by rewrite app_nil_r|].
  apply Forall_cons in Hd as [Hl Hd]. cbn [list_keys_loop]. destruct (lookup_lt_is_Some_2 cl d Hl) as [w Hw].
  rewrite (exchange_handled params fuel addr id_ Hid cl _ d w (Some (list_response (ListKeys w), w)));
    [|done|by left|done|done|done|intros resp w' [= <- <-]; apply list_response_ok].
  osimpl. rewrite (list_insert_id cl d w Hw). cbn [fst snd]. unfold GetStringListResponse. rewrite ok_code by done. osimpl.
  cbn [fst snd]. change (rs_lvalue (response_of (response_msg id_ (list_response (ListKeys w))))) with (ListKey (head_ver_ w)).
  rewrite IH by done. by rewrite bind_cons, Hw, app_assoc.
Qed.

Lemma all_keys cl :
  seq 0 (length cl) ≫= (fun d => match cl !! d with Some w => ListKey (head_ver_ w) | None => [] end)
  = cl ≫= fun w => ListKey (head_ver_ w).
Proof.
  assert (forall pre post, cl = pre ++ post ->
    seq (length pre) (length post) ≫= (fun d => match cl !! d with Some w => ListKey (head_ver_ w) | None => [] end)
    = post ≫= fun w => ListKey (head_ver_ w)) as Hall; [|by apply (Hall [])].
  intros pre post. revert pre. induction post as [|w post IH]; intros pre Hcl; [done|].
  cbn [length seq]. rewrite !bind_cons. rewrite Hcl at 1. rewrite lookup_app_r, Nat.sub_diag by lia. cbn.
  f_equal. specialize (IH (pre ++ [w])). rewrite length_app in IH. cbn in IH. rewrite Nat.add_1_r in IH. apply IH.
  by rewrite <- app_assoc.
Qed.

Lemma placed_keys cl : placed cl -> forall pre post, cl = pre ++ post ->
  NoDup (post ≫= fun w => ListKey (head_ver_ w)) /\
  forall k, k ∈ (post ≫= fun w => ListKey (head_ver_ w)) ->
    exists d, length pre <= d /\ GetDestId_key (length cl) k = Some d.
Proof.
  intros Hpl pre post. revert pre. induction post as [|w post IH]; intros pre Hcl; [split; [constructor|by intros k ?%elem_of_nil]|].
  rewrite bind_cons. destruct (IH (pre ++ [w])) as [Hnd Hin]; [by rewrite <- app_assoc|]. rewrite length_app in Hin. cbn in Hin.
  assert (Hw : cl !! length pre = Some w) by (rewrite Hcl; apply list_lookup_middle; done).
  destruct (Hpl _ _ Hw) as [_ Hk]. split.
  - apply NoDup_app. split_and!; [apply ListKey_nodup| |done]. intros k Hk1 Hk2. apply ListKey_spec in Hk1.
    destruct (Hin k Hk2) as (d & Hd & E). rewrite (Hk k Hk1) in E. injection E as <-. lia.
  - intros k [Hk1|Hk2]%elem_of_app.
    + apply ListKey_spec in Hk1. exists (length pre). split; [lia|by apply Hk].
    + destruct (Hin k Hk2) as (d & Hd & E). exists d. split; [lia|done].
Qed.

Lemma placed_elem cl d w k :
  placed cl -> GetDestId_key (length cl) k = Some d -> cl !! d = Some w ->
  k ∈ (cl ≫= fun w => ListKey (head_ver_ w)) <-> ExistsKey (head_ver_ w) k = true.
Proof.
  intros Hpl Hd Hw. rewrite ExistsKey_spec, bool_decide_eq_true, list_elem_of_bind. split.
  - intros (w1 & Hk & [d1 Hw1]%list_elem_of_lookup). apply ListKey_spec in Hk.
    pose proof (proj2 (Hpl _ _ Hw1) k Hk) as E. assert (d1 = d) as -> by congruence. congruence.
  - intros Hk. exists w. split; [by apply ListKey_spec|by eapply list_elem_of_lookup_2].
Qed.

(** C26.  Keys are partitioned: after any run of calls on a cluster that starts
    without keys, [ListKeys], which asks every node, returns every key once, and
    exactly the keys for which [Exists], which asks the node of the key, says
    yes. *)
Theorem cluster_keys id_ cl0 calls log cl :
  is_i32 id_ -> puts_succeed (St := St) -> calls_wf calls -> cl0 <> [] ->
  (forall w, w ∈ cl0 -> forall k, latest (head_ver_ w) k = None /\ forall b, heads (head_ver_ w) k b = None) ->
  run_cluster cl0 calls = Some (log, cl) ->
  exists keys, wc_ListKeys params fuel addr id_ cl = Some (kOK, keys, cl) /\ NoDup keys /\
    forall k, k ∈ keys <-> wc_Exists params fuel addr id_ cl k = Some (kOK, true, cl).
Proof.
  intros Hid Hp Hwf Hne Hfresh E.
  assert (Hpl0 : placed cl0).
  { intros d w Hw. apply list_elem_of_lookup_2 in Hw. specialize (Hfresh w Hw). split; [split|].
    - intros k b h Eh. by rewrite (proj2 (Hfresh k) b) in Eh.
    - intros k vs Ev. by rewrite (proj1 (Hfresh k)) in Ev.
    - intros k [vs Ev]. by rewrite (proj1 (Hfresh k)) in Ev. }
  destruct (run_placed _ _ _ _ Hp Hwf Hne Hpl0 E) as [Hpl Hlen].
  exists (cl ≫= fun w => ListKey (head_ver_ w)). split_and!.
  - unfold wc_ListKeys. rewrite list_keys_loop_rep by (done || (apply Forall_forall; intros d ?%elem_of_seq; lia)).
    by rewrite all_keys.
  - by apply (placed_keys cl Hpl []).
  - intros k. assert (Hcl : cl <> []) by (destruct cl, cl0; done).
    destruct (remote_step id_ cl (CExists k) Hid I Hcl) as (d & w & Hd & Hw & Hl & Er).
    rewrite (placed_elem cl d w k Hpl Hd Hw). cbn [remote_call local_call call_key] in Er, Hd.
    destruct (wc_Exists params fuel addr id_ cl k) as [[[ec b] cl1]|]; [|done]. unfold rcons in Er. osimpl in Er.
    unfold received, on_ok in Er. cbn [Worker_Exists fst snd] in Er. osimpl in Er. rewrite (list_insert_id cl d w Hw) in Er.
    injection Er as -> -> ->. split; [by intros ->|by intros [= ->]].
Qed.

End Cluster.

(** ** Witnesses *)

Section Witnesses.
#[local] Existing Instances plain_hash zeroed map_store map_store_spec merge_std_sort bit_protobuf bit_protobuf_spec no_info.

Definition sample_calls : list (Z * Call) := [(7%Z, CExists [x6b])].

Lemma sample_calls_wf : calls_wf sample_calls.
Proof. apply Forall_singleton. split; [apply small_id|exact I]. Qed.

Lemma sample_cluster_run : is_Some (run_cluster any_params 0 no_addr two_workers sample_calls).
Proof. apply run_returns; [apply sample_calls_wf|done|]. intros d w Hw.
  change (sample_calls.*2) with [CExists [x6b]]. rewrite filter_cons. case_decide; [|by eexists]. by eexists.
Qed.

Lemma cluster_refines_workers_witness : exists log cl',
  run_cluster any_params 0 no_addr two_workers sample_calls = Some (log, cl') /\ length cl' = 2.
Proof.
  destruct sample_cluster_run as [[log cl'] E]. exists log, cl'. split; [exact E|].
  destruct (cluster_refines_workers any_params 0 no_addr two_workers sample_calls sample_calls_wf) as [_ Hr]; [discriminate|].
  exact (proj1 (Hr log cl' E)).
Defined.

Lemma cluster_keys_witness : exists cl keys,
  wc_ListKeys any_params 0 no_addr 7 cl = Some (kOK, keys, cl) /\ NoDup keys.
Proof.
  destruct sample_cluster_run as [[log cl] E]. exists cl.
  destruct (cluster_keys any_params 0 no_addr 7 two_workers sample_calls log cl small_id map_puts_succeed sample_calls_wf)
    as (keys & Hk & Hn & _); [discriminate| |exact E|exists keys; split; [exact Hk|exact Hn]].
  intros w Hw k. assert (w = empty_worker) as -> by (unfold two_workers in Hw; rewrite !elem_of_cons, elem_of_nil in Hw; destruct Hw as [Hw|[Hw|[]]]; exact Hw).
  cbn. split; [apply lookup_empty|]. intros b. unfold shv_at. cbn. rewrite lookup_empty. reflexivity.
Defined.

End Witnesses.
