(* ===== verification/ClientThreads.v ===== *)
(** * Client threads and their responses: [Client::Send],
      [Client::WaitForResponse] of [src/cluster/client.cc],
      [src/cluster/client_service.cc], [include/cluster/response_blob.h]

    Every client thread has a [ResponseBlob]: a lock, a condition, a flag and the
    response.  It sends a request and waits until the network thread has put the
    response there.  Threads, the network and the server take turns in any
    order; messages may overtake each other.  The theorems say that no thread
    waits forever and that every thread gets the response to its own request. *)

From S2P Require Import Prelude.

Section Threads.

(** Requests, responses and the server, which answers every request. *)
Context {Req Resp Srv : Type}.
Variable serve : Srv -> Req -> Resp * Srv.

(** ** State *)

(** Where a client thread is.  The lock of its blob is held by the thread in
    [Sending], [Resetting] and [Checking]. *)
Inductive Pc :=
  | Idle
  | Sending (q : Req)      (** in [Send], the lock is taken *)
  | Resetting (q : Req)    (** the message is sent, [has_msg] not yet reset *)
  | Entering (q : Req)     (** between [Send] and [WaitForResponse] *)
  | Checking (q : Req)     (** tests [has_msg] *)
  | Sleeping (q : Req)     (** in [condition.wait], which released the lock *)
  | Woken (q : Req)        (** has to get the lock again *)
  | Dead.                  (** [CHECK(res_blob_->message)] failed *)

(** A client thread with its blob, the requests it has to make, and the pairs of
    requests and responses of the calls that have returned. *)
Record Client := mkClient {
  pc : Pc;
  todo : list Req;
  got : list (Req * Resp);
  has_msg : bool;
  message : option Resp
}.

(** [served] records what the server answered, in order. *)
Record System := mkSystem {
  clients : list Client;
  reqs : list (nat * Req);
  resps : list (nat * Resp);
  srv : Srv;
  served : list (nat * (Req * Resp))
}.

(** [ClientService::CreateResponseBlob]: the id is the index in the list. *)
Definition CreateResponseBlob (responses : list Client) (program : list Req) : nat * list Client :=
  (length responses, responses ++ [mkClient Idle program [] false None]).

Definition start (programs : list (list Req)) (s0 : Srv) : System :=
  mkSystem (foldl (fun cs p => snd (CreateResponseBlob cs p)) [] programs) [] [] s0 [].

(** [ClientService::HandleResponse] on the blob of the source: under the lock,
    the message is set and the waiting thread is notified. *)
Definition HandleResponse (r : Resp) (c : Client) : Client :=
  mkClient (match pc c with Sleeping q => Woken q | p => p end) (todo c) (got c) true (Some r).

Definition locked (c : Client) : bool :=
  match pc c with Sending _ | Resetting _ | Checking _ => true | _ => false end.

(** ** Steps *)

Definition set_client (s : System) (i : nat) (c : Client) : System :=
  mkSystem (<[i := c]> (clients s)) (reqs s) (resps s) (srv s) (served s).

Definition set_pc (c : Client) (p : Pc) : Client := mkClient p (todo c) (got c) (has_msg c) (message c).

(** One step of a client thread in [Send] or [WaitForResponse]. *)
Inductive client_step (i : nat) (s : System) (c : Client) : System -> Prop :=
  | send_lock q t : pc c = Idle -> todo c = q :: t ->
      client_step i s c (set_client s i (mkClient (Sending q) t (got c) (has_msg c) (message c)))
  | send_send q : pc c = Sending q ->
      client_step i s c (mkSystem (<[i := set_pc c (Resetting q)]> (clients s)) (reqs s ++ [(i, q)]) (resps s) (srv s) (served s))
  | send_reset q : pc c = Resetting q ->
      client_step i s c (set_client s i (mkClient (Entering q) (todo c) (got c) false (message c)))
  | wait_lock q : pc c = Entering q -> client_step i s c (set_client s i (set_pc c (Checking q)))
  | wait_done q r : pc c = Checking q -> has_msg c = true -> message c = Some r ->
      client_step i s c (set_client s i (mkClient Idle (todo c) (got c ++ [(q, r)]) (has_msg c) (message c)))
  | wait_dead q : pc c = Checking q -> has_msg c = true -> message c = None ->
      client_step i s c (set_client s i (set_pc c Dead))
  | wait_sleep q : pc c = Checking q -> has_msg c = false ->
      client_step i s c (set_client s i (set_pc c (Sleeping q)))
  | wait_again q : pc c = Woken q -> client_step i s c (set_client s i (set_pc c (Checking q))).

Inductive step (s : System) : System -> Prop :=
  | step_client i c s' : clients s !! i = Some c -> client_step i s c s' -> step s s'
  | step_serve l1 l2 i q : reqs s = l1 ++ (i, q) :: l2 ->
      step s (mkSystem (clients s) (l1 ++ l2) (resps s ++ [(i, fst (serve (srv s) q))]) (snd (serve (srv s) q))
                (served s ++ [(i, (q, fst (serve (srv s) q)))]))
  | step_deliver l1 l2 i r c : resps s = l1 ++ (i, r) :: l2 -> clients s !! i = Some c -> locked c = false ->
      step s (mkSystem (<[i := HandleResponse r c]> (clients s)) (reqs s) (l1 ++ l2) (srv s) (served s)).

(** A thread may also wake up without a notification. *)
Inductive any_step (s : System) : System -> Prop :=
  | any_normal s' : step s s' -> any_step s s'
  | any_spurious i c q : clients s !! i = Some c -> pc c = Sleeping q ->
      any_step s (set_client s i (set_pc c (Woken q))).

(** ** The invariant *)

(** The entries of a list that belong to client [i]. *)
Definition of_client {A} (i : nat) (l : list (nat * A)) : list A := snd <$> filter (fun x => fst x = i) l.

Lemma of_client_app {A} i (l l' : list (nat * A)) : of_client i (l ++ l') = of_client i l ++ of_client i l'.
Proof. unfold of_client. by rewrite filter_app, fmap_app. Qed.

Lemma of_client_eq {A} i (a : A) l : of_client i ((i, a) :: l) = a :: of_client i l.
Proof. unfold of_client. by rewrite filter_cons_True. Qed.

Lemma of_client_ne {A} i j (a : A) l : i <> j -> of_client j ((i, a) :: l) = of_client j l.
Proof. intros Hne. unfold of_client. by rewrite filter_cons_False. Qed.

(** The request of a call has not returned yet: it, or its response, is on the
    way. *)
Definition in_flight (s : System) (i : nat) (c : Client) (q : Req) : Prop :=
  (of_client i (reqs s) = [q] /\ of_client i (resps s) = [] /\ of_client i (served s) = got c) \/
  (exists r, of_client i (reqs s) = [] /\ of_client i (resps s) = [r] /\ of_client i (served s) = got c ++ [(q, r)]).

Definition delivered (s : System) (i : nat) (c : Client) (q : Req) : Prop :=
  exists r, of_client i (reqs s) = [] /\ of_client i (resps s) = [] /\ has_msg c = true /\ message c = Some r /\
    of_client i (served s) = got c ++ [(q, r)].

Definition client_ok (s : System) (i : nat) (c : Client) : Prop :=
  match pc c with
  | Idle | Sending _ => of_client i (reqs s) = [] /\ of_client i (resps s) = [] /\ of_client i (served s) = got c
  | Resetting q => in_flight s i c q
  | Entering q | Checking q | Woken q => (has_msg c = false /\ in_flight s i c q) \/ delivered s i c q
  | Sleeping q => has_msg c = false /\ in_flight s i c q
  | Dead => False
  end.

(** The requests of the program: answered, under way, and to be made. *)
Definition current (c : Client) : list Req :=
  match pc c with
  | Idle | Dead => []
  | Sending q | Resetting q | Entering q | Checking q | Sleeping q | Woken q => [q]
  end.

Definition program_of (c : Client) : list Req := (got c).*1 ++ current c ++ todo c.

Record system_ok (programs : list (list Req)) (s : System) : Prop := {
  sk_programs : program_of <$> clients s = programs;
  sk_reqs : forall i q, (i, q) ∈ reqs s -> i < length (clients s);
  sk_resps : forall i r, (i, r) ∈ resps s -> i < length (clients s);
  sk_clients : forall i c, clients s !! i = Some c -> client_ok s i c
}.

(** ** The invariant is kept *)

Lemma client_ok_ext s s' i c :
  of_client i (reqs s') = of_client i (reqs s) -> of_client i (resps s') = of_client i (resps s) ->
  of_client i (served s') = of_client i (served s) -> client_ok s i c -> client_ok s' i c.
Proof. unfold client_ok, in_flight, delivered. by intros -> -> ->. Qed.

(** A step that changes the client [i] and the messages of client [i]. *)
Lemma set_ok programs s i c c' rq rs sv lg :
  system_ok programs s -> clients s !! i = Some c -> program_of c' = program_of c ->
  (forall j, j <> i -> of_client j rq = of_client j (reqs s) /\ of_client j rs = of_client j (resps s) /\
     of_client j lg = of_client j (served s)) ->
  (forall j q, (j, q) ∈ rq -> (j, q) ∈ reqs s \/ j = i) -> (forall j r, (j, r) ∈ rs -> (j, r) ∈ resps s \/ j = i) ->
  client_ok (mkSystem (clients s) rq rs sv lg) i c' ->
  system_ok programs (mkSystem (<[i := c']> (clients s)) rq rs sv lg).
Proof.
  intros [Hpr Hrq Hrs Hcl] Hi Hprog Hother Hq Hr Hok. pose proof (lookup_lt_Some _ _ _ Hi) as Hlt.
  split; cbn [clients reqs resps]; rewrite ?length_insert.
  - rewrite list_fmap_insert, Hprog, Hpr. apply list_insert_id. rewrite <- Hpr, list_lookup_fmap, Hi. done.
  - intros j q [Hin| ->]%Hq; [by eapply Hrq|done].
  - intros j r [Hin| ->]%Hr; [by eapply Hrs|done].
  - intros j cj. destruct (decide (j = i)) as [->|Hne].
    + rewrite list_lookup_insert_eq by done. intros [= <-]. exact Hok.
    + rewrite list_lookup_insert_ne by done. intros Hj. destruct (Hother j Hne) as (E1 & E2 & E3).
      by apply (client_ok_ext s); [| | |apply Hcl].
Qed.

Lemma set_client_ok programs s i c c' :
  system_ok programs s -> clients s !! i = Some c -> program_of c' = program_of c -> client_ok s i c' ->
  system_ok programs (set_client s i c').
Proof. intros Hs Hi Hp Hok. apply (set_ok programs s i c c'); auto. Qed.

Lemma client_step_ok programs s i c s' :
  system_ok programs s -> clients s !! i = Some c -> client_step i s c s' -> system_ok programs s'.
Proof.
  intros Hs Hi Hst. pose proof (sk_clients _ _ Hs _ _ Hi) as Hc. unfold client_ok in Hc.
  destruct Hst as [q t Epc Et|q Epc|q Epc|q Epc|q r Epc Eh Em|q Epc Eh Em|q Epc Eh|q Epc]; rewrite Epc in Hc.
  - apply (set_client_ok programs s i c); [done|done| |done]. unfold program_of, current. cbn. by rewrite Epc, Et.
  - destruct Hc as (E1 & E2 & E3). apply (set_ok programs s i c); [done|done| | | |auto|].
    + unfold program_of, current. cbn. by rewrite Epc.
    + intros j Hne. rewrite of_client_app, of_client_ne by done. by rewrite app_nil_r.
    + intros j q' [?|[= -> ->]%list_elem_of_singleton]%elem_of_app; auto.
    + unfold client_ok, set_pc, in_flight. cbn [pc reqs resps served got]. left. rewrite of_client_app, E1, of_client_eq. done.
  - apply (set_client_ok programs s i c); [done|done| |].
    + unfold program_of, current. cbn. by rewrite Epc.
    + by left.
  - apply (set_client_ok programs s i c); [done|done| |done]. unfold program_of, current. cbn. by rewrite Epc.
  - destruct Hc as [[E _]|(r' & E1 & E2 & _ & E4 & E5)]; [congruence|]. assert (r' = r) as -> by congruence.
    apply (set_client_ok programs s i c); [done|done| |done].
    unfold program_of, current. cbn. rewrite Epc, fmap_app, <- app_assoc. done.
  - destruct Hc as [[E _]|(r' & _ & _ & _ & E4 & _)]; congruence.
  - destruct Hc as [Hc|(r & _ & _ & E & _)]; [|congruence].
    apply (set_client_ok programs s i c); [done|done| |done]. unfold program_of, current. cbn. by rewrite Epc.
  - apply (set_client_ok programs s i c); [done|done| |done]. unfold program_of, current. cbn. by rewrite Epc.
Qed.

(** The server answers the request that is under way. *)
Lemma serve_ok programs s l1 l2 i q :
  system_ok programs s -> reqs s = l1 ++ (i, q) :: l2 ->
  let r := fst (serve (srv s) q) in
  system_ok programs (mkSystem (clients s) (l1 ++ l2) (resps s ++ [(i, r)]) (snd (serve (srv s) q)) (served s ++ [(i, (q, r))])).
Proof.
  intros Hs Hl r. assert (Hlt : i < length (clients s)) by (eapply (sk_reqs _ _ Hs i q); rewrite Hl; set_solver).
  destruct (lookup_lt_is_Some_2 _ _ Hlt) as [c Hi]. rewrite <- (list_insert_id (clients s) i c Hi) at 1.
  apply (set_ok programs s i c c); [done|done|done| | | |].
  - intros j Hne. rewrite Hl, !of_client_app, !of_client_ne by done. by rewrite !app_nil_r.
  - intros j q' Hin. left. rewrite Hl. set_solver.
  - intros j r' [?|[= -> ->]%list_elem_of_singleton]%elem_of_app; auto.
  - pose proof (sk_clients _ _ Hs _ _ Hi) as Hc. unfold client_ok in *.
    assert (Hreq : of_client i (reqs s) = of_client i l1 ++ q :: of_client i l2)
      by (by rewrite Hl, of_client_app, of_client_eq).
    assert (Hfl : forall q', in_flight s i c q' ->
      in_flight (mkSystem (clients s) (l1 ++ l2) (resps s ++ [(i, r)]) (snd (serve (srv s) q)) (served s ++ [(i, (q, r))])) i c q').
    { intros q' [(E1 & E2 & E3)|(r' & E1 & _)]; rewrite Hreq in E1; [|by destruct (of_client i l1)].
      right. exists r. cbn [reqs resps served]. rewrite !of_client_app, !of_client_eq, E2, E3. cbn.
      destruct (of_client i l1) as [|x l]; [|by destruct l]. cbn in *. by injection E1 as -> ->. }
    assert (Hno : of_client i (reqs s) <> []) by (rewrite Hreq; by destruct (of_client i l1)).
    destruct (pc c); unfold delivered in *; naive_solver.
Qed.

(** The network thread delivers the response that is under way. *)
Lemma deliver_ok programs s l1 l2 i r c :
  system_ok programs s -> resps s = l1 ++ (i, r) :: l2 -> clients s !! i = Some c -> locked c = false ->
  system_ok programs (mkSystem (<[i := HandleResponse r c]> (clients s)) (reqs s) (l1 ++ l2) (srv s) (served s)).
Proof.
  intros Hs Hl Hi Hlock. pose proof (sk_clients _ _ Hs _ _ Hi) as Hc.
  assert (Hresp : of_client i (resps s) = of_client i l1 ++ r :: of_client i l2)
    by (by rewrite Hl, of_client_app, of_client_eq).
  assert (Hno : of_client i (resps s) <> []) by (rewrite Hresp; by destruct (of_client i l1)).
  assert (Hfl : forall q, in_flight s i c q ->
    delivered (mkSystem (clients s) (reqs s) (l1 ++ l2) (srv s) (served s)) i (HandleResponse r c) q).
  { intros q [(_ & E & _)|(r' & E1 & E2 & E3)]; [done|]. rewrite Hresp in E2. exists r.
    cbn [reqs resps served HandleResponse has_msg message got]. rewrite of_client_app.
    destruct (of_client i l1) as [|x l]; [|by destruct l]. cbn in *. injection E2 as -> ->. by rewrite E3. }
  apply (set_ok programs s i c); [done|done| | |auto| |].
  - unfold program_of, current, HandleResponse. cbn. by destruct (pc c).
  - intros j Hne. by rewrite Hl, !of_client_app, of_client_ne.
  - intros j r' Hin. left. rewrite Hl. set_solver.
  - unfold client_ok, locked, HandleResponse in *. cbn [pc]. destruct (pc c) eqn:Epc; try done.
    + by destruct Hc as (_ & E & _).
    + right. destruct Hc as [[_ Hc]|(r' & _ & E & _)]; [by apply Hfl|done].
    + right. destruct Hc as [_ Hc]. by apply Hfl.
    + right. destruct Hc as [[_ Hc]|(r' & _ & E & _)]; [by apply Hfl|done].
Qed.

Lemma any_step_ok programs s s' : system_ok programs s -> any_step s s' -> system_ok programs s'.
Proof.
  intros Hs [s1 [i c s2 Hi Hst|l1 l2 i q Hl|l1 l2 i r c Hl Hi Hlock]|i c q Hi Epc].
  - by eapply client_step_ok.
  - by apply serve_ok.
  - by apply deliver_ok.
  - pose proof (sk_clients _ _ Hs _ _ Hi) as Hc. unfold client_ok in Hc. rewrite Epc in Hc.
    apply (set_client_ok programs s i c); [done|done| |by left]. unfold program_of, current. cbn. by rewrite Epc.
Qed.

Lemma start_ok programs s0 : system_ok programs (start programs s0).
Proof.
  assert (Hcs : foldl (fun cs p => snd (CreateResponseBlob cs p)) [] programs
    = (fun p => mkClient Idle p [] false None) <$> programs).
  { assert (forall cs, foldl (fun cs p => snd (CreateResponseBlob cs p)) cs programs
      = cs ++ ((fun p => mkClient Idle p [] false None) <$> programs)) as Hall; [|apply (Hall [])].
    induction programs as [|p ps IH]; intros cs; cbn; [by rewrite app_nil_r|]. rewrite IH, <- app_assoc. done. }
  unfold start. rewrite Hcs. split; cbn [clients reqs resps].
  - rewrite <- list_fmap_compose. by rewrite list_fmap_id.
  - by intros i q ?%elem_of_nil.
  - by intros i r ?%elem_of_nil.
  - intros i c Hi. rewrite list_lookup_fmap in Hi. apply fmap_Some in Hi as (p & _ & ->). done.
Qed.

(** ** Termination *)

Definition rank (p : Pc) : nat :=
  match p with
  | Idle | Dead => 0 | Sleeping _ => 1 | Checking _ => 2 | Woken _ => 3 | Entering _ => 3 | Resetting _ => 4
  | Sending _ => 9
  end.

Definition work (c : Client) : nat := 10 * length (todo c) + rank (pc c).

Definition measure (s : System) : nat := sum_list_with work (clients s) + 4 * length (reqs s) + 3 * length (resps s).

Lemma work_insert (cs : list Client) i c c' :
  cs !! i = Some c -> sum_list_with work (<[i := c']> cs) + work c = sum_list_with work cs + work c'.
Proof.
  revert i. induction cs as [|x cs IH]; intros [|i] Hi; [done|done|injection Hi as ->|].
  - change (<[0 := c']> (c :: cs)) with (c' :: cs). cbn [sum_list_with]. lia.
  - change (<[S i := c']> (x :: cs)) with (x :: <[i := c']> cs). cbn [sum_list_with]. specialize (IH i Hi). lia.
Qed.

Lemma step_measure programs s s' : system_ok programs s -> step s s' -> measure s' < measure s.
Proof.
  intros Hs [i c s1 Hi Hst|l1 l2 i q Hl|l1 l2 i r c Hl Hi Hlock]; unfold measure.
  - destruct Hst as [q t Epc Et|q Epc|q Epc|q Epc|q r Epc Eh Em|q Epc Eh Em|q Epc Eh|q Epc];
      cbn [set_client clients reqs resps];
      match goal with |- context [<[i := ?c']> _] => pose proof (work_insert (clients s) i c c' Hi) as Hw end;
      unfold work in Hw at 2 4; cbn [todo pc rank set_pc] in Hw; rewrite ?Epc, ?Et in Hw; cbn [length rank] in Hw;
      rewrite ?length_app; cbn [length]; lia.
  - cbn [clients reqs resps]. rewrite Hl, !length_app. cbn [length]. lia.
  - cbn [clients reqs resps]. pose proof (work_insert (clients s) i c (HandleResponse r c) Hi) as Hw.
    unfold work in Hw at 2 4. cbn [todo pc HandleResponse] in Hw. rewrite Hl, !length_app. cbn [length].
    destruct (pc c); cbn [rank] in Hw; lia.
Qed.

(** ** Progress *)

Definition finished (c : Client) : Prop := pc c = Idle /\ todo c = [].

Lemma of_client_In {A} i (a : A) l : a ∈ of_client i l -> exists l1 l2, l = l1 ++ (i, a) :: l2.
Proof.
  unfold of_client. intros ([j b] & -> & [Hj Hin]%list_elem_of_filter)%list_elem_of_fmap. cbn in *. subst j.
  by apply list_elem_of_split.
Qed.

Lemma flight_progress programs s i c q :
  system_ok programs s -> clients s !! i = Some c -> locked c = false -> in_flight s i c q -> exists s', step s s'.
Proof.
  intros Hs Hi Hlock [(E & _)|(r & _ & E & _)].
  - destruct (of_client_In i q (reqs s)) as (l1 & l2 & Hl); [rewrite E; set_solver|]. eexists. by eapply step_serve.
  - destruct (of_client_In i r (resps s)) as (l1 & l2 & Hl); [rewrite E; set_solver|]. eexists. by eapply step_deliver.
Qed.

(** As long as a call has not returned, something can happen. *)
Lemma progress programs s i c :
  system_ok programs s -> clients s !! i = Some c -> ~ finished c -> exists s', step s s'.
Proof.
  intros Hs Hi Hnf. pose proof (sk_clients _ _ Hs _ _ Hi) as Hc. unfold client_ok in Hc.
  destruct (pc c) as [|q|q|q|q|q|q|] eqn:Epc.
  - destruct (todo c) as [|q t] eqn:Et; [by destruct Hnf|]. eexists. eapply step_client; [done|]. by eapply send_lock.
  - eexists. eapply step_client; [done|]. by eapply send_send.
  - eexists. eapply step_client; [done|]. by eapply send_reset.
  - eexists. eapply step_client; [done|]. by eapply wait_lock.
  - destruct Hc as [[E _]|(r & _ & _ & E1 & E2 & _)]; eexists; (eapply step_client; [done|]).
    + by eapply wait_sleep.
    + by eapply wait_done.
  - destruct Hc as [_ Hf]. eapply flight_progress; [done|done| |done]. unfold locked. by rewrite Epc.
  - eexists. eapply step_client; [done|]. by eapply wait_again.
  - done.
Qed.

Lemma reachable_ok programs s0 s : rtc any_step (start programs s0) s -> system_ok programs s.
Proof.
  intros Hr. pose proof (start_ok programs s0) as Hs. induction Hr as [|x y z Hxy _ IH]; [done|].
  apply IH. by eapply any_step_ok.
Qed.

Lemma steps_measure programs n : forall s s', system_ok programs s -> nsteps step n s s' -> n + measure s' <= measure s.
Proof.
  induction n as [|n IH]; intros s s' Hs Hn; inversion Hn as [|? ? y ? Hxy Hyz]; subst; [lia|].
  pose proof (step_measure _ _ _ Hs Hxy). apply (IH y s') in Hyz; [lia|]. eapply any_step_ok; [done|]. by constructor.
Qed.

(** At most one answer of the server has not been returned yet. *)
Lemma client_late s i c :
  client_ok s i c -> exists late, of_client i (served s) = got c ++ late /\ length late <= 1.
Proof.
  intros Hc. assert (Hnone : of_client i (served s) = got c -> exists late, of_client i (served s) = got c ++ late /\ length late <= 1).
  { intros E. exists []. rewrite app_nil_r. cbn. auto with lia. }
  assert (Hone : forall x, of_client i (served s) = got c ++ [x] -> exists late, of_client i (served s) = got c ++ late /\ length late <= 1).
  { intros x E. exists [x]. cbn. auto with lia. }
  unfold client_ok, in_flight, delivered in Hc. destruct (pc c); naive_solver.
Qed.

(** C13.  No client waits forever, and each gets the responses to its own
    requests.  In every reachable state, spurious wake-ups included, what a
    client has got is what the server answered to it, in order, except for a
    response that is still on its way; no [CHECK] fails; and if a call has not
    returned, some thread can move.  Without spurious wake-ups the number of
    steps is bounded, so every run that goes on while it can ends with all calls
    returned: every client has got the server's answers to exactly the requests
    of its program. *)
Theorem clients_get_their_responses programs s0 :
  (forall s, rtc any_step (start programs s0) s ->
     forall i c, clients s !! i = Some c ->
       pc c <> Dead /\ (exists late, of_client i (served s) = got c ++ late /\ length late <= 1) /\
       (finished c \/ exists s', step s s')) /\
  (forall n s, nsteps step n (start programs s0) s -> n <= measure (start programs s0)) /\
  (forall s, rtc step (start programs s0) s -> (forall s', ~ step s s') ->
     forall i p, programs !! i = Some p -> exists c, clients s !! i = Some c /\
       (got c).*1 = p /\ of_client i (served s) = got c).
Proof.
  split_and!.
  - intros s Hr i c Hi. pose proof (reachable_ok _ _ _ Hr) as Hs. pose proof (sk_clients _ _ Hs _ _ Hi) as Hc.
    pose proof (client_late _ _ _ Hc) as Hlate.
    split_and!; [|done|].
    + unfold client_ok in Hc. intros E. by rewrite E in Hc.
    + assert (finished c \/ ~ finished c) as [Hf|Hf].
      { unfold finished. destruct (pc c); try (right; by intros [? _]). destruct (todo c); [by left|right; by intros [_ ?]]. }
      { by left. }
      right. by eapply progress.
  - intros n s Hn. pose proof (steps_measure programs n _ _ (start_ok programs s0) Hn). lia.
  - intros s Hr Hstuck i p Hp.
    assert (Hs : system_ok programs s).
    { apply (reachable_ok programs s0). clear Hstuck. induction Hr; [constructor|]. eapply rtc_l; [by constructor|done]. }
    rewrite <- (sk_programs _ _ Hs), list_lookup_fmap in Hp. apply fmap_Some in Hp as (c & Hi & ->). exists c.
    assert (Hf : finished c).
    { destruct (pc c) eqn:Epc; [destruct (todo c) eqn:Et; [done|]|..];
        (destruct (progress _ _ _ _ Hs Hi) as [s' Hst]; [intros [? ?]; congruence|by destruct (Hstuck s')]). }
    destruct Hf as [Epc Et]. split_and!; [done| |].
    + unfold program_of, current. by rewrite Epc, Et, app_nil_r.
    + pose proof (sk_clients _ _ Hs _ _ Hi) as Hc. unfold client_ok in Hc. rewrite Epc in Hc. apply Hc.
Qed.

End Threads.
