(* ===== verification/ObjectDB.v ===== *)
(** * Client types and the object database: [include/spec/db.h],
      [src/types/client/], [include/types/client/], [include/spec/object_db.h],
      [src/spec/object_db.cc], [src/spec/object_meta.cc], [src/worker/worker_ext.cc]

    The interface [DB] is the class [DB]: a worker is a database, and so is a
    cluster seen by a client.  A client object is a handle on a tree, which it
    reads through the database, together with a buffer that says what to write;
    [ObjectDB] puts and gets such objects. *)

From S2P Require Import Prelude Types Slice HashVal Chunk RollingHash Node Chunker.
From S2P Require Import Store Cursor Builder Advanced Objects Cell HeadVersion Worker.
From S2P Require Import Messages WorkerService WorkerClient RpcProps.

(** ** The interface *)

(** The calls of [class DB]; those for one key are [Call]s.  A stream is put on a
    branch or on top of a version. *)
Class DB (D : Type) := {
  db_call : D -> Call -> option (Reply * D);
  db_Put_stream : D -> Slice -> Value -> IStream -> Slice + Hash -> option (ErrorCode * Hash * D);
  db_ListKeys : D -> option (ErrorCode * list Slice * D);
  db_GetStorageInfo : D -> option (ErrorCode * list NodeInfo * D)
}.

Section Databases.
Context `{HashFunction} `{Uninit} `{StdSort} `{Protobuf}.
Context {St : Type} `{ChunkStore St} `{InfoSource St} {HV : Type} `{HeadVersion HV}.
Variable (params : NodeKind -> ChunkerParams) (fuel : nat).

(** A worker as a database; its [Put] of a stream does nothing. *)
Definition worker_db : DB (Worker HV St) := {|
  db_call w c := local_call params fuel w c;
  db_Put_stream w _ _ _ _ := Some (kOK, None, w);
  db_ListKeys w := Some (ListKeys w, w);
  db_GetStorageInfo w := let '(ec, i) := GetStorageInfo w in Some (ec, [i], w)
|}.

(** Whether chunks are read from the chunk service is configured for a client. *)
Definition via (bypass : bool) (c : Call) : Call :=
  match c with CGetChunk _ key h => CGetChunk bypass key h | _ => c end.

(** A cluster as a database, seen by the client [id_]. *)
Definition cluster_db (addr : nat -> bytes) (id_ : Z) (bypass : bool) (max_blob_size_ : nat) :
    DB (list (Worker HV St)) := {|
  db_call cl c := remote_call params fuel addr id_ None cl (via bypass c);
  db_Put_stream cl key value s at_ :=
    match at_ with
    | inl branch => wc_Put_stream_branch params fuel addr id_ max_blob_size_ cl key value s branch None
    | inr pre_version => wc_Put_stream_ver params fuel addr id_ max_blob_size_ cl key value s pre_version None
    end;
  db_ListKeys cl := wc_ListKeys params fuel addr id_ cl;
  db_GetStorageInfo cl := wc_GetStorageInfo params fuel addr id_ cl
|}.

(** [WorkerExt::GetForType]. *)
Definition GetForType_ver (w : Worker HV St) (type : UType) (key : Slice) (ver : Hash) : option (ErrorCode * UCell) :=
  r ← Get_ver w key ver;
  match fst r with
  | kOK => t ← ucell_type (snd r); Some (if decide (t = type) then (kOK, snd r) else (kTypeMismatch, snd r))
  | ec => Some (ec, snd r)
  end.

Definition GetForType (w : Worker HV St) (type : UType) (key branch : Slice) : option (ErrorCode * UCell) :=
  GetForType_ver w type key (snd (GetBranch (head_ver_ w) key branch)).

End Databases.

(** ** Reading chunks through a database: [ClientChunkLoader] *)

Record ClientLoader (D : Type) := mkLoader { cl_db : D; cl_key : Slice }.
Arguments mkLoader {D}.
Arguments cl_db {D}.
Arguments cl_key {D}.

(** [GetChunk]: the chunk is returned whatever the code is.  A database that does
    not answer gives no chunk.  Client objects do not write chunks. *)
Definition loader_GetChunk `{DB D} (v : ClientLoader D) (h : Hash) : Chunk :=
  match db_call (cl_db v) (CGetChunk false (cl_key v) h) with
  | Some (RChunk _ c, _) => c
  | _ => chunk_null
  end.

#[export] Instance client_loader `{DB D} : ChunkStore (ClientLoader D) := {|
  cs_Get := loader_GetChunk;
  cs_Put v _ _ := (false, v);
  cs_Exists v h := negb (chunk_empty (loader_GetChunk v h))
|}.

(** ** Client objects *)

(** [class VObject] with the [root_node_] of the object. *)
Record VObject := mkVObject {
  vo_root : option SeqNode;
  buffer_ : Value;
  dataStream_ : option IStream
}.

Definition useStream (o : VObject) : bool := has (dataStream_ o).

Definition SetContext (ctx : Slice) (o : VObject) : VObject :=
  mkVObject (vo_root o)
    (mkValue (val_type (buffer_ o)) (val_base (buffer_ o)) (val_pos (buffer_ o)) (val_dels (buffer_ o))
       (val_vals (buffer_ o)) (val_keys (buffer_ o)) ctx) (dataStream_ o).

Definition VObject_empty (o : VObject) : bool := bool_decide (val_type (buffer_ o) = UUnknown).

(** [Clear]: the buffer only. *)
Definition Clear (o : VObject) : VObject :=
  mkVObject (vo_root o) (mkValue UUnknown None 0 0 [] [] []) (dataStream_ o).

(** New objects. *)
Definition VBlob_new (data : Slice) : VObject := mkVObject None (mkValue UBlob None 0 0 [data] [] []) None.
Definition VBlob_stream (s : IStream) : VObject := mkVObject None (mkValue UBlob None 0 0 [] [] []) (Some s).
Definition VList_new (data : list Slice) : VObject := mkVObject None (mkValue UList None 0 0 data [] []) None.
Definition VMap_new (keys vals : list Slice) : VObject := mkVObject None (mkValue UMap None 0 0 vals keys []) None.
Definition VSet_new (keys : list Slice) : VObject := mkVObject None (mkValue USet None 0 0 [] keys []) None.
Definition VString_new (data : Slice) : VObject := mkVObject None (mkValue UString None 0 0 [data] [] []) None.

Section Handles.
Context `{HashFunction} `{DB D}.
Implicit Types (v : ClientLoader D) (o : VObject).

(** The value that keeps an object as it is, or changes it: its base is the hash
    of the root. *)
Definition edit (t : UType) (root : option SeqNode) (pos dels : Z) (vals keys : list Slice)
    (s : option IStream) : option VObject :=
  n ← root; h ← chunk_hash (chunk_ n); Some (mkVObject (Some n) (mkValue t h pos dels vals keys []) s).

(** Existing objects. *)
Definition VBlob_load v (root_hash : Hash) : option VObject :=
  n ← UBlob_SetNodeForHash v root_hash; edit UBlob n 0 0 [] [] None.
Definition VList_load v (root_hash : Hash) : option VObject :=
  n ← UList_SetNodeForHash v root_hash; edit UList n 0 0 [] [] None.
Definition VMap_load v (root_hash : Hash) : option VObject :=
  n ← UMap_SetNodeForHash v root_hash; edit UMap n 0 0 [] [] None.
Definition VSet_load v (root_hash : Hash) : option VObject :=
  n ← USet_SetNodeForHash v root_hash; edit USet n 0 0 [] [] None.

(** Changes: they are recorded in the buffer; an earlier one is forgotten. *)
Definition VBlob_Splice o (pos num_delete : Z) (data : Slice) : option VObject :=
  edit UBlob (vo_root o) pos num_delete [data] [] (dataStream_ o).
Definition VBlob_Splice_stream o (pos num_delete : Z) (s : IStream) : option VObject :=
  edit UBlob (vo_root o) pos num_delete [] [] (Some s).
Definition VList_Splice o (start_idx num_to_delete : Z) (entries : list Slice) : option VObject :=
  edit UList (vo_root o) start_idx num_to_delete entries [] (dataStream_ o).
Definition VMap_Set o (key val : Slice) : option VObject := edit UMap (vo_root o) 0 0 [val] [key] (dataStream_ o).
Definition VMap_SetMany o (keys vals : list Slice) : option VObject := edit UMap (vo_root o) 0 0 vals keys (dataStream_ o).
Definition VMap_Remove o (key : Slice) : option VObject := edit UMap (vo_root o) 0 1 [] [key] (dataStream_ o).
Definition VSet_Set o (key : Slice) : option VObject := edit USet (vo_root o) 0 0 [] [key] (dataStream_ o).
Definition VSet_Remove o (key : Slice) : option VObject := edit USet (vo_root o) 0 1 [] [key] (dataStream_ o).

(** [VString(cell)]. *)
Definition VString_load (u : UCell) : option VObject :=
  d ← ucell_data u; Some (mkVObject None (mkValue UString None 0 0 [d] [] []) None).

(** [class VHandler]: the type, the hash of the tree and the key under which its
    chunks are found.  An object of another type is empty. *)
Record VHandler := mkHandler { vh_type : option UType; vh_dataHash : option Hash; vh_key : option Slice }.

(** [class VMeta] and [class VRef]. *)
Definition VMeta (u : UCell) : VHandler := mkHandler (ucell_type u) (ucell_dataHash u) (ucell_key u).
Definition VRef (route_key : Slice) (type : UType) (hash : Hash) : VHandler :=
  mkHandler (Some type) (Some hash) (Some route_key).

Definition handle_as (t : UType) (load : ClientLoader D -> Hash -> option VObject) (empty : VObject) (d : D)
    (h : VHandler) : option VObject :=
  type ← vh_type h;
  if decide (type = t) then key ← vh_key h; root ← vh_dataHash h; load (mkLoader d key) root
  else Some empty.

Definition Blob := handle_as UBlob VBlob_load (VBlob_new []).
Definition List := handle_as UList VList_load (VList_new []).
Definition Map := handle_as UMap VMap_load (VMap_new [] []).
Definition Set_ := handle_as USet VSet_load (VSet_new []).

(** [VMeta::String]. *)
Definition String (u : UCell) : option VObject :=
  type ← ucell_type u; if decide (type = UString) then VString_load u else Some (VString_new []).

(** ** [class ObjectDB] *)

Definition as_cell (r : Reply * D) : option (ErrorCode * UCell * D) :=
  match r with (RCell ec u, d) => Some (ec, u, d) | _ => None end.
Definition as_version (r : Reply * D) : option (ErrorCode * Hash * D) :=
  match r with (RVersion ec h, d) => Some (ec, h, d) | _ => None end.
Definition as_code (r : Reply * D) : option (ErrorCode * D) :=
  match r with (RCode ec, d) => Some (ec, d) | _ => None end.
Definition as_bool (r : Reply * D) : option (ErrorCode * bool * D) :=
  match r with (RBool ec b, d) => Some (ec, b, d) | _ => None end.

Definition odb_Get (d : D) (key branch : Slice) : option (ErrorCode * UCell * D) :=
  db_call d (CGetBranch key branch) ≫= as_cell.
Definition odb_Get_ver (d : D) (key : Slice) (version : Hash) : option (ErrorCode * UCell * D) :=
  db_call d (CGetVer key version) ≫= as_cell.

Definition odb_Put (d : D) (key : Slice) (o : VObject) (branch : Slice) : option (ErrorCode * Hash * D) :=
  match dataStream_ o with
  | Some s => db_Put_stream d key (buffer_ o) s (inl branch)
  | None => db_call d (CPutBranch key (buffer_ o) branch) ≫= as_version
  end.
Definition odb_Put_ver (d : D) (key : Slice) (o : VObject) (pre_version : Hash) : option (ErrorCode * Hash * D) :=
  match dataStream_ o with
  | Some s => db_Put_stream d key (buffer_ o) s (inr pre_version)
  | None => db_call d (CPut key (buffer_ o) pre_version) ≫= as_version
  end.

Definition odb_Merge (d : D) (key : Slice) (o : VObject) (tgt_branch ref_branch : Slice) :=
  db_call d (CMergeBranch key (buffer_ o) tgt_branch ref_branch) ≫= as_version.
Definition odb_Merge_ver (d : D) (key : Slice) (o : VObject) (tgt_branch : Slice) (ref_version : Hash) :=
  db_call d (CMergeVer key (buffer_ o) tgt_branch ref_version) ≫= as_version.
Definition odb_Merge_vers (d : D) (key : Slice) (o : VObject) (ref_version1 ref_version2 : Hash) :=
  db_call d (CMergeVers key (buffer_ o) ref_version1 ref_version2) ≫= as_version.

Definition as_strings (r : Reply * D) : option (ErrorCode * list Slice * D) :=
  match r with (RStrings ec l, d) => Some (ec, l, d) | _ => None end.
Definition as_versions (r : Reply * D) : option (ErrorCode * list Hash * D) :=
  match r with (RVersions ec l, d) => Some (ec, l, d) | _ => None end.

Definition odb_ListKeys (d : D) := db_ListKeys d.
Definition odb_ListBranches (d : D) (key : Slice) := db_call d (CListBranches key) ≫= as_strings.
Definition odb_GetLatestVersions (d : D) (key : Slice) := db_call d (CGetLatestVersions key) ≫= as_versions.
Definition odb_GetStorageInfo (d : D) := db_GetStorageInfo d.
Definition odb_Exists (d : D) (key : Slice) := db_call d (CExists key) ≫= as_bool.
Definition odb_ExistsBranch (d : D) (key branch : Slice) := db_call d (CExistsBranch key branch) ≫= as_bool.
Definition odb_GetBranchHead (d : D) (key branch : Slice) := db_call d (CGetBranchHead key branch) ≫= as_version.
Definition odb_IsBranchHead (d : D) (key branch : Slice) (version : Hash) :=
  db_call d (CIsBranchHead key branch version) ≫= as_bool.
Definition odb_IsLatestVersion (d : D) (key : Slice) (version : Hash) := db_call d (CIsLatestVersion key version) ≫= as_bool.
Definition odb_Branch (d : D) (key old_branch new_branch : Slice) := db_call d (CBranch key old_branch new_branch) ≫= as_code.
Definition odb_Branch_ver (d : D) (key : Slice) (old_version : Hash) (new_branch : Slice) :=
  db_call d (CBranchVer key old_version new_branch) ≫= as_code.
Definition odb_Rename (d : D) (key old_branch new_branch : Slice) := db_call d (CRename key old_branch new_branch) ≫= as_code.
Definition odb_Delete (d : D) (key branch : Slice) := db_call d (CDelete key branch) ≫= as_code.
Definition odb_PutUnkeyed (d : D) (route_key : Slice) (o : VObject) :=
  db_call d (CPutUnkeyed route_key (buffer_ o)) ≫= as_version.
Definition odb_GetUnkeyed (route_key : Slice) (type : UType) (version : Hash) : ErrorCode * VHandler :=
  (kOK, VRef route_key type version).

(** ** [class ObjectMeta]: a map of attributes beside every object *)

(** [kKeyPrefix] is "$". *)
Definition MetaTableKey (obj_name : Slice) : Slice := x24 :: obj_name.

Definition stat_of {A} (r : ErrorCode * A * D) : ErrorCode * D := (fst (fst r), snd r).

Definition CreateMetaTable (d : D) (obj_name branch : Slice) : option (ErrorCode * D) :=
  stat_of <$> odb_Put d (MetaTableKey obj_name) (VMap_new [] []) branch.
Definition BranchMetaTable (d : D) (obj_name old_branch new_branch : Slice) : option (ErrorCode * D) :=
  odb_Branch d (MetaTableKey obj_name) old_branch new_branch.
Definition DeleteMetaTable (d : D) (obj_name branch : Slice) : option (ErrorCode * D) :=
  odb_Delete d (MetaTableKey obj_name) branch.

(** [ReadMetaTable]; [None] in the result is an error. *)
Definition ReadMetaTable (d : D) (meta_tab_key branch : Slice) : option (ErrorCode * option VObject * D) :=
  '(ec, u, d1) ← odb_Get d meta_tab_key branch;
  match ec with
  | kOK => tab ← Map d1 (VMeta u); Some (kOK, Some tab, d1)
  | kKeyNotExists => Some (kObjectMetaNotExists, None, d1)
  | _ => Some (ec, None, d1)
  end.
Definition GetMetaTable (d : D) (obj_name branch : Slice) := ReadMetaTable d (MetaTableKey obj_name) branch.

(** Reading the table, changing it, and writing it again. *)
Definition change_meta (d : D) (obj_name branch : Slice) (change : VObject -> option VObject) : option (ErrorCode * D) :=
  '(ec, tab, d1) ← ReadMetaTable d (MetaTableKey obj_name) branch;
  match tab with
  | None => Some (ec, d1)
  | Some tab => tab' ← change tab; stat_of <$> odb_Put d1 (MetaTableKey obj_name) tab' branch
  end.

Definition SetMeta (d : D) (obj_name branch meta_name meta_val : Slice) : option (ErrorCode * D) :=
  change_meta d obj_name branch (fun tab => VMap_Set tab meta_name meta_val).
Definition DeleteMeta (d : D) (obj_name branch meta_name : Slice) : option (ErrorCode * D) :=
  change_meta d obj_name branch (fun tab => VMap_Remove tab meta_name).

Definition GetMeta (fuel : nat) (d : D) (obj_name branch meta_name : Slice) : option (ErrorCode * Slice * D) :=
  '(ec, tab, d1) ← GetMetaTable d obj_name branch;
  match tab with
  | None => Some (ec, [], d1)
  | Some tab => v ← UMap_Get fuel (mkLoader d1 (MetaTableKey obj_name)) (vo_root tab) meta_name; Some (kOK, v, d1)
  end.

End Handles.
