(* ===== verification/ObjectDBProps.v ===== *)
(** * Objects put into a database are read back through it

    [DBSpec] is what a client relies on: a call is the call at the worker that
    owns the key, and what the client sees of the reply has the same content.
    A worker meets it, and so does a cluster; the guarantees for objects are
    proved against it. *)

From S2P Require Import Prelude Types Slice HashVal Chunk RollingHash Node NodeSearch Chunker.
From S2P Require Import Canonical Leaf Store Cursor Builder Advanced Objects Build Tree TreeProps.
From S2P Require Import CursorProps KeySearch ReadProps CreateProps ObjectProps.
From S2P Require Import Cell HeadVersion Worker Grow WorkerProps.
From S2P Require Import Messages WorkerService WorkerClient RpcProps RpcClaims ObjectDB.

(** ** Cells and trees seen through other stores *)

Section Transfer.
Context `{HashFunction}.

(** The node of a cell that holds [v]. *)
Record cell_of (n : CellNode) (v : Version) : Prop := {
  co_ok : ver_ok v;
  co_chunk : chunk_rep (cell_chunk n) kCell (ver_payload v);
  co_make : CellNode_make (cell_chunk n) = Some n
}.

Lemma cell_of_chunk c v : ver_ok v -> chunk_rep c kCell (ver_payload v) ->
  exists n, UCell_of_chunk c = Some (Some n) /\ cell_chunk n = c /\ cell_of n v.
Proof.
  intros Hv Hc. destruct (UCell_of_chunk_rep c v Hv Hc) as (n & Hu & Hm & _).
  destruct (cell_offsets c v Hv Hc) as (n' & Hm' & Hcn & _). rewrite Hm in Hm'. injection Hm' as <-.
  exists n. split_and!; [done|done|]. split; [done|by rewrite Hcn|by rewrite Hcn].
Qed.

Lemma cell_of_rep n v : cell_of n v -> cell_rep (Some n) v.
Proof.
  intros [Hv Hc Hm]. destruct (UCell_of_chunk_rep _ v Hv Hc) as (n' & _ & Hm' & Hr).
  rewrite Hm in Hm'. by injection Hm' as <-.
Qed.

(** The hash in a cell of a chunkable type. *)
Lemma cell_of_dataHash n v :
  cell_of n v -> chunkable (v_type v) = true -> length (v_data v) = kByteLength ->
  ucell_dataHash (Some n) = Some (Some (v_data v)).
Proof.
  intros Hn Ht Hl. pose proof (cell_of_rep _ _ Hn) as Hr. destruct Hn as [Hv Hc Hm].
  unfold ucell_dataHash. rewrite (ce_type _ _ Hr). osimpl. rewrite Ht. osimpl.
  destruct (cell_header _ _ Hv Hc) as (_ & _ & _ & Hd & _). rewrite Hd. osimpl.
  rewrite small_i16 by (unfold len; rewrite Hl; unfold kByteLength; lia).
  unfold len. rewrite Hl. change (Z.of_nat kByteLength =? 0)%Z with false. cbn iota.
  destruct (cell_offsets _ _ Hv Hc) as (n' & Hm' & _ & _ & Hdo & _). rewrite Hm in Hm'. injection Hm' as <-.
  destruct (cell_body _ _ Hv Hc) as (hd & rest & Hhd & ->). osimpl. rewrite Hdo, Nat2Z.id.
  erewrite (read_bytes_at _ _ (hd ++ concat (ver_prevs v) ++ v_key v) (v_data v)); [done|by rewrite <- !app_assoc| |done].
  rewrite !length_app, Hhd. pose proof (ver_prevs_len v Hv) as Hpl. rewrite Hpl.
  unfold ComputeKeyOffset, ComputePreHashOffset, len. lia.
Qed.

(** Stores that hold the same content for a hash. *)
Definition same_content (get get' : Hash -> option Chunk) : Prop :=
  forall x c t p, length x = kByteLength -> get (Some x) = Some c -> chunk_rep c t p ->
    exists c', get' (Some x) = Some c' /\ chunk_rep c' t p.

Lemma tree_transfer get get' k : same_content get get' ->
  forall ht h es, tree get ht k h es -> tree get' ht k h es.
Proof.
  intros Hs. induction ht as [|ht IH]; intros h es; cbn [tree].
  - intros (Hk & Hok & -> & c & Hg & Hc). split_and!; [done|done|done|].
    by eapply Hs; [apply length_ComputeFrom|..].
  - intros (c & ms & ess & Hg & Hc & Hok & -> & Hne & Hes & HF).
    destruct (Hs _ _ _ _ (length_ComputeFrom _) Hg Hc) as (c' & Hg' & Hc'). exists c', ms, ess.
    split_and!; try done. eapply Forall2_impl; [exact HF|]. cbn. intros m es' (? & ? & ?). auto.
Qed.

(** A tree has a root. *)
Lemma tree_root get ht k h es : tree get ht k h es ->
  length h = kByteLength /\ exists c, get (Some h) = Some c /\ chunk_hash c = Some (Some h).
Proof.
  destruct ht; cbn [tree].
  - intros (_ & _ & -> & c & Hg & Hc). split; [apply length_ComputeFrom|]. exists c. split; [done|].
    by rewrite (chunk_rep_hash _ _ _ Hc).
  - intros (c & ms & ess & Hg & Hc & _ & -> & _). split; [apply length_ComputeFrom|]. exists c. split; [done|].
    by rewrite (chunk_rep_hash _ _ _ Hc).
Qed.

Lemma rooted_transfer {S1 S2} `{ChunkStore S1} `{ChunkStore S2} fuel (s1 : S1) (s2 : S2) k h es :
  same_content (st_load s1) (st_load s2) -> rooted fuel s1 k h es -> rooted fuel s2 k h es.
Proof.
  intros Hs (ht & _ & Hf & Ht & _). apply (tree_transfer _ _ _ Hs) in Ht.
  destruct (tree_root _ _ _ _ _ Ht) as (_ & c & Hg & Hh). by exists ht, c.
Qed.

(** An object that reads as a tree has the root of the tree. *)
Lemma obj_rep_rooted {S1} `{ChunkStore S1} fuel (st : S1) o k es : obj_rep fuel st o k es ->
  exists n h, o = Some n /\ chunk_hash (chunk_ n) = Some (Some h) /\ length h = kByteLength /\ rooted fuel st k h es.
Proof.
  intros (n & h & ht & -> & Hh & Hf & _ & Ht). destruct (tree_root _ _ _ _ _ Ht) as (Hl & c & Hg & Hc).
  exists n, h. split_and!; [done..|]. by exists ht, c.
Qed.

Lemma chunk_rep_not_null t p : ~ chunk_rep chunk_null t p.
Proof. intros [[r Hr] _]. done. Qed.

Lemma grows_content {St : Type} `{ChunkStoreSpec St} (st st' : St) :
  grows st st' -> same_content (st_load st) (st_load st').
Proof.
  intros Hg x c t p _ [= <-] Hc. exists (cs_Get st' (Some x)). split; [done|]. rewrite !Get_spec in *.
  destruct (contents st !! Some x) as [c|] eqn:E; [|by apply chunk_rep_not_null in Hc].
  by rewrite (lookup_weaken _ _ _ _ E Hg).
Qed.

End Transfer.

(** ** What a client relies on *)

Section Replies.
Context `{HashFunction}.

(** Replies whose content can be sent. *)
Definition delivered (r : Reply) : Prop :=
  match r with
  | RVersion kOK h => is_version h
  | RCell kOK u => exists n v, u = Some n /\ cell_of n v
  | RChunk kOK c => exists t p, chunk_rep c t p
  | RVersions kOK l => Forall is_version l
  | RCode ec | RVersion ec _ | RCell ec _ | RChunk ec _ | RBool ec _ | RStrings ec _ | RVersions ec _ =>
      ec <> kMapKeyExists
  end.

(** What the client sees of [r]: [r'] with the same code and, for a success, the
    same content. *)
Definition seen (r r' : Reply) : Prop :=
  match r with
  | RCell kOK u => exists n', r' = RCell kOK (Some n') /\ forall n v, u = Some n -> cell_of n v -> cell_of n' v
  | RChunk kOK c => exists c', r' = RChunk kOK c' /\ forall t p, chunk_rep c t p -> chunk_rep c' t p
  | RCode _ | RVersion kOK _ | RBool kOK _ | RStrings kOK _ | RVersions kOK _ => r' = r
  | RVersion ec _ => exists h, r' = RVersion ec h
  | RCell ec _ => exists u, r' = RCell ec u
  | RChunk ec _ => exists c, r' = RChunk ec c
  | RBool ec _ => exists b, r' = RBool ec b
  | RStrings ec _ => exists l, r' = RStrings ec l
  | RVersions ec _ => exists l, r' = RVersions ec l
  end.

Lemma seen_refl r : delivered r -> seen r r.
Proof.
  destruct r as [ec|ec h|ec u|ec c|ec b|ec l|ec l]; cbn; [done|..]; destruct ec; eauto.
  intros (n & v & -> & Hn). exists n. split; [done|]. by intros ? ? [= <-].
Qed.

Lemma mapM_bytes l : Forall is_version l -> exists vs, mapM bytes_of_hash l = Some vs /\ Some <$> vs = l.
Proof.
  induction 1 as [|h l (v & -> & Hv) _ (vs & E & <-)]; [by exists []|]. cbn [mapM]. rewrite bytes_of_hash_wf by done.
  osimpl. rewrite E. osimpl. by exists (v :: vs).
Qed.

Lemma same_code_ok ec : ec <> kMapKeyExists -> same_code ec = Some ec.
Proof. apply error_of_code_code. Qed.

(** An error, as it is seen. *)
Lemma on_ok_err {R} ec ok (err : ErrorCode -> R) :
  ec <> kOK -> ec <> kMapKeyExists -> on_ok ec ok err = Some (err ec).
Proof. intros H1 H2. unfold on_ok. rewrite not_ok, same_code_ok by done. done. Qed.

Lemma received_cell_of n v : cell_of n v ->
  exists n', received None (RCell kOK (Some n)) = Some (RCell kOK (Some n')) /\ forall v, cell_of n v -> cell_of n' v.
Proof.
  intros [Hv Hc Hm]. unfold received, on_ok. osimpl. rewrite (resend_rep _ _ _ Hc). osimpl.
  destruct (cell_of_chunk _ v Hv (chunk_rep_make kCell _ (ver_payload_ok v Hv))) as (n' & -> & Hcn & Hn').
  osimpl. exists n'. split; [done|]. intros v0 [Hv0 Hc0 _]. split; [done| |apply Hn'].
  pose proof (resend_rep _ _ _ Hc0) as E. rewrite (resend_rep _ _ _ Hc) in E. apply Some_inj in E.
  rewrite Hcn, E. apply chunk_rep_make, ver_payload_ok, Hv0.
Qed.

Ltac seen_error ec :=
  rewrite on_ok_err by (done || (destruct ec; done || assumption)); eexists; split; [done|];
  destruct ec; done || (by eexists).

(** A reply that is sent over the network is seen. *)
Lemma received_seen r : delivered r -> exists r', received None r = Some r' /\ seen r r'.
Proof.
  destruct r as [ec|ec h|ec u|ec c|ec b|ec l|ec l]; intros Hd; unfold received;
    try (destruct (decide (ec = kOK)) as [->|Hne]; [|seen_error ec]).
  - rewrite same_code_ok by done. by eexists.
  - destruct Hd as (v & -> & Hv). unfold on_ok. rewrite bytes_of_hash_wf by done. by eexists.
  - destruct Hd as (n & v & -> & Hn). destruct (received_cell_of n v Hn) as (n' & E & Hn').
    eexists. split; [exact E|]. exists n'. split; [done|]. intros ? v0 [= <-]. apply Hn'.
  - destruct Hd as (t & p & Hc). unfold on_ok. rewrite (resend_rep _ _ _ Hc). osimpl. eexists. split; [done|].
    eexists. split; [done|]. intros t0 p0 Hc0. pose proof (resend_rep _ _ _ Hc0) as E.
    rewrite (resend_rep _ _ _ Hc) in E. apply Some_inj in E. rewrite E. apply chunk_rep_make, Hc0.
  - by eexists.
  - by eexists.
  - destruct (mapM_bytes l Hd) as (vs & E & <-). unfold on_ok. rewrite E. by eexists.
Qed.

End Replies.

Section Spec.
Context `{HashFunction} `{Uninit} `{StdSort}.
Context {St : Type} `{ChunkStoreSpec St} `{InfoSource St} {HV : Type} `{HeadVersionSpec HV}.
Variable (params : NodeKind -> ChunkerParams) (fuel : nat).

Class DBSpec (D : Type) `{DB D} := {
  (** the worker of a key *)
  owner : D -> Slice -> option (Worker HV St);
  db_call_spec : forall d c w r w',
    call_wf c -> owner d (call_key c) = Some w -> local_call params fuel w c = Some (r, w') -> delivered r ->
    exists r' d', db_call d c = Some (r', d') /\ seen r r' /\ owner d' (call_key c) = Some w'
}.

Definition worker_db_spec : @DBSpec (Worker HV St) (worker_db params fuel).
Proof.
  refine (@Build_DBSpec _ (worker_db params fuel) (fun w _ => Some w) _).
  intros d c w r w' _ [= ->] E Hd. exists r, w'. split_and!; [exact E|by apply seen_refl|done].
Defined.

Definition cluster_db_spec `{ProtobufSpec} addr id_ bypass max :
  is_i32 id_ -> @DBSpec (list (Worker HV St)) (cluster_db params fuel addr id_ bypass max).
Proof.
  intros Hid. refine (@Build_DBSpec _ (cluster_db params fuel addr id_ bypass max)
    (fun cl k => d ← GetDestId_key (length cl) k; cl !! d) _).
  intros cl c w r w' Hc (d & Hd & Hw)%bind_Some E Hdel. destruct (received_seen r Hdel) as (r' & Er & Hs).
  assert (call_wf (via bypass c) /\ call_key (via bypass c) = call_key c /\
    local_call params fuel w (via bypass c) = local_call params fuel w c) as (Hc' & Hk' & El) by by destruct c.
  exists r', (<[d := w']> cl). split_and!; [|done|].
  - cbn [db_call cluster_db]. rewrite <- Hk' in Hd. rewrite (remote_is_local params fuel addr id_ Hid None cl _ d w Hc' Hd Hw), El, E.
    osimpl. by rewrite Er.
  - rewrite length_insert, Hd. osimpl. apply list_lookup_insert_eq. by apply lookup_lt_Some in Hw.
Defined.

End Spec.

(** ** Put and get *)

Section Objects.
Context `{HashFunction} `{Uninit} `{StdSort}.
Context {St : Type} `{ChunkStoreSpec St} {HV : Type} `{HeadVersionSpec HV}.
Context (params : NodeKind -> ChunkerParams) (fuel : nat) {D : Type} `{!DB D} `{!DBSpec params fuel D}.
Hypothesis Hputs : puts_succeed (St := St).
Implicit Types (d : D) (w : Worker HV St) (key branch : Slice).

(** Reading a version that was just written. *)
Lemma new_version_cell w st v w' :
  new_version w st v w' ->
  (forall c, contents st !! Some (ver_hash v) = Some c -> chunk_rep c kCell (ver_payload v)) ->
  exists n, Get_ver w' (v_key v) (Some (ver_hash v)) = Some (kOK, Some n) /\ cell_of n v.
Proof.
  intros Hn Hc. destruct (nv_stored _ _ _ _ Hputs Hn) as [c E].
  destruct (cell_of_chunk c v (nv_ok _ _ _ _ Hn) (nv_chunk _ _ _ _ Hn Hc _ E)) as (n & HL & _ & Hco).
  exists n. split; [|done]. unfold Get_ver, UCell_Load. rewrite Get_spec, E. simpl.
  rewrite HL. osimpl. rewrite (ce_key _ _ (cell_of_rep _ _ Hco)). osimpl.
  by rewrite slice_eq_spec, bool_decide_true by done.
Qed.

(** A loader of the database holds what the worker's store holds. *)
Lemma loader_content d key w :
  owner params fuel d key = Some w -> same_content (st_load (w_store w)) (st_load (mkLoader d key)).
Proof.
  intros Ho x c t p Hx [= <-] Hc. eexists. split; [done|]. cbn [cs_Get client_loader].
  unfold loader_GetChunk. cbn [cl_db cl_key].
  destruct (db_call_spec params fuel d (CGetChunk false key (Some x)) w
    (RChunk kOK (cs_Get (w_store w) (Some x))) w) as (r' & d' & -> & (c' & -> & Hc') & _); [by exists x|done| |by exists t, p|].
  - cbn [local_call]. unfold Worker_GetChunk. unfold chunk_empty. destruct (cr_head _ _ _ Hc) as [rest Hh].
    by rewrite bool_decide_false by (by rewrite Hh).
  - by apply Hc'.
Qed.

Definition object_version (t : UType) key (root ctx p : bytes) : Version := mkVer t key root ctx p None.

(** The worker writes the tree of an object and its version, and moves the
    branch. *)
Lemma local_put w key val branch p root st :
  let v := object_version (val_type val) key root (val_ctx val) p in
  worker_wf w -> chunkable (val_type val) = true -> branch <> [] ->
  snd (GetBranch (head_ver_ w) key branch) = Some p ->
  PutUnkeyed params fuel (w_store w) val = Some (kOK, Some root, st) -> length root = kByteLength -> ver_ok v ->
  exists w1, new_version w st v w1 /\
    local_call params fuel w (CPutBranch key val branch)
    = Some (RVersion kOK (Some (ver_hash v)), set_head w1 (PutBranch (head_ver_ w1) key branch (Some (ver_hash v)))).
Proof.
  intros v Hw Ht Hb Hh Eput Hrl Hv.
  destruct (CreateUCell_rep w v st Hv (PutUnkeyed_grows _ _ _ _ _ _ _ Eput)) as (w1 & Hn & E).
  exists w1. split; [done|]. pose proof (head_known w key branch Hw) as Hk. simpl in Hk. rewrite Hh in Hk.
  cbn [local_call]. unfold Put_branch, Put_at, Put_prev. rewrite Hh, Hk. unfold WriteUCell.
  rewrite Eput. unfold CreateUCell_hash, UCell_Create_hash. osimpl.
  assert (Erd : read_bytes 0 kByteLength root = Some root) by (rewrite <- Hrl; apply read_bytes_all).
  unfold CreateUCell in E. cbn [v object_version v_key v_type v_data v_ctx v_prev1 v_prev2] in E.
  destruct (val_type val); try done; rewrite Erd; osimpl; rewrite E; osimpl; by rewrite bool_decide_true, slice_nonempty.
Qed.

(** An object whose tree the worker can write is put on a branch, and what is
    then got from the branch is a handle on the tree. *)
Lemma object_put_get d w key val branch p root st k es :
  let v := object_version (val_type val) key root (val_ctx val) p in
  owner params fuel d key = Some w -> worker_wf w -> val_sendable val -> chunkable (val_type val) = true -> branch <> [] ->
  snd (GetBranch (head_ver_ w) key branch) = Some p ->
  PutUnkeyed params fuel (w_store w) val = Some (kOK, Some root, st) -> rooted fuel st k root es -> ver_ok v ->
  (forall c, contents st !! Some (ver_hash v) = Some c -> chunk_rep c kCell (ver_payload v)) ->
  exists d1 d2 n,
    db_call d (CPutBranch key val branch) = Some (RVersion kOK (Some (ver_hash v)), d1) /\
    db_call d1 (CGetBranch key branch) = Some (RCell kOK (Some n), d2) /\
    cell_of n v /\ length root = kByteLength /\ rooted fuel (mkLoader d2 key) k root es.
Proof.
  intros v Ho Hw Hsend Ht Hb Hh Eput Hroot Hv Hnc.
  assert (Hrl : length root = kByteLength) by (destruct Hroot as (ht & c & _ & Htr & _); by apply tree_root in Htr as [? _]).
  destruct (local_put w key val branch p root st Hw Ht Hb Hh Eput Hrl Hv) as (w1 & Hn & E1). fold v in Hn, E1.
  destruct (new_version_cell _ _ _ _ Hn Hnc) as (n & Hg & Hco).
  set (w2 := set_head w1 (PutBranch (head_ver_ w1) key branch (Some (ver_hash v)))).
  assert (E2 : local_call params fuel w2 (CGetBranch key branch) = Some (RCell kOK (Some n), w2)).
  { cbn [local_call]. unfold Get_branch. subst w2. cbn [head_ver_ set_head].
    rewrite GetBranch_spec, PutBranch_heads, upd_eq, ver_hash_Clone. cbn [negb]. change key with (v_key v).
    change (Get_ver (set_head w1 _)) with (Get_ver w1) at 1. rewrite Hg. done. }
  destruct (db_call_spec params fuel d (CPutBranch key val branch) w _ _ Hsend Ho E1) as (r1 & d1 & C1 & -> & Ho1).
  { exists (ver_hash v). split; [done|apply length_ComputeFrom]. }
  destruct (db_call_spec params fuel d1 (CGetBranch key branch) w2 _ _ I Ho1 E2) as (r2 & d2 & C2 & (n' & -> & Hn') & Ho2).
  { by exists n, v. }
  exists d1, d2, n'. split_and!; [done|done|by apply (Hn' n)|done|].
  apply (rooted_transfer fuel (w_store w2)); [by apply loader_content|].
  apply (rooted_transfer fuel st); [|done]. apply grows_content. cbn [w_store set_head w2].
  destruct (nv_store _ _ _ _ Hn) as (c & -> & _). apply put_grows.
Qed.

Lemma put_reply d key o branch h d1 :
  dataStream_ o = None -> db_call d (CPutBranch key (buffer_ o) branch) = Some (RVersion kOK h, d1) ->
  odb_Put d key o branch = Some (kOK, h, d1).
Proof. intros Hs E. unfold odb_Put. by rewrite Hs, E. Qed.

(** The root of a new object. *)
Lemma created_rooted fail (st : St) o k es :
  obj_rep fuel st o k es -> exists root,
    created fail (o, st) = Some (kOK, Some root, st) /\ length root = kByteLength /\ rooted fuel st k root es.
Proof.
  intros Ho. destruct (obj_rep_rooted fuel st o k es Ho) as (n & h & -> & Hh & Hl & Hr). exists h. split; [|done].
  unfold created. cbn [fst snd]. rewrite Hh. osimpl. rewrite hash_Clone_wf; [done|]. by intros v [= <-].
Qed.

(** Opening the handle. *)
Lemma handle_rep t k load empty d key n v root es :
  cell_of n v -> v_type v = t -> chunkable t = true -> v_key v = key -> v_data v = root -> length root = kByteLength ->
  k <> KMeta -> rooted fuel (mkLoader d key) k root es ->
  (forall l h, load l h = (o ← SetNode k l h; edit t o 0 0 [] [] None)) ->
  exists obj, handle_as t load empty d (VMeta (Some n)) = Some obj /\ obj_rep fuel (mkLoader d key) (vo_root obj) k es /\
    buffer_ obj = mkValue t (Some root) 0 0 [] [] [] /\
    exists m, vo_root obj = Some m /\ chunk_hash (chunk_ m) = Some (Some root) /\ dataStream_ obj = None.
Proof.
  intros Hn Ht Hch Hk Hd Hl Hkm Hr Hload. destruct (SetNode_root fuel k _ _ _ Hkm Hr) as (m & Eset & Hm & Ho).
  pose proof (cell_of_rep _ _ Hn) as Hc. unfold handle_as, VMeta. cbn [vh_type vh_key vh_dataHash].
  rewrite (ce_type _ _ Hc). osimpl. rewrite decide_True by done. rewrite (ce_key _ _ Hc). osimpl.
  rewrite (cell_of_dataHash _ _ Hn) by congruence. osimpl. rewrite Hk, Hd, Hload, Eset.
  unfold edit. osimpl. rewrite Hm. osimpl. eexists. split_and!; [done|done|done|by exists m].
Qed.

Lemma object_version_ok w t key branch root p :
  worker_wf w -> snd (GetBranch (head_ver_ w) key branch) = Some p -> length root = kByteLength ->
  (Z.of_nat (len key) < kFieldMaxLength)%Z -> ver_ok (object_version t key root [] p).
Proof.
  intros Hw Hh Hr Hk. constructor; cbn; [|done|done| |].
  - pose proof (head_wf w key branch Hw) as Hwf. rewrite Hh in Hwf. by apply Hwf.
  - unfold len. rewrite Hr. unfold kByteLength, kFieldMaxLength. lia.
  - unfold kFieldMaxLength. lia.
Qed.

(** C10.  A map that is put on a branch through [ObjectDB], on a worker or on a
    cluster, is got back from the branch: [Get] returns the version that [Put]
    named, [Map] opens it, and the map shows, read chunk by chunk through the
    database, exactly the pairs that were put.  (The trees can be built, the
    chunks do not collide, and no other content has the hash of the cell.) *)
Theorem object_db_map d w key keys vals branch p :
  let val := buffer_ (VMap_new keys vals) in
  owner params fuel d key = Some w -> worker_wf w -> branch <> [] -> (Z.of_nat (len key) < kFieldMaxLength)%Z ->
  snd (GetBranch (head_ver_ w) key branch) = Some p ->
  length vals = length keys ->
  (forall items, SMap_items keys vals = Some items ->
     can_build params fuel (w_store w) KMap (map_Encode1 <$> items) /\ Forall item_ok items) ->
  (forall root st c, PutUnkeyed params fuel (w_store w) val = Some (kOK, Some root, st) ->
     contents st !! Some (ver_hash (object_version UMap key root [] p)) = Some c ->
     chunk_rep c kCell (ver_payload (object_version UMap key root [] p))) ->
  exists ver d1 u d2 m,
    odb_Put d key (VMap_new keys vals) branch = Some (kOK, ver, d1) /\
    odb_Get d1 key branch = Some (kOK, u, d2) /\ ucell_hash u = Some ver /\
    Map d2 (VMeta u) = Some m /\
    (forall k, k ∉ keys -> UMap_Get fuel (mkLoader d2 key) (vo_root m) k = Some []) /\
    (forall k, k ∈ keys -> exists i v, keys !! i = Some k /\ vals !! i = Some v /\
       UMap_Get fuel (mkLoader d2 key) (vo_root m) k = Some v).
Proof.
  intros val Ho Hw Hb Hkl Hh Hlen Hcb Hnc.
  destruct (SMap_items_rep keys vals Hlen) as (items & E & Hks & Hin & Hfrom). destruct (Hcb items E) as [Hbuild Hi].
  destruct (SMap_new_rep params fuel (w_store w) keys vals items E Hlen Hbuild Hi) as (o & st & En & Hobj).
  destruct (created_rooted kFailedCreateSMap st o KMap _ Hobj) as (root & Ec & Hrl0 & Hroot).
  assert (Eput : PutUnkeyed params fuel (w_store w) val = Some (kOK, Some root, st)).
  { unfold PutUnkeyed, WriteMap. cbn. rewrite Hlen, Nat.eqb_refl. cbn [negb]. rewrite En. exact Ec. }
  destruct (object_put_get d w key val branch p root st KMap (map_Encode1 <$> items))
    as (d1 & d2 & n & E1 & E2 & Hn & Hrl & Hr); try done.
  { exact (object_version_ok w _ key branch root p Hw Hh Hrl0 Hkl). }
  { intros c. by apply (Hnc root st c). }
  destruct (handle_rep UMap KMap VMap_load (VMap_new [] []) d2 key n _ root _ Hn eq_refl eq_refl eq_refl eq_refl Hrl ltac:(done) Hr)
    as (m & Em & Hm & _); [done|].
  exists (Some (ver_hash (object_version UMap key root [] p))), d1, (Some n), d2, m. split_and!.
  - by apply put_reply.
  - unfold odb_Get. rewrite E2. done.
  - apply (ce_hash _ _ (cell_of_rep _ _ Hn)).
  - exact Em.
  - intros k Hk. by apply (map_object_reads fuel _ _ items keys vals k Hm (cb_small _ _ _ _ _ Hbuild) Hi Hks Hin Hfrom).
  - intros k Hk. by apply (map_object_reads fuel _ _ items keys vals k Hm (cb_small _ _ _ _ _ Hbuild) Hi Hks Hin Hfrom).
Qed.

(** The same for blobs: every read of the blob that was got from the branch
    returns the bytes that were put. *)
Theorem object_db_blob d w key data branch p :
  let val := buffer_ (VBlob_new data) in
  owner params fuel d key = Some w -> worker_wf w -> branch <> [] -> (Z.of_nat (len key) < kFieldMaxLength)%Z ->
  snd (GetBranch (head_ver_ w) key branch) = Some p ->
  can_build params fuel (w_store w) KBlob (blob_entries data) ->
  (forall root st c, PutUnkeyed params fuel (w_store w) val = Some (kOK, Some root, st) ->
     contents st !! Some (ver_hash (object_version UBlob key root [] p)) = Some c ->
     chunk_rep c kCell (ver_payload (object_version UBlob key root [] p))) ->
  exists ver d1 u d2 b,
    odb_Put d key (VBlob_new data) branch = Some (kOK, ver, d1) /\
    odb_Get d1 key branch = Some (kOK, u, d2) /\ ucell_hash u = Some ver /\
    Blob d2 (VMeta u) = Some b /\
    forall pos n, n <> 0 -> UBlob_Read fuel (mkLoader d2 key) (vo_root b) (Z.of_nat pos) n = Some (take n (drop pos data)).
Proof.
  intros val Ho Hw Hb Hkl Hh Hbuild Hnc. assert (Hs : small data).
  { pose proof (cb_small _ _ _ _ _ Hbuild) as Hs. unfold small, blob_entries in *. by rewrite length_fmap in Hs. }
  destruct (SBlob_new_rep params fuel (w_store w) data Hbuild) as (o & st & En & Hobj).
  destruct (created_rooted kFailedCreateSBlob st o KBlob _ Hobj) as (root & Ec & Hrl0 & Hroot).
  assert (Eput : PutUnkeyed params fuel (w_store w) val = Some (kOK, Some root, st)).
  { unfold PutUnkeyed, WriteBlob. cbn. rewrite En. exact Ec. }
  destruct (object_put_get d w key val branch p root st KBlob (blob_entries data))
    as (d1 & d2 & n & E1 & E2 & Hn & Hrl & Hr); try done.
  { exact (object_version_ok w _ key branch root p Hw Hh Hrl0 Hkl). }
  { intros c. by apply (Hnc root st c). }
  destruct (handle_rep UBlob KBlob VBlob_load (VBlob_new []) d2 key n _ root _ Hn eq_refl eq_refl eq_refl eq_refl Hrl ltac:(done) Hr)
    as (b & Eb & Hbl & _); [done|].
  exists (Some (ver_hash (object_version UBlob key root [] p))), d1, (Some n), d2, b. split_and!.
  - by apply put_reply.
  - unfold odb_Get. rewrite E2. done.
  - apply (ce_hash _ _ (cell_of_rep _ _ Hn)).
  - exact Eb.
  - intros pos m Hm. rewrite (UBlob_Read_rep fuel _ _ data pos m Hbl Hs). by rewrite decide_False.
Qed.

End Objects.

(** ** Witnesses: the cluster of two empty workers *)

Section Witnesses.
#[local] Existing Instances plain_hash zeroed map_store map_store_spec merge_std_sort bit_protobuf bit_protobuf_spec no_info.

Definition sample_client : DB (list (Worker SimpleHeadVersion (gmap Hash Chunk))) :=
  cluster_db object_params 20 no_addr 7 false 4.
Definition sample_client_spec : DBSpec (H7 := sample_client) object_params 20 (list (Worker SimpleHeadVersion (gmap Hash Chunk))) :=
  cluster_db_spec object_params 20 no_addr 7 false 4 small_id.
#[local] Existing Instances sample_client sample_client_spec.

(** Whether the cell for a new object has a hash of its own. *)
Definition free_hash (t : UType) (r : option (ErrorCode * Hash * gmap Hash Chunk)) : bool :=
  match r with
  | Some (kOK, Some root, st) => bool_decide (st !! Some (ver_hash (object_version t [x6b] root [] zero_hash)) = None)
  | _ => false
  end.

Lemma free_hash_spec (t : UType) (val : Value) (root : bytes) (st : gmap Hash Chunk) (c : Chunk) :
  free_hash t (PutUnkeyed object_params 20 (∅ : gmap Hash Chunk) val) = true ->
  PutUnkeyed object_params 20 (∅ : gmap Hash Chunk) val = Some (kOK, Some root, st) ->
  contents st !! Some (ver_hash (object_version t [x6b] root [] zero_hash)) = Some c ->
  chunk_rep c kCell (ver_payload (object_version t [x6b] root [] zero_hash)).
Proof. intros Hf E Ec. rewrite E in Hf. apply bool_decide_eq_true in Hf. cbn [contents map_store_spec] in Ec. congruence. Qed.

Lemma sample_owner : owner object_params 20 two_workers [x6b] = Some (empty_worker : Worker SimpleHeadVersion (gmap Hash Chunk)).
Proof.
  change (owner object_params 20 two_workers [x6b]) with (d ← GetDestId_key (length two_workers) [x6b]; two_workers !! d).
  rewrite (proj1 sample_dest_ok). exact (proj2 sample_dest_ok).
Qed.

Lemma object_db_map_witness : exists ver d1 u d2 m,
  odb_Put two_workers [x6b] (VMap_new sample_keys sample_vals) [x6d] = Some (kOK, ver, d1) /\
  odb_Get d1 [x6b] [x6d] = Some (kOK, u, d2) /\ Map d2 (VMeta u) = Some m /\
  UMap_Get 20 (mkLoader d2 [x6b]) (vo_root m) [x63] = Some [].
Proof.
  destruct (object_db_map object_params 20 map_puts_succeed two_workers empty_worker [x6b] sample_keys sample_vals [x6d] zero_hash)
    as (ver & d1 & u & d2 & m & E1 & E2 & _ & E3 & R & _).
  - exact sample_owner.
  - apply empty_worker_wf.
  - discriminate.
  - reflexivity.
  - cbn [head_ver_ empty_worker]. rewrite empty_no_branch. reflexivity.
  - reflexivity.
  - intros items E. vm_compute in E. injection E as <-. split; [|by repeat constructor].
    apply small_can_build; [apply small_items; by repeat constructor|simpl; lia|by vm_compute].
  - intros root st c. apply free_hash_spec. vm_compute. reflexivity.
  - exists ver, d1, u, d2, m. split_and!; [exact E1|exact E2|exact E3|].
    apply R. unfold sample_keys. rewrite !not_elem_of_cons. by split_and!; try apply not_elem_of_nil.
Defined.

Lemma object_db_blob_witness : exists ver d1 u d2 b,
  odb_Put two_workers [x6b] (VBlob_new sample_blob) [x6d] = Some (kOK, ver, d1) /\
  odb_Get d1 [x6b] [x6d] = Some (kOK, u, d2) /\ Blob d2 (VMeta u) = Some b /\
  UBlob_Read 20 (mkLoader d2 [x6b]) (vo_root b) 3 4 = Some (take 4 (drop 3 sample_blob)).
Proof.
  destruct (object_db_blob object_params 20 map_puts_succeed two_workers empty_worker [x6b] sample_blob [x6d] zero_hash)
    as (ver & d1 & u & d2 & b & E1 & E2 & _ & E3 & R).
  - exact sample_owner.
  - apply empty_worker_wf.
  - discriminate.
  - reflexivity.
  - cbn [head_ver_ empty_worker]. rewrite empty_no_branch. reflexivity.
  - apply sample_blob_can_build.
  - intros root st c. apply free_hash_spec. vm_compute. reflexivity.
  - exists ver, d1, u, d2, b. split_and!; [exact E1|exact E2|exact E3|]. exact (R 3 4 ltac:(discriminate)).
Defined.

End Witnesses.
