(* ===== verification/RocksHead.v ===== *)
(** * The head table on RocksDB: [include/utils/rocksdb.h], [src/utils/rocksdb.cc],
      [include/worker/rocks_head_version.h], [src/worker/rocks_head_version.cc]

    RocksDB itself is the class [RocksDB]; [RocksDBSpec] is what its
    documentation says: a key holds the operands that were put and merged, and a
    read combines them with the merge operator, from left to right but in groups
    that RocksDB chooses.  The operator is the one of this program. *)

From S2P Require Import Prelude Types Slice HashVal Chunk HeadVersion.

(** ** RocksDB *)

Inductive BatchOp := BPut (key value : bytes) | BDelete (key : bytes).

(** Writes say whether they succeeded; an iterator shows the entries in the order
    of their keys. *)
Class RocksDB (D : Type) := {
  DBGet : D -> bytes -> option bytes;
  DBPut : D -> bytes -> bytes -> bool * D;
  DBDelete : D -> bytes -> bool * D;
  DBMerge : D -> bytes -> bytes -> bool * D;
  DBWrite : D -> list BatchOp -> bool * D;
  DBFullScan : D -> list (bytes * bytes)
}.

Section Scans.
Context `{RocksDB D}.
Implicit Types (d : D).

Definition DBExists d (key : bytes) : bool := bool_decide (is_Some (DBGet d key)).

(** [DBPrefixScan]: from [seek_key] on, as long as the prefix is the one of
    [seek_key] ([prefix_same_as_start]). *)
Fixpoint from_key (seek_key : bytes) (es : list (bytes * bytes)) : list (bytes * bytes) :=
  match es with
  | [] => []
  | e :: es' => if slice_lt (fst e) seek_key then from_key seek_key es' else es
  end.

Fixpoint while_prefix (transform : bytes -> option bytes) (p : bytes) (es : list (bytes * bytes)) :
    option (list (bytes * bytes)) :=
  match es with
  | [] => Some []
  | e :: es' =>
      q ← transform (fst e);
      if decide (q = p) then l ← while_prefix transform p es'; Some (e :: l) else Some []
  end.

Definition DBPrefixScan (transform : bytes -> option bytes) d (seek_key : bytes) : option (list (bytes * bytes)) :=
  p ← transform seek_key; while_prefix transform p (from_key seek_key (DBFullScan d)).

End Scans.

(** ** [class RocksBranchVersionDB] *)

(** [key_size_t] is [uint16_t]. *)
Definition kKeySizeBytes : nat := 2.

Definition DBKey (key branch : Slice) : bytes := le_encode kKeySizeBytes (Z.of_nat (len key)) ++ key ++ branch.

Definition ExtractBranch (db_key : bytes) : option bytes :=
  key_len ← read_u16 0 db_key;
  let prefix_len := kKeySizeBytes + Z.to_nat key_len in
  read_bytes prefix_len (length db_key - prefix_len) db_key.

(** [BranchPrefixTransform]. *)
Definition Transform (src : bytes) : option bytes :=
  key_len ← read_u16 0 src; read_bytes 0 (kKeySizeBytes + Z.to_nat key_len) src.

(** [ToRocksSlice(const Hash&)]. *)
Definition hash_bytes (h : Hash) : option bytes := v ← h; read_bytes 0 kByteLength v.

Section BranchDB.
Context `{RocksDB D}.
Implicit Types (db : D) (key branch : Slice).

Definition bdb_Get db key branch : bool * Hash :=
  match DBGet db (DBKey key branch) with
  | Some version => (true, hash_Clone (Some version))
  | None => (false, hash_kNull)
  end.

Definition bdb_Exists db key branch : bool := DBExists db (DBKey key branch).
Definition bdb_Put db key branch (ver_slice : bytes) : bool * D := DBPut db (DBKey key branch) ver_slice.
Definition bdb_Delete db key branch : bool * D := DBDelete db (DBKey key branch).

Definition bdb_Move db key (old_branch new_branch : Slice) : bool * D :=
  let db_key_old := DBKey key old_branch in
  match DBGet db db_key_old with
  | None => (false, db)
  | Some head => DBWrite db [BPut (DBKey key new_branch) head; BDelete db_key_old]
  end.

(** The scan starts at the branch "*". *)
Definition GetBranches db key : option (list bytes) :=
  es ← DBPrefixScan Transform db (DBKey key [x2a]); mapM (fun e => ExtractBranch (fst e)) es.

End BranchDB.

(** ** [class LatestVersionUpdater] *)

Definition kVersionSizeBytes : nat := kByteLength.
Definition kTwoVersionsSizeBytes : nat := 2 * kVersionSizeBytes.
Definition kThreeVersionsSizeBytes : nat := 3 * kVersionSizeBytes.

(** The variables of [Merge]: where to copy from and to, the buffer, its final
    length, and the flags. *)
Record MergeState := mkMerge {
  cpy_from : nat; cpy_to : nat; new_versions : bytes; new_versions_len : nat;
  found_prev_ver1 : bool; found_prev_ver2 : bool
}.

Section Merge.
Variable (value old_versions : bytes).

(** [f_cpy]. *)
Definition f_cpy (i : nat) (s : MergeState) : option MergeState :=
  let n_bytes := i - cpy_from s in
  if 0 <? n_bytes then
    src ← read_bytes (cpy_from s) n_bytes old_versions;
    buf ← memcpy_at (cpy_to s) src (new_versions s);
    Some (mkMerge (i + kVersionSizeBytes) (cpy_to s + n_bytes) buf (new_versions_len s)
            (found_prev_ver1 s) (found_prev_ver2 s))
  else Some (mkMerge (i + kVersionSizeBytes) (cpy_to s) (new_versions s) (new_versions_len s)
               (found_prev_ver1 s) (found_prev_ver2 s)).

(** A version of the buffer is left out. *)
Definition drop_version (i : nat) (found1 found2 : bool) (s : MergeState) : option MergeState :=
  s' ← f_cpy i (mkMerge (cpy_from s) (cpy_to s) (new_versions s) (new_versions_len s) found1 found2);
  Some (mkMerge (cpy_from s') (cpy_to s') (new_versions s') (new_versions_len s' - kByteLength) found1 found2).

(** [std::memcmp(lv_data, &value_data[off], kVersionSizeBytes) == 0]. *)
Definition same_version (lv_data : bytes) (off : nat) : option bool :=
  p ← read_bytes off kVersionSizeBytes value; Some (bool_decide (lv_data = p)).

(** The body of the loop, for the version at [i]. *)
Definition merge_step (i : nat) (s : MergeState) : option MergeState :=
  lv_data ← read_bytes i kVersionSizeBytes old_versions;
  is1 ← (if found_prev_ver1 s then Some false else same_version lv_data kVersionSizeBytes);
  if is1 : bool then drop_version i true (found_prev_ver2 s) s
  else
    is2 ← (if found_prev_ver2 s then Some false else same_version lv_data kTwoVersionsSizeBytes);
    if is2 : bool then drop_version i (found_prev_ver1 s) true s
    else
      is0 ← same_version lv_data 0;
      if is0 : bool then drop_version i (found_prev_ver1 s) (found_prev_ver2 s) s else Some s.

Fixpoint vers_loop (n i : nat) (s : MergeState) : option MergeState :=
  match n with
  | O => Some s
  | S n' => s' ← merge_step i s; vers_loop n' (i + kVersionSizeBytes) s'
  end.

(** The copy of the rest; a negative number of bytes would be huge. *)
Definition copy_residual (s : MergeState) : option bytes :=
  CHECK (cpy_from s <=? length old_versions);;
  let n_bytes := length old_versions - cpy_from s in
  if 0 <? n_bytes then
    src ← read_bytes (cpy_from s) n_bytes old_versions; memcpy_at (cpy_to s) src (new_versions s)
  else Some (new_versions s).

(** [std::string::resize]. *)
Definition resize (n : nat) (s : bytes) : bytes := take n s ++ replicate (n - length s) x00.

Definition merge_versions : option bytes :=
  ver ← read_bytes 0 kVersionSizeBytes value;
  let new_len := length old_versions + kByteLength in
  s ← vers_loop ((length old_versions + (kVersionSizeBytes - 1)) / kVersionSizeBytes) 0
        (mkMerge 0 kVersionSizeBytes (resize new_len ver) new_len
           (length value <? kTwoVersionsSizeBytes) (length value <? kThreeVersionsSizeBytes));
  buf ← copy_residual s;
  Some (resize (new_versions_len s) buf).

End Merge.

(** [Merge]. *)
Definition LatestVersionUpdater_Merge (existing_value : option bytes) (value : bytes) : option bytes :=
  match existing_value with
  | None => Some value
  | Some old_versions => merge_versions value old_versions
  end.

(** ** [class RocksLatestVersionDB] *)

(** The versions of a value. *)
Fixpoint cut_versions (n : nat) (versions : bytes) : option (list bytes) :=
  match n with
  | O => Some []
  | S n' => v ← read_bytes 0 kVersionSizeBytes versions; l ← cut_versions n' (drop kVersionSizeBytes versions); Some (v :: l)
  end.
Definition versions_of (versions : bytes) : option (list bytes) :=
  cut_versions ((length versions + (kVersionSizeBytes - 1)) / kVersionSizeBytes) versions.

Section LatestDB.
Context `{RocksDB D}.
Implicit Types (db : D) (key : Slice).

Definition ldb_Get db key : option (list Hash) :=
  match DBGet db key with
  | Some versions => fmap (M := list) Some <$> versions_of versions
  | None => Some []
  end.

Definition ldb_Exists db key : bool := DBExists db key.

Definition ldb_ExistsVersion db key (ver : Hash) : option bool :=
  match DBGet db key with
  | None => Some false
  | Some versions => v ← hash_bytes ver; l ← versions_of versions; Some (bool_decide (v ∈ l))
  end.

(** What is sent to [DBMerge]: the version and its predecessors. *)
Definition ver_update (prev_ver1 prev_ver2 ver : Hash) : option bytes :=
  v ← hash_bytes ver;
  if hash_eq prev_ver1 hash_kNull then Some v
  else
    p1 ← hash_bytes prev_ver1;
    if hash_empty prev_ver2 || hash_eq prev_ver2 hash_kNull then Some (v ++ p1)
    else p2 ← hash_bytes prev_ver2; Some (v ++ p1 ++ p2).

Definition ldb_Merge db key (prev_ver1 prev_ver2 ver : Hash) : option (bool * D) :=
  u ← ver_update prev_ver1 prev_ver2 ver; Some (DBMerge db key u).

Definition GetKeys db : list bytes := (DBFullScan db).*1.

End LatestDB.

(** ** [class RocksHeadVersion] *)

Record RocksHeadVersion (D : Type) := mkRHV { branch_db_ : D; latest_db_ : D }.
Arguments mkRHV {D}.
Arguments branch_db_ {D}.
Arguments latest_db_ {D}.

Section Table.
Context `{RocksDB D}.
Implicit Types (hv : RocksHeadVersion D) (key branch : Slice) (ver : Hash).

Definition rhv_GetBranch hv key branch : bool * Hash := bdb_Get (branch_db_ hv) key branch.
Definition rhv_GetLatest hv key : option (list Hash) := ldb_Get (latest_db_ hv) key.

(** A failed write is only logged. *)
Definition rhv_PutBranch hv key branch ver : option (RocksHeadVersion D) :=
  v ← hash_bytes ver; Some (mkRHV (snd (bdb_Put (branch_db_ hv) key branch v)) (latest_db_ hv)).

Definition rhv_PutLatest hv key (prev_ver1 prev_ver2 : Hash) ver : option (RocksHeadVersion D) :=
  r ← ldb_Merge (latest_db_ hv) key prev_ver1 prev_ver2 ver; Some (mkRHV (branch_db_ hv) (snd r)).

Definition rhv_ExistsKey hv key : bool := ldb_Exists (latest_db_ hv) key.
Definition rhv_Exists hv key branch : bool := bdb_Exists (branch_db_ hv) key branch.

Definition rhv_RemoveBranch hv key branch : RocksHeadVersion D :=
  if rhv_Exists hv key branch then mkRHV (snd (bdb_Delete (branch_db_ hv) key branch)) (latest_db_ hv) else hv.

Definition rhv_RenameBranch hv key (old_branch new_branch : Slice) : RocksHeadVersion D :=
  mkRHV (snd (bdb_Move (branch_db_ hv) key old_branch new_branch)) (latest_db_ hv).

Definition rhv_IsLatest hv key ver : option bool := ldb_ExistsVersion (latest_db_ hv) key ver.
Definition rhv_IsBranchHead hv key branch ver : bool :=
  let '(found, head) := rhv_GetBranch hv key branch in if found then hash_eq head ver else false.
Definition rhv_ListKey hv : list bytes := GetKeys (latest_db_ hv).
Definition rhv_ListBranch hv key : option (list bytes) := GetBranches (branch_db_ hv) key.

End Table.

(** ** Opening and closing *)

Section Files.
Context {D : Type}.
(** [rocksdb::DB::Open], [Flush] and [rocksdb::DestroyDB]. *)
Variable (Open : bytes -> option D) (Flush : D -> bool * D) (Destroy : bytes -> bool).

(** The fields [db_] and [db_path_] of [class RocksDB]. *)
Record DBHandle := mkHandle { db_ : option D; db_path_ : bytes }.

Definition OpenDB (h : DBHandle) (db_path : bytes) : bool * DBHandle :=
  match db_ h with
  | Some _ => (false, h)
  | None => match Open db_path with Some d => (true, mkHandle (Some d) db_path) | None => (false, h) end
  end.

(** A failed flush terminates the process. *)
Definition FlushDB (h : DBHandle) : option (bool * DBHandle) :=
  d ← db_ h; let r := Flush d in CHECK (fst r);; Some (true, mkHandle (Some (snd r)) (db_path_ h)).

Definition CloseDB (h : DBHandle) (flush : bool) : option DBHandle :=
  h' ← (if flush then snd <$> FlushDB h else Some h); Some (mkHandle None (db_path_ h')).

Definition DestroyDB (h : DBHandle) : option (bool * DBHandle) :=
  h' ← CloseDB h false;
  let success := if slice_empty (db_path_ h') then false else Destroy (db_path_ h') in
  Some (success, if success then mkHandle None [] else h').

(** The same for the two databases of the table; [GUARD] returns on the first
    failure.  The suffixes are ".branch" and ".latest". *)
Definition dot_branch : bytes := [x2e; x62; x72; x61; x6e; x63; x68].
Definition dot_latest : bytes := [x2e; x6c; x61; x74; x65; x73; x74].

Definition rhv_CloseDB (b l : DBHandle) : option (DBHandle * DBHandle) :=
  b' ← CloseDB b true; l' ← CloseDB l true; Some (b', l').

Definition rhv_DestroyDB_path (db_path : bytes) : bool :=
  if Destroy (db_path ++ dot_branch) then Destroy (db_path ++ dot_latest) else false.

Definition rhv_DestroyDB (b l : DBHandle) : option (bool * DBHandle * DBHandle) :=
  '(ok, b') ← DestroyDB b;
  if ok : bool then r' ← DestroyDB l; Some (fst r', b', snd r') else Some (false, b', l).

Definition rhv_Load (b l : DBHandle) (db_path : bytes) : bool * DBHandle * DBHandle :=
  let r := OpenDB b (db_path ++ dot_branch) in
  if fst r then let r' := OpenDB l (db_path ++ dot_latest) in (fst r', snd r, snd r') else (false, snd r, l).

Definition rhv_Dump (b l : DBHandle) : option (bool * DBHandle * DBHandle) :=
  r ← FlushDB b; r' ← FlushDB l; Some (true, snd r, snd r').

End Files.
