(* ===== verification/RocksProps.v ===== *)
(** * What the RocksDB head table promises *)

From S2P Require Import Prelude Types Slice HashVal Chunk HeadVersion RocksHead.

(** ** The merge operator *)

Definition vers_ok (l : list bytes) : Prop := Forall (fun v => length v = kVersionSizeBytes) l.

Lemma length_versions l : vers_ok l -> length (concat l) = kVersionSizeBytes * length l.
Proof. induction 1 as [|v l Hv _ IH]; cbn [concat length]; [lia|]. rewrite length_app, Hv, IH. lia. Qed.

Lemma vers_ok_app l1 l2 : vers_ok (l1 ++ l2) <-> vers_ok l1 /\ vers_ok l2.
Proof. apply Forall_app. Qed.

Lemma length_loop_count l : vers_ok l -> (length (concat l) + (kVersionSizeBytes - 1)) / kVersionSizeBytes = length l.
Proof.
  intros Hl. rewrite (length_versions l Hl). unfold kVersionSizeBytes, kByteLength.
  rewrite Nat.mul_comm, Nat.div_add_l by lia. rewrite Nat.div_small by lia. lia.
Qed.

(** Reading some of the versions. *)
Lemma read_versions a b c :
  vers_ok a -> vers_ok b ->
  read_bytes (kVersionSizeBytes * length a) (kVersionSizeBytes * length b) (concat (a ++ b ++ c)) = Some (concat b).
Proof. intros Ha Hb. rewrite !concat_app. apply read_bytes_app; by apply length_versions. Qed.

(** Reference: the versions that stay, when [v] is added with the predecessors
    [o1] and [o2]; a predecessor is dropped where it is found first. *)
Fixpoint keep_old (o1 o2 : option bytes) (v : bytes) (l : list bytes) : list bytes :=
  match l with
  | [] => []
  | x :: l' =>
      if decide (o1 = Some x) then keep_old None o2 v l'
      else if decide (o2 = Some x) then keep_old o1 None v l'
      else if decide (x = v) then keep_old o1 o2 v l'
      else x :: keep_old o1 o2 v l'
  end.

Section Merge.
Variable (v : bytes) (prevs l : list bytes).
Hypothesis (Hv : length v = kVersionSizeBytes) (Hprevs : vers_ok prevs) (Hl : vers_ok l).
Abbreviation value := (concat (v :: prevs)).
Abbreviation old := (concat l).

(** After the versions [a ++ pend]: [k1] is copied, [pend] is to be copied. *)
Record merge_inv (a pend rest k1 : list bytes) (s : MergeState) : Prop := {
  mi_split : l = a ++ pend ++ rest;
  mi_from : cpy_from s = kVersionSizeBytes * length a;
  mi_to : cpy_to s = length (concat (v :: k1));
  mi_k1 : vers_ok k1;
  mi_buf : exists tail, new_versions s = concat (v :: k1) ++ tail;
  mi_size : length (new_versions s) = length old + kVersionSizeBytes;
  mi_room : length k1 <= length a;
  mi_len : new_versions_len s = kVersionSizeBytes * (1 + length k1 + length pend + length rest)
}.

Lemma copy_pending a pend rest k1 s :
  merge_inv a pend rest k1 s ->
  exists buf tail, memcpy_at (cpy_to s) (concat pend) (new_versions s) = Some buf /\
    buf = concat (v :: k1 ++ pend) ++ tail /\ length buf = length old + kVersionSizeBytes.
Proof.
  intros [Hs Hf Ht Hk [tail Hb] Hz Hr _]. pose proof Hl as Hl'. rewrite Hs in Hl'. apply vers_ok_app in Hl' as [Ha [Hp Hrest]%vers_ok_app].
  assert (Hlen : length old = kVersionSizeBytes * (length a + length pend + length rest)).
  { rewrite (length_versions l Hl), Hs, !length_app. lia. }
  assert (Hk1 : length (concat (v :: k1)) = kVersionSizeBytes * S (length k1)) by (apply length_versions; by constructor).
  assert (Hpl : length (concat pend) = kVersionSizeBytes * length pend) by (by apply length_versions).
  exists (concat (v :: k1 ++ pend) ++ drop (length (concat pend)) tail), (drop (length (concat pend)) tail).
  rewrite Hb in Hz. rewrite length_app in Hz. split_and!; [|done|].
  - unfold memcpy_at. rewrite Hb, Ht, decide_True by (rewrite length_app; nia). f_equal.
    rewrite take_app_length. rewrite <- drop_drop, drop_app_length. cbn [concat]. by rewrite concat_app, <- !app_assoc.
  - rewrite length_app, length_drop. cbn [concat] in *. rewrite concat_app, !length_app in *. nia.
Qed.

(** Leaving out the next version. *)
Lemma drop_version_inv a pend x rest k1 s f1 f2 :
  merge_inv a pend (x :: rest) k1 s ->
  exists s', drop_version old (kVersionSizeBytes * (length a + length pend)) f1 f2 s = Some s' /\
    merge_inv (a ++ pend ++ [x]) [] rest (k1 ++ pend) s' /\ found_prev_ver1 s' = f1 /\ found_prev_ver2 s' = f2.
Proof.
  intros Hi. destruct (copy_pending _ _ _ _ _ Hi) as (buf & tail & Em & Hbuf & Hblen).
  destruct Hi as [Hs Hf Ht Hk [tl Hb] Hz Hr Hn].
  assert (Hall : vers_ok (a ++ pend ++ x :: rest)) by by rewrite <- Hs.
  apply vers_ok_app in Hall as [Ha [Hp _]%vers_ok_app].
  unfold drop_version, f_cpy. cbn [cpy_from cpy_to new_versions new_versions_len found_prev_ver1 found_prev_ver2].
  rewrite Hf. replace (_ - _) with (kVersionSizeBytes * length pend) by nia.
  assert (Hinv : forall b, (exists tail, b = concat (v :: k1 ++ pend) ++ tail) -> length b = length old + kVersionSizeBytes ->
    forall f t n, f = kVersionSizeBytes * (length a + length pend) + kVersionSizeBytes -> t = length (concat (v :: k1 ++ pend)) ->
    n = new_versions_len s - kByteLength -> merge_inv (a ++ pend ++ [x]) [] rest (k1 ++ pend) (mkMerge f t b n f1 f2)).
  { intros b Hb1 Hb2 f t n -> -> ->. constructor; cbn [cpy_from cpy_to new_versions new_versions_len]; try done.
    - by rewrite Hs, <- !app_assoc.
    - rewrite !length_app. cbn [length]. lia.
    - by apply vers_ok_app.
    - rewrite !length_app. lia.
    - rewrite Hn. cbn [length]. rewrite !length_app. unfold kVersionSizeBytes. lia. }
  destruct (Nat.ltb_spec 0 (kVersionSizeBytes * length pend)) as [Hpos|Hpos].
  - rewrite Hs. rewrite (read_versions a pend (x :: rest) Ha Hp). osimpl. rewrite Em. osimpl. eexists. split; [done|].
    split; [|done]. apply Hinv; [by exists tail|done|cbn [cpy_from]; lia|cbn [cpy_to]|done].
    rewrite Ht. cbn [concat]. rewrite concat_app, !length_app, (length_versions pend Hp). lia.
  - assert (pend = []) as ->.
    { destruct pend; [done|]. cbn in Hpos. unfold kVersionSizeBytes, kByteLength in Hpos. lia. }
    rewrite app_nil_r in *. osimpl. eexists. split; [done|]. split; [|done]. apply Hinv; [by exists tl|done|cbn [cpy_from length]; lia|done|done].
Qed.

(** A flag stands for the predecessor that is still looked for. *)
Definition flag_ok (o : option bytes) (off : nat) (found : bool) : Prop :=
  match o with
  | None => found = true
  | Some p => found = false /\ read_bytes off kVersionSizeBytes value = Some p
  end.

Lemma flag_test o off found x : flag_ok o off found ->
  (if found then Some false else same_version value x off) = Some (bool_decide (o = Some x)).
Proof.
  destruct o as [p|]; cbn [flag_ok].
  - intros [-> E]. unfold same_version. rewrite E. osimpl. f_equal. apply bool_decide_ext. naive_solver.
  - by intros ->.
Qed.

Lemma vers_loop_inv : forall rest a pend k1 s o1 o2,
  merge_inv a pend rest k1 s -> flag_ok o1 kVersionSizeBytes (found_prev_ver1 s) ->
  flag_ok o2 kTwoVersionsSizeBytes (found_prev_ver2 s) ->
  exists s' a' pend' k1', vers_loop value old (length rest) (kVersionSizeBytes * (length a + length pend)) s = Some s' /\
    merge_inv a' pend' [] k1' s' /\ k1' ++ pend' = k1 ++ pend ++ keep_old o1 o2 v rest.
Proof.
  induction rest as [|x rest IH]; intros a pend k1 s o1 o2 Hi H1 H2.
  { exists s, a, pend, k1. split_and!; [done|done|]. cbn [keep_old]. by rewrite app_nil_r. }
  cbn [length vers_loop keep_old]. pose proof (mi_split _ _ _ _ _ Hi) as Hs.
  assert (Hall : vers_ok (a ++ pend ++ x :: rest)) by by rewrite <- Hs.
  apply vers_ok_app in Hall as [Ha [Hp [Hx Hr]%Forall_cons]%vers_ok_app].
  assert (Erd : read_bytes (kVersionSizeBytes * (length a + length pend)) kVersionSizeBytes old = Some x).
  { pose proof (read_versions (a ++ pend) [x] rest) as E. cbn [length concat app] in E. rewrite length_app, <- app_assoc, <- Hs in E.
    rewrite Nat.mul_1_r, app_nil_r in E. apply E; [by apply vers_ok_app|by constructor]. }
  assert (E0 : same_version value x 0 = Some (bool_decide (x = v))).
  { unfold same_version. cbn [concat]. rewrite <- Hv. rewrite read_bytes_app_l, read_bytes_all by lia. done. }
  assert (Hdrop : forall f1 f2 o1' o2', flag_ok o1' kVersionSizeBytes f1 -> flag_ok o2' kTwoVersionsSizeBytes f2 ->
    exists s' a' pend' k1',
      (s' ← drop_version old (kVersionSizeBytes * (length a + length pend)) f1 f2 s;
       vers_loop value old (length rest) (kVersionSizeBytes * (length a + length pend) + kVersionSizeBytes) s') = Some s' /\
      merge_inv a' pend' [] k1' s' /\ k1' ++ pend' = k1 ++ pend ++ keep_old o1' o2' v rest).
  { intros f1 f2 o1' o2' Hf1 Hf2. destruct (drop_version_inv _ _ _ _ _ _ f1 f2 Hi) as (s1 & -> & Hi1 & <- & <-). osimpl.
    destruct (IH _ _ _ _ o1' o2' Hi1 Hf1 Hf2) as (s' & a' & pend' & k1' & E & Hi' & Ek). exists s', a', pend', k1'.
    split_and!; [|done|by rewrite Ek, <- !app_assoc]. rewrite <- E. f_equal. rewrite !length_app. cbn [length]. lia. }
  unfold merge_step. rewrite Erd. osimpl. rewrite (flag_test _ _ _ x H1). osimpl. rewrite (flag_test _ _ _ x H2). osimpl.
  rewrite E0. osimpl.
  destruct (decide (o1 = Some x)) as [D1|D1]; [rewrite (bool_decide_true _ D1)|rewrite (bool_decide_false _ D1)];
    [by apply Hdrop|].
  destruct (decide (o2 = Some x)) as [D2|D2]; [rewrite (bool_decide_true _ D2)|rewrite (bool_decide_false _ D2)];
    [by apply Hdrop|].
  destruct (decide (x = v)) as [D0|D0]; [rewrite (bool_decide_true _ D0)|rewrite (bool_decide_false _ D0)];
    [by apply Hdrop|]. osimpl.
  destruct (IH a (pend ++ [x]) k1 s o1 o2) as (s' & a' & pend' & k1' & E & Hi' & Ek); [|done|done|].
  - destruct Hi as [_ Hf Ht Hk Hb Hz Hroom Hn]. constructor; try done.
    + by rewrite Hs, <- !app_assoc.
    + rewrite Hn, length_app. cbn [length]. lia.
  - exists s', a', pend', k1'. split_and!; [|done|by rewrite Ek, <- !app_assoc]. rewrite <- E. f_equal.
    rewrite length_app. cbn [length]. lia.
Qed.

Lemma merge_versions_rep : length prevs <= 2 ->
  merge_versions value old = Some (concat (v :: keep_old (prevs !! 0) (prevs !! 1) v l)).
Proof.
  intros Hn. unfold merge_versions.
  assert (Hrd : forall i, read_bytes (kVersionSizeBytes * i) kVersionSizeBytes value = (v :: prevs) !! i).
  { intros i. destruct ((v :: prevs) !! i) as [x|] eqn:Ei.
    - destruct (list_elem_of_split_length _ _ _ Ei) as (a & b & Eab & ->).
      assert (Hall : vers_ok (a ++ [x] ++ b)) by (cbn [app]; rewrite <- Eab; by constructor).
      apply vers_ok_app in Hall as [Ha [Hx _]%vers_ok_app]. rewrite Eab.
      pose proof (read_versions a [x] b Ha Hx) as E. cbn [length concat app] in E. by rewrite Nat.mul_1_r, app_nil_r in E.
    - apply lookup_ge_None in Ei. unfold read_bytes. rewrite decide_False; [done|].
      rewrite (length_versions (v :: prevs)) by (by constructor). unfold kVersionSizeBytes, kByteLength. lia. }
  pose proof (Hrd 0) as E0. rewrite Nat.mul_0_r in E0. change ((v :: prevs) !! 0) with (Some v) in E0. rewrite E0. osimpl. rewrite (length_loop_count l Hl).
  assert (Hvl : length value = kVersionSizeBytes * S (length prevs)) by (apply length_versions; by constructor).
  set (s0 := mkMerge _ _ _ _ _ _).
  assert (Hi : merge_inv [] [] l [] s0).
  { subst s0. unfold resize. constructor; cbn [cpy_from cpy_to new_versions new_versions_len concat app length]; try done.
    - by rewrite app_nil_r, Hv.
    - constructor.
    - eexists. rewrite (app_nil_r v), take_ge by (unfold kVersionSizeBytes in Hv; lia). reflexivity.
    - rewrite length_app, length_take, length_replicate. unfold kVersionSizeBytes in *. lia.
    - rewrite (length_versions l Hl). unfold kVersionSizeBytes. lia. }
  destruct (vers_loop_inv l [] [] [] s0 (prevs !! 0) (prevs !! 1) Hi) as (s & a & pend & k1 & E & Hs & Ek).
  { subst s0. cbn [found_prev_ver1]. rewrite Hvl. pose proof (Hrd 1) as E1. rewrite Nat.mul_1_r in E1.
    destruct (prevs !! 0) as [p1|] eqn:Ep; cbn [flag_ok].
    - split; [|by rewrite E1]. apply lookup_lt_Some in Ep. apply Nat.ltb_ge. unfold kTwoVersionsSizeBytes. nia.
    - apply lookup_ge_None in Ep. apply Nat.ltb_lt. unfold kTwoVersionsSizeBytes, kVersionSizeBytes, kByteLength. lia. }
  { subst s0. cbn [found_prev_ver2]. rewrite Hvl. pose proof (Hrd 2) as E2. rewrite Nat.mul_comm in E2.
    destruct (prevs !! 1) as [p2|] eqn:Ep; cbn [flag_ok].
    - split; [|unfold kTwoVersionsSizeBytes; by rewrite E2]. apply lookup_lt_Some in Ep. apply Nat.ltb_ge.
      unfold kThreeVersionsSizeBytes. nia.
    - apply lookup_ge_None in Ep. apply Nat.ltb_lt. unfold kThreeVersionsSizeBytes, kVersionSizeBytes, kByteLength. lia. }
  cbn [length] in E. rewrite Nat.mul_0_r in E. rewrite E. osimpl.
  destruct (copy_pending _ _ _ _ _ Hs) as (buf & tail & Em & Hbuf & Hblen).
  destruct Hs as [Hsp Hf Ht Hk [tl Hb] Hz Hroom Hlen]. rewrite app_nil_r in Hsp. cbn [app] in Ek. rewrite <- Ek.
  pose proof Hl as Hap. rewrite Hsp in Hap. apply vers_ok_app in Hap as [Ha Hp].
  assert (Hol : length old = kVersionSizeBytes * length a + kVersionSizeBytes * length pend).
  { rewrite (length_versions l Hl), Hsp, length_app. lia. }
  assert (Ecopy : copy_residual old s = Some buf).
  { unfold copy_residual. rewrite Hf, (proj2 (Nat.leb_le _ _)) by lia. osimpl.
    replace (length old - _) with (kVersionSizeBytes * length pend) by lia.
    destruct (Nat.ltb_spec 0 (kVersionSizeBytes * length pend)) as [Hpos|Hpos].
    - pose proof (read_versions a pend [] Ha Hp) as Er. rewrite app_nil_r, <- Hsp in Er. rewrite Er. osimpl. exact Em.
    - assert (pend = []) as -> by (destruct pend; [done|]; cbn in Hpos; unfold kVersionSizeBytes, kByteLength in Hpos; lia).
      unfold memcpy_at in Em. cbn [concat length app] in Em. rewrite decide_True in Em by (rewrite Ht, Hb, length_app; lia).
      rewrite Nat.add_0_r, take_drop in Em. done. }
  rewrite Ecopy. osimpl. f_equal. unfold resize.
  assert (Hkl : length (concat (v :: k1 ++ pend)) = new_versions_len s).
  { rewrite (length_versions (v :: k1 ++ pend)) by (constructor; [done|by apply vers_ok_app]). rewrite Hlen. cbn [length].
    rewrite length_app. lia. }
  rewrite Hbuf, length_app, <- Hkl, take_app_length. replace (_ - _) with 0 by lia. by rewrite app_nil_r.
Qed.

End Merge.

Lemma filter_ext_in {A} (P Q : A -> Prop) `{!forall x, Decision (P x)} `{!forall x, Decision (Q x)} (l : list A) :
  (forall x, x ∈ l -> P x <-> Q x) -> filter P l = filter Q l.
Proof.
  induction l as [|x l IH]; intros Hpq; [done|]. rewrite !filter_cons.
  rewrite IH by (intros y Hy; apply Hpq; by right). assert (P x <-> Q x) by (apply Hpq; left).
  destruct (decide (P x)), (decide (Q x)); tauto.
Qed.

(** Without repetitions the versions that stay are those that are not named. *)
Lemma keep_old_filter v : forall l o1 o2, NoDup l ->
  keep_old o1 o2 v l = filter (fun x => o1 <> Some x /\ o2 <> Some x /\ x <> v) l.
Proof.
  induction l as [|x l IH]; intros o1 o2 Hn; [done|]. apply NoDup_cons in Hn as [Hx Hn]. cbn [keep_old]. rewrite filter_cons.
  destruct (decide (o1 = Some x)) as [->|D1].
  - rewrite decide_False by naive_solver. rewrite IH by done. apply filter_ext_in. intros y Hy.
    assert (Some x <> Some y) by congruence. naive_solver.
  - destruct (decide (o2 = Some x)) as [->|D2].
    + rewrite decide_False by naive_solver. rewrite IH by done. apply filter_ext_in. intros y Hy.
      assert (Some x <> Some y) by congruence. naive_solver.
    + destruct (decide (x = v)) as [->|D0].
      * rewrite decide_False by naive_solver. by apply IH.
      * rewrite decide_True by done. by rewrite IH.
Qed.

(** C16.  The merge operator of the latest versions works on the packed buffers
    like on the list of versions: it stays inside its buffers and returns the new
    version followed by the old ones, in their order, without the new version and
    its predecessors. *)
Theorem rocks_merge_operator v prevs l :
  length v = kVersionSizeBytes -> vers_ok prevs -> vers_ok l -> length prevs <= 2 -> NoDup l ->
  LatestVersionUpdater_Merge (Some (concat l)) (concat (v :: prevs))
  = Some (concat (v :: filter (fun x => x ∉ v :: prevs) l)).
Proof.
  intros Hv Hp Hl Hn Hnd. cbn [LatestVersionUpdater_Merge]. rewrite merge_versions_rep by done.
  rewrite keep_old_filter by done. do 2 f_equal. f_equal. 
  destruct prevs as [|p1 [|p2 [|]]]; cbn in Hn; [| | |lia]; apply list_filter_iff; intros x; cbn;
    rewrite !elem_of_cons, elem_of_nil; naive_solver.
Qed.

(** ** Grouping *)

(** The result of combining operands from left to right, in some groups. *)
Inductive grouped (op : bytes -> bytes -> bytes) : list bytes -> bytes -> Prop :=
  | grouped_one v : grouped op [v] v
  | grouped_two l1 l2 a b : grouped op l1 a -> grouped op l2 b -> grouped op (l1 ++ l2) (op a b).

(** The operator of the latest versions, as RocksDB calls it.  (The first operand
    of a key is the value: [Merge] with nothing before it returns it.) *)
Definition merge_op (a b : bytes) : bytes := default [] (LatestVersionUpdater_Merge (Some a) b).

Lemma grouped_ne op l v : grouped op l v -> l <> [].
Proof. induction 1 as [|l1 l2 a b H1 IH1 _ _]; [done|]. by destruct l1. Qed.

Lemma grouped_single op x v : grouped op [x] v -> v = x.
Proof.
  inversion 1 as [|l1 l2 a b H1 H2 E]; [done|]. apply grouped_ne in H1, H2.
  destruct l1 as [|? [|]], l2; done.
Qed.

(** What is merged for a version after [prev]. *)
Definition update_of (prev : option bytes) (v : bytes) : bytes := concat (v :: option_list prev).

(** The updates of versions each of which follows the one before. *)
Fixpoint chain (prev : option bytes) (vs : list bytes) : list bytes :=
  match vs with
  | [] => []
  | v :: vs' => update_of prev v :: chain (Some v) vs'
  end.

Lemma chain_split l1 : forall prev vs l2, l1 ++ l2 = chain prev vs -> l1 <> [] ->
  exists vs1 vs2 w, vs = vs1 ++ vs2 /\ l1 = chain prev vs1 /\ last vs1 = Some w /\ l2 = chain (Some w) vs2.
Proof.
  induction l1 as [|x l1 IH]; intros prev vs l2 E Hne; [done|]. destruct vs as [|v vs]; [done|]. cbn in E. injection E as -> E.
  destruct l1 as [|y l1].
  - exists [v], vs, v. by split_and!.
  - destruct (IH _ _ _ E) as (vs1 & vs2 & w & -> & E1 & Hw & ->); [done|]. exists (v :: vs1), vs2, w.
    split_and!; [done|by rewrite E1| |done]. by destruct vs1.
Qed.

Lemma merge_follow prev w1 w2 : vers_ok (option_list prev) -> length w1 = kVersionSizeBytes -> length w2 = kVersionSizeBytes ->
  w1 <> w2 -> prev <> Some w2 -> merge_op (update_of prev w1) (update_of (Some w1) w2) = update_of prev w2.
Proof.
  intros Hp H1 H2 Hne Hpne. unfold merge_op, update_of. cbn [LatestVersionUpdater_Merge option_list].
  rewrite merge_versions_rep; [|done|by constructor|by constructor|cbn; lia]. cbn [default]. f_equal. f_equal.
  cbn [keep_old lookup list_lookup]. rewrite decide_True by done. destruct prev as [p|]; [|done]. cbn.
  by rewrite !decide_False by congruence.
Qed.

Lemma chain_grouped l c : grouped merge_op l c -> forall prev vs, l = chain prev vs -> vers_ok (option_list prev ++ vs) ->
  NoDup (option_list prev ++ vs) -> exists w, last vs = Some w /\ c = update_of prev w.
Proof.
  induction 1 as [v|l1 l2 a b G1 IH1 G2 IH2]; intros prev vs El Hok Hnd.
  - destruct vs as [|w [|? ?]]; [done| |done]. cbn in El. injection El as ->. by exists w.
  - destruct (chain_split l1 prev vs l2 El (grouped_ne _ _ _ G1)) as (vs1 & vs2 & w1 & -> & -> & Hw1 & ->).
    rewrite app_assoc in Hok, Hnd. pose proof (proj1 (vers_ok_app _ _) Hok) as [Hok1 Hok2].
    apply NoDup_app in Hnd as (Hnd1 & Hdis & Hnd2).
    destruct (IH1 prev vs1 eq_refl Hok1 Hnd1) as (w & Hw & ->). rewrite Hw1 in Hw. injection Hw as <-.
    assert (Hin : w1 ∈ option_list prev ++ vs1).
    { apply elem_of_app. right. apply last_Some in Hw1 as [l' ->]. apply elem_of_app. right. by left. }
    destruct (IH2 (Some w1) vs2 eq_refl) as (w2 & Hw2 & ->).
    { cbn. constructor; [|done]. by eapply Forall_forall in Hok1. }
    { cbn. constructor; [by apply Hdis|done]. }
    assert (Hin2 : w2 ∈ vs2) by (apply last_Some in Hw2 as [l' ->]; apply elem_of_app; right; by left).
    exists w2. split; [by rewrite last_app, Hw2|]. apply merge_follow.
    + by apply vers_ok_app in Hok1 as [? _].
    + by eapply Forall_forall in Hok1.
    + by eapply Forall_forall in Hok2.
    + intros ->. by apply (Hdis w2).
    + intros ->. apply (Hdis w2); [|done]. by left.
Qed.

(** ** What RocksDB promises *)

(** The operands of a key after a batch. *)
Definition batch_step (f : bytes -> list bytes) (o : BatchOp) : bytes -> list bytes :=
  match o with
  | BPut k v => fun k' => if decide (k' = k) then [v] else f k'
  | BDelete k => fun k' => if decide (k' = k) then [] else f k'
  end.

(** A read combines the operands of the key, in groups; a write that fails changes
    nothing; an iterator shows every key once, in order. *)
Class RocksDBSpec (D : Type) `{RocksDB D} := {
  operands : D -> bytes -> list bytes;
  DBGet_spec : forall d k,
    match DBGet d k with None => operands d k = [] | Some v => grouped merge_op (operands d k) v end;
  DBPut_spec : forall d k v k',
    operands (snd (DBPut d k v)) k' = (if fst (DBPut d k v) then batch_step (operands d) (BPut k v) else operands d) k';
  DBDelete_spec : forall d k k',
    operands (snd (DBDelete d k)) k' = (if fst (DBDelete d k) then batch_step (operands d) (BDelete k) else operands d) k';
  DBWrite_spec : forall d ops k',
    operands (snd (DBWrite d ops)) k' = (if fst (DBWrite d ops) then foldl batch_step (operands d) ops else operands d) k';
  DBMerge_spec : forall d k v k',
    operands (snd (DBMerge d k v)) k'
    = (if fst (DBMerge d k v) then fun k' => if decide (k' = k) then operands d k ++ [v] else operands d k' else operands d) k';
  DBFullScan_spec : forall d k v, (k, v) ∈ DBFullScan d <-> DBGet d k = Some v;
  DBFullScan_sorted : forall d, StronglySorted (fun x y => slice_lt x y = true) (DBFullScan d).*1
}.

(** All writes succeed. *)
Definition writes_succeed `{RocksDB D} : Prop :=
  forall (d : D) k v ops, fst (DBPut d k v) = true /\ fst (DBDelete d k) = true /\ fst (DBMerge d k v) = true /\
    fst (DBWrite d ops) = true.

(** ** Keys of the branch table *)

Definition short (key : Slice) : Prop := (Z.of_nat (len key) < 2 ^ 16)%Z.

Lemma DBKey_length key branch : short key -> read_u16 0 (DBKey key branch) = Some (Z.of_nat (len key)).
Proof.
  intros Hk. unfold DBKey, short in *. rewrite (read_u_app_l 2) by (by rewrite length_le_encode).
  rewrite <- (app_nil_r (le_encode _ _)). rewrite (read_u_here 2). f_equal. apply Z.mod_small. lia.
Qed.

Lemma DBKey_split key branch : short key ->
  Transform (DBKey key branch) = Some (le_encode kKeySizeBytes (Z.of_nat (len key)) ++ key) /\
  ExtractBranch (DBKey key branch) = Some branch.
Proof.
  intros Hk. unfold Transform, ExtractBranch. rewrite DBKey_length by done. osimpl. rewrite Nat2Z.id.
  assert (Hl : length (le_encode kKeySizeBytes (Z.of_nat (len key)) ++ key) = kKeySizeBytes + len key)
    by (by rewrite length_app, length_le_encode).
  unfold DBKey. rewrite app_assoc. split.
  - rewrite <- Hl. by rewrite read_bytes_app_l, read_bytes_all by lia.
  - rewrite (length_app _ branch), Hl. replace (_ + _ - _) with (length branch) by lia.
    rewrite <- (app_nil_r branch) at 2. by apply read_bytes_app.
Qed.

Lemma DBKey_inj k1 b1 k2 b2 : short k1 -> short k2 -> DBKey k1 b1 = DBKey k2 b2 -> k1 = k2 /\ b1 = b2.
Proof.
  intros H1 H2 E. destruct (DBKey_split k1 b1 H1) as [T1 X1]. destruct (DBKey_split k2 b2 H2) as [T2 X2].
  rewrite E in T1, X1. rewrite T2 in T1. rewrite X2 in X1. injection X1 as ->. split; [|done].
  apply Some_inj in T1. by apply app_inj_1 in T1 as [_ ->]; [|by rewrite !length_le_encode].
Qed.

Lemma upd_DBKey {V} k b k' b' (x y : V) : short k -> short k' ->
  (if decide (DBKey k' b' = DBKey k b) then x else y) = (if decide (k' = k /\ b' = b) then x else y).
Proof.
  intros H1 H2. destruct (decide (k' = k /\ b' = b)) as [[-> ->]|Hne]; [by rewrite decide_True|].
  rewrite decide_False; [done|]. intros E. by apply DBKey_inj in E.
Qed.

Section Table.
Context `{RocksDBSpec D}.
Implicit Types (hv : RocksHeadVersion D) (key branch : Slice).

(** The heads that the table holds. *)
Definition rheads hv key branch : option Hash := Some <$> DBGet (branch_db_ hv) (DBKey key branch).

(** The branches are only put, moved and deleted: an entry has one operand, a
    version, and its key is the one of a branch. *)
Definition plain (f : bytes -> list bytes) : Prop :=
  forall k, exists o, f k = option_list o /\
    forall v, o = Some v -> length v = kVersionSizeBytes /\ exists key branch, short key /\ k = DBKey key branch.

Definition heads_plain hv : Prop := plain (operands (branch_db_ hv)).

Lemma plain_put f key branch v : plain f -> short key -> length v = kVersionSizeBytes ->
  plain (batch_step f (BPut (DBKey key branch) v)).
Proof.
  intros Hp Hk Hv k. cbn [batch_step]. case_decide as Hd; [|apply Hp]. exists (Some v). split; [done|].
  intros ? [= <-]. split; [done|]. by exists key, branch.
Qed.

Lemma plain_delete f k : plain f -> plain (batch_step f (BDelete k)).
Proof. intros Hp k'. cbn [batch_step]. case_decide; [by exists None|apply Hp]. Qed.

Lemma plain_ext f g : (forall k, g k = f k) -> plain f -> plain g.
Proof. intros E Hp k. rewrite E. apply Hp. Qed.

(** The value of an entry with one operand. *)
Lemma plain_Get d k : plain (operands d) -> operands d k = option_list (DBGet d k).
Proof.
  intros Hp. pose proof (DBGet_spec d k) as Hg. destruct (Hp k) as (o & E & _).
  destruct (DBGet d k) as [v|]; [|done]. rewrite E in Hg |- *. destruct o as [x|]; [|by apply grouped_ne in Hg].
  by apply grouped_single in Hg as ->.
Qed.

Lemma option_list_inj {A} (o1 o2 : option A) : option_list o1 = option_list o2 -> o1 = o2.
Proof. destruct o1, o2; naive_solver. Qed.

Lemma plain_DBGet d d' op : plain (operands d) -> plain (operands d') ->
  (forall k, operands d' k = batch_step (operands d) op k) -> forall k,
  DBGet d' k = match op with
               | BPut k0 v => if decide (k = k0) then Some v else DBGet d k
               | BDelete k0 => if decide (k = k0) then None else DBGet d k
               end.
Proof.
  intros Hp Hp' E k. apply option_list_inj. rewrite <- (plain_Get d' k Hp'), E.
  destruct op; cbn [batch_step]; (case_decide; [done|]); by apply plain_Get.
Qed.

Lemma hash_bytes_ok v : length v = kVersionSizeBytes -> hash_bytes (Some v) = Some v.
Proof. unfold kVersionSizeBytes. intros Hv. unfold hash_bytes. osimpl. rewrite <- Hv. apply read_bytes_all. Qed.

(** *** Changing a branch *)

Definition reads_as hv hv' (f : Slice -> Slice -> option Hash) : Prop :=
  heads_plain hv' /\ latest_db_ hv' = latest_db_ hv /\ forall k b, short k -> rheads hv' k b = f k b.

Lemma rheads_upd d d' hv hv' key branch op :
  branch_db_ hv = d -> branch_db_ hv' = d' -> plain (operands d) -> plain (operands d') -> short key ->
  (op = BDelete (DBKey key branch) \/ exists v, op = BPut (DBKey key branch) v) ->
  (forall k, operands d' k = batch_step (operands d) op k) ->
  forall k b, short k ->
    rheads hv' k b = upd (rheads hv) key branch (match op with BPut _ v => Some (Some v) | BDelete _ => None end) k b.
Proof.
  intros <- <- Hp Hp' Hk Hop E k b Hks. unfold rheads, upd. rewrite (plain_DBGet _ _ op Hp Hp' E).
  destruct Hop as [->|[v ->]]; cbv beta iota; rewrite upd_DBKey by done; by case_decide.
Qed.

Lemma PutBranch_reads hv key branch v :
  writes_succeed (D := D) -> heads_plain hv -> short key -> length v = kVersionSizeBytes ->
  exists hv', rhv_PutBranch hv key branch (Some v) = Some hv' /\
    reads_as hv hv' (upd (rheads hv) key branch (Some (Some v))).
Proof.
  intros Hw Hp Hk Hv. unfold rhv_PutBranch. rewrite hash_bytes_ok by done. osimpl. eexists. split; [done|].
  assert (E : forall k, operands (snd (bdb_Put (branch_db_ hv) key branch v)) k
    = batch_step (operands (branch_db_ hv)) (BPut (DBKey key branch) v) k).
  { intros k. unfold bdb_Put. rewrite DBPut_spec. by rewrite (proj1 (Hw _ _ _ [])). }
  assert (Hp' : plain (operands (snd (bdb_Put (branch_db_ hv) key branch v)))) by (eapply plain_ext; [exact E|by apply plain_put]).
  split_and!; [exact Hp'|done|]. eapply (rheads_upd _ _ _ _ _ _ (BPut (DBKey key branch) v)); try done. right. by exists v.
Qed.

Lemma RemoveBranch_reads hv key branch :
  writes_succeed (D := D) -> heads_plain hv -> short key ->
  reads_as hv (rhv_RemoveBranch hv key branch) (upd (rheads hv) key branch None).
Proof.
  intros Hw Hp Hk. unfold rhv_RemoveBranch, rhv_Exists, bdb_Exists, DBExists. case_bool_decide as Hd.
  - assert (E : forall k, operands (snd (bdb_Delete (branch_db_ hv) key branch)) k
      = batch_step (operands (branch_db_ hv)) (BDelete (DBKey key branch)) k).
    { intros k. unfold bdb_Delete. rewrite DBDelete_spec. by rewrite (proj1 (proj2 (Hw _ _ [] []))). }
    assert (Hp' : plain (operands (snd (bdb_Delete (branch_db_ hv) key branch)))) by (eapply plain_ext; [exact E|by apply plain_delete]).
    split_and!; [exact Hp'|done|]. eapply (rheads_upd _ _ _ _ _ _ (BDelete (DBKey key branch))); try done. by left.
  - split_and!; [done|done|]. intros k b Hks. unfold upd. case_decide as Hkb; [|done]. destruct Hkb as [-> ->].
    unfold rheads. by apply eq_None_not_Some in Hd as ->.
Qed.

Lemma RenameBranch_reads hv key old new h :
  writes_succeed (D := D) -> heads_plain hv -> short key -> rheads hv key old = Some h -> rheads hv key new = None ->
  reads_as hv (rhv_RenameBranch hv key old new) (upd (upd (rheads hv) key new (Some h)) key old None).
Proof.
  intros Hw Hp Hk Ho Hn. unfold rhv_RenameBranch, bdb_Move. unfold rheads in Ho.
  destruct (DBGet (branch_db_ hv) (DBKey key old)) as [v|] eqn:Eg; [|done]. osimpl in Ho. injection Ho as <-.
  set (d' := snd (DBWrite _ _)).
  assert (E : forall k, operands d' k = batch_step (batch_step (operands (branch_db_ hv)) (BPut (DBKey key new) v)) (BDelete (DBKey key old)) k).
  { intros k. subst d'. rewrite DBWrite_spec. by rewrite (proj2 (proj2 (proj2 (Hw _ [] [] _)))). }
  assert (Hv : length v = kVersionSizeBytes).
  { destruct (Hp (DBKey key old)) as (o & Eo & Ho). rewrite (plain_Get _ _ Hp), Eg in Eo. apply option_list_inj in Eo. by apply Ho. }
  assert (Hp' : plain (operands d')) by (eapply plain_ext; [exact E|by apply plain_delete, plain_put]).
  split_and!; [exact Hp'|done|]. intros k b Hks. unfold rheads, upd. cbn [branch_db_].
  assert (Eg' : DBGet d' (DBKey k b) = if decide (DBKey k b = DBKey key old) then None
    else if decide (DBKey k b = DBKey key new) then Some v else DBGet (branch_db_ hv) (DBKey k b)).
  { apply option_list_inj. rewrite <- (plain_Get d' _ Hp'), E. cbn [batch_step]. case_decide; [done|].
    case_decide; [done|]. by apply plain_Get. }
  rewrite Eg', !upd_DBKey by done. repeat case_decide; naive_solver.
Qed.

End Table.

(** ** Scanning the branches of a key *)

Lemma slice_lt_app p a b : slice_lt (p ++ a) (p ++ b) = slice_lt a b.
Proof. rewrite !slice_lt_lex. induction p as [|x p IH]; [done|]. cbn [app lex]. by rewrite Z.compare_refl. Qed.

(** Between two strings with a prefix all have the prefix. *)
Lemma lex_between p : forall a b x, slice_lt x (p ++ a) = false -> slice_lt x (p ++ b) = true -> exists y, x = p ++ y.
Proof.
  induction p as [|c p IH]; intros a b x; [by exists x|]. rewrite !slice_lt_lex. destruct x as [|c' x]; [done|]. cbn [app lex].
  destruct (Z.compare_spec (b2z c') (b2z c)) as [E|E|E]; [|done|done]. intros H1 H2. apply b2z_inj in E as ->.
  destruct (IH a b x) as [y ->]; [by rewrite slice_lt_lex..|]. by exists y.
Qed.

Abbreviation keys_sorted es := (StronglySorted (fun x y => slice_lt x y = true) es.*1).

Lemma from_key_spec seek es : keys_sorted es ->
  keys_sorted (from_key seek es) /\ forall e, e ∈ from_key seek es <-> e ∈ es /\ slice_lt (fst e) seek = false.
Proof.
  induction es as [|e0 es IH]; intros Hs; cbn [from_key].
  - split; [done|]. intros e. rewrite elem_of_nil. naive_solver.
  - cbn in Hs. inversion Hs as [|? ? Hs' Hall]; subst. destruct (slice_lt (fst e0) seek) eqn:E0.
    + destruct (IH Hs') as [Hk Hin]. split; [done|]. intros e. rewrite Hin, elem_of_cons. split; [naive_solver|].
      intros [[->|He] Hf]; [congruence|done].
    + split; [done|]. intros e. split; [|naive_solver]. intros He. split; [done|]. apply elem_of_cons in He as [->|He]; [done|].
      destruct (slice_lt (fst e) seek) eqn:E; [|done]. rewrite Forall_forall in Hall.
      rewrite (st_trans (ltb := slice_lt) (fst e0) (fst e) seek) in E0; [done| |done]. apply Hall, list_elem_of_fmap. by exists e.
Qed.

(** Every entry is the one of a branch. *)
Definition branch_entries (es : list (bytes * bytes)) : Prop :=
  Forall (fun e => exists k b, short k /\ fst e = DBKey k b) es.

Definition key_prefix (key : Slice) : bytes := le_encode kKeySizeBytes (Z.of_nat (len key)) ++ key.

Lemma DBKey_prefix key branch : DBKey key branch = key_prefix key ++ branch.
Proof. unfold DBKey, key_prefix. by rewrite app_assoc. Qed.

Lemma prefix_key key k b y : short key -> short k -> DBKey k b = key_prefix key ++ y -> k = key /\ b = y.
Proof. rewrite <- DBKey_prefix. intros H1 H2 E. by apply DBKey_inj in E. Qed.

Lemma while_prefix_spec key es : short key -> branch_entries es -> keys_sorted es ->
  (forall e, e ∈ es -> exists a, slice_lt (fst e) (key_prefix key ++ a) = false) ->
  exists l, while_prefix Transform (key_prefix key) es = Some l /\ keys_sorted l /\
    (forall e, e ∈ l -> exists b, fst e = DBKey key b) /\
    forall b v, (DBKey key b, v) ∈ l <-> (DBKey key b, v) ∈ es.
Proof.
  intros Hk. induction es as [|e0 es IH]; intros He Hs Hge; [by exists []; split_and!; [|constructor|set_solver|]|].
  apply Forall_cons in He as [(k0 & b0 & Hk0 & E0) He]. cbn in Hs. inversion Hs as [|? ? Hs' Hall]; subst.
  cbn [while_prefix]. rewrite E0, (proj1 (DBKey_split k0 b0 Hk0)). osimpl. fold (key_prefix k0). case_decide as Hd.
  - assert (k0 = key) as ->.
    { unfold key_prefix in Hd. by apply app_inj_1 in Hd as [_ ->]; [|by rewrite !length_le_encode]. }
    destruct (IH He Hs') as (l & -> & Hls & Hlk & Hin); [intros e Hin; apply Hge; by right|]. osimpl. exists (e0 :: l).
    split_and!; [done| | |].
    + cbn. constructor; [done|]. rewrite Forall_forall in *. intros x (e & -> & Hel)%list_elem_of_fmap.
      apply Hall, list_elem_of_fmap. exists e. split; [done|]. destruct (Hlk e Hel) as [b Eb]. destruct e as [ke ve]. cbn in Eb. subst.
      by apply Hin.
    + intros e [->|Hel]%elem_of_cons; [eauto|by apply Hlk].
    + intros b v. rewrite !elem_of_cons, Hin. done.
  - exists []. split_and!; [done|constructor|set_solver|]. intros b v. split; [by intros ?%elem_of_nil|]. intros Hin. exfalso.
    apply elem_of_cons in Hin as [E|Hin].
    + apply Hd. rewrite <- E in E0. cbn in E0. rewrite DBKey_prefix in E0. symmetry in E0. by apply prefix_key in E0 as [-> _].
    + rewrite Forall_forall in Hall. assert (Hlt : slice_lt (fst e0) (DBKey key b) = true).
      { apply Hall, list_elem_of_fmap. by exists (DBKey key b, v). }
      destruct (Hge e0) as [a Ha]; [by left|]. rewrite DBKey_prefix in Hlt. rewrite E0 in Ha, Hlt.
      destruct (lex_between _ _ _ _ Ha Hlt) as [y Ey]. apply prefix_key in Ey as [-> _]; done.
Qed.

Section Claims.
Context `{RocksDBSpec D}.
Implicit Types (hv : RocksHeadVersion D) (key branch : Slice).

(** C17.  The branches of the RocksDB table refine a table of heads, for keys of
    fewer than [2^16] bytes: writing, removing and renaming a branch change
    exactly the entries that the contract of head tables prescribes, no branch of
    another key, and [GetBranch] reads them. *)
Theorem rocks_branch_refinement hv key branch v :
  writes_succeed (D := D) -> heads_plain hv -> short key -> length v = kVersionSizeBytes ->
  rhv_GetBranch hv key branch = match rheads hv key branch with Some h => (true, h) | None => (false, hash_kNull) end /\
  (exists hv', rhv_PutBranch hv key branch (Some v) = Some hv' /\
     reads_as hv hv' (upd (rheads hv) key branch (Some (Some v)))) /\
  reads_as hv (rhv_RemoveBranch hv key branch) (upd (rheads hv) key branch None) /\
  (forall new h, rheads hv key branch = Some h -> rheads hv key new = None ->
     reads_as hv (rhv_RenameBranch hv key branch new) (upd (upd (rheads hv) key new (Some h)) key branch None)).
Proof.
  intros Hw Hp Hk Hv. split_and!.
  - unfold rhv_GetBranch, bdb_Get, rheads. destruct (DBGet (branch_db_ hv) (DBKey key branch)) as [x|] eqn:E; [|done]. osimpl.
    destruct (Hp (DBKey key branch)) as (o & Eo & Ho). rewrite (plain_Get _ _ Hp), E in Eo. apply option_list_inj in Eo.
    rewrite hash_Clone_wf; [done|]. intros y [= <-]. by apply Ho.
  - by apply PutBranch_reads.
  - by apply RemoveBranch_reads.
  - intros new h Ho Hn. by apply RenameBranch_reads.
Qed.

(** [ListBranch] returns branches of the key in their order, but not all of
    them: the scan starts at "*", so a branch is listed exactly if it exists and
    its name is not smaller than "*" (the empty name, and names that start with
    one of the characters below it, like '#', '(' or a blank, are missing). *)
Theorem rocks_list_branches hv key :
  heads_plain hv -> short key ->
  exists l, rhv_ListBranch hv key = Some l /\ StronglySorted (fun x y => slice_lt x y = true) l /\
    forall b, b ∈ l <-> is_Some (rheads hv key b) /\ slice_lt b [x2a] = false.
Proof.
  intros Hp Hk. unfold rhv_ListBranch, GetBranches, DBPrefixScan. rewrite (proj1 (DBKey_split key [x2a] Hk)). osimpl.
  fold (key_prefix key). set (d := branch_db_ hv).
  destruct (from_key_spec (DBKey key [x2a]) (DBFullScan d) (DBFullScan_sorted d)) as [Hs Hin].
  destruct (while_prefix_spec key (from_key (DBKey key [x2a]) (DBFullScan d)) Hk) as (l & -> & Hls & Hlk & Hlin).
  - apply Forall_forall. intros [k v] He. apply Hin in He as [He _]. apply DBFullScan_spec in He.
    destruct (Hp k) as (o & Eo & Ho). rewrite (plain_Get _ _ Hp) in Eo. fold d in Eo. rewrite He in Eo. apply option_list_inj in Eo.
    destruct (Ho v) as (_ & k0 & b0 & ? & ->); [done|]. by exists k0, b0.
  - done.
  - intros e He. exists [x2a]. rewrite <- DBKey_prefix. by apply Hin in He as [_ ?].
  - osimpl. set (f (e : bytes * bytes) := drop (length (key_prefix key)) (fst e)).
    assert (Hf : forall e, e ∈ l -> fst e = DBKey key (f e)).
    { intros e He. destruct (Hlk e He) as [b Eb]. subst f. cbn beta. rewrite Eb, DBKey_prefix, drop_app_length. done. }
    exists (f <$> l). split_and!.
    + apply mapM_total. intros e He. rewrite (Hf e He) at 1. by apply DBKey_split.
    + clear Hlin. induction l as [|e l IH]; [constructor|]. cbn in Hls. inversion Hls as [|? ? Hls' Hall]; subst. cbn. constructor.
      * apply IH; [done|intros e' He'; apply Hlk; by right|intros e' He'; apply Hf; by right].
      * rewrite Forall_forall in *. intros y (e' & -> & He')%list_elem_of_fmap.
        rewrite <- (slice_lt_app (key_prefix key)), <- !DBKey_prefix, <- (Hf e), <- (Hf e') by (by left || by right).
        apply Hall, list_elem_of_fmap. by exists e'.
    + intros b. rewrite list_elem_of_fmap. split.
      * intros (e & -> & He). pose proof (Hf e He) as E. destruct e as [ke ve]. cbn [fst] in E. rewrite E in He. apply Hlin in He.
        apply Hin in He as [He Hlt]. apply DBFullScan_spec in He. split; [unfold rheads; fold d; rewrite He; by eexists|].
        cbn [fst] in Hlt. by rewrite !DBKey_prefix, slice_lt_app in Hlt.
      * intros [[h Eh] Hlt]. unfold rheads in Eh. fold d in Eh. destruct (DBGet d (DBKey key b)) as [v|] eqn:Ev; [|done].
        assert (He : (DBKey key b, v) ∈ l).
        { apply Hlin, Hin. split; [by apply DBFullScan_spec|]. cbn [fst]. by rewrite !DBKey_prefix, slice_lt_app. }
        exists (DBKey key b, v). split; [|done]. pose proof (Hf _ He) as E. cbn [fst] in E.
        rewrite !DBKey_prefix in E. by apply app_inv_head in E.
Qed.

(** Versions of a key, each after the one before. *)
Fixpoint put_chain hv key (prev : Hash) (vs : list bytes) : option (RocksHeadVersion D) :=
  match vs with
  | [] => Some hv
  | v :: vs' => hv' ← rhv_PutLatest hv key prev None (Some v); put_chain hv' key (Some v) vs'
  end.

(** A version: its bytes are not those of [Hash::kNull]. *)
Definition version_ok (v : bytes) : Prop := length v = kVersionSizeBytes /\ Some v <> hash_kNull.

(** The argument for the predecessor. *)
Definition prev_hash (prev : option bytes) : Hash := match prev with Some p => Some p | None => hash_kNull end.

Lemma PutLatest_operands hv key prev v :
  writes_succeed (D := D) -> length v = kVersionSizeBytes -> (forall p, prev = Some p -> version_ok p) ->
  exists hv', rhv_PutLatest hv key (prev_hash prev) None (Some v) = Some hv' /\
    branch_db_ hv' = branch_db_ hv /\
    operands (latest_db_ hv') key = operands (latest_db_ hv) key ++ [update_of prev v].
Proof.
  intros Hw Hv Hp. unfold rhv_PutLatest, ldb_Merge.
  assert (E : ver_update (prev_hash prev) None (Some v) = Some (update_of prev v)).
  { unfold ver_update, update_of. rewrite hash_bytes_ok by done. osimpl. destruct prev as [p|]; cbn [prev_hash option_list concat].
    - destruct (Hp p eq_refl) as [Hpl Hpn]. rewrite hash_eq_spec, bool_decide_false; [|done|by intros x [= <-]|by intros x [= <-]].
      rewrite hash_bytes_ok by done. osimpl. cbn. by rewrite app_nil_r.
    - rewrite hash_eq_spec, bool_decide_true; [|done|by intros x [= <-]|by intros x [= <-]]. by rewrite app_nil_r. }
  rewrite E. osimpl. eexists. split; [done|]. split; [done|]. cbn [latest_db_]. rewrite DBMerge_spec.
  rewrite (proj1 (proj2 (proj2 (Hw _ _ _ [])))). by rewrite decide_True.
Qed.

Lemma put_chain_operands key vs : forall hv prev,
  writes_succeed (D := D) -> (forall p, prev = Some p -> version_ok p) -> Forall version_ok vs ->
  exists hv', put_chain hv key (prev_hash prev) vs = Some hv' /\
    operands (latest_db_ hv') key = operands (latest_db_ hv) key ++ chain prev vs.
Proof.
  induction vs as [|v vs IH]; intros hv prev Hw Hp Hvs; cbn [put_chain chain]; [exists hv; by rewrite app_nil_r|].
  apply Forall_cons in Hvs as [Hv Hvs]. destruct (PutLatest_operands hv key prev v Hw (proj1 Hv) Hp) as (hv1 & -> & _ & E1). osimpl.
  destruct (IH hv1 (Some v) Hw) as (hv2 & E & E2); [by intros p [= <-]|done|]. exists hv2. split; [exact E|].
  by rewrite E2, E1, <- app_assoc.
Qed.

Lemma cut_versions_rep l : vers_ok l -> versions_of (concat l) = Some l.
Proof.
  intros Hl. unfold versions_of. rewrite (length_loop_count l Hl). induction Hl as [|v l Hv Hl IH]; [done|].
  cbn [length cut_versions concat]. rewrite <- Hv at 1. rewrite read_bytes_app_l, read_bytes_all by lia. osimpl.
  rewrite <- Hv at 1. by rewrite drop_app_length, IH.
Qed.

(** C18.  A key whose versions follow each other has one latest version, the last
    one, in whatever groups RocksDB merges the updates. *)
Theorem rocks_latest_chain hv key vs w :
  writes_succeed (D := D) -> operands (latest_db_ hv) key = [] -> Forall version_ok vs -> NoDup vs -> last vs = Some w ->
  exists hv', put_chain hv key hash_kNull vs = Some hv' /\ rhv_GetLatest hv' key = Some [Some w] /\
    forall x, length x = kVersionSizeBytes -> rhv_IsLatest hv' key (Some x) = Some (bool_decide (x = w)).
Proof.
  intros Hw Hnone Hvs Hnd Hl. destruct (put_chain_operands key vs hv None Hw) as (hv' & E & Eo); [done|done|].
  exists hv'. split; [exact E|]. rewrite Hnone in Eo. cbn [app] in Eo.
  assert (Hok : vers_ok vs) by (eapply Forall_impl; [exact Hvs|by intros x [? _]]).
  pose proof (DBGet_spec (latest_db_ hv') key) as Hg. destruct (DBGet (latest_db_ hv') key) as [c|] eqn:Eg.
  - rewrite Eo in Hg. destruct (chain_grouped _ _ Hg None vs eq_refl Hok Hnd) as (w' & Hw' & ->).
    rewrite Hl in Hw'. injection Hw' as <-. assert (Hwl : vers_ok [w]).
    { constructor; [|done]. apply last_Some in Hl as [l' ->]. apply vers_ok_app in Hok as [_ Hok]. by inversion Hok. }
    unfold rhv_GetLatest, ldb_Get, rhv_IsLatest, ldb_ExistsVersion. rewrite Eg. change (update_of None w) with (concat [w]).
    rewrite (cut_versions_rep [w] Hwl). osimpl. split; [done|]. intros x Hx. rewrite hash_bytes_ok by done. osimpl.
    f_equal. apply bool_decide_ext. by rewrite list_elem_of_singleton.
  - rewrite Eo in Hg. destruct vs; done.
Qed.

Ltac keep_versions := cbn [keep_old lookup list_lookup]; repeat (case_decide; simplify_eq; cbn [keep_old]); done || congruence.

(** Four updates: two first versions, and a version after each of them. *)
Definition fork_updates (p1 p2 v1 v2 : bytes) : list bytes :=
  [update_of None p1; update_of None p2; update_of (Some p1) v1; update_of (Some p2) v2].

(** C35.  With two branches the groups matter.  After [PutLatest] of two versions
    and of a successor of each, the latest versions are the two successors; but if
    RocksDB combines the last two updates first, as the operator permits, the
    result drops the first successor and keeps the predecessor of the other. *)
Theorem rocks_regrouping hv key p1 p2 v1 v2 :
  writes_succeed (D := D) -> operands (latest_db_ hv) key = [] -> Forall version_ok [p1; p2; v1; v2] ->
  NoDup [p1; p2; v1; v2] ->
  (exists hv', (h1 ← rhv_PutLatest hv key hash_kNull None (Some p1); h2 ← rhv_PutLatest h1 key hash_kNull None (Some p2);
      h3 ← rhv_PutLatest h2 key (Some p1) None (Some v1); rhv_PutLatest h3 key (Some p2) None (Some v2)) = Some hv' /\
    operands (latest_db_ hv') key = fork_updates p1 p2 v1 v2) /\
  grouped merge_op (fork_updates p1 p2 v1 v2) (concat [v2; v1]) /\
  grouped merge_op (fork_updates p1 p2 v1 v2) (concat [v2; p2]).
Proof.
  intros Hw Hnone Hok Hnd. pose proof Hok as Hok'. rewrite !Forall_cons in Hok'. destruct Hok' as (Hp1 & Hp2 & Hv1 & Hv2 & _).
  assert (Hop : forall l v ps, vers_ok l -> version_ok v -> vers_ok ps -> length ps <= 2 ->
    merge_op (concat l) (concat (v :: ps)) = concat (v :: keep_old (ps !! 0) (ps !! 1) v l)).
  { intros l v ps Hl [Hv _] Hps Hn. unfold merge_op. cbn [LatestVersionUpdater_Merge]. by rewrite merge_versions_rep. }
  assert (Hvs : forall l, (forall x, x ∈ l -> x ∈ [p1; p2; v1; v2]) -> vers_ok l).
  { intros l Hsub. apply Forall_forall. intros x Hx. rewrite Forall_forall in Hok. by apply Hok, Hsub. }
  rewrite !NoDup_cons, !elem_of_cons, elem_of_nil in Hnd.
  assert (p1 <> p2 /\ p1 <> v1 /\ p1 <> v2 /\ p2 <> v1 /\ p2 <> v2 /\ v1 <> v2) as (N12 & N11 & N1v & N21 & N2v & Nv) by tauto.
  clear Hnd.
  assert (M1 : merge_op (update_of None p1) (update_of None p2) = concat [p2; p1]).
  { unfold update_of. cbn [option_list]. rewrite Hop; [|apply Hvs; set_solver|done|constructor|cbn; lia]. keep_versions. }
  split_and!.
  - destruct (PutLatest_operands hv key None p1 Hw (proj1 Hp1)) as (h1 & E1 & _ & O1); [done|]. cbn [prev_hash] in E1. rewrite E1. osimpl.
    destruct (PutLatest_operands h1 key None p2 Hw (proj1 Hp2)) as (h2 & E2 & _ & O2); [done|]. cbn [prev_hash] in E2. rewrite E2. osimpl.
    destruct (PutLatest_operands h2 key (Some p1) v1 Hw (proj1 Hv1)) as (h3 & E3 & _ & O3); [by intros p [= <-]|].
    cbn [prev_hash] in E3. rewrite E3. osimpl.
    destruct (PutLatest_operands h3 key (Some p2) v2 Hw (proj1 Hv2)) as (h4 & E4 & _ & O4); [by intros p [= <-]|].
    exists h4. split; [exact E4|]. by rewrite O4, O3, O2, O1, Hnone.
  - assert (M2 : merge_op (concat [p2; p1]) (update_of (Some p1) v1) = concat [v1; p2]).
    { change (update_of (Some p1) v1) with (concat [v1; p1]). rewrite Hop; [|apply Hvs; set_solver|done|apply Hvs; set_solver|cbn; lia].
      keep_versions. }
    assert (M3 : merge_op (concat [v1; p2]) (update_of (Some p2) v2) = concat [v2; v1]).
    { change (update_of (Some p2) v2) with (concat [v2; p2]). rewrite Hop; [|apply Hvs; set_solver|done|apply Hvs; set_solver|cbn; lia].
      keep_versions. }
    rewrite <- M3, <- M2, <- M1.
    apply (grouped_two _ [_; _; _] [_]); [|constructor]. apply (grouped_two _ [_; _] [_]); [|constructor].
    apply (grouped_two _ [_] [_]); constructor.
  - assert (M2 : merge_op (update_of (Some p1) v1) (update_of (Some p2) v2) = concat [v2; v1; p1]).
    { change (merge_op (concat [v1; p1]) (concat [v2; p2]) = concat [v2; v1; p1]). rewrite Hop; [|apply Hvs; set_solver|done|apply Hvs; set_solver|cbn; lia].
      keep_versions. }
    assert (M3 : merge_op (concat [p2; p1]) (concat [v2; v1; p1]) = concat [v2; p2]).
    { rewrite Hop; [|apply Hvs; set_solver|done|apply Hvs; set_solver|cbn; lia]. keep_versions. }
    rewrite <- M3, <- M2, <- M1.
    apply (grouped_two _ [_; _] [_; _]); apply (grouped_two _ [_] [_]); constructor.
Qed.

End Claims.

(** ** Witnesses: a database that keeps the operands and combines them from the left *)

Section Witnesses.

Abbreviation MapDB := (gmap bytes (list bytes)).

Definition eager (l : list bytes) : option bytes :=
  match l with [] => None | v :: l' => Some (foldl merge_op v l') end.

Definition mdb_at (d : MapDB) (k : bytes) : list bytes := default [] (d !! k).
Definition mdb_values (d : MapDB) : gmap bytes bytes := omap eager d.

Definition mdb_batch (d : MapDB) (o : BatchOp) : MapDB :=
  match o with BPut k v => <[k := [v]]> d | BDelete k => delete k d end.

Definition map_db : RocksDB MapDB := {|
  DBGet d k := d !! k ≫= eager;
  DBPut d k v := (true, <[k := [v]]> d);
  DBDelete d k := (true, delete k d);
  DBMerge d k v := (true, <[k := mdb_at d k ++ [v]]> d);
  DBWrite d ops := (true, foldl mdb_batch d ops);
  DBFullScan d := (fun k => (k, default [] (mdb_values d !! k))) <$> merge_sort slice_le (map_to_list (mdb_values d)).*1
|}.
#[local] Existing Instance map_db.

Lemma eager_grouped l : match eager l with None => l = [] | Some v => grouped merge_op l v end.
Proof.
  destruct l as [|v l]; [done|]. cbn [eager].
  assert (Hall : forall l pre v, grouped merge_op pre v -> grouped merge_op (pre ++ l) (foldl merge_op v l)).
  { clear. induction l as [|x l IH]; intros pre v Hg; [by rewrite app_nil_r|]. cbn [foldl].
    replace (pre ++ x :: l) with ((pre ++ [x]) ++ l) by (by rewrite <- app_assoc). apply IH. apply grouped_two; [done|constructor]. }
  apply (Hall l [v]). constructor.
Qed.

Lemma mdb_batch_at d o k : mdb_at (mdb_batch d o) k = batch_step (mdb_at d) o k.
Proof.
  unfold mdb_at. destruct o; cbn; case_decide as Hd; subst.
  - by rewrite lookup_insert_eq.
  - by rewrite lookup_insert_ne.
  - by rewrite lookup_delete_eq.
  - by rewrite lookup_delete_ne.
Qed.

Lemma mdb_batches_at ops : forall d k, mdb_at (foldl mdb_batch d ops) k = foldl batch_step (mdb_at d) ops k.
Proof.
  assert (Hext : forall ops f g, (forall k, f k = g k) -> forall k, foldl batch_step f ops k = foldl batch_step g ops k).
  { clear. induction ops as [|o ops IH]; intros f g E k; [apply E|]. cbn. apply IH. intros k'. destruct o; cbn; by rewrite E. }
  induction ops as [|o ops IH]; intros d k; [done|]. cbn [foldl]. rewrite IH. apply Hext. intros k'. apply mdb_batch_at.
Qed.

Lemma mdb_values_at d k : mdb_values d !! k = d !! k ≫= eager.
Proof. apply lookup_omap. Qed.

Definition map_db_spec : RocksDBSpec MapDB.
Proof.
  refine {| operands := mdb_at |}.
  - intros d k. cbn. unfold mdb_at. destruct (d !! k) as [l|]; [|done]. cbn. apply eager_grouped.
  - intros d k v k'. apply (mdb_batch_at d (BPut k v)).
  - intros d k k'. apply (mdb_batch_at d (BDelete k)).
  - intros d ops k'. apply mdb_batches_at.
  - intros d k v k'. cbn. unfold mdb_at at 1. case_decide as Hd; subst; [by rewrite lookup_insert_eq|by rewrite lookup_insert_ne].
  - intros d k v. cbn. rewrite list_elem_of_fmap, <- mdb_values_at. split.
    + intros (k' & [= -> ->] & Hin). rewrite merge_sort_Permutation in Hin. apply elem_of_fst_map in Hin as [x Ex]. by rewrite Ex.
    + intros E. exists k. rewrite E. split; [done|]. rewrite merge_sort_Permutation. apply elem_of_fst_map. by exists v.
  - intros d. cbn. rewrite <- list_fmap_compose.
    replace (_ <$> merge_sort _ _) with (merge_sort slice_le (map_to_list (mdb_values d)).*1) by (symmetry; apply list_fmap_id).
    apply sorted_strict; [|apply StronglySorted_merge_sort; apply _].
    rewrite merge_sort_Permutation. apply NoDup_fst_map_to_list.
Defined.
#[local] Existing Instance map_db_spec.

Lemma map_db_writes : writes_succeed (D := MapDB).
Proof. done. Qed.

Definition empty_rhv : RocksHeadVersion MapDB := mkRHV ∅ ∅.

Lemma empty_rhv_plain : heads_plain empty_rhv.
Proof. intros k. exists None. split; [|done]. cbn. unfold mdb_at. by rewrite lookup_empty. Qed.

(** Versions of twenty equal bytes. *)
Definition ver (b : byte) : bytes := replicate 20 b.

Lemma nodup_check (l : list bytes) : bool_decide (NoDup l) = true -> NoDup l.
Proof. apply bool_decide_eq_true_1. Qed.

Lemma ver_sizes l : vers_ok (ver <$> l).
Proof. apply Forall_fmap, Forall_forall. intros b _. reflexivity. Qed.

Lemma rocks_merge_operator_witness :
  LatestVersionUpdater_Merge (Some (concat [ver x01; ver x02])) (concat [ver x03; ver x01]) = Some (concat [ver x03; ver x02]).
Proof.
  rewrite (rocks_merge_operator (ver x03) [ver x01] [ver x01; ver x02]); [vm_compute; reflexivity|reflexivity|
    apply (ver_sizes [x01])|apply (ver_sizes [x01; x02])|cbn; lia|apply nodup_check; vm_compute; reflexivity].
Defined.

Lemma rocks_branch_refinement_witness : exists hv',
  rhv_PutBranch empty_rhv [x6b] [x6d] (Some (ver x01)) = Some hv' /\ rheads hv' [x6b] [x6d] = Some (Some (ver x01)).
Proof.
  destruct (rocks_branch_refinement empty_rhv [x6b] [x6d] (ver x01) map_db_writes empty_rhv_plain) as (_ & (hv' & E & _ & _ & R) & _);
    [reflexivity|reflexivity|]. exists hv'. split; [exact E|]. rewrite R by reflexivity. apply upd_eq.
Defined.

Lemma rocks_list_branches_witness : exists l, rhv_ListBranch empty_rhv [x6b] = Some l /\ [x6d] ∉ l.
Proof.
  destruct (rocks_list_branches empty_rhv [x6b] empty_rhv_plain) as (l & E & _ & R); [reflexivity|].
  exists l. split; [exact E|]. rewrite R. intros [[h Eh] _]. discriminate Eh.
Defined.

Lemma ver_ok_versions l : forallb (fun b => negb (Byte.eqb b x00)) l = true -> Forall version_ok (ver <$> l).
Proof.
  intros Hl. apply Forall_fmap, Forall_forall. intros b Hb. rewrite forallb_forall in Hl.
  specialize (Hl b (proj1 (list_elem_of_In _ _) Hb)). split; [reflexivity|]. intros E. destruct b; discriminate E || discriminate Hl.
Qed.

Lemma rocks_latest_chain_witness : exists hv',
  put_chain empty_rhv [x6b] hash_kNull [ver x01; ver x02] = Some hv' /\ rhv_GetLatest hv' [x6b] = Some [Some (ver x02)].
Proof.
  destruct (rocks_latest_chain empty_rhv [x6b] [ver x01; ver x02] (ver x02) map_db_writes) as (hv' & E & R & _);
    [reflexivity|apply (ver_ok_versions [x01; x02]); reflexivity|apply nodup_check; vm_compute; reflexivity|reflexivity|].
  exists hv'. split; [exact E|exact R].
Defined.

Lemma rocks_regrouping_witness :
  grouped merge_op (fork_updates (ver x01) (ver x02) (ver x03) (ver x04)) (concat [ver x04; ver x02]).
Proof.
  refine (proj2 (proj2 (rocks_regrouping empty_rhv [x6b] (ver x01) (ver x02) (ver x03) (ver x04) map_db_writes _ _ _)));
    [reflexivity|apply (ver_ok_versions [x01; x02; x03; x04]); reflexivity|apply nodup_check; vm_compute; reflexivity].
Defined.

End Witnesses.
