(* ===== verification/Recut.v ===== *)
(** * Cutting a sequence again after an edit

    The groups of a sequence are found from left to right, and each of them
    depends on its own entries only.  So the groups before an edit stay, and
    as soon as a group of the new sequence ends where one of the old sequence
    ended, the remaining groups are the old ones.  [NodeBuilder] relies on
    both when it edits a tree. *)

From S2P Require Import Prelude Types Slice HashVal Chunk RollingHash Node NodeSearch Chunker.
From S2P Require Import Canonical.

Section Recut.
Variable p : ChunkerParams.
Implicit Types (es x y g : list bytes) (gs : list (list bytes)).

Lemma split_app x y :
  split p (x ++ y) =
    (fst (split p x) ++ fst (split p (snd (split p x) ++ y)), snd (split p (snd (split p x) ++ y))).
Proof.
  apply (split_ind (fun x r => split p (x ++ y) =
    (fst r ++ fst (split p (snd r ++ y)), snd (split p (snd r ++ y))))).
  - intros es _. cbn [fst snd app]. apply surjective_pairing.
  - intros es pos Hpos j Hj IH. cbn [fst snd].
    pose proof (split_boundary p [] es y pos eq_refl Hpos) as E. cbv zeta in E. cbn [app concat] in E.
    fold j in E. rewrite E, IH. done.
Qed.

(** A group that ends at its first boundary. *)
Definition closed g : Prop := split p g = ([g], []).

Lemma split_closed es : Forall closed (fst (split p es)).
Proof.
  apply (split_ind (fun es r => Forall closed (fst r))); [done|].
  intros es' pos Hpos j Hj IH. cbn [fst]. constructor; [|done].
  pose proof Hpos as (Hlt & _)%find_boundary_Some.
  pose proof (entry_at_bounds _ _ Hlt) as Hb. pose proof (entry_at_lt _ _ Hlt) as Hel.
  assert (Hin : pos < length (concat (take j es'))) by apply Hb.
  assert (Hfb : find_boundary p [] (concat (take j es')) = Some pos).
  { rewrite <- (take_drop j es') in Hpos at 1. rewrite concat_app, find_boundary_app in Hpos.
    destruct (find_boundary p [] (concat (take j es'))) as [k|]; [done|].
    apply fmap_Some in Hpos as (k & _ & Ek). lia. }
  unfold closed. rewrite split_eq, Hfb. cbv zeta.
  assert (Ej : S (entry_at (take j es') pos) = j).
  { rewrite <- (entry_at_app_l (take j es') (drop j es')) by done. by rewrite take_drop. }
  rewrite Ej, take_take, Nat.min_id, drop_ge by (rewrite length_take; lia). done.
Qed.

Lemma closed_ne g : closed g -> g <> [].
Proof. intros E ->. discriminate E. Qed.

Lemma closed_app g x : closed g -> groups p (g ++ x) = g :: groups p x.
Proof.
  intros Hg. unfold groups. rewrite split_app, Hg. cbn [fst snd app].
  destruct (split p x) as [gs [|e lo]]; done.
Qed.

Lemma closed_concat gs x : Forall closed gs -> groups p (concat gs ++ x) = gs ++ groups p x.
Proof.
  induction 1 as [|g gs Hg _ IH]; [done|]. cbn [concat app]. by rewrite <- app_assoc, closed_app, IH.
Qed.

Lemma closed_split gs : Forall closed gs -> split p (concat gs) = (gs, []).
Proof.
  induction 1 as [|g gs Hg _ IH]; [done|]. cbn [concat]. rewrite split_app, Hg. cbn [fst snd app]. by rewrite IH.
Qed.

(** No boundary is left after the last one. *)
Lemma split_rest es : find_boundary p [] (concat (snd (split p es))) = None.
Proof. by apply (split_ind (fun es r => find_boundary p [] (concat (snd r)) = None)). Qed.

(** All groups but the last one end at a boundary. *)
Lemma groups_take_closed es n : n < length (groups p es) -> Forall closed (take n (groups p es)).
Proof.
  pose proof (split_closed es) as Hc. unfold groups. destruct (split p es) as [gs [|e lo]]; cbn [close fst] in *.
  - intros _. by apply Forall_take.
  - rewrite length_app. simpl. intros Hn. rewrite take_app_le by lia. by apply Forall_take.
Qed.

Lemma groups_drop es n : groups p (concat (drop n (groups p es))) = drop n (groups p es).
Proof.
  destruct (decide (n < length (groups p es))) as [Hn|Hn]; [|by rewrite drop_ge by lia].
  apply (app_inv_head (take n (groups p es))).
  rewrite <- closed_concat by (by apply groups_take_closed). rewrite <- concat_app, take_drop.
  by rewrite groups_concat.
Qed.

(** The groups before the last boundary stay when something else follows. *)
Lemma groups_app x y : groups p (x ++ y) = fst (split p x) ++ groups p (snd (split p x) ++ y).
Proof.
  unfold groups at 1. rewrite split_app. unfold groups.
  destruct (split p (snd (split p x) ++ y)) as [gs [|e lo]]; cbn [fst snd close]; [done|].
  by rewrite app_assoc.
Qed.

(** The edit: the groups before [n] are kept. *)
Lemma groups_keep es n x :
  n < length (groups p es) \/ n = 0 ->
  groups p (concat (take n (groups p es)) ++ x) = take n (groups p es) ++ groups p x.
Proof.
  intros [Hn| ->]; [|done]. by apply closed_concat, groups_take_closed.
Qed.

End Recut.
