(* ===== verification/LevelCursor.v ===== *)
(** * Cursors on the levels of a canonical tree

    A level of a canonical tree is the sequence of entries that the level
    below hands up, and its nodes are the groups of that sequence.  A cursor
    of any level is described by the index of its node in the level and by
    the index of its entry in the node; [Advance] and [AdvanceEntry] go to the
    next node of the level, also through the levels above. *)

From S2P Require Import Prelude Types Slice HashVal Chunk RollingHash Node NodeSearch Chunker.
From S2P Require Import Canonical Leaf Store Cursor Builder Build Tree CursorProps.

(** The position of entry [j] of group [c] in the whole sequence. *)
Definition flat {A} (gs : list (list A)) (c j : nat) : nat := length (concat (take c gs)) + j.

Lemma flat_lookup {A} (gs : list (list A)) c j g :
  gs !! c = Some g -> j < length g -> concat gs !! flat gs c j = g !! j.
Proof. intros Hc Hj. rewrite (concat_at _ _ _ Hc). by apply lookup_middle. Qed.

Lemma flat_next {A} (gs : list (list A)) c g :
  gs !! c = Some g -> flat gs (S c) 0 = flat gs c (length g).
Proof.
  intros Hc. unfold flat. rewrite (take_S_r _ _ _ Hc), concat_app, length_app. simpl.
  rewrite app_nil_r. lia.
Qed.

Lemma flat_last {A} (gs : list (list A)) c g :
  gs !! c = Some g -> S c = length gs -> flat gs c (length g) = length (concat gs).
Proof. intros Hc Hl. rewrite <- (flat_next _ _ _ Hc), Hl. unfold flat. rewrite take_ge by lia. lia. Qed.

Lemma flat_bound {A} (gs : list (list A)) c j g :
  gs !! c = Some g -> j <= length g -> flat gs c j <= length (concat gs).
Proof. intros Hc Hj. rewrite (concat_at _ _ _ Hc), !length_app. unfold flat. lia. Qed.

Lemma flat_lt {A} (gs : list (list A)) c j g :
  gs !! c = Some g -> j < length g -> flat gs c j < length (concat gs).
Proof. intros Hc Hj. rewrite (concat_at _ _ _ Hc), !length_app. unfold flat. lia. Qed.

(** The end of a group that is not the last one lies before the end, if no
    group is empty. *)
Lemma flat_end {A} (gs : list (list A)) c j g :
  Forall (fun g => g <> []) gs -> gs !! c = Some g -> j <= length g ->
  flat gs c j = length (concat gs) -> S c = length gs.
Proof.
  intros Hne Hc Hj E. pose proof (lookup_lt_Some _ _ _ Hc).
  destruct (decide (S c = length gs)) as [|Hn]; [done|exfalso].
  destruct (lookup_lt_is_Some_2 gs (S c) ltac:(lia)) as [g' Hg'].
  pose proof (Forall_lookup_1 _ _ _ _ Hne Hg') as Hg0. simpl in Hg0.
  assert (0 < length g') by (destruct g'; [done|simpl; lia]).
  pose proof (flat_lt gs (S c) 0 g' Hg' ltac:(done)) as Hlt. rewrite (flat_next _ _ _ Hc) in Hlt.
  unfold flat in *. lia.
Qed.

Lemma take_flat {A} (gs : list (list A)) a i g :
  gs !! a = Some g -> i <= length g -> take (flat gs a i) (concat gs) = concat (take a gs) ++ take i g.
Proof.
  intros Hg Hi. rewrite (concat_at _ _ _ Hg). unfold flat. rewrite take_app_ge by lia.
  f_equal. rewrite take_app_le by lia. f_equal. lia.
Qed.

Lemma drop_flat {A} (gs : list (list A)) c j g :
  gs !! c = Some g -> j <= length g -> drop (flat gs c j) (concat gs) = drop j g ++ concat (drop (S c) gs).
Proof.
  intros Hg Hj. rewrite (concat_at _ _ _ Hg). unfold flat. rewrite drop_app_ge by lia.
  rewrite drop_app_le by lia. do 2 f_equal. lia.
Qed.

Section LevelCursor.
Context `{HashFunction} `{Uninit}.
Variable get : Hash -> option Chunk.
Variable (kind : NodeKind) (lp mp : ChunkerParams).
Implicit Types (E : list bytes) (leaf : bool) (ht c j : nat) (cur ps : NodeCursor).

Abbreviation knd := (lvl_kind kind).
Abbreviation prm := (lvl_params lp mp).

(** The nodes of a level, and the entries of the level above. *)
Definition lgroups leaf E : list (list bytes) := level_groups (prm leaf) E.
Definition up leaf E : list bytes := metas (knd leaf) (lgroups leaf E).

(** A level whose nodes are stored, and whose parents up to the root, [ht]
    levels above, are. *)
Fixpoint levels ht leaf E : Prop :=
  (exists B K, level_ok B K (knd leaf) (prm leaf) E) /\ small E /\
  Forall (stored get) (pair (knd leaf) <$> lgroups leaf E) /\
  match ht with
  | O => exists g, lgroups leaf E = [g]
  | S ht' => E <> [] /\ levels ht' false (up leaf E)
  end.

Lemma levels_unfold ht leaf E :
  levels ht leaf E ->
  (exists B K, level_ok B K (knd leaf) (prm leaf) E) /\ small E /\
  Forall (stored get) (pair (knd leaf) <$> lgroups leaf E).
Proof. destruct ht; simpl; tauto. Qed.

Lemma lgroups_concat leaf E : concat (lgroups leaf E) = E.
Proof. apply level_groups_concat. Qed.

Lemma lgroups_ne leaf E : E <> [] -> Forall (fun g => g <> []) (lgroups leaf E).
Proof. intros Hne. by apply level_groups_nonempty. Qed.

Lemma length_up leaf E : length (up leaf E) = length (lgroups leaf E).
Proof. unfold up, metas. apply length_fmap. Qed.

Lemma group_ok ht leaf E c g :
  levels ht leaf E -> lgroups leaf E !! c = Some g ->
  entries_ok (knd leaf) g /\ size_ok g /\ small g /\ stored get (knd leaf, g) /\
  mi_ok (meta_of (knd leaf) g).
Proof.
  intros ((B & K & Hl) & Hs & Hst)%levels_unfold Hg.
  pose proof (lo_entries _ _ _ _ _ Hl) as Hok. rewrite <- (lgroups_concat leaf E) in Hok, Hs.
  apply entries_ok_concat in Hok. pose proof (Forall_lookup_1 _ _ _ _ Hok Hg) as Hokg.
  pose proof (level_sizes _ _ _ _ _ Hl) as [_ Hsz].
  pose proof (Forall_lookup_1 _ _ _ _ Hsz Hg) as Hszg. split_and!; [done|done| |..].
  - unfold small in *. rewrite (concat_at _ _ _ Hg), !length_app in Hs. lia.
  - rewrite Forall_fmap in Hst. by apply (Forall_lookup_1 _ _ _ _ Hst Hg).
  - apply meta_of_ok; [apply Hokg|done].
Qed.

Lemma up_lookup leaf E c g :
  lgroups leaf E !! c = Some g -> up leaf E !! c = Some (mi_bytes (meta_of (knd leaf) g)).
Proof. intros Hg. unfold up, metas. by rewrite list_lookup_fmap, Hg. Qed.

(** ** Cursors *)

(** The cursor stands at entry [j] of node [c]; [j] may be the end of the
    node.  Its parents stand at the entries of the nodes below them. *)
Fixpoint at_node ht leaf E c j cur {struct cur} : Prop :=
  match cur with
  | [] => False
  | l :: ps =>
      (exists g, lgroups leaf E !! c = Some g /\ node_rep (seq_node_ l) (knd leaf) g /\ j <= length g) /\
      idx_ l = Z.of_nat j /\
      match ht with
      | O => ps = []
      | S ht' => exists c' j' g', lgroups false (up leaf E) !! c' = Some g' /\ j' < length g' /\
          flat (lgroups false (up leaf E)) c' j' = c /\ at_node ht' false (up leaf E) c' j' ps
      end
  end.

Lemma at_node_inv ht leaf E c j cur :
  at_node ht leaf E c j cur -> exists l ps g, cur = l :: ps /\ lgroups leaf E !! c = Some g /\
    node_rep (seq_node_ l) (knd leaf) g /\ idx_ l = Z.of_nat j /\ j <= length g.
Proof. destruct cur as [|l ps]; [done|]. intros ((g & ? & ? & ?) & ? & _). by exists l, ps, g. Qed.

(** Moving within the node. *)
Lemma at_node_seek ht leaf E c j j' l ps g :
  at_node ht leaf E c j (l :: ps) -> lgroups leaf E !! c = Some g -> j' <= length g ->
  at_node ht leaf E c j' (set_idx l (Z.of_nat j') :: ps).
Proof.
  intros ((g' & Hg & Hn & _) & Hi & Hp) Hg' Hj. rewrite Hg in Hg'. injection Hg' as ->.
  split; [by exists g|]. by split.
Qed.

(** The number of entries of a cursor's node. *)
Lemma at_node_count ht leaf E c j l ps g :
  levels ht leaf E -> at_node ht leaf E c j (l :: ps) -> lgroups leaf E !! c = Some g ->
  numEntries (seq_node_ l) = Some (length g) /\ nentries l = Some (Z.of_nat (length g)) /\
  isEnd l = Some (bool_decide (j = length g)).
Proof.
  intros Hlv (l' & ps' & g' & [= <- <-] & Hg & Hn & Hi & Hj)%at_node_inv Hg'.
  rewrite Hg in Hg'. injection Hg' as ->.
  destruct (group_ok _ _ _ _ _ Hlv Hg) as (_ & _ & Hs & _).
  rewrite (numEntries_rep _ _ _ Hn), (nentries_rep _ _ _ Hn Hs). split_and!; [done|done|].
  unfold isEnd. rewrite (nentries_rep _ _ _ Hn Hs), Hi. osimpl. f_equal.
  destruct (Z.eqb_spec (Z.of_nat j) (Z.of_nat (length g)));
    [by rewrite bool_decide_true by lia|by rewrite bool_decide_false by lia].
Qed.

(** The node below an entry of the level above. *)
Lemma child_at ht ht' leaf E c c' j' g g' p ps :
  levels ht leaf E -> levels ht' false (up leaf E) ->
  at_node ht' false (up leaf E) c' j' (p :: ps) ->
  lgroups false (up leaf E) !! c' = Some g' -> j' < length g' ->
  flat (lgroups false (up leaf E)) c' j' = c -> lgroups leaf E !! c = Some g ->
  exists n, child_node get p = Some n /\ node_rep n (knd leaf) g.
Proof.
  intros Hlv Hlv' (p' & ps' & g2 & [= <- <-] & Hg2 & Hn & Hi & _)%at_node_inv Hg' Hlt <- Hg.
  rewrite Hg' in Hg2. injection Hg2 as <-.
  destruct (group_ok _ _ _ _ _ Hlv Hg) as (Hok & Hsz & _ & (ch & Hget & Hch) & Hm).
  destruct (group_ok _ _ _ _ _ Hlv' Hg') as (_ & _ & Hs' & _).
  pose proof (up_lookup _ _ _ _ Hg) as Hup.
  pose proof (flat_lookup _ _ _ _ Hg' Hlt) as He. rewrite lgroups_concat, Hup in He.
  destruct (current_rep p _ _ j' _ Hn Hs' Hi (eq_sym He)) as [rest Hcur].
  unfold child_node. rewrite Hcur. osimpl.
  destruct (mi_decode _ rest Hm) as (_ & _ & _ & -> & _). osimpl. rewrite meta_of_hash.
  unfold load_node. cbn [fst snd] in Hget. rewrite Hget. osimpl.
  destruct (CreateFromChunk_rep ch (knd leaf) g Hch Hok) as (n & -> & _ & Hr). eauto.
Qed.

(** ** Going to the next node *)

(** From the last entry or the end of a node, to the next node of the level,
    or to the end of the level. *)
Lemma Advance_node ht : forall leaf E c j l ps g,
  levels ht leaf E -> at_node ht leaf E c j (l :: ps) ->
  lgroups leaf E !! c = Some g -> length g <= S j ->
  (S c < length (lgroups leaf E) -> exists cur', Advance get true (l :: ps) = Some (true, cur') /\
     at_node ht leaf E (S c) 0 cur') /\
  (S c = length (lgroups leaf E) ->
     Advance get true (l :: ps) = Some (false, set_idx l (Z.of_nat (length g)) :: ps)).
Proof.
  induction ht as [|ht IH]; intros leaf E c j l ps g Hlv Hat Hg Hj;
    destruct (at_node_count _ _ _ _ _ _ _ _ Hlv Hat Hg) as (_ & Hne & _);
    destruct Hat as ((g' & Hg' & Hn & Hle) & Hi & Hp); rewrite Hg in Hg'; injection Hg' as <-;
    pose proof (advance_here_out l (length g) j Hne Hi Hle Hj) as Hout.
  - destruct Hlv as (_ & _ & _ & g' & Eg). subst ps. rewrite Eg. split; [simpl; lia|].
    intros _. cbn [Advance]. rewrite Hout. done.
  - destruct Hp as (c' & j' & g' & Hg' & Hj' & Hc & Hat). pose proof Hlv as (_ & _ & _ & HE & Hlv').
    destruct ps as [|p ps]; [done|]. rewrite (Advance_up _ _ _ _ _ Hout).
    destruct (at_node_count _ _ _ _ _ _ _ _ Hlv' Hat Hg') as (_ & Hne' & _).
    pose proof Hat as (_ & Hi' & _).
    destruct (decide (S j' < length g')) as [Hin|Hlast].
    + (* the next entry of the same parent *)
      assert (HA : Advance get true (p :: ps) = Some (true, set_idx p (Z.of_nat (S j')) :: ps)).
      { cbn [Advance]. by rewrite (advance_here_in p (length g') j' Hne' Hi' Hin). }
      rewrite HA. osimpl. cbn [fst snd].
      pose proof (at_node_seek _ _ _ _ _ (S j') _ _ _ Hat Hg' ltac:(lia)) as Hat'.
      assert (Hfl : flat (lgroups false (up leaf E)) c' (S j') = S c) by (unfold flat in *; lia).
      pose proof (flat_lt _ _ _ _ Hg' Hin) as Hlt. rewrite lgroups_concat, length_up, Hfl in Hlt.
      split; [intros _|lia].
      destruct (lookup_lt_is_Some_2 _ _ Hlt) as [g2 Hg2].
      destruct (child_at _ _ _ _ _ _ _ _ _ _ _ Hlv Hlv' Hat' Hg' Hin Hfl Hg2) as (n & -> & Hr). osimpl.
      eexists. split; [done|]. split; [by exists g2; split_and!; [..|lia]|]. split; [done|].
      by exists c', (S j'), g'.
    + destruct (IH false (up leaf E) c' j' p ps g' Hlv' Hat Hg' ltac:(lia)) as [IH1 IH2].
      assert (Hfl : flat (lgroups false (up leaf E)) (S c') 0 = S c).
      { rewrite (flat_next _ _ _ Hg'). unfold flat in *. lia. }
      pose proof (lookup_lt_Some _ _ _ Hg') as Hc'. rewrite <- length_up.
      destruct (decide (S c' < length (lgroups false (up leaf E)))) as [Hmore|Hno].
      * (* the first entry of the next parent *)
        destruct (IH1 Hmore) as (cur' & -> & Hat'). osimpl.
        destruct (lookup_lt_is_Some_2 _ _ Hmore) as [g2 Hg2].
        assert (H2 : 0 < length g2).
        { pose proof (lgroups_ne false (up leaf E)) as Hall.
          assert (up leaf E <> []) as Hup0 by (intros Hnil; by rewrite Hnil in Hg';
            rewrite Hnil in Hmore; simpl in Hmore; lia).
          pose proof (Forall_lookup_1 _ _ _ _ (Hall Hup0) Hg2) as Hg20. destruct g2; [done|simpl; lia]. }
        pose proof (flat_lt _ _ 0 _ Hg2 H2) as Hlt. rewrite lgroups_concat, Hfl in Hlt.
        split; [intros _|lia]. rewrite length_up in Hlt.
        destruct (lookup_lt_is_Some_2 _ _ Hlt) as [g3 Hg3].
        destruct cur' as [|p' ps']; [done|]. cbn [snd fst].
        destruct (child_at _ _ _ _ _ _ _ _ _ _ _ Hlv Hlv' Hat' Hg2 H2 Hfl Hg3) as (n & -> & Hr). osimpl.
        eexists. split; [done|]. split; [by exists g3; split_and!; [..|lia]|]. split; [done|].
        by exists (S c'), 0, g2.
      * assert (Hlen : S c' = length (lgroups false (up leaf E))) by lia.
        pose proof (flat_last _ _ _ Hg' Hlen) as Hfin. rewrite <- (flat_next _ _ _ Hg'), Hfl, lgroups_concat in Hfin.
        split; [lia|intros _]. rewrite (IH2 Hlen). osimpl. cbn [fst snd].
        rewrite (retreat_back p (length g') j' Hi') by lia. done.
Qed.

(** [AdvanceEntry] by the entries that are left in the node. *)
Lemma AdvanceEntry_node ht leaf E c j l ps g :
  levels ht leaf E -> at_node ht leaf E c j (l :: ps) -> lgroups leaf E !! c = Some g -> j < length g ->
  (S c < length (lgroups leaf E) -> exists cur' r,
     AdvanceEntry get (u64 (Z.of_nat (length g) - idx_ l)) (l :: ps) = Some (r, cur') /\
     at_node ht leaf E (S c) 0 cur') /\
  (S c = length (lgroups leaf E) -> exists r,
     AdvanceEntry get (u64 (Z.of_nat (length g) - idx_ l)) (l :: ps)
     = Some (r, set_idx l (Z.of_nat (length g)) :: ps)).
Proof.
  intros Hlv Hat Hg Hj.
  destruct (group_ok _ _ _ _ _ Hlv Hg) as (_ & _ & Hs & _). unfold small in Hs.
  destruct (at_node_count _ _ _ _ _ _ _ _ Hlv Hat Hg) as (Hne & Hne' & He).
  pose proof Hat as (_ & Hi & _).
  pose proof (at_node_seek _ _ _ _ _ (length g - 1) _ _ _ Hat Hg ltac:(lia)) as Hat'.
  destruct (Advance_node _ _ _ _ _ _ _ _ Hlv Hat' Hg ltac:(lia)) as [H1 H2].
  assert (Hrem : u64 (Z.of_nat (length g) - idx_ l) = Z.of_nat (length g - j)).
  { rewrite Hi, (wrap_small 64) by lia. lia. }
  assert (Hsl : set_idx l (i32 (idx_ l + i32 (Z.of_nat (length g - j)) - 1))
                = set_idx l (Z.of_nat (length g - 1))).
  { rewrite Hi, (i32_small (Z.of_nat (length g - j))) by lia. rewrite i32_small by lia. f_equal. lia. }
  unfold AdvanceEntry. cbn [head]. osimpl. rewrite He, bool_decide_false by lia. osimpl. cbn [fst snd head].
  osimpl. rewrite Hne. osimpl. rewrite (i32_small (Z.of_nat (length g))) by lia. rewrite Hrem.
  cbn [advance_entries]. rewrite Z.leb_refl, Hsl, Z.sub_diag.
  split; intros Hc.
  - destruct (H1 Hc) as (cur' & -> & Hat2). osimpl. cbn [fst snd].
    destruct (at_node_inv _ _ _ _ _ _ Hat2) as (l' & ps' & g' & -> & Hg' & _ & Hi' & _). cbn [head]. osimpl.
    rewrite Hi'. osimpl. destruct (at_node_count _ _ _ _ _ _ _ _ Hlv Hat2 Hg') as (-> & _). osimpl.
    eexists _, _. split; [done|done].
  - rewrite (H2 Hc). osimpl. cbn [fst snd]. by eexists.
Qed.

End LevelCursor.
