(* ===== verification/EditChain.v ===== *)
(** * The builders of an edit

    [NodeBuilder] on an existing tree: one builder per level of the cursor.
    Each of them stands for a new sequence of entries of its level: the old
    entries up to the place where its cursor was first, the segments that
    were appended, and the old entries from its cursor on.  [Resume] collects
    the entries of the first node before the cursor; [SkipEntries] moves the
    cursor, and the cursors of the parents whenever a node is left. *)

From S2P Require Import Prelude Types Slice HashVal Chunk RollingHash Node NodeSearch Chunker.
From S2P Require Import Canonical Leaf Store Cursor Builder Build Tree CursorProps LevelCursor.

(** ** [Resume] *)

Section Resume.
Context `{HashFunction}.
Variable (kind : NodeKind).

Lemma node_data_first n k es :
  node_rep n k es -> es <> [] -> exists rest, node_data n 0 = Some (concat es ++ rest).
Proof.
  intros Hn Hne. destruct es as [|e es]; [done|].
  destruct (node_data_rep _ _ _ 0 e Hn eq_refl) as [rest ->]. exists rest. simpl. by rewrite drop_0, app_assoc.
Qed.

(** The memory from a position of a blob node on, its end included. *)
Lemma current_blob_at l es i d :
  node_rep (seq_node_ l) KBlob es -> small es -> es <> [] -> idx_ l = Z.of_nat i -> i <= length es ->
  node_data (seq_node_ l) 0 = Some d -> current l = Some (drop i d).
Proof.
  intros Hn Hs Hne Hi Hle Hd. unfold current. rewrite Hi, (nentries_rep _ _ _ Hn Hs).
  rewrite (proj2 (Z.eqb_neq _ _)) by lia. osimpl.
  unfold node_data in *. unfold node_len. rewrite (nr_kind _ _ _ Hn) in *.
  destruct (chunk_data (chunk_ (seq_node_ l))) as [d'|]; [|done]. osimpl in Hd. osimpl.
  rewrite drop_0 in Hd. injection Hd as ->.
  destruct (Z.eqb_spec (Z.of_nat i) (Z.of_nat (length es))) as [E|E]; [|by rewrite Nat2Z.id].
  rewrite drop_drop. do 2 f_equal. destruct es; [done|]. simpl in *. lia.
Qed.

(** [VarSegment]s: the loop takes one entry at a time. *)
Lemma resume_var_rep k g ps : forall todo l i s rest,
  node_rep (seq_node_ l) k g -> small g -> idx_ l = Z.of_nat i -> i + todo <= length g ->
  seg_rep s (take i g) -> (exists offs, seg_kind s = VarSegment offs) ->
  data_ s = concat g ++ rest ->
  exists s', resume_var todo (l :: ps) s = Some (set_idx l (Z.of_nat (i + todo)) :: ps, s') /\
    seg_rep s' (take (i + todo) g).
Proof.
  induction todo as [|todo IH]; intros l i s rest Hn Hs Hi Hle Hr Hv Hd; cbn [resume_var].
  - rewrite Nat.add_0_r. exists s. split; [|done]. destruct l as [sn ix]. simpl in *. by subst.
  - destruct (lookup_lt_is_Some_2 g i ltac:(lia)) as [e He].
    rewrite (numCurrentBytes_rep l k g i e Hn Hs Hi He). osimpl.
    pose proof (Forall_lookup_1 _ _ _ _ (entries_ne _ _ (nr_entries _ _ _ Hn)) He) as Hene. simpl in Hene.
    destruct (seg_rep_prolong_var s (take i g) e (concat (drop (S i) g) ++ rest) Hr Hv Hene)
      as (s' & -> & Hr' & Hd' & Hv').
    { rewrite Hd, (concat_lookup_split _ _ _ He). by rewrite <- !app_assoc. }
    osimpl. rewrite <- (take_S_r _ _ _ He) in Hr'.
    assert (HA : exists ok, advance_here l = Some (ok, set_idx l (Z.of_nat (S i)))).
    { pose proof (nentries_rep _ _ _ Hn Hs) as Hne.
      destruct (decide (S i < length g)).
      - rewrite (advance_here_in l (length g) i Hne Hi) by done. eauto.
      - rewrite (advance_here_out l (length g) i Hne Hi) by lia.
        replace (length g) with (S i) by lia. eauto. }
    destruct HA as [ok ->]. osimpl. cbn [snd].
    destruct (IH (set_idx l (Z.of_nat (S i))) (S i) s' rest) as (s2 & E & Hr2); try done.
    + lia.
    + by rewrite Hd'.
    + rewrite <- Nat.add_succ_comm. exists s2. split; [|done]. rewrite E. done.
Qed.

(** The builder afterwards: the same cursor, and the segment before it. *)
Lemma Resume_rep leaf b l ps g i :
  cursor_ b = Some (l :: ps) -> node_rep (seq_node_ l) (lvl_kind kind leaf) g -> small g -> g <> [] ->
  idx_ l = Z.of_nat i -> i <= length g ->
  exists s, Resume kind leaf b = Some (set_pre b s) /\ seg_rep s (take i g).
Proof.
  intros Hc Hn Hs Hne Hi Hle. unfold Resume. rewrite Hc. osimpl.
  assert (Hsk : forall l' j, seq_node_ l' = seq_node_ l -> j <= length g ->
    seek l' (Z.of_nat j) = Some (set_idx l (Z.of_nat j))).
  { intros l' j E Hj. unfold seek. rewrite (proj2 (Z.leb_le _ _)) by lia. osimpl.
    assert (En : nentries l' = nentries l) by (unfold nentries; by rewrite E).
    rewrite En, (nentries_rep _ _ _ Hn Hs). osimpl. rewrite (proj2 (Z.leb_le _ _)) by lia. osimpl.
    unfold set_idx. by rewrite E. }
  change 0%Z with (Z.of_nat 0). rewrite (Hsk l 0 eq_refl) by lia. osimpl.
  destruct (node_data_first _ _ _ Hn Hne) as [rest Hd].
  assert (Hcur : current (set_idx l (Z.of_nat 0)) = Some (concat g ++ rest)).
  { unfold current. cbn [idx_ set_idx seq_node_]. change (nentries (set_idx l (Z.of_nat 0))) with (nentries l).
    rewrite (nentries_rep _ _ _ Hn Hs). simpl (Z.of_nat 0 =? -1)%Z. osimpl.
    destruct g; [done|]. rewrite (proj2 (Z.eqb_neq _ _)) by (simpl; lia). done. }
  rewrite Hcur. osimpl. rewrite Hi.
  assert (Hback : set_idx l (Z.of_nat i) = l) by (destruct l; simpl in *; by subst).
  assert (Hset : forall s, set_pre (set_cursor b (l :: ps)) s = set_pre b s)
    by (intros s; destruct b; simpl in *; by subst).
  unfold isFixedEntryLen. destruct (bool_decide (lvl_kind kind leaf = KBlob)) eqn:Ek.
  - apply bool_decide_eq_true in Ek. rewrite Ek in Hn.
    assert (Hones : Forall (fun e => length e = 1) g) by apply (nr_entries _ _ _ Hn).
    assert (E1 : numCurrentBytes (set_idx l (Z.of_nat 0)) = Some 1).
    { destruct g as [|e g']; [done|].
      rewrite (numCurrentBytes_rep (set_idx l (Z.of_nat 0)) KBlob (e :: g') 0 e Hn Hs eq_refl eq_refl).
      apply Forall_cons in Hones as [-> _]. done. }
    rewrite E1. osimpl. rewrite (Hsk (set_idx l (Z.of_nat 0)) i eq_refl Hle). osimpl. rewrite Hback.
    rewrite (current_blob_at l g i _ Hn Hs Hne Hi Hle Hd). osimpl.
    destruct (seg_rep_prolong_fixed (mkSeg (concat g ++ rest) 0 (FixedSegment 1)) [] (take i g) 1
      (concat (drop i g) ++ rest)) as (s' & E & Hr & _ & _).
    + constructor; simpl; [by eexists|done|split; [lia|done]|constructor].
    + done.
    + by apply Forall_take.
    + simpl. rewrite app_assoc, <- concat_app, take_drop. done.
    + rewrite length_drop. rewrite (concat_fixed 1), length_take in E by (by apply Forall_take).
      replace (length (concat g ++ rest) - (length (concat g ++ rest) - i)) with (1 * (i `min` length g)).
      2:{ rewrite length_app, (concat_fixed 1) by done. lia. }
      rewrite E. osimpl. rewrite Hset. eauto.
  - rewrite Nat2Z.id.
    destruct (resume_var_rep (lvl_kind kind leaf) g ps i (set_idx l (Z.of_nat 0)) 0
      (mkSeg (concat g ++ rest) 0 (VarSegment [])) rest) as (s' & E & Hr); try done.
    + constructor; simpl; [by eexists|done|done|constructor].
    + by exists [].
    + rewrite E. osimpl. cbn [fst snd].
      change (set_idx (set_idx l (Z.of_nat 0)) (Z.of_nat (0 + i))) with (set_idx l (Z.of_nat i)).
      rewrite Hback, Hset. eauto.
Qed.

End Resume.

(** ** The state of the builders *)

Section Chain.
Context `{HashFunction} `{Uninit} {St : Type} `{ChunkStore St}.
Variable (kind : NodeKind) (lp mp : ChunkerParams) (st : St).
Implicit Types (E A : list bytes) (leaf : bool) (ht a i c j : nat) (b : Builder) (bs : list Builder).

Abbreviation knd := (lvl_kind kind).
Abbreviation prm := (lvl_params lp mp).
Abbreviation lgr := (lgroups lp mp).
Abbreviation upper := (up kind lp mp).
Abbreviation lvls := (levels (st_load st) kind lp mp).

(** A builder of the level [E]: its cursor was at entry [i] of node [a] and is
    at entry [j] of node [c], where the end of a node is a position of the last
    node only; the entries [A] were appended. *)
Record edit_at ht leaf E a i c j A b : Prop := {
  ea_cursor : exists cur, cursor_ b = Some cur /\ at_node kind lp mp ht leaf E c j cur;
  ea_first : exists g, lgr leaf E !! a = Some g /\ i <= length g /\
    match pre_cursor_seg_ b with Some s => seg_rep s (take i g) | None => g = [] end;
  ea_appended : exists qsegs ess, appended_segs_ b = Some <$> qsegs /\ segs_rep qsegs ess /\
    concat ess = A;
  ea_rhasher : rh_rep (prm leaf) (rhasher_ b) [];
  ea_normal : exists g, lgr leaf E !! c = Some g /\ (j < length g \/ S c = length (lgr leaf E))
}.

(** All builders: [x] and [y] are the first and the current position of the
    first builder.  A parent stands at the node of its child, or behind it,
    if the child has reached the end. *)
Fixpoint chain ht leaf E (x y : nat) A bs {struct bs} : Prop :=
  match bs with
  | [] => False
  | b :: ps => exists a i c j, edit_at ht leaf E a i c j A b /\
      flat (lgr leaf E) a i = x /\ flat (lgr leaf E) c j = y /\
      match ht with
      | O => ps = []
      | S ht' => exists z, (z = c \/ (z = S c /\ y = length E)) /\
          chain ht' false (upper leaf E) a z [] ps
      end
  end.

Lemma chain_cons ht leaf E x y A bs : chain ht leaf E x y A bs -> exists b ps, bs = b :: ps.
Proof. destruct bs; [done|eauto]. Qed.

(** Marking a builder does not matter. *)
Lemma edit_at_uncommited ht leaf E a i c j A b :
  edit_at ht leaf E a i c j A b -> edit_at ht leaf E a i c j A (set_uncommited b).
Proof. by intros []. Qed.

Lemma edit_at_move ht leaf E a i c j c' j' A b cur n g :
  edit_at ht leaf E a i c j A b -> at_node kind lp mp ht leaf E c' j' cur ->
  lgr leaf E !! c' = Some g -> j' < length g \/ S c' = length (lgr leaf E) ->
  edit_at ht leaf E a i c' j' A (add_skip (set_cursor b cur) n).
Proof. intros [] Hat Hg Hn. constructor; try done; eauto. Qed.

(** The number of builders. *)
Lemma chain_length ht : forall leaf E x y A bs, chain ht leaf E x y A bs -> length bs = S ht.
Proof.
  induction ht as [|ht IH]; intros leaf E x y A [|b ps]; try done;
    intros (a & i & c & j & _ & _ & _ & Hp).
  - by subst ps.
  - destruct Hp as (z & _ & Hp%IH). simpl. by rewrite Hp.
Qed.

(** The end of the level. *)
Lemma normal_end ht leaf E a i c j A b g :
  lvls ht leaf E -> edit_at ht leaf E a i c j A b -> lgr leaf E !! c = Some g -> j <= length g ->
  (j = length g <-> flat (lgr leaf E) c j = length E).
Proof.
  intros Hlv [_ _ _ _ (g' & Hg' & Hnorm)] Hg Hj. rewrite Hg in Hg'. injection Hg' as <-.
  rewrite <- (lgroups_concat lp mp leaf E) at 2. split.
  - intros ->. destruct Hnorm; [lia|]. by apply flat_last.
  - intros Hfl. destruct (decide (j < length g)) as [Hlt|]; [|lia].
    pose proof (flat_lt _ _ _ _ Hg Hlt). lia.
Qed.

(** *** [SkipEntries] *)

(** Its loop. *)
Definition skip_loop (skip : list Builder -> option (nat * list Builder)) (n : nat) b :
    nat -> nat -> NodeCursor -> list Builder -> option (nat * list Builder) :=
  fix loop (todo i : nat) (c : NodeCursor) (ps : list Builder) : option (nat * list Builder) :=
     match todo, c with
     | O, _ => Some (n, add_skip (set_cursor b c) n :: ps)
     | S todo', l :: cps =>
         r ← advance_here l;
         let c' := snd r :: cps in
         if fst r : bool then loop todo' (S i) c' ps
         else
           rp ← match ps with
                | [] => Some (true, [])
                | _ :: _ =>
                    q ← skip ps;
                    p ← head (snd q);
                    pc ← cursor_ p;
                    pl ← head pc;
                    pe ← isEnd pl;
                    Some (pe, snd q)
                end;
           if fst rp : bool then
             e ← isEnd (snd r);
             CHECK e;;
             Some (i, add_skip (set_cursor b c') i :: snd rp)
           else
             ra ← Advance (st_load st) true c';
             CHECK (fst ra);;
             loop todo' (S i) (snd ra) (snd rp)
     | _, [] => None
     end.

Lemma SkipEntries_eq fuel n b ps :
  SkipEntries (S fuel) st n (b :: ps) =
  match cursor_ (set_uncommited b) with
  | None => Some (0, set_uncommited b :: ps)
  | Some c => l ← head c; e ← isEnd l;
      if e : bool then Some (0, set_uncommited b :: ps)
      else skip_loop (SkipEntries fuel st 1) n (set_uncommited b) n 1 c ps
  end.
Proof. reflexivity. Qed.

(** The position after skipping [n] entries. *)
Definition skipped E y n : nat := Nat.min (y + n) (length E).

Definition skips ht leaf E x y A (r : option (nat * list Builder)) : Prop :=
  exists m b ps, r = Some (m, b :: ps) /\ commited_ b = false /\ chain ht leaf E x y A (b :: ps).

(** What a call on the parents does. *)
Definition parents_skip ht leaf E (skip : list Builder -> option (nat * list Builder)) : Prop :=
  match ht with
  | O => True
  | S ht' => lvls ht' false (upper leaf E) /\ forall x y ps,
      chain ht' false (upper leaf E) x y [] ps -> y <= length (upper leaf E) ->
      skips ht' false (upper leaf E) x (skipped (upper leaf E) y 1) [] (skip ps)
  end.

(** Where the first builder of a chain stands. *)
Lemma chain_isEnd ht leaf E x y A b ps :
  lvls ht leaf E -> chain ht leaf E x y A (b :: ps) ->
  exists cur l, cursor_ b = Some cur /\ head cur = Some l /\ isEnd l = Some (bool_decide (y = length E)).
Proof.
  intros Hlv (a & i & c & j & He & _ & Hy & _). pose proof He as [(cur & Hc & Hat) _ _ _ (g & Hg & _)].
  destruct (at_node_inv _ _ _ _ _ _ _ _ _ Hat) as (l & cps & g' & -> & Hg' & _ & _ & Hj).
  rewrite Hg in Hg'. injection Hg' as <-.
  destruct (at_node_count _ _ _ _ _ _ _ _ _ _ _ _ Hlv Hat Hg) as (_ & _ & Hend).
  exists (l :: cps), l. split_and!; [done|done|]. rewrite Hend. f_equal. subst y.
  pose proof (normal_end _ _ _ _ _ _ _ _ _ _ Hlv He Hg Hj). by apply bool_decide_ext.
Qed.

(** The parents of a level while the cursor is in node [c]. *)
Definition parents_at ht leaf E a c (ps : list Builder) : Prop :=
  match ht with
  | O => ps = []
  | S ht' => chain ht' false (upper leaf E) a c [] ps
  end.

Lemma skips_done ht leaf E a i c j c' j' A b cur n g ps :
  edit_at ht leaf E a i c j A b -> commited_ b = false ->
  at_node kind lp mp ht leaf E c' j' cur -> lgr leaf E !! c' = Some g ->
  j' < length g \/ S c' = length (lgr leaf E) ->
  (match ht with
   | O => ps = []
   | S ht' => exists z, (z = c' \/ (z = S c' /\ flat (lgr leaf E) c' j' = length E)) /\
       chain ht' false (upper leaf E) a z [] ps
   end) ->
  skips ht leaf E (flat (lgr leaf E) a i) (flat (lgr leaf E) c' j') A
    (Some (n, add_skip (set_cursor b cur) n :: ps)).
Proof.
  intros He Hb Hat Hg Hn Hps. eexists _, _, _. split_and!; [done|done|].
  exists a, i, c', j'. split_and!; [by eapply edit_at_move|done|done|exact Hps].
Qed.

Lemma skip_loop_rep ht leaf E a i c0 j0 A b skip n :
  lvls ht leaf E -> parents_skip ht leaf E skip -> E <> [] ->
  edit_at ht leaf E a i c0 j0 A b -> commited_ b = false ->
  forall todo k c j g cur ps,
    at_node kind lp mp ht leaf E c j cur -> lgr leaf E !! c = Some g -> j < length g ->
    parents_at ht leaf E a c ps ->
    skips ht leaf E (flat (lgr leaf E) a i) (skipped E (flat (lgr leaf E) c j) todo) A
      (skip_loop skip n b todo k cur ps).
Proof.
  intros Hlv Hsk HE He Hb. induction todo as [|todo IH]; intros k c j g cur ps Hat Hg Hj Hps.
  - unfold skipped. pose proof (flat_bound _ _ _ _ Hg (Nat.lt_le_incl _ _ Hj)) as Hbd.
    rewrite lgroups_concat in Hbd. rewrite Nat.add_0_r, Nat.min_l by done. cbn [skip_loop].
    eapply skips_done; [exact He|done|exact Hat|exact Hg|by left|].
    destruct ht; [done|]. exists c. split; [by left|exact Hps].
  - destruct (at_node_inv _ _ _ _ _ _ _ _ _ Hat) as (l & cps & g' & -> & Hg' & Hn & Hi & _).
    rewrite Hg in Hg'. injection Hg' as <-.
    destruct (at_node_count _ _ _ _ _ _ _ _ _ _ _ _ Hlv Hat Hg) as (_ & Hne & _).
    cbn [skip_loop]. destruct (decide (S j < length g)) as [Hin|Hout].
    { (* the next entry of the node *)
      rewrite (advance_here_in l (length g) j Hne Hi Hin). osimpl. cbn [fst snd].
      pose proof (at_node_seek _ _ _ _ _ _ _ _ (S j) _ _ _ Hat Hg ltac:(lia)) as Hat'.
      pose proof (IH (S k) c (S j) g _ ps Hat' Hg Hin Hps) as G. unfold skipped, flat in *.
      by rewrite Nat.add_succ_r, <- Nat.add_succ_l, <- Nat.add_succ_r. }
    rewrite (advance_here_out l (length g) j Hne Hi) by lia. osimpl. cbn [fst snd].
    pose proof (at_node_seek _ _ _ _ _ _ _ _ (length g) _ _ _ Hat Hg ltac:(lia)) as Hat'.
    destruct (at_node_count _ _ _ _ _ _ _ _ _ _ _ _ Hlv Hat' Hg) as (_ & _ & Hend).
    rewrite bool_decide_true in Hend by done. pose proof (lookup_lt_Some _ _ _ Hg) as Hclt.
    assert (Hlast : S c = length (lgr leaf E) -> skipped E (flat (lgr leaf E) c j) (S todo) = flat (lgr leaf E) c (length g)
                      /\ flat (lgr leaf E) c (length g) = length E).
    { intros Hl. pose proof (flat_last _ _ _ Hg Hl) as Hfl. rewrite lgroups_concat in Hfl.
      split; [|done]. unfold skipped. rewrite Hfl. unfold flat in *. lia. }
    destruct ht as [|ht].
    + (* the root *)
      destruct Hlv as (_ & _ & _ & g' & Eg). simpl in Hps. subst ps. osimpl. cbn [fst snd].
      rewrite Hend. osimpl. destruct Hlast as [-> _]; [rewrite Eg in Hclt |- *; simpl in *; lia|].
      eapply skips_done; [exact He|done|exact Hat'|exact Hg| |done]. right. rewrite Eg in Hclt |- *. simpl in *. lia.
    + destruct Hsk as [Hlv' Hsk].
      assert (Hcu : c < length (upper leaf E)) by (by rewrite length_up).
      destruct ps as [|p0 ps0]; [done|].
      destruct (Hsk a c (p0 :: ps0) Hps ltac:(lia)) as (m & p & ps' & -> & _ & Hch). osimpl. cbn [snd head]. osimpl.
      assert (Es : skipped (upper leaf E) c 1 = S c) by (unfold skipped; lia). rewrite Es in Hch.
      destruct (chain_isEnd _ _ _ _ _ _ _ _ Hlv' Hch) as (pc & pl & -> & Hpl & Hpe). osimpl.
      rewrite Hpl. osimpl. rewrite Hpe. osimpl. cbn [fst snd].
      destruct (decide (S c = length (upper leaf E))) as [Hl|Hl].
      * rewrite bool_decide_true by done. rewrite Hend. osimpl. rewrite length_up in Hl.
        destruct (Hlast Hl) as [-> Hfin].
        eapply skips_done; [exact He|done|exact Hat'|exact Hg|by right|]. exists (S c). split; [by right|exact Hch].
      * rewrite bool_decide_false by done.
        destruct (Advance_node _ _ _ _ _ _ _ _ _ _ _ _ Hlv Hat' Hg ltac:(lia)) as [HA _].
        rewrite length_up in Hl, Hcu. destruct HA as (cur' & -> & Hat2); [lia|]. osimpl. cbn [fst snd].
        destruct (lookup_lt_is_Some_2 (lgr leaf E) (S c) ltac:(lia)) as [g2 Hg2].
        pose proof (Forall_lookup_1 _ _ _ _ (lgroups_ne lp mp leaf E HE) Hg2) as Hg20. simpl in Hg20.
        pose proof (IH (S k) (S c) 0 g2 cur' (p :: ps') Hat2 Hg2 ltac:(destruct g2; [done|simpl; lia]) Hch) as G.
        rewrite (flat_next _ _ _ Hg) in G. unfold skipped, flat in *.
        replace (length (concat (take c (lgr leaf E))) + j + S todo)
          with (length (concat (take c (lgr leaf E))) + length g + todo) by lia. exact G.
Qed.

Lemma parents_at_chain ht leaf E a c z y (ps : list Builder) :
  (match ht with
   | O => ps = []
   | S ht' => exists z, (z = c \/ (z = S c /\ y = length E)) /\ chain ht' false (upper leaf E) a z [] ps
   end) -> z = y -> z <> length E -> parents_at ht leaf E a c ps.
Proof. intros Hp -> Hy. destruct ht; [done|]. destruct Hp as (z & [->|[_ ?]] & Hch); done. Qed.

(** [SkipEntries] moves the cursor by [n] entries, but not over the end. *)
Lemma SkipEntries_rep ht : forall leaf E x y A bs n fuel,
  lvls ht leaf E -> chain ht leaf E x y A bs -> length bs <= fuel -> y <= length E ->
  skips ht leaf E x (skipped E y n) A (SkipEntries fuel st n bs).
Proof.
  induction ht as [|ht IH]; intros leaf E x y A bs n fuel Hlv Hch Hf Hy;
    (destruct bs as [|b ps]; [done|]); (destruct fuel as [|fuel]; [simpl in Hf; lia|]);
    rewrite SkipEntries_eq; cbn [cursor_ set_uncommited];
    destruct (chain_isEnd _ _ _ _ _ _ _ _ Hlv Hch) as (cur & l & Hcur & Hl & Hend);
    rewrite Hcur; osimpl; rewrite Hl; osimpl; rewrite Hend; osimpl;
    pose proof Hch as (a & i & c & j & He & Hx & Hy' & Hp);
    (destruct (decide (y = length E)) as [Hyl|Hyl];
      [rewrite bool_decide_true by done; exists 0, (set_uncommited b), ps; split_and!; [done|done|];
       exists a, i, c, j; rewrite Hyl; unfold skipped; replace (_ `min` _) with y by lia;
       split_and!; [by apply edit_at_uncommited|done|done|rewrite Hyl in *; exact Hp]
      |rewrite bool_decide_false by done]);
    pose proof He as [(cur' & Hcur' & Hat) _ _ _ (g & Hg & Hnorm)];
    rewrite Hcur in Hcur'; injection Hcur' as <-;
    destruct (at_node_inv _ _ _ _ _ _ _ _ _ Hat) as (l' & cps & g' & -> & Hg' & _ & _ & Hj);
    rewrite Hg in Hg'; injection Hg' as <-; subst x y;
    (assert (Hjl : j < length g) by
      (pose proof (normal_end _ _ _ _ _ _ _ _ _ _ Hlv He Hg Hj); destruct (decide (j = length g)); [tauto|lia]));
    (assert (HE : E <> []) by (intros ->; simpl in *; lia)).
  - eapply skip_loop_rep; [done|done|done|by apply edit_at_uncommited|done|exact Hat|exact Hg|done|exact Hp].
  - pose proof Hlv as (_ & _ & _ & _ & Hlv').
    eapply skip_loop_rep; [done| |done|by apply edit_at_uncommited|done|exact Hat|exact Hg|done|].
    + split; [done|]. intros x' y' ps' Hch' Hy''.
      apply (IH false (upper leaf E) x' y' [] ps' 1 fuel Hlv' Hch'); [|done].
      rewrite (chain_length _ _ _ _ _ _ _ Hch'). apply chain_length in Hch. simpl in *. lia.
    + by eapply (parents_at_chain (S ht)); [exact Hp|reflexivity|].
Qed.

End Chain.

(** ** The builders of a cursor *)

Section OfCursor.
Context `{HashFunction} `{Uninit}.
Variable (kind : NodeKind) (lp mp : ChunkerParams) (get : Hash -> option Chunk).

(** The builder of one level, before anything is skipped or appended. *)
Lemma own_builder ht leaf E c j l ps g :
  levels get kind lp mp ht leaf E -> at_node kind lp mp ht leaf E c j (l :: ps) ->
  lgroups lp mp leaf E !! c = Some g -> j < length g \/ S c = length (lgroups lp mp leaf E) ->
  params_ok (lvl_params lp mp leaf) ->
  let b := mkNB (Some (l :: ps)) [] None (lvl_rhasher lp mp leaf) true 0 in
  exists b', (if 0 <? length g then Resume kind leaf b else Some b) = Some b' /\
    commited_ b' = true /\ edit_at kind lp mp ht leaf E c j c j [] b'.
Proof.
  intros Hlv Hat Hg Hnorm Hp b.
  destruct (at_node_inv _ _ _ _ _ _ _ _ _ Hat) as (l' & ps' & g' & [= <- <-] & Hg' & Hn & Hi & Hj).
  rewrite Hg in Hg'. injection Hg' as <-.
  destruct (group_ok _ _ _ _ _ _ _ _ _ Hlv Hg) as (_ & _ & Hs & _).
  assert (Hbase : forall b', cursor_ b' = Some (l :: ps) -> appended_segs_ b' = [] ->
    rhasher_ b' = lvl_rhasher lp mp leaf ->
    match pre_cursor_seg_ b' with Some s => seg_rep s (take j g) | None => g = [] end ->
    edit_at kind lp mp ht leaf E c j c j [] b').
  { intros b' Hc Ha Hr Hpre. constructor.
    - by exists (l :: ps).
    - by exists g.
    - exists [], []. rewrite Ha. repeat split; constructor.
    - rewrite Hr. by apply fresh_rhasher.
    - by exists g. }
  destruct (Nat.ltb_spec 0 (length g)) as [Hlt|Hge].
  - destruct (Resume_rep kind leaf b l ps g j eq_refl Hn Hs) as (s & -> & Hr);
      [intros ->; simpl in Hlt; lia|done|done|]. exists (set_pre b s). split_and!; [done|done|by apply Hbase].
  - exists b. split_and!; [done|done|]. apply Hbase; try done. destruct g; [done|simpl in *; lia].
Qed.

Lemma builder_of_cursor_rep ht : forall leaf E c j cur g,
  levels get kind lp mp ht leaf E -> at_node kind lp mp ht leaf E c j cur ->
  lgroups lp mp leaf E !! c = Some g -> j < length g \/ S c = length (lgroups lp mp leaf E) ->
  params_ok (lvl_params lp mp leaf) -> params_ok mp ->
  exists b ps, builder_of_cursor kind lp mp leaf cur = Some (b :: ps) /\ commited_ b = true /\
    chain kind lp mp ht leaf E (flat (lgroups lp mp leaf E) c j) (flat (lgroups lp mp leaf E) c j) [] (b :: ps).
Proof.
  induction ht as [|ht IH]; intros leaf E c j [|l cps] g Hlv Hat Hg Hnorm Hp Hmp; try done;
    destruct (own_builder _ _ _ _ _ _ _ _ Hlv Hat Hg Hnorm Hp) as (b' & Hb' & Hcm & Hed);
    destruct (at_node_count _ _ _ _ _ _ _ _ _ _ _ _ Hlv Hat Hg) as (Hne & _ & _);
    pose proof Hat as (_ & _ & Hps); cbn [builder_of_cursor].
  - simpl in Hps. subst cps. cbn [builder_of_cursor]. osimpl. rewrite Hne. osimpl.
    rewrite Hb'. osimpl. exists b', []. split_and!; [done|done|]. by exists c, j, c, j.
  - destruct Hps as (c' & j' & g' & Hg' & Hj' & Hfl & Hat'). pose proof Hlv as (_ & _ & _ & _ & Hlv').
    destruct (IH false (up kind lp mp leaf E) c' j' cps g' Hlv' Hat' Hg' (or_introl Hj') Hmp Hmp)
      as (p & ps & -> & _ & Hch). osimpl. rewrite Hne. osimpl. rewrite Hb'. osimpl.
    exists b', (p :: ps). split_and!; [done|done|]. exists c, j, c, j. split_and!; [done|done|done|].
    exists c. split; [by left|]. by rewrite Hfl in Hch.
Qed.

End OfCursor.
