(* ===== verification/EditCommit.v ===== *)
(** * Committing an edit, level by level

    [RecursiveCommit] on the builders of an edit: the nodes that it makes of a
    level are the groups of the new sequence of the level that are not groups
    of the old one, from the node in which the edit begins to the first old
    node at whose end the new sequence has a boundary too; and the builder of
    the level above has exactly the entries of these nodes replaced. *)

From S2P Require Import Prelude Types Slice HashVal Chunk RollingHash Node NodeSearch Chunker.
From S2P Require Import Canonical Leaf Store Cursor Builder Build Tree CursorProps.
From S2P Require Import Recut LevelCursor EditChain.

(** Nodes stay stored when a store grows. *)
Section Keep.
Context `{HashFunction} {St : Type} `{ChunkStoreSpec St}.

Definition kept (st st' : St) : Prop :=
  forall x, stored (st_load st) x -> stored (st_load st') x.

#[export] Instance kept_preorder : PreOrder kept.
Proof. unfold kept. split; [by intros s x|]. intros s1 s2 s3 H12 H23 x Hx. auto. Qed.

Lemma put_kept st h c : kept st (snd (cs_Put st h c)).
Proof.
  intros x (ch & Hg & Hch). destruct (cs_Put st h c) as [ok st'] eqn:E.
  assert (Hsub : contents st ⊆ contents st').
  { destruct ok; [|by rewrite (Put_false _ _ _ _ E)]. rewrite (Put_spec _ _ _ _ E).
    case_decide as Hd; [done|]. apply insert_subseteq. by apply eq_None_not_Some. }
  unfold st_load in *. cbn [hash_empty negb] in *. osimpl in Hg. rewrite Get_spec in Hg.
  destruct (contents st !! Some _) as [c0|] eqn:E0.
  - simpl in Hg. injection Hg as ->. exists ch. osimpl. rewrite Get_spec. cbn [snd].
    by rewrite (lookup_weaken _ _ _ _ E0 Hsub).
  - simpl in Hg. injection Hg as <-. destruct Hch as [[r Hr] _ _]. done.
Qed.

End Keep.

Section PutKept.
Context `{HashFunction} `{Uninit} {St : Type} `{ChunkStoreSpec St}.

Lemma put_nodes_kept k (st : St) gs : kept st (put_nodes k st gs).
Proof.
  revert st. induction gs as [|g gs IH]; intros st; [by intros x|].
  cbn [put_nodes fold_left]. etransitivity; [apply put_kept|]. apply IH.
Qed.

Lemma levels_kept kind lp mp (st st' : St) ht : forall leaf E,
  kept st st' -> levels (st_load st) kind lp mp ht leaf E -> levels (st_load st') kind lp mp ht leaf E.
Proof.
  induction ht as [|ht IH]; intros leaf E Hk (Hl & Hs & Hst & Hp); (split; [done|]); (split; [done|]);
    (split; [eapply Forall_impl; [exact Hst|exact Hk]|]).
  - exact Hp.
  - destruct Hp as [? Hp]. split; [done|]. by apply IH.
Qed.

End PutKept.

Lemma level_ok_app B K k p x y :
  level_ok B K k p (x ++ y) -> level_ok B K k p x /\ level_ok B K k p y.
Proof.
  intros [[Hx Hy]%entries_ok_app [Bx By]%Forall_app Hp Hsz Hc [H8 Hk]]. rewrite length_app in Hc.
  split; (constructor; [done|done|done|done|lia|split; [done|]; intros e key He; apply Hk, elem_of_app; auto]).
Qed.

Section EditCommit.
Context `{HashFunction} `{Uninit} {St : Type} `{ChunkStoreSpec St}.
Variable (kind : NodeKind) (lp mp : ChunkerParams).
Implicit Types (st : St) (E A : list bytes) (leaf : bool) (ht a c j : nat) (gs : list (list bytes)).

Abbreviation knd := (lvl_kind kind).
Abbreviation prm := (lvl_params lp mp).
Abbreviation lgr := (lgroups lp mp).
Abbreviation upper := (up kind lp mp).
Abbreviation fresh := (fresh_parent lp mp).

(** ** The parents while a level is committed *)

(** They have the entries [A] to add, and stand at [z]; above the root there is
    a builder without a tree. *)
Definition parents_do ht leaf E a z A (ps : list Builder) : Prop :=
  match ht with
  | O => ps = [append_segs fresh (Some <$> (meta_segment <$> A))]
  | S ht' => exists p ps', ps = p :: ps' /\ commited_ p = false /\
      chain kind lp mp ht' false (upper leaf E) a z A (p :: ps')
  end.

Lemma parents_do_ready ht leaf E a z A s :
  parents_do ht leaf E a z A (cs_parents s) -> ready (St := St) s.
Proof.
  unfold parents_do, ready. destruct ht.
  - intros ->. by eexists _, _.
  - intros (p & ps & -> & Hc & _). eauto.
Qed.

Lemma chain_append ht leaf E x y A b ps qsegs ess :
  chain kind lp mp ht leaf E x y A (b :: ps) -> segs_rep qsegs ess ->
  chain kind lp mp ht leaf E x y (A ++ concat ess) (append_segs b (Some <$> qsegs) :: ps).
Proof.
  intros (a & i & c & j & [Hc Hf (q & e & Ha & Hs & <-) Hr Hn] & Hx & Hy & Hp) Hq.
  exists a, i, c, j. split_and!; [|done|done|exact Hp]. constructor; try done.
  exists (q ++ qsegs), (e ++ ess). split_and!.
  - simpl. by rewrite Ha, fmap_app.
  - by apply Forall2_app.
  - by rewrite concat_app.
Qed.

Lemma parents_do_append ht leaf E a z A p ps k gs :
  parents_do ht leaf E a z A (p :: ps) -> Forall (fun e => e <> []) (metas k gs) ->
  parents_do ht leaf E a z (A ++ metas k gs) (append_segs p (meta_segs k gs) :: ps).
Proof.
  intros Hp Hne. rewrite meta_segs_some. destruct (meta_segs_rep _ Hne) as [Hs Hc].
  unfold parents_do in *. destruct ht.
  - injection Hp as -> ->. by rewrite append_segs_app, <- !fmap_app.
  - destruct Hp as (p' & ps' & [= <- <-] & Hcm & Hch). eexists _, _. split_and!; [done|done|].
    rewrite <- Hc at 1. by apply chain_append.
Qed.

(** [parent_builder()->SkipEntries(1)]. *)
Lemma skip_chain st ht leaf E a z A ps :
  levels (st_load st) kind lp mp ht leaf E -> chain kind lp mp ht leaf E a z A ps -> z <= length E ->
  exists p ps', skip_parent lp mp st ps = Some (p :: ps') /\ commited_ p = false /\
    chain kind lp mp ht leaf E a (skipped E z 1) A (p :: ps').
Proof.
  intros Hlv Hch Hz. unfold skip_parent.
  assert (Hpb : parent_builder lp mp ps = ps) by (by destruct ps). rewrite Hpb.
  destruct (SkipEntries_rep kind lp mp st ht leaf E a z A ps 1 (length ps) Hlv Hch (le_n _) Hz)
    as (m & p & ps' & -> & Hc & Hch'). by exists p, ps'.
Qed.

Lemma skip_parent_rep st ht leaf E a z A ps :
  levels (st_load st) kind lp mp ht leaf E -> parents_do ht leaf E a z A ps -> z <= length (upper leaf E) ->
  exists ps', skip_parent lp mp st ps = Some ps' /\
    parents_do ht leaf E a (skipped (upper leaf E) z 1) A ps'.
Proof.
  intros Hlv Hp Hz. destruct ht as [|ht].
  - simpl in Hp. subst ps. eexists. split; [done|]. done.
  - destruct Hp as (p & ps' & -> & _ & Hch). pose proof Hlv as (_ & _ & _ & _ & Hlv').
    destruct (skip_chain st ht _ _ _ _ _ _ Hlv' Hch Hz) as (p2 & ps2 & -> & Hc & Hch2).
    eexists. split; [done|]. by exists p2, ps2.
Qed.

(** ** The second loop of [RecursiveCommit] *)

Definition open_group (lo : list bytes) : list (list bytes) := match lo with [] => [] | _ => [lo] end.

Lemma close_open gs lo : close (gs, lo) = gs ++ open_group lo.
Proof. destruct lo; simpl; [by rewrite app_nil_r|done]. Qed.

Lemma metas_ne k gs : Forall (fun g => mi_ok (meta_of k g)) gs -> Forall (fun e => e <> []) (metas k gs).
Proof.
  intros Hm. unfold metas. apply Forall_fmap. eapply Forall_impl; [exact Hm|]. intros g Hg. simpl.
  intros E. assert (Hlen : length (mi_bytes (meta_of k g)) = 0) by (by rewrite E).
  rewrite length_mi_bytes in Hlen by apply Hg. unfold kKeyOffset in Hlen. lia.
Qed.

(** What the loop makes of the entries [R] that are left: new nodes, up to the
    end of an old node [c'], and possibly an open group at the end. *)
Definition cursor_result ht leaf E a A (s : CommitState St) (R : list bytes)
    (r : option (CommitState St * list Segment)) : Prop :=
  exists s' segs' gs lo c', r = Some (s', segs') /\ pending segs' lo /\
    groups (prm leaf) R = gs ++ open_group lo ++ drop (S c') (lgr leaf E) /\
    c' < length (lgr leaf E) /\
    parents_do ht leaf E a (S c') (A ++ metas (knd leaf) gs) (cs_parents s') /\
    cs_store s' = put_nodes (knd leaf) (cs_store s) gs /\
    cs_last s' = last_chunk (knd leaf) gs (cs_last s) /\
    (gs ++ open_group lo <> [] \/ R = []) /\
    (lo <> [] -> S c' = length (lgr leaf E) /\ exists l ps, cursor_ (cs_builder s') = Some (l :: ps) /\
       isEnd l = Some true /\
       Advance (st_load (cs_store s')) true (l :: ps) = Some (false, l :: ps)).

Lemma cursor_result_next ht leaf E a A s rh g R R' r :
  cursor_result ht leaf E a (A ++ metas (knd leaf) [g]) (after kind leaf s rh [g]) R' r ->
  groups (prm leaf) R = g :: groups (prm leaf) R' -> cursor_result ht leaf E a A s R r.
Proof.
  intros (s' & segs' & gs & lo & c' & -> & Hpd & Hg & Hc & Hp & Hst & Hla & _ & Hend) Eg.
  exists s', segs', (g :: gs), lo, c'. split_and!; try done; [..|by left].
  - by rewrite Eg, Hg.
  - by rewrite <- app_assoc in Hp.
  - rewrite Hla. cbn [cs_last after]. unfold last_chunk. rewrite (last_cons g gs). by destruct (last gs).
Qed.

(** One node is made. *)
Lemma HandleBoundary_edit ht leaf E a z A s segs g :
  parents_do ht leaf E a z A (cs_parents s) -> pending segs g -> g <> [] ->
  entries_ok (knd leaf) g -> size_ok g ->
  let s' := after kind leaf s (rh_ClearLastBoundary (rhasher_ (cs_builder s))) [g] in
  HandleBoundary kind lp mp leaf s segs = Some s' /\
  parents_do ht leaf E a z (A ++ metas (knd leaf) [g]) (cs_parents s').
Proof.
  intros Hp Hpd Hne Hok Hsz s'. split.
  - apply HandleBoundary_rep; [by eapply parents_do_ready|done|done|done|done].
  - cbn [cs_parents after s'].
    destruct (parents_do_ready _ _ _ _ _ _ _ Hp) as (p & ps & E' & _). rewrite E' in *.
    apply parents_do_append; [done|]. apply metas_ne. constructor; [|constructor].
    apply meta_of_ok; [apply Hok|done].
Qed.

(** The rest of a level after the end of one of its nodes. *)
Lemma groups_rest leaf E c :
  E <> [] -> groups (prm leaf) (concat (drop c (lgr leaf E))) = drop c (lgr leaf E).
Proof.
  intros Hne. unfold lgroups. destruct (level_groups_nonempty (prm leaf) E Hne) as [-> _].
  apply groups_drop.
Qed.

Lemma commit_cursor_rep ht leaf E a fuel : forall s A segs pend seg es1 c j l ps g B K,
  levels (st_load (cs_store s)) kind lp mp ht leaf E ->
  cursor_ (cs_builder s) = Some (l :: ps) -> at_node kind lp mp ht leaf E c j (l :: ps) ->
  lgr leaf E !! c = Some g -> j < length g ->
  seg_rep seg es1 -> es1 <> [] ->
  parents_do ht leaf E a (S c) A (cs_parents s) ->
  rh_rep (prm leaf) (rhasher_ (cs_builder s)) (concat pend) -> pending segs pend ->
  find_boundary (prm leaf) [] (concat pend) = None ->
  let R := pend ++ es1 ++ concat (drop (S c) (lgr leaf E)) in
  level_ok B K (knd leaf) (prm leaf) R ->
  length (es1 ++ concat (drop (S c) (lgr leaf E))) < fuel ->
  cursor_result ht leaf E a A s R (commit_cursor kind lp mp fuel leaf s segs seg).
Proof.
  induction fuel as [|fuel IH]; intros s A segs pend seg es1 c j l ps g B K Hlv Hcur Hat Hg Hj Hs Hne1 Hpar
    Hrh Hpd Hnb R Hok Hf; [lia|].
  cbn [commit_cursor]. rewrite (seg_rep_bytes _ _ Hs). osimpl.
  pose proof (rh_TryHashBytes_spec _ _ _ (concat es1) Hrh) as HT.
  pose proof (lookup_lt_Some _ _ _ Hg) as Hclt.
  assert (HE : E <> []).
  { intros ->. unfold lgroups, level_groups in Hg. destruct c; [|done]. injection Hg as <-. simpl in Hj. lia. }
  pose proof (level_sizes _ _ _ _ _ Hok) as [Hsz _]. pose proof (lo_count _ _ _ _ _ Hok) as Hcnt.
  rewrite (sr_num _ _ Hs).
  destruct (find_boundary (prm leaf) (concat pend) (concat es1)) as [k|] eqn:Hfb.
  - (* a boundary in the rest of the node *)
    destruct HT as (rh & -> & Hcr & Hclr). cbv beta iota zeta.
    pose proof Hfb as (Hk & _)%find_boundary_Some. pose proof (entry_at_lt _ _ Hk) as Hel.
    rewrite (proj2 (Nat.eqb_neq _ _)) by lia. set (jj := S (entry_at es1 k)).
    assert (Hl1 : length es1 <= length R) by (subst R; rewrite !length_app; lia).
    rewrite (seg_rep_PosToIdx _ es1) by (done || (rewrite (sr_num _ _ Hs); done) || lia). osimpl.
    rewrite (seg_rep_numEntries _ _ Hs), (proj2 (Z.ltb_lt _ _)) by lia. osimpl.
    rewrite (wrap_small 64) by lia.
    replace (Z.to_nat (Z.of_nat (entry_at es1 k) + 1)) with jj by lia.
    destruct (seg_rep_Split seg es1 jj Hs Hne1) as (s1 & s2 & -> & Hs1 & Hs2); [lia|]. osimpl. cbn [fst snd].
    subst R. rewrite (groups_boundary _ _ _ _ _ Hnb Hfb) in Hsz. fold jj in Hsz.
    pose proof (groups_boundary _ _ _ (concat (drop (S c) (lgr leaf E))) _ Hnb Hfb) as Hgb. fold jj in Hgb.
    apply Forall_cons in Hsz as [Hszg _].
    assert (Hes : pend ++ es1 ++ concat (drop (S c) (lgr leaf E))
      = (pend ++ take jj es1) ++ (drop jj es1 ++ concat (drop (S c) (lgr leaf E)))).
    { rewrite <- app_assoc, (app_assoc (take _ _)), take_drop. done. }
    rewrite Hes in Hok. apply level_ok_app in Hok as [Hokg Hok].
    assert (Htk : take jj es1 <> []) by (destruct es1; [simpl in Hel; lia|done]).
    set (sh := mkCS (set_rhasher (cs_builder s) rh) (cs_parents s) (cs_store s) (cs_last s)).
    destruct (HandleBoundary_edit ht leaf E a (S c) A sh (segs ++ [s1]) (pend ++ take jj es1))
      as [-> Hpar']; [done|by apply pending_snoc|by intros [_ ?]%app_eq_nil|apply Hokg|done|].
    osimpl. destruct (decide (drop jj es1 = [])) as [Hd|Hd].
    + (* at the end of the node: the rest of the level stays *)
      assert (Hlen : length es1 <= jj).
      { destruct (decide (length es1 <= jj)) as [|Hn]; [done|].
        apply (f_equal length) in Hd. rewrite length_drop in Hd. simpl in Hd. lia. }
      rewrite (proj2 (Z.eqb_eq _ _)) by lia.
      eexists _, [], [_], [], c. split_and!; [done|apply pending_nil| |done|exact Hpar'|done|done|by left|done].
      rewrite Hgb, Hd. cbn [app open_group]. f_equal. by apply groups_rest.
    + assert (Hlen : jj < length es1).
      { destruct (decide (jj < length es1)) as [|Hn]; [done|]. by rewrite drop_ge in Hd by lia. }
      rewrite (proj2 (Z.eqb_neq _ _)) by lia.
      apply (cursor_result_next ht leaf E a A s (rh_ClearLastBoundary rh) (pend ++ take jj es1) _
        (drop jj es1 ++ concat (drop (S c) (lgr leaf E)))); [|done].
      apply (IH _ _ [] [] s2 (drop jj es1) c j l ps g B K); try done.
      * eapply levels_kept; [|exact Hlv]. apply (put_nodes_kept (knd leaf) (cs_store s) [_]).
      * apply pending_nil.
      * rewrite length_app, length_drop. rewrite length_app in Hf. lia.
  - (* no boundary in the rest of the node *)
    destruct HT as (rh & -> & Hrh'). cbv beta iota zeta. rewrite Nat.eqb_refl.
    unfold rh_CrossedBoundary. rewrite (rr_crossed _ _ _ Hrh'). osimpl. cbn [cs_store cs_parents cs_builder cs_last].
    destruct (skip_parent_rep (cs_store s) ht leaf E a (S c) A (cs_parents s) Hlv Hpar)
      as (ps' & -> & Hpar'); [rewrite length_up; lia|]. osimpl.
    cbn [cursor_ set_rhasher]. rewrite Hcur. osimpl. cbn [head]. osimpl.
    destruct (at_node_count _ _ _ _ _ _ _ _ _ _ _ _ Hlv Hat Hg) as (Hne & _ & _). rewrite Hne. osimpl.
    destruct (AdvanceEntry_node _ _ _ _ _ _ _ _ _ _ _ _ Hlv Hat Hg Hj) as [HA1 HA2].
    assert (Hpd' : pending (segs ++ [seg]) (pend ++ es1)) by (by apply pending_snoc).
    assert (Hnb' : find_boundary (prm leaf) [] (concat (pend ++ es1)) = None)
      by (rewrite concat_app, find_boundary_app, Hnb; simpl; by rewrite Hfb).
    destruct (decide (S c < length (lgr leaf E))) as [Hmore|Hlast].
    + (* on to the next node *)
      destruct (HA1 Hmore) as (cur' & r & -> & Hat'). osimpl. cbn [snd].
      destruct (at_node_inv _ _ _ _ _ _ _ _ _ Hat') as (l' & cps & g2 & -> & Hg2 & Hn2 & Hi2 & _).
      cbn [head]. osimpl. destruct (at_node_count _ _ _ _ _ _ _ _ _ _ _ _ Hlv Hat' Hg2) as (Hne2 & _ & ->).
      osimpl. rewrite Hne2. osimpl. rewrite Hi2, Nat2Z.id.
      pose proof (Forall_lookup_1 _ _ _ _ (lgroups_ne lp mp leaf E HE) Hg2) as Hg20. simpl in Hg20.
      assert (Hg2l : 0 < length g2) by (destruct g2; [done|simpl; lia]).
      rewrite bool_decide_false by lia.
      destruct (GetSegment_rep _ _ _ 0 (length g2) Hn2 Hg2l (le_n _)) as (seg' & -> & Hs' & _). osimpl.
      rewrite drop_0, take_ge in Hs' by lia.
      assert (ER : R = (pend ++ es1) ++ g2 ++ concat (drop (S (S c)) (lgr leaf E))).
      { subst R. rewrite (concat_lookup_drop _ _ _ Hg2). by rewrite <- app_assoc. }
      rewrite ER in Hok |- *.
      apply (IH (mkCS (set_cursor (set_rhasher (cs_builder s) rh) (l' :: cps)) ps' (cs_store s) (cs_last s)) A
        _ (pend ++ es1) seg' g2 (S c) 0 l' cps g2 B K); try done.
      * unfold skipped in Hpar'. rewrite length_up in Hpar'.
        replace ((S c + 1) `min` _) with (S (S c)) in Hpar' by lia. exact Hpar'.
      * simpl. by rewrite concat_app.
      * rewrite (concat_lookup_drop _ _ _ Hg2), !length_app in Hf. rewrite length_app.
        destruct es1; [done|]. simpl in Hf. lia.
    + (* the end of the level *)
      assert (Hl : S c = length (lgr leaf E)) by lia.
      destruct (HA2 Hl) as (r & ->). osimpl. cbn [snd head]. osimpl.
      pose proof (at_node_seek _ _ _ _ _ _ _ _ (length g) _ _ _ Hat Hg (le_n _)) as Hat'.
      destruct (at_node_count _ _ _ _ _ _ _ _ _ _ _ _ Hlv Hat' Hg) as (_ & _ & Hend).
      rewrite bool_decide_true in Hend by done. rewrite Hend. osimpl.
      eexists _, _, [], (pend ++ es1), c. split_and!; [done|exact Hpd'| |done| |done|done|left|].
      * subst R. rewrite (drop_ge (lgr leaf E)) by lia. cbn [concat]. rewrite !app_nil_r. cbn [app].
        unfold groups. by rewrite (split_none _ _ Hnb'), close_open.
      * rewrite app_nil_r. unfold skipped in Hpar'. rewrite length_up in Hpar'.
        replace ((S c + 1) `min` _) with (S c) in Hpar' by lia. exact Hpar'.
      * destruct es1; [done|]. cbn [app]. by destruct pend.
      * intros _. split; [done|]. eexists _, _. split_and!; [done|exact Hend|].
        destruct (Advance_node _ _ _ _ _ _ _ _ _ _ _ _ Hlv Hat' Hg ltac:(lia)) as [_ HA]. apply (HA Hl).
Qed.

(** ** One level *)

(** The sequence that a chain of builders stands for. *)
Definition edited E (x : nat) A (y : nat) : list bytes := take x E ++ A ++ drop y E.

(** The first call on the parents: they leave the node in which the cursor is. *)
Lemma first_skip st ht leaf E a i c j A b ps x y :
  levels (st_load st) kind lp mp ht leaf E -> edit_at kind lp mp ht leaf E a i c j A b ->
  flat (lgr leaf E) c j = y ->
  (match ht with
   | O => ps = []
   | S ht' => exists z, (z = c \/ (z = S c /\ y = length E)) /\
       chain kind lp mp ht' false (upper leaf E) a z [] ps
   end) -> x = S c ->
  exists ps', skip_parent lp mp st ps = Some ps' /\ parents_do ht leaf E a x [] ps'.
Proof.
  intros Hlv He Hy Hp ->. pose proof He as [(cur & _ & Hat) _ _ _ (g & Hg & Hn)].
  pose proof (lookup_lt_Some _ _ _ Hg) as Hclt.
  destruct (at_node_inv _ _ _ _ _ _ _ _ _ Hat) as (_ & _ & g' & _ & Hg' & _ & _ & Hj).
  rewrite Hg in Hg'. injection Hg' as <-. destruct ht as [|ht].
  - subst ps. rewrite skip_parent_scratch. eexists. split; [done|]. simpl. by rewrite append_segs_nil.
  - destruct Hp as (z & Hz & Hch). pose proof Hlv as (_ & _ & _ & HE & Hlv').
    assert (Ez : skipped (upper leaf E) z 1 = S c /\ z <= length (upper leaf E)).
    { unfold skipped. rewrite length_up. destruct Hz as [->|[-> Hfin]]; [lia|].
      rewrite Hfin in Hy. rewrite <- (lgroups_concat lp mp leaf E) in Hy at 2.
      pose proof (flat_end _ _ _ _ (lgroups_ne lp mp leaf E HE) Hg Hj Hy). lia. }
    destruct Ez as [Ez Hle].
    destruct (skip_chain st ht false _ _ _ _ _ Hlv' Hch Hle) as (p & ps' & -> & Hc & Hch').
    eexists. split; [done|]. rewrite Ez in Hch'. by exists p, ps'.
Qed.

(** The first loop. *)
Lemma commit_appended_all leaf s qsegs ess B K :
  ready (St := St) s -> rh_rep (prm leaf) (rhasher_ (cs_builder s)) [] -> segs_rep qsegs ess ->
  level_ok B K (knd leaf) (prm leaf) (concat ess) ->
  let '(cur, queue) := match Some <$> qsegs with [] => (None, []) | s :: q => (s, q) end in
  loop_result kind lp mp leaf s (concat ess)
    (commit_appended kind lp mp (appended_fuel (Some <$> qsegs)) leaf s [] cur queue).
Proof.
  intros Hrd Hrh Hs Hl. destruct (level_sizes _ _ _ _ _ Hl) as [Hsz _].
  destruct Hs as [|q qes qsegs ess Hq Hs].
  - exists [], (rhasher_ (cs_builder s)). split; [|split; [apply pending_nil|done]].
    simpl. rewrite after_nil. by destruct s as [[] ? ? ?].
  - rewrite fmap_cons. cbv beta iota zeta.
    apply (commit_appended_rep kind lp mp leaf _ s [] [] q qes qsegs ess); try done.
    + apply pending_nil.
    + apply Hl.
    + apply Hl.
    + rewrite <- fmap_cons. by apply appended_fuel_ok.
Qed.

(** The second loop, or none if the cursor is at the end. *)
Lemma cursor_phase ht leaf E a A s segs pend c j cur g B K fuel :
  levels (st_load (cs_store s)) kind lp mp ht leaf E ->
  cursor_ (cs_builder s) = Some cur -> at_node kind lp mp ht leaf E c j cur ->
  lgr leaf E !! c = Some g -> j < length g \/ S c = length (lgr leaf E) ->
  parents_do ht leaf E a (S c) A (cs_parents s) ->
  rh_rep (prm leaf) (rhasher_ (cs_builder s)) (concat pend) -> pending segs pend ->
  find_boundary (prm leaf) [] (concat pend) = None ->
  let rest := drop (flat (lgr leaf E) c j) E in
  level_ok B K (knd leaf) (prm leaf) (pend ++ rest) -> length rest < fuel ->
  cursor_result ht leaf E a A s (pend ++ rest)
    (match cursor_ (cs_builder s) with
     | None => Some (s, segs)
     | Some c =>
         l ← head c; e ← isEnd l;
         if e : bool then Some (s, segs)
         else
           CHECK (0 <=? idx_ l)%Z;;
           ne ← numEntries (seq_node_ l);
           seg ← GetSegment (seq_node_ l) (Z.to_nat (idx_ l)) (ne - Z.to_nat (idx_ l));
           commit_cursor kind lp mp fuel leaf s segs seg
     end).
Proof.
  intros Hlv Hcur Hat Hg Hnorm Hpar Hrh Hpd Hnb rest Hok Hf. rewrite Hcur.
  destruct (at_node_inv _ _ _ _ _ _ _ _ _ Hat) as (l & ps & g' & -> & Hg' & Hn & Hi & Hj).
  rewrite Hg in Hg'. injection Hg' as <-. cbn [head]. osimpl.
  destruct (at_node_count _ _ _ _ _ _ _ _ _ _ _ _ Hlv Hat Hg) as (Hne & _ & Hend). rewrite Hend. osimpl.
  assert (Erest : rest = drop j g ++ concat (drop (S c) (lgr leaf E))).
  { unfold rest. rewrite <- (lgroups_concat lp mp leaf E) at 2. by apply drop_flat. }
  destruct (decide (j = length g)) as [->|Hjl].
  - rewrite bool_decide_true in * by done. destruct Hnorm as [|Hl]; [lia|].
    rewrite !drop_ge in Erest by lia. simpl in Erest. rewrite Erest, app_nil_r.
    exists s, segs, [], pend, c. rewrite (drop_ge (lgr leaf E)), !app_nil_r by lia.
    split_and!; [done|done| |lia|exact Hpar|done|done| |].
    + unfold groups. by rewrite (split_none _ _ Hnb), close_open.
    + destruct pend; [by right|by left].
    + intros _. split; [done|]. exists l, ps. split_and!; [done|done|].
      destruct (Advance_node _ _ _ _ _ _ _ _ _ _ _ _ Hlv Hat Hg ltac:(lia)) as [_ HA]. rewrite (HA Hl).
      destruct l as [sn ix]. simpl in *. by subst ix.
  - rewrite bool_decide_false by done. assert (Hlt : j < length g) by lia.
    rewrite Hi, (proj2 (Z.leb_le _ _)), Hne, Nat2Z.id by lia. osimpl.
    destruct (GetSegment_rep _ _ _ j (length g - j) Hn Hlt ltac:(lia)) as (seg & -> & Hs & _). osimpl.
    rewrite take_ge in Hs by (rewrite length_drop; lia). rewrite Erest in *.
    apply (commit_cursor_rep ht leaf E a fuel s A segs pend seg (drop j g) c j l ps g B K); try done.
    intros Hnil. apply (f_equal length) in Hnil. rewrite length_drop in Hnil. simpl in Hnil. lia.
Qed.

(** The last group of the level, if no boundary ends it. *)
Lemma close_phase ht leaf E a z A s segs lo B K :
  parents_do ht leaf E a z A (cs_parents s) -> pending segs lo ->
  (lo <> [] -> exists l ps, cursor_ (cs_builder s) = Some (l :: ps) /\ isEnd l = Some true /\
     Advance (st_load (cs_store s)) true (l :: ps) = Some (false, l :: ps)) ->
  level_ok B K (knd leaf) (prm leaf) lo -> size_ok lo ->
  exists s', (if 0 <? length segs then
        s2' ← match cursor_ (cs_builder s) with
              | None => Some s
              | Some c =>
                  l ← head c; e ← isEnd l; CHECK e;;
                  ra ← Advance (st_load (cs_store s)) true c;
                  CHECK (negb (fst ra));;
                  Some (mkCS (set_cursor (cs_builder s) (snd ra)) (cs_parents s) (cs_store s) (cs_last s))
              end;
        HandleBoundary kind lp mp leaf s2' segs
      else Some s) = Some s' /\
    parents_do ht leaf E a z (A ++ metas (knd leaf) (open_group lo)) (cs_parents s') /\
    cs_store s' = put_nodes (knd leaf) (cs_store s) (open_group lo) /\
    cs_last s' = last_chunk (knd leaf) (open_group lo) (cs_last s).
Proof.
  intros Hp Hpd Hcur Hl Hsz. pose proof (pending_length _ _ Hpd) as Hpl.
  destruct lo as [|e lo].
  - rewrite (proj2 Hpl) by done. exists s. cbn [open_group metas fmap list_fmap]. by rewrite app_nil_r.
  - destruct (Nat.ltb_spec 0 (length segs)) as [Hlt|Hge].
    2: { assert (length segs = 0) as E0%Hpl by lia. done. }
    destruct (Hcur ltac:(done)) as (l & ps & -> & He & HA). cbn [head]. osimpl. rewrite He. osimpl.
    rewrite HA. osimpl. cbn [fst snd negb]. osimpl.
    set (s2 := mkCS (set_cursor (cs_builder s) (l :: ps)) (cs_parents s) (cs_store s) (cs_last s)).
    destruct (HandleBoundary_edit ht leaf E a z A s2 segs (e :: lo)) as [-> Hp']; [done|done|done|apply Hl|done|].
    eexists. split; [done|]. by split_and!.
Qed.

Lemma put_nodes_app k st gs gs' : put_nodes k st (gs ++ gs') = put_nodes k (put_nodes k st gs) gs'.
Proof. apply fold_left_app. Qed.

Lemma last_chunk_app k gs gs' d : last_chunk k (gs ++ gs') d = last_chunk k gs' (last_chunk k gs d).
Proof.
  unfold last_chunk. rewrite last_app. by destruct (last gs').
Qed.

Lemma metas_app k gs gs' : metas k (gs ++ gs') = metas k gs ++ metas k gs'.
Proof. apply fmap_app. Qed.

(** The segments before the cursor and those appended, as one list. *)
Lemma edit_segments ht leaf E a i c j A b :
  edit_at kind lp mp ht leaf E a i c j A b ->
  exists g qsegs ess, lgr leaf E !! a = Some g /\ i <= length g /\
    match pre_cursor_seg_ b with Some s => Some s :: appended_segs_ b | None => appended_segs_ b end
    = Some <$> qsegs /\ segs_rep qsegs ess /\ concat ess = take i g ++ A.
Proof.
  intros [_ (g & Hg & Hi & Hpre) (q & e & Ha & Hq & <-) _ _]. exists g.
  destruct (pre_cursor_seg_ b) as [s|].
  - exists (s :: q), (take i g :: e). split_and!; [done|done|by rewrite Ha|by constructor|done].
  - subst g. exists q, e. split_and!; try done. by rewrite take_nil.
Qed.

(** The groups of the new level: those before the first node stay. *)
Lemma edited_groups leaf E a i g A y :
  lgr leaf E !! a = Some g -> i <= length g ->
  let M := take i g ++ A ++ drop y E in
  edited E (flat (lgr leaf E) a i) A y = concat (take a (lgr leaf E)) ++ M /\
  (M <> [] -> level_groups (prm leaf) (edited E (flat (lgr leaf E) a i) A y)
              = take a (lgr leaf E) ++ groups (prm leaf) M).
Proof.
  intros Hg Hi M. pose proof (take_flat _ _ _ _ Hg Hi) as Ht. rewrite lgroups_concat in Ht.
  assert (E1 : edited E (flat (lgr leaf E) a i) A y = concat (take a (lgr leaf E)) ++ M).
  { unfold edited, M. rewrite Ht. by rewrite <- !app_assoc. }
  split; [done|]. intros HM. rewrite E1.
  assert (Hne : concat (take a (lgr leaf E)) ++ M <> []) by (by intros [_ ?]%app_eq_nil).
  destruct (level_groups_nonempty (prm leaf) _ Hne) as [-> _].
  destruct (decide (E = [])) as [->|HE].
  - unfold lgroups, level_groups in Hg |- *. destruct a; [done|]. done.
  - unfold lgroups in *. destruct (level_groups_nonempty (prm leaf) E HE) as [EE _]. rewrite EE in *.
    apply groups_keep. left. by eapply lookup_lt_Some.
Qed.

(** The nodes of a level that an edit makes. *)
Lemma commit_level_rep st ht leaf E x y A b ps fuel B K :
  levels (st_load st) kind lp mp ht leaf E -> chain kind lp mp ht leaf E x y A (b :: ps) ->
  commited_ b = false -> y <= length E ->
  level_ok B K (knd leaf) (prm leaf) (edited E x A y) ->
  A ++ drop y E <> [] \/ snd (split (prm leaf) (take x E)) <> [] ->
  length (drop y E) < fuel ->
  exists s' gs a c', commit_level kind lp mp fuel leaf b ps st = Some s' /\ gs <> [] /\
    level_groups (prm leaf) (edited E x A y)
    = take a (lgr leaf E) ++ gs ++ drop (S c') (lgr leaf E) /\
    c' < length (lgr leaf E) /\ a < length (lgr leaf E) /\
    parents_do ht leaf E a (S c') (metas (knd leaf) gs) (cs_parents s') /\
    cs_store s' = put_nodes (knd leaf) st gs /\ cs_last s' = last_chunk (knd leaf) gs None.
Proof.
  intros Hlv (a & i & c & j & He & Hx & Hy & Hps) Hcm Hyl Hok Hcut Hf. subst x.
  destruct (edit_segments _ _ _ _ _ _ _ _ _ He) as (g & qsegs & ess & Hg & Hi & Hsegs & Hq & Hcat).
  destruct (edited_groups leaf E a i g A y Hg Hi) as [EM HM]. set (M := take i g ++ A ++ drop y E) in *.
  assert (HMne : M <> []).
  { destruct Hcut as [Hcut|Hcut]; [by intros [_ ?]%app_eq_nil|]. intros [Ht _]%app_eq_nil. apply Hcut.
    pose proof (take_flat _ _ _ _ Hg Hi) as Htf. rewrite lgroups_concat, Ht, app_nil_r in Htf. rewrite Htf.
    destruct (decide (E = [])) as [->|HE].
    { unfold lgroups, level_groups in Hg |- *. by destruct a. }
    unfold lgroups in *. destruct (level_groups_nonempty (prm leaf) E HE) as [EE _]. rewrite EE in *.
    pose proof (groups_take_closed (prm leaf) E a ltac:(by eapply lookup_lt_Some)) as Hcl.
    apply closed_split in Hcl as ->. done. }
  rewrite EM in Hok. apply level_ok_app in Hok as [_ Hok].
  assert (Hok1 : level_ok B K (knd leaf) (prm leaf) (concat ess)).
  { rewrite Hcat. unfold M in Hok. rewrite app_assoc in Hok. by apply level_ok_app in Hok as [? _]. }
  destruct (first_skip st ht leaf E a i c j A b ps (S c) y Hlv He Hy Hps eq_refl) as (ps' & Hsk & Hpar).
  pose proof He as [(cur & Hcur & Hat) _ _ Hrh (gc & Hgc & Hnorm)].
  set (s0 := mkCS b ps' st None).
  pose proof (commit_appended_all leaf s0 qsegs ess B K (parents_do_ready _ _ _ _ _ _ s0 Hpar) Hrh Hq Hok1) as HL.
  unfold commit_level. rewrite Hcm. osimpl. rewrite Hsk. osimpl. rewrite Hsegs.
  destruct (match Some <$> qsegs with [] => (None, []) | s :: q => (s, q) end) as [cur1 queue].
  fold s0. destruct HL as (segs1 & rh1 & -> & Hpd1 & Hrh1). osimpl. cbv beta iota.
  set (pend := snd (split (prm leaf) (concat ess))) in *. set (gs1 := fst (split (prm leaf) (concat ess))) in *.
  set (s1 := after kind leaf s0 rh1 gs1).
  pose proof (split_concat (prm leaf) (concat ess)) as Hsc. fold gs1 pend in Hsc.
  assert (Hok2 : level_ok B K (knd leaf) (prm leaf) (pend ++ drop y E) /\ M = concat gs1 ++ pend ++ drop y E).
  { assert (Em : M = concat gs1 ++ pend ++ drop y E)
      by (unfold M; rewrite app_assoc, <- Hcat, <- Hsc; by rewrite <- app_assoc).
    split; [|done]. rewrite Em in Hok. by apply level_ok_app in Hok as [_ ?]. }
  destruct Hok2 as [Hok2 Em].
  assert (Hm1 : Forall (fun e => e <> []) (metas (knd leaf) gs1)).
  { apply metas_ne. pose proof (level_sizes _ _ _ _ _ Hok1) as [Hsz _].
    pose proof (lo_entries _ _ _ _ _ Hok1) as Hen. rewrite <- Hsc in Hen. apply entries_ok_app in Hen as [Hen _].
    apply entries_ok_concat in Hen. unfold groups in Hsz. rewrite (surjective_pairing (split _ _)), close_open in Hsz.
    apply Forall_app in Hsz as [Hsz _]. fold gs1 in Hsz. rewrite Forall_forall in *. intros g1 Hg1.
    apply meta_of_ok; [by apply Hen|by apply Hsz]. }
  assert (Hpar1 : parents_do ht leaf E a (S c) (metas (knd leaf) gs1) (cs_parents s1)).
  { cbn [cs_parents after s1 s0]. destruct (parents_do_ready _ _ _ _ _ _ s0 Hpar) as (p & pq & Ep & _).
    cbn [cs_parents s0] in Ep. rewrite Ep in *. by apply (parents_do_append _ _ _ _ _ []). }
  assert (Hnb : find_boundary (prm leaf) [] (concat pend) = None) by apply split_rest.
  pose proof (cursor_phase ht leaf E a (metas (knd leaf) gs1) s1 segs1 pend c j cur gc B K fuel) as HC.
  rewrite Hy in HC. cbv zeta in HC.
  destruct HC as (s2 & segs2 & gs2 & lo & c' & -> & Hpd2 & Hg2 & Hc' & Hpar2 & Hst2 & Hla2 & Hne2 & Hend2); try done.
  { eapply levels_kept; [|exact Hlv]. apply put_nodes_kept. }
  osimpl. cbv beta iota.
  assert (Hlo : level_ok B K (knd leaf) (prm leaf) lo /\ size_ok lo).
  { pose proof (groups_concat (prm leaf) (pend ++ drop y E)) as Hgc2. rewrite Hg2, !concat_app in Hgc2.
    assert (concat (open_group lo) = lo) as Ho by (destruct lo; simpl; by rewrite ?app_nil_r). rewrite Ho in Hgc2.
    pose proof (level_sizes _ _ _ _ _ Hok2) as [Hsz _]. rewrite Hg2 in Hsz.
    rewrite <- Hgc2 in Hok2. apply level_ok_app in Hok2 as [_ Hok2]. apply level_ok_app in Hok2 as [Hok2 _].
    split; [done|]. apply Forall_app in Hsz as [_ Hsz]. apply Forall_app in Hsz as [Hsz _].
    destruct lo; [unfold size_ok; simpl; lia|]. by apply Forall_cons in Hsz as [? _]. }
  destruct Hlo as [Hlo Hlosz].
  destruct (close_phase ht leaf E a (S c') _ s2 segs2 lo B K Hpar2 Hpd2 ltac:(intros; by apply Hend2) Hlo Hlosz)
    as (s3 & -> & Hpar3 & Hst3 & Hla3). osimpl.
  assert (Hall : gs1 ++ gs2 ++ open_group lo <> []).
  { intros [Eg1 E2]%app_eq_nil. destruct Hne2 as [?|Hr]; [done|]. rewrite Eg1, Hr in Em. done. }
  assert (Hlast : cs_last s3 = last_chunk (knd leaf) (gs1 ++ gs2 ++ open_group lo) None).
  { by rewrite !last_chunk_app, Hla3, Hla2. }
  exists s3, (gs1 ++ gs2 ++ open_group lo), a, c'. rewrite Hlast. split_and!; try done.
  - unfold last_chunk. destruct (last (gs1 ++ gs2 ++ open_group lo)) eqn:El; [done|by apply last_None in El].
  - rewrite HM by done. f_equal.
    assert (Ec : M = concat ess ++ drop y E) by (unfold M; by rewrite Hcat, app_assoc).
    rewrite Ec, groups_app. fold gs1 pend. rewrite Hg2. by rewrite <- !app_assoc.
  - by eapply lookup_lt_Some.
  - by rewrite !metas_app, app_assoc.
  - by rewrite Hst3, Hst2, !put_nodes_app.
Qed.

(** ** All levels *)

(** The root that [RecursiveCommit] makes: it does not stop below the height of
    the old tree, so there may be nodes with a single entry at the top. *)
Fixpoint edit_root ht fuel leaf E : option bytes :=
  match ht with
  | O => tree_root fuel mp (knd leaf) (prm leaf) E
  | S ht' => match fuel with O => None | S fuel' => edit_root ht' fuel' false (upper leaf E) end
  end.

Fixpoint edit_nodes ht fuel leaf E : list (NodeKind * list bytes) :=
  match ht with
  | O => tree_nodes fuel mp (knd leaf) (prm leaf) E
  | S ht' =>
      match fuel with
      | O => []
      | S fuel' => (pair (knd leaf) <$> lgr leaf E) ++ edit_nodes ht' fuel' false (upper leaf E)
      end
  end.

(** The nodes of the old tree. *)
Fixpoint old_nodes ht leaf E : list (NodeKind * list bytes) :=
  (pair (knd leaf) <$> lgr leaf E) ++
  match ht with O => [] | S ht' => old_nodes ht' false (upper leaf E) end.

Lemma old_nodes_stored get ht : forall leaf E,
  levels get kind lp mp ht leaf E -> Forall (stored get) (old_nodes ht leaf E).
Proof.
  induction ht as [|ht IH]; intros leaf E (_ & _ & Hst & Hp); cbn [old_nodes].
  - by rewrite app_nil_r.
  - apply Forall_app. split; [done|]. apply IH, Hp.
Qed.

Lemma edited_ne leaf E x A y :
  A ++ drop y E <> [] \/ snd (split (prm leaf) (take x E)) <> [] -> edited E x A y <> [].
Proof.
  intros Hcut [Ht Hr]%app_eq_nil. destruct Hcut as [?|Hcut]; [done|]. by rewrite Ht in Hcut.
Qed.

(** The entries of the level above. *)
Lemma upper_edited leaf E x A y a c gs :
  level_groups (prm leaf) (edited E x A y) = take a (lgr leaf E) ++ gs ++ drop (S c) (lgr leaf E) ->
  upper leaf (edited E x A y) = edited (upper leaf E) a (metas (knd leaf) gs) (S c).
Proof.
  intros Eg. unfold up at 1, lgroups at 1. rewrite Eg, !metas_app. unfold edited, up, metas.
  by rewrite fmap_take, fmap_drop.
Qed.

Lemma length_upper_le leaf E : E <> [] -> length (upper leaf E) <= length E.
Proof.
  intros HE. rewrite length_up. unfold lgroups. destruct (level_groups_nonempty (prm leaf) E HE) as [-> _].
  apply groups_length.
Qed.

(** What is written for an edit, and the root. *)
Definition committed st ht fuel leaf E N (r : option (Hash * St)) : Prop :=
  exists nodes, r = (fun h => (Some h, put_all st nodes)) <$> edit_root ht fuel leaf N /\
    (forall x, x ∈ nodes -> x ∈ edit_nodes ht fuel leaf N) /\
    (forall x, x ∈ edit_nodes ht fuel leaf N -> x ∈ nodes \/ x ∈ old_nodes ht leaf E).

Lemma last_chunk_hash k gs :
  gs <> [] -> Forall size_ok gs -> exists ch g, last_chunk k gs None = Some ch /\ last gs = Some g /\
    chunk_hash ch = Some (Some (mi_hash (meta_of k g))).
Proof.
  intros Hne Hsz. unfold last_chunk. destruct (last gs) as [g|] eqn:El; [|by apply last_None in El].
  exists (node_chunk k g), g. split_and!; [done..|]. rewrite meta_of_hash.
  apply (chunk_rep_hash _ (kind_type k) (node_payload k g)), node_chunk_rep.
  apply last_Some in El as [l ->]. apply Forall_app in Hsz as [_ Hsz]. by apply Forall_cons in Hsz as [? _].
Qed.

(** The builder above the root of the old tree works from scratch. *)
Lemma commit_above st fuel leaf N gs B K :
  level_ok B K (knd leaf) (prm leaf) N -> N <> [] -> params_ok mp -> cp_window mp <= cp_max mp ->
  (Z.of_nat (cp_max mp + (meta_head + K)) + 64 < 2 ^ 32)%Z -> level_groups (prm leaf) N = gs ->
  let p := append_segs fresh (Some <$> (meta_segment <$> metas (knd leaf) gs)) in
  (if bool_decide (is_Some (cursor_ p)) || (1 <? length (appended_segs_ p))
   then RecursiveCommit kind lp mp fuel false p [] (put_nodes (knd leaf) st gs)
   else (fun g => (Some (mi_hash (meta_of (knd leaf) g)), put_nodes (knd leaf) st gs)) <$> last gs)
  = (fun h => (Some h, put_all st (tree_nodes (S fuel) mp (knd leaf) (prm leaf) N)))
    <$> tree_root (S fuel) mp (knd leaf) (prm leaf) N.
Proof.
  intros Hl HN Hmp Hw Hsz Eg p. cbn [tree_root tree_nodes]. rewrite Eg, put_all_app, put_all_level.
  rewrite bool_decide_false by (intros [? ?]; done). cbn [orb p append_segs appended_segs_ fresh_parent set_uncommited new_builder app].
  rewrite !length_fmap. unfold metas at 1. rewrite length_fmap.
  destruct (level_groups_nonempty (prm leaf) N HN) as [Egs _]. rewrite Eg in Egs.
  destruct (Nat.ltb_spec 1 (length gs)) as [Hlt|Hle].
  - pose proof (level_ok_next _ _ _ _ mp _ Hl HN (conj Hmp Hw) Hsz) as Hnext. rewrite <- Egs in Hnext.
    assert (Hne : Forall (fun e => e <> []) (metas (knd leaf) gs)).
    { eapply entries_ne, eo_entries, lo_entries, Hnext. }
    destruct (meta_segs_rep _ Hne) as [Hsegs Hcat].
    change p with (scratch false (lvl_rhasher lp mp false) 0 (meta_segment <$> metas (knd leaf) gs)).
    rewrite (RecursiveCommit_scratch kind lp mp K fuel false _ 0 _ ((fun e => [e]) <$> metas (knd leaf) gs)
      _ (meta_head + K)); rewrite ?Hcat; try done.
    + cbn [lvl_kind lvl_params]. destruct gs as [|g1 [|g2 gs]]; simpl in Hlt; [lia|lia|done].
    + by apply (fresh_rhasher lp mp false).
    + intros _ E0. apply fmap_nil_inv in E0. rewrite E0 in Hlt. simpl in Hlt. lia.
  - destruct gs as [|g1 [|g2 gs]]; simpl in Hle; [|done|lia].
    by apply level_groups_ne in Eg.
Qed.

Lemma RecursiveCommit_edit K ht : forall fuel leaf E x y A b ps st B,
  levels (st_load st) kind lp mp ht leaf E -> chain kind lp mp ht leaf E x y A (b :: ps) ->
  commited_ b = false -> y <= length E ->
  level_ok B K (knd leaf) (prm leaf) (edited E x A y) ->
  A ++ drop y E <> [] \/ snd (split (prm leaf) (take x E)) <> [] ->
  params_ok mp -> cp_window mp <= cp_max mp ->
  (Z.of_nat (cp_max mp + (meta_head + K)) + 64 < 2 ^ 32)%Z ->
  length E + S ht < fuel ->
  committed st ht fuel leaf E (edited E x A y) (RecursiveCommit kind lp mp fuel leaf b ps st).
Proof.
  induction ht as [|ht IH]; intros fuel leaf E x y A b ps st B Hlv Hch Hcm Hy Hok Hcut Hmp Hw Hsz Hf;
    (destruct fuel as [|fuel]; [lia|]); set (N := edited E x A y) in *;
    pose proof (edited_ne leaf E x A y Hcut) as HN; fold N in HN;
    destruct (commit_level_rep st _ leaf E x y A b ps fuel B K Hlv Hch Hcm Hy Hok Hcut
      ltac:(rewrite length_drop; lia)) as (s & gs & a & c & Hcl & Hgs & Eg & Hc & Ha & Hpar & Hst & Hla);
    fold N in Eg; cbn [RecursiveCommit]; rewrite Hcl; osimpl;
    pose proof (level_sizes _ _ _ _ _ Hok) as [_ Hgsz]; fold N in Hgsz; rewrite Eg in Hgsz;
    apply Forall_app in Hgsz as [_ Hgsz]; apply Forall_app in Hgsz as [Hgsz _];
    destruct (last_chunk_hash (knd leaf) gs Hgs Hgsz) as (ch & g & Hlc & Hlg & Hch');
    rewrite Hla, Hlc; osimpl; rewrite Hch'; osimpl.
  - destruct Hlv as (_ & _ & _ & g0 & Eg0). rewrite Eg0 in *. simpl in Hc, Ha.
    assert (a = 0) as -> by lia. assert (c = 0) as -> by lia. cbn [take drop app] in Eg.
    rewrite app_nil_r in Eg. simpl in Hpar. rewrite Hpar. cbn [parent_builder]. rewrite Hst.
    exists (tree_nodes (S fuel) mp (knd leaf) (prm leaf) N). split_and!; [|done|by left].
    cbn [edit_root]. rewrite <- (commit_above st fuel leaf N gs B K Hok HN Hmp Hw Hsz Eg). by rewrite Hlg.
  - destruct Hpar as (p & ps' & -> & Hcp & Hchp). cbn [parent_builder].
    destruct Hlv as (_ & _ & _ & HE & Hlv'). pose proof (upper_edited leaf E x A y a c gs Eg) as Eup. fold N in Eup.
    assert (Hcp' : bool_decide (is_Some (cursor_ p)) = true).
    { apply bool_decide_eq_true. destruct Hchp as (? & ? & ? & ? & [(cur & -> & _) _ _ _ _] & _). eauto. }
    rewrite Hcp'. cbn [orb]. rewrite Hst.
    pose proof (level_ok_next _ _ _ _ mp _ Hok HN (conj Hmp Hw) Hsz) as Hnext.
    destruct (level_groups_nonempty (prm leaf) N HN) as [Egs _]. rewrite <- Egs in Hnext.
    fold (lgroups lp mp leaf N) in Hnext. fold (up kind lp mp leaf N) in Hnext. rewrite Eup in Hnext.
    destruct (IH fuel false (upper leaf E) a (S c) (metas (knd leaf) gs) p ps' (put_nodes (knd leaf) st gs)
      (meta_head + K)) as (nodes & Hr & Hin & Hout); try done.
    + eapply levels_kept; [|exact Hlv']. apply put_nodes_kept.
    + rewrite length_up. lia.
    + left. intros [E0 _]%app_eq_nil. by apply fmap_nil_inv in E0.
    + pose proof (length_upper_le leaf E HE). lia.
    + exists ((pair (knd leaf) <$> gs) ++ nodes). rewrite <- Eup in Hr, Hin, Hout.
      cbn [edit_root edit_nodes old_nodes].
      change (lgr leaf N) with (level_groups (prm leaf) N). rewrite Eg. split_and!.
      * rewrite put_all_app, put_all_level. exact Hr.
      * intros z. rewrite !fmap_app, !elem_of_app. intros [?|?%Hin]; tauto.
      * intros z. rewrite !fmap_app, !elem_of_app. intros [[Hz|[Hz|Hz]]|[Hz|Hz]%Hout]; try tauto; right; left.
        -- rewrite <- (take_drop a (lgr leaf E)), fmap_app, elem_of_app. by left.
        -- rewrite <- (take_drop (S c) (lgr leaf E)), fmap_app, elem_of_app. by right.
Qed.

End EditCommit.
