(* ===== verification/EditCursor.v ===== *)
(** * Cursors by index and by key on a canonical tree

    The descents of [NodeCursor] go through the levels of a canonical tree: the
    cursor that they return stands, on every level, at an entry of one of the
    groups of the level, and its place among the leaves is the one that the
    search was for. *)

From S2P Require Import Prelude Types Slice HashVal Chunk RollingHash Node NodeSearch Chunker.
From S2P Require Import Canonical Leaf Store Cursor Builder Build Tree CursorProps LevelCursor.

(** A node has one list of entries. *)
Lemma node_rep_inj `{HashFunction} n k es1 es2 : node_rep n k es1 -> node_rep n k es2 -> es1 = es2.
Proof.
  intros H1 H2. pose proof (numEntries_rep _ _ _ H1) as E. rewrite (numEntries_rep _ _ _ H2) in E.
  injection E as E. apply (list_eq_same_length _ _ (length es1)); [done|done|].
  intros i e1 e2 Hi Hl1 Hl2.
  destruct (node_data_rep _ _ _ _ _ H1 Hl1) as [r1 D1]. destruct (node_data_rep _ _ _ _ _ H2 Hl2) as [r2 D2].
  rewrite D1 in D2. injection D2 as D2.
  pose proof (node_len_rep _ _ _ _ _ H1 Hl1) as L1. rewrite (node_len_rep _ _ _ _ _ H2 Hl2) in L1.
  injection L1 as L1. by apply app_inj_1 in D2 as [? _].
Qed.

Section EditCursor.
Context `{HashFunction} `{Uninit}.
Variable get : Hash -> option Chunk.
Variable (kind : NodeKind) (lp mp : ChunkerParams).
Hypothesis kind_leaf : kind <> KMeta.
Implicit Types (E es : list bytes) (leaf : bool) (ht c j : nat) (cur ps : NodeCursor).

Abbreviation knd := (lvl_kind kind).
Abbreviation lgr := (lgroups lp mp).
Abbreviation upper := (up kind lp mp).
Abbreviation lvls := (levels get kind lp mp).
Abbreviation at_nd := (at_node kind lp mp).

(** ** Elements below the entries of a level *)

Definition weight leaf (e : bytes) : Z := if leaf then 1 else e_elements e.

Lemma weight_leaf es : sum_with (weight true) es = Z.of_nat (length es).
Proof. induction es as [|e es IH]; [done|]. cbn [sum_with length]. rewrite IH. unfold weight. lia. Qed.

Lemma weight_nonneg leaf e : entry_ok (knd leaf) e -> (0 <= weight leaf e)%Z.
Proof.
  destruct leaf; [done|]. intros (m & Hm & ->). cbn [weight]. rewrite e_elements_mi by done. apply Hm.
Qed.

Lemma sum_weight_nonneg leaf E : Forall (entry_ok (knd leaf)) E -> (0 <= sum_with (weight leaf) E)%Z.
Proof.
  induction 1 as [|e E He _ IH]; [done|]. cbn [sum_with]. pose proof (weight_nonneg _ _ He). lia.
Qed.

Lemma group_weight leaf g :
  entries_ok (knd leaf) g -> size_ok g -> (sum_with (weight leaf) g < 2 ^ 64)%Z ->
  e_elements (mi_bytes (meta_of (knd leaf) g)) = sum_with (weight leaf) g.
Proof.
  intros Hok Hsz Hb. rewrite e_elements_mi by (apply meta_of_ok; [apply Hok|done]).
  destruct leaf.
  - rewrite weight_leaf. cbn [lvl_kind]. by destruct kind.
  - cbn [lvl_kind meta_of mi_elements]. apply wrap_small. split; [|done].
    apply (sum_weight_nonneg false), Hok.
Qed.

Lemma sum_weight_le leaf a b :
  Forall (entry_ok (knd leaf)) (a ++ b) -> (sum_with (weight leaf) a <= sum_with (weight leaf) (a ++ b))%Z.
Proof.
  intros [_ Hb%sum_weight_nonneg]%Forall_app. rewrite sum_with_app. lia.
Qed.

(** The entries of the level above, up to entry [c], stand for the entries of
    the first [c] nodes. *)
Lemma upper_weight ht leaf E c :
  lvls ht leaf E -> (sum_with (weight leaf) E < 2 ^ 64)%Z ->
  sum_with e_elements (take c (upper leaf E)) = sum_with (weight leaf) (concat (take c (lgr leaf E))).
Proof.
  intros Hlv Hb. unfold up, metas. rewrite <- fmap_take.
  assert (Hall : forall i g, lgr leaf E !! i = Some g -> entries_ok (knd leaf) g /\ size_ok g).
  { intros i g Hg. destruct (group_ok _ _ _ _ _ _ _ _ _ Hlv Hg) as (? & ? & _). done. }
  pose proof (levels_unfold _ _ _ _ _ _ _ Hlv) as ((B & K & Hl) & _).
  pose proof (eo_entries _ _ (lo_entries _ _ _ _ _ Hl)) as Hok.
  rewrite <- (lgroups_concat lp mp leaf E) in Hb, Hok.
  clear Hlv Hl. revert c Hb Hok Hall. generalize (lgr leaf E) as gs.
  induction gs as [|g gs IH]; intros c Hb Hok Hall; [by destruct c|].
  destruct c as [|c]; [done|]. cbn [take fmap list_fmap sum_with concat].
  cbn [concat] in Hb, Hok. rewrite sum_with_app. pose proof Hok as [Hokg Hokr]%Forall_app.
  pose proof (sum_weight_le _ _ _ Hok) as Hle.
  destruct (Hall 0 g eq_refl) as [Hg Hsz]. rewrite group_weight by (done || lia).
  f_equal. apply IH; [|done|].
  - rewrite sum_with_app in Hb. apply sum_weight_nonneg in Hokg. lia.
  - intros i g' Hg'. apply (Hall (S i) g' Hg').
Qed.

Lemma upper_weight_all ht leaf E :
  lvls ht leaf E -> (sum_with (weight leaf) E < 2 ^ 64)%Z ->
  sum_with (weight false) (upper leaf E) = sum_with (weight leaf) E.
Proof.
  intros Hlv Hb. pose proof (upper_weight ht leaf E (length (upper leaf E)) Hlv Hb) as Hw.
  rewrite take_ge, length_up, (take_ge (lgr leaf E)), lgroups_concat in Hw by lia. exact Hw.
Qed.

(** ** Going down *)

(** The parents of node [c]. *)
Definition above ht leaf E c ps : Prop :=
  match ht with
  | O => ps = []
  | S ht' => exists c' j' g', lgr false (upper leaf E) !! c' = Some g' /\ j' < length g' /\
      flat (lgr false (upper leaf E)) c' j' = c /\ at_nd ht' false (upper leaf E) c' j' ps
  end.

Lemma meta_entries g :
  Forall (entry_ok KMeta) g -> exists ms, g = mi_bytes <$> ms /\ Forall mi_ok ms.
Proof.
  induction 1 as [|e g (m & Hm & ->) _ (ms & -> & Hms)]; [by exists []|].
  exists (m :: ms). split; [done|by constructor].
Qed.

Lemma mi_hash_inj m m' : mi_ok m -> mi_ok m' -> mi_bytes m = mi_bytes m' -> mi_hash m = mi_hash m'.
Proof.
  intros Hm Hm' E. destruct (mi_decode m [] Hm) as (_ & _ & _ & E1 & _).
  destruct (mi_decode m' [] Hm') as (_ & _ & _ & E2 & _). rewrite E, E2 in E1. by simplify_eq.
Qed.

(** One step: the child below entry [j] of node [c]. *)
Lemma step_down ht leaf E c j n ps ms m :
  lvls (S ht) leaf E -> lgr false (upper leaf E) !! c = Some (mi_bytes <$> ms) -> Forall mi_ok ms ->
  node_rep n KMeta (mi_bytes <$> ms) -> above ht false (upper leaf E) c ps -> ms !! j = Some m ->
  exists n' g, load_node get (Some (mi_hash m)) = Some n' /\ node_rep n' (knd leaf) g /\
    let c' := flat (lgr false (upper leaf E)) c j in
    lgr leaf E !! c' = Some g /\ above (S ht) leaf E c' (mkCur n (Z.of_nat j) :: ps).
Proof.
  intros Hlv Hc Hms Hn Hab Hm. pose proof Hlv as (_ & _ & _ & _ & Hlv').
  assert (He : (mi_bytes <$> ms) !! j = Some (mi_bytes m)) by (by rewrite list_lookup_fmap, Hm).
  pose proof (lookup_lt_Some _ _ _ He) as Hj. pose proof (flat_lookup _ _ _ _ Hc Hj) as Hfl.
  rewrite lgroups_concat, He in Hfl. pose proof (lookup_lt_Some _ _ _ Hfl) as Hlt. rewrite length_up in Hlt.
  destruct (lookup_lt_is_Some_2 _ _ Hlt) as [g Hg]. pose proof (up_lookup kind _ _ _ _ _ _ Hg) as Hup.
  rewrite Hup in Hfl. apply (inj Some) in Hfl as Hmb.
  destruct (group_ok _ _ _ _ _ _ _ _ _ Hlv Hg) as (Hok & _ & _ & (ch & Hget & Hch) & Hmg).
  pose proof (Forall_lookup_1 _ _ _ _ Hms Hm) as Hmm. simpl in Hmm.
  rewrite <- (mi_hash_inj _ _ Hmg Hmm Hmb), meta_of_hash. unfold load_node. cbn [fst snd] in Hget.
  rewrite Hget. osimpl. destruct (CreateFromChunk_rep ch (knd leaf) g Hch Hok) as (n' & -> & _ & Hr).
  exists n', g. split_and!; [done|done|done|]. exists c, j, (mi_bytes <$> ms).
  split_and!; [done|done|done|]. destruct ht; (split; [exists (mi_bytes <$> ms); split_and!; [done|done|lia]|]); done.
Qed.

(** The entry that a search picks in a node, and the hash below it. *)
Definition picked (ms : list MetaInfo) (r : Hash * nat) : Prop :=
  exists m, ms !! snd r = Some m /\ fst r = Some (mi_hash m).

Lemma child_of_index_picked ms x i r :
  child_of_index ms x i = r -> fst r = None \/ exists j m, snd r = i + j /\ ms !! j = Some m /\ fst r = Some (mi_hash m).
Proof.
  intros <-. revert x i. induction ms as [|m ms IH]; intros x i; [by left|]. cbn [child_of_index].
  destruct (x <? mi_elements m)%Z; [right; exists 0, m; split_and!; [simpl; lia|done|done]|].
  destruct (IH (x - mi_elements m)%Z (S i)) as [?|(j & m' & E & Hj & Hh)]; [by left|].
  right. exists (S j), m'. split_and!; [rewrite E; lia|done|done].
Qed.

Lemma child_of_key_picked ms key : forall i r,
  child_of_key ms key i = Some r ->
  fst r = None \/ exists j m, snd r = i + j /\ ms !! j = Some m /\ fst r = Some (mi_hash m).
Proof.
  induction ms as [|m ms IH]; intros i r; cbn [child_of_key]; [intros [= <-]; by left|].
  intros (le & _ & E)%bind_Some. destruct le.
  - injection E as <-. right. exists 0, m. split_and!; [simpl; lia|done|done].
  - destruct (IH _ _ E) as [?|(j & m' & E' & Hj & Hh)]; [by left|].
    right. exists (S j), m'. split_and!; [rewrite E'; lia|done|done].
Qed.

(** Past the last child, the last child is taken. *)
Lemma pick_child n ms r r' :
  node_rep n KMeta (mi_bytes <$> ms) -> Forall mi_ok ms -> ms <> [] ->
  (fst r = None \/ exists j m, snd r = 0 + j /\ ms !! j = Some m /\ fst r = Some (mi_hash m)) ->
  (if hash_empty (fst r) then
     CHECK (snd r =? length ms);; h ← GetChildHashByEntry n (length ms - 1); Some (h, length ms - 1)
   else Some r) = Some r' -> picked ms r'.
Proof.
  intros Hn Hms Hne [E|(j & m & Ej & Hm & E)]; rewrite E; simpl; intros Hr.
  - apply bind_Some in Hr as (_ & _ & Hr).
    assert (0 < length ms) by (destruct ms; [done|simpl; lia]).
    destruct (lookup_lt_is_Some_2 ms (length ms - 1) ltac:(lia)) as [m Hm].
    rewrite (meta_GetChildHashByEntry n ms Hn Hms _ _ Hm) in Hr. osimpl in Hr. injection Hr as <-.
    by exists m.
  - injection Hr as <-. exists m. rewrite Ej. by split.
Qed.

Lemma elements_sum ms : Forall mi_ok ms -> sum_with (weight false) (mi_bytes <$> ms) = elements_below ms.
Proof.
  unfold elements_below. induction 1 as [|m ms Hm _ IH]; [done|].
  rewrite fmap_cons. cbn [sum_with]. rewrite IH. f_equal. by apply e_elements_mi.
Qed.

(** The level [l] levels above the leaves. *)
Fixpoint lev (l : nat) es : bool * list bytes :=
  match l with
  | O => (true, es)
  | S l' => (false, upper (fst (lev l' es)) (snd (lev l' es)))
  end.

Lemma lev_levels ht l es :
  lvls ht true es -> (Z.of_nat (length es) < 2 ^ 64)%Z -> l <= ht ->
  lvls (ht - l) (fst (lev l es)) (snd (lev l es)) /\
  sum_with (weight (fst (lev l es))) (snd (lev l es)) = Z.of_nat (length es).
Proof.
  intros Hlv Hb. induction l as [|l IH]; intros Hl; [by rewrite Nat.sub_0_r, weight_leaf|].
  destruct IH as [IH1 IH2]; [lia|]. destruct (ht - l) as [|d] eqn:Ed; [lia|].
  replace (ht - S l) with d by lia. cbn [lev fst snd]. pose proof IH1 as (_ & _ & _ & _ & Hlv'). split; [done|].
  rewrite (upper_weight_all (S d)) by (done || (rewrite IH2; done)). done.
Qed.

(** What a descent reaches: a leaf of the tree, below its parents. *)
Definition reaches ht es cur : Prop :=
  exists c g l ps, cur = l :: ps /\ lgr true es !! c = Some g /\ node_rep (seq_node_ l) kind g /\
    above ht true es c ps.

Lemma isLeaf_rep n k es : node_rep n k es -> isLeaf n = negb (bool_decide (k = KMeta)).
Proof. intros Hn. unfold isLeaf. by rewrite (nr_kind _ _ _ Hn). Qed.

(** The entries of an inner node, as needed by the searches. *)
Lemma inner_node ht l es c g n :
  lvls ht true es -> (Z.of_nat (length es) < 2 ^ 64)%Z -> S l <= ht ->
  lgr false (snd (lev (S l) es)) !! c = Some g -> node_rep n KMeta g ->
  exists ms, g = mi_bytes <$> ms /\ Forall mi_ok ms /\ ms <> [] /\ small (mi_bytes <$> ms) /\
    (elements_below ms < 2 ^ 64)%Z.
Proof.
  intros Hlv Hb Hl Hg Hn. destruct (lev_levels ht (S l) es Hlv Hb Hl) as [Hlv' Hw].
  destruct (group_ok _ _ _ _ _ _ _ _ _ Hlv' Hg) as (Hok & _ & Hs & _).
  destruct (meta_entries g (nr_entries _ _ _ Hn)) as (ms & -> & Hms). exists ms. split_and!; try done.
  - intros ->. destruct (lev_levels ht l es Hlv Hb ltac:(lia)) as [Hlv0 _].
    destruct (ht - l) as [|d] eqn:Ed; [lia|]. destruct Hlv0 as (_ & _ & _ & HE & _).
    assert (Hup : snd (lev (S l) es) <> []).
    { cbn [lev snd]. unfold up, metas. intros E%fmap_nil_inv. by apply level_groups_ne in E. }
    by apply (Forall_lookup_1 _ _ _ _ (lgroups_ne lp mp false _ Hup)) in Hg.
  - pose proof (levels_unfold _ _ _ _ _ _ _ Hlv') as ((B & K & Hlo) & _).
    pose proof (eo_entries _ _ (lo_entries _ _ _ _ _ Hlo)) as Hen.
    change (fst (lev (S l) es)) with false in *.
    rewrite <- (lgroups_concat lp mp false (snd (lev (S l) es))) in Hw, Hen. rewrite (concat_at _ _ _ Hg) in Hw, Hen.
    rewrite !sum_with_app in Hw. apply Forall_app in Hen as [H1%sum_weight_nonneg [H2 H3%sum_weight_nonneg]%Forall_app].
    rewrite (elements_sum ms Hms) in Hw. lia.
Qed.

Lemma descend_index_reaches ht es : forall fuel l n ps c g x cur,
  lvls ht true es -> (Z.of_nat (length es) < 2 ^ 64)%Z -> l <= ht ->
  lgr (fst (lev l es)) (snd (lev l es)) !! c = Some g -> node_rep n (knd (fst (lev l es))) g ->
  above (ht - l) (fst (lev l es)) (snd (lev l es)) c ps ->
  descend_index get fuel n x ps = Some cur -> reaches ht es cur.
Proof.
  induction fuel as [|fuel IH]; intros l n ps c g x cur Hlv Hb Hl Hg Hn Hab E; [done|].
  cbn [descend_index] in E. apply bind_Some in E as (ne & Hne & E). destruct l as [|l].
  - rewrite (isLeaf_rep _ _ _ Hn), bool_decide_false in E by done. injection E as <-.
    rewrite Nat.sub_0_r in Hab. by eexists c, g, _, ps.
  - rewrite (isLeaf_rep _ _ _ Hn), bool_decide_true in E by done. cbn [negb] in E.
    destruct (inner_node ht l es c g n Hlv Hb Hl Hg Hn) as (ms & -> & Hms & Hmne & Hs & Hel).
    rewrite (meta_numEntries n ms Hn) in Hne. injection Hne as <-.
    rewrite (meta_GetChildHashByIndex n ms Hn Hms _ Hmne Hel) in E. osimpl in E.
    apply bind_Some in E as (r' & Hr & E). apply bind_Some in E as (below & _ & E).
    apply pick_child in Hr; [|done|done|done|by eapply child_of_index_picked].
    destruct Hr as (m & Hm & Hh). rewrite Hh in E.
    destruct (lev_levels ht l es Hlv Hb ltac:(lia)) as [Hlv0 _].
    replace (ht - l) with (S (ht - S l)) in Hlv0 by lia.
    destruct (step_down _ _ _ c (snd r') n ps ms m Hlv0 Hg Hms Hn Hab Hm) as (n' & g' & Hld & Hn' & Hg' & Hab').
    rewrite Hld in E. osimpl in E. pose proof (lookup_lt_Some _ _ _ Hm). unfold small in Hs. rewrite length_fmap in Hs.
    rewrite i32_small in E by lia.
    eapply (IH l n' _ _ g'); [done|done|lia|exact Hg'|done| |exact E].
    by replace (ht - l) with (S (ht - S l)) by lia.
Qed.

Lemma descend_key_reaches ht es : forall fuel l n ps c g key cur,
  lvls ht true es -> (Z.of_nat (length es) < 2 ^ 64)%Z -> l <= ht ->
  lgr (fst (lev l es)) (snd (lev l es)) !! c = Some g -> node_rep n (knd (fst (lev l es))) g ->
  above (ht - l) (fst (lev l es)) (snd (lev l es)) c ps ->
  descend_key get fuel n key ps = Some cur -> reaches ht es cur.
Proof.
  induction fuel as [|fuel IH]; intros l n ps c g key cur Hlv Hb Hl Hg Hn Hab E; [done|].
  cbn [descend_key] in E. destruct l as [|l].
  - rewrite (isLeaf_rep _ _ _ Hn), bool_decide_false in E by done. cbn [negb] in E.
    apply bind_Some in E as (i & _ & E). injection E as <-.
    rewrite Nat.sub_0_r in Hab. by eexists c, g, _, ps.
  - rewrite (isLeaf_rep _ _ _ Hn), bool_decide_true in E by done. cbn [negb] in E.
    apply bind_Some in E as (ne & Hne & E).
    destruct (inner_node ht l es c g n Hlv Hb Hl Hg Hn) as (ms & -> & Hms & Hmne & Hs & Hel).
    rewrite (meta_numEntries n ms Hn) in Hne. injection Hne as <-.
    rewrite (meta_GetChildHashByKey n ms Hn Hms _ Hmne) in E. apply bind_Some in E as (r & Hck & E).
    apply bind_Some in E as (r' & Hr & E).
    apply pick_child in Hr; [|done|done|done|by eapply child_of_key_picked].
    destruct Hr as (m & Hm & Hh). rewrite Hh in E.
    destruct (lev_levels ht l es Hlv Hb ltac:(lia)) as [Hlv0 _].
    replace (ht - l) with (S (ht - S l)) in Hlv0 by lia.
    destruct (step_down _ _ _ c (snd r') n ps ms m Hlv0 Hg Hms Hn Hab Hm) as (n' & g' & Hld & Hn' & Hg' & Hab').
    rewrite Hld in E. osimpl in E. pose proof (lookup_lt_Some _ _ _ Hm). unfold small in Hs. rewrite length_fmap in Hs.
    rewrite i32_small in E by lia.
    eapply (IH l n' _ _ g'); [done|done|lia|exact Hg'|done| |exact E].
    by replace (ht - l) with (S (ht - S l)) by lia.
Qed.

(** ** The place of the leaf *)

Lemma ctx_weight ps : forall ht leaf E c g h k es pre post,
  lvls ht leaf E -> (sum_with (weight leaf) E < 2 ^ 64)%Z -> lgr leaf E !! c = Some g ->
  above ht leaf E c ps -> ctx get h k es pre post ps ->
  Z.of_nat (length pre) = sum_with (weight leaf) (concat (take c (lgr leaf E))).
Proof.
  induction ps as [|p ps IH]; intros ht leaf E c g h k es pre post Hlv Hb Hg Hab Hctx.
  - destruct Hctx as [-> _]. destruct ht as [|ht].
    + destruct Hlv as (_ & _ & _ & g0 & Eg). rewrite Eg in *. destruct c; [done|]. by destruct c.
    + by destruct Hab as (? & ? & ? & _ & _ & _ & ?).
  - destruct ht as [|ht]; [done|]. destruct Hab as (c' & j' & g' & Hg' & Hj' & <- & Hat).
    pose proof Hlv as (_ & _ & _ & _ & Hlv').
    destruct Hctx as (ms & ess & j & m & pre' & post' & Hn & HF & Hj & Hm & He & -> & -> & Hctx).
    destruct Hat as ((g2 & Hg2 & Hn2 & _) & Hi & Hab'). rewrite Hg' in Hg2. injection Hg2 as <-.
    pose proof (node_rep_inj _ _ _ _ Hn Hn2) as Eg. assert (j = j') as <- by lia.
    pose proof (upper_weight_all _ _ _ Hlv Hb) as Hwa.
    rewrite length_app, Nat2Z.inj_add.
    rewrite (IH ht false (upper leaf E) c' g' _ _ _ _ _ Hlv' ltac:(by rewrite Hwa) Hg' Hab' Hctx).
    rewrite <- (elements_take _ _ _ _ _ j HF), <- (upper_weight (S ht) leaf E _ Hlv Hb).
    pose proof (take_flat _ _ j _ Hg' ltac:(lia)) as Ht. rewrite lgroups_concat in Ht. rewrite Ht.
    change e_elements with (weight false). rewrite sum_with_app. f_equal.
    rewrite <- Eg, <- fmap_take. pose proof (sub_tree_mi_ok _ _ _ _ _ HF) as Hok.
    symmetry. apply elements_sum. by apply Forall_take.
Qed.

(** A cursor that a descent reached, and that stands at an entry of a leaf. *)
Lemma reached_at ht es cur pre les post i :
  lvls ht true es -> (Z.of_nat (length es) < 2 ^ 64)%Z -> reaches ht es cur ->
  leaf_cur get kind cur pre les post i ->
  exists c, lgr true es !! c = Some les /\ at_nd ht true es c i cur /\
    flat (lgr true es) c i = length pre + i.
Proof.
  intros Hlv Hb (c & g & l & ps & -> & Hg & Hn & Hab) [Hk (l' & ps' & [= <- <-] & Hn' & Hi & Hctx) Hle].
  pose proof (node_rep_inj _ _ _ _ Hn Hn') as ->. exists c. split_and!; [done|..].
  - split; [by exists les|]. split; [done|]. exact Hab.
  - assert (Hw : (sum_with (weight true) es < 2 ^ 64)%Z) by (by rewrite weight_leaf).
    pose proof (ctx_weight ps ht true es c les _ _ _ _ _ Hlv Hw Hg Hab Hctx) as E.
    rewrite weight_leaf in E. unfold flat. lia.
Qed.

End EditCursor.
