(* ===== verification/Splice.v ===== *)
(** * Editing a tree

    Editing a canonical tree with [NodeBuilder] gives the canonical tree of
    the edited sequence of entries: the same root hash that a build from
    scratch of that sequence has. *)

From S2P Require Import Prelude Types Slice HashVal Chunk RollingHash Node NodeSearch Chunker.
From S2P Require Import Canonical Leaf Store Cursor Builder Build Tree TreeProps CursorProps KeySearch.
From S2P Require Import Recut LevelCursor EditChain EditCommit EditCursor.

Section Splice.
Context `{HashFunction} `{Uninit} {St : Type} `{ChunkStoreSpec St}.
Variable (kind : NodeKind) (lp mp : ChunkerParams).
Implicit Types (st : St) (E A : list bytes) (leaf : bool) (ht fuel : nat) (h : bytes).

Abbreviation knd := (lvl_kind kind).
Abbreviation prm := (lvl_params lp mp).
Abbreviation lgr := (lgroups lp mp).
Abbreviation upper := (up kind lp mp).
Abbreviation eroot := (edit_root kind lp mp).
Abbreviation enodes := (edit_nodes kind lp mp).
Abbreviation lvls st := (levels (st_load st) kind lp mp).

(** What the parameters of the inner levels satisfy, for keys of at most [K]
    bytes. *)
Record inner_ok (K : nat) : Prop := {
  io_params : params_ok mp;
  io_window : cp_window mp <= cp_max mp;
  io_size : (Z.of_nat (cp_max mp + (meta_head + K)) + 64 < 2 ^ 32)%Z;
  io_keys : meta_head + K < cp_window mp
}.

(** ** The levels of a canonical tree *)

Lemma level_up leaf E B K :
  level_ok B K (knd leaf) (prm leaf) E -> inner_ok K -> E <> [] ->
  level_ok (meta_head + K) K KMeta mp (upper leaf E).
Proof.
  intros Hl [Hp Hw Hs _] HE. pose proof (level_ok_next _ _ _ _ mp _ Hl HE (conj Hp Hw) Hs) as Hn.
  destruct (level_groups_nonempty (prm leaf) E HE) as [Eg _]. unfold up, lgroups. by rewrite Eg.
Qed.

Lemma many_groups leaf E : 2 <= length (lgr leaf E) -> E <> [].
Proof. intros Hg ->. unfold lgroups, level_groups in Hg. simpl in Hg. lia. Qed.

Lemma tree_levels get fuel : forall leaf E h B K,
  level_ok B K (knd leaf) (prm leaf) E -> inner_ok K -> small E ->
  tree_root fuel mp (knd leaf) (prm leaf) E = Some h ->
  Forall (stored get) (tree_nodes fuel mp (knd leaf) (prm leaf) E) ->
  exists ht, ht < fuel /\ levels get kind lp mp ht leaf E /\ eroot ht (S ht) leaf E = Some h.
Proof.
  induction fuel as [|fuel IH]; intros leaf E h B K Hl Hio Hs Hr Hst; [done|].
  cbn [tree_root tree_nodes] in *. apply Forall_app in Hst as [Hst1 Hst2]. fold (lgr leaf E) in *.
  destruct (lgr leaf E) as [|g1 [|g2 gs]] eqn:Eg.
  - by apply level_groups_ne in Eg.
  - exists 0. split; [lia|]. split.
    + split; [eauto|]. split; [done|]. rewrite Eg. split; [done|by exists g1].
    + cbn [edit_root tree_root]. unfold lgroups in Eg. by rewrite Eg.
  - assert (HE : E <> []) by (apply (many_groups leaf); rewrite Eg; simpl; lia).
    pose proof (level_up _ _ _ _ Hl Hio HE) as Hup.
    destruct (IH false (upper leaf E) h (meta_head + K) K) as (ht & Hht & Hlv & Hre); try done.
    + unfold small in *. pose proof (length_upper_le kind lp mp leaf E HE). lia.
    + unfold up. rewrite Eg. done.
    + unfold up. rewrite Eg. done.
    + exists (S ht). split; [lia|]. split; [|done]. split; [eauto|]. split; [done|]. rewrite Eg.
      split; [done|]. by split.
Qed.

(** *** The nodes of the edited tree *)

Lemma edit_root_total ht : forall fuel leaf N B K,
  level_ok B K (knd leaf) (prm leaf) N -> inner_ok K -> N <> [] -> length N + ht <= fuel ->
  is_Some (eroot ht fuel leaf N).
Proof.
  induction ht as [|ht IH]; intros fuel leaf N B K Hl Hio HN Hf; cbn [edit_root].
  - pose proof Hio as [? ? ? ?]. eapply tree_root_total; [exact Hl|done..|].
    destruct (level_groups_nonempty (prm leaf) N HN) as [-> _]. pose proof (groups_length (prm leaf) N). lia.
  - destruct fuel as [|fuel]; [destruct N; [done|simpl in Hf; lia]|].
    pose proof (length_upper_le kind lp mp leaf N HN).
    eapply IH; [by apply (level_up _ _ B)|done| |lia].
    unfold up, metas. intros E%fmap_nil_inv. by apply level_groups_ne in E.
Qed.

Lemma edit_nodes_size ht : forall fuel leaf N B K,
  level_ok B K (knd leaf) (prm leaf) N -> inner_ok K -> N <> [] ->
  Forall (fun kg => size_ok (snd kg)) (enodes ht fuel leaf N).
Proof.
  induction ht as [|ht IH]; intros fuel leaf N B K Hl Hio HN; cbn [edit_nodes].
  - destruct Hio. by eapply tree_nodes_size.
  - destruct fuel as [|fuel]; [constructor|]. pose proof (level_sizes _ _ _ _ _ Hl) as [_ Hs].
    apply Forall_app. split; [by apply Forall_fmap|].
    eapply IH; [by apply (level_up _ _ B)|done|].
    unfold up, metas. intros E%fmap_nil_inv. by apply level_groups_ne in E.
Qed.

(** The nodes of the canonical tree are among them. *)
Lemma tree_nodes_edit ht : forall fuel leaf N x,
  x ∈ tree_nodes fuel mp (knd leaf) (prm leaf) N -> x ∈ enodes ht fuel leaf N.
Proof.
  induction ht as [|ht IH]; intros fuel leaf N x; cbn [edit_nodes]; [done|].
  destruct fuel as [|fuel]; [done|]. cbn [tree_nodes]. unfold lgroups, up, lgroups.
  rewrite !elem_of_app. intros [?|Hx]; [by left|right]. apply (IH fuel false).
  destruct (level_groups (prm leaf) N) as [|g1 [|g2 gs]]; [exact Hx|by apply elem_of_nil in Hx|exact Hx].
Qed.

Lemma put_all_kept st nodes : kept st (put_all st nodes).
Proof.
  revert st. induction nodes as [|x nodes IH]; intros st; [by intros y|].
  cbn [put_all fold_left]. etransitivity; [apply put_kept|]. apply IH.
Qed.

Lemma committed_stored st ht fuel leaf E N h st' B K :
  lvls st ht leaf E -> level_ok B K (knd leaf) (prm leaf) N -> inner_ok K -> N <> [] ->
  puts_succeed (St := St) -> no_collisions st (enodes ht fuel leaf N) ->
  committed kind lp mp st ht fuel leaf E N (Some (Some h, st')) ->
  eroot ht fuel leaf N = Some h /\ Forall (stored (st_load st')) (enodes ht fuel leaf N) /\ kept st st'.
Proof.
  intros Hlv Hl Hio HN Hput Hnc (nodes & Hr & Hin & Hout).
  destruct (eroot ht fuel leaf N) as [h'|]; [|done]. osimpl in Hr. injection Hr as -> ->.
  pose proof (put_all_kept st nodes) as Hk. split_and!; [done| |done].
  destruct (put_all_stored st (enodes ht fuel leaf N) nodes Hput (edit_nodes_size _ _ _ _ _ _ Hl Hio HN) Hnc Hin)
    as ((_ & Hc) & _ & Hall).
  apply Forall_forall. intros x Hx. destruct (Hout x Hx) as [Hn|Ho].
  - destruct (Hall x Hn) as [c Ec]. exists c. split; [|by apply Hc].
    unfold st_load. simpl. rewrite Get_spec. fold (node_hash x). by rewrite Ec.
  - apply Hk. by eapply Forall_forall in Ho; [|by apply old_nodes_stored].
Qed.

(** ** Pruning the root *)

Definition nhash (k : NodeKind) (g : list bytes) : bytes := mi_hash (meta_of k g).

Lemma stored_node get k g :
  stored get (k, g) -> entries_ok k g ->
  exists n, load_node get (Some (nhash k g)) = Some n /\ node_rep n k g.
Proof.
  intros (c & Hg & Hc) Hok. unfold nhash. rewrite meta_of_hash. unfold load_node. cbn [fst snd] in *.
  rewrite Hg. osimpl. destruct (CreateFromChunk_rep c k g Hc Hok) as (n & -> & _ & Hn). eauto.
Qed.

(** A leaf, or a node with several entries, is not pruned. *)
Lemma prune_stays st k g f :
  stored (st_load st) (k, g) -> entries_ok k g -> k <> KMeta \/ 2 <= length g ->
  prune_root (S f) st (Some (nhash k g)) = Some (Some (nhash k g)).
Proof.
  intros Hst Hok Hk. destruct (stored_node _ _ _ Hst Hok) as (n & Hl & Hn). cbn [prune_root].
  rewrite Hl. osimpl. unfold isLeaf. rewrite (nr_kind _ _ _ Hn).
  destruct (decide (k = KMeta)) as [->|Hne]; [|by rewrite bool_decide_false].
  rewrite bool_decide_true by done. cbn [negb]. rewrite (numEntries_rep _ _ _ Hn). osimpl.
  destruct Hk as [?|Hk]; [done|]. by rewrite (proj2 (Nat.eqb_neq _ _)) by lia.
Qed.

(** A node with one entry is replaced by its child. *)
Lemma prune_one st k g f :
  stored (st_load st) (KMeta, [mi_bytes (meta_of k g)]) -> entries_ok KMeta [mi_bytes (meta_of k g)] ->
  mi_ok (meta_of k g) ->
  prune_root (S f) st (Some (nhash KMeta [mi_bytes (meta_of k g)])) = prune_root f st (Some (nhash k g)).
Proof.
  intros Hst Hok Hm. destruct (stored_node _ _ _ Hst Hok) as (n & Hl & Hn). cbn [prune_root].
  rewrite Hl. osimpl. unfold isLeaf. rewrite (nr_kind _ _ _ Hn), bool_decide_true by done. cbn [negb].
  rewrite (numEntries_rep _ _ _ Hn). osimpl. cbn [length Nat.eqb].
  change [mi_bytes (meta_of k g)] with (mi_bytes <$> [meta_of k g]) in Hn.
  rewrite (meta_GetChildHashByEntry n [meta_of k g] Hn ltac:(by constructor) 0 (meta_of k g) eq_refl). done.
Qed.

Lemma groups_one p (e : bytes) : groups p [e] = [[e]].
Proof.
  unfold groups. rewrite split_eq. destruct (find_boundary p [] (concat [e])) as [k|] eqn:Ek; [|done].
  apply find_boundary_Some in Ek as (Hk & _). pose proof (entry_at_lt _ _ Hk) as Hlt.
  cbn [length] in Hlt. assert (entry_at [e] k = 0) as -> by lia. done.
Qed.

Lemma upper_single leaf N g :
  lgr leaf N = [g] -> upper leaf N = [mi_bytes (meta_of (knd leaf) g)] /\
    lgr false (upper leaf N) = [[mi_bytes (meta_of (knd leaf) g)]].
Proof.
  intros Eg. assert (Eu : upper leaf N = [mi_bytes (meta_of (knd leaf) g)]) by (unfold up; by rewrite Eg).
  split; [done|]. rewrite Eu. unfold lgroups, level_groups. by rewrite groups_one.
Qed.

(** The facts about the new levels that pruning needs. *)
Lemma single_stored st ht fuel leaf N g B K :
  level_ok B K (knd leaf) (prm leaf) N -> inner_ok K -> N <> [] -> lgr leaf N = [g] ->
  Forall (stored (st_load st)) (enodes ht fuel leaf N) -> 0 < fuel ->
  stored (st_load st) (knd leaf, g) /\ entries_ok (knd leaf) g /\ mi_ok (meta_of (knd leaf) g).
Proof.
  intros Hl Hio HN Eg Hst Hf.
  assert (Hin : (knd leaf, g) ∈ enodes ht fuel leaf N).
  { apply tree_nodes_edit. destruct fuel as [|fuel]; [lia|]. cbn [tree_nodes]. unfold lgroups in Eg. rewrite Eg.
    simpl. by left. }
  assert (Eg' : N = g) by (rewrite <- (lgroups_concat lp mp leaf N), Eg; simpl; by rewrite app_nil_r).
  pose proof (lo_entries _ _ _ _ _ Hl) as Hok. rewrite Eg' in Hok. split_and!.
  - by eapply Forall_forall in Hst.
  - done.
  - apply meta_of_ok; [apply Hok|]. pose proof (level_sizes _ _ _ _ _ Hl) as [_ Hsz].
    fold (lgr leaf N) in Hsz. rewrite Eg in Hsz. by apply Forall_cons in Hsz as [? _].
Qed.

Lemma prune_single st ht : forall fuel leaf N g h f B K,
  level_ok B K (knd leaf) (prm leaf) N -> inner_ok K -> N <> [] -> lgr leaf N = [g] ->
  Forall (stored (st_load st)) (enodes ht fuel leaf N) -> eroot ht fuel leaf N = Some h ->
  prune_root (ht + f) st (Some h) = prune_root f st (Some (nhash (knd leaf) g)).
Proof.
  induction ht as [|ht IH]; intros fuel leaf N g h f B K Hl Hio HN Eg Hst Hr;
    (destruct fuel as [|fuel]; [done|]).
  - cbn [edit_root tree_root] in Hr. unfold lgroups in Eg. rewrite Eg in Hr. by injection Hr as <-.
  - destruct (upper_single _ _ _ Eg) as [Eu Eg']. pose proof (level_up _ _ _ _ Hl Hio HN) as Hup.
    destruct (single_stored st (S ht) (S fuel) leaf N g B K Hl Hio HN Eg Hst ltac:(lia)) as (_ & _ & Hm).
    cbn [edit_root edit_nodes] in Hr, Hst. apply Forall_app in Hst as [_ Hst].
    assert (Hne : upper leaf N <> []) by (by rewrite Eu).
    rewrite Nat.add_succ_comm, (IH fuel false (upper leaf N) _ h (S f) _ K Hup Hio Hne Eg' Hst Hr).
    destruct (single_stored st ht fuel false (upper leaf N) _ _ K Hup Hio Hne Eg' Hst) as (Hs & Hok & _).
    { destruct ht, fuel; try done; lia. }
    by apply prune_one.
Qed.

(** A root of the canonical tree stays. *)
Lemma tree_root_stays st f fuel : forall leaf N h B K,
  level_ok B K (knd leaf) (prm leaf) N -> inner_ok K -> N <> [] ->
  knd leaf <> KMeta \/ 2 <= length N ->
  Forall (stored (st_load st)) (tree_nodes fuel mp (knd leaf) (prm leaf) N) ->
  tree_root fuel mp (knd leaf) (prm leaf) N = Some h -> prune_root (S f) st (Some h) = Some (Some h).
Proof.
  induction fuel as [|fuel IH]; intros leaf N h B K Hl Hio HN Hk Hst Hr; [done|].
  destruct (decide (length (lgr leaf N) < 2)) as [Hlt|Hge].
  - destruct (lgr leaf N) as [|g [|g2 gs]] eqn:Eg; [by apply level_groups_ne in Eg| |simpl in Hlt; lia].
    destruct (single_stored st 0 (S fuel) leaf N g B K Hl Hio HN Eg Hst ltac:(lia)) as (Hs & Hok & _).
    cbn [tree_root] in Hr. fold (lgr leaf N) in Hr. rewrite Eg in Hr. injection Hr as <-.
    apply prune_stays; [done|done|]. destruct Hk as [?|Hk]; [by left|right].
    rewrite <- (lgroups_concat lp mp leaf N), Eg in Hk. simpl in Hk. by rewrite app_nil_r in Hk.
  - cbn [tree_root tree_nodes] in Hr, Hst. apply Forall_app in Hst as [_ Hst]. fold (lgr leaf N) in Hr, Hst.
    eapply (IH false (upper leaf N) h _ K (level_up _ _ _ _ Hl Hio HN) Hio).
    + unfold up, metas. intros E%fmap_nil_inv. by apply level_groups_ne in E.
    + right. rewrite length_up. lia.
    + unfold up. destruct (lgr leaf N) as [|g [|g2 gs]] eqn:Eg; simpl in Hge; [lia|lia|exact Hst].
    + unfold up. destruct (lgr leaf N) as [|g [|g2 gs]] eqn:Eg; simpl in Hge; [lia|lia|exact Hr].
Qed.

(** [Commit]'s loop finds the root of the canonical tree. *)
Lemma prune_edit st ht : forall fuel leaf N h f B K,
  level_ok B K (knd leaf) (prm leaf) N -> inner_ok K -> N <> [] ->
  knd leaf <> KMeta \/ 2 <= length N ->
  Forall (stored (st_load st)) (enodes ht fuel leaf N) -> eroot ht fuel leaf N = Some h -> ht < f ->
  exists h', tree_root fuel mp (knd leaf) (prm leaf) N = Some h' /\ prune_root f st (Some h) = Some (Some h').
Proof.
  induction ht as [|ht IH]; intros fuel leaf N h f B K Hl Hio HN Hk Hst Hr Hf.
  - exists h. split; [done|]. destruct f as [|f]; [lia|]. by eapply tree_root_stays.
  - destruct fuel as [|fuel]; [done|].
    destruct (decide (length (lgr leaf N) < 2)) as [Hlt|Hge].
    + destruct (lgr leaf N) as [|g [|g2 gs]] eqn:Eg; [by apply level_groups_ne in Eg| |simpl in Hlt; lia].
      exists (nhash (knd leaf) g). split; [cbn [tree_root]; fold (lgr leaf N); by rewrite Eg|].
      replace f with (S ht + S (f - S (S ht))) by lia.
      rewrite (prune_single st (S ht) (S fuel) leaf N g h _ B K Hl Hio HN Eg Hst Hr).
      destruct (single_stored st (S ht) (S fuel) leaf N g B K Hl Hio HN Eg Hst ltac:(lia)) as (Hs & Hok & _).
      apply prune_stays; [done|done|]. destruct Hk as [?|Hk]; [by left|right].
      rewrite <- (lgroups_concat lp mp leaf N), Eg in Hk. simpl in Hk. by rewrite app_nil_r in Hk.
    + cbn [edit_root edit_nodes] in Hr, Hst. apply Forall_app in Hst as [_ Hst].
      destruct (IH fuel false (upper leaf N) h f _ K (level_up _ _ _ _ Hl Hio HN) Hio) as (h' & Ht & Hp); try done.
      * unfold up, metas. intros E%fmap_nil_inv. by apply level_groups_ne in E.
      * right. rewrite length_up. lia.
      * lia.
      * exists h'. split; [|done]. cbn [tree_root]. fold (lgr leaf N). unfold up in Ht.
        destruct (lgr leaf N) as [|g [|g2 gs]] eqn:Eg; simpl in Hge; [lia|lia|exact Ht].
Qed.

(** ** The whole edit *)

(** [SpliceElements] and [Commit] on builders that have done nothing yet. *)
Lemma edit_commit st ht E x b ps del qsegs ess fuel B K :
  let N := take x E ++ concat ess ++ drop (x + del) E in
  kind <> KMeta -> lvls st ht true E -> chain kind lp mp ht true E x x [] (b :: ps) -> commited_ b = true ->
  x <= length E -> segs_rep qsegs ess ->
  level_ok B K kind lp N -> inner_ok K ->
  concat ess ++ drop (x + del) E <> [] \/ snd (split lp (take x E)) <> [] ->
  puts_succeed (St := St) -> no_collisions st (enodes ht fuel true N) ->
  length E + S ht < fuel -> length N + ht <= fuel ->
  exists h st', (bs' ← SpliceElements st del (Some <$> qsegs) (b :: ps); Commit kind lp mp fuel bs' st)
      = Some (Some h, st') /\
    tree_root fuel mp kind lp N = Some h /\
    Forall (stored (st_load st')) (tree_nodes fuel mp kind lp N) /\ kept st st'.
Proof.
  intros N Hk Hlv Hch Hcm Hx Hq Hl Hio Hcut Hput Hnc Hf1 Hf2. unfold SpliceElements. rewrite Hcm. cbn [negb].
  destruct (SkipEntries_rep kind lp mp st ht true E x x [] (b :: ps) del (length (b :: ps)) Hlv Hch (le_n _) Hx)
    as (m & b' & ps' & -> & Hcb & Hch'). osimpl. cbn [snd].
  set (y := skipped E x del) in *.
  assert (Hdrop : drop y E = drop (x + del) E).
  { unfold y, skipped. destruct (decide (x + del <= length E)); [by rewrite Nat.min_l by lia|].
    rewrite Nat.min_r, !drop_ge by lia. done. }
  assert (EN : edited E x (concat ess) y = N) by (unfold edited, N; by rewrite Hdrop).
  rewrite (set_uncommited_id _ Hcb).
  pose proof (chain_append kind lp mp ht true E x y [] b' ps' qsegs ess Hch' Hq) as Hch2. cbn [app] in Hch2.
  pose proof Hio as [Hp Hw Hsz HK].
  pose proof (RecursiveCommit_edit kind lp mp K ht fuel true E x y (concat ess) (append_segs b' (Some <$> qsegs)) ps' st B)
    as HR. rewrite EN, Hdrop in HR.
  specialize (HR Hlv Hch2 Hcb ltac:(unfold y, skipped; lia) Hl Hcut Hp Hw Hsz Hf1).
  assert (HN : N <> []) by (rewrite <- EN; apply (edited_ne lp mp true); by rewrite Hdrop).
  destruct (edit_root_total ht fuel true N B K Hl Hio HN Hf2) as [h0 Hh0].
  assert (exists st', RecursiveCommit kind lp mp fuel true (append_segs b' (Some <$> qsegs)) ps' st
      = Some (Some h0, st')) as [st' Er].
  { destruct HR as (nodes & -> & _). rewrite Hh0. by eexists. }
  rewrite Er in HR.
  destruct (committed_stored _ _ _ _ _ _ _ _ B K Hlv Hl Hio HN Hput Hnc HR) as (_ & Hst & Hkept).
  destruct (prune_edit st' ht fuel true N h0 fuel B K Hl Hio HN (or_introl Hk) Hst Hh0 ltac:(lia))
    as (h & Htr & Hpr).
  exists h, st'. split_and!; [|done| |done].
  - osimpl. unfold Commit. rewrite Er. osimpl. cbv beta iota.
    destruct Hch2 as (? & ? & ? & ? & [(cur & Hcur & _) _ _ _ _] & _). rewrite Hcur. osimpl.
    by rewrite Hpr.
  - apply Forall_forall. intros z Hz. by eapply Forall_forall in Hst; [|by apply (tree_nodes_edit ht fuel true)].
Qed.

(** The root of the old tree. *)
Lemma root_level get ht : forall leaf0 E0 h,
  levels get kind lp mp ht leaf0 E0 -> eroot ht (S ht) leaf0 E0 = Some h ->
  exists leaf E g n, (leaf, E) = Nat.iter ht (fun q => (false, upper (fst q) (snd q))) (leaf0, E0) /\
    lgr leaf E = [g] /\ load_node get (Some h) = Some n /\ node_rep n (knd leaf) g.
Proof.
  induction ht as [|ht IH]; intros leaf0 E0 h Hlv Hr.
  - pose proof Hlv as (_ & _ & _ & g & Eg). cbn [edit_root tree_root] in Hr. fold (lgr leaf0 E0) in Hr.
    rewrite Eg in Hr. injection Hr as <-.
    destruct (group_ok _ _ _ _ _ _ _ 0 g Hlv ltac:(by rewrite Eg)) as (Hok & _ & _ & Hst & _).
    destruct (stored_node _ _ _ Hst Hok) as (n & Hl & Hn). by exists leaf0, E0, g, n.
  - pose proof Hlv as (_ & _ & _ & _ & Hlv').
    destruct (IH false (upper leaf0 E0) h Hlv' Hr) as (leaf & E & g & n & HE & Hrest).
    exists leaf, E, g, n. split; [|done]. by rewrite HE, Nat.iter_succ_r.
Qed.

Lemma lev_iter l es : lev kind lp mp l es = Nat.iter l (fun q => (false, upper (fst q) (snd q))) (true, es).
Proof. induction l as [|l IH]; [done|]. cbn [lev Nat.iter nat_rect]. by rewrite IH. Qed.

(** The builders for a position: the tree below [h] is canonical. *)
Lemma builders_at get ht es h cur n x pre les post i :
  kind <> KMeta -> levels get kind lp mp ht true es -> eroot ht (S ht) true es = Some h -> small es ->
  params_ok lp -> params_ok mp -> load_node get (Some h) = Some n ->
  (exists fuel y, descend_index get fuel n y [] = Some cur) \/
  (exists fuel key, descend_key get fuel n key [] = Some cur) ->
  leaf_cur get kind cur pre les post i -> i < length les \/ post = [] ->
  es = pre ++ les ++ post -> x = length pre + i ->
  exists b ps, builder_of_cursor kind lp mp true cur = Some (b :: ps) /\ commited_ b = true /\
    chain kind lp mp ht true es x x [] (b :: ps).
Proof.
  intros Hk Hlv Hr Hs Hlp Hmp Hn Hd Hc Hi Ees ->.
  assert (Hb : (Z.of_nat (length es) < 2 ^ 64)%Z) by (unfold small in Hs; lia).
  destruct (root_level get ht true es h Hlv Hr) as (leaf & E & g & n' & HE & Eg & Hn' & Hrep).
  rewrite Hn in Hn'. injection Hn' as <-. rewrite <- lev_iter in HE.
  assert (Hreach : reaches kind lp mp ht es cur).
  { assert (Hg : lgr (fst (lev kind lp mp ht es)) (snd (lev kind lp mp ht es)) !! 0 = Some g)
      by (rewrite <- HE; cbn [fst snd]; by rewrite Eg).
    assert (Hab : above kind lp mp (ht - ht) (fst (lev kind lp mp ht es)) (snd (lev kind lp mp ht es)) 0 [])
      by (by rewrite Nat.sub_diag).
    assert (Hrep' : node_rep n (knd (fst (lev kind lp mp ht es))) g) by (by rewrite <- HE).
    destruct Hd as [(fuel & y & Ed)|(fuel & key & Ed)].
    - by apply (descend_index_reaches get kind lp mp Hk ht es fuel ht n [] 0 g y cur).
    - by apply (descend_key_reaches get kind lp mp Hk ht es fuel ht n [] 0 g key cur). }
  destruct (reached_at get kind lp mp Hk ht es cur pre les post i Hlv Hb Hreach Hc) as (c & Hg & Hat & Hfl).
  destruct (builder_of_cursor_rep kind lp mp get ht true es c i cur les Hlv Hat Hg) as (b & ps & Hbc & Hcm & Hch);
    [|done|done|].
  - destruct Hi as [?|Hp]; [by left|right]. subst post. pose proof (lc_idx _ _ _ _ _ _ _ Hc) as Hil.
    destruct (decide (es = [])) as [E0|HE0].
    + subst es. unfold lgroups, level_groups in *. rewrite E0 in *. simpl in *.
      by apply lookup_lt_Some in Hg; simpl in Hg; lia.
    + apply (flat_end _ _ (length les) _ (lgroups_ne lp mp true es HE0) Hg (le_n _)).
      rewrite lgroups_concat. unfold flat in *. rewrite Ees at 2. rewrite app_nil_r, length_app. lia.
  - exists b, ps. rewrite Hfl in Hch. by split_and!.
Qed.

End Splice.
