(* ===== verification/SpliceProps.v ===== *)
(** * Properties of edits *)

From S2P Require Import Prelude Types Slice HashVal Chunk RollingHash Node NodeSearch Chunker.
From S2P Require Import Canonical Leaf Store Cursor Builder Objects Build Tree TreeProps CursorProps KeySearch.
From S2P Require Import ReadProps CreateProps ObjectProps.
From S2P Require Import Recut LevelCursor EditChain EditCommit EditCursor Splice.

(** ** Canonical trees in a store *)

Section Canonical.
Context `{HashFunction} `{Uninit} {St : Type} `{ChunkStoreSpec St}.
Variable (k : NodeKind) (lp mp : ChunkerParams).
Implicit Types (st : St) (es : list bytes) (h : bytes).

(** The store holds the canonical tree of [es], and [h] is its root; a tree has
    at most as many levels as entries. *)
Definition canonical st h es : Prop :=
  tree_root (S (length es)) mp k lp es = Some h /\
  Forall (stored (st_load st)) (tree_nodes (S (length es)) mp k lp es).

Lemma tree_root_more f : forall f' k p es h,
  tree_root f mp k p es = Some h -> f <= f' ->
  tree_root f' mp k p es = Some h /\ tree_nodes f' mp k p es = tree_nodes f mp k p es.
Proof.
  induction f as [|f IH]; intros f' k' p es h Hr Hf; [done|]. destruct f' as [|f']; [lia|].
  cbn [tree_root tree_nodes] in *.
  destruct (level_groups p es) as [|g1 [|g2 gs]]; [|done|];
    destruct (IH f' _ _ _ _ Hr ltac:(lia)) as [-> ->]; done.
Qed.

(** An edit of [es] to [es'] is within the limits: all levels can be cut, the
    fuel suffices, writes succeed, and the hashes of the nodes that may be
    written are not those of other chunks. *)
Record can_edit (fuel : nat) st es es' : Prop := {
  ce_kind : k <> KMeta;
  ce_levels : exists B K, level_ok B K k lp es /\ level_ok B K k lp es' /\ inner_ok mp K;
  ce_small : small es;
  ce_small' : small es';
  ce_fuel : length es + S (length es) < fuel /\ length es' + S (length es) <= fuel;
  ce_puts : puts_succeed (St := St);
  ce_collisions : forall ht, ht <= length es -> no_collisions st (edit_nodes k lp mp ht fuel true es')
}.

(** The edit does not leave the sequence empty, nor does it cut off its end
    exactly where a node begins. *)
Definition keeps_end es (idx del : nat) (new : list bytes) : Prop :=
  new ++ drop (idx + del) es <> [] \/ snd (split lp (take idx es)) <> [].

Lemma canonical_root_total es K B :
  level_ok B K k lp es -> inner_ok mp K -> is_Some (tree_root (S (length es)) mp k lp es).
Proof.
  intros Hl [? ? ? ?]. eapply tree_root_total; [exact Hl|done..|].
  unfold level_groups. pose proof (groups_length lp es). destruct (groups lp es); simpl in *; lia.
Qed.

(** The old tree, as the edit finds it. *)
Lemma canonical_levels fuel st h es es' :
  canonical st h es -> can_edit fuel st es es' ->
  exists ht B K, ht <= length es /\ level_ok B K k lp es' /\ inner_ok mp K /\ params_ok lp /\
    levels (st_load st) k lp mp ht true es /\ edit_root k lp mp ht (S ht) true es = Some h /\
    exists ht', ht' < fuel /\ tree (st_load st) ht' k h es.
Proof.
  intros [Hr Hst] [Hk (B & K & Hl & Hl' & Hio) Hs _ [Hf _] _ _].
  destruct (tree_levels k lp mp (st_load st) (S (length es)) true es h B K Hl Hio Hs Hr Hst)
    as (ht & Hht & Hlv & He). pose proof Hio as [Hp Hw Hsz HK].
  destruct (canonical_tree (st_load st) mp k lp K (S (length es)) es B h Hk Hl Hp Hw Hsz Hst Hr)
    as (ht' & Hht' & Ht).
  exists ht, B, K. split_and!; try done; [lia|apply Hl|]. exists ht'. split; [lia|done].
Qed.

(** Trees that are there stay. *)
Lemma canonical_kept st st' h es : kept st st' -> canonical st h es -> canonical st' h es.
Proof. intros Hk [Hr Hst]. split; [done|]. eapply Forall_impl; [exact Hst|exact Hk]. Qed.

(** The result of an edit. *)
Definition edit_result (fuel : nat) st es' (r : option (Hash * St)) : Prop :=
  exists h' st', r = Some (Some h', st') /\ canonical st' h' es' /\ kept st st' /\
    tree_root fuel mp k lp es' = Some h'.

Lemma edit_builders fuel st es es' ht B K b ps x del qsegs ess :
  es' = take x es ++ concat ess ++ drop (x + del) es ->
  can_edit fuel st es es' -> ht <= length es -> level_ok B K k lp es' -> inner_ok mp K ->
  levels (st_load st) k lp mp ht true es -> x <= length es -> segs_rep qsegs ess ->
  keeps_end es x del (concat ess) ->
  commited_ b = true -> chain k lp mp ht true es x x [] (b :: ps) ->
  edit_result fuel st es'
    (bs' ← SpliceElements st del (Some <$> qsegs) (b :: ps); Commit k lp mp fuel bs' st).
Proof.
  intros Ees [Hk _ _ _ [Hf1 Hf2] Hput Hnc] Hht Hl Hio Hlv Hx Hq Hcut Hcm Hch. rewrite Ees in *.
  destruct (edit_commit k lp mp st ht es x b ps del qsegs ess fuel B K) as (h' & st' & E & Hr & Hst & Hkept);
    try done; [by apply Hnc|lia|lia|].
  exists h', st'. destruct (canonical_root_total _ _ _ Hl Hio) as [h2 Hh2].
  destruct (tree_root_more _ fuel _ _ _ _ Hh2 ltac:(lia)) as [Hr2 En]. rewrite Hr in Hr2. injection Hr2 as <-.
  split_and!; [done| |done|done]. split; [done|]. by rewrite <- En.
Qed.

Lemma splice_rep fuel st h es idx del qsegs ess :
  let es' := take idx es ++ concat ess ++ drop (idx + del) es in
  canonical st h es -> can_edit fuel st es es' -> idx <= length es -> segs_rep qsegs ess ->
  keeps_end es idx del (concat ess) ->
  edit_result fuel st es' (splice k lp mp fuel st (Some h) (Z.of_nat idx) del (Some <$> qsegs)).
Proof.
  intros es' Hc He Hidx Hq Hcut.
  destruct (canonical_levels _ _ _ _ _ Hc He) as (ht & B & K & Hht & Hl & Hio & Hlp & Hlv & Hr & ht' & Hf & Ht).
  pose proof (ce_small _ _ _ _ He) as Hs. pose proof (ce_kind _ _ _ _ He) as Hk.
  destruct (tree_node _ _ _ _ _ Ht) as (n & Hn & _).
  assert (exists cur pre les post i, cursor_by_index (st_load st) fuel (Some h) (Z.of_nat idx) = Some (Some cur) /\
    leaf_cur (st_load st) k cur pre les post i /\ (i < length les \/ post = []) /\ es = pre ++ les ++ post /\
    idx = length pre + i) as (cur & pre & les & post & i & Hcur & Hlc & Hi & Ees & Eidx).
  { destruct (cursor_by_index_rep (st_load st) fuel ht' k h es idx Ht Hs Hf) as (C1 & C2 & _).
    destruct (decide (idx < length es)) as [Hlt|Hge].
    - destruct (C1 Hlt) as (c & Ec & pre & les & post & i & ? & ? & ? & ?). exists c, pre, les, post, i. tauto.
    - assert (Hl0 : idx = length es) by lia. destruct (C2 Hl0) as (c & Ec & pre & les & ? & E0).
      exists c, pre, les, [], (length les). split_and!; [done|done|by right|by rewrite app_nil_r|].
      rewrite Hl0, E0, length_app. done. }
  unfold splice, builder_at_index. rewrite Hcur. osimpl.
  destruct (builders_at k lp mp (st_load st) ht es h cur n idx pre les post i Hk Hlv Hr Hs Hlp (io_params _ _ Hio) Hn)
    as (b & ps & -> & Hcm & Hch); [left|done..|].
  { unfold cursor_by_index in Hcur. rewrite Hn in Hcur. osimpl in Hcur.
    apply bind_Some in Hcur as (tot & _ & Hcur). destruct (Z.of_nat idx <=? tot)%Z; [|done].
    apply fmap_Some in Hcur as (c0 & Hd & [= <-]). eauto. }
  osimpl. by eapply edit_builders.
Qed.

(** Editing at a key: at the first entry whose key is not smaller. *)
Lemma splice_at_key_rep fuel st h es keys key del seg new :
  let idx := lower_bound keys key in
  let es' := take idx es ++ new ++ drop (idx + del) es in
  k = KMap \/ k = KSet -> entry_keys k es keys -> key_sorted keys ->
  canonical st h es -> can_edit fuel st es es' -> seg_rep seg new ->
  keeps_end es idx del new ->
  edit_result fuel st es'
    (bs ← builder_at_key k lp mp fuel st (Some h) (FromSlice key);
     bs' ← SpliceElements st del [Some seg] bs; Commit k lp mp fuel bs' st).
Proof.
  intros idx es' Hkk HK Hks Hc He Hq Hcut.
  destruct (canonical_levels _ _ _ _ _ Hc He) as (ht & B & K & Hht & Hl & Hio & Hlp & Hlv & Hr & ht' & Hf & Ht).
  pose proof (ce_small _ _ _ _ He) as Hs. pose proof (ce_kind _ _ _ _ He) as Hk.
  destruct (tree_node _ _ _ _ _ Ht) as (n & Hn & _). pose proof (Forall2_length _ _ _ HK) as Hlen.
  pose proof (lower_bound_le keys key) as Hle.
  destruct (cursor_by_key_rep (st_load st) fuel ht' k h es keys key Hkk HK Hks Ht Hs Hf) as (cur & Hcur & C1 & C2).
  assert (exists pre les post i, leaf_cur (st_load st) k cur pre les post i /\ (i < length les \/ post = []) /\
    es = pre ++ les ++ post /\ idx = length pre + i) as (pre & les & post & i & Hlc & Hi & Ees & Eidx).
  { destruct (decide (idx < length es)) as [Hlt|Hge].
    - destruct (C1 Hlt) as (pre & les & post & i & ? & ? & ? & ?). exists pre, les, post, i. tauto.
    - assert (Hl0 : lower_bound keys key = length es) by (unfold idx in Hge; lia).
      destruct (C2 Hl0) as (pre & les & ? & E0).
      exists pre, les, [], (length les). split_and!; [done|by right|by rewrite app_nil_r|].
      unfold idx. rewrite Hl0, E0, length_app. done. }
  unfold builder_at_key. rewrite Hcur. osimpl.
  destruct (builders_at k lp mp (st_load st) ht es h cur n idx pre les post i Hk Hlv Hr Hs Hlp (io_params _ _ Hio) Hn)
    as (b & ps & -> & Hcm & Hch); [right|done..|].
  { unfold cursor_by_key in Hcur. rewrite Hn in Hcur. osimpl in Hcur. eauto. }
  osimpl. assert (Enew : new = concat [new]) by (simpl; by rewrite app_nil_r).
  apply (edit_builders fuel st es es' ht B K b ps idx del [seg] [new]); try done.
  - unfold es'. by rewrite Enew at 1.
  - unfold idx. lia.
  - by constructor.
  - by rewrite <- Enew.
Qed.

End Canonical.

(** ** Objects *)

(** *** The items of a map after an edit *)

Definition key_pos (items : list KVItem) (key : Slice) : nat := lower_bound (kv_key <$> items) key.
Definition key_count (items : list KVItem) (key : Slice) : nat :=
  if bool_decide (key ∈ kv_key <$> items) then 1 else 0.

Definition edit_items (items new : list KVItem) (key : Slice) : list KVItem :=
  take (key_pos items key) items ++ new ++ drop (key_pos items key + key_count items key) items.

Lemma assoc_value_app a b key :
  assoc_value (a ++ b) key = match assoc_value a key with Some v => Some v | None => assoc_value b key end.
Proof. induction a as [|it a IH]; simpl; [done|]. by case_decide. Qed.

(** The item with the key, if there is one, is the one at the position. *)
Lemma key_at_pos items key :
  key_sorted (kv_key <$> items) -> key ∈ kv_key <$> items ->
  exists it, items !! key_pos items key = Some it /\ kv_key it = key.
Proof.
  intros Hs (i & Hi)%list_elem_of_lookup. unfold key_pos. rewrite (lower_bound_sorted _ _ _ Hs Hi).
  rewrite list_lookup_fmap in Hi. destruct (items !! i) as [it|]; [|done]. injection Hi as <-. eauto.
Qed.

Lemma assoc_before items key key' :
  slice_lt key' key = false -> assoc_value (take (key_pos items key) items) key' = None.
Proof.
  intros Hlt. apply assoc_value_None. intros (i & Hi)%list_elem_of_lookup. rewrite fmap_take in Hi.
  pose proof (lookup_lt_Some _ _ _ Hi) as Hl. rewrite length_take in Hl.
  rewrite lookup_take_lt in Hi by lia. unfold key_pos in Hl.
  rewrite (lower_bound_before (kv_key <$> items) key i key' ltac:(lia) Hi) in Hlt. done.
Qed.

(** Other keys keep their values. *)
Lemma assoc_edit_other items new key key' :
  key_sorted (kv_key <$> items) -> Forall (fun it => kv_key it = key) new -> key' <> key ->
  assoc_value (edit_items items new key) key' = assoc_value items key'.
Proof.
  intros Hs Hnew Hne. unfold edit_items. rewrite !assoc_value_app.
  assert (Hn : assoc_value new key' = None).
  { induction Hnew as [|it new' Hit _ IH]; [done|]. simpl. rewrite decide_False by congruence. done. }
  assert (E : assoc_value items key' = match assoc_value (take (key_pos items key) items) key' with
    | Some v => Some v | None => assoc_value (drop (key_pos items key) items) key' end)
    by (by rewrite <- assoc_value_app, take_drop).
  rewrite Hn, E. destruct (assoc_value (take (key_pos items key) items) key'); [done|].
  unfold key_count. case_bool_decide as Hin; [|by rewrite Nat.add_0_r].
  destruct (key_at_pos items key Hs Hin) as (it & Hit & Hk). rewrite (drop_S _ _ _ Hit), Nat.add_1_r.
  simpl. by rewrite decide_False by congruence.
Qed.

(** The key of the edit. *)
Lemma assoc_edit_same items new key :
  key_sorted (kv_key <$> items) -> 
  assoc_value (edit_items items new key) key = assoc_value new key.
Proof.
  intros Hs. unfold edit_items. rewrite !assoc_value_app, assoc_before by apply (st_irrefl (ltb := slice_lt)).
  destruct (assoc_value new key); [done|]. apply assoc_value_None. intros (i & Hi)%list_elem_of_lookup.
  rewrite fmap_drop, lookup_drop in Hi. pose proof (lower_bound_sorted _ _ _ Hs Hi) as E.
  unfold key_count, key_pos in *. rewrite bool_decide_true in E by (by eapply list_elem_of_lookup_2). lia.
Qed.

Lemma lower_bound_after ks key i k :
  key_sorted ks -> ks !! i = Some k -> lower_bound ks key <= i -> slice_lt k key = false.
Proof.
  intros Hs Hi Hle. destruct (decide (lower_bound ks key = i)) as [E|Hne].
  - apply (lower_bound_at ks key). by rewrite E.
  - pose proof (lookup_lt_Some _ _ _ Hi) as Hlt.
    destruct (lookup_lt_is_Some_2 ks (lower_bound ks key) ltac:(lia)) as [k0 Hk0].
    pose proof (lower_bound_at _ _ _ Hk0) as Hge. destruct (slice_lt k key) eqn:E; [|done].
    assert (Hkk : slice_lt k0 k = true).
    { eapply (sorted_lookup _ _ _ _ _ _ (key_sorted_strong _ Hs)); [|exact Hk0|exact Hi]. lia. }
    by rewrite (st_trans (ltb := slice_lt) _ _ _ Hkk E) in Hge.
Qed.

Lemma edit_items_sorted items new key :
  key_sorted (kv_key <$> items) -> new = [] \/ (exists v, new = [mkKV key v]) ->
  key_sorted (kv_key <$> edit_items items new key).
Proof.
  intros Hs Hnew. apply StronglySorted_Sorted. unfold edit_items. rewrite !fmap_app, fmap_take, fmap_drop.
  pose proof (key_sorted_strong _ Hs) as Hss. set (ks := kv_key <$> items) in *.
  assert (Hpre : forall k, k ∈ take (key_pos items key) ks -> slice_lt k key = true).
  { intros k (i & Hi)%list_elem_of_lookup. pose proof (lookup_lt_Some _ _ _ Hi) as Hl. rewrite length_take in Hl.
    rewrite lookup_take_lt in Hi by lia. apply (lower_bound_before ks key i k); [|done].
    unfold key_pos in Hl. fold ks in Hl. lia. }
  assert (Hpost : forall k, k ∈ drop (key_pos items key + key_count items key) ks -> slice_lt key k = true).
  { intros k (i & Hi)%list_elem_of_lookup. rewrite lookup_drop in Hi.
    destruct (slice_lt key k) eqn:E; [done|exfalso]. unfold key_pos, key_count in Hi. fold ks in Hi.
    pose proof (lower_bound_after ks key _ k Hs Hi ltac:(lia)) as Hge.
    assert (k = key) as -> by (by apply (st_total (ltb := slice_lt))).
    pose proof (lower_bound_sorted _ _ _ Hs Hi) as Hlb.
    rewrite bool_decide_true in Hlb by (by eapply list_elem_of_lookup_2). lia. }
  apply StronglySorted_app_2.
  - intros x y Hx Hy. apply elem_of_app in Hy as [Hy|Hy].
    + destruct Hnew as [->|[v ->]]; [by apply elem_of_nil in Hy|].
      apply list_elem_of_singleton in Hy as ->. by apply Hpre.
    + apply (st_trans (ltb := slice_lt) _ key); [by apply Hpre|by apply Hpost].
  - rewrite <- (take_drop (key_pos items key) ks) in Hss. by apply StronglySorted_app_1_l in Hss.
  - apply StronglySorted_app_2.
    + intros x y Hx Hy. destruct Hnew as [->|[v ->]]; [by apply elem_of_nil in Hx|].
      apply list_elem_of_singleton in Hx as ->. by apply Hpost.
    + destruct Hnew as [->|[v ->]]; repeat constructor.
    + rewrite <- (take_drop (key_pos items key + key_count items key) ks) in Hss.
      by apply StronglySorted_app_1_r in Hss.
Qed.

Lemma no_collisions_sub `{HashFunction} {St} `{ChunkStoreSpec St} (st : St) nodes nodes' :
  no_collisions st nodes -> (forall x, x ∈ nodes' -> x ∈ nodes) -> no_collisions st nodes'.
Proof. intros [Ha Hb] Hin. split; [intros x y Hx Hy|intros x c Hx]; eauto. Qed.

Section Claims.
Context `{HashFunction} `{Uninit} {St : Type} `{ChunkStoreSpec St}.
Variable (params : NodeKind -> ChunkerParams) (fuel : nat).
Implicit Types (st : St) (h : bytes).

Abbreviation canon k := (canonical k (params k) (params KMeta)).
Abbreviation editable k := (can_edit k (params k) (params KMeta) fuel).

(** A canonical tree can be opened as an object and read. *)
Lemma canonical_rooted k st h es B K :
  k <> KMeta -> canon k st h es -> level_ok B K k (params k) es -> inner_ok (params KMeta) K ->
  length es < fuel -> rooted fuel st k h es.
Proof.
  intros Hk [Hr Hst] Hl [Hp Hw Hsz HK] Hf.
  destruct (canonical_tree (st_load st) (params KMeta) k (params k) K _ es B h Hk Hl Hp Hw Hsz Hst Hr)
    as (ht & Hht & Ht).
  destruct (root_stored _ _ _ _ _ _ _ Hst Hr) as (c & Hc & Hh). exists ht, c. split_and!; try done. lia.
Qed.

(** A tree that was built is canonical. *)
Lemma build_canonical k st seg es :
  can_build params fuel st k es -> seg_rep seg es ->
  exists h, build_one params fuel k st seg
    = Some (Some h, put_all st (tree_nodes fuel (params KMeta) k (params k) es)) /\
    canon k (put_all st (tree_nodes fuel (params KMeta) k (params k) es)) h es.
Proof.
  intros [Hk (B & K & Hl & Hp & Hw & Hsz & HK) Hf Hs Hput Hnc] Hseg.
  destruct (canonical_root_total k (params k) (params KMeta) es K B Hl ltac:(by split)) as [h Hh].
  destruct (tree_root_more (params KMeta) _ fuel _ _ _ _ Hh ltac:(lia)) as [Hr En].
  exists h. split; [|split; [done|rewrite <- En; apply nodes_stored; [done| |done]; by eapply tree_nodes_size]].
  unfold build_one. change [Some seg] with (Some <$> [seg]). rewrite build_scratch.
  assert (E : concat [es] = es) by apply app_nil_r.
  rewrite (RecursiveCommit_scratch k (params k) (params KMeta) K fuel true _ 0 [seg] [es] st B);
    rewrite ?E; try done.
  - cbn [lvl_kind lvl_params]. by rewrite Hr.
  - apply (fresh_rhasher (params k) (params KMeta) true). apply Hl.
  - by constructor.
Qed.

(** A tree that was built can be edited, if no node of the tree or of an edited
    one has the hash of another or of a chunk that is there. *)
Lemma build_can_edit k st seg es es' B K :
  k <> KMeta -> level_ok B K k (params k) es -> level_ok B K k (params k) es' -> inner_ok (params KMeta) K ->
  small es -> small es' -> length es + S (length es) < fuel -> length es' + S (length es) <= fuel ->
  es' <> [] -> puts_succeed (St := St) -> seg_rep seg es ->
  (forall ht, ht <= length es -> no_collisions st (tree_nodes fuel (params KMeta) k (params k) es ++
     edit_nodes k (params k) (params KMeta) ht fuel true es')) ->
  exists h st', build_one params fuel k st seg = Some (Some h, st') /\ canon k st' h es /\ editable k st' es es'.
Proof.
  intros Hk Hl Hl' Hio Hs Hs' Hf Hf' Hne Hput Hseg Hnc. pose proof Hio as [Hp Hw Hsz HK].
  assert (Hb : can_build params fuel st k es).
  { constructor; try done; [by exists B, K|lia|].
    apply (no_collisions_sub _ _ _ (Hnc 0 ltac:(lia))). intros x Hx. apply elem_of_app. by left. }
  destruct (build_canonical k st seg es Hb Hseg) as (h & E & Hcan).
  eexists h, _. split_and!; [exact E|exact Hcan|]. constructor; try done; [by exists B, K|].
  intros ht Hht. edestruct put_all_stored with (todo := tree_nodes fuel (params KMeta) k (params k) es) as (Hc & _);
    [exact Hput| |exact (Hnc ht Hht)|intros x Hx; apply elem_of_app; by left|].
  - apply Forall_app. split; [by eapply tree_nodes_size|].
    by apply (edit_nodes_size k (params k) (params KMeta) ht fuel true es' B K).
  - apply (no_collisions_sub _ _ _ Hc). intros x Hx. apply elem_of_app. by right.
Qed.

Lemma edit_rooted k st st' h h' es es' :
  editable k st es es' -> canon k st' h es -> canon k st' h' es' ->
  rooted fuel st' k h es /\ rooted fuel st' k h' es'.
Proof.
  intros [Hk (B & K & Hl & Hl' & Hio) _ _ [Hf1 Hf2] _ _] Hc Hc'.
  split; eapply canonical_rooted; try done; lia.
Qed.

(** The object of a version that an edit starts from. *)
Lemma edit_object k st h es es' :
  editable k st es es' -> canon k st h es ->
  exists n, SetNode k st (Some h) = Some (Some n) /\ chunk_hash (chunk_ n) = Some (Some h) /\
    obj_rep fuel st (Some n) k es.
Proof.
  intros He Hc. pose proof He as [Hk (B & K & Hl & _ & Hio) _ _ [Hf _] _ _].
  apply SetNode_root; [done|]. eapply canonical_rooted; try done. lia.
Qed.

(** After an edit, the new version and the one before can be opened. *)
Lemma edited_objects k st h es es' r :
  editable k st es es' -> canon k st h es -> edit_result k (params k) (params KMeta) fuel st es' r ->
  exists h' st' o' o, r = Some (Some h', st') /\ canon k st' h' es' /\
    SetNode k st' (Some h') = Some o' /\ obj_rep fuel st' o' k es' /\
    SetNode k st' (Some h) = Some o /\ obj_rep fuel st' o k es.
Proof.
  intros He Hc (h' & st' & -> & Hc' & Hkept & _). pose proof (ce_kind _ _ _ _ _ _ _ He) as Hk.
  pose proof (canonical_kept _ _ _ _ _ _ _ Hkept Hc) as Hcs.
  destruct (edit_rooted k st st' h h' es es' He Hcs Hc') as [Ho Hn].
  destruct (SetNode_root fuel k st' h es Hk Ho) as (n & E & _ & Hr).
  destruct (SetNode_root fuel k st' h' es' Hk Hn) as (n' & E' & _ & Hr').
  exists h', st', (Some n'), (Some n). by split_and!.
Qed.

(** C2.  Editing a tree is rebuilding it. On a canonical tree, within the
    limits [can_edit] (well-formed ordered entries before and after, keys so
    short that a meta entry stays below the window of the inner levels, about
    218 bytes by default, writes that succeed and no hash collisions), deleting
    [del] entries from [idx] on and inserting new ones there with [NodeBuilder]
    terminates without a failed check and gives the canonical tree of the
    edited sequence, with the root hash that a build from scratch has, on any
    store and from any segments; all canonical trees that the store held stay.
    The edit must keep the end ([keeps_end]): it neither leaves the sequence
    empty nor cuts off its end exactly where a leaf begins. *)
Theorem splice_is_rebuild k st h es idx del qsegs ess :
  let es' := take idx es ++ concat ess ++ drop (idx + del) es in
  canon k st h es -> editable k st es es' -> idx <= length es -> segs_rep qsegs ess ->
  keeps_end (params k) es idx del (concat ess) ->
  exists h' st',
    splice k (params k) (params KMeta) fuel st (Some h) (Z.of_nat idx) del (Some <$> qsegs)
    = Some (Some h', st') /\
    canon k st' h' es' /\
    (forall (st2 : St) segs2 ess2, segs_rep segs2 ess2 -> concat ess2 = es' ->
       fst <$> build k (params k) (params KMeta) fuel st2 (Some <$> segs2) = Some (Some h')) /\
    (forall k2 p2 h2 es2, canonical k2 p2 (params KMeta) st h2 es2 ->
       canonical k2 p2 (params KMeta) st' h2 es2).
Proof.
  intros es' Hc He Hidx Hq Hend.
  destruct (splice_rep k (params k) (params KMeta) fuel st h es idx del qsegs ess Hc He Hidx Hq Hend)
    as (h' & st' & E & Hc' & Hkept & Hr).
  exists h', st'. split_and!; [done|done| |].
  - intros st2 segs2 ess2 Hs2 Hcat. destruct He as [Hk (B & K & _ & Hl & [Hp Hw Hsz _]) _ _ _ _ _].
    fold es' in Hl, Hr. rewrite <- Hcat in Hl, Hr. rewrite build_scratch.
    rewrite (RecursiveCommit_scratch k (params k) (params KMeta) K fuel true _ 0 segs2 ess2 st2 B); try done.
    + cbn [lvl_kind lvl_params]. by rewrite Hr.
    + apply (fresh_rhasher (params k) (params KMeta) true). apply Hl.
  - intros k2 p2 h2 es2. by apply canonical_kept.
Qed.

End Claims.

(** ** A witness *)

Section SpliceWitness.
#[local] Existing Instances plain_hash zeroed map_store map_store_spec merge_std_sort.

(** The nodes of two trees with different hashes are different. *)
Definition edit_collision_free (params : NodeKind -> ChunkerParams) fuel (k : NodeKind) (es es' : list bytes) : bool :=
  forallb (fun ht => collision_free (tree_nodes fuel (params KMeta) k (params k) es ++
    edit_nodes k (params k) (params KMeta) ht fuel true es')) (seq 0 (S (length es))).

Lemma edit_collisions params fuel k es es' ht :
  edit_collision_free params fuel k es es' = true -> ht <= length es ->
  no_collisions (∅ : gmap Hash Chunk) (tree_nodes fuel (params KMeta) k (params k) es ++
    edit_nodes k (params k) (params KMeta) ht fuel true es').
Proof.
  intros Hc Hht. unfold edit_collision_free in Hc. rewrite forallb_forall in Hc.
  apply collision_free_spec; [|reflexivity]. apply (Hc ht), in_seq. lia.
Qed.

Lemma small_can_edit k es es' seg :
  small_entries k es -> small_entries k es' -> length es < 10 -> length es' < 10 -> es' <> [] ->
  edit_collision_free object_params 20 k es es' = true -> seg_rep seg es ->
  exists h (st : gmap Hash Chunk), build_one object_params 20 k (∅ : gmap Hash Chunk) seg = Some (Some h, st) /\
    canonical k (object_params k) (object_params KMeta) st h es /\
    can_edit k (object_params k) (object_params KMeta) 20 st es es'.
Proof.
  intros Hes Hes' Hl Hl' Hne Hc Hseg.
  assert (Ep : small_params = object_params k) by (destruct Hes; by destruct k).
  assert (Hlev : forall es0, small_entries k es0 -> length es0 < 10 -> level_ok 64 8 k (object_params k) es0).
  { intros es0 He0 Hl0. rewrite <- Ep. apply small_level_ok; [done|lia]. }
  assert (Hio : inner_ok (object_params KMeta) 8) by (split; [split; simpl; lia|simpl; lia..]).
  assert (Hput : puts_succeed (St := gmap Hash Chunk)) by done.
  assert (Hsm : forall es0 : list bytes, length es0 < 10 -> small es0) by (unfold small; lia).
  clear Ep. assert (Hf : 19 < 20) by lia. revert Hf Hc. generalize 20. intros fuel Hf Hc. generalize dependent object_params. intros params Hlev Hio Hc.
  eapply (build_can_edit params fuel k ∅ seg es es' 64 8 (se_kind _ _ Hes)); eauto using edit_collisions; lia.
Qed.

Definition five_bytes : bytes := [x01; x02; x03; x04; x05].

Lemma splice_is_rebuild_witness : exists (st : gmap Hash Chunk) h h' st',
  canonical KBlob (object_params KBlob) (object_params KMeta) st h (blob_entries five_bytes) /\
  splice KBlob (object_params KBlob) (object_params KMeta) 20 st (Some h) 2 2 [Some (blob_segment [xff])]
  = Some (Some h', st') /\
  canonical KBlob (object_params KBlob) (object_params KMeta) st' h'
    (blob_entries [x01; x02; xff; x05]).
Proof.
  destruct (small_can_edit KBlob (blob_entries five_bytes) (blob_entries [x01; x02; xff; x05])
    (blob_segment five_bytes)) as (h & st & _ & Hc & He).
  - apply small_blob.
  - apply small_blob.
  - simpl. lia.
  - simpl. lia.
  - done.
  - by vm_compute.
  - apply blob_segment_rep.
  - destruct (splice_is_rebuild object_params 20 KBlob st h (blob_entries five_bytes) 2 2 [blob_segment [xff]]
      [blob_entries [xff]] Hc He) as (h' & st' & E & Hc' & _).
    + simpl. lia.
    + constructor; [apply blob_segment_rep|constructor].
    + by left.
    + exists st, h, h', st'. split_and!; [exact Hc|exact E|exact Hc'].
Defined.

End SpliceWitness.
