(* ===== verification/EditProps.v ===== *)
(** * Editing objects

    What blobs, lists, maps and sets read as after an edit, and that the version
    before the edit reads as it did.  The edited object is again canonical, so
    that the theorems apply to any sequence of edits. *)

From S2P Require Import Prelude Types Slice HashVal Chunk RollingHash Node NodeSearch Chunker.
From S2P Require Import Canonical Leaf Store Cursor Builder Objects Build Tree TreeProps CursorProps KeySearch.
From S2P Require Import ReadProps CreateProps ObjectProps.
From S2P Require Import Recut LevelCursor EditChain EditCommit EditCursor Splice SpliceProps.

(** The segment without entries, which deletions insert. *)
Lemma no_entries_rep : seg_rep (mkSeg [] 0 (VarSegment [])) [].
Proof. by apply (segment_of_rep []). Qed.

Section EditProps.
Context `{HashFunction} `{Uninit} {St : Type} `{ChunkStoreSpec St}.
Variable (params : NodeKind -> ChunkerParams) (fuel : nat).
Implicit Types (st : St) (h : bytes).

Abbreviation canon k := (canonical k (params k) (params KMeta)).
Abbreviation editable k := (can_edit k (params k) (params KMeta) fuel).

(** ** Blobs and lists *)

(** An edit at an index, on the object and on its two versions. *)
Lemma splice_object k st h es idx del seg new :
  let es' := take idx es ++ new ++ drop (idx + del) es in
  canon k st h es -> editable k st es es' -> idx <= length es -> seg_rep seg new ->
  keeps_end (params k) es idx del new ->
  exists n h' st' o' o2,
    SetNode k st (Some h) = Some (Some n) /\ chunk_hash (chunk_ n) = Some (Some h) /\
    splice_one params fuel k st (Some h) (Z.of_nat idx) del seg = Some (Some h', st') /\
    canon k st' h' es' /\
    SetNode k st' (Some h') = Some o' /\ obj_rep fuel st' o' k es' /\
    SetNode k st' (Some h) = Some o2 /\ obj_rep fuel st' o2 k es.
Proof.
  intros es' Hc He Hidx Hseg Hend. destruct (edit_object params fuel k _ _ _ _ He Hc) as (n & En & Hh & _).
  assert (E1 : concat [new] = new) by apply app_nil_r.
  pose proof (splice_rep k (params k) (params KMeta) fuel st h es idx del [seg] [new]) as HR.
  rewrite E1 in HR. specialize (HR Hc He Hidx ltac:(by constructor) Hend).
  destruct (edited_objects params fuel k st h _ _ _ He Hc HR) as (h' & st' & o' & o2 & Er & ? & ? & ? & ? & ?).
  exists n, h', st', o', o2. by split_and!.
Qed.

(** C8.  Editing a blob. If its tree is canonical, the position lies within the
    blob, the edit is within the limits [can_edit] and neither leaves the blob
    empty nor cuts off its end exactly where a leaf begins ([keeps_end]), then
    after [SBlob::Splice] (which [Insert], [Delete] and [Append] are) the new
    version reads as the bytes before the position, the new bytes and the bytes
    after the deleted ones, from any position and with any positive length,
    while a length of 0 reads to the end; its tree is the canonical one of
    these bytes, and the version before still reads as it did. *)
Theorem blob_splice_read st h data pos del new :
  let data' := take pos data ++ new ++ drop (pos + del) data in
  canon KBlob st h (blob_entries data) ->
  editable KBlob st (blob_entries data) (blob_entries data') -> pos <= length data ->
  keeps_end (params KBlob) (blob_entries data) pos del (blob_entries new) ->
  exists o h' st' o' o2, SBlob_load st (Some h) = Some o /\
    SBlob_Splice params fuel st o (Z.of_nat pos) del new = Some (Some h', st') /\
    canon KBlob st' h' (blob_entries data') /\
    SBlob_load st' (Some h') = Some o' /\ SBlob_load st' (Some h) = Some o2 /\
    (forall p n, n <> 0 -> UBlob_Read fuel st' o' (Z.of_nat p) n = Some (take n (drop p data')) /\
                           UBlob_Read fuel st' o2 (Z.of_nat p) n = Some (take n (drop p data))) /\
    (forall p, UBlob_Read fuel st' o' (Z.of_nat p) 0 = Some (drop p data')).
Proof.
  intros data' Hc He Hp Hend.
  assert (E : blob_entries data'
    = take pos (blob_entries data) ++ blob_entries new ++ drop (pos + del) (blob_entries data)).
  { unfold data', blob_entries. by rewrite !fmap_app, fmap_take, fmap_drop. }
  pose proof (ce_small _ _ _ _ _ _ _ He) as Hs. pose proof (ce_small' _ _ _ _ _ _ _ He) as Hs'.
  unfold small, blob_entries in Hs, Hs'. rewrite length_fmap in Hs, Hs'. rewrite E in He.
  destruct (splice_object KBlob st h _ pos del (mkSeg new (len new) (FixedSegment 1)) (blob_entries new) Hc He)
    as (n & h' & st' & o' & o2 & El & Eh & Er & Hc' & E' & Ho' & E2 & Ho2); try done.
  { unfold blob_entries. by rewrite length_fmap. }
  { apply blob_segment_rep. }
  rewrite <- E in Hc', Ho'. exists (Some n), h', st', o', o2. split_and!; try done.
  - unfold SBlob_Splice. osimpl. rewrite Eh. osimpl. exact Er.
  - intros p m Hm. rewrite (UBlob_Read_rep fuel st' o' _ p m Ho' Hs'), (UBlob_Read_rep fuel st' o2 _ p m Ho2 Hs).
    by rewrite !decide_False by done.
  - intros p. by rewrite (UBlob_Read_rep fuel st' o' _ p 0 Ho' Hs').
Qed.

(** C23.  Editing a list. If its tree is canonical, the index lies within the
    list, the elements have lengths that 32 bits can hold, the edit is within
    the limits [can_edit] and neither leaves the list empty nor cuts off its
    end exactly where a leaf begins ([keeps_end]), then after [SList::Splice]
    (which [Insert], [Delete] and [Append] are) the new version has the
    elements before the index, the new ones and those after the deleted ones;
    its tree is the canonical one of these elements, and the version before
    still reads as it did. *)
Theorem list_splice_get st h items idx del new :
  let items' := take idx items ++ new ++ drop (idx + del) items in
  canon KList st h (list_Encode1 <$> items) ->
  editable KList st (list_Encode1 <$> items) (list_Encode1 <$> items') -> idx <= length items ->
  Forall (fun s => (Z.of_nat (len s + 4) < 2 ^ 32)%Z) (items ++ new) ->
  keeps_end (params KList) (list_Encode1 <$> items) idx del (list_Encode1 <$> new) ->
  exists o h' st' o' o2, SList_load st (Some h) = Some o /\
    SList_Splice params fuel st o (Z.of_nat idx) del new = Some (Some h', st') /\
    canon KList st' h' (list_Encode1 <$> items') /\
    SList_load st' (Some h') = Some o' /\ SList_load st' (Some h) = Some o2 /\
    (forall i, UList_Get fuel st' o' (Z.of_nat i) = Some (default [] (items' !! i)) /\
               UList_Get fuel st' o2 (Z.of_nat i) = Some (default [] (items !! i))).
Proof.
  intros items' Hc He Hp [Hi Hn]%Forall_app Hend.
  assert (E : list_Encode1 <$> items'
    = take idx (list_Encode1 <$> items) ++ (list_Encode1 <$> new) ++ drop (idx + del) (list_Encode1 <$> items)).
  { unfold items'. by rewrite !fmap_app, fmap_take, fmap_drop. }
  pose proof (ce_small _ _ _ _ _ _ _ He) as Hs. pose proof (ce_small' _ _ _ _ _ _ _ He) as Hs'.
  unfold small in Hs, Hs'. rewrite length_fmap in Hs, Hs'. rewrite E in He.
  destruct (splice_object KList st h _ idx del (list_Encode new) (list_Encode1 <$> new) Hc He)
    as (n & h' & st' & o' & o2 & El & Eh & Er & Hc' & E' & Ho' & E2 & Ho2); try done.
  { by rewrite length_fmap. }
  { apply segment_of_rep, (entries_ne KList), eo_entries, list_entries_ok, Hn. }
  rewrite <- E in Hc', Ho'. exists (Some n), h', st', o', o2. split_and!; try done.
  - unfold SList_Splice. osimpl. rewrite Eh. osimpl. exact Er.
  - assert (Hi' : Forall (fun s => (Z.of_nat (len s + 4) < 2 ^ 32)%Z) items').
    { unfold items'. rewrite !Forall_app. split_and!; [by apply Forall_take|done|by apply Forall_drop]. }
    intros i. split; by apply UList_Get_rep.
Qed.

(** ** Maps *)

(** An edit at a key, on the object and on its two versions. *)
Lemma map_edit st h items new key seg :
  key_sorted (kv_key <$> items) -> Forall item_ok items ->
  new = [] \/ (exists v, new = [mkKV key v] /\ item_ok (mkKV key v)) -> seg_rep seg (map_Encode1 <$> new) ->
  canon KMap st h (map_Encode1 <$> items) ->
  editable KMap st (map_Encode1 <$> items) (map_Encode1 <$> edit_items items new key) ->
  keeps_end (params KMap) (map_Encode1 <$> items) (key_pos items key) (key_count items key) (map_Encode1 <$> new) ->
  exists n l h' st' o' o2,
    SMap_load st (Some h) = Some (Some n) /\ chunk_hash (chunk_ n) = Some (Some h) /\
    find_cursor fuel st (Some h) (FromSlice key) = Some (bool_decide (key ∈ kv_key <$> items), l) /\
    splice_key params fuel KMap st (Some h) (FromSlice key) (key_count items key) seg = Some (Some h', st') /\
    canon KMap st' h' (map_Encode1 <$> edit_items items new key) /\
    SMap_load st' (Some h') = Some o' /\ SMap_load st' (Some h) = Some o2 /\
    (forall key', UMap_Get fuel st' o' key'
       = Some (default [] (assoc_value (if decide (key' = key) then new else items) key'))) /\
    (forall key', UMap_Get fuel st' o2 key' = Some (default [] (assoc_value items key'))).
Proof.
  intros Hs Hi Hnew Hseg Hc He Hend. destruct (edit_object params fuel KMap _ _ _ _ He Hc) as (n & En & Hh & Ho).
  pose proof (edit_items_sorted items new key Hs ltac:(naive_solver)) as Hs'.
  assert (Hi' : Forall item_ok (edit_items items new key)).
  { unfold edit_items. rewrite !Forall_app. split_and!; [by apply Forall_take| |by apply Forall_drop].
    destruct Hnew as [->|(v & -> & Hv)]; by repeat constructor. }
  assert (Hnk : Forall (fun it => kv_key it = key) new).
  { destruct Hnew as [->|(v & -> & _)]; by repeat constructor. }
  pose proof Ho as (n' & h0 & ht & [= <-] & Hh' & Hht & _ & Ht). rewrite Hh in Hh'. injection Hh' as <-.
  destruct (find_cursor_rep fuel st KMap h ht _ _ key ltac:(by left) (map_entry_keys items Hi) Hs Ht
    (ce_small _ _ _ _ _ _ _ He) Hht) as (l & Ef & _).
  assert (Eitems : map_Encode1 <$> edit_items items new key
    = take (key_pos items key) (map_Encode1 <$> items) ++ (map_Encode1 <$> new) ++
      drop (key_pos items key + key_count items key) (map_Encode1 <$> items)).
  { unfold edit_items. by rewrite !fmap_app, fmap_take, fmap_drop. }
  pose proof He as He2. rewrite Eitems in He2.
  pose proof (splice_at_key_rep KMap (params KMap) (params KMeta) fuel st h _ _ key (key_count items key)
    seg (map_Encode1 <$> new) ltac:(by left) (map_entry_keys items Hi) Hs Hc He2 Hseg Hend) as HR.
  change (lower_bound (kv_key <$> items) key) with (key_pos items key) in HR. rewrite <- Eitems in HR.
  destruct (edited_objects params fuel KMap st h _ _ _ He Hc HR)
    as (h' & st' & o' & o2 & Er & Hc' & E' & Ho' & E2 & Ho2).
  pose proof (ce_small _ _ _ _ _ _ _ He) as Hsm. pose proof (ce_small' _ _ _ _ _ _ _ He) as Hsm'.
  unfold small in Hsm, Hsm'. rewrite length_fmap in Hsm, Hsm'.
  exists n, l, h', st', o', o2. split_and!; try done.
  - intros key'. rewrite (UMap_Get_rep fuel st' o' _ key' Ho') by done.
    destruct (decide (key' = key)) as [->|Hk]; [by rewrite assoc_edit_same|by rewrite assoc_edit_other].
  - intros key'. by apply (UMap_Get_rep fuel st' o2 items key' Ho2).
Qed.

(** C7.  Setting a key of a map. If the tree of the map is canonical and the
    edit is within the limits [can_edit] (keys so short that a meta entry stays
    below the window of the inner levels, about 218 bytes by default, writes
    that succeed and no hash collisions), the new version reads the new value
    for the key and the old values for all others, its tree is the canonical
    one of the changed items, and the version before still reads as it did. *)
Theorem map_set_get st h items key val :
  let items' := edit_items items [mkKV key val] key in
  key_sorted (kv_key <$> items) -> Forall item_ok items -> item_ok (mkKV key val) ->
  canon KMap st h (map_Encode1 <$> items) ->
  editable KMap st (map_Encode1 <$> items) (map_Encode1 <$> items') ->
  exists o h' st' o' o2, SMap_load st (Some h) = Some o /\
    SMap_Set params fuel st o key val = Some (Some h', st') /\
    canon KMap st' h' (map_Encode1 <$> items') /\
    SMap_load st' (Some h') = Some o' /\ SMap_load st' (Some h) = Some o2 /\
    (forall key', UMap_Get fuel st' o' key'
       = Some (if decide (key' = key) then val else default [] (assoc_value items key'))) /\
    (forall key', UMap_Get fuel st' o2 key' = Some (default [] (assoc_value items key'))).
Proof.
  intros items' Hs Hi Hkv Hc He.
  destruct (map_Encode_rep [mkKV key val]) as [Eenc Hseg]; [done|by constructor|by repeat constructor|].
  destruct (map_edit st h items [mkKV key val] key _ Hs Hi ltac:(eauto) Hseg Hc He ltac:(by left))
    as (n & l & h' & st' & o' & o2 & El & Eh & Ef & Er & Hc' & E' & E2 & G' & G2).
  exists (Some n), h', st', o', o2. split_and!; try done.
  - unfold SMap_Set. osimpl. rewrite Eh. osimpl. rewrite Ef. osimpl. cbn [fst]. rewrite Eenc. osimpl. exact Er.
  - intros key'. rewrite G'. destruct (decide (key' = key)) as [->|Hk]; [|done]. simpl. by rewrite decide_True.
Qed.

(** Removing a key. *)
Lemma map_removed st h items key :
  let items' := edit_items items [] key in
  key_sorted (kv_key <$> items) -> Forall item_ok items ->
  canon KMap st h (map_Encode1 <$> items) ->
  editable KMap st (map_Encode1 <$> items) (map_Encode1 <$> items') ->
  keeps_end (params KMap) (map_Encode1 <$> items) (key_pos items key) (key_count items key) [] ->
  exists o h' st' o' o2, SMap_load st (Some h) = Some o /\
    SMap_Remove params fuel st o key = Some (Some h', st') /\
    canon KMap st' h' (map_Encode1 <$> items') /\ (key ∉ kv_key <$> items -> h' = h /\ st' = st) /\
    SMap_load st' (Some h') = Some o' /\ SMap_load st' (Some h) = Some o2 /\
    (forall key', UMap_Get fuel st' o' key'
       = Some (if decide (key' = key) then [] else default [] (assoc_value items key'))) /\
    (forall key', UMap_Get fuel st' o2 key' = Some (default [] (assoc_value items key'))).
Proof.
  intros items' Hs Hi Hc He Hend.
  destruct (map_edit st h items [] key _ Hs Hi ltac:(by left) no_entries_rep Hc He Hend)
    as (n & l & h' & st' & o' & o2 & El & Eh & Ef & Er & Hc' & E' & E2 & G' & G2).
  assert (E1 : SMap_Remove params fuel st (Some n) key
    = if bool_decide (key ∈ kv_key <$> items)
      then splice_key params fuel KMap st (Some h) (FromSlice key) 1 (mkSeg [] 0 (VarSegment []))
      else Some (Some h, st)).
  { unfold SMap_Remove. osimpl. rewrite Eh. osimpl. rewrite Ef. osimpl. done. }
  unfold key_count in Er. destruct (decide (key ∈ kv_key <$> items)) as [Hin|Hin].
  - rewrite bool_decide_true in E1, Er by done. rewrite Er in E1.
    exists (Some n), h', st', o', o2. split_and!; try done.
    intros key'. rewrite G'. by destruct (decide (key' = key)).
  - rewrite bool_decide_false in E1 by done. assert (Ei : items' = items).
    { unfold items', edit_items, key_count. rewrite bool_decide_false by done. simpl.
      by rewrite Nat.add_0_r, take_drop. }
    assert (Hg : forall key', UMap_Get fuel st (Some n) key' = Some (default [] (assoc_value items key'))).
    { destruct (edit_object params fuel KMap _ _ _ _ He Hc) as (n' & En & _ & Ho).
      change (SMap_load st (Some h) = Some (Some n')) in En. rewrite El in En. injection En as <-.
      pose proof (ce_small _ _ _ _ _ _ _ He) as Hsm. unfold small in Hsm. rewrite length_fmap in Hsm.
      intros key'. by apply (UMap_Get_rep fuel st _ items key' Ho). }
    exists (Some n), h, st, (Some n), (Some n). rewrite Ei. split_and!; try done.
    intros key'. rewrite Hg. destruct (decide (key' = key)) as [->|]; [|done].
    by rewrite (proj2 (assoc_value_None items key)).
Qed.

(** C24.  Removing a key of a map whose tree is canonical, within the limits
    [can_edit] (keys of up to about 218 bytes by default). The removal neither
    takes the only item nor the last one where that begins a leaf
    ([keeps_end]). If the map has the key, the new version reads no value for
    it and the old values for all others, and its tree is the canonical one of
    the remaining items; without the key, the map and the store stay as they
    are. *)
Theorem map_remove_get st h items key :
  let items' := edit_items items [] key in
  key_sorted (kv_key <$> items) -> Forall item_ok items ->
  canon KMap st h (map_Encode1 <$> items) ->
  editable KMap st (map_Encode1 <$> items) (map_Encode1 <$> items') ->
  keeps_end (params KMap) (map_Encode1 <$> items) (key_pos items key) (key_count items key) [] ->
  exists o h' st' o' o2, SMap_load st (Some h) = Some o /\
    SMap_Remove params fuel st o key = Some (Some h', st') /\
    canon KMap st' h' (map_Encode1 <$> items') /\ (key ∉ kv_key <$> items -> h' = h /\ st' = st) /\
    SMap_load st' (Some h') = Some o' /\ SMap_load st' (Some h) = Some o2 /\
    (forall key', UMap_Get fuel st' o' key'
       = Some (if decide (key' = key) then [] else default [] (assoc_value items key'))) /\
    (forall key', UMap_Get fuel st' o2 key' = Some (default [] (assoc_value items key'))).
Proof. apply map_removed. Qed.

End EditProps.

(** ** Cutting off the end *)

Section EditExamples.
#[local] Existing Instances plain_hash zeroed map_store map_store_spec merge_std_sort.

Definition write_blob (data : bytes) : option (Hash * gmap Hash Chunk) :=
  r ← SBlob_new object_params 20 (∅ : gmap Hash Chunk) data; h ← obj_hash (fst r); Some (h, snd r).

Definition cut_blob (data : bytes) (pos del : nat) : option (Hash * gmap Hash Chunk) :=
  r ← SBlob_new object_params 20 (∅ : gmap Hash Chunk) data;
  UBlob_Delete object_params 20 (snd r) (fst r) (Z.of_nat pos) del.

Definition read_blob (r : option (Hash * gmap Hash Chunk)) : option bytes :=
  r' ← r; o ← SBlob_load (snd r') (fst r'); UBlob_Read 20 (snd r') o 0 0.

Definition seven_bytes : bytes := [x01; x02; x03; x04; x05; x06; x07].

(** Cutting off the end of a blob exactly where a leaf begins gives a tree that
    is not the canonical one, here on a blob of nine bytes whose second leaf
    starts at 7: the result reads as the remaining bytes, but it does not have
    the root hash that these bytes have when they are written; cutting one byte
    further on, inside the leaf, or cutting everything gives the hash of what
    remains. *)
Theorem cut_at_leaf_start :
  read_blob (cut_blob (seven_bytes ++ [x08; x09]) 7 2) = Some seven_bytes /\
  read_blob (write_blob seven_bytes) = Some seven_bytes /\
  fst <$> cut_blob (seven_bytes ++ [x08; x09]) 7 2 <> fst <$> write_blob seven_bytes /\
  fst <$> cut_blob (seven_bytes ++ [x08; x09]) 8 1 = fst <$> write_blob (seven_bytes ++ [x08]) /\
  fst <$> cut_blob (seven_bytes ++ [x08; x09]) 0 9 = fst <$> write_blob [].
Proof. split_and!; [by vm_compute|by vm_compute|by vm_compute|by vm_compute|by vm_compute]. Qed.

(** ** Witnesses *)

Lemma blob_splice_read_witness : exists (st : gmap Hash Chunk) h o h' st' o',
  SBlob_load st (Some h) = Some o /\
  SBlob_Splice object_params 20 st o 2 2 [xff] = Some (Some h', st') /\
  SBlob_load st' (Some h') = Some o' /\ UBlob_Read 20 st' o' 1 3 = Some [x02; xff; x05].
Proof.
  destruct (small_can_edit KBlob (blob_entries five_bytes) (blob_entries [x01; x02; xff; x05])
    (blob_segment five_bytes)) as (h & st & _ & Hc & He).
  - apply small_blob.
  - apply small_blob.
  - simpl. lia.
  - simpl. lia.
  - done.
  - by vm_compute.
  - apply blob_segment_rep.
  - destruct (blob_splice_read object_params 20 st h five_bytes 2 2 [xff] Hc He)
      as (o & h' & st' & o' & o2 & E1 & E2 & _ & E3 & _ & R & _).
    + simpl. lia.
    + by left.
    + exists st, h, o, h', st', o'. split_and!; [exact E1|exact E2|exact E3|exact (proj1 (R 1 3 ltac:(done)))].
Defined.

Lemma small_list items :
  forallb (fun s => len s <=? 12) items = true ->
  small_entries KList (list_Encode1 <$> items) /\ Forall (fun s => (Z.of_nat (len s + 4) < 2 ^ 32)%Z) items.
Proof.
  intros Hb. assert (Hl : Forall (fun s => len s <= 12) items).
  { apply Forall_forall. intros s Hs%list_elem_of_In. rewrite forallb_forall in Hb.
    by apply Nat.leb_le, Hb. }
  assert (Hz : Forall (fun s => (Z.of_nat (len s + 4) < 2 ^ 32)%Z) items).
  { eapply Forall_impl; [exact Hl|]. simpl. lia. }
  split; [|done]. constructor; [done|by apply list_entries_ok| |split; [lia|done]].
  apply Forall_fmap. eapply Forall_impl; [exact Hl|]. intros s Hs. unfold compose.
  rewrite length_list_Encode1. simpl in Hs. lia.
Qed.

Lemma list_splice_get_witness : exists (st : gmap Hash Chunk) h o h' st' o',
  SList_load st (Some h) = Some o /\
  SList_Splice object_params 20 st o 1 1 [[xff]; [xfe]] = Some (Some h', st') /\
  SList_load st' (Some h') = Some o' /\ UList_Get 20 st' o' 2 = Some [xfe] /\ UList_Get 20 st' o' 3 = Some [x03].
Proof.
  set (items := [[x01; x02]; []; [x03]] : list Slice).
  destruct (small_list items) as [Hs Hi]; [done|].
  destruct (small_list [[x01; x02]; [xff]; [xfe]; [x03]]) as [Hs' Hi']; [done|].
  destruct (small_can_edit KList (list_Encode1 <$> items) (list_Encode1 <$> [[x01; x02]; [xff]; [xfe]; [x03]])
    (list_Encode items) Hs Hs') as (h & st & _ & Hc & He).
  - simpl. lia.
  - simpl. lia.
  - done.
  - by vm_compute.
  - apply segment_of_rep, (entries_ne KList), eo_entries, list_entries_ok, Hi.
  - destruct (list_splice_get object_params 20 st h items 1 1 [[xff]; [xfe]] Hc He)
      as (o & h' & st' & o' & o2 & E1 & E2 & _ & E3 & _ & R).
    + simpl. lia.
    + by repeat constructor.
    + by left.
    + exists st, h, o, h', st', o'.
      split_and!; [exact E1|exact E2|exact E3|exact (proj1 (R 2))|exact (proj1 (R 3))].
Defined.

Definition three_items : list KVItem := [mkKV [x61] [x01]; mkKV [x62] [x02]; mkKV [x63] [x03]].

Lemma three_items_ok :
  Forall item_ok three_items /\ key_sorted (kv_key <$> three_items) /\
  small_entries KMap (map_Encode1 <$> three_items) /\
  seg_rep (segment_of (map_Encode1 <$> three_items)) (map_Encode1 <$> three_items).
Proof.
  split_and!; [by repeat constructor|by repeat constructor|apply small_items; by repeat constructor|].
  by apply map_Encode_rep; repeat constructor.
Qed.

Lemma map_set_get_witness : exists (st : gmap Hash Chunk) h o h' st' o',
  SMap_load st (Some h) = Some o /\ SMap_Set object_params 20 st o [x62] [xff] = Some (Some h', st') /\
  SMap_load st' (Some h') = Some o' /\
  UMap_Get 20 st' o' [x62] = Some [xff] /\ UMap_Get 20 st' o' [x63] = Some [x03].
Proof.
  destruct three_items_ok as (Hi & Hs & Hsm & Hseg).
  destruct (small_can_edit KMap (map_Encode1 <$> three_items)
    (map_Encode1 <$> edit_items three_items [mkKV [x62] [xff]] [x62])
    (segment_of (map_Encode1 <$> three_items)) Hsm) as (h & st & _ & Hc & He).
  - apply small_items; by repeat constructor.
  - simpl. lia.
  - apply Nat.ltb_lt. by vm_compute.
  - done.
  - by vm_compute.
  - exact Hseg.
  - destruct (map_set_get object_params 20 st h three_items [x62] [xff] Hs Hi ltac:(done) Hc He)
      as (o & h' & st' & o' & o2 & E1 & E2 & _ & E3 & _ & R & _).
    exists st, h, o, h', st', o'. split_and!; [exact E1|exact E2|exact E3|exact (R [x62])|exact (R [x63])].
Defined.

Lemma map_remove_get_witness : exists (st : gmap Hash Chunk) h o h' st' o',
  SMap_load st (Some h) = Some o /\ SMap_Remove object_params 20 st o [x62] = Some (Some h', st') /\
  SMap_load st' (Some h') = Some o' /\
  UMap_Get 20 st' o' [x62] = Some [] /\ UMap_Get 20 st' o' [x63] = Some [x03].
Proof.
  destruct three_items_ok as (Hi & Hs & Hsm & Hseg).
  destruct (small_can_edit KMap (map_Encode1 <$> three_items)
    (map_Encode1 <$> edit_items three_items [] [x62])
    (segment_of (map_Encode1 <$> three_items)) Hsm) as (h & st & _ & Hc & He).
  - apply small_items; by repeat constructor.
  - simpl. lia.
  - apply Nat.ltb_lt. by vm_compute.
  - done.
  - by vm_compute.
  - exact Hseg.
  - destruct (map_remove_get object_params 20 st h three_items [x62] Hs Hi Hc He)
      as (o & h' & st' & o' & o2 & E1 & E2 & _ & _ & E3 & _ & R & _).
    + by left.
    + exists st, h, o, h', st', o'. split_and!; [exact E1|exact E2|exact E3|exact (R [x62])|exact (R [x63])].
Defined.

End EditExamples.
