(* ===== verification/Text.v ===== *)
(** * Text: [src/utils/utils.cc], [include/utils/utils.h]

    Cutting lines into fields and arguments, lists of indices, schemas, and the
    names of types.  Tokenizers, trimming, searching and replacing are those of
    Boost, which is a parameter. *)

From S2P Require Import Prelude Types Slice HashVal.
From Stdlib Require String.
Import String.StringSyntax.

(** The bytes of a string literal. *)
Definition lit (s : String.string) : bytes := String.list_byte_of_string s.

(** ** Boost *)

Class Boost := {
  (** [boost::tokenizer] with a [char_separator] of the given characters *)
  char_tokens : bytes -> bytes -> list bytes;
  (** [boost::trim] *)
  trim : bytes -> bytes;
  (** [boost::contains] *)
  contains : bytes -> bytes -> bool;
  (** [boost::replace_all_copy(input, search, format)] *)
  replace_all : bytes -> bytes -> bytes -> bytes
}.

(** The fields between separators. *)
Fixpoint fields (seps : bytes) (s : bytes) : list bytes :=
  match s with
  | [] => [[]]
  | c :: s' =>
      if bool_decide (c ∈ seps) then [] :: fields seps s'
      else match fields seps s' with [] => [[c]] | f :: fs => (c :: f) :: fs end
  end.

Lemma fields_app seps t c s : Forall (fun x => x ∉ seps) t -> c ∈ seps -> fields seps (t ++ c :: s) = t :: fields seps s.
Proof.
  intros Ht Hc. induction Ht as [|x t Hx _ IH]; cbn [app fields]; [by rewrite bool_decide_true|].
  by rewrite bool_decide_false, IH.
Qed.

Lemma fields_last seps t : Forall (fun x => x ∉ seps) t -> fields seps t = [t].
Proof.
  induction 1 as [|x t Hx _ IH]; cbn [fields]; [done|]. by rewrite bool_decide_false, IH.
Qed.

(** [std::isspace] of the classic locale. *)
Definition isspace (c : byte) : bool := bool_decide (c ∈ [x20; x09; x0a; x0b; x0c; x0d]).

(** What the documentation of Boost says: tokens are the non-empty fields,
    trimming removes the spaces on both sides, and a string contains its parts. *)
Class BoostSpec `{Boost} := {
  char_tokens_spec : forall seps s, char_tokens seps s = filter (fun t : bytes => t <> []) (fields seps s);
  trim_spec : forall l s r, Forall (fun c => isspace c = true) l -> Forall (fun c => isspace c = true) r ->
    (forall c, head s = Some c -> isspace c = false) -> (forall c, last s = Some c -> isspace c = false) ->
    trim (l ++ s ++ r) = s;
  contains_spec : forall s t, contains s t = true <-> exists l r, s = l ++ t ++ r
}.

(** An implementation, for witnesses. *)
Fixpoint trim_left (s : bytes) : bytes :=
  match s with [] => [] | c :: s' => if isspace c then trim_left s' else s end.

Fixpoint has_part (t s : bytes) : bool :=
  bool_decide (take (length t) s = t) || match s with [] => false | _ :: s' => has_part t s' end.

Fixpoint replace_from (fuel : nat) (t r s : bytes) : bytes :=
  match fuel, s with
  | S fuel', c :: s' =>
      if bool_decide (t <> [] /\ take (length t) s = t) then r ++ replace_from fuel' t r (drop (length t) s)
      else c :: replace_from fuel' t r s'
  | _, _ => s
  end.

Definition plain_boost : Boost := {|
  char_tokens seps s := filter (fun t : bytes => t <> []) (fields seps s);
  trim s := reverse (trim_left (reverse (trim_left s)));
  contains s t := has_part t s;
  replace_all s t r := replace_from (length s) t r s
|}.

Lemma has_part_spec t s : has_part t s = true <-> exists l r, s = l ++ t ++ r.
Proof.
  induction s as [|c s IH]; cbn [has_part]; rewrite orb_true_iff, bool_decide_eq_true.
  - rewrite take_nil. split.
    + intros [<-|]; [by exists [], []|done].
    + intros (l & r & E). symmetry in E. apply app_nil in E as [-> E]. apply app_nil in E as [-> ->]. by left.
  - rewrite IH. split.
    + intros [E|(l & r & ->)]; [|by exists (c :: l), r]. exists [], (drop (length t) (c :: s)).
      simpl app. rewrite <- (take_drop (length t) (c :: s)) at 1. by rewrite E.
    + intros ([|c' l] & r & E); [left|right].
      * rewrite E. simpl app. by rewrite take_app_length.
      * injection E as -> E. by exists l, r.
Qed.

Lemma trim_left_spaces l s :
  Forall (fun c => isspace c = true) l -> (forall c, head s = Some c -> isspace c = false) ->
  trim_left (l ++ s) = s.
Proof.
  intros Hl Hs. induction Hl as [|c l Hc _ IH]; simpl; [|by rewrite Hc].
  destruct s as [|c s]; [done|]. simpl. by rewrite (Hs c).
Qed.

Definition plain_boost_spec : @BoostSpec plain_boost.
Proof.
  refine (@Build_BoostSpec plain_boost (fun _ _ => eq_refl) _ (fun s t => has_part_spec t s)). intros l s r Hl Hr Hh Ht.
  cbn [trim plain_boost]. destruct s as [|c s].
  - assert (E : trim_left (l ++ [] ++ r) = []).
    { rewrite <- (app_nil_r (l ++ [] ++ r)), app_nil_l. apply trim_left_spaces; [by apply Forall_app|done]. }
    by rewrite E.
  - rewrite trim_left_spaces; [|done|done]. rewrite reverse_app, trim_left_spaces; [apply reverse_involutive| |].
    + by apply Forall_reverse.
    + intros c'. rewrite head_reverse. apply Ht.
Defined.

(** ** [Utils::Tokenize], [Utils::Split] *)

Definition Tokenize `{Boost} (str sep_chars : bytes) : list bytes := char_tokens sep_chars str.

(** [std::getline(stream, item, delim)]: the bytes up to the delimiter, which is
    dropped, and the rest; it fails at the end of the stream. *)
Fixpoint getline (delim : byte) (s : bytes) : option (bytes * bytes) :=
  match s with
  | [] => None
  | c :: s' =>
      if decide (c = delim) then Some ([], s')
      else match getline delim s' with
           | Some (item, rest) => Some (c :: item, rest)
           | None => Some ([c], [])
           end
  end.

(** [while (std::getline(ss, item, delim)) *(result++) = item]. *)
Fixpoint getlines (fuel : nat) (delim : byte) (s : bytes) : list bytes :=
  match fuel with
  | O => []
  | S fuel' =>
      match getline delim s with
      | None => []
      | Some (item, rest) => item :: getlines fuel' delim rest
      end
  end.

(** The length of the text bounds the number of items. *)
Definition Split (s : bytes) (delim : byte) : list bytes := getlines (length s) delim s.

Lemma getline_shorter delim s item rest : getline delim s = Some (item, rest) -> length rest < length s.
Proof.
  revert item rest. induction s as [|c s IH]; intros item rest; simpl; [done|].
  case_decide; [intros [= <- <-]; lia|]. destruct (getline delim s) as [[i r]|].
  - intros [= <- <-]. specialize (IH i r eq_refl). lia.
  - intros [= <- <-]. simpl. lia.
Qed.

Lemma getlines_fuel delim : forall f1 f2 s, length s <= f1 -> length s <= f2 -> getlines f1 delim s = getlines f2 delim s.
Proof.
  induction f1 as [|f1 IH]; intros f2 s Hf1 Hf2.
  - destruct s; [|simpl in Hf1; lia]. by destruct f2.
  - destruct f2 as [|f2]; [destruct s; [done|simpl in Hf2; lia]|]. simpl.
    destruct (getline delim s) as [[i r]|] eqn:E; [|done]. apply getline_shorter in E. f_equal. apply IH; lia.
Qed.

(** The loop ends with the text: *)
Lemma Split_eq s delim :
  Split s delim = match getline delim s with None => [] | Some (item, rest) => item :: Split rest delim end.
Proof.
  unfold Split. destruct s as [|c s]; [done|]. cbn [length getlines].
  destruct (getline delim (c :: s)) as [[i r]|] eqn:E; [|done]. apply getline_shorter in E. simpl in E.
  f_equal. apply getlines_fuel; lia.
Qed.

(** Fields that are joined by a delimiter. *)
Fixpoint join (delim : bytes) (cells : list bytes) : bytes :=
  match cells with
  | [] => []
  | [c] => c
  | c :: cs => c ++ delim ++ join delim cs
  end.

Lemma getline_app delim item rest : delim ∉ item -> getline delim (item ++ delim :: rest) = Some (item, rest).
Proof.
  induction item as [|c item IH]; intros Hd; simpl; [by rewrite decide_True|].
  apply not_elem_of_cons in Hd as [Hc Hd]. by rewrite decide_False, IH by congruence.
Qed.

Lemma getline_last delim item : delim ∉ item -> item <> [] -> getline delim item = Some (item, []).
Proof.
  induction item as [|c item IH]; intros Hd Hne; [done|]. apply not_elem_of_cons in Hd as [Hc Hd].
  cbn [getline]. rewrite decide_False by congruence. destruct item as [|c' item]; [done|]. by rewrite IH.
Qed.

(** Splitting inverts joining, unless the last field is empty. *)
Lemma Split_join delim cells :
  Forall (fun c => delim ∉ c) cells -> last cells <> Some [] -> Split (join [delim] cells) delim = cells.
Proof.
  induction cells as [|c cells IH]; intros Hd Hl; [done|]. apply Forall_cons in Hd as [Hc Hd].
  destruct cells as [|c' cells].
  - cbn [join]. rewrite Split_eq, getline_last by (done || by intros ->). done.
  - cbn [join] in *. cbn [app]. rewrite Split_eq, getline_app by done. f_equal. apply IH; [done|].
    by rewrite last_cons_cons in Hl.
Qed.

(** ** [Utils::TokenizeArgs] *)

(** The loop over the characters: [ss] holds the argument that is being read,
    [args] those that are complete. *)
Fixpoint tokenize_args (line : bytes) (in_quote : bool) (ss : bytes) (args : list bytes) : bool * list bytes :=
  match line with
  | [] => (negb in_quote, if slice_empty ss then args else args ++ [ss])
  | c :: line' =>
      if in_quote then
        if decide (c = x22) then tokenize_args line' false [] (args ++ [ss])
        else tokenize_args line' true (ss ++ [c]) args
      else if decide (c = x22) then tokenize_args line' true ss args
      else if decide (c = x20 \/ c = x09) then
        if slice_empty ss then tokenize_args line' false ss args
        else tokenize_args line' false [] (args ++ [ss])
      else tokenize_args line' false (ss ++ [c]) args
  end.

Definition TokenizeArgs (line : bytes) : bool * list bytes := tokenize_args line false [] [].

(** ** [Utils::ExtractElements] *)

(** The loop of [ExtractElementsWithCheck]; the elements that were found before an
    error stay in the result.  An element is moved out of the tokens, which leaves
    an empty string there. *)
Fixpoint extract (tokens : list bytes) (f_check : bytes -> ErrorCode) (idxs_elem : list nat) (elems : list bytes) :
  ErrorCode * list bytes :=
  match idxs_elem with
  | [] => (kOK, elems)
  | i :: idxs =>
      match tokens !! i with
      | None => (kIndexOutOfRange, elems)
      | Some e =>
          match f_check e with
          | kOK => extract (<[i := []]> tokens) f_check idxs (elems ++ [e])
          | ec => (ec, elems)
          end
      end
  end.

(** [ExtractElementsWithCheck(str, idxs, f_check, elems, delim = ',')]. *)
Definition ExtractElementsWithCheck (str : bytes) (idxs_elem : list nat) (f_check : bytes -> ErrorCode) (delim : byte) :
  ErrorCode * list bytes := extract (Split str delim) f_check idxs_elem [].

(** [ExtractElements(str, idxs, elems, delim)] does not pass [delim] on. *)
Definition ExtractElements (str : bytes) (idxs_elem : list nat) (delim : byte) : ErrorCode * list bytes :=
  ExtractElementsWithCheck str idxs_elem (fun _ => kOK) x2c.

Definition ExtractElement (str : bytes) (idx_elem : nat) (delim : byte) : option (ErrorCode * bytes) :=
  match ExtractElements str [idx_elem] delim with
  | (kOK, elems) => e ← head elems; Some (kOK, e)
  | (ec, _) => Some (ec, [])
  end.

(** ** Numbers and schemas *)

Definition digit (c : byte) : option Z :=
  let n := Z.of_N (Byte.to_N c) in if (48 <=? n)%Z && (n <=? 57)%Z then Some (n - 48)%Z else None.

Fixpoint digits (s : bytes) (acc : Z) : Z :=
  match s with
  | [] => acc
  | c :: s' => match digit c with Some v => digits s' (acc * 10 + v) | None => acc end
  end.

(** [std::stoi]: the longest number after spaces and a sign; it throws if there is
    none or if the number is not an [int]. *)
Definition stoi (s : bytes) : option Z :=
  let s1 := trim_left s in
  let '(neg, s2) := match s1 with x2d :: t => (true, t) | x2b :: t => (false, t) | _ => (false, s1) end in
  _ ← (c ← head s2; digit c);
  let v := if neg : bool then (- digits s2 0)%Z else digits s2 0 in
  if (- 2 ^ 31 <=? v)%Z && (v <? 2 ^ 31)%Z then Some v else None.

(** [Utils::ToIndices]. *)
Fixpoint to_indices (tokens : list bytes) (indices : list nat) : option (ErrorCode * list nat) :=
  match tokens with
  | [] => Some (kOK, indices)
  | t :: ts =>
      i ← stoi t;
      if (i <? 0)%Z then Some (kIndexOutOfRange, indices) else to_indices ts (indices ++ [Z.to_nat i])
  end.

Definition ToIndices `{Boost} (str : bytes) : option (ErrorCode * list nat) :=
  to_indices (Tokenize str (lit "{}[]()|,;: ")) [].

(** [std::regex_replace] with [\s*(,)\s*([^\s]?)] and [$1$2]: the spaces around a comma
    are dropped, and the character that follows them is copied as it is.
    [spaces] are the spaces before the current character. *)
Fixpoint drop_spaces (fuel : nat) (s spaces : bytes) : bytes :=
  match fuel with
  | O => spaces ++ s
  | S fuel' =>
      match s with
      | [] => spaces
      | c :: s' =>
          if decide (c = x2c) then
            match trim_left s' with
            | [] => [x2c]
            | c' :: s'' => x2c :: c' :: drop_spaces fuel' s'' []
            end
          else if isspace c then drop_spaces fuel' s' (spaces ++ [c])
          else spaces ++ c :: drop_spaces fuel' s' []
      end
  end.

(** [Utils::RegularizeCSVLine]. *)
Definition RegularizeCSVLine `{Boost} (line : bytes) : bytes := let s := trim line in drop_spaces (length s) s [].

(** The texts of numbers in a sequence. *)
Fixpoint decimal (fuel : nat) (n : N) (acc : bytes) : bytes :=
  match fuel with
  | O => acc
  | S fuel' =>
      let d := default x00 (Byte.of_N (48 + n mod 10)) in
      if (n <? 10)%N then d :: acc else decimal fuel' (n / 10) (d :: acc)
  end.

Definition nat_ToString (n : nat) : bytes := decimal (S n) (N.of_nat n) [].

(** [Utils::ToStringSeq(begin, end, "", "", sep)]. *)
Definition ToStringSeq (elems : list bytes) (sep : bytes) : bytes := join sep elems.

(** [Utils::GetFileContents] of a file that can be opened: [buf->at(0)] throws if
    the file is empty. *)
Definition GetFileContents (contents : bytes) : option bytes :=
  match contents with [] => None | _ => Some contents end.

(** ** Names and messages *)

(** [Utils::ToUType]. *)
Definition ToUType (str : bytes) : UType :=
  if decide (str = lit "bool") then UBool
  else if decide (str = lit "num") then UNum
  else if decide (str = lit "string") then UString
  else if decide (str = lit "blob") then UBlob
  else if decide (str = lit "list") then UList
  else if decide (str = lit "set") then USet
  else if decide (str = lit "map") then UMap
  else UUnknown.

(** [Utils::ToString(UType)]. *)
Definition type_ToString (t : UType) : bytes :=
  match t with
  | UBool => lit "Bool" | UNum => lit "Num" | UString => lit "String" | UBlob => lit "Blob"
  | UList => lit "List" | USet => lit "Set" | UMap => lit "Map" | _ => lit "<Unknown>"
  end.

(** [Utils::ToSlice] and [Utils::ToHash]: the hash of an empty slice reads from
    the null pointer, and is then empty. *)
Definition hash_ToSlice (h : Hash) : option Slice := b ← h; read_bytes 0 kByteLength b.
Definition slice_ToHash (s : Slice) : Hash := match s with [] => None | _ => Some s end.

(** ** Quoted arguments *)

Lemma tokenize_quoted arg : forall rest ss args, x22 ∉ arg ->
  tokenize_args (arg ++ x22 :: rest) true ss args = tokenize_args rest false [] (args ++ [ss ++ arg]).
Proof.
  induction arg as [|c arg IH]; intros rest ss args Hq; cbn [app tokenize_args].
  - by rewrite decide_True, app_nil_r.
  - apply not_elem_of_cons in Hq as [Hc Hq]. rewrite decide_False by congruence.
    by rewrite IH, <- (assoc app) by done.
Qed.

Definition quoted (arg : bytes) : bytes := x22 :: arg ++ [x22].

(** Arguments in quotes are read as they are, whatever they contain but quotes. *)
Theorem TokenizeArgs_quoted args :
  Forall (fun a => x22 ∉ a) args -> TokenizeArgs (join [x20] (quoted <$> args)) = (true, args).
Proof.
  intros Ha. unfold TokenizeArgs. change args with ([] ++ args) at 2. generalize (@nil bytes) as pre.
  induction Ha as [|a args Hq Ha IH]; intros pre; [by rewrite app_nil_r|].
  assert (E : forall rest, tokenize_args (quoted a ++ rest) false [] pre = tokenize_args rest false [] (pre ++ [a])).
  { intros rest. unfold quoted. cbn [app tokenize_args]. rewrite decide_True by done.
    rewrite <- (assoc app). cbn [app]. by rewrite tokenize_quoted. }
  destruct args as [|a' args].
  - cbn [fmap list_fmap join]. rewrite <- (app_nil_r (quoted a)), E. done.
  - rewrite fmap_cons. change (join [x20] (quoted a :: (quoted <$> a' :: args)))
      with (quoted a ++ [x20] ++ join [x20] (quoted <$> a' :: args)). rewrite E. cbn [app tokenize_args].
    rewrite decide_False, decide_True by auto. change (slice_empty []) with true. cbn iota. rewrite (IH (pre ++ [a])).
    by rewrite <- (assoc app).
Qed.
