(* ===== verification/Pipeline.v ===== *)
(** * Loading CSV files: [include/utils/blocking_queue.h],
      [include/utils/sync_task_line.h], [src/spec/relational.cc] (LoadCSV,
      ShardCSV, FlushCSV, ConcurrentFlush, DumpCSV)

    One thread cuts the lines of a file into batches of columns, another one
    writes the batches; a bounded queue connects them.  The two threads are a
    step relation; an operation of the queue that waits is a thread that cannot
    take a step. *)

From S2P Require Import Prelude Types Slice HashVal Text.

(** ** [class BlockingQueue] *)

Record BlockingQueue (T : Type) := mkQueue { capacity_ : nat; queue_ : list T }.
Arguments mkQueue {T}.
Arguments capacity_ {T}.
Arguments queue_ {T}.

(** [Put] and [Take]; [None] means that the call waits. *)
Definition q_Put {T} (q : BlockingQueue T) (x : T) : option (BlockingQueue T) :=
  if length (queue_ q) =? capacity_ q then None else Some (mkQueue (capacity_ q) (queue_ q ++ [x])).

Definition q_Take {T} (q : BlockingQueue T) : option (T * BlockingQueue T) :=
  match queue_ q with [] => None | x :: xs => Some (x, mkQueue (capacity_ q) xs) end.

(** ** [ColumnStore::ShardCSV] *)

(** A batch is a vector of columns. *)
Abbreviation Batch := (list (list Slice)).

Definition empty_batch (n_cols : nat) : Batch := replicate n_cols [].

(** [cols[i].push_back(row[i])] for all columns; a row that is too short is read
    beyond its end. *)
Fixpoint push_row (cols : Batch) (row : list Slice) : option Batch :=
  match cols, row with
  | [], _ => Some []
  | c :: cols', v :: row' => rest ← push_row cols' row'; Some ((c ++ [v]) :: rest)
  | _ :: _, [] => None
  end.

(** What the thread does with the queue: a full batch is put if no error was
    reported, the last two batches are put anyway. *)
Inductive Action := CheckPut (b : Batch) | JustPut (b : Batch).

Fixpoint ShardCSV `{Boost} (lines : list bytes) (batch_size n_cols : nat) (delim : byte) (cols : Batch) :
  option (list Action) :=
  match lines with
  | [] => Some [JustPut cols; JustPut (empty_batch n_cols)]
  | line :: lines' =>
      let line := trim line in
      if slice_empty line then ShardCSV lines' batch_size n_cols delim cols
      else
        cols' ← push_row cols (Split line delim);
        c0 ← head cols';
        if batch_size <=? length c0 then
          acts ← ShardCSV lines' batch_size n_cols delim (empty_batch n_cols);
          Some (CheckPut cols' :: acts)
        else ShardCSV lines' batch_size n_cols delim cols'
  end.

(** ** [ConcurrentFlush] *)

(** The status of every column after its task line has consumed its part; the
    number of rows is converted to [int]. *)
Definition ConcurrentFlush (cols : Batch) (stats : list ErrorCode) : option Z :=
  c0 ← head cols;
  Some (match list_find (fun ec => ec <> kOK) stats with
        | Some (_, ec) => - error_code ec
        | None => i32 (Z.of_nat (length c0))
        end)%Z.

(** ** [LoadCSV]: the two threads *)

Inductive Sharder := SRun (acts : list Action) | SPut (b : Batch) (acts : list Action) | SDone.
Inductive Flusher := FTake | FFlush (b : Batch) | FDone.

(** [stat_] is the code of the error that the flushing thread reported, 0 if
    there is none; [flushed_] are the batches that were written. *)
Record Load := mkLoad {
  sharder_ : Sharder;
  batch_queue_ : BlockingQueue Batch;
  flusher_ : Flusher;
  stat_ : Z;
  flushed_ : list Batch
}.

Definition load_start (acts : list Action) : Load := mkLoad (SRun acts) (mkQueue 2 []) FTake 0 [].

Definition shard_step (s : Load) : option Load :=
  let next sh q := mkLoad sh q (flusher_ s) (stat_ s) (flushed_ s) in
  match sharder_ s with
  | SRun [] => Some (next SDone (batch_queue_ s))
  | SRun (CheckPut b :: acts) =>
      Some (next (if (stat_ s =? 0)%Z then SPut b acts else SDone) (batch_queue_ s))
  | SRun (JustPut b :: acts) => Some (next (SPut b acts) (batch_queue_ s))
  | SPut b acts => q ← q_Put (batch_queue_ s) b; Some (next (SRun acts) q)
  | SDone => None
  end.

(** One step of [FlushCSV]; [stats] are the results of the task lines. *)
Definition flush_step (stats : list ErrorCode) (s : Load) : option Load :=
  match flusher_ s with
  | FTake => '(b, q) ← q_Take (batch_queue_ s); Some (mkLoad (sharder_ s) q (FFlush b) (stat_ s) (flushed_ s))
  | FFlush b =>
      num_loaded ← ConcurrentFlush b stats;
      Some (if (num_loaded =? 0)%Z then
              mkLoad (sharder_ s) (batch_queue_ s) FDone (stat_ s) (flushed_ s ++ [b])
            else if (num_loaded <? 0)%Z then
              mkLoad (sharder_ s) (batch_queue_ s) FDone (- num_loaded) (flushed_ s)
            else mkLoad (sharder_ s) (batch_queue_ s) FTake (stat_ s) (flushed_ s ++ [b]))
  | FDone => None
  end.

(** Any interleaving of the threads; [ok] says which results the task lines may
    have. *)
Inductive load_step (ok : list ErrorCode -> Prop) (s s' : Load) : Prop :=
  | by_sharder : shard_step s = Some s' -> load_step ok s s'
  | by_flusher stats : ok stats -> flush_step stats s = Some s' -> load_step ok s s'.

(** Both threads are done, so that [LoadCSV] goes on. *)
Definition finished (s : Load) : Prop := sharder_ s = SDone /\ flusher_ s = FDone.

(** ** The text of a table *)

(** [ColumnStore::DumpCSV] after the columns were read: [cols] are the columns
    with their names in front; the number of rows is that of the shortest one. *)
Definition dump_rows (cols : Batch) : nat :=
  match cols with [] => 0 | c :: cs => foldr (fun c n => Nat.min (length c) n) (length c) cs end.

Definition dump_row (cols : Batch) (i : nat) : option bytes :=
  cells ← mapM (fun c => c !! i) cols; Some (join [x7c] cells ++ [x0a]).

Definition dump_text (cols : Batch) : option bytes :=
  rows ← mapM (dump_row cols) (seq 0 (dump_rows cols)); Some (concat rows).

(** [LoadCSV]: the names of the columns and the delimiter, which is the character
    after the first name; then the lines.  A file without a first line has no
    columns. *)
Definition csv_seps : bytes := [x20; x09; x2c; x7c].

Definition load_header `{Boost} (text : bytes) : option (list bytes * byte * list bytes) :=
  match getline x0a text with
  | None => Some ([], x2c, [])
  | Some (line, rest) =>
      let col_names := Tokenize line csv_seps in
      name ← head col_names;
      delim ← line !! length name;
      Some (col_names, delim, Split rest x0a)
  end.

(** ** Termination *)

Definition shard_work (sh : Sharder) : nat :=
  match sh with SRun acts => 1 + 4 * length acts | SPut _ acts => 4 + 4 * length acts | SDone => 0 end.

Definition load_work (s : Load) : nat :=
  shard_work (sharder_ s) + 2 * length (queue_ (batch_queue_ s)) +
  match flusher_ s with FFlush _ => 1 | _ => 0 end.

Lemma q_Put_Some {T} (q q' : BlockingQueue T) x :
  q_Put q x = Some q' -> q' = mkQueue (capacity_ q) (queue_ q ++ [x]).
Proof. unfold q_Put. case_match; [done|]. by intros [= <-]. Qed.

Lemma load_step_work ok s s' : load_step ok s s' -> load_work s' < load_work s.
Proof.
  destruct s as [sh q fl st fs]. intros [E|stats Hok E]; unfold load_work.
  - unfold shard_step in E. cbn [sharder_ batch_queue_ flusher_ stat_ flushed_] in *. destruct sh as [[|[b|b] acts]|b acts|].
    + injection E as <-. simpl. lia.
    + injection E as <-. cbn [sharder_ batch_queue_ flusher_]. destruct (st =? 0)%Z; simpl; lia.
    + injection E as <-. simpl. lia.
    + apply bind_Some in E as (q' & ->%q_Put_Some & [= <-]). cbn. rewrite length_app. simpl. lia.
    + done.
  - unfold flush_step in E. cbn [sharder_ batch_queue_ flusher_ stat_ flushed_] in *. destruct fl as [|b|]; [| |done].
    + unfold q_Take in E. destruct (queue_ q) as [|b xs]; [done|]. osimpl in E. injection E as <-. simpl. lia.
    + apply bind_Some in E as (n & _ & [= <-]). destruct (n =? 0)%Z; [|destruct (n <? 0)%Z]; simpl; lia.
Qed.

(** ** What is cut *)

(** The number of rows of a batch. *)
Definition b_rows (b : Batch) : nat := match head b with Some c => length c | None => 0 end.

(** Batches put together, column by column. *)
Definition gather (n_cols : nat) (bs : list Batch) : Batch := foldr (zip_with app) (empty_batch n_cols) bs.

Fixpoint push_rows (cols : Batch) (rows : list (list Slice)) : option Batch :=
  match rows with [] => Some cols | row :: rows' => cols' ← push_row cols row; push_rows cols' rows' end.

(** The rows of a file: blank lines do not count. *)
Definition csv_rows `{Boost} (delim : byte) (lines : list bytes) : list (list Slice) :=
  (fun l => Split l delim) <$> filter (fun l => l <> []) (trim <$> lines).

Lemma push_row_length cols row cols' : push_row cols row = Some cols' -> length cols' = length cols.
Proof.
  revert row cols'. induction cols as [|c cols IH]; intros [|v row] cols'; simpl; try done.
  - by intros [= <-].
  - by intros [= <-].
  - intros (rest & E & [= <-])%bind_Some. simpl. f_equal. by eapply IH.
Qed.

Lemma push_row_total cols row : length cols <= length row -> is_Some (push_row cols row).
Proof.
  revert row. induction cols as [|c cols IH]; intros [|v row]; simpl; intros Hl; try (by eexists); [lia|].
  destruct (IH row ltac:(lia)) as [rest ->]. osimpl. by eexists.
Qed.

Lemma push_row_gather a cols row :
  length a = length cols -> push_row (zip_with app a cols) row = zip_with app a <$> push_row cols row.
Proof.
  revert a row. induction cols as [|c cols IH]; intros [|x a] [|v row]; simpl; intros Hl; try done.
  rewrite IH by lia. destruct (push_row cols row); simpl; [|done]. by rewrite (assoc app).
Qed.

Lemma push_rows_length cols rows cols' : push_rows cols rows = Some cols' -> length cols' = length cols.
Proof.
  revert cols. induction rows as [|row rows IH]; intros cols; simpl; [by intros [= <-]|].
  intros (c1 & E & Hr)%bind_Some. by rewrite (IH _ Hr), (push_row_length _ _ _ E).
Qed.

Lemma push_rows_gather a cols rows :
  length a = length cols -> push_rows (zip_with app a cols) rows = zip_with app a <$> push_rows cols rows.
Proof.
  revert cols. induction rows as [|row rows IH]; intros cols Hl; simpl; [done|].
  rewrite push_row_gather by done. destruct (push_row cols row) as [c1|] eqn:E; simpl; [|done].
  apply IH. by rewrite (push_row_length _ _ _ E).
Qed.

(** A column of a table made of rows. *)
Lemma push_rows_column cols rows cols' i c :
  push_rows cols rows = Some cols' -> cols !! i = Some c ->
  exists vs, mapM (fun row => row !! i) rows = Some vs /\ cols' !! i = Some (c ++ vs).
Proof.
  revert cols c. induction rows as [|row rows IH]; intros cols c; simpl.
  { intros [= <-] Hi. exists []. by rewrite app_nil_r. }
  intros (c1 & E & Hr)%bind_Some Hi.
  assert (exists v, row !! i = Some v /\ c1 !! i = Some (c ++ [v])) as (v & Hv & Hc1).
  { clear IH Hr. revert row c1 i E Hi. induction cols as [|x cols IHc]; intros [|v row] c1 i E Hi; try done.
    simpl in E. apply bind_Some in E as (rest & E & [= <-]). destruct i as [|i]; simpl in *; [|eauto].
    injection Hi as <-. eauto. }
  destruct (IH c1 (c ++ [v]) Hr Hc1) as (vs & -> & Hc). rewrite Hv. osimpl. exists (v :: vs).
  by rewrite Hc, <- app_assoc.
Qed.

Lemma length_empty_batch n : length (empty_batch n) = n.
Proof. apply length_replicate. Qed.

Lemma zip_app_empty n (b : Batch) : length b = n -> zip_with app b (empty_batch n) = b.
Proof.
  revert n. induction b as [|c b IH]; intros [|n] Hl; try done. cbn [empty_batch replicate zip_with].
  rewrite app_nil_r. f_equal. apply IH. by injection Hl.
Qed.

Lemma length_gather n bs : Forall (fun b => length b = n) bs -> length (gather n bs) = n.
Proof.
  induction 1 as [|b bs Hb _ IH]; cbn [gather foldr]; [apply length_empty_batch|]. fold (gather n bs). rewrite length_zip_with, Hb. lia.
Qed.

(** An [int] can hold the number of rows. *)
Definition few_rows (b : Batch) : Prop := (Z.of_nat (b_rows b) < 2 ^ 31)%Z.

Lemma few_rows_app (a b : Batch) : a <> [] -> b <> [] -> few_rows (zip_with app a b) -> few_rows a /\ few_rows b.
Proof.
  unfold few_rows, b_rows. destruct a as [|x a], b as [|y b]; try done. intros _ _. cbn. rewrite length_app. lia.
Qed.

Lemma empty_few n : few_rows (empty_batch n).
Proof. by destruct n. Qed.

(** The batches of a run: full ones, the rest and an empty one. *)
Record script_ok (n : nat) (bs : list Batch) (r : Batch) : Prop := {
  so_pos : 0 < n;
  so_rows : Forall (fun b => 0 < b_rows b) bs;
  so_cols : Forall (fun b => length b = n) (bs ++ [r]);
  so_small : Forall few_rows (bs ++ [r])
}.

Definition script (n : nat) (bs : list Batch) (r : Batch) : list Action :=
  (CheckPut <$> bs) ++ [JustPut r; JustPut (empty_batch n)].

Lemma push_row_rows cols row cols' : cols <> [] -> push_row cols row = Some cols' -> 0 < b_rows cols'.
Proof.
  destruct cols as [|c cols], row as [|v row]; try done. intros _ (rest & _ & [= <-])%bind_Some.
  unfold b_rows. simpl. rewrite length_app. simpl. lia.
Qed.

(** Sharding loses no row, and every batch but the last two has rows. *)
Lemma ShardCSV_script `{Boost} batch_size n delim lines : forall cols cols',
  0 < n -> length cols = n -> push_rows cols (csv_rows delim lines) = Some cols' -> few_rows cols' ->
  exists bs r, ShardCSV lines batch_size n delim cols = Some (script n bs r) /\ script_ok n bs r /\
    gather n (bs ++ [r]) = cols'.
Proof.
  induction lines as [|line lines IH]; intros cols cols' Hn Hl.
  - cbn. intros [= <-] Hf. exists [], cols. split_and!; [done| |by apply zip_app_empty].
    split; [done|by constructor|by repeat constructor|by repeat constructor].
  - unfold csv_rows. cbn [fmap list_fmap ShardCSV]. unfold slice_empty.
    rewrite filter_cons. destruct (decide (trim line <> [])) as [Hne|He].
    + rewrite bool_decide_false by (by intros ?%nil_length_inv). cbn [fmap list_fmap push_rows].
      intros (c1 & E & Hr)%bind_Some Hf. rewrite E. osimpl.
      pose proof (push_row_length _ _ _ E) as Hc1. destruct c1 as [|x c1]; [simpl in *; lia|]. cbn [head]. osimpl.
      fold (csv_rows delim lines) in Hr. destruct (batch_size <=? length x).
      * rewrite <- (zip_app_empty n (x :: c1)) in Hr by lia.
        rewrite push_rows_gather in Hr by (rewrite length_empty_batch; lia).
        apply fmap_Some in Hr as (c2 & E2 & ->).
        assert (Hl2 : length c2 = n) by (by rewrite (push_rows_length _ _ _ E2), length_empty_batch).
        destruct (few_rows_app (x :: c1) c2) as [Hf1 Hf2]; [done|intros ->; simpl in Hl2; lia|done|].
        destruct (IH (empty_batch n) c2 Hn (length_empty_batch n) E2 Hf2) as (bs & r & -> & [_ Hb Hcs Hfs] & Hg). osimpl.
        exists ((x :: c1) :: bs), r. split_and!; [done| |simpl; by rewrite <- Hg].
        split; [done| |constructor; [simpl in *; lia|done]|by constructor]. constructor; [|done].
        eapply (push_row_rows cols); [by intros ->; simpl in Hl; lia|exact E].
      * apply (IH _ _ Hn); [lia|done|done].
    + apply dec_stable in He. rewrite bool_decide_true by (by rewrite He). by apply IH.
Qed.

(** ** Runs without errors *)

Definition act_batch (a : Action) : Batch := match a with CheckPut b | JustPut b => b end.

(** The batches that are still to be put into the queue. *)
Definition to_put (sh : Sharder) : list Batch :=
  match sh with SRun acts => act_batch <$> acts | SPut b acts => b :: (act_batch <$> acts) | SDone => [] end.

Definition in_flush (fl : Flusher) : list Batch := match fl with FFlush b => [b] | _ => [] end.

Definition all_ok (n : nat) (stats : list ErrorCode) : Prop := stats = replicate n kOK.

#[export] Instance Flusher_eq_dec : EqDecision Flusher.
Proof. solve_decision. Defined.

(** Every batch is in one place, in order; the flushing thread goes on until it
    has seen a batch without rows. *)
Record load_ok (n : nat) (all : list Batch) (s : Load) : Prop := {
  lk_stat : stat_ s = 0%Z;
  lk_cap : capacity_ (batch_queue_ s) = 2;
  lk_queue : length (queue_ (batch_queue_ s)) <= 2;
  lk_order : flushed_ s ++ in_flush (flusher_ s) ++ queue_ (batch_queue_ s) ++ to_put (sharder_ s) = all;
  lk_done : if decide (flusher_ s = FDone) then exists pre x, flushed_ s = pre ++ [x] /\ b_rows x = 0
            else Forall (fun b => 0 < b_rows b) (flushed_ s)
}.

Lemma flush_no_error n b : length b = n -> 0 < n -> few_rows b ->
  ConcurrentFlush b (replicate n kOK) = Some (Z.of_nat (b_rows b)).
Proof.
  intros Hl Hn Hf. unfold few_rows, ConcurrentFlush, b_rows in *. destruct b as [|c b]; [simpl in Hl; lia|]. cbn [head] in *. osimpl.
  destruct (list_find _ _) as [[i ec]|] eqn:E; [|by rewrite i32_small by lia]. apply list_find_Some in E as (Hi & Hne & _).
  by apply lookup_replicate in Hi as [-> _].
Qed.

Lemma load_start_ok n bs r : script_ok n bs r -> load_ok n (bs ++ [r; empty_batch n]) (load_start (script n bs r)).
Proof.
  intros _. split; [done|done|simpl; lia| |by rewrite decide_False]. cbn. unfold script.
  rewrite fmap_app, <- list_fmap_compose. cbn. f_equal. rewrite <- (list_fmap_id bs) at 2. by apply list_fmap_ext.
Qed.

Lemma load_step_ok n all s s' :
  0 < n -> Forall (fun b => length b = n /\ few_rows b) all -> load_ok n all s -> load_step (all_ok n) s s' -> load_ok n all s'.
Proof.
  destruct s as [sh q fl st fs]. intros Hn Hall [Hst Hcap Hq Ho Hd]. cbn [sharder_ batch_queue_ flusher_ stat_ flushed_] in *.
  intros [E|stats Hok E].
  - unfold shard_step in E. cbn [sharder_ batch_queue_ flusher_ stat_ flushed_] in E.
    destruct sh as [[|[b|b] acts]|b acts|].
    + injection E as <-. by split.
    + rewrite Hst in E. injection E as <-. by split.
    + injection E as <-. by split.
    + unfold q_Put in E. rewrite Hcap in E. destruct (Nat.eqb_spec (length (queue_ q)) 2); [done|].
      osimpl in E. injection E as <-. split; cbn; [done|done|rewrite length_app; simpl; lia| |done].
      rewrite <- Ho. cbn [to_put]. by rewrite <- !(assoc app).
    + done.
  - unfold flush_step in E. cbn [sharder_ batch_queue_ flusher_ stat_ flushed_] in E. destruct fl as [|b|]; [| |done].
    + unfold q_Take in E. destruct (queue_ q) as [|b xs] eqn:Eq; [done|]. osimpl in E. injection E as <-.
      split; cbn; [done|done|simpl in Hq; lia|by rewrite <- Ho|]. rewrite decide_False in Hd by done.
      by rewrite decide_False.
    + destruct (proj1 (Forall_forall _ _) Hall b ltac:(rewrite <- Ho; set_solver)) as [Hlb Hfb].
      rewrite Hok, flush_no_error in E by done.
      osimpl in E. rewrite decide_False in Hd by done. destruct (Z.eqb_spec (Z.of_nat (b_rows b)) 0) as [Hz|Hz].
      * injection E as <-. split; cbn; [done..| |]; [by rewrite <- Ho, <- (assoc app)|].
        rewrite decide_True by done. exists fs, b. split; [done|lia].
      * destruct (Z.ltb_spec (Z.of_nat (b_rows b)) 0); [lia|]. injection E as <-.
        split; cbn; [done..| |]; [by rewrite <- Ho, <- (assoc app)|].
        rewrite decide_False by done. apply Forall_app. split; [done|]. constructor; [lia|constructor].
Qed.

Lemma script_batches n bs r : script_ok n bs r ->
  Forall (fun b => length b = n /\ few_rows b) (bs ++ [r; empty_batch n]).
Proof.
  intros [_ _ Hc Hf]. change [r; empty_batch n] with ([r] ++ [empty_batch n]). rewrite (assoc app), Forall_app, !Forall_and.
  split_and!; [done|done|..]; (constructor; [|constructor]); [apply length_empty_batch|apply empty_few].
Qed.

Lemma load_reach_ok n bs r s :
  script_ok n bs r -> rtc (load_step (all_ok n)) (load_start (script n bs r)) s ->
  load_ok n (bs ++ [r; empty_batch n]) s.
Proof.
  intros Hs. pose proof (script_batches n bs r Hs) as Hall.
  apply rtc_ind_r; [by apply load_start_ok|]. intros x y _ Hxy Hx. eapply load_step_ok; [apply Hs|done..].
Qed.

(** After a batch without rows at most one batch is left. *)
Lemma rows_end (bs : list Batch) (r e x : Batch) pre rest :
  Forall (fun b => 0 < b_rows b) bs -> b_rows x = 0 -> pre ++ [x] ++ rest = bs ++ [r; e] -> length rest <= 1.
Proof.
  intros Hb Hx E. assert (Hl : (bs ++ [r; e]) !! length pre = Some x).
  { rewrite <- E. by rewrite lookup_app_r, Nat.sub_diag by lia. }
  destruct (decide (length pre < length bs)) as [Hlt|Hge].
  - rewrite lookup_app_l in Hl by done. pose proof (Forall_lookup_1 _ _ _ _ Hb Hl) as Hpos. simpl in Hpos. lia.
  - apply (f_equal length) in E. rewrite !length_app in E. simpl in E. lia.
Qed.

(** The threads do not wait for each other forever. *)
Lemma load_progress n bs r s :
  script_ok n bs r -> load_ok n (bs ++ [r; empty_batch n]) s -> finished s \/ exists s', load_step (all_ok n) s s'.
Proof.
  destruct s as [sh q fl st fs]. intros Hso [Hst Hcap Hq Ho Hd]. pose proof Hso as [Hn Hb Hc _].
  cbn [sharder_ batch_queue_ flusher_ stat_ flushed_] in *.
  assert (He : b_rows (empty_batch n) = 0) by (by destruct n).
  destruct fl as [|b|].
  - destruct (queue_ q) as [|b xs] eqn:Eq.
    + right. destruct sh as [[|[b|b] acts]|b acts|].
      * eexists. apply by_sharder. reflexivity.
      * eexists. apply by_sharder. reflexivity.
      * eexists. apply by_sharder. reflexivity.
      * eexists. apply by_sharder. unfold shard_step, q_Put. cbn. by rewrite Hcap, Eq.
      * exfalso. cbn in Ho. rewrite app_nil_r in Ho. subst fs. rewrite decide_False in Hd by done.
        apply Forall_app in Hd as [_ Hd]. apply Forall_cons in Hd as [_ Hd]. apply Forall_cons in Hd as [Hd _].
        simpl in Hd. lia.
    + right. eexists. apply (by_flusher (all_ok n) _ _ (replicate n kOK) eq_refl). unfold flush_step, q_Take. cbn. by rewrite Eq.
  - right. destruct (proj1 (Forall_forall _ _) (script_batches n bs r Hso) b ltac:(rewrite <- Ho; set_solver)) as [Hlb Hfb].
    eexists. apply (by_flusher (all_ok n) _ _ (replicate n kOK) eq_refl). unfold flush_step. cbn [flusher_].
    rewrite flush_no_error by done. osimpl. reflexivity.
  - rewrite decide_True in Hd by done. destruct Hd as (pre & x & -> & Hx). cbn [in_flush app] in Ho.
    rewrite <- (assoc app) in Ho. pose proof (rows_end bs r _ x pre _ Hb Hx Ho) as Hr. rewrite length_app in Hr.
    destruct sh as [[|[b|b] acts]|b acts|]; [right; eexists; apply by_sharder; reflexivity..| |by left].
    right. eexists. apply by_sharder. unfold shard_step, q_Put. cbn. rewrite Hcap.
    destruct (Nat.eqb_spec (length (queue_ q)) 2); [simpl in Hr; lia|]. reflexivity.
Qed.

(** When both are done, every row was written. *)
Lemma load_finished n bs r s :
  script_ok n bs r -> load_ok n (bs ++ [r; empty_batch n]) s -> finished s ->
  stat_ s = 0%Z /\ gather n (flushed_ s) = gather n (bs ++ [r]).
Proof.
  destruct s as [sh q fl st fs]. intros [Hn Hb Hc _] [Hst Hcap Hq Ho Hd] [Hsh Hfl].
  cbn [sharder_ batch_queue_ flusher_ stat_ flushed_] in *. split; [done|]. subst sh fl.
  rewrite decide_True in Hd by done. destruct Hd as (pre & x & -> & Hx). cbn [in_flush to_put app] in Ho.
  rewrite app_nil_r in Ho. rewrite <- (assoc app) in Ho.
  pose proof (rows_end bs r _ x pre _ Hb Hx Ho) as Hr.
  change [r; empty_batch n] with ([r] ++ [empty_batch n]) in Ho. rewrite !(assoc app) in Ho.
  destruct (queue_ q) as [|b [|]]; [| |simpl in Hr; lia].
  - rewrite app_nil_r in Ho. rewrite Ho. unfold gather. rewrite !foldr_app. cbn [foldr].
    by rewrite (zip_app_empty n (empty_batch n)) by apply length_empty_batch.
  - apply app_inj_tail in Ho as [-> _]. done.
Qed.

(** ** [class SyncTaskLine] *)

Section TaskLine.
Context {T1 T2 : Type}.
Variable (Consume : T1 -> T2) (Terminate : T1 -> bool).

(** The thread of [Run], and the thread that calls [Produce] and [Sync] for
    every datum. *)
Inductive Runner := RTake | RConsume (data : T1) | REnd.
Inductive Caller := CNext (todo : list T1) | CPut (data : T1) (todo : list T1) | CSync (todo : list T1).

Record TaskLine := mkLine {
  caller_ : Caller;
  line_queue_ : BlockingQueue T1;
  runner_ : Runner;
  processed_ : bool;
  line_stat_ : option T2;
  synced_ : list T2
}.

Definition line_start (data : list T1) : TaskLine := mkLine (CNext data) (mkQueue 1 []) RTake false None [].

(** [Produce]: [UnsetProcessed], then [Put]; [Sync] waits for [processed_]. *)
Definition caller_step (s : TaskLine) : option TaskLine :=
  match caller_ s with
  | CNext [] => None
  | CNext (d :: todo) => Some (mkLine (CPut d todo) (line_queue_ s) (runner_ s) false (line_stat_ s) (synced_ s))
  | CPut d todo =>
      q ← q_Put (line_queue_ s) d;
      Some (mkLine (CSync todo) q (runner_ s) (processed_ s) (line_stat_ s) (synced_ s))
  | CSync todo =>
      if processed_ s then
        e ← line_stat_ s;
        Some (mkLine (CNext todo) (line_queue_ s) (runner_ s) true (line_stat_ s) (synced_ s ++ [e]))
      else None
  end.

(** [Run]. *)
Definition runner_step (s : TaskLine) : option TaskLine :=
  match runner_ s with
  | RTake =>
      '(d, q) ← q_Take (line_queue_ s);
      Some (mkLine (caller_ s) q (RConsume d) (processed_ s) (line_stat_ s) (synced_ s))
  | RConsume d =>
      Some (mkLine (caller_ s) (line_queue_ s) (if Terminate d then REnd else RTake) true (Some (Consume d)) (synced_ s))
  | REnd => None
  end.

Definition line_step (s s' : TaskLine) : Prop := caller_step s = Some s' \/ runner_step s = Some s'.

(** The states of a line: before [Produce], after [UnsetProcessed], with the
    datum in the queue, taken, and consumed. *)
Inductive line_ok (data : list T1) : TaskLine -> Prop :=
  | ok_next done todo p st :
      data = done ++ todo -> (todo <> [] -> Forall (fun d => Terminate d = false) done) ->
      line_ok data (mkLine (CNext todo) (mkQueue 1 [])
        (if bool_decide (Exists (fun d => Terminate d = true) done) then REnd else RTake) p st (Consume <$> done))
  | ok_put done d todo st :
      data = done ++ d :: todo -> Forall (fun d => Terminate d = false) done ->
      line_ok data (mkLine (CPut d todo) (mkQueue 1 []) RTake false st (Consume <$> done))
  | ok_queued done d todo st :
      data = done ++ d :: todo -> Forall (fun d => Terminate d = false) done ->
      line_ok data (mkLine (CSync todo) (mkQueue 1 [d]) RTake false st (Consume <$> done))
  | ok_taken done d todo st :
      data = done ++ d :: todo -> Forall (fun d => Terminate d = false) done ->
      line_ok data (mkLine (CSync todo) (mkQueue 1 []) (RConsume d) false st (Consume <$> done))
  | ok_consumed done d todo :
      data = done ++ d :: todo -> Forall (fun d => Terminate d = false) done ->
      line_ok data (mkLine (CSync todo) (mkQueue 1 []) (if Terminate d then REnd else RTake) true
        (Some (Consume d)) (Consume <$> done)).

(** The data of a caller that ends the line with its last datum, if at all. *)
Definition ends_line (data : list T1) : Prop :=
  forall pre d post, data = pre ++ d :: post -> Terminate d = true -> post = [].

Lemma ends_done data done todo :
  ends_line data -> data = done ++ todo -> todo <> [] -> Forall (fun d => Terminate d = false) done.
Proof.
  intros He -> Hne. apply Forall_forall. intros d (pre & post & ->)%list_elem_of_split.
  destruct (Terminate d) eqn:E; [|done]. specialize (He pre d (post ++ todo)).
  rewrite <- (assoc app) in He. specialize (He eq_refl E). by apply app_nil in He as [_ ->].
Qed.

Lemma runner_alive done :
  Forall (fun d => Terminate d = false) done ->
  (if bool_decide (Exists (fun d => Terminate d = true) done) then REnd else RTake) = RTake.
Proof.
  intros Hd. rewrite bool_decide_false; [done|]. rewrite Exists_exists. intros (d & Hin & Ht).
  rewrite Forall_forall in Hd. by rewrite (Hd d Hin) in Ht.
Qed.

Lemma line_step_ok data s s' : ends_line data -> line_ok data s -> line_step s s' -> line_ok data s'.
Proof.
  intros He Hs [E|E].
  - destruct Hs as [done todo p st Ed Ha|done d todo st Ed Ha|done d todo st Ed Ha|done d todo st Ed Ha|done d todo Ed Ha];
      cbn in E; try discriminate E.
    + destruct todo as [|d todo]; [done|]. injection E as <-. specialize (Ha ltac:(done)).
      rewrite runner_alive by done. by constructor.
    + injection E as <-. by constructor.
    + injection E as <-. rewrite <- (fmap_snoc Consume done d).
      assert (E : (if Terminate d then REnd else RTake)
        = (if bool_decide (Exists (fun d => Terminate d = true) (done ++ [d])) then REnd else RTake)).
      { destruct (Terminate d) eqn:Et.
        - rewrite bool_decide_true; [done|]. apply Exists_app. right. by constructor.
        - symmetry. apply runner_alive, Forall_app. split; [done|by constructor]. }
      rewrite E. constructor; [by rewrite Ed, <- (assoc app)|].
      apply ends_done with (data := data); [done|by rewrite Ed, <- (assoc app)].
  - destruct Hs as [done todo p st Ed Ha|done d todo st Ed Ha|done d todo st Ed Ha|done d todo st Ed Ha|done d todo Ed Ha];
      cbn in E; try discriminate E.
    + unfold runner_step in E. cbn in E. by destruct (bool_decide _).
    + injection E as <-. by constructor.
    + injection E as <-. by constructor.
    + unfold runner_step in E. cbn in E. by destruct (Terminate d).
Qed.

Lemma line_progress data s :
  line_ok data s -> (exists q r p st, s = mkLine (CNext []) q r p st (Consume <$> data)) \/ exists s', line_step s s'.
Proof.
  intros [done todo p st Ed Ha|done d todo st Ed Ha|done d todo st Ed Ha|done d todo st Ed Ha|done d todo Ed Ha].
  - destruct todo as [|d todo]; [left|right; eexists; left; reflexivity].
    rewrite app_nil_r in Ed. subst done. eauto.
  - right. eexists. left. reflexivity.
  - right. eexists. right. reflexivity.
  - right. eexists. right. reflexivity.
  - right. eexists. left. reflexivity.
Qed.

End TaskLine.
