(* ===== verification/PipelineProps.v ===== *)
(** * Properties of loading CSV files *)

From S2P Require Import Prelude Types Slice HashVal Text Pipeline.

(** ** The text of a table *)

(** Cells that can be written: no delimiter, no line break. *)
Definition cell_ok (c : bytes) : Prop := x7c ∉ c /\ x0a ∉ c.

(** Rows whose line is read back: the line neither begins nor ends with a space,
    and the last cell is not empty. *)
Record row_ok (row : list bytes) : Prop := {
  ro_cells : Forall cell_ok row;
  ro_last : last row <> Some [];
  ro_ne : row <> [];
  ro_head : forall c, head (join [x7c] row) = Some c -> isspace c = false;
  ro_tail : forall c, last (join [x7c] row) = Some c -> isspace c = false
}.

Definition name_ok (c : bytes) : Prop := c <> [] /\ Forall (fun x => x ∉ x0a :: csv_seps) c.

Lemma join_no_break row : Forall cell_ok row -> x0a ∉ join [x7c] row.
Proof.
  induction 1 as [|c row [_ Hc] Hr IH]; [apply not_elem_of_nil|]. destruct row as [|c' row]; [done|].
  cbn [join]. rewrite !not_elem_of_app. split_and!; [done| |done]. by apply not_elem_of_cons; split; [|apply not_elem_of_nil].
Qed.

Lemma join_ne row : row <> [] -> last row <> Some [] -> join [x7c] row <> [].
Proof.
  destruct row as [|c [|c' row]]; [done|intros _ Hl; simpl; by intros ->|]. intros _ _. cbn [join].
  by intros [_ ?]%app_nil.
Qed.

(** The lines of a text. *)
Lemma Split_lines rows : Forall row_ok rows -> Split (concat ((fun r => join [x7c] r ++ [x0a]) <$> rows)) x0a = join [x7c] <$> rows.
Proof.
  induction 1 as [|r rows [Hc _ _ _ _] _ IH]; [done|]. cbn [fmap list_fmap concat]. rewrite <- (assoc app). cbn [app].
  rewrite Split_eq, getline_app by (by apply join_no_break). by f_equal.
Qed.

Lemma name_seps c : name_ok c -> Forall (fun x => x ∉ csv_seps) c.
Proof. intros [_ Hc]. eapply Forall_impl; [exact Hc|]. intros x. rewrite not_elem_of_cons. tauto. Qed.

(** The names in the first line. *)
Lemma Tokenize_names `{BoostSpec} names : Forall name_ok names -> Tokenize (join [x7c] names) csv_seps = names.
Proof.
  intros Hn. unfold Tokenize. rewrite char_tokens_spec. destruct Hn as [|c names Hc Hn]; [done|].
  revert c Hc. induction Hn as [|c' names Hc' Hn IH]; intros c Hc.
  - cbn [join]. rewrite fields_last by (by apply name_seps). rewrite filter_cons_True by apply Hc. done.
  - cbn [join app]. rewrite fields_app; [|by apply name_seps|by vm_compute; repeat constructor].
    rewrite filter_cons_True by apply Hc. f_equal. by apply IH.
Qed.

Lemma names_row names : Forall name_ok names -> Forall cell_ok names.
Proof.
  intros Hn. eapply Forall_impl; [exact Hn|]. intros c [_ Hc]. rewrite Forall_forall in Hc.
  split; intros Hin; apply Hc in Hin; apply Hin; unfold csv_seps; set_solver.
Qed.

(** The rows of a table: the column names first. *)
Lemma dump_text_rows cols rows :
  mapM (fun i => mapM (fun c => c !! i) cols) (seq 0 (dump_rows cols)) = Some rows ->
  dump_text cols = Some (concat ((fun r => join [x7c] r ++ [x0a]) <$> rows)).
Proof.
  unfold dump_text. intros E.
  assert (E' : mapM (dump_row cols) (seq 0 (dump_rows cols)) = Some ((fun r => join [x7c] r ++ [x0a]) <$> rows)).
  { revert rows E. induction (seq 0 (dump_rows cols)) as [|i l IH]; intros rows E; cbn [mapM] in *.
    - by injection E as <-.
    - apply bind_Some in E as (row & Er & E). apply bind_Some in E as (rows' & Ers & [= <-]).
      assert (Ed : dump_row cols i = Some (join [x7c] row ++ [x0a])) by (unfold dump_row; by rewrite Er).
      rewrite Ed. osimpl. rewrite (IH _ Ers). osimpl. done. }
  rewrite E'. done.
Qed.

(** A table as a list of columns has rows, and the columns can be made from them. *)
Lemma columns_rows (cols : Batch) k n : cols <> [] -> Forall (fun c => length c = k + n) cols ->
  exists rows, mapM (fun i => mapM (fun c => c !! i) cols) (seq k n) = Some rows /\ length rows = n /\
    Forall (fun r => length r = length cols) rows /\
    push_rows (take k <$> cols) rows = Some cols.
Proof.
  revert k. induction n as [|n IH]; intros k Hne Hc.
  - exists []. split_and!; [done|done|constructor|]. cbn [push_rows]. f_equal.
    rewrite <- (list_fmap_id cols) at 2. apply Forall_fmap_ext_1. eapply Forall_impl; [exact Hc|].
    intros c Hl. simpl in *. by rewrite take_ge by lia.
  - destruct (IH (S k) Hne) as (rows & E & Hl & Hr & Hp).
    { eapply Forall_impl; [exact Hc|]. simpl. intros; lia. }
    assert (exists row, mapM (fun c => c !! k) cols = Some row /\ length row = length cols /\
      push_row (take k <$> cols) row = Some (take (S k) <$> cols)) as (row & Er & Hlr & Hpr).
    { clear -Hc. induction Hc as [|c cols Hc _ IH]; [by exists []|]. destruct IH as (row & Er & Hl & Hp).
      destruct (lookup_lt_is_Some_2 c k ltac:(lia)) as [v Hv]. exists (v :: row).
      assert (Hpush : push_row (take k <$> c :: cols) (v :: row) = Some (take (S k) <$> c :: cols)).
      { rewrite !fmap_cons. cbn [push_row]. rewrite Hp. osimpl. by rewrite (take_S_r _ _ _ Hv). }
      split_and!; [|simpl; lia|exact Hpush]. cbn [mapM]. rewrite Hv. osimpl. by rewrite Er. }
    exists (row :: rows). cbn [seq mapM]. rewrite Er. osimpl. rewrite E. osimpl.
    split_and!; [done|simpl; lia|by constructor|]. cbn [push_rows]. rewrite Hpr. osimpl. exact Hp.
Qed.

(** A table: the names and the values of its columns. *)
Abbreviation CsvTable := (list (bytes * list Slice)).

Definition with_names (tab : CsvTable) : Batch := (fun c => fst c :: snd c) <$> tab.

Record table_ok (tab : CsvTable) (n : nat) : Prop := {
  to_cols : 2 <= length tab;
  to_names : Forall (fun c => name_ok (fst c)) tab;
  to_len : Forall (fun c => length (snd c) = n) tab;
  to_rows : forall i row, i < n -> mapM (fun c => c !! i) (snd <$> tab) = Some row -> row_ok row
}.

Lemma mapM_ext_in {A B} (f g : A -> option B) l : (forall x, x ∈ l -> f x = g x) -> mapM f l = mapM g l.
Proof.
  induction l as [|x l IH]; intros Hfg; [done|]. cbn [mapM]. rewrite (Hfg x) by set_solver.
  destruct (g x); [|done]. osimpl. rewrite IH by set_solver. done.
Qed.

Lemma mapM_fmap' {A B C} (f : B -> option C) (g : A -> B) l : mapM f (g <$> l) = mapM (fun x => f (g x)) l.
Proof. induction l as [|x l IH]; [done|]. rewrite fmap_cons. cbn [mapM]. destruct (f (g x)); [|done]. osimpl. by rewrite IH. Qed.

Lemma dump_rows_all (cols : Batch) m : cols <> [] -> Forall (fun c => length c = m) cols -> dump_rows cols = m.
Proof.
  destruct cols as [|c cols]; [done|]. intros _ [Hc Hcs]%Forall_cons. cbn [dump_rows]. rewrite Hc.
  induction Hcs as [|c' cs Hc' _ IH]; [done|]. cbn [foldr]. rewrite IH, Hc'. lia.
Qed.

(** The text of a table: a line with the names, a line for every row. *)
Lemma dump_table tab n : table_ok tab n ->
  exists rows, dump_text (with_names tab)
      = Some (concat ((fun r => join [x7c] r ++ [x0a]) <$> ((fst <$> tab) :: rows))) /\
    Forall row_ok rows /\ push_rows (empty_batch (length tab)) rows = Some (snd <$> tab).
Proof.
  intros [Hl Hn Hlen Hr]. assert (Hne : snd <$> tab <> []) by (by destruct tab; simpl in *; [lia|]).
  destruct (columns_rows (snd <$> tab) 0 n Hne) as (rows & E & Hlr & Hcr & Hp).
  { by apply Forall_fmap. }
  exists rows. split_and!.
  - apply dump_text_rows. rewrite (dump_rows_all _ (S n)).
    + cbn [seq mapM].
      assert (E0 : mapM (fun c => c !! 0) (with_names tab) = Some (fst <$> tab)).
      { unfold with_names. rewrite mapM_fmap'. clear. induction tab as [|c tab IH]; [done|].
        cbn [mapM]. rewrite IH. done. }
      rewrite E0. osimpl. rewrite <- seq_shift.
      change (map S (seq 0 n)) with (S <$> seq 0 n). rewrite mapM_fmap'.
      rewrite (mapM_ext_in _ (fun i => mapM (fun c => c !! i) (snd <$> tab))); [by rewrite E|].
      intros i _. unfold with_names. rewrite !mapM_fmap'. done.
    + unfold with_names. by destruct tab; simpl in *; [lia|].
    + unfold with_names. apply Forall_fmap. eapply Forall_impl; [exact Hlen|]. intros c Hc. simpl in *. lia.
  - apply Forall_forall. intros row (j & Hj)%list_elem_of_lookup.
    apply mapM_Some_1 in E. destruct (Forall2_lookup_r _ _ _ _ _ E Hj) as (i & Hi & Hrow).
    apply lookup_seq in Hi as [-> Hi]. by apply (Hr j).
  - rewrite <- Hp. f_equal. clear. unfold empty_batch. induction tab as [|c tab IH]; [done|].
    rewrite !fmap_cons. cbn [length replicate]. by rewrite IH.
Qed.

(** The file is read back. *)
Lemma load_table `{BoostSpec} tab n rows :
  table_ok tab n -> Forall row_ok rows ->
  exists lines, load_header (concat ((fun r => join [x7c] r ++ [x0a]) <$> ((fst <$> tab) :: rows)))
      = Some (fst <$> tab, x7c, lines) /\ csv_rows x7c lines = rows.
Proof.
  intros [Hl Hn Hlen _] Hr. exists (join [x7c] <$> rows). split.
  - unfold load_header. rewrite fmap_cons. cbn [concat]. rewrite <- (assoc app). cbn [app].
    assert (Hnm : Forall name_ok (fst <$> tab)) by (by apply Forall_fmap).
    rewrite getline_app by (by apply join_no_break, names_row).
    rewrite Tokenize_names by done. rewrite Split_lines by done.
    destruct tab as [|[n1 v1] [|[n2 v2] tab]]; simpl in Hl; [lia|lia|]. cbn [fmap list_fmap fst head join]. osimpl.
    rewrite lookup_app_r, Nat.sub_diag by lia. done.
  - unfold csv_rows. induction Hr as [|r rows [Hc Hla Hne Hh Ht] _ IH]; [done|]. rewrite !fmap_cons.
    assert (Et : trim (join [x7c] r) = join [x7c] r).
    { rewrite <- (app_nil_r (join [x7c] r)) at 1. rewrite <- (app_nil_l (join [x7c] r ++ [])). by apply trim_spec. }
    rewrite Et, filter_cons_True by (by apply join_ne). rewrite fmap_cons, IH. f_equal.
    apply Split_join; [|done]. eapply Forall_impl; [exact Hc|]. by intros c [? _].
Qed.

(** ** Properties *)

Lemma push_rows_count rows cols n : 0 < n -> push_rows (empty_batch n) rows = Some cols -> b_rows cols = length rows.
Proof.
  intros Hn Hp. destruct (push_rows_column _ _ _ 0 [] Hp) as (vs & Hv & Hc); [by destruct n; [lia|]|].
  unfold b_rows. destruct cols as [|c cols]; [done|]. injection Hc as ->. by apply length_mapM in Hv.
Qed.

Lemma nsteps_work ok k s s' : nsteps (load_step ok) k s s' -> load_work s' + k <= load_work s.
Proof. induction 1 as [|k x y z Hxy _ IH]; [lia|]. apply load_step_work in Hxy. lia. Qed.

(** C39.  Loading a CSV file is complete: with at least one column, on lines
    whose rows have a field for every column, with fewer than 2^31 rows, and if
    no write fails, the thread that cuts and the thread that writes never wait
    for each other forever, whatever the interleaving and the batch size; they
    take at most one step more than four per batch; and when both are done, the
    batches that were written, put together, have in every column exactly the
    fields of the rows, in order. *)
Theorem csv_load_complete `{Boost} lines batch_size n delim :
  0 < n -> Forall (fun row => n <= length row) (csv_rows delim lines) ->
  (Z.of_nat (length (csv_rows delim lines)) < 2 ^ 31)%Z ->
  exists acts, ShardCSV lines batch_size n delim (empty_batch n) = Some acts /\
    (forall s, rtc (load_step (all_ok n)) (load_start acts) s -> finished s \/ exists s', load_step (all_ok n) s s') /\
    (forall k s, nsteps (load_step (all_ok n)) k (load_start acts) s -> k <= 1 + 4 * length acts) /\
    (forall s, rtc (load_step (all_ok n)) (load_start acts) s -> finished s -> stat_ s = 0%Z /\
       forall i, i < n -> gather n (flushed_ s) !! i = mapM (fun row => row !! i) (csv_rows delim lines)).
Proof.
  intros Hn Hrows Hfew.
  assert (exists cols, push_rows (empty_batch n) (csv_rows delim lines) = Some cols) as [cols Hp].
  { assert (Hl : length (empty_batch n) = n) by apply length_empty_batch.
    clear Hfew. revert Hl. generalize (empty_batch n). induction Hrows as [|row rows Hr _ IH]; intros b Hb; [by eexists|].
    cbn [push_rows]. destruct (push_row_total b row ltac:(lia)) as [b' E]. rewrite E. osimpl.
    apply IH. by rewrite (push_row_length _ _ _ E). }
  destruct (ShardCSV_script batch_size n delim lines _ _ Hn (length_empty_batch n) Hp) as (bs & r & E & Hs & Hg).
  { unfold few_rows. by rewrite (push_rows_count _ _ n Hn Hp). }
  exists (script n bs r). split_and!; [done|..].
  - intros s Hr. eapply load_progress; [exact Hs|]. by eapply load_reach_ok.
  - intros k s Hk%nsteps_work. unfold load_work, load_start in Hk. cbn in Hk. lia.
  - intros s Hr Hf. destruct (load_finished n bs r s Hs (load_reach_ok _ _ _ _ Hs Hr) Hf) as [Hst Hgs].
    split; [done|]. intros i Hi. rewrite Hgs, Hg.
    destruct (push_rows_column _ _ _ i [] Hp) as (vs & -> & Hc); [|done].
    unfold empty_batch. by apply lookup_replicate_2.
Qed.

Ltac shard_to s := eapply (rtc_l _ _ s); [apply by_sharder; reflexivity|].

(** The flushing thread takes the first batch; the other one fills the queue and
    is about to put the fourth; then the write fails. *)
Lemma failing_run b1 b2 b3 b4 acts stats z :
  ConcurrentFlush b1 stats = Some (- z)%Z -> (0 < z)%Z ->
  rtc (load_step (fun _ => True)) (load_start (CheckPut b1 :: CheckPut b2 :: CheckPut b3 :: CheckPut b4 :: acts))
    (mkLoad (SPut b4 acts) (mkQueue 2 [b2; b3]) FDone z []).
Proof.
  intros Hf Hz. unfold load_start.
  shard_to (mkLoad (SPut b1 (CheckPut b2 :: CheckPut b3 :: CheckPut b4 :: acts)) (mkQueue 2 []) FTake 0 []).
  shard_to (mkLoad (SRun (CheckPut b2 :: CheckPut b3 :: CheckPut b4 :: acts)) (mkQueue 2 [b1]) FTake 0 []).
  eapply (rtc_l _ _ (mkLoad (SRun (CheckPut b2 :: CheckPut b3 :: CheckPut b4 :: acts)) (mkQueue 2 []) (FFlush b1) 0 []));
    [apply (by_flusher (fun _ => True) _ _ [] I); reflexivity|].
  shard_to (mkLoad (SPut b2 (CheckPut b3 :: CheckPut b4 :: acts)) (mkQueue 2 []) (FFlush b1) 0 []).
  shard_to (mkLoad (SRun (CheckPut b3 :: CheckPut b4 :: acts)) (mkQueue 2 [b2]) (FFlush b1) 0 []).
  shard_to (mkLoad (SPut b3 (CheckPut b4 :: acts)) (mkQueue 2 [b2]) (FFlush b1) 0 []).
  shard_to (mkLoad (SRun (CheckPut b4 :: acts)) (mkQueue 2 [b2; b3]) (FFlush b1) 0 []).
  shard_to (mkLoad (SPut b4 acts) (mkQueue 2 [b2; b3]) (FFlush b1) 0 []).
  apply rtc_once, (by_flusher (fun _ => True) _ _ stats I). unfold flush_step. cbn [flusher_].
  rewrite Hf. osimpl. destruct (Z.eqb_spec (- z) 0); [lia|]. destruct (Z.ltb_spec (- z) 0); [|lia].
  by rewrite Z.opp_involutive.
Qed.

Lemma error_code_pos ec : ec <> kOK -> (0 < error_code ec)%Z.
Proof. by destruct ec. Qed.

(** A write that fails can block [LoadCSV] forever: the flushing thread ends
    without taking the batches that are in the queue, and the thread that cuts
    the file, which has already checked for errors, waits for room in the queue;
    no thread can take a step. *)
Theorem csv_load_hangs b1 b2 b3 b4 acts ec :
  b1 <> [] -> ec <> kOK ->
  exists s, rtc (load_step (fun _ => True)) (load_start (CheckPut b1 :: CheckPut b2 :: CheckPut b3 :: CheckPut b4 :: acts)) s /\
    flusher_ s = FDone /\ stat_ s = error_code ec /\ ~ finished s /\ forall s', ~ load_step (fun _ => True) s s'.
Proof.
  intros Hb Hec. eexists. split; [apply (failing_run b1 b2 b3 b4 acts [ec] (error_code ec))|].
  - unfold ConcurrentFlush. destruct b1; [done|]. cbn [head list_find]. osimpl. by rewrite decide_True.
  - by apply error_code_pos.
  - cbn [flusher_ stat_]. split_and!; [done|done|by intros [? _]|]. intros s' [E|stats _ E]; done.
Qed.

(** Tables survive the way through a file: the text that [DumpCSV] writes for
    a table with at least two columns is loaded with the names of the columns,
    and in every run in which no write fails the loaded columns are the dumped
    ones.  Names are free of separators, cells of the delimiter and of line
    breaks, no row ends with an empty cell or has spaces at its ends, and there are
    fewer than 2^31 rows. *)
Theorem csv_roundtrip `{BoostSpec} tab n batch_size :
  table_ok tab n -> (Z.of_nat n < 2 ^ 31)%Z ->
  exists text lines acts, dump_text (with_names tab) = Some text /\
    load_header text = Some (fst <$> tab, x7c, lines) /\
    ShardCSV lines batch_size (length tab) x7c (empty_batch (length tab)) = Some acts /\
    (forall s, rtc (load_step (all_ok (length tab))) (load_start acts) s -> finished s ->
       gather (length tab) (flushed_ s) = snd <$> tab).
Proof.
  intros Ht Hfew. destruct (dump_table tab n Ht) as (rows & Ed & Hr & Hp).
  destruct (load_table tab n rows Ht Hr) as (lines & El & Hrows).
  assert (Hn : 0 < length tab) by (pose proof (to_cols _ _ Ht); lia).
  rewrite <- Hrows in Hp.
  destruct (ShardCSV_script batch_size (length tab) x7c lines _ _ Hn (length_empty_batch _) Hp)
    as (bs & r & E & Hs & Hg).
  { pose proof (to_len _ _ Ht) as Hlen. unfold few_rows, b_rows. clear - Hlen Hfew. destruct Hlen as [|c t Hc _]; [done|]. cbn. by rewrite Hc. }
  eexists _, lines, _. split_and!; [exact Ed|exact El|exact E|].
  intros s Hreach Hf. rewrite <- Hg. by apply (load_finished _ _ _ _ Hs (load_reach_ok _ _ _ _ Hs Hreach) Hf).
Qed.

(** A table with one column is dumped to a file that cannot be loaded: the
    delimiter is looked up behind the end of the first line. *)
Theorem csv_one_column `{BoostSpec} name vals text :
  name_ok name -> dump_text [name :: vals] = Some text -> load_header text = None.
Proof.
  intros Hn Et. assert (exists rest, text = name ++ x0a :: rest) as [rest ->].
  { unfold dump_text in Et. apply bind_Some in Et as (rows & Er & [= <-]).
    cbn [dump_rows foldr length seq mapM] in Er. apply bind_Some in Er as (r0 & E0 & Er).
    apply bind_Some in Er as (rs & _ & [= <-]). injection E0 as <-.
    exists (concat rs). cbn [concat join]. by rewrite <- (assoc app). }
  unfold load_header. rewrite getline_app.
  - rewrite <- (app_nil_r name) at 1. pose proof (Tokenize_names [name] ltac:(by constructor)) as E. cbn [join] in E.
    rewrite app_nil_r, E. cbn [head]. osimpl. by rewrite lookup_ge_None_2 by lia.
  - pose proof (names_row [name] ltac:(by constructor)) as Hc. by apply Forall_cons in Hc as [[_ Hc] _].
Qed.

(** The status that [Sync] returns is that of the datum that was produced before
    it, in every interleaving of the two threads, and no thread waits forever, as
    long as the line is not ended before the last datum. *)
Theorem task_line_sync {T1 T2} (Consume : T1 -> T2) (Terminate : T1 -> bool) data s :
  ends_line Terminate data -> rtc (line_step Consume Terminate) (line_start data) s ->
  synced_ s `prefix_of` (Consume <$> data) /\
  (synced_ s = Consume <$> data \/ exists s', line_step Consume Terminate s s').
Proof.
  intros He Hr. assert (Hs : line_ok Consume Terminate data s).
  { revert s Hr. apply rtc_ind_r; [|intros x y _ Hxy Hx; by eapply line_step_ok].
    apply (ok_next Consume Terminate data [] data false None); [done|constructor]. }
  split.
  - destruct Hs as [done todo p st Ed _|done d todo st Ed _|done d todo st Ed _|done d todo st Ed _|done d todo Ed _];
      cbn; rewrite Ed, fmap_app; by eexists.
  - destruct (line_progress _ _ _ _ Hs) as [(q & r & p & st & ->)|Hp]; [by left|by right].
Qed.

(** ** Witnesses *)

Section Witnesses.
#[local] Existing Instances plain_boost plain_boost_spec.

Definition csv_lines : list bytes := [lit "a|1"; lit " "; lit "b|2"; lit "c|3"].

Lemma csv_load_complete_witness : exists acts,
  ShardCSV csv_lines 2 2 x7c (empty_batch 2) = Some acts /\ length acts = 3 /\
  forall s, rtc (load_step (all_ok 2)) (load_start acts) s -> finished s \/ exists s', load_step (all_ok 2) s s'.
Proof.
  destruct (csv_load_complete csv_lines 2 2 x7c) as (acts & E & Hp & _).
  - lia.
  - vm_compute. repeat constructor.
  - by vm_compute.
  - exists acts. split_and!; [exact E| |exact Hp]. vm_compute in E. injection E as <-. reflexivity.
Defined.

Lemma csv_load_hangs_witness : exists s,
  rtc (load_step (fun _ => True)) (load_start [CheckPut [[[x61]]]; CheckPut [[[x62]]]; CheckPut [[[x63]]]; CheckPut [[[x64]]]]) s /\
  ~ finished s /\ forall s', ~ load_step (fun _ => True) s s'.
Proof.
  destruct (csv_load_hangs [[[x61]]] [[[x62]]] [[[x63]]] [[[x64]]] [] kIOFault) as (s & Hr & _ & _ & Hf & Hs).
  - discriminate.
  - discriminate.
  - exists s. split_and!; [exact Hr|exact Hf|exact Hs].
Defined.

Definition csv_table : CsvTable := [(lit "id", [lit "1"; lit "2"]); (lit "name", [lit "x y"; lit "z"])].

Lemma csv_table_ok : table_ok csv_table 2.
Proof.
  split; [simpl; lia| |by repeat constructor|].
  - repeat constructor; try done; by apply (bool_decide_unpack _).
  - intros i row Hi Hrow. destruct i as [|[|i]]; [| |lia]; vm_compute in Hrow; injection Hrow as <-;
      (split; [|done|done|by intros c [= <-]|by intros c [= <-]]);
      repeat constructor; by apply (bool_decide_unpack _).
Qed.

Lemma csv_roundtrip_witness : exists text lines acts,
  dump_text (with_names csv_table) = Some text /\
  load_header text = Some ([lit "id"; lit "name"], x7c, lines) /\
  ShardCSV lines 1 2 x7c (empty_batch 2) = Some acts /\
  (forall s, rtc (load_step (all_ok 2)) (load_start acts) s -> finished s ->
     gather 2 (flushed_ s) = [[lit "1"; lit "2"]; [lit "x y"; lit "z"]]).
Proof. exact (csv_roundtrip csv_table 2 1 csv_table_ok eq_refl). Defined.

Lemma csv_one_column_witness : load_header (lit "id" ++ [x0a] ++ lit "1" ++ [x0a]) = None.
Proof.
  apply (csv_one_column (lit "id") [lit "1"]); [|reflexivity].
  split; [discriminate|]. repeat constructor; by apply (bool_decide_unpack _).
Defined.

End Witnesses.
