(* ===== verification/Relational.v ===== *)
(** * The relational layer: [include/spec/relational.h], [src/spec/relational.cc]

    [ColumnStore] keeps a table as a map from column names to versions of lists,
    the columns, which are objects with keys of their own.  Operations are
    functions on a database in the monad [Op]: the process may die, the operation
    may return an error code ([USTORE_GUARD]), and the database changes. *)

From S2P Require Import Prelude Types Slice HashVal Chunk RollingHash Node NodeSearch Chunker.
From S2P Require Import Store Cursor Builder Objects Comparator Iterator Cell Worker WorkerService ObjectDB.
From S2P Require Import Text Pipeline.

(** ** Operations on a database *)

Definition Op (D A : Type) : Type := D -> option ((ErrorCode + A) * D).

Definition op_ret {D A} (a : A) : Op D A := fun d => Some (inr a, d).
Definition op_fail {D A} (ec : ErrorCode) : Op D A := fun d => Some (inl ec, d).

Definition op_bind {D A B} (m : Op D A) (f : A -> Op D B) : Op D B := fun d =>
  r ← m d; match fst r with inl ec => Some (inl ec, snd r) | inr a => f a (snd r) end.

Declare Scope op_scope.
Delimit Scope op_scope with op.
Notation "'let!' x ':=' m 'in' f" := (op_bind m (fun x => f)) (at level 200, x name, m at level 100, f at level 200) : op_scope.
Notation "'do!' m 'in' f" := (op_bind m (fun _ => f)) (at level 200, m at level 100, f at level 200) : op_scope.
Open Scope op_scope.

(** A call of [ObjectDB] whose status is checked, with and without a value. *)
Definition call {D A} (f : D -> option (ErrorCode * A * D)) : Op D A := fun d =>
  '(ec, a, d') ← f d; Some (if decide (ec = kOK) then inr a else inl ec, d').
Definition call_ {D} (f : D -> option (ErrorCode * D)) : Op D unit := fun d =>
  '(ec, d') ← f d; Some (if decide (ec = kOK) then inr tt else inl ec, d').

(** Reading an object through the database. *)
Definition reading {D A} (f : D -> option A) : Op D A := fun d => a ← f d; Some (inr a, d).

(** [for (auto& x : l)]. *)
Fixpoint for_each {D A} (l : list A) (f : A -> Op D unit) : Op D unit :=
  match l with [] => op_ret tt | x :: l' => do! f x in for_each l' f end.

(** ** [class ColumnStore] *)

Section ColumnStore.
Context `{HashFunction} `{DB D}.
Variable fuel : nat.
Abbreviation OP := (Op D).
Implicit Types (table_name branch_name col_name : Slice) (tab col : VObject).

(** A row: the fields in the order in which the unordered map is traversed. *)
Abbreviation Row := (list (Slice * Slice)).

Definition GlobalKey table_name col_name : Slice := table_name ++ [x3a; x3a] ++ col_name.

(** *** Reading objects *)

(** All elements of an object, with what [read] takes from each. *)
Definition scan_object {A} (key : Slice) (read : CursorIterator -> option A) (o : VObject) : OP (list A) :=
  reading (fun d =>
    n ← obj_numElements (vo_root o);
    it ← Scan fuel (mkLoader d key) (vo_root o);
    it_scan (st_load (mkLoader d key)) read (Z.to_nat n) it).

(** The columns of a table with their versions. *)
Definition read_column (it : CursorIterator) : option (Slice * Slice) :=
  k ← it_key it; v ← it_value KMap it; Some (k, v).
Definition scan_table table_name tab : OP (list (Slice * Slice)) := scan_object table_name read_column tab.

(** The values of a column with their indices. *)
Definition read_value (it : CursorIterator) : option (Z * Slice) :=
  i ← it_index it; v ← it_value KList it; Some (i, v).
Definition scan_column col_key col : OP (list (Z * Slice)) := scan_object col_key read_value col.

Definition num_elements (o : VObject) : OP Z := reading (fun _ => obj_numElements (vo_root o)).

Definition ReadTable table_name branch_name : OP VObject := fun d =>
  '(ec, u, d1) ← odb_Get d table_name branch_name;
  match ec with
  | kOK => tab ← Map d1 (VMeta u); Some (inr tab, d1)
  | kKeyNotExists => Some (inl kTableNotExists, d1)
  | _ => Some (inl ec, d1)
  end.

Definition GetTable := ReadTable.

Definition ReadColumn col_key (col_ver : Hash) : OP VObject :=
  let! u := call (fun d => odb_Get_ver d col_key col_ver) in
  reading (fun d => List d (VMeta u)).

(** [tab.Get(Slice(col_name))]. *)
Definition table_Get table_name tab col_name : OP Slice :=
  reading (fun d => UMap_Get fuel (mkLoader d table_name) (vo_root tab) col_name).

Definition GetColumn table_name branch_name col_name : OP VObject :=
  let! tab := ReadTable table_name branch_name in
  let! v := table_Get table_name tab col_name in
  let col_ver := slice_ToHash v in
  if hash_empty col_ver then op_fail kColumnNotExists
  else ReadColumn (GlobalKey table_name col_name) col_ver.

(** *** Writing objects *)

(** [odb_.Put(key, obj, branch)], with the version that is returned. *)
Definition put key (o : VObject) branch_name : OP Hash := call (fun d => odb_Put d key o branch_name).

(** [tab.Set(Slice(col_name), Utils::ToSlice(col_ver))] and [odb_.Put(table, tab, branch)]. *)
Definition set_column table_name branch_name tab col_name (col_ver : Hash) : OP unit :=
  let! tab' := reading (fun _ => v ← hash_ToSlice col_ver; VMap_Set tab col_name v) in
  do! put table_name tab' branch_name in op_ret tt.

(** *** Tables *)

Definition ExistsTable table_name : OP bool :=
  let! l := call (fun d => odb_ListBranches d table_name) in op_ret (negb (length l =? 0)).

Definition ExistsTable_branch table_name branch_name : OP bool :=
  call (fun d => odb_ExistsBranch d table_name branch_name).

(** The status of [Exists] is not checked. *)
Definition CreateTable table_name branch_name : OP unit := fun d =>
  '(_, tab_exist, d1) ← odb_ExistsBranch d table_name branch_name;
  if tab_exist : bool then Some (inl kBranchExists, d1)
  else (do! put table_name (VMap_new [] []) branch_name in op_ret tt) d1.

Definition GetTableSchema table_name branch_name : OP Row :=
  let! tab := ReadTable table_name branch_name in
  let! cols := scan_table table_name tab in
  op_ret ((fun c => (fst c, [])) <$> cols).

(** The key is read before the end of the iterator is checked. *)
Definition GetTableSize table_name branch_name : OP Z :=
  let! tab := ReadTable table_name branch_name in
  let! c := reading (fun d =>
    it ← Scan fuel (mkLoader d table_name) (vo_root tab); read_column it) in
  let! col := ReadColumn (GlobalKey table_name (fst c)) (slice_ToHash (snd c)) in
  num_elements col.

Definition BranchTable table_name old_branch new_branch : OP unit :=
  let! tab := ReadTable table_name old_branch in
  let! cols := scan_table table_name tab in
  do! for_each cols (fun c =>
    call_ (fun d => odb_Branch d (GlobalKey table_name (fst c)) old_branch new_branch)) in
  call_ (fun d => odb_Branch d table_name old_branch new_branch).

Definition ListTableBranch table_name : OP (list Slice) := call (fun d => odb_ListBranches d table_name).

Definition MergeTable_remove table_name tgt_branch ref_branch remove_col_name : OP unit :=
  let! tab := ReadTable table_name tgt_branch in
  let! tab' := reading (fun _ => VMap_Remove tab remove_col_name) in
  do! call (fun d => odb_Merge d table_name tab' tgt_branch ref_branch) in op_ret tt.

Definition WriteColumn table_name branch_name col_name (col_vals : list Slice) : OP Hash :=
  put (GlobalKey table_name col_name) (VList_new col_vals) branch_name.

Definition MergeTable_add table_name tgt_branch ref_branch new_col_name (new_col_vals : list Slice) : OP unit :=
  let! tab := ReadTable table_name tgt_branch in
  let! new_col_ver := WriteColumn table_name tgt_branch new_col_name new_col_vals in
  let! tab' := reading (fun _ => v ← hash_ToSlice new_col_ver; VMap_Set tab new_col_name v) in
  do! call (fun d => odb_Merge d table_name tab' tgt_branch ref_branch) in op_ret tt.

Definition DeleteTable table_name branch_name : OP unit :=
  let! tab := ReadTable table_name branch_name in
  let! cols := scan_table table_name tab in
  do! for_each cols (fun c => call_ (fun d => odb_Delete d (GlobalKey table_name (fst c)) branch_name)) in
  call_ (fun d => odb_Delete d table_name branch_name).

(** *** Columns *)

Definition ExistsColumn table_name col_name : OP bool :=
  let! l := call (fun d => odb_ListBranches d (GlobalKey table_name col_name)) in op_ret (negb (length l =? 0)).

Definition ExistsColumn_branch table_name branch_name col_name : OP bool :=
  call (fun d => odb_ExistsBranch d (GlobalKey table_name col_name) branch_name).

Definition PutColumn table_name branch_name col_name (col_vals : list Slice) : OP unit :=
  let! tab := ReadTable table_name branch_name in
  let! col_ver := WriteColumn table_name branch_name col_name col_vals in
  set_column table_name branch_name tab col_name col_ver.

Definition ListColumnBranch table_name col_name : OP (list Slice) :=
  call (fun d => odb_ListBranches d (GlobalKey table_name col_name)).

Definition DeleteColumn table_name branch_name col_name : OP unit :=
  do! call_ (fun d => odb_Delete d (GlobalKey table_name col_name) branch_name) in
  let! tab := ReadTable table_name branch_name in
  let! tab' := reading (fun _ => VMap_Remove tab col_name) in
  do! put table_name tab' branch_name in op_ret tt.

(** *** Rows *)

Definition ExistsRow table_name branch_name ref_col_name (ref_val : Slice) : OP bool :=
  let! ref_col := GetColumn table_name branch_name ref_col_name in
  let! vals := scan_column (GlobalKey table_name ref_col_name) ref_col in
  op_ret (existsb (fun iv => slice_eq (snd iv) ref_val) vals).

(** The indices of the rows with the value. *)
Definition matching (ref_val : Slice) (vals : list (Z * Slice)) : list Z :=
  fst <$> filter (fun iv => slice_eq (snd iv) ref_val = true) vals.

Definition column_Get col_key col (idx : Z) : OP Slice :=
  reading (fun d => UList_Get fuel (mkLoader d col_key) (vo_root col) idx).

(** The field of a column, for every row that was found. *)
Fixpoint add_fields col_key col col_name (rows : list (Z * Row)) : OP (list (Z * Row)) :=
  match rows with
  | [] => op_ret []
  | (i, r) :: rows' =>
      let! v := column_Get col_key col i in
      let! rest := add_fields col_key col col_name rows' in
      op_ret ((i, r ++ [(col_name, v)]) :: rest)
  end.

Fixpoint add_columns table_name ref_col_name (cols : list (Slice * Slice)) (rows : list (Z * Row)) :
    OP (list (Z * Row)) :=
  match cols with
  | [] => op_ret rows
  | c :: cols' =>
      if decide (fst c = ref_col_name) then add_columns table_name ref_col_name cols' rows
      else
        let col_key := GlobalKey table_name (fst c) in
        let! col := ReadColumn col_key (slice_ToHash (snd c)) in
        let! rows' := add_fields col_key col (fst c) rows in
        add_columns table_name ref_col_name cols' rows'
  end.

Definition GetRow table_name branch_name ref_col_name (ref_val : Slice) : OP (list (Z * Row)) :=
  let! ref_col := GetColumn table_name branch_name ref_col_name in
  let! vals := scan_column (GlobalKey table_name ref_col_name) ref_col in
  let rows := (fun i => (i, [(ref_col_name, ref_val)])) <$> matching ref_val vals in
  if length rows =? 0 then op_fail kRowNotExists
  else
    let! tab := ReadTable table_name branch_name in
    let! cols := scan_table table_name tab in
    add_columns table_name ref_col_name cols rows.

(** [Validate]: the number of columns that the row does not cover; a field that is
    not a column is an error. *)
Fixpoint uncovered (col_names : list Slice) (row : Row) : option (list Slice) :=
  match row with
  | [] => Some col_names
  | (f, _) :: row' =>
      if decide (f ∈ col_names) then uncovered (filter (fun c => c <> f) col_names) row' else None
  end.

Definition Validate (row : Row) table_name branch_name : OP nat :=
  let! tab := ReadTable table_name branch_name in
  let! cols := scan_table table_name tab in
  match uncovered (fst <$> cols) row with
  | Some rest => op_ret (length rest)
  | None => op_fail kInvalidSchema
  end.

(** [ManipRow]: one field after the other. *)
Definition manip_field table_name branch_name (row_idx : Z) (f_manip_col : VObject -> Slice -> option VObject)
    (field : Slice * Slice) : OP unit :=
  let! tab := ReadTable table_name branch_name in
  let! v := table_Get table_name tab (fst field) in
  let col_key := GlobalKey table_name (fst field) in
  let! col := ReadColumn col_key (slice_ToHash v) in
  let! n := num_elements col in
  if (n <=? row_idx)%Z then op_fail kIndexOutOfRange
  else
    let! col' := reading (fun _ => f_manip_col col (snd field)) in
    let! col_ver_new := put col_key col' branch_name in
    set_column table_name branch_name tab (fst field) col_ver_new.

Definition ManipRow table_name branch_name (row_idx : Z) (row : Row)
    (f_manip_col : VObject -> Slice -> option VObject) : OP unit :=
  for_each row (manip_field table_name branch_name row_idx f_manip_col).

Definition UpdateRow table_name branch_name (row_idx : Z) (row : Row) : OP unit :=
  do! Validate row table_name branch_name in
  ManipRow table_name branch_name row_idx row (fun col field_value => VList_Splice col row_idx 1 [field_value]).

Definition DeleteRow table_name branch_name (row_idx : Z) : OP unit :=
  let! schema := GetTableSchema table_name branch_name in
  ManipRow table_name branch_name row_idx schema (fun col _ => VList_Splice col row_idx 1 []).

(** The rows of [ManipRows] are changed from the last one to the first. *)
Fixpoint manip_indices col_key branch_name (col_ver : Hash) (indices : list Z)
    (f_manip_col : VObject -> Z -> option VObject) : OP Hash :=
  match indices with
  | [] => op_ret col_ver
  | i :: indices' =>
      let! col := ReadColumn col_key col_ver in
      let! col' := reading (fun _ => f_manip_col col i) in
      let! col_ver' := put col_key col' branch_name in
      manip_indices col_key branch_name (hash_Clone col_ver') indices' f_manip_col
  end.

Definition ManipRows table_name branch_name ref_col_name (ref_val : Slice) (row : Row)
    (f_manip_col : VObject -> Z -> Slice -> option VObject) : OP nat :=
  if slice_empty ref_col_name then op_fail kInvalidParameter
  else if slice_empty ref_val then op_fail kInvalidParameter
  else
    let! ref_col := GetColumn table_name branch_name ref_col_name in
    let! vals := scan_column (GlobalKey table_name ref_col_name) ref_col in
    let indices := reverse (matching ref_val vals) in
    if length indices =? 0 then op_fail kRowNotExists
    else
      do! for_each row (fun field =>
        let! tab := ReadTable table_name branch_name in
        let! v := table_Get table_name tab (fst field) in
        let! col_ver := manip_indices (GlobalKey table_name (fst field)) branch_name (slice_ToHash v) indices
                          (fun col i => f_manip_col col i (snd field)) in
        set_column table_name branch_name tab (fst field) col_ver) in
      op_ret (length indices).

Definition UpdateRow_ref table_name branch_name ref_col_name (ref_val : Slice) (row : Row) : OP nat :=
  do! Validate row table_name branch_name in
  ManipRows table_name branch_name ref_col_name ref_val row
    (fun col row_idx field_value => VList_Splice col row_idx 1 [field_value]).

Definition DeleteRow_ref table_name branch_name ref_col_name (ref_val : Slice) : OP nat :=
  let! row := GetTableSchema table_name branch_name in
  ManipRows table_name branch_name ref_col_name ref_val row (fun col row_idx _ => VList_Splice col row_idx 1 []).

(** The first run of rows with the value: its start and its length. *)
Definition first_run (ref_val : Slice) (vals : list (Z * Slice)) : option (Z * nat) :=
  match list_find (fun iv => slice_eq (snd iv) ref_val = true) vals with
  | None => None
  | Some (j, iv) =>
      match list_find (fun iv => slice_eq (snd iv) ref_val = false) (drop j vals) with
      | Some (n, _) => Some (fst iv, n)
      | None => Some (fst iv, length vals - j)
      end
  end.

(** [UpdateConsecutiveRows]: the function of a field gets the number of its call. *)
Definition UpdateConsecutiveRows table_name branch_name ref_col_name (ref_val : Slice)
    (func_row : list (Slice * (nat -> Slice))) : OP nat :=
  if slice_empty ref_col_name then op_fail kInvalidParameter
  else if slice_empty ref_val then op_fail kInvalidParameter
  else
    let! ref_col := GetColumn table_name branch_name ref_col_name in
    let! vals := scan_column (GlobalKey table_name ref_col_name) ref_col in
    match first_run ref_val vals with
    | None => op_fail kRowNotExists
    | Some (start_idx, num_to_delete) =>
        do! for_each func_row (fun field =>
          let entries := snd field <$> seq 0 num_to_delete in
          let! tab := ReadTable table_name branch_name in
          let! v := table_Get table_name tab (fst field) in
          let col_key := GlobalKey table_name (fst field) in
          let! col := ReadColumn col_key (slice_ToHash v) in
          let! col' := reading (fun _ => VList_Splice col start_idx (Z.of_nat num_to_delete) entries) in
          let! col_ver_new := put col_key col' branch_name in
          set_column table_name branch_name tab (fst field) col_ver_new) in
        op_ret num_to_delete
    end.

(** [col.Append({Slice(field_value)})]. *)
Definition VList_Append col (entries : list Slice) : option VObject :=
  size ← obj_numElements (vo_root col); VList_Splice col size 0 entries.

(** The private [InsertRow]. *)
Definition insert_field table_name branch_name (field : Slice * Slice) : OP unit :=
  let! tab := ReadTable table_name branch_name in
  let! v := table_Get table_name tab (fst field) in
  let col_key := GlobalKey table_name (fst field) in
  let! col := ReadColumn col_key (slice_ToHash v) in
  let! col' := reading (fun _ => VList_Append col [snd field]) in
  let! col_ver_new := put col_key col' branch_name in
  set_column table_name branch_name tab (fst field) col_ver_new.

Definition insert_row table_name branch_name (row : Row) : OP unit :=
  for_each row (insert_field table_name branch_name).

Definition InsertRow table_name branch_name (row : Row) : OP unit :=
  let! n_fields_not_covered := Validate row table_name branch_name in
  if 0 <? n_fields_not_covered then op_fail kInvalidSchema else insert_row table_name branch_name row.

Definition InsertRowDistinct table_name branch_name dist_col_name (row : Row) : OP unit :=
  match list_find (fun f => fst f = dist_col_name) row with
  | None => op_fail kInvalidSchema
  | Some (_, dist_field) =>
      let! n_fields_not_covered := Validate row table_name branch_name in
      if 0 <? n_fields_not_covered then op_fail kInvalidSchema
      else
        let! exists_ := ExistsRow table_name branch_name dist_col_name (snd dist_field) in
        if exists_ : bool then op_fail kRowExists else insert_row table_name branch_name row
  end.

(** *** Storage *)

Definition GetStorageBytes : OP Z :=
  let! info := call odb_GetStorageInfo in op_ret (u64 (foldr (fun i n => ni_chunkBytes i + n) 0 info)%Z).
Definition GetStorageChunks : OP Z :=
  let! info := call odb_GetStorageInfo in op_ret (u64 (foldr (fun i n => ni_chunks i + n) 0 info)%Z).

(** *** Files *)

(** [DumpCSV] up to the writing of the text. *)
Fixpoint dump_columns table_name branch_name (cols : list (Slice * Slice)) : OP (list (list Slice)) :=
  match cols with
  | [] => op_ret []
  | c :: cols' =>
      let! col := GetColumn table_name branch_name (fst c) in
      let! vals := scan_column (GlobalKey table_name (fst c)) col in
      let! rest := dump_columns table_name branch_name cols' in
      op_ret ((fst c :: (snd <$> vals)) :: rest)
  end.

Definition DumpCSV table_name branch_name : OP (list (list Slice)) :=
  let! tab := ReadTable table_name branch_name in
  let! n := num_elements tab in
  if (n =? 0)%Z then op_fail kEmptyTable
  else let! cols := scan_table table_name tab in dump_columns table_name branch_name cols.

(** [LoadCSV]: empty columns for the names in the first line; *)
Definition init_columns table_name branch_name (col_names : list Slice) : OP unit :=
  for_each col_names (fun name => do! put (GlobalKey table_name name) (VList_new []) branch_name in op_ret tt).

(** what a task line does with its part of a batch ([FlushTaskLine::Consume]); *)
Definition flush_sector table_name branch_name col_name (sector : list Slice) : OP unit :=
  let col_key := GlobalKey table_name col_name in
  let! u := call (fun d => odb_Get d col_key branch_name) in
  let! col := reading (fun d => List d (VMeta u)) in
  let! col' := reading (fun _ => VList_Append col sector) in
  do! put col_key col' branch_name in op_ret tt.

(** and the entries of the table after the columns were written; the status of
    [Put] is overwritten in the next iteration. *)
Fixpoint register_columns table_name branch_name (col_names : list Slice) (ec : ErrorCode) (d : D) :
  option (ErrorCode * D) :=
  match col_names with
  | [] => Some (ec, d)
  | name :: names =>
      r ← ReadTable table_name branch_name d;
      match fst r with
      | inl ec' => Some (ec', snd r)
      | inr tab =>
          '(ec1, col_ver, d1) ← odb_GetBranchHead (snd r) (GlobalKey table_name name) branch_name;
          if decide (ec1 = kOK) then
            v ← hash_ToSlice col_ver;
            tab' ← VMap_Set tab name v;
            '(ec2, _, d2) ← odb_Put d1 table_name tab' branch_name;
            register_columns table_name branch_name names ec2 d2
          else Some (ec1, d1)
      end
  end.

(** The columns of one batch, each by its task line: the status of all of them. *)
Fixpoint flush_columns table_name branch_name (col_names : list Slice) (cols : Batch) (d : D) :
  option (list ErrorCode * D) :=
  match col_names, cols with
  | name :: names, sector :: cols' =>
      r ← flush_sector table_name branch_name name sector d;
      rs ← flush_columns table_name branch_name names cols' (snd r);
      Some ((match fst r with inl ec => ec | inr _ => kOK end) :: fst rs, snd rs)
  | _, _ => Some ([], d)
  end.

(** [FlushCSV] on the batches in the order of the queue. *)
Fixpoint flush_batches table_name branch_name (col_names : list Slice) (bs : list Batch) (d : D) :
  option (ErrorCode * D) :=
  match bs with
  | [] => None
  | b :: bs' =>
      '(stats, d1) ← flush_columns table_name branch_name col_names b d;
      num_loaded ← ConcurrentFlush b stats;
      if (num_loaded =? 0)%Z then Some (kOK, d1)
      else if (num_loaded <? 0)%Z then
        Some (match list_find (fun ec => ec <> kOK) stats with Some (_, ec) => ec | None => kOK end, d1)
      else flush_batches table_name branch_name col_names bs' d1
  end.

(** [LoadCSV] when the two threads finish; the columns of a batch are written one
    after the other. *)
Definition LoadCSV `{Boost} (text : bytes) table_name branch_name (batch_size : nat) : OP unit :=
  let! tab := ReadTable table_name branch_name in
  let! n := num_elements tab in
  if (0 <? n)%Z then op_fail kNotEmptyTable
  else
    let! h := reading (fun _ => load_header text) in
    let '(col_names, delim, lines) := h in
    do! init_columns table_name branch_name col_names in
    let! acts := reading (fun _ => ShardCSV lines batch_size (length col_names) delim (empty_batch (length col_names))) in
    do! call_ (flush_batches table_name branch_name col_names (act_batch <$> acts)) in
    call_ (register_columns table_name branch_name col_names kOK).

End ColumnStore.
