(* ===== verification/BlobStore.v ===== *)
(** * The dataset layer: [include/spec/blob_store.h], [src/spec/blob_store.cc]

    [BlobStore] keeps a dataset as a map from entry names to versions of blobs,
    beside it a table of attributes ([ObjectMeta]), and the set of all datasets.
    Directories and files are given by their contents; what an operation writes to
    a stream is part of its result. *)

From S2P Require Import Prelude Types Slice HashVal Chunk RollingHash Node NodeSearch Chunker.
From S2P Require Import Store Cursor Builder Objects Comparator Iterator Cell Worker WorkerService ObjectDB.
From S2P Require Import Text Pipeline Relational.
From Stdlib Require String.
Import String.StringSyntax.

(** ** Names of entries *)

Section Names.
Context `{Boost}.

Definition kEntryNameSepForDisplay : bytes := lit "^".
Definition kEntryNameSepForStore : bytes := lit "^".

Definition DISP_SEP_NOT_EQUAL_STORE_SEP : bool := negb (bool_decide (kEntryNameSepForStore = kEntryNameSepForDisplay)).
Definition DISP_SEP_NOT_CONTAIN_STORE_SEP : bool := negb (contains kEntryNameSepForDisplay kEntryNameSepForStore).

Definition EntryNameForDisplay (entry_name_store : bytes) : bytes :=
  if DISP_SEP_NOT_EQUAL_STORE_SEP then replace_all entry_name_store kEntryNameSepForStore kEntryNameSepForDisplay
  else entry_name_store.

Definition EntryNameForStore_attrs (attrs : list bytes) : bytes := ToStringSeq attrs kEntryNameSepForStore.

Definition EntryNameForStore (entry_name : bytes) : bytes :=
  if DISP_SEP_NOT_EQUAL_STORE_SEP then replace_all entry_name kEntryNameSepForDisplay kEntryNameSepForStore
  else entry_name.

Definition ValidateEntryName (entry_name : bytes) : ErrorCode :=
  if negb DISP_SEP_NOT_EQUAL_STORE_SEP then kOK
  else if negb DISP_SEP_NOT_CONTAIN_STORE_SEP then
    if contains (replace_all entry_name kEntryNameSepForDisplay []) kEntryNameSepForStore
    then kIllegalDataEntryNameAttr else kOK
  else if contains entry_name kEntryNameSepForStore then kIllegalDataEntryNameAttr else kOK.

Definition ValidateEntryNameAttr (attr : bytes) : ErrorCode :=
  if contains attr kEntryNameSepForStore || contains attr kEntryNameSepForDisplay
  then kIllegalDataEntryNameAttr else kOK.

Fixpoint ValidateEntryName_attrs (entry_name : list bytes) : ErrorCode :=
  match entry_name with
  | [] => kOK
  | attr :: attrs => match ValidateEntryNameAttr attr with kOK => ValidateEntryName_attrs attrs | ec => ec end
  end.

Definition RegularizeSchema (origin : bytes) : bytes := RegularizeCSVLine origin.

(** A name as it is given, or as the list of its attributes. *)
Definition EntryName : Type := bytes + list bytes.

Definition name_check (n : EntryName) : ErrorCode :=
  match n with inl s => ValidateEntryName s | inr attrs => ValidateEntryName_attrs attrs end.
Definition name_store (n : EntryName) : bytes :=
  match n with inl s => EntryNameForStore s | inr attrs => EntryNameForStore_attrs attrs end.

End Names.

Definition guard {D} (ec : ErrorCode) : Op D unit := if decide (ec = kOK) then op_ret tt else op_fail ec.

(** ** [class BlobStore] *)

Section BlobStore.
Context `{HashFunction} `{DB D} `{Boost}.
Variable fuel : nat.
Abbreviation OP := (Op D).
Implicit Types (ds_name branch entry_name : Slice) (ds : VObject).

Definition DATASET_LIST_NAME : Slice := lit "__DATASET_LIST__".
Definition DATASET_LIST_BRANCH : Slice := lit "master".

(** *** The set of datasets *)

(** A list that cannot be read is written again and then read; [depth] bounds the
    recursion. *)
Fixpoint get_dataset_list (depth : nat) : OP VObject := fun d =>
  '(ec, u, d1) ← odb_Get d DATASET_LIST_NAME DATASET_LIST_BRANCH;
  if decide (ec = kOK) then s ← Set_ d1 (VMeta u); Some (inr s, d1)
  else
    match depth with
    | O => None
    | S depth' => (do! put DATASET_LIST_NAME (VSet_new []) DATASET_LIST_BRANCH in get_dataset_list depth') d1
    end.

Definition GetDatasetList : OP VObject := get_dataset_list fuel.

Definition ListDataset : OP (list Slice) :=
  let! ds_list := GetDatasetList in scan_object fuel DATASET_LIST_NAME it_key ds_list.

Definition UpdateDatasetList ds_name (to_delete : bool) : OP unit :=
  let! ds_list := GetDatasetList in
  let! ds_list' := reading (fun _ => if to_delete then VSet_Remove ds_list ds_name else VSet_Set ds_list ds_name) in
  do! put DATASET_LIST_NAME ds_list' DATASET_LIST_BRANCH in op_ret tt.

(** *** Datasets *)

(** The value is returned with the status. *)
Definition ExistsDataset ds_name : OP bool :=
  let! l := call (fun d => odb_ListBranches d ds_name) in op_ret (negb (length l =? 0)).
Definition ExistsDataset_branch ds_name branch : OP bool := call (fun d => odb_ExistsBranch d ds_name branch).

Definition CreateDataset ds_name branch : OP unit :=
  let! ds_exist := call (fun d => odb_ExistsBranch d ds_name branch) in
  if ds_exist : bool then op_fail kBranchExists
  else
    do! put ds_name (VMap_new [] []) branch in
    do! call_ (fun d => CreateMetaTable d ds_name branch) in
    do! call_ (fun d => SetMeta d ds_name branch (lit "TYPE") (lit "Dataset")) in
    UpdateDatasetList ds_name false.

Definition ReadDataset ds_name branch : OP VObject := fun d =>
  '(ec, u, d1) ← odb_Get d ds_name branch;
  match ec with
  | kOK => ds ← Map d1 (VMeta u); Some (inr ds, d1)
  | kKeyNotExists => Some (inl kDatasetNotExists, d1)
  | _ => Some (inl ec, d1)
  end.

Definition GetDataset := ReadDataset.

(** [ds.Get(Slice(entry_name))]. *)
Definition ds_Get ds_name ds entry_name : OP Slice := table_Get fuel ds_name ds entry_name.

Definition BranchDataset ds_name old_branch new_branch : OP unit :=
  do! call_ (fun d => odb_Branch d ds_name old_branch new_branch) in
  call_ (fun d => BranchMetaTable d ds_name old_branch new_branch).

Definition ListDatasetBranch ds_name : OP (list Slice) := call (fun d => odb_ListBranches d ds_name).

Definition DeleteDataset ds_name branch : OP unit :=
  do! call_ (fun d => odb_Delete d ds_name branch) in
  do! call_ (fun d => DeleteMetaTable d ds_name branch) in
  let! exists_ := ExistsDataset ds_name in
  if exists_ : bool then op_ret tt else UpdateDatasetList ds_name true.

(** *** Entries *)

Definition ReadDataEntryHash ds_name entry_name (entry_ver : Hash) : OP Hash :=
  let! u := call (fun d => odb_Get_ver d (GlobalKey ds_name entry_name) entry_ver) in
  reading (fun _ => h ← ucell_dataHash u; Some (hash_Clone h)).

Definition ReadDataEntry ds_name entry_name (entry_ver : Hash) : OP VObject :=
  let! u := call (fun d => odb_Get_ver d (GlobalKey ds_name entry_name) entry_ver) in
  reading (fun d => Blob d (VMeta u)).

Definition WriteDataEntry ds_name entry_name (entry_val : Slice) (prev_entry_ver : Hash) : OP Hash :=
  call (fun d => odb_Put_ver d (GlobalKey ds_name entry_name) (VBlob_new entry_val) prev_entry_ver).

(** [os << entry]: the chunks of the blob. *)
Fixpoint chunk_loop (get : Hash -> option Chunk) (steps : nat) (c : NodeCursor) : option bytes :=
  e ← ci_end c;
  if e : bool then Some []
  else
    match steps with
    | O => None
    | S steps' => v ← ci_value c; a ← ci_next get c; rest ← chunk_loop get steps' (snd a); Some (v ++ rest)
    end.

Definition print_blob ds_name entry_name (entry : VObject) : OP bytes :=
  reading (fun d =>
    let loader := mkLoader d (GlobalKey ds_name entry_name) in
    n ← obj_numElements (vo_root entry);
    c ← UBlob_ScanChunk fuel loader (vo_root entry);
    chunk_loop (st_load loader) (Z.to_nat n) c).

Definition ImplExistsDataEntry_branch ds_name branch entry_name : OP bool :=
  let! ds := GetDataset ds_name branch in
  let! v := ds_Get ds_name ds entry_name in
  op_ret (negb (slice_empty v)).

Fixpoint any_branch ds_name entry_name (branches : list Slice) : OP bool :=
  match branches with
  | [] => op_ret false
  | b :: bs =>
      let! e := ImplExistsDataEntry_branch ds_name b entry_name in
      if e : bool then op_ret true else any_branch ds_name entry_name bs
  end.

Definition ImplExistsDataEntry ds_name entry_name : OP bool :=
  let! ds_branches := ListDatasetBranch ds_name in any_branch ds_name entry_name ds_branches.

Fixpoint branches_with ds_name entry_name (branches : list Slice) : OP (list Slice) :=
  match branches with
  | [] => op_ret []
  | b :: bs =>
      let! e := ImplExistsDataEntry_branch ds_name b entry_name in
      let! rest := branches_with ds_name entry_name bs in
      op_ret (if e : bool then b :: rest else rest)
  end.

Definition ImplListDataEntryBranch ds_name entry_name : OP (list Slice) :=
  let! ds_branches := ListDatasetBranch ds_name in branches_with ds_name entry_name ds_branches.

Definition ImplGetDataEntry ds_name branch entry_name : OP VObject :=
  let! ds := GetDataset ds_name branch in
  let! v := ds_Get ds_name ds entry_name in
  let entry_ver := slice_ToHash v in
  if hash_empty entry_ver then op_fail kDataEntryNotExists
  else ReadDataEntry ds_name entry_name entry_ver.

(** The version that a new version of an entry builds on. *)
Definition prev_version (v : Slice) : Hash :=
  let prev_entry_ver := slice_ToHash v in if hash_empty prev_entry_ver then hash_kNull else prev_entry_ver.

(** [set_column] sets the version in the map and puts the map. *)
Definition ImplPutDataEntry ds_name branch entry_name (entry_val : Slice) : OP Hash :=
  let! ds := ReadDataset ds_name branch in
  let! v := ds_Get ds_name ds entry_name in
  let! entry_ver := WriteDataEntry ds_name entry_name entry_val (prev_version v) in
  do! set_column ds_name branch ds entry_name entry_ver in op_ret entry_ver.

Definition ImplDeleteDataEntry ds_name branch entry_name : OP unit :=
  let! ds := ReadDataset ds_name branch in
  let! ds' := reading (fun _ => VMap_Remove ds entry_name) in
  do! put ds_name ds' branch in op_ret tt.

(** The public operations check the name and bring it into its stored form. *)
Definition with_name {A} (n : EntryName) (f : Slice -> OP A) : OP A := do! guard (name_check n) in f (name_store n).

Definition ExistsDataEntry_branch ds_name branch n : OP bool := with_name n (ImplExistsDataEntry_branch ds_name branch).
Definition ExistsDataEntry ds_name n : OP bool := with_name n (ImplExistsDataEntry ds_name).
Definition GetDataEntry ds_name branch n : OP VObject := with_name n (ImplGetDataEntry ds_name branch).
Definition PutDataEntry ds_name branch n (entry_val : Slice) : OP Hash :=
  with_name n (fun entry_name => ImplPutDataEntry ds_name branch entry_name entry_val).
Definition DeleteDataEntry ds_name branch n : OP unit := with_name n (ImplDeleteDataEntry ds_name branch).
Definition ListDataEntryBranch ds_name n : OP (list Slice) := with_name n (ImplListDataEntryBranch ds_name).

(** *** Attributes *)

Definition GetDatasetSchema ds_name branch : OP Slice := call (fun d => GetMeta fuel d ds_name branch (lit "SCHEMA")).
Definition GetDataEntryNameIndices ds_name branch : OP Slice :=
  call (fun d => GetMeta fuel d ds_name branch (lit "ENTRY NAME INDICES")).

(** *** Batches of entries *)

(** [std::unordered_map::emplace]: an entry that is there stays. *)
Definition emplace (entry_name : Slice) (entry_ver : Hash) (updates : list (Slice * Hash)) : list (Slice * Hash) :=
  if decide (entry_name ∈ fst <$> updates) then updates else updates ++ [(entry_name, entry_ver)].

(** [ds.Insert(updates)]; the order of the pairs does not matter, since they are
    sorted when they are written. *)
Definition ds_Insert ds (updates : list (Slice * Hash)) : option VObject :=
  vals ← mapM hash_ToSlice (snd <$> updates); VMap_SetMany ds (fst <$> updates) vals.

(** The files of a directory: the relative path and, if the file can be opened,
    its contents.  The result counts entries and bytes. *)
Fixpoint put_files ds_name ds (files : list (Slice * option bytes)) (updates : list (Slice * Hash)) (n_bytes : nat) :
    OP (list (Slice * Hash) * nat) :=
  match files with
  | [] => op_ret (updates, n_bytes)
  | (entry_name, None) :: _ => op_fail kFailedOpenFile
  | (entry_name, Some contents) :: files' =>
      let! entry_val := reading (fun _ => GetFileContents contents) in
      let! v := ds_Get ds_name ds entry_name in
      let! entry_ver := WriteDataEntry ds_name entry_name entry_val (prev_version v) in
      put_files ds_name ds files' (emplace entry_name entry_ver updates) (n_bytes + len entry_val)
  end.

Definition PutDataEntryBatch ds_name branch (files : list (Slice * option bytes)) : OP (nat * nat) :=
  let! ds := ReadDataset ds_name branch in
  let! r := put_files ds_name ds files [] 0 in
  let! ds' := reading (fun _ => ds_Insert ds (fst r)) in
  do! put ds_name ds' branch in
  op_ret (length (fst r), snd r).

(** [PutDataEntryByCSV]: what the loop over the lines keeps. *)
Record CsvState := mkCsv {
  line_cnt : nat;
  accumulated_size : Z;
  csv_updates : list (Slice * Hash);
  csv_entries : nat;
  csv_bytes : nat
}.

(** [sizeof(Hash)]: two pointers. *)
Definition sizeof_Hash : Z := 16.

(** Writing the updates into the dataset. *)
Definition flush_updates ds_name branch (updates : list (Slice * Hash)) : OP unit :=
  let! ds_update := ReadDataset ds_name branch in
  let! ds' := reading (fun _ => ds_Insert ds_update updates) in
  do! put ds_name ds' branch in op_ret tt.

Definition put_schema ds_name branch (overwrite_schema : bool) (line : bytes) (s : CsvState) : OP CsvState :=
  let! schema := GetDatasetSchema ds_name branch in
  let reg_line := RegularizeSchema line in
  if slice_empty schema || overwrite_schema then
    do! call_ (fun d => SetMeta d ds_name branch (lit "SCHEMA") reg_line) in
    op_ret (mkCsv (line_cnt s) (accumulated_size s) (csv_updates s) (csv_entries s) (csv_bytes s + len reg_line))
  else if decide (reg_line = schema) then op_ret s else op_fail kDatasetSchemaMismatch.

Definition put_line ds_name branch ds (idxs_entry_name : list nat) (batch_size : Z) (with_schema overwrite_schema : bool)
    (line : bytes) (s0 : CsvState) : OP CsvState :=
  let s := mkCsv (S (line_cnt s0)) (accumulated_size s0) (csv_updates s0) (csv_entries s0) (csv_bytes s0) in
  if (line_cnt s =? 1) && with_schema then put_schema ds_name branch overwrite_schema line s
  else
    let '(ec, entry_name) := ExtractElementsWithCheck line idxs_entry_name ValidateEntryNameAttr x2c in
    do! guard ec in
    let entry_name_store := EntryNameForStore_attrs entry_name in
    let! v := ds_Get ds_name ds entry_name_store in
    let! entry_ver := WriteDataEntry ds_name entry_name_store line (prev_version v) in
    let size := u64 (accumulated_size s + (Z.of_nat (len entry_name_store) + sizeof_Hash)) in
    let updates := emplace entry_name_store entry_ver (csv_updates s) in
    let n_bytes := csv_bytes s + (len entry_name_store + len line) in
    if (batch_size <=? size)%Z then
      do! flush_updates ds_name branch updates in
      op_ret (mkCsv (line_cnt s) 0 [] (S (csv_entries s)) n_bytes)
    else op_ret (mkCsv (line_cnt s) size updates (S (csv_entries s)) n_bytes).

Fixpoint put_lines ds_name branch ds (idxs_entry_name : list nat) (batch_size : Z) (with_schema overwrite_schema : bool)
    (lines : list bytes) (s : CsvState) : OP CsvState :=
  match lines with
  | [] => op_ret s
  | line :: lines' =>
      let! s' := put_line ds_name branch ds idxs_entry_name batch_size with_schema overwrite_schema line s in
      put_lines ds_name branch ds idxs_entry_name batch_size with_schema overwrite_schema lines' s'
  end.

(** The indices of the attributes that name an entry: those that were given, or
    those that are recorded. *)
Definition entry_name_indices ds_name branch (input : list nat) : OP (list nat * nat) :=
  let! meta := GetDataEntryNameIndices ds_name branch in
  if slice_empty meta then
    if length input =? 0 then op_fail kDataEntryNameIndicesUnknown
    else
      let str := ToStringSeq (nat_ToString <$> input) (lit ",") in
      do! call_ (fun d => SetMeta d ds_name branch (lit "ENTRY NAME INDICES") str) in
      op_ret (input, len str)
  else
    let! r := reading (fun _ => ToIndices meta) in
    do! guard (fst r) in
    if negb (length input =? 0) && negb (bool_decide (snd r = input)) then op_fail kDataEntryNameIndicesMismatch
    else op_ret (snd r, 0).

(** [batch_size] is given in KB. *)
Definition PutDataEntryByCSV ds_name branch (text : bytes) (input_idxs_entry_name : list nat) (batch_size : Z)
    (with_schema overwrite_schema : bool) : OP (nat * nat) :=
  let! idxs := entry_name_indices ds_name branch input_idxs_entry_name in
  let! ds := ReadDataset ds_name branch in
  let! s := put_lines ds_name branch ds (fst idxs) (u64 (batch_size * 1024)) with_schema overwrite_schema
              (Split text x0a) (mkCsv 0 0 [] 0 (snd idxs)) in
  do! (if (0 <? accumulated_size s)%Z then flush_updates ds_name branch (csv_updates s) else op_ret tt) in
  op_ret (csv_entries s, csv_bytes s).

(** *** Reading many entries *)

Definition scan_dataset ds_name ds : OP (list (Slice * Slice)) := scan_object fuel ds_name read_column ds.

(** What is printed of an entry, and [entry.size()]. *)
Record Printed := mkPrinted { pr_name : Slice; pr_text : bytes; pr_size : Z }.

Definition print_entry ds_name entry_name (entry_ver : Hash) : OP Printed :=
  let! entry := ReadDataEntry ds_name entry_name entry_ver in
  let! text := print_blob ds_name entry_name entry in
  let! size := num_elements entry in
  op_ret (mkPrinted entry_name text size).

Fixpoint read_entries ds_name (entries : list (Slice * Slice)) : OP (list Printed) :=
  match entries with
  | [] => op_ret []
  | (entry_name, v) :: entries' =>
      let! entry := print_entry ds_name entry_name (slice_ToHash v) in
      let! rest := read_entries ds_name entries' in
      op_ret (entry :: rest)
  end.

Definition endl (s : bytes) : bytes := s ++ [x0a].

(** The sum of the sizes of the entries, and of the bytes that are printed. *)
Definition total_size (entries : list Printed) : Z := foldr (fun e n => u64 (pr_size e + n)) 0%Z entries.
Definition total_printed (entries : list Printed) : nat := foldr (fun e n => len (pr_text e) + n) 0 entries.

(** The text of the file, the number of entries and of bytes.  [mkdir] is the
    status of the creation of the directory. *)
Definition ExportDatasetBinary ds_name branch (mkdir : ErrorCode) : OP (bytes * Z * Z) :=
  do! guard mkdir in
  let! schema := GetDatasetSchema ds_name branch in
  let! ds := GetDataset ds_name branch in
  let! cols := scan_dataset ds_name ds in
  let! entries := read_entries ds_name cols in
  let! n_entries := num_elements ds in
  let head := if slice_empty schema then [] else endl schema in
  op_ret (head ++ concat (endl ∘ pr_text <$> entries), n_entries,
          u64 (Z.of_nat (len head) + total_size entries + n_entries)).

(** The files, their number and the number of bytes. *)
Definition GetDataEntryBatch ds_name branch : OP (list (Slice * bytes) * Z * nat) :=
  let! ds := GetDataset ds_name branch in
  let! cols := scan_dataset ds_name ds in
  let! entries := read_entries ds_name cols in
  let! n_entries := num_elements ds in
  op_ret ((fun e => (pr_name e, pr_text e)) <$> entries, n_entries, total_printed entries).

Fixpoint retrieve ds_name ds (names : list bytes) : OP (list Printed) :=
  match names with
  | [] => op_ret []
  | entry_name :: names' =>
      let! v := ds_Get ds_name ds entry_name in
      let entry_ver := slice_ToHash v in
      if hash_empty entry_ver then op_fail kDataEntryNotExists
      else
        let! entry := print_entry ds_name entry_name entry_ver in
        let! rest := retrieve ds_name ds names' in
        op_ret (entry :: rest)
  end.

Definition SelectDataEntry ds_name branch (names : bytes) : OP (bytes * nat * Z) :=
  let! schema := GetDatasetSchema ds_name branch in
  if slice_empty schema then op_fail kDatasetSchemaNotFound
  else
    let! ds := GetDataset ds_name branch in
    let! entries := retrieve ds_name ds (Split names x0a) in
    op_ret (endl schema ++ concat (endl ∘ pr_text <$> entries), length entries,
            u64 (Z.of_nat (len schema) + 1 + total_size entries + Z.of_nat (length entries))).

(** *** Differences *)

(** The loop over the differing keys: an entry that only one side has, or whose
    two versions have different contents. *)
Fixpoint diff_loop lhs_ds_name rhs_ds_name (steps : nat) (it : DuallyDiffIterator) : OP (list Slice) :=
  if dual_end it then op_ret []
  else
    match steps with
    | O => fun _ => None
    | S steps' =>
        let! kv := reading (fun _ => k ← dual_key true it; l ← lhs_value KMap it; r ← rhs_value KMap it; Some (k, l, r)) in
        let '(en_name, lhs_v, rhs_v) := kv in
        let! differs :=
          (if slice_empty lhs_v || slice_empty rhs_v then op_ret true
           else
             let! lhs_en_hash := ReadDataEntryHash lhs_ds_name en_name (slice_ToHash lhs_v) in
             let! rhs_en_hash := ReadDataEntryHash rhs_ds_name en_name (slice_ToHash rhs_v) in
             op_ret (negb (hash_eq lhs_en_hash rhs_en_hash))) in
        let! a := reading (fun d => dual_next (st_load (mkLoader d lhs_ds_name)) true it) in
        let! rest := diff_loop lhs_ds_name rhs_ds_name steps' (snd a) in
        op_ret (if differs : bool then en_name :: rest else rest)
    end.

(** Both maps are read through the loader of the left one. *)
Definition DiffDataset lhs_ds_name lhs_branch rhs_ds_name rhs_branch : OP (list Slice) :=
  let! lhs_ds := GetDataset lhs_ds_name lhs_branch in
  let! rhs_ds := GetDataset rhs_ds_name rhs_branch in
  let! n := num_elements lhs_ds in
  let! m := num_elements rhs_ds in
  let! it := reading (fun d => UMap_DuallyDiff fuel (mkLoader d lhs_ds_name) (vo_root lhs_ds) (vo_root rhs_ds)) in
  diff_loop lhs_ds_name rhs_ds_name (Z.to_nat n + Z.to_nat m) it.

End BlobStore.
