(* ===== verification/Dict.v ===== *)
(** * Dictionaries of versioned objects

    The relational layer and the dataset layer keep the same structure on an
    [ObjectDB]: a map, at the head of a branch, from names to versions of objects
    that have keys of their own.  [dict_rep] relates such a structure on a worker
    to a finite map from names to the contents of the objects; reading an entry
    reads the finite map, and recording a version inserts into it. *)

From S2P Require Import Prelude Types Slice HashVal Chunk RollingHash Node NodeSearch Chunker.
From S2P Require Import Canonical Leaf Store Cursor Builder Advanced Objects Build Tree TreeProps.
From S2P Require Import CursorProps KeySearch ReadProps CreateProps ObjectProps.
From S2P Require Import Recut LevelCursor EditChain EditCommit EditCursor Splice SpliceProps EditProps.
From S2P Require Import Comparator Iterator IteratorProps IteratorClaims.
From S2P Require Import Cell HeadVersion Worker Grow WorkerProps.
From S2P Require Import Messages WorkerService WorkerClient RpcProps RpcClaims ObjectDB ObjectDBProps.
From S2P Require Import Text Pipeline Relational.

(** ** The limits of a worker *)

(** The parameters of the chunkers and the fuel. *)
Class Limits := { lim_params : NodeKind -> ChunkerParams; lim_fuel : nat }.

(** Writes succeed. *)
Class PutsOk (St : Type) `{ChunkStoreSpec St} : Prop := puts_ok : puts_succeed (St := St).

(** ** Running operations *)

Lemma bind_ok {D A B} (m : Op D A) (f : A -> Op D B) d a d' :
  m d = Some (inr a, d') -> op_bind m f d = f a d'.
Proof. intros E. unfold op_bind. by rewrite E. Qed.

Lemma bind_fail {D A B} (m : Op D A) (f : A -> Op D B) d ec d' :
  m d = Some (inl ec, d') -> op_bind m f d = Some (inl ec, d').
Proof. intros E. unfold op_bind. by rewrite E. Qed.

Lemma call_ok {D A} (f : D -> option (ErrorCode * A * D)) d a d' :
  f d = Some (kOK, a, d') -> call f d = Some (inr a, d').
Proof. intros E. unfold call. by rewrite E. Qed.

Lemma reading_ok {D A} (f : D -> option A) d a : f d = Some a -> reading f d = Some (inr a, d).
Proof. intros E. unfold reading. by rewrite E. Qed.

(** The next step of an operation. *)
Ltac run E := erewrite bind_ok by first [exact E|apply call_ok; exact E|apply reading_ok; exact E]; cbn beta.

(** ** Keys of columns *)

Lemma GlobalKey_not_table table col : GlobalKey table col <> table.
Proof.
  intros E. apply (f_equal length) in E. unfold GlobalKey in E. rewrite length_app in E. simpl in E. lia.
Qed.

(** Column keys of tables without ':' in their names are different. *)
Lemma GlobalKey_inj t1 t2 c1 c2 :
  x3a ∉ t1 -> x3a ∉ t2 -> GlobalKey t1 c1 = GlobalKey t2 c2 -> t1 = t2 /\ c1 = c2.
Proof.
  unfold GlobalKey. revert t2. induction t1 as [|b t1 IH]; intros [|b' t2] N1 N2 E; cbn in E.
  - by simplify_eq.
  - injection E as <- _. destruct N2. by left.
  - injection E as -> _. destruct N1. by left.
  - injection E as -> E. apply not_elem_of_cons in N1 as [_ N1], N2 as [_ N2].
    by destruct (IH t2 N1 N2 E) as [-> ->].
Qed.

Section Objects.
Context `{HashFunction} `{Uninit} `{StdSort}.
Context {St : Type} `{ChunkStoreSpec St} `{InfoSource St} {HV : Type} `{HeadVersionSpec HV}.
Context `{Limits} `{!PutsOk St}.
Abbreviation W := (Worker HV St).
Abbreviation params := lim_params.
Abbreviation fuel := lim_fuel.
Abbreviation canon k := (canonical k (params k) (params KMeta)).
Abbreviation editable k := (can_edit k (params k) (params KMeta) fuel).
Definition one_worker : DB W := worker_db params fuel.
Definition one_worker_spec : DBSpec (H7 := one_worker) params fuel W := worker_db_spec params fuel.
#[local] Existing Instances one_worker one_worker_spec.
Implicit Types (w : W) (table branch col : Slice) (v : Version) (items : list KVItem) (vals : list Slice).

Lemma one_call w c : db_call w c = local_call params fuel w c.
Proof. done. Qed.

(** ** Objects of a worker *)

(** The version [v] of [key] and its tree are in the store. *)
Record object_at w v (key : Slice) (t : UType) (k : NodeKind) (es : list bytes) : Prop := {
  oa_key : v_key v = key;
  oa_type : v_type v = t;
  oa_chunkable : chunkable t = true;
  oa_root : length (v_data v) = kByteLength;
  oa_ok : ver_ok v;
  oa_cell : exists c, contents (w_store w) !! Some (ver_hash v) = Some c /\ chunk_rep c kCell (ver_payload v);
  oa_tree : canon k (w_store w) (v_data v) es;
  oa_kind : k <> KMeta;
  oa_fits : exists B K, level_ok B K k (params k) es /\ inner_ok (params KMeta) K;
  oa_fuel : length es < fuel;
  oa_small : small es
}.

Lemma grows_kept (st st' : St) : grows st st' -> kept st st'.
Proof.
  intros Hg x (c & Hc & Hr). destruct (grows_content _ _ Hg _ _ _ _ (length_ComputeFrom _) Hc Hr) as (c' & ? & ?).
  by exists c'.
Qed.

Lemma object_grows w w' v key t k es :
  grows (w_store w) (w_store w') -> object_at w v key t k es -> object_at w' v key t k es.
Proof.
  intros Hg [? ? ? ? ? (c & Hc & Hr) Ht ? ? ? ?]. split; try done.
  - exists c. split; [by eapply lookup_weaken|done].
  - eapply canonical_kept; [by apply grows_kept|done].
Qed.

Lemma object_rooted w v key t k es : object_at w v key t k es -> rooted fuel (w_store w) k (v_data v) es.
Proof. intros [? ? ? ? ? ? Ht ? (B & K & Hl & Hi) Hf ?]. by eapply canonical_rooted. Qed.

(** Reading the cell. *)
Lemma object_cell w v key t k es : object_at w v key t k es ->
  exists n, Get_ver w key (Some (ver_hash v)) = Some (kOK, Some n) /\ cell_of n v.
Proof.
  intros [<- ? ? ? Hv (c & Hc & Hr) ? ? ? ? ?]. destruct (cell_of_chunk c v Hv Hr) as (n & HL & _ & Hco).
  exists n. split; [|done]. unfold Get_ver, UCell_Load. rewrite Get_spec, Hc. simpl.
  rewrite HL. osimpl. rewrite (ce_key _ _ (cell_of_rep _ _ Hco)). osimpl.
  by rewrite slice_eq_spec, bool_decide_true by done.
Qed.

(** A handle on the tree with this root. *)
Definition handle_on (o : VObject) (root : bytes) : Prop :=
  exists m, vo_root o = Some m /\ chunk_hash (chunk_ m) = Some (Some root) /\ dataStream_ o = None.

(** Opening an object that was read. *)
Lemma object_open w v key t k es n load empty :
  object_at w v key t k es -> cell_of n v ->
  (forall l h, load l h = (o ← SetNode k l h; edit t o 0 0 [] [] None)) ->
  exists o, handle_as t load empty w (VMeta (Some n)) = Some o /\
    obj_rep fuel (mkLoader w key) (vo_root o) k es /\ handle_on o (v_data v).
Proof.
  intros Ho Hn Hload. destruct (handle_rep fuel t k load empty w key n v (v_data v) es Hn) as (o & E & Hr & _ & Hm);
    try apply Ho; try done.
  - apply (rooted_transfer fuel (w_store w)); [|by eapply object_rooted].
    by apply (loader_content params fuel w key w).
  - by exists o.
Qed.

(** ** Writing an object *)

(** The hash of the version that [Put] writes on top of [p] is not that of other
    content. *)
Definition fresh_version w (key : Slice) (p : bytes) (val : Value) : Prop :=
  forall root st c, PutUnkeyed params fuel (w_store w) val = Some (kOK, Some root, st) ->
    contents st !! Some (ver_hash (object_version (val_type val) key root [] p)) = Some c ->
    chunk_rep c kCell (ver_payload (object_version (val_type val) key root [] p)).

Definition fresh_cell w (key branch : Slice) (val : Value) : Prop :=
  forall p, snd (GetBranch (head_ver_ w) key branch) = Some p -> fresh_version w key p val.

Definition readable k (es : list bytes) : Prop :=
  k <> KMeta /\ (exists B K, level_ok B K k (params k) es /\ inner_ok (params KMeta) K) /\
  length es < fuel /\ small es.

(** What a write leaves alone, and what is new. *)
Record written w (key branch : Slice) v w' : Prop := {
  wr_wf : worker_wf w';
  wr_grows : grows (w_store w) (w_store w');
  wr_heads : forall k b, heads (head_ver_ w') k b = upd (heads (head_ver_ w)) key branch (Some (Some (ver_hash v))) k b
}.

Lemma put_object w (key branch : Slice) p (o : VObject) root st k es :
  worker_wf w -> branch <> [] -> (Z.of_nat (len key) < kFieldMaxLength)%Z ->
  snd (GetBranch (head_ver_ w) key branch) = Some p ->
  dataStream_ o = None -> val_ctx (buffer_ o) = [] -> chunkable (val_type (buffer_ o)) = true ->
  PutUnkeyed params fuel (w_store w) (buffer_ o) = Some (kOK, Some root, st) ->
  canon k st root es -> length root = kByteLength -> readable k es -> fresh_cell w key branch (buffer_ o) ->
  exists v w', put key o branch w = Some (inr (Some (ver_hash v)), w') /\ v_data v = root /\
    object_at w' v key (val_type (buffer_ o)) k es /\ written w key branch v w'.
Proof.
  intros Hw Hb Hk Hh Hs Hx Ht Eput Hc Hrl (Hkm & Hfits & Hf & Hsm) Hfresh.
  pose proof (object_version_ok w (val_type (buffer_ o)) key branch root p Hw Hh Hrl Hk) as Hv.
  pose proof (fun c => Hfresh p Hh root st c Eput) as Hnc.
  pose proof Hv as Hv'. rewrite <- Hx in Hv'.
  destruct (local_put params fuel w key (buffer_ o) branch p root st Hw Ht Hb Hh Eput Hrl Hv') as (w1 & Hn & E).
  rewrite Hx in Hn, E. set (v := object_version _ _ _ _ _) in *. set (w2 := set_head w1 _) in E.
  destruct (nv_stored _ _ _ _ puts_ok Hn) as [c Ec]. exists v, w2. split_and!.
  - unfold put, call, odb_Put. rewrite Hs, one_call, E. done.
  - done.
  - split; try done; [|].
    + exists c. split; [done|]. by apply (nv_chunk _ _ _ _ Hn Hnc).
    + apply (canonical_kept _ _ _ st); [|done]. apply grows_kept. cbn [w_store set_head w2].
      destruct (nv_store _ _ _ _ Hn) as (c' & -> & _). apply put_grows.
  - split.
    + apply wf_PutBranch; [by eapply wf_new_version|apply ver_hash_wf|by eapply nv_stored].
    + exact (nv_grows _ _ _ _ Hn).
    + intros k' b. cbn [head_ver_ set_head w2]. rewrite PutBranch_heads, ver_hash_Clone, (nv_head _ _ _ _ Hn).
      unfold upd. case_decide; [done|]. apply PutLatest_heads.
Qed.

(** A version that is put on top of another one; no branch moves. *)
Lemma put_object_ver w (key : Slice) p (o : VObject) root st k es :
  worker_wf w -> (Z.of_nat (len key) < kFieldMaxLength)%Z ->
  length p = kByteLength -> hash_eq (Some p) hash_kNull || Exists_ver w (Some p) = true ->
  dataStream_ o = None -> val_ctx (buffer_ o) = [] -> chunkable (val_type (buffer_ o)) = true ->
  PutUnkeyed params fuel (w_store w) (buffer_ o) = Some (kOK, Some root, st) ->
  canon k st root es -> length root = kByteLength -> readable k es -> fresh_version w key p (buffer_ o) ->
  exists v w', odb_Put_ver w key o (Some p) = Some (kOK, Some (ver_hash v), w') /\
    object_at w' v key (val_type (buffer_ o)) k es /\ worker_wf w' /\ grows (w_store w) (w_store w') /\
    forall k' b, heads (head_ver_ w') k' b = heads (head_ver_ w) k' b.
Proof.
  intros Hw Hk Hpl Hp Hs Hx Ht Eput Hc Hrl (Hkm & Hfits & Hf & Hsm) Hfresh.
  set (v := object_version (val_type (buffer_ o)) key root [] p).
  assert (Hv : ver_ok v).
  { constructor; cbn; [done|done|done| |]; unfold len in *; rewrite ?Hrl; unfold kByteLength, kFieldMaxLength in *; lia. }
  destruct (CreateUCell_rep w v st Hv (PutUnkeyed_grows _ _ _ _ _ _ _ Eput)) as (w1 & Hn & E).
  pose proof (fun c => Hfresh root st c Eput) as Hnc.
  destruct (nv_stored _ _ _ _ puts_ok Hn) as [c Ec]. exists v, w1. split_and!.
  - unfold odb_Put_ver. rewrite Hs, one_call. cbn [local_call]. unfold Put_prev. rewrite Hp. unfold WriteUCell.
    rewrite Eput, Hx. unfold CreateUCell_hash, UCell_Create_hash. osimpl.
    assert (Erd : read_bytes 0 kByteLength root = Some root) by (rewrite <- Hrl; apply read_bytes_all).
    unfold CreateUCell in E. cbn [v object_version v_key v_type v_data v_ctx v_prev1 v_prev2] in E.
    destruct (val_type (buffer_ o)); try done; rewrite Erd; osimpl; rewrite E; done.
  - split; try done; [|].
    + exists c. split; [done|]. by apply (nv_chunk _ _ _ _ Hn Hnc).
    + apply (canonical_kept _ _ _ st); [|done]. apply grows_kept.
      destruct (nv_store _ _ _ _ Hn) as (c' & -> & _). apply put_grows.
  - eapply wf_new_version; [exact puts_ok|done|done].
  - exact (nv_grows _ _ _ _ Hn).
  - intros k' b. rewrite (nv_head _ _ _ _ Hn). apply PutLatest_heads.
Qed.

Definition value_ok (s : Slice) : Prop := (Z.of_nat (len s + 4) < 2 ^ 32)%Z.

(** ** New objects *)

Lemma write_empty_canonical (st : St) k :
  can_build params fuel st k [] -> exists h st', write_empty k st = Some (Some h, st') /\ canon k st' h [].
Proof.
  intros [Hk (B & K & Hl & _) Hf _ Hput Hnc]. unfold write_empty.
  assert (Hsz : size_ok []) by (unfold size_ok; simpl; lia).
  rewrite (Make_rep k [] []); [|constructor|apply (lo_entries _ _ _ _ _ Hl)|done|by destruct k].
  osimpl. cbn [ci_chunk concat].
  rewrite (chunk_rep_hash _ _ _ (node_chunk_rep k [] Hsz)). osimpl.
  eexists _, _. split; [reflexivity|]. split. { by destruct k. }
  apply (nodes_stored st [(k, [])]); [done|by repeat constructor|].
  destruct fuel as [|f]; [simpl in Hf; lia|]. cbn [tree_nodes] in Hnc.
  change (level_groups (params k) []) with [@nil bytes] in Hnc. by rewrite app_nil_r in Hnc.
Qed.

Lemma new_tree (st : St) k seg es (e : bool) :
  can_build params fuel st k es -> (e = true -> es = []) -> seg_rep seg es ->
  exists h st', (if e then write_empty k st else build_one params fuel k st seg) = Some (Some h, st') /\
    canon k st' h es /\ rooted fuel st' k h es.
Proof.
  intros Hb He Hs.
  assert (exists h st', (if e then write_empty k st else build_one params fuel k st seg) = Some (Some h, st') /\
    canon k st' h es) as (h & st' & E & Hc).
  { destruct e; [rewrite He in * by done; by apply write_empty_canonical|].
    destruct (build_canonical params fuel k st seg es Hb Hs) as (h & E & Hc). by eexists _, _. }
  exists h, st'. split_and!; [done|done|]. destruct Hb as [Hk (B & K & Hl & Hi) Hf _ _ _].
  eapply canonical_rooted; [done|done|exact Hl| |done]. destruct Hi as (? & ? & ? & ?). by split.
Qed.

(** What [PutUnkeyed] makes of the buffers of the objects that are written. *)
Definition wrote (st : St) (val : Value) k es : Prop :=
  exists root st', PutUnkeyed params fuel st val = Some (kOK, Some root, st') /\ canon k st' root es /\
    length root = kByteLength.

Lemma rooted_length (st : St) k root es : rooted fuel st k root es -> length root = kByteLength.
Proof. intros (ht & c & _ & Ht & _). by apply tree_root in Ht as [? _]. Qed.

Lemma wrote_list st vals :
  can_build params fuel st KList (list_Encode1 <$> vals) -> Forall value_ok vals ->
  wrote st (buffer_ (VList_new vals)) KList (list_Encode1 <$> vals).
Proof.
  intros Hb Hv. destruct (new_tree st KList (list_Encode vals) _ (length vals =? 0) Hb) as (h & st' & E & Hc & Hr).
  { by destruct vals. }
  { apply segment_of_rep, (entries_ne KList), eo_entries, list_entries_ok, Hv. }
  destruct (SetNode_root fuel KList st' h _ ltac:(done) Hr) as (n & En & Hh & _).
  pose proof (rooted_length _ _ _ _ Hr) as Hl. exists h, st'. split_and!; [|done|done].
  unfold PutUnkeyed, WriteList, hash_empty. cbn [buffer_ VList_new val_type val_base val_vals].
  unfold SList_new. rewrite E. osimpl. cbn [fst snd]. 
  change (UList_SetNodeForHash st' (Some h)) with (SetNode KList st' (Some h)). rewrite En. osimpl.
  unfold created. cbn [fst snd]. rewrite Hh. osimpl. rewrite hash_Clone_wf; [done|]. by intros x [= <-].
Qed.

Lemma wrote_blob st data :
  can_build params fuel st KBlob (blob_entries data) ->
  wrote st (buffer_ (VBlob_new data)) KBlob (blob_entries data).
Proof.
  intros Hb. destruct (new_tree st KBlob (mkSeg data (len data) (FixedSegment 1)) _ (slice_empty data) Hb)
    as (h & st' & E & Hc & Hr).
  { by destruct data. }
  { apply blob_segment_rep. }
  destruct (SetNode_root fuel KBlob st' h _ ltac:(done) Hr) as (n & En & Hh & _).
  pose proof (rooted_length _ _ _ _ Hr) as Hl. exists h, st'. split_and!; [|done|done].
  unfold PutUnkeyed, WriteBlob, hash_empty. cbn [buffer_ VBlob_new val_type val_base val_vals].
  unfold SBlob_new. rewrite E. osimpl. cbn [fst snd].
  change (UBlob_SetNodeForHash st' (Some h)) with (SetNode KBlob st' (Some h)). rewrite En. osimpl.
  unfold created. cbn [fst snd]. rewrite Hh. osimpl. rewrite hash_Clone_wf; [done|]. by intros x [= <-].
Qed.

Lemma wrote_empty_map st : can_build params fuel st KMap [] -> wrote st (buffer_ (VMap_new [] [])) KMap [].
Proof.
  intros Hb. destruct (new_tree st KMap (mkSeg [] 0 (VarSegment [])) [] true Hb) as (h & st' & E & Hc & Hr);
    [done|apply no_entries_rep|].
  destruct (SetNode_root fuel KMap st' h _ ltac:(done) Hr) as (n & En & Hh & _).
  pose proof (rooted_length _ _ _ _ Hr) as Hl. exists h, st'. split_and!; [|done|done].
  unfold PutUnkeyed, WriteMap, hash_empty. cbn [buffer_ VMap_new val_type val_base val_keys val_vals].
  cbn [length Nat.eqb negb]. unfold SMap_new. cbn [length Nat.eqb]. osimpl.
  rewrite E. osimpl. cbn [fst snd].
  change (UMap_SetNodeForHash st' (Some h)) with (SetNode KMap st' (Some h)). rewrite En. osimpl.
  unfold created. cbn [fst snd]. rewrite Hh. osimpl. rewrite hash_Clone_wf; [done|]. by intros x [= <-].
Qed.

(** The root of the edited tree is not [Hash::kNull], which would be an error. *)
Definition root_of k (es : list bytes) : option bytes :=
  Canonical.tree_root (S (length es)) (params KMeta) k (params k) es.

Definition root_not_null k (es : list bytes) : Prop := root_of k es <> hash_kNull.

Lemma modified_ok fail (st : St) k h es :
  canon k st h es -> length h = kByteLength -> root_not_null k es -> modified fail (Some h, st) = (kOK, Some h, st).
Proof.
  intros [Hr _] Hl Hn. unfold root_not_null, root_of in Hn. rewrite Hr in Hn. unfold modified. cbn [fst snd].
  rewrite hash_eq_spec; [by rewrite bool_decide_false|by intros x [= <-]|apply hash_kNull_wf].
Qed.

Lemma wrote_set st h items col (b : Slice) :
  key_sorted (kv_key <$> items) -> Forall item_ok items -> item_ok (mkKV col b) ->
  canon KMap st h (map_Encode1 <$> items) ->
  editable KMap st (map_Encode1 <$> items) (map_Encode1 <$> edit_items items [mkKV col b] col) ->
  root_not_null KMap (map_Encode1 <$> edit_items items [mkKV col b] col) ->
  wrote st (mkValue UMap (Some h) 0 0 [b] [col] []) KMap (map_Encode1 <$> edit_items items [mkKV col b] col).
Proof.
  intros Hs Hi Hkv Hc He Hn.
  destruct (map_Encode_rep [mkKV col b]) as [Eenc Hseg]; [done|by constructor|by repeat constructor|].
  destruct (map_edit params fuel st h items [mkKV col b] col _ Hs Hi ltac:(eauto) Hseg Hc He ltac:(by left))
    as (n & l & h' & st' & o' & o2 & El & Eh & Ef & Er & Hc' & _).
  assert (Hr : rooted fuel st' KMap h' (map_Encode1 <$> edit_items items [mkKV col b] col)).
  { pose proof He as [Hk (B & K & _ & Hl & Hio) _ _ [_ Hf] _ _]. eapply canonical_rooted; try done. lia. }
  assert (Es : SMap_Set params fuel st (Some n) col b = Some (Some h', st')).
  { unfold SMap_Set. osimpl. rewrite Eh. osimpl. rewrite Ef. osimpl. cbn [fst]. rewrite Eenc. osimpl. exact Er. }
  pose proof (rooted_length _ _ _ _ Hr) as Hl. exists h', st'. split_and!; [|done|done].
  unfold PutUnkeyed, WriteMap, hash_empty. cbn [val_type val_base val_keys val_vals val_dels].
  cbn [is_origin val_dels Z.eqb andb length Nat.eqb Nat.ltb Nat.leb negb orb head].
  osimpl. rewrite El. osimpl. rewrite Es. osimpl. by rewrite (modified_ok _ _ KMap _ _ Hc' Hl Hn).
Qed.

Lemma wrote_remove st h items col :
  key_sorted (kv_key <$> items) -> Forall item_ok items -> canon KMap st h (map_Encode1 <$> items) ->
  editable KMap st (map_Encode1 <$> items) (map_Encode1 <$> edit_items items [] col) ->
  keeps_end (params KMap) (map_Encode1 <$> items) (key_pos items col) (key_count items col) [] ->
  root_not_null KMap (map_Encode1 <$> edit_items items [] col) ->
  wrote st (mkValue UMap (Some h) 0 1 [] [col] []) KMap (map_Encode1 <$> edit_items items [] col).
Proof.
  intros Hs Hi Hc He Hend Hn.
  destruct (map_removed params fuel st h items col Hs Hi Hc He Hend) as (o & h' & st' & o' & o2 & El & Er & Hc' & _).
  assert (Hl : length h' = kByteLength).
  { pose proof He as [Hk (B & K & _ & Hl & Hio) _ _ [_ Hf] _ _]. eapply rooted_length, canonical_rooted; try done. lia. }
  exists h', st'. split_and!; [|done|done].
  unfold PutUnkeyed, WriteMap, hash_empty. cbn [val_type val_base val_keys val_vals val_dels].
  cbn [is_origin val_dels Z.eqb andb length Nat.eqb Nat.ltb Nat.leb negb orb head].
  osimpl. rewrite El. osimpl. rewrite Er. osimpl. by rewrite (modified_ok _ _ KMap _ _ Hc' Hl Hn).
Qed.

Lemma wrote_splice st h vals idx del new :
  let vals' := take idx vals ++ new ++ drop (idx + del) vals in
  canon KList st h (list_Encode1 <$> vals) ->
  editable KList st (list_Encode1 <$> vals) (list_Encode1 <$> vals') -> idx <= length vals ->
  Forall value_ok new -> keeps_end (params KList) (list_Encode1 <$> vals) idx del (list_Encode1 <$> new) ->
  root_not_null KList (list_Encode1 <$> vals') -> del <> 0 \/ new <> [] ->
  wrote st (mkValue UList (Some h) (Z.of_nat idx) (Z.of_nat del) new [] []) KList (list_Encode1 <$> vals').
Proof.
  intros vals' Hc He Hp Hv Hend Hn Hne.
  assert (E : list_Encode1 <$> vals'
    = take idx (list_Encode1 <$> vals) ++ (list_Encode1 <$> new) ++ drop (idx + del) (list_Encode1 <$> vals)).
  { unfold vals'. by rewrite !fmap_app, fmap_take, fmap_drop. }
  pose proof He as He2. rewrite E in He2.
  destruct (splice_object params fuel KList st h _ idx del (list_Encode new) (list_Encode1 <$> new) Hc He2)
    as (n & h' & st' & o' & o2 & El & Eh & Er & Hc' & E' & Ho' & _); try done.
  { by rewrite length_fmap. }
  { apply segment_of_rep, (entries_ne KList), eo_entries, list_entries_ok, Hv. }
  rewrite <- E in Hc', Ho'.
  assert (Hl : length h' = kByteLength).
  { pose proof He as [Hk (B & K & _ & Hl & Hio) _ _ [_ Hf] _ _].
    eapply rooted_length, canonical_rooted; try done. lia. }
  exists h', st'. split_and!; [|done|done].
  unfold PutUnkeyed, WriteList, hash_empty. cbn [val_type val_base val_vals val_dels val_pos].
  assert (Ho : is_origin (mkValue UList (Some h) (Z.of_nat idx) (Z.of_nat del) new [] []) new = false).
  { unfold is_origin. cbn [val_dels]. apply andb_false_iff. destruct Hne as [Hd|Hd]; [left|right; by destruct new].
    apply Z.eqb_neq. lia. }
  rewrite Ho. rewrite bool_decide_false by done. unfold SList_load.
  change (UList_SetNodeForHash st (Some h)) with (SetNode KList st (Some h)). rewrite El. osimpl.
  unfold SList_Splice. osimpl. rewrite Eh. osimpl. rewrite Nat2Z.id, Er. osimpl.
  by rewrite (modified_ok _ _ KList _ _ Hc' Hl Hn).
Qed.


Lemma edit_readable k (st : St) es es' : editable k st es es' -> readable k es'.
Proof. intros [Hk (B & K & _ & Hl & Hio) _ ? [_ Hf] _ _]. split_and!; [done|by exists B, K|lia|done]. Qed.

Lemma build_readable k (st : St) es : can_build params fuel st k es -> readable k es.
Proof. intros [Hk (B & K & Hl & ? & ? & ? & ?) Hf Hs _ _]. split_and!; try done. exists B, K. by split. Qed.

Lemma edit_items_ok items col b : Forall item_ok items -> item_ok (mkKV col b) ->
  Forall item_ok (edit_items items [mkKV col b] col).
Proof.
  intros Hi Hb. unfold edit_items. rewrite !Forall_app.
  split_and!; [by apply Forall_take|by constructor|by apply Forall_drop].
Qed.

Lemma hash_slice v : hash_ToSlice (Some (ver_hash v)) = Some (ver_hash v).
Proof.
  unfold hash_ToSlice. osimpl. rewrite <- (ver_hash_wf v _ eq_refl) at 1. apply read_bytes_all.
Qed.

End Objects.

(** ** Dictionaries *)

(** Contents of entries: the type of the object, and how the content is cut into
    elements. *)
Class Entries (A : Type) := {
  en_type : UType;
  en_kind : NodeKind;
  en_code : A -> list bytes;
  en_ok : A -> Prop
}.

#[export] Instance list_entries : Entries (list Slice) := {|
  en_type := UList; en_kind := KList; en_code vals := list_Encode1 <$> vals; en_ok := Forall value_ok
|}.

#[export] Instance blob_entry : Entries bytes := {|
  en_type := UBlob; en_kind := KBlob; en_code := blob_entries; en_ok _ := True
|}.

Section Dict.
Context `{HashFunction} `{Uninit} `{StdSort}.
Context {St : Type} `{ChunkStoreSpec St} `{InfoSource St} {HV : Type} `{HeadVersionSpec HV}.
Context `{Limits} `{!PutsOk St}.
Abbreviation W := (Worker HV St).
Abbreviation params := lim_params.
Abbreviation fuel := lim_fuel.
Abbreviation canon k := (canonical k (params k) (params KMeta)).
Abbreviation editable k := (can_edit k (params k) (params KMeta) fuel).
#[local] Existing Instances one_worker one_worker_spec.
Context {A : Type} `{!Entries A}.
Implicit Types (w : W) (table branch col : Slice) (v : Version) (items : list KVItem) (a : A).

(** An entry: its version, as the dictionary records it, and its content. *)
Definition entry_rep w table col (b : Slice) (a : A) : Prop :=
  exists cv, b = ver_hash cv /\ object_at w cv (GlobalKey table col) en_type en_kind (en_code a) /\ en_ok a.

(** The dictionary: the map of its entries at the head [v] of the branch. *)
Record dict_at w table branch v items (T : gmap Slice A) : Prop := {
  dt_head : heads (head_ver_ w) table branch = Some (Some (ver_hash v));
  dt_map : object_at w v table UMap KMap (map_Encode1 <$> items);
  dt_items : Forall item_ok items;
  dt_sorted : key_sorted (kv_key <$> items);
  dt_entries : forall col, option_Forall2 (entry_rep w table col) (assoc_value items col) (T !! col)
}.

Definition dict_rep w table branch items (T : gmap Slice A) : Prop :=
  exists v, dict_at w table branch v items T.

Lemma dict_grows w w' table branch v items T :
  grows (w_store w) (w_store w') -> heads (head_ver_ w') table branch = heads (head_ver_ w) table branch ->
  dict_at w table branch v items T -> dict_at w' table branch v items T.
Proof.
  intros Hg Hh [? ? ? ? Hc]. split; try done; [by rewrite Hh|by eapply object_grows|].
  intros col. destruct (Hc col) as [b vals (cv & -> & Ho & Hv)|]; constructor.
  exists cv. split_and!; [done|by eapply object_grows|done].
Qed.

(** Opening the dictionary, and reading an entry. *)
Lemma dict_open w table branch v items T :
  dict_at w table branch v items T ->
  exists n tab, odb_Get w table branch = Some (kOK, Some n, w) /\ Map w (VMeta (Some n)) = Some tab /\
    obj_rep fuel (mkLoader w table) (vo_root tab) KMap (map_Encode1 <$> items) /\ handle_on tab (v_data v).
Proof.
  intros [Hh Ho _ _ _]. destruct (object_cell _ _ _ _ _ _ Ho) as (n & En & Hn).
  destruct (object_open w v table UMap KMap _ n VMap_load (VMap_new [] []) Ho Hn) as (tab & Et & Hr & Hon); [done|].
  assert (Eg : odb_Get w table branch = Some (kOK, Some n, w)).
  { unfold odb_Get. rewrite one_call. cbn [local_call]. unfold Get_branch. rewrite GetBranch_spec, Hh. cbn [negb].
    rewrite En. done. }
  exists n, tab. by split_and!.
Qed.

Lemma dict_Get_rep w table branch v items T tab col :
  dict_at w table branch v items T ->
  obj_rep fuel (mkLoader w table) (vo_root tab) KMap (map_Encode1 <$> items) ->
  table_Get fuel table tab col w = Some (inr (default [] (assoc_value items col)), w).
Proof.
  intros [_ Ho Hi Hs _] Hr. unfold table_Get, reading. pose proof (oa_small _ _ _ _ _ _ Ho) as Hsm.
  unfold small in Hsm. rewrite length_fmap in Hsm. by rewrite (UMap_Get_rep fuel _ _ items col Hr Hsm Hi Hs).
Qed.

(** Opening an object that the dictionary records. *)
Lemma entry_open w table col b a load empty :
  entry_rep w table col b a ->
  (forall l h, load l h = (o ← SetNode en_kind l h; edit en_type o 0 0 [] [] None)) ->
  slice_ToHash b = Some b /\
  exists n o cv, b = ver_hash cv /\ odb_Get_ver w (GlobalKey table col) (Some b) = Some (kOK, Some n, w) /\
    handle_as en_type load empty w (VMeta (Some n)) = Some o /\
    obj_rep fuel (mkLoader w (GlobalKey table col)) (vo_root o) en_kind (en_code a) /\
    handle_on o (v_data cv) /\ object_at w cv (GlobalKey table col) en_type en_kind (en_code a).
Proof.
  intros (cv & -> & Ho & _) Hload. split.
  { destruct (ver_hash cv) eqn:E; [|done].
    pose proof (ver_hash_wf cv _ eq_refl) as Hl. by rewrite E in Hl. }
  destruct (object_cell _ _ _ _ _ _ Ho) as (n & En & Hn).
  destruct (object_open w cv (GlobalKey table col) en_type en_kind _ n load empty Ho Hn Hload) as (o & Eo & Hr & Hon).
  exists n, o, cv. split_and!; try done. unfold odb_Get_ver. rewrite one_call. cbn [local_call]. rewrite En. done.
Qed.

(** ** Recording an entry *)

(** There is room for the entry: it can be encoded, the map can be edited, and
    neither the new nodes nor the new version collide with other content. *)
Record set_room w table branch items col (b : Slice) : Prop := {
  sr_item : item_ok (mkKV col b);
  sr_edit : editable KMap (w_store w) (map_Encode1 <$> items) (map_Encode1 <$> edit_items items [mkKV col b] col);
  sr_root : root_not_null KMap (map_Encode1 <$> edit_items items [mkKV col b] col);
  sr_cell : fresh_cell w table branch (mkValue UMap (root_of KMap (map_Encode1 <$> items)) 0 0 [b] [col] [])
}.

(** The dictionary after an operation that made [T] of it. *)
Definition leads_to w table branch items T w' : Prop :=
  dict_rep w' table branch items T /\ worker_wf w' /\ grows (w_store w) (w_store w').

Lemma set_entry_rep w table branch v items T tab col cv a :
  worker_wf w -> branch <> [] -> (Z.of_nat (len table) < kFieldMaxLength)%Z ->
  dict_at w table branch v items T -> handle_on tab (v_data v) ->
  object_at w cv (GlobalKey table col) en_type en_kind (en_code a) -> en_ok a ->
  set_room w table branch items col (ver_hash cv) ->
  exists w', set_column table branch tab col (Some (ver_hash cv)) w = Some (inr tt, w') /\
    (forall key, key <> table -> heads (head_ver_ w') key branch = heads (head_ver_ w) key branch) /\
    leads_to w table branch (edit_items items [mkKV col (ver_hash cv)] col) (<[col := a]> T) w'.
Proof.
  intros Hw Hb Hk Ht (m & Em & Hm & Hs) Hcv Hv [Hit Hed Hnn Hfc].
  pose proof Ht as [Hh Hmap Hi Hso Hcols]. rewrite (proj1 (oa_tree _ _ _ _ _ _ Hmap) : root_of _ _ = _) in Hfc.
  destruct (wrote_set (w_store w) (v_data v) items col (ver_hash cv) Hso Hi Hit (oa_tree _ _ _ _ _ _ Hmap) Hed Hnn)
    as (root & st & Eput & Hc & Hl).
  set (o := mkVObject (Some m) (mkValue UMap (Some (v_data v)) 0 0 [ver_hash cv] [col] []) None).
  destruct (put_object w table branch (ver_hash v) o root st KMap
    (map_Encode1 <$> edit_items items [mkKV col (ver_hash cv)] col) Hw Hb Hk) as (v' & w' & Ep & _ & Ho & [Hw' Hg Hhs]);
    try done.
  { by rewrite GetBranch_spec, Hh. }
  { by eapply edit_readable. }
  exists w'. split_and!.
  - unfold set_column. erewrite bind_ok with (a := o) (d' := w); [by run Ep|].
    apply reading_ok. rewrite hash_slice. osimpl. unfold VMap_Set, edit. rewrite Em. osimpl. by rewrite Hm, Hs.
  - intros key Hne. rewrite Hhs. unfold upd. rewrite decide_False by naive_solver. done.
  - split_and!; [|done|done]. exists v'. split; [|exact Ho|by apply edit_items_ok|by apply edit_items_sorted; naive_solver|].
    + by rewrite Hhs, upd_eq.
    + intros c. destruct (decide (c = col)) as [->|Hne].
      * rewrite assoc_edit_same, lookup_insert_eq by done. cbn. rewrite decide_True by done. constructor.
        exists cv. split_and!; [done|by eapply object_grows|done].
      * rewrite assoc_edit_other, lookup_insert_ne by (done || by repeat constructor).
        destruct (Hcols c) as [b vs (cv' & -> & Ho' & Hv')|]; constructor.
        exists cv'. split_and!; [done|by eapply object_grows|done].
Qed.

(** Recording that an entry is gone. *)
Record remove_room w table branch items col : Prop := {
  rr_edit : editable KMap (w_store w) (map_Encode1 <$> items) (map_Encode1 <$> edit_items items [] col);
  rr_end : keeps_end (params KMap) (map_Encode1 <$> items) (key_pos items col) (key_count items col) [];
  rr_root : root_not_null KMap (map_Encode1 <$> edit_items items [] col);
  rr_cell : fresh_cell w table branch (mkValue UMap (root_of KMap (map_Encode1 <$> items)) 0 1 [] [col] [])
}.

Lemma remove_entry_rep w table branch v items T tab col :
  worker_wf w -> branch <> [] -> (Z.of_nat (len table) < kFieldMaxLength)%Z ->
  dict_at w table branch v items T -> handle_on tab (v_data v) -> remove_room w table branch items col ->
  exists tab' h w', VMap_Remove tab col = Some tab' /\ put table tab' branch w = Some (inr h, w') /\
    leads_to w table branch (edit_items items [] col) (base.delete col T) w'.
Proof.
  intros Hw Hb Hk Ht (m & Em & Hm & Hs) [Hed Hend Hnn Hfc].
  pose proof Ht as [Hh Hmap Hi Hso Hcols]. rewrite (proj1 (oa_tree _ _ _ _ _ _ Hmap) : root_of _ _ = _) in Hfc.
  destruct (wrote_remove (w_store w) (v_data v) items col Hso Hi (oa_tree _ _ _ _ _ _ Hmap) Hed Hend Hnn)
    as (root & st & Eput & Hc & Hl).
  set (o := mkVObject (Some m) (mkValue UMap (Some (v_data v)) 0 1 [] [col] []) None).
  destruct (put_object w table branch (ver_hash v) o root st KMap
    (map_Encode1 <$> edit_items items [] col) Hw Hb Hk) as (v' & w' & Ep & _ & Ho & [Hw' Hg Hhs]);
    try done.
  { by rewrite GetBranch_spec, Hh. }
  { by eapply edit_readable. }
  exists o, (Some (ver_hash v')), w'. split_and!; [|done|].
  - unfold VMap_Remove, edit. rewrite Em. osimpl. by rewrite Hm, Hs.
  - split_and!; [|done|done]. exists v'.
    split; [by rewrite Hhs, upd_eq|exact Ho| |by apply edit_items_sorted; naive_solver|].
    + unfold edit_items. rewrite !Forall_app. split_and!; [by apply Forall_take|done|by apply Forall_drop].
    + intros c. destruct (decide (c = col)) as [->|Hne].
      * rewrite assoc_edit_same, lookup_delete_eq by done. constructor.
      * rewrite assoc_edit_other, lookup_delete_ne by (done || constructor).
        destruct (Hcols c) as [b vs (cv' & -> & Ho' & Hv')|]; constructor.
        exists cv'. split_and!; [done|by eapply object_grows|done].
Qed.

(** A new dictionary has no entries. *)
Lemma new_dict_rep w table branch p :
  worker_wf w -> branch <> [] -> (Z.of_nat (len table) < kFieldMaxLength)%Z ->
  heads (head_ver_ w) table branch = None -> hash_kNull = Some p ->
  can_build params fuel (w_store w) KMap [] -> fresh_cell w table branch (buffer_ (VMap_new [] [])) ->
  exists h w', put table (VMap_new [] []) branch w = Some (inr h, w') /\ leads_to w table branch [] (∅ : gmap Slice A) w'.
Proof.
  intros Hw Hb Hk Hh Hp Hcb Hfc. destruct (wrote_empty_map (w_store w) Hcb) as (root & st & Eput & Hc & Hl).
  destruct (put_object w table branch p (VMap_new [] []) root st KMap [] Hw Hb Hk) as (v & w' & Ep & _ & Ho & [Hw' Hg Hhs]);
    try done.
  { by rewrite GetBranch_spec, Hh. }
  { by eapply build_readable. }
  exists (Some (ver_hash v)), w'. split; [done|].
  split_and!; [|done|done]. exists v. split; [by rewrite Hhs, upd_eq|done|done|constructor|].
  intros col. rewrite lookup_empty. constructor.
Qed.

(** The entries that a scan shows. *)
Lemma scan_dict_rep w table branch v items T tab :
  dict_at w table branch v items T ->
  obj_rep fuel (mkLoader w table) (vo_root tab) KMap (map_Encode1 <$> items) ->
  scan_table fuel table tab w = Some (inr ((fun it => (kv_key it, kv_val it)) <$> items), w).
Proof.
  intros Ht Hr. pose proof (oa_small _ _ _ _ _ _ (dt_map _ _ _ _ _ _ Ht)) as Hs. pose proof (dt_items _ _ _ _ _ _ Ht) as Hi.
  assert (Hrd : reads KMap (map_Encode1 <$> items) read_column (fun e => (kv_key (item_of e), kv_val (item_of e)))).
  { intros it l e rest He Hl Hc Hk. pose proof (map_reads items Hi it l e rest He Hl Hc Hk) as E.
    unfold read_item in E. unfold read_column. destruct (it_key it); [|done]. osimpl in E. osimpl.
    destruct (it_value KMap it); [|done]. osimpl in E. injection E as <-. done. }
  destruct (Scan_rep fuel fuel _ _ KMap _ read_column
    (fun e => (kv_key (item_of e), kv_val (item_of e))) (length items) Hr) as (it & E & Hit); [done|done|exact Hrd|by rewrite length_fmap|].
  unfold scan_table, scan_object. apply reading_ok.
  destruct Hr as (n & h & ht & Eo & _ & _ & Hn & _). unfold obj_numElements at 1. rewrite Eo. osimpl.
  rewrite (node_numElements _ _ _ _ _ Hn Hs), length_fmap. osimpl. rewrite Nat2Z.id, <- Eo, E. osimpl. rewrite Hit.
  rewrite <- list_fmap_compose. f_equal. apply Forall_fmap_ext_1. eapply Forall_impl; [exact Hi|].
  intros x Hx. unfold compose. by rewrite (item_of_encode x Hx).
Qed.

(** The names of the entries. *)
Lemma dict_names w table branch v items T col :
  dict_at w table branch v items T -> col ∈ kv_key <$> items <-> is_Some (T !! col).
Proof.
  intros Ht. pose proof (dt_entries _ _ _ _ _ _ Ht col) as HC.
  destruct (assoc_value items col) as [b|] eqn:E; inversion HC; subst.
  - split; [eauto|]. intros _. destruct (decide (col ∈ kv_key <$> items)) as [|Hn]; [done|].
    apply assoc_value_None in Hn. congruence.
  - apply assoc_value_None in E. split; [done|]. by intros [? ?].
Qed.

(** The names are different. *)
Lemma key_sorted_NoDup keys : key_sorted keys -> NoDup keys.
Proof.
  intros Hs%key_sorted_strong. induction Hs as [|k keys Hs IH Hf]; constructor; [|done]. intros Hk. rewrite Forall_forall in Hf.
  specialize (Hf k Hk). by rewrite (st_irrefl (ltb := slice_lt)) in Hf.
Qed.

End Dict.

(** ** Checking that there is room *)

Section Checks.
#[local] Existing Instances plain_hash zeroed map_store map_store_spec merge_std_sort no_info.
Abbreviation M := (gmap Hash Chunk).
Abbreviation W := (Worker SimpleHeadVersion (gmap Hash Chunk)).
Definition small_limits : Limits := {| lim_params := object_params; lim_fuel := 20 |}.
Definition map_puts_ok : PutsOk M := map_puts_succeed.
#[local] Existing Instances small_limits map_puts_ok one_worker.
Implicit Types (st : M) (w : W).

(** The store holds nothing or the node itself under the hashes of the nodes. *)
Definition node_fits st (x : NodeKind * list bytes) : bool :=
  match st !! Some (node_hash x) with
  | None => true
  | Some c =>
      bool_decide (head_ c = Some (node_bytes (fst x) (snd x))) && bool_decide (hash_ c = None \/ hash_ c = Some (node_hash x)) &&
      (length (concat (snd x)) <? 1000)
  end.

Definition nodes_free st (nodes : list (NodeKind * list bytes)) : bool :=
  collision_free nodes && forallb (node_fits st) nodes.

Lemma nodes_free_spec st nodes : nodes_free st nodes = true -> no_collisions st nodes.
Proof.
  intros [Hc Hf]%andb_true_iff. split.
  - by apply (collision_free_spec (∅ : M)) in Hc as [Hx _]; [|done].
  - intros x c Hx Ec. rewrite forallb_forall in Hf. apply list_elem_of_In, Hf in Hx. unfold node_fits in Hx.
    cbn [contents map_store_spec] in Ec. rewrite Ec, !andb_true_iff, !bool_decide_eq_true in Hx.
    destruct Hx as ((Hh & Hs) & Hl). apply Nat.ltb_lt in Hl.
    constructor; [exists []; by rewrite app_nil_r|apply size_ok_payload; unfold size_ok; lia|exact Hs].
Qed.

Definition edits_free (params : NodeKind -> ChunkerParams) (fuel : nat) st k (es es' : list bytes) : bool :=
  forallb (fun ht => nodes_free st (edit_nodes k (params k) (params KMeta) ht fuel true es')) (seq 0 (S (length es))).

Lemma edits_free_spec params fuel st k es es' B K :
  k <> KMeta -> level_ok B K k (params k) es -> level_ok B K k (params k) es' -> inner_ok (params KMeta) K ->
  small es -> small es' -> length es + S (length es) < fuel -> length es' + S (length es) <= fuel ->
  edits_free params fuel st k es es' = true -> can_edit k (params k) (params KMeta) fuel st es es'.
Proof.
  intros Hk Hl Hl' Hio Hs Hs' Hf Hf' Hc. unfold edits_free in Hc. rewrite forallb_forall in Hc.
  constructor; [done|by exists B, K|done|done|done|done|]. intros ht Hht. apply nodes_free_spec, Hc, in_seq. lia.
Qed.

Abbreviation edit_free := (edits_free object_params 20).

Lemma small_edit st k es es' :
  small_entries k es -> small_entries k es' -> length es < 10 -> length es' < 10 -> edit_free st k es es' = true ->
  can_edit k (object_params k) (object_params KMeta) 20 st es es'.
Proof.
  intros Hes Hes' Hl Hl' Hc. assert (Ep : small_params = object_params k) by (destruct Hes; by destruct k).
  assert (Hlev : forall es0, small_entries k es0 -> length es0 < 10 -> level_ok 64 8 k (object_params k) es0).
  { intros es0 He0 Hl0. rewrite <- Ep. apply small_level_ok; [done|lia]. }
  assert (Hio : inner_ok (object_params KMeta) 8) by (split; [split; simpl; lia|simpl; lia..]).
  apply (edits_free_spec object_params 20 st k es es' 64 8);
    [apply Hes|by apply Hlev|by apply Hlev|exact Hio|..|exact Hc]; clear - Hl Hl'; unfold small; lia.
Qed.

Lemma small_build st k es :
  small_entries k es -> length es < 20 ->
  nodes_free st (tree_nodes 20 (object_params KMeta) k (object_params k) es) = true ->
  can_build object_params 20 st k es.
Proof.
  intros He Hl Hc. assert (Ep : object_params k = small_params) by (destruct He; by destruct k).
  constructor; [by destruct He| |done|unfold small; lia|done|by apply nodes_free_spec].
  exists 64, 8. rewrite Ep. split_and!; [apply small_level_ok; [done|lia]|split; simpl; lia|simpl; lia..].
Qed.

(** The version is new. *)
Definition cell_free w (key branch : Slice) (val : Value) : bool :=
  match PutUnkeyed lim_params lim_fuel (w_store w) val, snd (GetBranch (head_ver_ w) key branch) with
  | Some (kOK, Some root, st), Some p =>
      bool_decide (st !! Some (ver_hash (object_version (val_type val) key root [] p)) = None)
  | _, _ => true
  end.

Lemma cell_free_spec w key branch val : cell_free w key branch val = true -> fresh_cell w key branch val.
Proof.
  intros Hf p Hp root st c E Ec. unfold cell_free in Hf. rewrite E, Hp in Hf. apply bool_decide_eq_true in Hf.
  cbn [contents map_store_spec] in Ec. congruence.
Qed.

Definition items_small items : bool :=
  forallb (fun it => (map_EncodeNumBytes it <=? 64) && (len (kv_key it) <=? 8)) items && (length items <? 10).

Lemma items_small_spec items : items_small items = true ->
  Forall item_ok items /\ length (map_Encode1 <$> items) < 10 /\
  (key_sorted (kv_key <$> items) -> small_entries KMap (map_Encode1 <$> items)).
Proof.
  intros [Hf Hl]%andb_true_iff. apply Nat.ltb_lt in Hl. rewrite length_fmap.
  assert (Hi : Forall item_ok items).
  { apply Forall_forall. intros it Hit%list_elem_of_In. rewrite forallb_forall in Hf.
    apply Hf, andb_true_iff in Hit as [Hx _]. apply Nat.leb_le in Hx. unfold item_ok. lia. }
  split_and!; [done|done|]. intros Hs. by apply small_items.
Qed.

Definition set_check w (table branch : Slice) items (col b : Slice) : bool :=
  let items' := edit_items items [mkKV col b] col in
  (map_EncodeNumBytes (mkKV col b) <=? 64) && items_small items && items_small items' &&
  edit_free (w_store w) KMap (map_Encode1 <$> items) (map_Encode1 <$> items') &&
  bool_decide (root_of KMap (map_Encode1 <$> items') <> hash_kNull) &&
  cell_free w table branch (mkValue UMap (root_of KMap (map_Encode1 <$> items)) 0 0 [b] [col] []).

Lemma set_check_spec w table branch items col b :
  key_sorted (kv_key <$> items) -> set_check w table branch items col b = true ->
  set_room w table branch items col b.
Proof.
  intros Hs Hc. unfold set_check in Hc. rewrite !andb_true_iff in Hc. destruct Hc as (((((Hb & Hi) & Hi') & He) & Hn) & Hf).
  apply items_small_spec in Hi as (_ & Hl & Hes), Hi' as (Hok & Hl' & Hes'). apply Nat.leb_le in Hb.
  constructor; [unfold item_ok; lia| | |].
  - apply small_edit; [by apply Hes|by apply Hes', edit_items_sorted; naive_solver|done|done|done].
  - by apply bool_decide_eq_true in Hn.
  - by apply cell_free_spec.
Qed.

End Checks.
