(* ===== verification/RelationalProps.v ===== *)
(** * What the relational layer guarantees

    A table of the column store on a worker is a dictionary of lists: a finite map
    from column names to the values of the columns.  The operations are shown to do
    on the map what they are named after. *)

From S2P Require Import Prelude Types Slice HashVal Chunk RollingHash Node NodeSearch Chunker.
From S2P Require Import Canonical Leaf Store Cursor Builder Advanced Objects Build Tree TreeProps.
From S2P Require Import CursorProps KeySearch ReadProps CreateProps ObjectProps.
From S2P Require Import Recut LevelCursor EditChain EditCommit EditCursor Splice SpliceProps EditProps.
From S2P Require Import Comparator Iterator IteratorProps IteratorClaims.
From S2P Require Import Cell HeadVersion Worker Grow WorkerProps.
From S2P Require Import Messages WorkerService WorkerClient RpcProps RpcClaims ObjectDB ObjectDBProps.
From S2P Require Import Text Pipeline Relational Dict.

Section Tables.
Context `{HashFunction} `{Uninit} `{StdSort}.
Context {St : Type} `{ChunkStoreSpec St} `{InfoSource St} {HV : Type} `{HeadVersionSpec HV}.
Context `{Limits} `{!PutsOk St}.
Abbreviation W := (Worker HV St).
Abbreviation params := lim_params.
Abbreviation fuel := lim_fuel.
Abbreviation canon k := (canonical k (params k) (params KMeta)).
Abbreviation editable k := (can_edit k (params k) (params KMeta) fuel).
#[local] Existing Instances one_worker one_worker_spec.
Implicit Types (w : W) (table branch col : Slice) (v : Version) (items : list KVItem) (vals : list Slice).
Implicit Types (T : gmap Slice (list Slice)).

(** ** Reading *)

Abbreviation table_at := (dict_at (A := list Slice)).
Abbreviation table_rep := (dict_rep (A := list Slice)).
Abbreviation column_rep := (entry_rep (A := list Slice)).

Lemma ReadTable_rep w table branch v items T :
  table_at w table branch v items T ->
  exists tab, ReadTable table branch w = Some (inr tab, w) /\
    obj_rep fuel (mkLoader w table) (vo_root tab) KMap (map_Encode1 <$> items) /\ handle_on tab (v_data v).
Proof.
  intros Ht. destruct (dict_open _ _ _ _ _ _ Ht) as (n & tab & Eg & Em & Hr & Hon).
  exists tab. split_and!; [|done|done]. unfold ReadTable. rewrite Eg. osimpl. by rewrite Em.
Qed.

Lemma ReadColumn_rep w table col b vals :
  column_rep w table col b vals -> slice_ToHash b = Some b /\
  exists o cv, b = ver_hash cv /\ ReadColumn (GlobalKey table col) (Some b) w = Some (inr o, w) /\
    obj_rep fuel (mkLoader w (GlobalKey table col)) (vo_root o) KList (list_Encode1 <$> vals) /\
    handle_on o (v_data cv) /\ object_at w cv (GlobalKey table col) UList KList (list_Encode1 <$> vals).
Proof.
  intros Hc. destruct (entry_open w table col b vals VList_load (VList_new []) Hc) as (Eb & n & o & cv & -> & Eg & Eo & Hr & Hon & Ho);
    [done|]. split; [done|]. exists o, cv. split_and!; try done. unfold ReadColumn. run Eg. by apply reading_ok.
Qed.

(** [GetColumn] reads the column of the table, or reports that there is none. *)
Lemma GetColumn_rep w table branch v items T col :
  table_at w table branch v items T ->
  match T !! col with
  | Some vals => exists o cv, GetColumn fuel table branch col w = Some (inr o, w) /\ handle_on o (v_data cv) /\
      obj_rep fuel (mkLoader w (GlobalKey table col)) (vo_root o) KList (list_Encode1 <$> vals)
  | None => GetColumn fuel table branch col w = Some (inl kColumnNotExists, w)
  end.
Proof.
  intros Ht. destruct (ReadTable_rep _ _ _ _ _ _ Ht) as (tab & Et & Hr & _).
  pose proof (dict_Get_rep _ _ _ _ _ _ tab col Ht Hr) as Eg.
  assert (E : GetColumn fuel table branch col w
    = if hash_empty (slice_ToHash (default [] (assoc_value items col))) then Some (inl kColumnNotExists, w)
      else ReadColumn (GlobalKey table col) (slice_ToHash (default [] (assoc_value items col))) w).
  { unfold GetColumn. run Et. run Eg. by destruct (hash_empty _). }
  revert E. destruct (dt_entries _ _ _ _ _ _ Ht col) as [b vals Hc|]; intros E; [|exact E].
  destruct (ReadColumn_rep _ _ _ _ _ Hc) as (Eb & o & cv & _ & Ec & Ho & Hon & _). change (default [] (Some b)) with b in E. rewrite Eb in E.
  exists o, cv. split_and!; [|done|done]. by rewrite E, Ec.
Qed.

(** The values of a column that was read. *)
Lemma column_reads w table branch v items T col vals :
  table_at w table branch v items T -> T !! col = Some vals ->
  exists o, GetColumn fuel table branch col w = Some (inr o, w) /\
    obj_numElements (vo_root o) = Some (Z.of_nat (length vals)) /\
    forall i, column_Get fuel (GlobalKey table col) o (Z.of_nat i) w = Some (inr (default [] (vals !! i)), w).
Proof.
  intros Ht Hc. pose proof (GetColumn_rep _ _ _ _ _ _ col Ht) as HG. pose proof (dt_entries _ _ _ _ _ _ Ht col) as HC.
  rewrite Hc in HG, HC. inversion HC as [b ? (cv & _ & Ho & Hv)|]. subst. destruct HG as (o & _ & E & _ & Hr).
  pose proof (oa_small _ _ _ _ _ _ Ho : small (list_Encode1 <$> vals)) as Hs. exists o. split_and!; [done|..].
  - destruct Hr as (n & h & ht & Eo & _ & _ & Hn & _). unfold obj_numElements. rewrite Eo. osimpl.
    rewrite (node_numElements _ _ _ _ _ Hn Hs). by rewrite length_fmap.
  - unfold small in Hs. rewrite length_fmap in Hs. intros i. unfold column_Get. apply reading_ok.
    by apply UList_Get_rep.
Qed.

(** ** Writing a column *)

(** There is room for the column and its entry. *)
Record column_room w table branch items col (o : VObject) vals : Prop := {
  cm_key : (Z.of_nat (len (GlobalKey table col)) < kFieldMaxLength)%Z;
  cm_head : exists p, snd (GetBranch (head_ver_ w) (GlobalKey table col) branch) = Some p;
  cm_values : Forall value_ok vals;
  cm_cell : fresh_cell w (GlobalKey table col) branch (buffer_ o);
  cm_set : forall b w1, put (GlobalKey table col) o branch w = Some (inr (Some b), w1) ->
    set_room w1 table branch items col b
}.

(** The column is put and recorded, as all operations do that change one. *)
Lemma put_set_column w table branch v items T tab col o vals :
  worker_wf w -> branch <> [] -> table_at w table branch v items T -> handle_on tab (v_data v) ->
  dataStream_ o = None -> val_ctx (buffer_ o) = [] -> val_type (buffer_ o) = UList ->
  wrote (w_store w) (buffer_ o) KList (list_Encode1 <$> vals) -> readable KList (list_Encode1 <$> vals) ->
  column_room w table branch items col o vals ->
  exists b w', (let! col_ver := put (GlobalKey table col) o branch in set_column table branch tab col col_ver) w
      = Some (inr tt, w') /\
    heads (head_ver_ w') (GlobalKey table col) branch = Some (Some b) /\
    leads_to w table branch (edit_items items [mkKV col b] col) (<[col := vals]> T) w'.
Proof.
  intros Hw Hb Ht Htab Hs Hx Hty (root & st & Eput & Hc & Hl) Hr [Hk [p Hp] Hv Hfc Hset].
  destruct (put_object w (GlobalKey table col) branch p o root st KList _ Hw Hb Hk Hp Hs Hx ltac:(by rewrite Hty) Eput Hc Hl Hr Hfc)
    as (cv & w1 & Ep & _ & Ho & [Hw1 Hg1 Hh1]). rewrite Hty in Ho.
  assert (Ht1 : table_at w1 table branch v items T).
  { apply (dict_grows w); [done| |done]. rewrite Hh1. unfold upd. rewrite decide_False; [done|].
    intros [E _]. symmetry in E. by apply GlobalKey_not_table in E. }
  assert (Hkt : (Z.of_nat (len table) < kFieldMaxLength)%Z).
  { unfold GlobalKey, len in *. rewrite length_app in Hk. lia. }
  destruct (set_entry_rep w1 table branch v items T tab col cv vals Hw1 Hb Hkt Ht1 Htab Ho Hv (Hset _ _ Ep))
    as (w2 & E2 & Hh2 & Ht2 & Hw2 & Hg2).
  exists (ver_hash cv), w2. split_and!; [by run Ep| |split_and!; [done|done|by etransitivity]].
  rewrite Hh2, Hh1, upd_eq; [done|apply GlobalKey_not_table].
Qed.

(** ** The operations *)

Lemma PutColumn_rep w table branch items T col vals :
  worker_wf w -> branch <> [] -> table_rep w table branch items T ->
  can_build params fuel (w_store w) KList (list_Encode1 <$> vals) ->
  column_room w table branch items col (VList_new vals) vals ->
  exists b w', PutColumn table branch col vals w = Some (inr tt, w') /\
    heads (head_ver_ w') (GlobalKey table col) branch = Some (Some b) /\
    leads_to w table branch (edit_items items [mkKV col b] col) (<[col := vals]> T) w'.
Proof.
  intros Hw Hb [v Ht] Hcb Hroom. destruct (ReadTable_rep _ _ _ _ _ _ Ht) as (tab & Et & _ & Htab).
  destruct (put_set_column w table branch v items T tab col (VList_new vals) vals Hw Hb Ht Htab)
    as (b & w' & Ep & Hh & Hl); try done.
  { apply wrote_list; [done|by apply Hroom]. }
  { by eapply build_readable. }
  exists b, w'. split_and!; [|done|done]. unfold PutColumn. run Et. exact Ep.
Qed.

(** [PutColumn] on a table writes the column: the table then has the given
    values in this column, and all other columns as they were; [GetColumn] reads
    the values back, element by element, and every other column of the table as
    before. *)
Theorem put_column_refines w table branch items T col vals :
  worker_wf w -> branch <> [] -> table_rep w table branch items T ->
  can_build params fuel (w_store w) KList (list_Encode1 <$> vals) ->
  column_room w table branch items col (VList_new vals) vals ->
  exists b w', PutColumn table branch col vals w = Some (inr tt, w') /\ worker_wf w' /\
    table_rep w' table branch (edit_items items [mkKV col b] col) (<[col := vals]> T) /\
    (forall col' vals', <[col := vals]> T !! col' = Some vals' ->
       exists o, GetColumn fuel table branch col' w' = Some (inr o, w') /\
         obj_numElements (vo_root o) = Some (Z.of_nat (length vals')) /\
         forall i, column_Get fuel (GlobalKey table col') o (Z.of_nat i) w'
                   = Some (inr (default [] (vals' !! i)), w')) /\
    (forall col', <[col := vals]> T !! col' = None ->
       GetColumn fuel table branch col' w' = Some (inl kColumnNotExists, w')).
Proof.
  intros Hw Hb Ht Hcb Hroom.
  destruct (PutColumn_rep w table branch items T col vals Hw Hb Ht Hcb Hroom) as (b & w' & E & _ & (v' & Ht') & Hw' & _).
  exists b, w'. split_and!; [done|done|by exists v'|..].
  - intros col' vals' Hc'. by apply (column_reads w' table branch v' _ _ col' vals' Ht').
  - intros col' Hc'. pose proof (GetColumn_rep _ _ _ _ _ _ col' Ht') as HG. by rewrite Hc' in HG.
Qed.

(** [CreateTable] makes the table without columns, unless there is a branch of
    this name. *)
Lemma CreateTable_rep w table branch p :
  worker_wf w -> branch <> [] -> (Z.of_nat (len table) < kFieldMaxLength)%Z ->
  heads (head_ver_ w) table branch = None -> hash_kNull = Some p ->
  can_build params fuel (w_store w) KMap [] -> fresh_cell w table branch (buffer_ (VMap_new [] [])) ->
  exists w', CreateTable table branch w = Some (inr tt, w') /\ leads_to (A := list Slice) w table branch [] ∅ w'.
Proof.
  intros Hw Hb Hk Hh Hp Hcb Hfc.
  destruct (new_dict_rep (A := list Slice) w table branch p Hw Hb Hk Hh Hp Hcb Hfc) as (h & w' & Ep & Hl).
  exists w'. split; [|exact Hl].
  assert (Ex : odb_ExistsBranch w table branch = Some (kOK, false, w)).
  { unfold odb_ExistsBranch. rewrite one_call. cbn [local_call]. unfold Worker_ExistsBranch. cbn [fst snd].
    by rewrite ExistsBranch_spec, Hh. }
  assert (E : CreateTable table branch w = (do! put table (VMap_new [] []) branch in op_ret tt) w)
    by (unfold CreateTable; by rewrite Ex).
  rewrite E. by run Ep.
Qed.

(** ** Rows *)

(** An edit of a column: at which index, how many values are deleted, and the new
    ones. *)
Record Change := mkChange { ch_idx : nat; ch_del : nat; ch_new : list Slice }.

Definition changed (ch : Change) vals : list Slice :=
  take (ch_idx ch) vals ++ ch_new ch ++ drop (ch_idx ch + ch_del ch) vals.

(** There is room for the edited column and its entry. *)
Record splice_room w table branch items col vals (ch : Change) : Prop := {
  sp_edit : editable KList (w_store w) (list_Encode1 <$> vals) (list_Encode1 <$> changed ch vals);
  sp_idx : ch_idx ch <= length vals;
  sp_end : keeps_end (params KList) (list_Encode1 <$> vals) (ch_idx ch) (ch_del ch) (list_Encode1 <$> ch_new ch);
  sp_root : root_not_null KList (list_Encode1 <$> changed ch vals);
  sp_some : ch_del ch <> 0 \/ ch_new ch <> [];
  sp_new : Forall value_ok (ch_new ch);
  sp_column : forall o, dataStream_ o = None ->
    buffer_ o = mkValue UList (root_of KList (list_Encode1 <$> vals)) (Z.of_nat (ch_idx ch)) (Z.of_nat (ch_del ch)) (ch_new ch) [] [] ->
    column_room w table branch items col o (changed ch vals)
}.

(** What the loops over the fields of a row do first, and what they do then. *)
Lemma open_column w table branch v items T col vals :
  table_at w table branch v items T -> T !! col = Some vals ->
  exists tab b o root, ReadTable table branch w = Some (inr tab, w) /\ table_Get fuel table tab col w = Some (inr b, w) /\
    ReadColumn (GlobalKey table col) (slice_ToHash b) w = Some (inr o, w) /\
    num_elements o w = Some (inr (Z.of_nat (length vals)), w) /\ handle_on tab (v_data v) /\
    handle_on o root /\ canon KList (w_store w) root (list_Encode1 <$> vals).
Proof.
  intros Ht Hc. destruct (ReadTable_rep _ _ _ _ _ _ Ht) as (tab & Et & Hr & Htab).
  pose proof (dict_Get_rep _ _ _ _ _ _ tab col Ht Hr) as Eg. pose proof (dt_entries _ _ _ _ _ _ Ht col) as HC.
  rewrite Hc in HC. inversion HC as [b ? Hcol Eb|]. subst. rewrite <- Eb in Eg.
  destruct (ReadColumn_rep _ _ _ _ _ Hcol) as (Hb & o & cv & _ & Er & Ho & Hon & Hat).
  exists tab, b, o, (v_data cv). rewrite Hb. split_and!; try done; [|by apply Hat].
  unfold num_elements. apply reading_ok. destruct Ho as (n & h & ht & Eo & _ & _ & Hn & _).
  unfold obj_numElements. rewrite Eo. osimpl.
  rewrite (node_numElements _ _ _ _ _ Hn (oa_small _ _ _ _ _ _ Hat)). by rewrite length_fmap.
Qed.

Lemma splice_column w table branch v items T tab col o root vals (ch : Change) :
  worker_wf w -> branch <> [] -> table_at w table branch v items T -> T !! col = Some vals ->
  handle_on tab (v_data v) -> handle_on o root -> canon KList (w_store w) root (list_Encode1 <$> vals) ->
  splice_room w table branch items col vals ch ->
  exists o' b w', VList_Splice o (Z.of_nat (ch_idx ch)) (Z.of_nat (ch_del ch)) (ch_new ch) = Some o' /\
    (let! col_ver := put (GlobalKey table col) o' branch in set_column table branch tab col col_ver) w
      = Some (inr tt, w') /\
    heads (head_ver_ w') (GlobalKey table col) branch = Some (Some b) /\
    leads_to w table branch (edit_items items [mkKV col b] col) (<[col := changed ch vals]> T) w'.
Proof.
  intros Hw Hb Ht Hc Htab (m & Em & Hm & Hs) Hcan [He Hidx Hend Hnn Hne Hnew Hcr].
  set (o' := mkVObject (Some m) (mkValue UList (Some root) (Z.of_nat (ch_idx ch)) (Z.of_nat (ch_del ch)) (ch_new ch) [] []) None).
  destruct (put_set_column w table branch v items T tab col o' (changed ch vals) Hw Hb Ht Htab) as (b & w' & E & Hh & Hl);
    try done.
  - by apply wrote_splice.
  - by eapply edit_readable.
  - apply Hcr; [done|]. by rewrite (proj1 Hcan : root_of _ _ = _).
  - exists o', b, w'. split_and!; [|done|done|done]. unfold VList_Splice, edit. rewrite Em. osimpl. by rewrite Hm, Hs.
Qed.

(** What a change of every field of a row makes of the table. *)
Definition row_update (g : Slice -> list Slice -> list Slice) (T : gmap Slice (list Slice)) (row : list (Slice * Slice)) :
  gmap Slice (list Slice) := foldl (fun T fx => alter (g (snd fx)) (fst fx) T) T row.

(** A change of all columns. *)
Lemma row_update_all g items : forall (T : gmap Slice (list Slice)),
  NoDup (kv_key <$> items) -> (forall f, f ∈ kv_key <$> items <-> is_Some (T !! f)) ->
  row_update (fun _ => g) T ((fun it => (kv_key it, [])) <$> items) = g <$> T.
Proof.
  intros T Hnd Hall.
  assert (Hl : forall c, row_update (fun _ => g) T ((fun it => (kv_key it, [])) <$> items) !! c
    = if decide (c ∈ kv_key <$> items) then g <$> T !! c else T !! c).
  { clear Hall. revert T. induction items as [|it items IH]; intros T c.
    { by rewrite decide_False by apply not_elem_of_nil. }
    rewrite fmap_cons in Hnd. apply NoDup_cons in Hnd as [Hn Hnd]. rewrite fmap_cons. cbn [row_update foldl fst snd].
    change (foldl _ _ _) with (row_update (fun _ => g) (alter g (kv_key it) T) ((fun it => (kv_key it, [] : Slice)) <$> items)).
    rewrite IH by done. rewrite fmap_cons. destruct (decide (c = kv_key it)) as [->|Hne].
    - rewrite decide_False by done. rewrite decide_True by (by left). apply lookup_alter_eq.
    - rewrite lookup_alter_ne by done. repeat case_decide; try done; rewrite elem_of_cons in *; naive_solver. }
  apply map_eq. intros c. rewrite Hl, lookup_fmap. case_decide as Hd; [done|].
  destruct (T !! c) eqn:E; [|done]. destruct Hd. apply Hall. by rewrite E.
Qed.

Section RowLoop.
Variables (table branch : Slice) (step : Slice * Slice -> Op W unit).
Variables (ch : Slice -> list Slice -> Change) (ok : list Slice -> Prop).

(** There is room for the change of every field, in the states that the loop
    comes through. *)
Fixpoint row_room w items (T : gmap Slice (list Slice)) (row : list (Slice * Slice)) : Prop :=
  match row with
  | [] => True
  | (f, x) :: row' =>
      exists vals, T !! f = Some vals /\ ok vals /\ splice_room w table branch items f vals (ch x vals) /\
        forall b w1, step (f, x) w = Some (inr tt, w1) ->
          heads (head_ver_ w1) (GlobalKey table f) branch = Some (Some b) ->
          row_room w1 (edit_items items [mkKV f b] f) (<[f := changed (ch x vals) vals]> T) row'
  end.

Hypothesis Hstep : forall w items T f x vals,
  worker_wf w -> table_rep w table branch items T -> T !! f = Some vals -> ok vals ->
  splice_room w table branch items f vals (ch x vals) ->
  exists b w', step (f, x) w = Some (inr tt, w') /\
    heads (head_ver_ w') (GlobalKey table f) branch = Some (Some b) /\
    leads_to w table branch (edit_items items [mkKV f b] f) (<[f := changed (ch x vals) vals]> T) w'.

Lemma for_each_row (g : Slice -> list Slice -> list Slice) :
  (forall x vals, ok vals -> changed (ch x vals) vals = g x vals) ->
  forall row w items T, worker_wf w -> table_rep w table branch items T -> row_room w items T row ->
  exists w' items', for_each row step w = Some (inr tt, w') /\ worker_wf w' /\
    table_rep w' table branch items' (row_update g T row).
Proof.
  intros Hg. induction row as [|[f x] row IH]; intros w items T Hw Ht Hroom.
  { by exists w, items. }
  destruct Hroom as (vals & Hf & Hok & Hsp & Hrest).
  destruct (Hstep w items T f x vals Hw Ht Hf Hok Hsp) as (b & w1 & E1 & Hh & Ht1 & Hw1 & _).
  destruct (IH w1 _ _ Hw1 Ht1 (Hrest b w1 E1 Hh)) as (w' & items' & E & Hw' & Ht').
  exists w', items'. split_and!; [|done|].
  - cbn [for_each]. by run E1.
  - rewrite Hg in Ht' by done. cbn [row_update foldl fst snd]. replace (alter (g x) f T) with (<[f := g x vals]> T); [done|].
    apply map_eq. intros c. destruct (decide (c = f)) as [->|Hne].
    + by rewrite lookup_insert_eq, lookup_alter_eq, Hf.
    + by rewrite lookup_insert_ne, lookup_alter_ne.
Qed.

End RowLoop.

(** *** Checking a row against the columns *)

Lemma uncovered_rep (row : list (Slice * Slice)) : forall names,
  NoDup (fst <$> row) -> (forall f, f ∈ fst <$> row -> f ∈ names) ->
  uncovered names row = Some (filter (fun c => c ∉ fst <$> row) names).
Proof.
  induction row as [|[f x] row IH]; intros names Hnd Hin; cbn [uncovered].
  - f_equal. clear Hin. induction names as [|c names IHn]; [done|].
    rewrite filter_cons_True by apply not_elem_of_nil. by rewrite <- IHn.
  - rewrite fmap_cons in *. cbn [fst] in *. apply NoDup_cons in Hnd as [Hnf Hnd].
    rewrite decide_True by (apply Hin; by left). rewrite IH; [|done|].
    + f_equal. rewrite list_filter_filter. apply list_filter_iff. intros c. rewrite not_elem_of_cons. naive_solver.
    + intros c Hc. apply list_elem_of_filter. split; [by intros ->|]. apply Hin. by right.
Qed.

Lemma uncovered_None (row : list (Slice * Slice)) : forall names f, f ∈ fst <$> row -> f ∉ names -> uncovered names row = None.
Proof.
  induction row as [|[f0 x] row IH]; intros names f Hf Hn; cbn [uncovered].
  - by apply not_elem_of_nil in Hf.
  - rewrite fmap_cons in Hf. cbn [fst] in Hf. case_decide as Hd; [|done]. apply elem_of_cons in Hf as [->|Hf]; [done|].
    apply (IH _ f Hf). rewrite list_elem_of_filter. naive_solver.
Qed.

Lemma Validate_rep w table branch v items T (row : list (Slice * Slice)) :
  table_at w table branch v items T ->
  Validate fuel row table branch w
  = Some (match uncovered (kv_key <$> items) row with Some rest => inr (length rest) | None => inl kInvalidSchema end, w).
Proof.
  intros Ht. destruct (ReadTable_rep _ _ _ _ _ _ Ht) as (tab & Et & Hr & _).
  unfold Validate. run Et. run (scan_dict_rep _ _ _ _ _ _ tab Ht Hr). rewrite <- list_fmap_compose.
  change (fst ∘ (fun it : KVItem => (kv_key it, kv_val it))) with kv_key. by destruct (uncovered _ row).
Qed.

(** *** The loops over the fields *)

Lemma manip_field_step table branch (i del : nat) (new : Slice -> list Slice) : branch <> [] ->
  forall w items T f x vals,
  worker_wf w -> table_rep w table branch items T -> T !! f = Some vals -> i < length vals ->
  splice_room w table branch items f vals (mkChange i del (new x)) ->
  exists b w',
    manip_field fuel table branch (Z.of_nat i) (fun (o : VObject) x => VList_Splice o (Z.of_nat i) (Z.of_nat del) (new x)) (f, x) w
      = Some (inr tt, w') /\
    heads (head_ver_ w') (GlobalKey table f) branch = Some (Some b) /\
    leads_to w table branch (edit_items items [mkKV f b] f) (<[f := changed (mkChange i del (new x)) vals]> T) w'.
Proof.
  intros Hb w items T f x vals Hw [v Ht] Hf Hi Hroom.
  destruct (open_column _ _ _ _ _ _ _ _ Ht Hf) as (tab & b0 & o & root & Et & Eg & Ec & En & Htab & Hon & Hcan).
  destruct (splice_column w table branch v items T tab f o root vals _ Hw Hb Ht Hf Htab Hon Hcan Hroom)
    as (o' & b & w' & Eo & Ep & Hh & Hl).
  exists b, w'. split_and!; [|done|done]. unfold manip_field. cbn [fst snd]. run Et. run Eg. run Ec. run En.
  rewrite (proj2 (Z.leb_gt _ _)) by lia. cbn [ch_idx ch_del ch_new] in Eo. run Eo. exact Ep.
Qed.

Lemma insert_field_step table branch : branch <> [] ->
  forall w items T f x vals,
  worker_wf w -> table_rep w table branch items T -> T !! f = Some vals -> True ->
  splice_room w table branch items f vals (mkChange (length vals) 0 [x]) ->
  exists b w', insert_field fuel table branch (f, x) w = Some (inr tt, w') /\
    heads (head_ver_ w') (GlobalKey table f) branch = Some (Some b) /\
    leads_to w table branch (edit_items items [mkKV f b] f) (<[f := changed (mkChange (length vals) 0 [x]) vals]> T) w'.
Proof.
  intros Hb w items T f x vals Hw [v Ht] Hf _ Hroom.
  destruct (open_column _ _ _ _ _ _ _ _ Ht Hf) as (tab & b0 & o & root & Et & Eg & Ec & En & Htab & Hon & Hcan).
  destruct (splice_column w table branch v items T tab f o root vals _ Hw Hb Ht Hf Htab Hon Hcan Hroom)
    as (o' & b & w' & Eo & Ep & Hh & Hl).
  assert (Ea : VList_Append o [x] = Some o').
  { unfold num_elements, reading in En. apply bind_Some in En as (n & En & [= ->]).
    unfold VList_Append. rewrite En. exact Eo. }
  exists b, w'. split_and!; [|done|done]. unfold insert_field. cbn [fst snd]. run Et. run Eg. run Ec. run Ea. exact Ep.
Qed.

(** [UpdateRow] on a table replaces the fields of the row at the index: every
    column that the row names has the new value there and keeps its other
    values, and the columns that it does not name stay.  If the row names a
    column that the table does not have, the result is [kInvalidSchema] and
    nothing is changed. *)
Theorem update_row_refines w table branch items T (i : nat) (row : list (Slice * Slice)) :
  worker_wf w -> branch <> [] -> table_rep w table branch items T ->
  ((exists f, f ∈ fst <$> row /\ T !! f = None) ->
     UpdateRow fuel table branch (Z.of_nat i) row w = Some (inl kInvalidSchema, w)) /\
  (NoDup (fst <$> row) -> (forall f, f ∈ fst <$> row -> is_Some (T !! f)) ->
   row_room table branch
     (manip_field fuel table branch (Z.of_nat i) (fun (o : VObject) x => VList_Splice o (Z.of_nat i) 1 [x]))
     (fun x _ => mkChange i 1 [x]) (fun vals => i < length vals) w items T row ->
   exists w' items', UpdateRow fuel table branch (Z.of_nat i) row w = Some (inr tt, w') /\ worker_wf w' /\
     table_rep w' table branch items' (row_update (fun x vals => <[i := x]> vals) T row)).
Proof.
  intros Hw Hb [v Ht]. pose proof (Validate_rep w table branch v items T row Ht) as Ev. split.
  - intros (f & Hf & Hn). rewrite (uncovered_None row _ f Hf) in Ev; [by unfold UpdateRow; rewrite (bind_fail _ _ _ _ _ Ev)|].
    rewrite (dict_names _ _ _ _ _ _ f Ht), Hn. by intros [? ?].
  - intros Hnd Hin Hroom. rewrite uncovered_rep in Ev; [|done|].
    + destruct (for_each_row table branch _ (fun x _ => mkChange i 1 [x]) (fun vals => i < length vals)
        (manip_field_step table branch i 1 (fun x => [x]) Hb) (fun x vals => <[i := x]> vals)) with (4 := Hroom)
        as (w' & items' & E & Hw' & Ht').
      * intros x vals Hl. unfold changed. cbn. rewrite insert_take_drop by done. by rewrite Nat.add_1_r.
      * done.
      * by exists v.
      * exists w', items'. split_and!; [|done|done]. unfold UpdateRow. run Ev. exact E.
    + intros f Hf. by apply (dict_names _ _ _ _ _ _ f Ht), Hin.
Qed.

(** C27.  [InsertRow] on a table of a worker, with each field named at most once
    and a branch name that is not empty: the row must name every column and no
    other, otherwise the result is [kInvalidSchema] and nothing is changed; if
    it does, and there is room for the change of every column ([row_room]:
    canonical trees within the limits of editing, short keys, successful writes
    and no hash collisions), every column gets the value that the row has for
    it as its last one, and nothing else changes in the table. *)
Theorem insert_row_refines w table branch items T (row : list (Slice * Slice)) :
  worker_wf w -> branch <> [] -> table_rep w table branch items T -> NoDup (fst <$> row) ->
  ((exists f, ~ (f ∈ fst <$> row <-> is_Some (T !! f))) ->
     InsertRow fuel table branch row w = Some (inl kInvalidSchema, w)) /\
  ((forall f, f ∈ fst <$> row <-> is_Some (T !! f)) ->
   row_room table branch (insert_field fuel table branch)
     (fun x vals => mkChange (length vals) 0 [x]) (fun _ => True) w items T row ->
   exists w' items', InsertRow fuel table branch row w = Some (inr tt, w') /\ worker_wf w' /\
     table_rep w' table branch items' (row_update (fun x vals => vals ++ [x]) T row)).
Proof.
  intros Hw Hb [v Ht] Hnd. pose proof (Validate_rep w table branch v items T row Ht) as Ev.
  pose proof (fun f => dict_names _ _ _ _ _ _ f Ht) as Hnames. split.
  - intros (f & Hf). destruct (uncovered (kv_key <$> items) row) as [rest|] eqn:Eu.
    + assert (Hin : forall c, c ∈ fst <$> row -> c ∈ kv_key <$> items).
      { intros c Hc. destruct (decide (c ∈ kv_key <$> items)) as [|Hn]; [done|].
        by rewrite (uncovered_None row _ c Hc Hn) in Eu. }
      rewrite uncovered_rep in Eu by done. injection Eu as <-. unfold InsertRow. run Ev.
      assert (Hr : f ∈ filter (fun c => c ∉ fst <$> row) (kv_key <$> items)).
      { apply list_elem_of_filter. rewrite <- Hnames in Hf. pose proof (Hin f) as Hi. 
        destruct (decide (f ∈ fst <$> row)); destruct (decide (f ∈ kv_key <$> items)); naive_solver. }
      by destruct (filter _ _); [apply not_elem_of_nil in Hr|].
    + unfold InsertRow. by rewrite (bind_fail _ _ _ _ _ Ev).
  - intros Hin Hroom. rewrite uncovered_rep in Ev; [|done|].
    + destruct (for_each_row table branch _ (fun x vals => mkChange (length vals) 0 [x]) (fun _ => True)
        (insert_field_step table branch Hb) (fun x vals => vals ++ [x])) with (4 := Hroom)
        as (w' & items' & E & Hw' & Ht').
      * intros x vals _. unfold changed. cbn [ch_idx ch_del ch_new].
        rewrite Nat.add_0_r, take_ge, drop_ge by done. done.
      * done.
      * by exists v.
      * exists w', items'. split_and!; [|done|done]. unfold InsertRow. run Ev.
        assert (Er : filter (fun c => c ∉ fst <$> row) (kv_key <$> items) = []).
        { apply elem_of_nil_inv. intros c (Hc & Hk)%list_elem_of_filter. apply Hc, Hin, Hnames, Hk. }
        by rewrite Er.
    + intros f Hf. by apply Hnames, Hin.
Qed.

(** [DeleteRow] on a table removes the value at the index from every column. *)
Theorem delete_row_refines w table branch items T (i : nat) :
  worker_wf w -> branch <> [] -> table_rep w table branch items T ->
  row_room table branch
    (manip_field fuel table branch (Z.of_nat i) (fun (o : VObject) x => VList_Splice o (Z.of_nat i) 1 []))
    (fun x _ => mkChange i 1 []) (fun vals => i < length vals) w items T ((fun it => (kv_key it, [])) <$> items) ->
  exists w' items', DeleteRow fuel table branch (Z.of_nat i) w = Some (inr tt, w') /\ worker_wf w' /\
    table_rep w' table branch items' (delete i <$> T).
Proof.
  intros Hw Hb [v Ht] Hroom. destruct (ReadTable_rep _ _ _ _ _ _ Ht) as (tab & Et & Hr & _).
  assert (Es : GetTableSchema fuel table branch w = Some (inr ((fun it => (kv_key it, [])) <$> items), w)).
  { unfold GetTableSchema. run Et. run (scan_dict_rep _ _ _ _ _ _ tab Ht Hr). by rewrite <- list_fmap_compose. }
  destruct (for_each_row table branch _ (fun x _ => mkChange i 1 []) (fun vals => i < length vals)
    (manip_field_step table branch i 1 (fun _ => []) Hb) (fun _ vals => delete i vals)) with (4 := Hroom)
    as (w' & items' & E & Hw' & Ht').
  - intros x vals Hl. unfold changed. cbn [ch_idx ch_del ch_new app]. rewrite Nat.add_1_r. symmetry. apply delete_take_drop.
  - done.
  - by exists v.
  - exists w', items'. split_and!; [|done|].
    + unfold DeleteRow. run Es. exact E.
    + erewrite <- row_update_all; [exact Ht'|..].
      * by apply key_sorted_NoDup, (dt_sorted _ _ _ _ _ _ Ht).
      * intros f. by apply (dict_names _ _ _ _ _ _ f Ht).
Qed.

End Tables.

(** ** Checking that there is room *)

Section Checks.
#[local] Existing Instances plain_hash zeroed map_store map_store_spec merge_std_sort no_info small_limits map_puts_ok one_worker.
Abbreviation M := (gmap Hash Chunk).
Abbreviation W := (Worker SimpleHeadVersion (gmap Hash Chunk)).
Abbreviation edit_free := (edits_free object_params 20).
Implicit Types (w : W) (items : list KVItem).

Definition column_check w (table branch : Slice) items (col : Slice) (o : VObject) (vals : list Slice) : bool :=
  (Z.of_nat (len (GlobalKey table col)) <? kFieldMaxLength)%Z &&
  bool_decide (is_Some (snd (GetBranch (head_ver_ w) (GlobalKey table col) branch))) &&
  forallb (fun s => len s <=? 12) vals && cell_free w (GlobalKey table col) branch (buffer_ o) &&
  match put (GlobalKey table col) o branch w with
  | Some (inr (Some b), w1) => set_check w1 table branch items col b
  | _ => true
  end.

Lemma column_check_spec w table branch items col o vals :
  key_sorted (kv_key <$> items) -> column_check w table branch items col o vals = true ->
  column_room w table branch items col o vals.
Proof.
  intros Hs Hc. unfold column_check in Hc. rewrite !andb_true_iff in Hc. destruct Hc as ((((Hk & Hp) & Hv) & Hf) & Hset).
  apply Z.ltb_lt in Hk. apply bool_decide_eq_true in Hp as [p Hp].
  constructor; [done|by exists p|by apply small_list in Hv as [_ ?]|by apply cell_free_spec|].
  intros b w1 E. rewrite E in Hset. by apply set_check_spec.
Qed.

(** The object that a splice of the column writes, whatever its handle is. *)
Definition spliced (vals : list Slice) (ch : Change) : VObject :=
  mkVObject None (mkValue UList (root_of KList (list_Encode1 <$> vals)) (Z.of_nat (ch_idx ch))
    (Z.of_nat (ch_del ch)) (ch_new ch) [] []) None.

Definition keeps (vals : list Slice) (ch : Change) : bool :=
  negb (length (list_Encode1 <$> ch_new ch) + length (drop (ch_idx ch + ch_del ch) vals) =? 0).

Definition splice_check w (table branch : Slice) items (col : Slice) (vals : list Slice) (ch : Change) : bool :=
  (length vals <? 10) && (length (changed ch vals) <? 10) &&
  forallb (fun s => len s <=? 12) vals && forallb (fun s => len s <=? 12) (changed ch vals) &&
  forallb (fun s => len s <=? 12) (ch_new ch) &&
  edit_free (w_store w) KList (list_Encode1 <$> vals) (list_Encode1 <$> changed ch vals) &&
  (ch_idx ch <=? length vals) && keeps vals ch &&
  bool_decide (root_of KList (list_Encode1 <$> changed ch vals) <> hash_kNull) &&
  negb (ch_del ch + length (ch_new ch) =? 0) &&
  column_check w table branch items col (spliced vals ch) (changed ch vals).

Lemma splice_check_spec w table branch items col vals ch :
  key_sorted (kv_key <$> items) -> splice_check w table branch items col vals ch = true ->
  splice_room w table branch items col vals ch.
Proof.
  intros Hs Hc. unfold splice_check in Hc. rewrite !andb_true_iff in Hc.
  destruct Hc as ((((((((((Hl & Hl') & Hv) & Hv') & Hn) & He) & Hi) & Hk) & Hr) & Hd) & Hcol).
  apply Nat.ltb_lt in Hl, Hl'. apply Nat.leb_le in Hi. apply negb_true_iff, Nat.eqb_neq in Hk, Hd.
  apply small_list in Hv as [Hv _], Hv' as [Hv' _], Hn as [_ Hn].
  constructor; [|done| |by apply bool_decide_eq_true in Hr| |done|].
  - apply small_edit; [done|done|by rewrite length_fmap|by rewrite length_fmap|exact He].
  - left. intros E. apply (f_equal length) in E. rewrite length_app, <- fmap_drop, length_fmap in E.
    rewrite length_fmap in Hk. simpl in E. rewrite length_fmap in E. lia.
  - destruct (ch_new ch); [left; simpl in Hd; lia|by right].
  - intros o Eo Eb. apply column_check_spec; [done|]. unfold column_check, put, odb_Put in Hcol |- *.
    rewrite Eo, Eb. exact Hcol.
Qed.

(** Along a row. *)
Fixpoint row_check (step : Slice * Slice -> Op W unit) (ch : Slice -> list Slice -> Change) (ok : list Slice -> bool)
    (table branch : Slice) w (items : list KVItem) (T : gmap Slice (list Slice)) (row : list (Slice * Slice)) : bool :=
  match row with
  | [] => true
  | (f, x) :: row' =>
      match T !! f with
      | None => false
      | Some vals =>
          ok vals && splice_check w table branch items f vals (ch x vals) &&
          match step (f, x) w with
          | Some (inr tt, w1) =>
              match heads (head_ver_ w1) (GlobalKey table f) branch with
              | Some (Some b) =>
                  row_check step ch ok table branch w1 (edit_items items [mkKV f b] f)
                    (<[f := changed (ch x vals) vals]> T) row'
              | _ => true
              end
          | _ => true
          end
      end
  end.

Lemma row_check_spec step ch ok (okP : list Slice -> Prop) table branch (row : list (Slice * Slice)) :
  (forall vals, ok vals = true -> okP vals) -> forall w items T,
  key_sorted (kv_key <$> items) -> row_check step ch ok table branch w items T row = true ->
  row_room table branch step ch okP w items T row.
Proof.
  intros Hok. induction row as [|[f x] row IH]; intros w items T Hs Hc; [done|]. cbn [row_check] in Hc.
  destruct (T !! f) as [vals|] eqn:Ef; [|done]. rewrite !andb_true_iff in Hc. destruct Hc as ((Ho & Hsp) & Hrest).
  exists vals. split_and!; [done|by apply Hok|by apply splice_check_spec|].
  intros b w1 E Hh. rewrite E, Hh in Hrest. apply IH; [|done]. by apply edit_items_sorted; naive_solver.
Qed.

End Checks.

(** ** Witnesses: a table on an empty worker *)

Section RelationalWitnesses.
#[local] Existing Instances plain_hash zeroed map_store map_store_spec merge_std_sort no_info small_limits map_puts_ok one_worker.
Abbreviation W := (Worker SimpleHeadVersion (gmap Hash Chunk)).
Abbreviation table_rep := (dict_rep (A := list Slice)).

Definition tab_t : Slice := lit "t".
Definition on_m : Slice := lit "m".
Definition col_a : Slice := lit "a".
Definition col_b : Slice := lit "b".

(** The state after an operation. *)
Definition state_after {A} (m : Op W A) (w : W) : W := match m w with Some (_, w') => w' | None => w end.

Lemma state_after_eq {A} (m : Op W A) w r w' : m w = Some (r, w') -> state_after m w = w'.
Proof. intros E. unfold state_after. by rewrite E. Qed.

Definition sample_table : W := state_after (CreateTable tab_t on_m) empty_worker.

Lemma sample_table_rep :
  worker_wf sample_table /\ table_rep sample_table tab_t on_m [] ∅.
Proof.
  destruct (CreateTable_rep (empty_worker : W) tab_t on_m zero_hash) as (w' & E & Ht & Hw & _).
  - apply empty_worker_wf.
  - done.
  - done.
  - by vm_compute.
  - done.
  - apply small_build; [by apply (items_small_spec []); [|constructor]|simpl; lia|by vm_compute].
  - apply cell_free_spec. by vm_compute.
  - assert (Ea : sample_table = w') by exact (state_after_eq (CreateTable tab_t on_m) _ _ _ E).
    rewrite Ea. exact (conj Hw Ht).
Qed.

Definition table_vals : list Slice := [lit "1"; lit "2"].

Lemma sample_can_build : can_build object_params 20 (w_store sample_table) KList (list_Encode1 <$> table_vals).
Proof. apply small_build; [by apply small_list|simpl; lia|by vm_compute]. Qed.

Lemma sample_column_room :
  column_room sample_table tab_t on_m [] col_a (VList_new table_vals) table_vals.
Proof. apply column_check_spec; [constructor|by vm_compute]. Qed.

Lemma put_column_refines_witness : exists w' o,
  PutColumn tab_t on_m col_a table_vals sample_table = Some (inr tt, w') /\
  GetColumn 20 tab_t on_m col_a w' = Some (inr o, w') /\
  column_Get 20 (GlobalKey tab_t col_a) o 1 w' = Some (inr (lit "2"), w') /\
  GetColumn 20 tab_t on_m col_b w' = Some (inl kColumnNotExists, w').
Proof.
  destruct sample_table_rep as [Hw Ht].
  destruct (put_column_refines sample_table tab_t on_m [] ∅ col_a table_vals Hw
    ltac:(done) Ht sample_can_build sample_column_room) as (b & w' & E & _ & _ & R & N).
  destruct (R col_a table_vals) as (o & G & _ & V); [by apply lookup_insert_eq|].
  exists w', o. split_and!; [exact E|exact G|exact (V 1)|]. apply N. by rewrite lookup_insert_ne.
Defined.

(** The table with a column. *)
Definition sample_columns : W := state_after (PutColumn tab_t on_m col_a table_vals) sample_table.
Definition sample_T : gmap Slice (list Slice) := {[col_a := table_vals]}.

Lemma sample_columns_rep : exists b,
  heads (head_ver_ sample_columns) (GlobalKey tab_t col_a) on_m = Some (Some b) /\
  worker_wf sample_columns /\ table_rep sample_columns tab_t on_m [mkKV col_a b] sample_T.
Proof.
  destruct sample_table_rep as [Hw Ht].
  destruct (PutColumn_rep sample_table tab_t on_m [] ∅ col_a table_vals Hw
    ltac:(done) Ht sample_can_build sample_column_room) as (b & w' & E & Hh & Ht' & Hw' & _).
  assert (Ea : sample_columns = w') by exact (state_after_eq (PutColumn tab_t on_m col_a table_vals) _ _ _ E).
  exists b. rewrite Ea. exact (conj Hh (conj Hw' Ht')).
Qed.

(** The checks in this state. *)
Definition sample_check (f : list KVItem -> bool) : bool :=
  match heads (head_ver_ sample_columns) (GlobalKey tab_t col_a) on_m with
  | Some (Some b) => f [mkKV col_a b]
  | _ => false
  end.

Lemma sample_row_room step ch ok (okP : list Slice -> Prop) row b :
  heads (head_ver_ sample_columns) (GlobalKey tab_t col_a) on_m = Some (Some b) ->
  (forall vals, ok vals = true -> okP vals) ->
  sample_check (fun items => row_check step ch ok tab_t on_m sample_columns items sample_T row) = true ->
  row_room tab_t on_m step ch okP sample_columns [mkKV col_a b] sample_T row.
Proof.
  intros Hb Hok Hc. unfold sample_check in Hc. rewrite Hb in Hc.
  apply (row_check_spec step ch ok); [done|by repeat constructor|exact Hc].
Qed.

Lemma sample_row : NoDup [col_a] /\ forall f, f ∈ [col_a] <-> is_Some (sample_T !! f).
Proof.
  split; [apply NoDup_singleton|]. intros f. rewrite list_elem_of_singleton. unfold sample_T. split.
  - intros ->. by rewrite lookup_singleton_eq.
  - intros [x Hx]. by apply lookup_singleton_Some in Hx as [<- _].
Qed.

Lemma update_row_refines_witness : exists w' items',
  UpdateRow 20 tab_t on_m 1 [(col_a, lit "9")] sample_columns = Some (inr tt, w') /\
  table_rep w' tab_t on_m items' (<[col_a := [lit "1"; lit "9"]]> sample_T) /\
  UpdateRow 20 tab_t on_m 1 [(col_b, lit "9")] sample_columns = Some (inl kInvalidSchema, sample_columns).
Proof.
  destruct sample_columns_rep as (b & Hb & Hw & Ht).
  destruct (update_row_refines sample_columns tab_t on_m _ _ 1 [(col_a, lit "9")] Hw
    ltac:(done) Ht) as [_ R].
  destruct (update_row_refines sample_columns tab_t on_m _ _ 1 [(col_b, lit "9")] Hw
    ltac:(done) Ht) as [N _].
  destruct R as (w' & items' & E & _ & Ht').
  - apply sample_row.
  - intros f Hf. by apply sample_row.
  - apply (sample_row_room _ _ (fun vals => 1 <? length vals)); [exact Hb|by intros vals ?%Nat.ltb_lt|].
    vm_compute. reflexivity.
  - exists w', items'. split_and!; [exact E|exact Ht'|].
    apply N. exists col_b. split; [by left|]. vm_compute. reflexivity.
Defined.

Lemma insert_row_refines_witness : exists w' items',
  InsertRow 20 tab_t on_m [(col_a, lit "3")] sample_columns = Some (inr tt, w') /\
  table_rep w' tab_t on_m items' (<[col_a := table_vals ++ [lit "3"]]> sample_T).
Proof.
  destruct sample_columns_rep as (b & Hb & Hw & Ht).
  destruct (insert_row_refines sample_columns tab_t on_m _ _ [(col_a, lit "3")] Hw
    ltac:(done) Ht) as [_ R].
  - apply sample_row.
  - destruct R as (w' & items' & E & _ & Ht').
    + intros f. apply sample_row.
    + apply (sample_row_room _ _ (fun _ => true)); [exact Hb|done|]. vm_compute. reflexivity.
    + exists w', items'. split; [exact E|exact Ht'].
Defined.

Lemma delete_row_refines_witness : exists w' items',
  DeleteRow 20 tab_t on_m 0 sample_columns = Some (inr tt, w') /\
  table_rep w' tab_t on_m items' (<[col_a := [lit "2"]]> sample_T).
Proof.
  destruct sample_columns_rep as (b & Hb & Hw & Ht).
  destruct (delete_row_refines sample_columns tab_t on_m _ _ 0 Hw
    ltac:(done) Ht) as (w' & items' & E & _ & Ht').
  - apply (sample_row_room _ _ (fun vals => 0 <? length vals)); [exact Hb|by intros vals ?%Nat.ltb_lt|].
    vm_compute. reflexivity.
  - exists w', items'. split; [exact E|exact Ht'].
Defined.

(** ** What does not hold *)

(** [UpdateRow] is not atomic: on columns of different lengths it reports
    [kIndexOutOfRange] for the shorter one after the longer one was changed, and
    the change stays. *)
Theorem update_row_not_atomic :
  let w := state_after (PutColumn tab_t on_m col_b [lit "x"]) sample_columns in
  let r := UpdateRow 20 tab_t on_m 1 [(col_a, lit "9"); (col_b, lit "y")] in
  fst <$> r w = Some (inl kIndexOutOfRange) /\
  (fun c => fst <$> (let! o := GetColumn 20 tab_t on_m c in scan_column 20 (GlobalKey tab_t c) o) w) <$> [col_a; col_b]
    = [Some (inr [(0, lit "1"); (1, lit "2")]%Z); Some (inr [(0, lit "x")]%Z)] /\
  (fun c => fst <$> (let! o := GetColumn 20 tab_t on_m c in scan_column 20 (GlobalKey tab_t c) o) (state_after r w)) <$> [col_a; col_b]
    = [Some (inr [(0, lit "1"); (1, lit "9")]%Z); Some (inr [(0, lit "x")]%Z)].
Proof. split_and!; by vm_compute. Qed.

(** [GetTableSize] of a table without columns fails the check of the iterator. *)
Theorem table_size_empty : GetTableSize 20 tab_t on_m sample_table = None.
Proof. by vm_compute. Qed.

(** The keys of two columns of two tables can be the same. *)
Theorem column_keys_collide : GlobalKey (lit "a") (lit "b::c") = GlobalKey (lit "a::b") (lit "c").
Proof. done. Qed.

End RelationalWitnesses.
