(* ===== verification/BlobStoreProps.v ===== *)
(** * What the dataset layer guarantees

    A dataset on a worker is a dictionary of blobs: a finite map from entry names
    to contents.  Putting, getting and deleting an entry are shown to do on the map
    what they are named after; names that are given as lists of attributes are told
    apart. *)

From S2P Require Import Prelude Types Slice HashVal Chunk RollingHash Node NodeSearch Chunker.
From S2P Require Import Canonical Leaf Store Cursor Builder Advanced Objects Build Tree TreeProps.
From S2P Require Import CursorProps KeySearch ReadProps CreateProps ObjectProps.
From S2P Require Import Recut LevelCursor EditChain EditCommit EditCursor Splice SpliceProps EditProps.
From S2P Require Import Comparator Iterator IteratorProps IteratorClaims.
From S2P Require Import Cell HeadVersion Worker Grow WorkerProps.
From S2P Require Import Messages WorkerService WorkerClient RpcProps RpcClaims ObjectDB ObjectDBProps.
From S2P Require Import Text Pipeline Relational BlobStore Dict.

Section Datasets.
Context `{HashFunction} `{Uninit} `{StdSort} `{Boost}.
Context {St : Type} `{ChunkStoreSpec St} `{InfoSource St} {HV : Type} `{HeadVersionSpec HV}.
Context `{Limits} `{!PutsOk St}.
Abbreviation W := (Worker HV St).
Abbreviation params := lim_params.
Abbreviation fuel := lim_fuel.
#[local] Existing Instances one_worker one_worker_spec.
Implicit Types (w : W) (ds branch name : Slice) (v : Version) (items : list KVItem) (data : bytes).
Implicit Types (T : gmap Slice bytes) (n : EntryName).

Abbreviation dataset_at := (dict_at (A := bytes)).
Abbreviation dataset_rep := (dict_rep (A := bytes)).

(** ** Reading *)

Lemma ReadDataset_rep w ds branch v items T :
  dataset_at w ds branch v items T ->
  exists tab, ReadDataset ds branch w = Some (inr tab, w) /\
    obj_rep fuel (mkLoader w ds) (vo_root tab) KMap (map_Encode1 <$> items) /\ handle_on tab (v_data v).
Proof.
  intros Ht. destruct (dict_open _ _ _ _ _ _ Ht) as (n & tab & Eg & Em & Hr & Hon).
  exists tab. split_and!; [|done|done]. unfold ReadDataset. rewrite Eg. osimpl. by rewrite Em.
Qed.

(** What [GetDataEntry] shows of a dataset with these entries. *)
Definition shows w ds branch name (content : option bytes) : Prop :=
  match content with
  | None => ImplGetDataEntry fuel ds branch name w = Some (inl kDataEntryNotExists, w)
  | Some data =>
      exists o, ImplGetDataEntry fuel ds branch name w = Some (inr o, w) /\
        obj_numElements (vo_root o) = Some (Z.of_nat (length data)) /\
        forall pos len_, UBlob_Read fuel (mkLoader w (GlobalKey ds name)) (vo_root o) (Z.of_nat pos) len_
          = Some (if decide (len_ = 0) then drop pos data else take len_ (drop pos data))
  end.

Lemma GetDataEntry_rep w ds branch v items T name :
  dataset_at w ds branch v items T -> shows w ds branch name (T !! name).
Proof.
  intros Ht. destruct (ReadDataset_rep _ _ _ _ _ _ Ht) as (tab & Et & Hr & _).
  pose proof (dict_Get_rep _ _ _ _ _ _ tab name Ht Hr) as Eg.
  assert (E : ImplGetDataEntry fuel ds branch name w
    = if hash_empty (slice_ToHash (default [] (assoc_value items name))) then Some (inl kDataEntryNotExists, w)
      else ReadDataEntry ds name (slice_ToHash (default [] (assoc_value items name))) w).
  { unfold ImplGetDataEntry, GetDataset. run Et. unfold ds_Get. run Eg. by destruct (hash_empty _). }
  revert E. destruct (dt_entries _ _ _ _ _ _ Ht name) as [b data Hc|]; intros E; [|exact E].
  destruct (entry_open w ds name b data VBlob_load (VBlob_new []) Hc) as (Eb & n & o & cv & -> & En & Eo & Ho & _ & Hat);
    [done|]. change (default [] (Some (ver_hash cv))) with (ver_hash cv) in E. rewrite Eb in E.
  pose proof (oa_small _ _ _ _ _ _ Hat : small (blob_entries data)) as Hs.
  assert (Hl : length (blob_entries data) = length data) by apply length_fmap.
  exists o. split_and!.
  - rewrite E. cbn [hash_empty]. unfold ReadDataEntry. run En. by apply reading_ok.
  - destruct Ho as (n' & h & ht & Eo' & _ & _ & Hn & _). unfold obj_numElements. rewrite Eo'. osimpl.
    by rewrite (node_numElements _ _ _ _ _ Hn Hs), <- Hl.
  - intros pos len_. apply UBlob_Read_rep; [exact Ho|]. unfold small in *. by rewrite Hl in Hs.
Qed.

(** ** Writing *)

(** There is room for the blob and for its entry. *)
Record entry_room w ds branch items name data : Prop := {
  er_key : (Z.of_nat (len (GlobalKey ds name)) < kFieldMaxLength)%Z;
  er_blob : can_build params fuel (w_store w) KBlob (blob_entries data);
  er_cell : forall p, prev_version (default [] (assoc_value items name)) = Some p ->
    fresh_version w (GlobalKey ds name) p (buffer_ (VBlob_new data));
  er_set : forall b w1, WriteDataEntry ds name data (prev_version (default [] (assoc_value items name))) w
      = Some (inr (Some b), w1) -> set_room w1 ds branch items name b
}.

(** The version that a new version of the entry builds on is there. *)
Lemma prev_version_known w ds branch v items T name :
  dataset_at w ds branch v items T ->
  exists p, prev_version (default [] (assoc_value items name)) = Some p /\ length p = kByteLength /\
    hash_eq (Some p) hash_kNull || Exists_ver w (Some p) = true.
Proof.
  intros Ht. unfold prev_version. destruct (dt_entries _ _ _ _ _ _ Ht name) as [b data Hc|].
  - destruct (entry_open w ds name b data VBlob_load (VBlob_new []) Hc) as (Eb & _); [done|].
    destruct Hc as (cv & -> & Ho & _). change (default [] (Some (ver_hash cv))) with (ver_hash cv). rewrite Eb. cbn [hash_empty].
    exists (ver_hash cv). split_and!; [done|apply length_ComputeFrom|].
    unfold Exists_ver. rewrite Exists_spec, orb_true_iff, bool_decide_eq_true. right.
    destruct (oa_cell _ _ _ _ _ _ Ho) as (c & Ec & _). by exists c.
  - cbn. by eexists.
Qed.

Lemma PutDataEntry_rep w ds branch items T name data :
  worker_wf w -> branch <> [] -> dataset_rep w ds branch items T -> entry_room w ds branch items name data ->
  exists b w', ImplPutDataEntry fuel ds branch name data w = Some (inr (Some b), w') /\
    leads_to w ds branch (edit_items items [mkKV name b] name) (<[name := data]> T) w'.
Proof.
  intros Hw Hb [v Ht] [Hk Hcb Hfc Hset]. destruct (ReadDataset_rep _ _ _ _ _ _ Ht) as (tab & Et & Hr & Htab).
  pose proof (dict_Get_rep _ _ _ _ _ _ tab name Ht Hr) as Eg.
  destruct (prev_version_known _ _ _ _ _ _ name Ht) as (p & Ep & Hpl & Hp).
  destruct (wrote_blob (w_store w) data Hcb) as (root & st & Eput & Hc & Hl).
  destruct (put_object_ver w (GlobalKey ds name) p (VBlob_new data) root st KBlob (blob_entries data) Hw Hk Hpl Hp)
    as (cv & w1 & Ew & Ho & Hw1 & Hg1 & Hh1); try done.
  { by eapply build_readable. }
  { by apply Hfc. }
  assert (Ew' : WriteDataEntry ds name data (prev_version (default [] (assoc_value items name))) w
    = Some (inr (Some (ver_hash cv)), w1)).
  { unfold WriteDataEntry. rewrite Ep. by apply call_ok. }
  assert (Ht1 : dataset_at w1 ds branch v items T) by (by apply (dict_grows w)).
  assert (Hkt : (Z.of_nat (len ds) < kFieldMaxLength)%Z).
  { unfold GlobalKey, len in *. rewrite length_app in Hk. lia. }
  destruct (set_entry_rep w1 ds branch v items T tab name cv data Hw1 Hb Hkt Ht1 Htab Ho I (Hset _ _ Ew'))
    as (w2 & E2 & _ & Ht2 & Hw2 & Hg2).
  exists (ver_hash cv), w2. split; [|split_and!; [done|done|by etransitivity]].
  unfold ImplPutDataEntry. run Et. unfold ds_Get. run Eg. run Ew'. by run E2.
Qed.

(** [PutDataEntry] on a dataset, for a name that is accepted, writes the entry:
    the dataset then has the given content under this name and all other entries as
    they were, and [GetDataEntry] reads every entry's content, at every position,
    and reports [kDataEntryNotExists] for all other names.  A name that is not
    accepted is refused and nothing changes. *)
Theorem put_entry_refines w ds branch items T n data :
  worker_wf w -> branch <> [] -> dataset_rep w ds branch items T ->
  (name_check n <> kOK ->
     PutDataEntry fuel ds branch n data w = Some (inl (name_check n), w)) /\
  (name_check n = kOK -> entry_room w ds branch items (name_store n) data ->
   exists b w', PutDataEntry fuel ds branch n data w = Some (inr (Some b), w') /\ worker_wf w' /\
     dataset_rep w' ds branch (edit_items items [mkKV (name_store n) b] (name_store n)) (<[name_store n := data]> T) /\
     forall name, shows w' ds branch name (<[name_store n := data]> T !! name)).
Proof.
  intros Hw Hb Ht. unfold PutDataEntry, with_name. split.
  - intros Hn. apply bind_fail. unfold guard. by rewrite decide_False.
  - intros Hn Hroom. destruct (PutDataEntry_rep w ds branch items T _ data Hw Hb Ht Hroom)
      as (b & w' & E & (v' & Ht') & Hw' & _).
    exists b, w'. split_and!; [|done|by exists v'|].
    + erewrite bind_ok; [exact E|]. unfold guard. by rewrite decide_True.
    + intros name. by eapply GetDataEntry_rep.
Qed.

(** [DeleteDataEntry] removes the entry, and leaves all others. *)
Theorem delete_entry_refines w ds branch items T n :
  worker_wf w -> branch <> [] -> (Z.of_nat (len ds) < kFieldMaxLength)%Z -> dataset_rep w ds branch items T ->
  name_check n = kOK -> remove_room w ds branch items (name_store n) ->
  exists w', DeleteDataEntry ds branch n w = Some (inr tt, w') /\ worker_wf w' /\
    dataset_rep w' ds branch (edit_items items [] (name_store n)) (base.delete (name_store n) T) /\
    forall name, shows w' ds branch name (base.delete (name_store n) T !! name).
Proof.
  intros Hw Hb Hk [v Ht] Hn Hroom. destruct (ReadDataset_rep _ _ _ _ _ _ Ht) as (tab & Et & _ & Htab).
  destruct (remove_entry_rep w ds branch v items T tab (name_store n) Hw Hb Hk Ht Htab Hroom)
    as (tab' & h & w' & Er & Ep & (v' & Ht') & Hw' & _).
  exists w'. split_and!; [|done|by exists v'|].
  - unfold DeleteDataEntry, with_name. erewrite bind_ok; [|unfold guard; by rewrite decide_True].
    unfold ImplDeleteDataEntry. run Et. run Er. by run Ep.
  - intros name. by eapply GetDataEntry_rep.
Qed.

End Datasets.

(** ** Names *)

Section EntryNames.
Context `{BoostSpec}.

Lemma attr_no_sep attr : ValidateEntryNameAttr attr = kOK -> Forall (fun c => c ∉ kEntryNameSepForStore) attr.
Proof.
  unfold ValidateEntryNameAttr. destruct (contains attr kEntryNameSepForStore) eqn:E; [done|]. intros _.
  apply Forall_forall. intros c Hc Hs. change (c ∈ [x5e]) in Hs. apply list_elem_of_singleton in Hs. subst c.
  apply list_elem_of_split in Hc as (l & r & ->).
  assert (Hx : contains (l ++ x5e :: r) kEntryNameSepForStore = true) by (apply contains_spec; by exists l, r).
  by rewrite Hx in E.
Qed.

Lemma attrs_no_sep attrs :
  ValidateEntryName_attrs attrs = kOK -> Forall (Forall (fun c => c ∉ kEntryNameSepForStore)) attrs.
Proof.
  induction attrs as [|a attrs IH]; intros E; [constructor|]. cbn in E.
  destruct (ValidateEntryNameAttr a) eqn:Ea; try done. constructor; [by apply attr_no_sep|by apply IH].
Qed.

(** The attributes can be read off the stored name. *)
Lemma fields_store attrs : attrs <> [] -> Forall (Forall (fun c => c ∉ kEntryNameSepForStore)) attrs ->
  fields kEntryNameSepForStore (EntryNameForStore_attrs attrs) = attrs.
Proof.
  unfold EntryNameForStore_attrs, ToStringSeq. intros Hne Hf. induction Hf as [|a attrs Ha _ IH]; [done|].
  destruct attrs as [|b attrs]; [by apply fields_last|].
  change (join kEntryNameSepForStore (a :: b :: attrs)) with (a ++ x5e :: join kEntryNameSepForStore (b :: attrs)).
  rewrite fields_app; [|done|by left]. f_equal. by apply IH.
Qed.

(** Names that are given as lists of attributes are told apart: two lists that are
    accepted and not empty are stored under the same name only if they are equal. *)
Theorem entry_names_distinct attrs attrs' :
  attrs <> [] -> attrs' <> [] -> name_check (inr attrs) = kOK -> name_check (inr attrs') = kOK ->
  name_store (inr attrs) = name_store (inr attrs') -> attrs = attrs'.
Proof.
  cbn. intros Hn Hn' Hc Hc' E. rewrite <- (fields_store attrs Hn), <- (fields_store attrs' Hn') by (by apply attrs_no_sep).
  by rewrite E.
Qed.

End EntryNames.

(** ** Witnesses: a dataset on an empty worker *)

Section DatasetWitnesses.
#[local] Existing Instances plain_hash zeroed map_store map_store_spec merge_std_sort no_info plain_boost
  small_limits map_puts_ok one_worker.
Abbreviation W := (Worker SimpleHeadVersion (gmap Hash Chunk)).
Abbreviation dataset_rep := (dict_rep (A := bytes)).
Implicit Types (w : W) (items : list KVItem).

(** The version on top of [p] is new. *)
Definition version_free w (key : Slice) (p : bytes) (val : Value) : bool :=
  match PutUnkeyed lim_params lim_fuel (w_store w) val with
  | Some (kOK, Some root, st) =>
      bool_decide (st !! Some (ver_hash (object_version (val_type val) key root [] p)) = None)
  | _ => true
  end.

Definition entry_check w (ds branch : Slice) items (name : Slice) (data : bytes) : bool :=
  let prev := prev_version (default [] (assoc_value items name)) in
  (Z.of_nat (len (GlobalKey ds name)) <? kFieldMaxLength)%Z && (length data <? 20) &&
  nodes_free (w_store w) (tree_nodes 20 (object_params KMeta) KBlob (object_params KBlob) (blob_entries data)) &&
  from_option (fun p => version_free w (GlobalKey ds name) p (buffer_ (VBlob_new data))) true prev &&
  match WriteDataEntry ds name data prev w with
  | Some (inr (Some b), w1) => set_check w1 ds branch items name b
  | _ => true
  end.

Lemma entry_check_spec w ds branch items name data :
  key_sorted (kv_key <$> items) -> entry_check w ds branch items name data = true ->
  entry_room w ds branch items name data.
Proof.
  intros Hs Hc. unfold entry_check in Hc. rewrite !andb_true_iff in Hc. destruct Hc as ((((Hk & Hl) & Hn) & Hv) & Hset).
  apply Z.ltb_lt in Hk. apply Nat.ltb_lt in Hl. constructor; [done| | |].
  - apply small_build; [apply small_blob| |exact Hn]. clear - Hl. unfold blob_entries. by rewrite length_fmap.
  - intros p Ep root st c E Ec. rewrite Ep in Hv. cbn [from_option] in Hv. unfold version_free in Hv. rewrite E in Hv.
    apply bool_decide_eq_true in Hv. cbn [contents map_store_spec] in Ec. congruence.
  - intros b w1 E. rewrite E in Hset. by apply set_check_spec.
Qed.

Definition ds_d : Slice := lit "d".
Definition on_master : Slice := lit "master".
Definition sample_dataset : W := match put ds_d (VMap_new [] []) on_master (empty_worker : W) with Some (_, w) => w | None => empty_worker end.

Lemma sample_dataset_rep : worker_wf sample_dataset /\ dataset_rep sample_dataset ds_d on_master [] ∅.
Proof.
  destruct (new_dict_rep (A := bytes) (empty_worker : W) ds_d on_master zero_hash) as (h & w' & E & Ht & Hw & _).
  - apply empty_worker_wf.
  - done.
  - done.
  - by vm_compute.
  - done.
  - apply small_build; [by apply (items_small_spec []); [|constructor]|simpl; lia|by vm_compute].
  - apply cell_free_spec. by vm_compute.
  - assert (Ea : sample_dataset = w') by (unfold sample_dataset; by rewrite E). rewrite Ea. exact (conj Hw Ht).
Qed.

Lemma put_entry_refines_witness : exists b w' o,
  PutDataEntry 20 ds_d on_master (inr [lit "k"; lit "1"]) (lit "abc") sample_dataset = Some (inr (Some b), w') /\
  ImplGetDataEntry 20 ds_d on_master (lit "k^1") w' = Some (inr o, w') /\
  UBlob_Read 20 (mkLoader w' (GlobalKey ds_d (lit "k^1"))) (vo_root o) 0 0 = Some (lit "abc") /\
  ImplGetDataEntry 20 ds_d on_master (lit "k") w' = Some (inl kDataEntryNotExists, w') /\
  PutDataEntry 20 ds_d on_master (inr [lit "k^1"]) (lit "abc") sample_dataset
    = Some (inl kIllegalDataEntryNameAttr, sample_dataset).
Proof.
  destruct sample_dataset_rep as [Hw Ht].
  destruct (put_entry_refines sample_dataset ds_d on_master [] ∅ (inr [lit "k"; lit "1"]) (lit "abc") Hw
    ltac:(done) Ht) as [_ R].
  destruct (put_entry_refines sample_dataset ds_d on_master [] ∅ (inr [lit "k^1"]) (lit "abc") Hw
    ltac:(done) Ht) as [N _].
  destruct R as (b & w' & E & _ & _ & S); [by vm_compute|apply entry_check_spec; [constructor|by vm_compute]|].
  destruct (S (lit "k^1")) as (o & G & _ & V).
  exists b, w', o. split_and!; [exact E|exact G|exact (V 0 0)|exact (S (lit "k"))|].
  apply N. by vm_compute.
Defined.

(** The dataset with two entries. *)
Definition entry_a : bytes := lit "a".
Definition entry_b : bytes := lit "b".
Definition put_state (w : W) (name data : bytes) : W :=
  match ImplPutDataEntry 20 ds_d on_master name data w with Some (_, w') => w' | None => w end.
Definition put_hash (w : W) (name data : bytes) : bytes :=
  match ImplPutDataEntry 20 ds_d on_master name data w with Some (inr (Some b), _) => b | _ => [] end.

Lemma put_state_rep w items (T : gmap Slice bytes) name data :
  worker_wf w -> key_sorted (kv_key <$> items) -> dataset_rep w ds_d on_master items T ->
  entry_check w ds_d on_master items name data = true ->
  worker_wf (put_state w name data) /\
  dataset_rep (put_state w name data) ds_d on_master (edit_items items [mkKV name (put_hash w name data)] name)
    (<[name := data]> T).
Proof.
  intros Hw Hs Ht Hc.
  destruct (PutDataEntry_rep w ds_d on_master items T name data Hw ltac:(done) Ht (entry_check_spec _ _ _ _ _ _ Hs Hc))
    as (b & w' & E & Ht' & Hw' & _).
  assert (Es : put_state w name data = w') by (unfold put_state; cbn [lim_fuel small_limits] in E; by rewrite E).
  assert (Eh : put_hash w name data = b) by (unfold put_hash; cbn [lim_fuel small_limits] in E; by rewrite E).
  by rewrite Es, Eh.
Qed.

Definition dataset_a : W := put_state sample_dataset entry_a (lit "abc").
Definition items_a : list KVItem := edit_items [] [mkKV entry_a (put_hash sample_dataset entry_a (lit "abc"))] entry_a.
Definition dataset_ab : W := put_state dataset_a entry_b (lit "de").
Definition items_ab : list KVItem := edit_items items_a [mkKV entry_b (put_hash dataset_a entry_b (lit "de"))] entry_b.

Lemma dataset_ab_rep :
  worker_wf dataset_ab /\ key_sorted (kv_key <$> items_ab) /\
  dataset_rep dataset_ab ds_d on_master items_ab {[entry_b := lit "de"; entry_a := lit "abc"]}.
Proof.
  destruct sample_dataset_rep as [Hw Ht].
  destruct (put_state_rep sample_dataset [] ∅ entry_a (lit "abc") Hw ltac:(constructor) Ht) as [Hwa Hta]; [by vm_compute|].
  assert (Hsa : key_sorted (kv_key <$> items_a)) by (apply edit_items_sorted; [constructor|naive_solver]).
  assert (Hsb : key_sorted (kv_key <$> items_ab)) by (apply edit_items_sorted; [done|naive_solver]).
  destruct (put_state_rep dataset_a items_a _ entry_b (lit "de") Hwa Hsa Hta) as [Hwb Htb]; [by vm_compute|].
  split_and!; [exact Hwb|exact Hsb|exact Htb].
Qed.

Definition remove_check w (ds branch : Slice) items (col : Slice) : bool :=
  let items' := edit_items items [] col in
  items_small items && items_small items' &&
  edits_free object_params 20 (w_store w) KMap (map_Encode1 <$> items) (map_Encode1 <$> items') &&
  negb (length (drop (key_pos items col + key_count items col) items) =? 0) &&
  bool_decide (root_of KMap (map_Encode1 <$> items') <> hash_kNull) &&
  cell_free w ds branch (mkValue UMap (root_of KMap (map_Encode1 <$> items)) 0 1 [] [col] []).

Lemma remove_check_spec w ds branch items col :
  key_sorted (kv_key <$> items) -> remove_check w ds branch items col = true -> remove_room w ds branch items col.
Proof.
  intros Hs Hc. unfold remove_check in Hc. rewrite !andb_true_iff in Hc. destruct Hc as (((((Hi & Hi') & He) & Hd) & Hn) & Hf).
  apply items_small_spec in Hi as (_ & Hl & Hes), Hi' as (Hok & Hl' & Hes').
  constructor.
  - apply small_edit; [by apply Hes|by apply Hes', edit_items_sorted; naive_solver|done|done|exact He].
  - left. apply negb_true_iff, Nat.eqb_neq in Hd. intros E. apply (f_equal length) in E.
    rewrite length_app, <- fmap_drop, length_fmap in E. simpl in E. lia.
  - by apply bool_decide_eq_true in Hn.
  - by apply cell_free_spec.
Qed.

Lemma delete_entry_refines_witness : exists w',
  DeleteDataEntry ds_d on_master (inl entry_a) dataset_ab = Some (inr tt, w') /\
  ImplGetDataEntry 20 ds_d on_master entry_a w' = Some (inl kDataEntryNotExists, w').
Proof.
  destruct dataset_ab_rep as (Hw & Hs & Ht).
  destruct (delete_entry_refines dataset_ab ds_d on_master items_ab _ (inl entry_a) Hw ltac:(done) ltac:(done) Ht)
    as (w' & E & _ & _ & S); [by vm_compute|apply remove_check_spec; [exact Hs|by vm_compute]|].
  exists w'. split; [exact E|]. specialize (S entry_a). rewrite lookup_delete_eq in S. exact S.
Defined.

(** A name may be accepted that is stored under the name of other attributes: the
    name as a whole is not checked, since the two separators are the same. *)
Example entry_names_mixed :
  name_check (inl (lit "a^b")) = kOK /\ name_store (inl (lit "a^b")) = name_store (inr [lit "a"; lit "b"]).
Proof. by vm_compute. Qed.

End DatasetWitnesses.
